(* ===== verification/_CoqProject ===== *)
-Q . S2P
Prelude.v
Framing.v
GoStrings.v
GoURL.v
GoNet.v
Socks5.v
TerminalSafe.v
MtlsExec.v
Cors.v
TunnelProps.v
Deadline.v
Datagram.v
PacketListener.v
TransportConfig.v
Ech.v
DialRoutes.v
DialRace.v
TransportDial.v
ConfigResolve.v
Domains.v
AutoTransport.v
Reconciler.v
TunnelConfig.v
Runner.v
Uploads.v
FilePolicy.v
RtcTransfer.v
Transcript.v
DockerSource.v
ApplySource.v
WebttyCrypto.v
WebttyAuth.v
WebttySession.v
WebttySessionInv.v
WebttySessionSteps.v
WebttySessionProps.v
WebttySessionChild.v
WebttySessionEnd.v
WebttySessionOutput.v
WebttySecure.v
WebttyServer.v
ControlChannel.v
ControlInv.v
ControlSteps.v
ControlProps.v
ControlEnd.v
Transports.v
Liveness.v
