(* ===== verification/Prelude.v ===== *)
(** * A verification of rstream-go

    rstream-go is the client of the rstream tunnelling service.  An application
    connects to an engine over TLS or QUIC ([client.go], [transport.go],
    [quic_transport.go], [auto_transport.go]), negotiates a control channel, creates
    tunnels on it ([tunnel.go], [tunnel_properties.go]) and serves the connections
    and datagrams the engine proxies to it ([net.go], [packet_deadline.go]).  Around
    this core are the layers that configure it ([config/], [controlplane/]), resolve and
    reach the engine through proxies and with Encrypted Client Hello ([dial_routes.go],
    [proxy_config.go], [socks5_proxy.go], [internal/ech/]), apply HTTP policies
    ([httpcors/]), serve files with durable uploads over HTTP and WebRTC ([filesystem/]),
    serve terminals ([webtty/]) and keep tunnels running from the command line
    ([cmd/rstream/internal/]).

    ** Method

    Go functions are Rocq functions of the same name.  Pure code is a function;
    fallible code returns [result]; code that mutates shared objects threads a state
    record in which objects reached through pointers live in heaps under addresses.
    A concurrent component is a state with a program counter for every goroutine and
    every call in progress, and one function per critical section, channel operation
    or answer of the environment; its [step] runs one of them, so that every
    interleaving of the Go code is a sequence of steps, and theorems about it are
    about all reachable states.  Panics, blocking for ever and waiting are outcomes.
    Machine integers are [Z] with their wrap-around written out ([u16], [u64],
    [i64], ...), bytes are [Byte.byte], maps are [gmap].

    ** Files

    - [Prelude]: results, machine integers, bytes and big-endian codecs, byte streams,
      Go channels, reachability, hints and tactics.
    - [GoStrings], [GoURL], [GoNet]: what the code uses of [strings], [strconv],
      [net/url] and the IP addresses of [net] and [net/netip].
    - [Framing] ([net.go], [addr.go]): length-prefixed messages, protobuf messages over
      them, the stream/packet adapters.
    - [Socks5] ([socks5_proxy.go], [withContextConnDeadline] of [proxy_config.go]): proxy
      configuration, the handshake as a state and error monad over the connection, UDP
      associations.
    - [TerminalSafe] ([cmd/rstream/cmd/terminal_sanitize.go]): untrusted text on a terminal,
      with the decoding of UTF-8.
    - [MtlsExec] ([internal/mtlsexec]): certificates whose key is held by a helper program.
    - [Cors] ([httpcors/cors.go]): normalisation, policy, preflight, response writer.
    - [TunnelProps] ([tunnel_properties.go], [types.go], [helpers.go]): properties,
      normalisation, protobuf conversion, forwarding addresses.
    - [Deadline] ([packet_deadline.go]): the resettable deadline.
    - [Datagram] ([quic_transport.go], part of [client.go]): datagram channels, their
      identifiers, queues, registration and routing.
    - [PacketListener] ([net.go]): [packetListenerWrapper].
    - [TransportConfig] ([config/transport.go], [ParseTunnelTransportMode]): layered
      settings and their flattening into dialers.
    - [Ech] ([internal/ech], [ech_client.go]): configuration lists, DNS queries, aliases,
      the cache, the dial with its retry.
    - [DialRoutes], [DialRace] ([dns_resolution.go], [dial_routes.go]): addresses, routes,
      and the race of routes; [TransportDial] ([transport.go], [proxy_config.go]) dials one,
      through HTTP CONNECT or SOCKS5 where asked for.
    - [ConfigResolve] ([config/], [controlplane/project.go], [headers.go]): contexts,
      engines, credentials, regions.
    - [Domains] ([stable_domains.go], [webhook.go]): generated names, signed payloads.
    - [AutoTransport] ([auto_transport.go]): the race of QUIC and TLS.
    - [Reconciler] ([cmd/rstream/internal/reconciler], [runmodel]): desired against
      running tunnels.
    - [TunnelConfig], [DockerSource], [ApplySource] ([cmd/rstream/internal/tunnelconfig],
      [rundocker], [runapply]): where desired tunnels come from.
    - [Runner] ([cmd/rstream/internal/runengine], [netretry], [sessiongroup],
      [engine_error.go]): retries, delays, sessions.
    - [Uploads] ([filesystem/preconditions.go], [receipts.go], [atomic_upload.go]):
      conditions on revisions, the journalled upload, its recovery and its receipts, over
      a disk with failing operations, crashes and other processes.
    - [FilePolicy] ([filesystem/filesystem.go]): what an export lets clients see and change,
      over a disk with symbolic links.
    - [RtcTransfer] ([filesystem/rtc/]): a response over a data channel with credits.
    - [Transcript], [WebttyCrypto], [WebttyAuth] ([webtty/auth_proof.go], [e2e_crypto.go],
      [auth_handshake.go]): what WebTTY signs and encrypts, its key grants, the handshake.
    - [WebttySession] ([webtty/session.go], [termination.go]): a session with all its
      goroutines and its child; [WebttySessionInv] and [WebttySessionSteps] its invariant,
      [WebttySessionProps], [WebttySessionChild], [WebttySessionEnd] and
      [WebttySessionOutput] what follows, [WebttySecure] the session under encryption.
    - [WebttyServer] ([webtty/server.go], [auth.go], [session_id.go]): the table of sessions.
    - [ControlChannel] ([client.go], [tunnel.go]): [controlChannelImpl] and its tunnels;
      [ControlInv] its invariant, [ControlSteps] its preservation by every step,
      [ControlProps] and [ControlEnd] what follows.
    - [Transports] ([client.go]): draining proxy transports, the registry of dials, the
      write lock and the write path.
    - [Liveness] ([client.go]): configuration, negotiated liveness, heartbeats, the dial
      policy.

    ** What is shown

    - Control channel: no interleaving panics or blocks for ever; every [CreateTunnel] is
      answered; the tunnel table and the accounting of proxy responses are exact; the
      first error is kept and published once; a closed channel can always finish, which
      releases its callers; heartbeats are numbered and acknowledged in a window; the
      negotiated liveness is sound.
    - Transports: a draining transport is closed once and not under a stream; closing the
      client cancels its dials; a failed write that sent bytes ends the channel.  The race
      of QUIC and TLS loses no connection, pins one transport and has no lost wakeup.
    - Data path: frames round-trip and truncated ones yield nothing; datagrams reach the
      channel they are addressed to, in order and in bounded queues; packet connections
      route replies to their peer and shut down; deadlines wake their readers.
    - Configuration: settings are layered associatively; both dialers receive exactly the
      options asked for.  Properties round-trip through their wire form, and the ones
      a tunnel is created with are valid.
    - SOCKS5: the handshake takes and gives exactly the protocol's bytes, sends
      credentials only where configured and chosen, and failed dials leave nothing open.
    - CORS: responses carry exactly the headers the policy grants, and only admitted
      requests reach the application.
    - Run: a round of the reconciler equals a per-tunnel reference in every map order, no
      tunnel runs twice or is forgotten, retries follow a bounded schedule, and closing a
      session group waits for its sessions.
    - Uploads: an upload identity takes effect at most once, whatever crashes; receipts
      tell the truth and never change; recovery is never stuck; a request is answered
      once, and commits when its operations succeed; readers without the lock lose
      nothing; conditions compare lists of entity tags.

    - File system: no request, whatever its names and the links on the disk, changes or
      shows anything outside the export or hidden by its policy; changes made by others
      between check and operation cannot lead it outside the root; listings are exact.
      Over WebRTC a reader gets what the handler wrote, flow control never breaks the
      protocol and a transfer always comes to its end.
    - Dialing: the race of routes leaves one connection open at most and ends within a
      number of steps; routes enumerate all pairs of addresses; a configuration list is
      parsed exactly; a known list is never downgraded; DNSSEC answers are authenticated;
      a failed dial through a proxy leaves nothing open.
    - Terminal text: what is printed is printable UTF-8 without control characters.
    - External signers: an identity is loaded once and is the enrolled one; a signature is
      used only when it verifies; helpers are bounded in number.
    - Credentials and sources: a stored credential only goes to the engine of its context;
      Docker labels cannot forward outside their container; a configuration file that
      loads is accepted by the reconciler; resolved options are consistent; generated
      domains are well formed; webhook signatures bind time and body.
    - WebTTY: signed and authenticated bytes determine their fields; an accepted proof or
      hello is one its signer made for this session; encrypted payloads arrive only under
      the session, stream and number they were sent with; no session panics, messages
      follow the protocol, output is what the child wrote, end to end; children are
      signalled only by their owner, sessions and handlers can finish.

    Six defects of the code are theorems too: a closed datagram channel can stay
    registered ([Datagram.closed_channel_stays_registered]), [Reconciler.Stop] can return
    while tunnels run ([Reconciler.stop_returns_early]), a change of the CORS
    configuration behind a shared pointer is missed ([Reconciler.cors_change_missed]), a
    WebTTY child is never waited for when its acknowledgement cannot be written
    ([WebttySessionChild.session_leaves_zombie]), names of tunnels from Docker collide
    ([DockerSource.docker_names_collide]), and an error answered to HEAD fails over WebRTC
    ([RtcTransfer.rtc_head_error_fails]).

    ** Fuel, bounds and parameters

    [digits_fuel] has 32 digits, enough for 64-bit numbers; [ipv6_loop] has eight groups,
    the size of an address; [read_all] is used with at least as much fuel as there are
    bytes; [match_loop] consumes a tag a round and has the length of the header;
    [parse_configs] consumes four bytes a round and has the length of the list;
    [lookupConfigList] follows at most [maxLookupDepth] aliases, as the code does;
    [filepath.EvalSymlinks] and the walk of [os.Root] follow at most 255 and 8 links, the
    limits of Go; [parse_chain] stops at its seventeenth certificate; [strip_loop] and
    [runes] consume a byte a round; a tree is visited to the code's own depth of 64 and 10000 entries.  Sequence
    numbers of heartbeats, session numbers and counters wrap at their
    width; where a theorem needs that they have not wrapped, the bound is a condition of
    the step relation or a hypothesis ([group_moves], [heartbeat_window]).

    Code outside the repository is a parameter: the protobuf codec ([Framing], with
    its round trip as hypothesis), [timestamppb] and [httpguts.ValidHeaderFieldName]
    ([Env]), the build's FIPS flag and whether a transport is QUIC ([Env]), reading a CA
    file ([TransportConfig]), [net.ResolveUDPAddr] ([Socks5]), SHA-256 ([Uploads], whose
    path policy and request fingerprint are arbitrary functions too), AES-GCM, HPKE and
    ECDH ([Crypto], with their laws in [CryptoLaws]), ECDSA ([Signing]), the DNS library and
    [/etc/resolv.conf] ([Ech]), host lookups ([DialRoutes]), [path.Match] and the order of
    directories ([FilePolicy]), keychains, certificates and the expiry of tokens
    ([ConfigResolve]), Unicode letters ([DockerSource]), hashes, signatures, PEM, X.509, JSON
    and the syntax of durations ([MtlsExec]).  What peers, dialers, proxies,
    starters, clocks, contexts and random numbers do is the environment of the steps.

    ** Not modelled

    The TLS, QUIC and WebRTC stacks and code that is a sequence of calls into them (QUIC
    dialing, MASQUE, HTTP/3, the TURN client, the negotiation of peers), because its
    behaviour is theirs; the management and control-plane REST clients, the login flows
    and doctor, which build requests and decode JSON; the files, keychains and environment
    of [config/] and the processes of helpers, which are the operating system's; the WebDAV handler (a library), archives and the lock of mutations
    of [filesystem/], and the loss of directory entries that were not synced; the
    interactive WebTTY client and its key files; watching of files and of Docker events;
    the byte relays of the runner; the terminal user interface, the tool server and the
    flags of the command line; generated protobuf code. *)

From Stdlib Require Export ZArith Lia.
From stdpp Require Export base gmap strings list relations.
From Stdlib.Strings Require Export Byte.

#[global] Open Scope Z_scope.

(** ** Results: Go's [(value, error)] pairs as a sum *)

Inductive result (E A : Type) : Type :=
| Ok (a : A)
| Err (e : E).
Arguments Ok {E A} a.
Arguments Err {E A} e.

Declare Scope go_scope.
Delimit Scope go_scope with go.

(** [let? x := c in k]: Go's [x, err := c; if err != nil { return err }; k]. *)
Notation "'let?' x ':=' c 'in' k" :=
  (match c with Ok x => k | Err e => Err e end)
  (at level 10, x pattern, c at level 100, k at level 200) : go_scope.

(** [guard c else e in k]: a guard that returns the error [e]. *)
Notation "'guard' c 'else' e 'in' k" :=
  (if c then k else Err e)
  (at level 10, c at level 100, e at level 100, k at level 200) : go_scope.

#[global] Open Scope go_scope.

Definition is_ok {E A} (r : result E A) : bool :=
  match r with Ok _ => true | Err _ => false end.

#[export] Instance result_eq_dec {E A} `{EqDecision E} `{EqDecision A} :
  EqDecision (result E A).
Proof. solve_decision. Defined.

(** ** Machine integers: values of [Z] reduced to their width *)

Definition u8 (z : Z) : Z := z mod 2 ^ 8.
Definition u16 (z : Z) : Z := z mod 2 ^ 16.
Definition u32 (z : Z) : Z := z mod 2 ^ 32.
Definition u64 (z : Z) : Z := z mod 2 ^ 64.

Lemma u32_small z : 0 <= z < 2 ^ 32 -> u32 z = z.
Proof. apply Z.mod_small. Qed.

Lemma u64_small z : 0 <= z < 2 ^ 64 -> u64 z = z.
Proof. apply Z.mod_small. Qed.

(** Two's complement [int64], the type of durations. *)
Definition i64 (z : Z) : Z := (z + 2 ^ 63) mod 2 ^ 64 - 2 ^ 63.

Lemma i64_small z : - 2 ^ 63 <= z < 2 ^ 63 -> i64 z = z.
Proof. intros. unfold i64. rewrite Z.mod_small; lia. Qed.

Lemma i64_range z : - 2 ^ 63 <= i64 z < 2 ^ 63.
Proof. unfold i64. pose proof (Z.mod_pos_bound (z + 2 ^ 63) (2 ^ 64)). lia. Qed.

Lemma u64_range z : 0 <= u64 z < 2 ^ 64.
Proof. apply Z.mod_pos_bound. lia. Qed.

(** ** Bytes *)

#[export] Instance byte_eq_dec : EqDecision byte := Byte.byte_eq_dec.

(** The numeric value of a byte and Go's truncating conversion [byte(x)]. *)
Definition b2z (b : byte) : Z := Z.of_N (Byte.to_N b).

Definition z2b (z : Z) : byte :=
  match Byte.of_N (Z.to_N (z mod 256)) with
  | Some b => b
  | None => x00
  end.

Definition byte_eqb (a b : byte) : bool := bool_decide (a = b).

Lemma b2z_range b : 0 <= b2z b < 256.
Proof.
  unfold b2z. pose proof (Byte.to_N_bounded b). lia.
Qed.

Lemma b2z_z2b z : b2z (z2b z) = z mod 256.
Proof.
  unfold b2z, z2b. pose proof (Z.mod_pos_bound z 256 ltac:(lia)).
  destruct (Byte.of_N _) eqn:E.
  - apply Byte.to_of_N in E. lia.
  - apply Byte.of_N_None_iff in E. lia.
Qed.

Lemma z2b_b2z b : z2b (b2z b) = b.
Proof.
  unfold z2b. rewrite Z.mod_small by apply b2z_range.
  unfold b2z. rewrite N2Z.id, Byte.of_to_N. done.
Qed.

Lemma b2z_inj a b : b2z a = b2z b -> a = b.
Proof. intros H. rewrite <- (z2b_b2z a), <- (z2b_b2z b). congruence. Qed.

(** ** Big-endian integers ([binary.BigEndian]) *)

Fixpoint be_put (n : nat) (z : Z) : list byte :=
  match n with
  | O => []
  | S m => z2b (z / 256 ^ Z.of_nat m) :: be_put m z
  end.

Fixpoint be_get (bs : list byte) : Z :=
  match bs with
  | [] => 0
  | b :: r => b2z b * 256 ^ Z.of_nat (length r) + be_get r
  end.

Lemma length_be_put n z : length (be_put n z) = n.
Proof. induction n; simpl; congruence. Qed.

Lemma be_get_range bs : 0 <= be_get bs < 256 ^ Z.of_nat (length bs).
Proof.
  induction bs as [|b r IH]; simpl length; simpl be_get; [lia|].
  pose proof (b2z_range b). rewrite Nat2Z.inj_succ, Z.pow_succ_r by lia. nia.
Qed.

Lemma be_get_put n z : be_get (be_put n z) = z mod 256 ^ Z.of_nat n.
Proof.
  induction n as [|n IH]; simpl be_put; simpl be_get; [by rewrite Z.mod_1_r|].
  rewrite length_be_put, b2z_z2b, IH, Nat2Z.inj_succ, Z.pow_succ_r by lia.
  pose proof (Z.pow_pos_nonneg 256 (Z.of_nat n) ltac:(lia) ltac:(lia)).
  rewrite (Z.mul_comm 256), Z.rem_mul_r by lia. lia.
Qed.

Lemma be_get_put_small n z :
  0 <= z < 256 ^ Z.of_nat n -> be_get (be_put n z) = z.
Proof. intros H. rewrite be_get_put. by apply Z.mod_small. Qed.

Lemma be_put_add n x y : be_put n (x * 256 ^ Z.of_nat n + y) = be_put n y.
Proof.
  revert x y. induction n as [|n IH]; intros x y; [done|].
  simpl be_put. rewrite Nat2Z.inj_succ, Z.pow_succ_r by lia.
  replace (x * (256 * 256 ^ Z.of_nat n) + y)
    with ((x * 256) * 256 ^ Z.of_nat n + y) by lia.
  rewrite IH. f_equal. apply b2z_inj. rewrite !b2z_z2b.
  rewrite Z.div_add_l by (pose proof (Z.pow_pos_nonneg 256 (Z.of_nat n)); lia).
  by rewrite Z.add_comm, Z.mod_add by lia.
Qed.

Lemma be_put_get bs : be_put (length bs) (be_get bs) = bs.
Proof.
  induction bs as [|b r IH]; [done|]. simpl length. simpl be_put. simpl be_get.
  pose proof (be_get_range r). f_equal.
  - rewrite Z.div_add_l, Z.div_small by lia. by rewrite Z.add_0_r, z2b_b2z.
  - by rewrite be_put_add.
Qed.

Lemma be_put_inj n a b :
  0 <= a < 256 ^ Z.of_nat n -> 0 <= b < 256 ^ Z.of_nat n ->
  be_put n a = be_put n b -> a = b.
Proof.
  intros Ha Hb H. rewrite <- (be_get_put_small n a), <- (be_get_put_small n b) by done.
  by rewrite H.
Qed.

#[global] Arguments be_put : simpl never.
#[global] Arguments be_get : simpl never.

(** ** Byte streams: the bytes a connection will still deliver before EOF *)

Inductive io_error := EOF | ErrUnexpectedEOF.

#[export] Instance io_error_eq_dec : EqDecision io_error.
Proof. solve_decision. Defined.

(** [io.ReadFull(r, buf)] with [len(buf) = n]: the bytes read and the rest. *)
Definition read_full (n : nat) (s : list byte) : result io_error (list byte * list byte) :=
  if decide (n <= length s)%nat then Ok (take n s, drop n s)
  else match s with [] => Err EOF | _ => Err ErrUnexpectedEOF end.

Lemma read_full_app n a r : length a = n -> read_full n (a ++ r) = Ok (a, r).
Proof.
  intros <-. unfold read_full. rewrite length_app.
  rewrite decide_True by lia. by rewrite take_app_length, drop_app_length.
Qed.

Lemma read_full_ok n s a r : read_full n s = Ok (a, r) -> s = a ++ r /\ length a = n.
Proof.
  unfold read_full. case_decide; [|destruct s; done].
  intros [= <- <-]. rewrite take_drop, length_take. split; [done|lia].
Qed.

(** ** Lists *)

Lemma app_inj_length {A} (a a' b b' : list A) :
  length a = length a' -> a ++ b = a' ++ b' -> a = a' /\ b = b'.
Proof. intros H. by apply app_inj_1. Qed.

(** [find_map f l]: the first element on which [f] answers. *)
Fixpoint find_map {A B} (f : A -> option B) (l : list A) : option B :=
  match l with
  | [] => None
  | x :: r => match f x with Some y => Some y | None => find_map f r end
  end.

Lemma find_map_Some {A B} (f : A -> option B) l y :
  find_map f l = Some y -> exists x, x ∈ l /\ f x = Some y.
Proof.
  induction l as [|x r IH]; simpl; [done|].
  destruct (f x) eqn:E; intros H; simplify_eq.
  - exists x. split; [left|done].
  - destruct (IH H) as (z & ? & ?). exists z. split; [by right|done].
Qed.

Lemma find_map_None {A B} (f : A -> option B) l :
  find_map f l = None <-> forall x, x ∈ l -> f x = None.
Proof.
  induction l as [|x r IH]; simpl; [split; [intros _ ? H; inversion H|done]|].
  split.
  - destruct (f x) eqn:E; [done|]. intros H y [->|Hy]%elem_of_cons; [done|].
    by apply IH.
  - intros H. rewrite (H x) by left. apply IH. intros y Hy. apply H. by right.
Qed.

(** ** Reachability: an invariant of every step holds of every reachable state *)

Lemma rtc_invariant {S} (R : S -> S -> Prop) (P : S -> Prop) :
  (forall s s', R s s' -> P s -> P s') ->
  forall s s', rtc R s s' -> P s -> P s'.
Proof. intros Hstep s s'. induction 1; eauto. Qed.

(** ** Buffered Go channels *)

(** The buffer, its capacity and whether [close] was called. *)
Record chan (A : Type) := Chan { chan_buf : list A; chan_cap : nat; chan_closed : bool }.
Arguments Chan {A} _ _ _.
Arguments chan_buf {A} _.
Arguments chan_cap {A} _.
Arguments chan_closed {A} _.

Definition make_chan {A} (n : nat) : chan A := Chan [] n false.

(** A non-blocking send: [None] when the buffer is full. *)
Definition chan_try_send {A} (c : chan A) (x : A) : option (chan A) :=
  if decide (length (chan_buf c) < chan_cap c)%nat
  then Some (Chan (chan_buf c ++ [x]) (chan_cap c) (chan_closed c))
  else None.

Definition chan_bounded {A} (c : chan A) : Prop :=
  (length (chan_buf c) <= chan_cap c)%nat.

Lemma chan_try_send_Some {A} (c c' : chan A) x :
  chan_try_send c x = Some c' ->
  chan_buf c' = chan_buf c ++ [x] /\ chan_cap c' = chan_cap c /\
  chan_closed c' = chan_closed c /\ (length (chan_buf c) < chan_cap c)%nat.
Proof. unfold chan_try_send. case_decide; [|done]. intros [= <-]. done. Qed.

(** ** Automation *)

Create HintDb go discriminated.
#[export] Hint Resolve b2z_range be_get_range length_be_put u64_range : go.

(** Case analysis on every [match]/[if] of a hypothesis or of the goal. *)
Ltac go_cases :=
  repeat (match goal with
          | H : context [match ?x with _ => _ end] |- _ =>
              lazymatch x with context [match _ with _ => _ end] => fail | _ => destruct x eqn:? end
          | |- context [match ?x with _ => _ end] =>
              lazymatch x with context [match _ with _ => _ end] => fail | _ => destruct x eqn:? end
          end; simplify_eq/=).

Ltac go_auto := go_cases; eauto with go; try lia; try done.
