(* ===== verification/Framing.v ===== *)
(** * Framing: length-prefixed messages and the packet adapters of [net.go]

    [readMessage]/[writeMessage] (4-byte big-endian length, at most 65535
    bytes), the protobuf layer over them, and the two adapters between stream
    and packet connections ([connWrapper], [packetConnWrapper]).

    A stream being read is the list of bytes it still delivers before EOF.  A
    stream being written is a [sink]: the bytes that reached the peer and, when
    the connection is about to break, how many more it takes.  [bufio] is
    transparent: [writeMessage] always flushes before it returns. *)

From S2P Require Import Prelude.

(** ** Addresses ([net.Addr]; [addr.go]) *)

Record net_addr := NetAddr { addr_network : string; addr_string : string }.

#[export] Instance net_addr_eq_dec : EqDecision net_addr.
Proof. solve_decision. Defined.

(** [Addr]: an rstream endpoint; only [IdOrName] is part of its [String()]. *)
Record Addr := MkAddr { IdOrName : string; SourceIP : list byte }.

Definition Addr_net (a : Addr) : net_addr :=
  {| addr_network := "rstrm"; addr_string := IdOrName a |}.

(** [sameAddr] compares interface values; [nil] equals only [nil]. *)
Definition sameAddr (a b : option net_addr) : bool :=
  match a, b with
  | Some x, Some y =>
      bool_decide (addr_network x = addr_network y) && bool_decide (addr_string x = addr_string y)
  | None, None => true
  | _, _ => false
  end.

Lemma sameAddr_eq a b : sameAddr a b = true <-> a = b.
Proof.
  destruct a as [[n s]|], b as [[n' s']|]; simpl; try (split; congruence).
  rewrite andb_true_iff, !bool_decide_eq_true. split; [intros [-> ->]; done|by intros [= -> ->]].
Qed.

(** ** Frames *)

Definition maxFramedPacketSize : Z := 65535.

Inductive frame_error :=
| FrameTooLarge (n : Z)
| FrameIO (e : io_error)
| FrameBroken.

#[export] Instance frame_error_eq_dec : EqDecision frame_error.
Proof. solve_decision. Defined.

Record sink := Sink { delivered : list byte; room : option nat }.

(** [w.Write(b)] followed by a flush: a broken connection takes a prefix. *)
Definition sink_write (w : sink) (b : list byte) : sink * option frame_error :=
  match room w with
  | None => ({| w with delivered := delivered w ++ b |}, None)
  | Some k =>
      if decide (length b <= k)%nat
      then ({| delivered := delivered w ++ b; room := Some (k - length b)%nat |}, None)
      else ({| delivered := delivered w ++ take k b; room := Some O |}, Some FrameBroken)
  end.

Definition readMessage (s : list byte) : result frame_error (list byte * list byte) :=
  match read_full 4 s with
  | Err e => Err (FrameIO e)
  | Ok (lengthBytes, s1) =>
      let length := be_get lengthBytes in
      if length >? maxFramedPacketSize then Err (FrameTooLarge length)
      else match read_full (Z.to_nat length) s1 with
           | Err e => Err (FrameIO e)
           | Ok (msgBytes, s2) => Ok (msgBytes, s2)
           end
  end.

Definition writeMessage (w : sink) (msgBytes : list byte) : sink * option frame_error :=
  let n := Z.of_nat (length msgBytes) in
  if n >? maxFramedPacketSize then (w, Some (FrameTooLarge n))
  else
    let lengthBytes := be_put 4 (u32 n) in
    match sink_write w lengthBytes with
    | (w1, Some e) => (w1, Some e)
    | (w1, None) => sink_write w1 msgBytes
    end.

(** The bytes a complete frame occupies on the wire. *)
Definition frame (m : list byte) : list byte := be_put 4 (Z.of_nat (length m)) ++ m.

Arguments frame : simpl never.

Definition frameable (m : list byte) : Prop := Z.of_nat (length m) <= maxFramedPacketSize.

Lemma frameable_prefix m : frameable m -> be_get (be_put 4 (Z.of_nat (length m))) = Z.of_nat (length m).
Proof. unfold frameable, maxFramedPacketSize. intros H. apply be_get_put_small. simpl. lia. Qed.

Lemma readMessage_frame m r : frameable m -> readMessage (frame m ++ r) = Ok (m, r).
Proof.
  intros H. unfold readMessage, frame. rewrite <- app_assoc, read_full_app by apply length_be_put.
  rewrite frameable_prefix by done.
  destruct (Z.gtb_spec (Z.of_nat (length m)) maxFramedPacketSize); [unfold frameable in *; lia|].
  by rewrite Nat2Z.id, read_full_app.
Qed.

Lemma readMessage_inv s m r : readMessage s = Ok (m, r) -> frameable m /\ s = frame m ++ r.
Proof.
  unfold readMessage. destruct (read_full 4 s) as [[lb s1]|] eqn:E1; [|done].
  apply read_full_ok in E1 as [-> Hl].
  destruct (Z.gtb_spec (be_get lb) maxFramedPacketSize); [done|].
  destruct (read_full _ s1) as [[mb s2]|] eqn:E2; [|done]. intros [= <- <-].
  apply read_full_ok in E2 as [-> Hm]. pose proof (be_get_range lb) as Hr.
  assert (Hlen : Z.of_nat (length mb) = be_get lb) by lia.
  unfold frameable, frame. split; [lia|].
  rewrite <- app_assoc. rewrite Hlen, <- Hl, be_put_get. done.
Qed.

Lemma writeMessage_ok w m w' :
  writeMessage w m = (w', None) -> frameable m /\ delivered w' = delivered w ++ frame m.
Proof.
  unfold writeMessage, frameable, frame.
  destruct (Z.gtb_spec (Z.of_nat (length m)) maxFramedPacketSize) as [|Hn]; [done|].
  rewrite u32_small by (unfold maxFramedPacketSize in *; lia).
  unfold sink_write. intros H. split; [lia|].
  repeat (case_match || case_decide); simplify_eq/=; rewrite <- ?app_assoc; done.
Qed.

(** Whatever breaks, the peer has received a prefix of the frame. *)
Lemma writeMessage_prefix w m w' e :
  writeMessage w m = (w', e) -> exists p, delivered w' = delivered w ++ p /\ p `prefix_of` frame m.
Proof.
  unfold writeMessage, frame.
  destruct (Z.gtb_spec (Z.of_nat (length m)) maxFramedPacketSize) as [|Hn].
  { intros [= <- _]. exists []. rewrite app_nil_r. split; [done|apply prefix_nil]. }
  rewrite u32_small by (unfold maxFramedPacketSize in *; lia).
  generalize (be_put 4 (Z.of_nat (length m))) as lb. intros lb. unfold sink_write. intros H.
  assert (Hp : forall k (l : list byte), take k l `prefix_of` l)
    by (intros; eexists; symmetry; apply take_drop).
  repeat (case_match || case_decide); simplify_eq/=; rewrite <- ?app_assoc;
    eexists; (split; [reflexivity|]);
    first [reflexivity | apply prefix_app_r, Hp | apply prefix_app, Hp].
Qed.

(** Every message of a stream in turn; the result stops at the first error. *)
Fixpoint read_all (fuel : nat) (s : list byte) : list (list byte) :=
  match fuel with
  | O => []
  | S k => match readMessage s with
           | Ok (m, r) => m :: read_all k r
           | Err _ => []
           end
  end.

Fixpoint write_all (w : sink) (ms : list (list byte)) : sink * option frame_error :=
  match ms with
  | [] => (w, None)
  | m :: r => match writeMessage w m with
              | (w1, None) => write_all w1 r
              | (w1, Some e) => (w1, Some e)
              end
  end.

(** ** Protobuf messages: [proto.Marshal]/[proto.Unmarshal] are parameters *)

Section Proto.
Context {Msg : Type} (marshal : Msg -> option (list byte)) (unmarshal : list byte -> option Msg).

Inductive pb_error := PbFrame (e : frame_error) | PbCodec.

Definition readPbMessage (s : list byte) : result pb_error (Msg * list byte) :=
  match readMessage s with
  | Err e => Err (PbFrame e)
  | Ok (msgBytes, r) =>
      match unmarshal msgBytes with
      | None => Err PbCodec
      | Some msg => Ok (msg, r)
      end
  end.

Definition writePbMessage (w : sink) (msg : Msg) : sink * option pb_error :=
  match marshal msg with
  | None => (w, Some PbCodec)
  | Some msgBytes =>
      match writeMessage w msgBytes with
      | (w', None) => (w', None)
      | (w', Some e) => (w', Some (PbFrame e))
      end
  end.
End Proto.

(** ** [connWrapper]: a packet connection over a stream *)

Inductive PacketMode := PacketModeFramed | PacketModeRaw.

#[export] Instance packet_mode_eq_dec : EqDecision PacketMode.
Proof. solve_decision. Defined.

(** The inner connection: what it still delivers to framed reads and what was
    written to it. *)
Record connWrapper := ConnWrapper {
  cw_mode : PacketMode;
  cw_in : list byte;
  cw_out : sink;
  cw_raddr : net_addr;
}.

Definition PacketConnFromConn (inb : list byte) (out : sink) (remote : net_addr)
    (raddr : option net_addr) (mode : PacketMode) : connWrapper :=
  {| cw_mode := mode; cw_in := inb; cw_out := out;
     cw_raddr := match raddr with Some a => a | None => remote end |}.

(** [ReadFrom(p)] with [len(p) = plen]; [copy] truncates a longer packet.  In
    raw mode the packet is whatever the inner [Read(p)] returns. *)
Definition connWrapper_ReadFrom (c : connWrapper) (plen : nat)
    (innerRead : result frame_error (list byte)) :
    connWrapper * result frame_error (list byte * net_addr) :=
  match cw_mode c with
  | PacketModeFramed =>
      match readMessage (cw_in c) with
      | Err e => (c, Err e)
      | Ok (msg, r) => ({| c with cw_in := r |}, Ok (take plen msg, cw_raddr c))
      end
  | PacketModeRaw =>
      (c, let? p := innerRead in Ok (p, cw_raddr c))
  end.

Inductive packet_write_error :=
| InvalidRemoteAddress
| PacketWrite (e : frame_error).

Definition connWrapper_WriteTo (c : connWrapper) (p : list byte) (addr : option net_addr) :
    connWrapper * result packet_write_error nat :=
  match addr with
  | None => (c, Err InvalidRemoteAddress)
  | Some a =>
      if negb (bool_decide (addr_string a = addr_string (cw_raddr c))) then (c, Err InvalidRemoteAddress)
      else
        let '(w, e) := match cw_mode c with
                       | PacketModeFramed => writeMessage (cw_out c) p
                       | PacketModeRaw => sink_write (cw_out c) p
                       end in
        let c' := {| c with cw_out := w |} in
        match e with
        | None => (c', Ok (length p))
        | Some e => (c', Err (PacketWrite e))
        end
  end.

(** ** [packetConnWrapper]: a stream connection over a packet socket *)

Record packetConnWrapper := PacketConnWrapper { pw_raddr : option net_addr }.

(** [Read]: the inner [ReadFrom] results still to come, in order.  Packets of
    other peers are skipped; the first sender pins an unset remote address.
    [None]: every result at hand was skipped, the call is still waiting. *)
Fixpoint packetConnWrapper_Read (c : packetConnWrapper)
    (inner : list (result io_error (list byte * option net_addr))) :
    packetConnWrapper * option (result io_error (list byte)) *
    list (result io_error (list byte * option net_addr)) :=
  match inner with
  | [] => (c, None, [])
  | Err e :: rest => (c, Some (Err e), rest)
  | Ok (data, raddr) :: rest =>
      match pw_raddr c with
      | None => ({| pw_raddr := raddr |}, Some (Ok data), rest)
      | Some _ =>
          if sameAddr (pw_raddr c) raddr then (c, Some (Ok data), rest)
          else packetConnWrapper_Read c rest
      end
  end.

(** [Write]: the packet and the peer the inner [WriteTo] is called with. *)
Definition packetConnWrapper_Write (c : packetConnWrapper) (p : list byte) :
    result string (list byte * net_addr) :=
  match pw_raddr c with
  | None => Err "remote address is not set"
  | Some a => Ok (p, a)
  end.

(** ** Correctness of the framing *)

Lemma write_all_frames w ms w' :
  write_all w ms = (w', None) ->
  Forall frameable ms /\ delivered w' = delivered w ++ concat (frame <$> ms).
Proof.
  revert w. induction ms as [|m ms IH]; intros w; simpl.
  { intros [= <-]. by rewrite app_nil_r. }
  destruct (writeMessage w m) as [w1 [e|]] eqn:E; [done|].
  apply writeMessage_ok in E as [Hm Hd]. intros [Hms ->]%IH.
  rewrite Hd, <- app_assoc. split; [by constructor|done].
Qed.

Lemma read_all_frames ms r :
  Forall frameable ms -> read_all (length ms) (concat (frame <$> ms) ++ r) = ms.
Proof.
  induction 1 as [|m ms Hm Hms IH]; [done|].
  rewrite fmap_cons. cbn [length concat read_all].
  by rewrite <- app_assoc, readMessage_frame, IH.
Qed.

(** C33: writing a sequence of messages and reading the resulting bytes back
    gives the same messages in order, whatever the connection carried before
    ([delivered w]) or carries after ([rest]). *)
Theorem frames_roundtrip w ms w' rest :
  write_all w ms = (w', None) ->
  exists sent, delivered w' = delivered w ++ sent /\
               read_all (length ms) (sent ++ rest) = ms.
Proof.
  intros [Hf Hd]%write_all_frames. eexists. split; [exact Hd|]. by apply read_all_frames.
Qed.

Definition sample_messages : list (list byte) := [[x01; x02]; []; [xff]].

Lemma frames_roundtrip_witness :
  exists sent, delivered (fst (write_all (Sink [] (Some 64%nat)) sample_messages)) = [] ++ sent /\
               read_all 3 (sent ++ [x00]) = sample_messages.
Proof.
  apply (frames_roundtrip (Sink [] (Some 64%nat)) sample_messages
           (fst (write_all (Sink [] (Some 64%nat)) sample_messages)) [x00]).
  vm_compute. reflexivity.
Defined.

Lemma strict_prefix_no_message m p :
  frameable m -> p `prefix_of` frame m -> p <> frame m ->
  forall m' r, readMessage p <> Ok (m', r).
Proof.
  intros Hm [q Hq] Hne m' r [Hf' Hp]%readMessage_inv.
  assert (Hr : readMessage (frame m) = Ok (m', r ++ q)).
  { rewrite Hq, Hp, <- app_assoc. by apply readMessage_frame. }
  rewrite <- (app_nil_r (frame m)), readMessage_frame in Hr by done.
  simplify_eq. destruct q; [|by destruct r]. rewrite app_nil_r in Hq. congruence.
Qed.

Lemma writeMessage_error_strict w m w' e p :
  writeMessage w m = (w', Some e) -> delivered w' = delivered w ++ p -> p <> frame m.
Proof.
  unfold writeMessage, frame, sink_write.
  destruct (Z.gtb_spec (Z.of_nat (length m)) maxFramedPacketSize) as [|Hn].
  { intros [= <- _] Hd. apply (f_equal length) in Hd. rewrite length_app in Hd.
    destruct p; [|simpl in Hd; lia]. intros Heq%(f_equal length).
    rewrite length_app, length_be_put in Heq. simpl in Heq. lia. }
  rewrite u32_small by (unfold maxFramedPacketSize in *; lia).
  intros H Hd ->. apply (f_equal length) in Hd.
  repeat (case_match || case_decide); simplify_eq/=;
    rewrite ?length_app, ?length_take, ?length_be_put in Hd; simpl in *; lia.
Qed.

(** When a write fails, whatever part of the frame reached the peer, a
    reader of those bytes gets an error and never a message. *)
Theorem truncated_frame_yields_no_message w m w' e :
  writeMessage w m = (w', Some e) ->
  exists sent, delivered w' = delivered w ++ sent /\
               forall m' r, readMessage sent <> Ok (m', r).
Proof.
  intros H. destruct (writeMessage_prefix _ _ _ _ H) as (p & Hd & Hp).
  exists p. split; [done|].
  pose proof (writeMessage_error_strict _ _ _ _ _ H Hd) as Hne.
  destruct (decide (Z.of_nat (length m) <= maxFramedPacketSize)) as [Hm|Hm].
  - by eapply strict_prefix_no_message.
  - unfold writeMessage in H. destruct (Z.gtb_spec (Z.of_nat (length m)) maxFramedPacketSize); [|lia].
    simplify_eq. apply (f_equal length) in Hd. rewrite length_app in Hd.
    destruct p; [|simpl in Hd; lia]. done.
Qed.

Lemma truncated_frame_yields_no_message_witness :
  exists sent, delivered (fst (writeMessage (Sink [] (Some 5%nat)) [x01; x02])) = [] ++ sent /\
               forall m' r, readMessage sent <> Ok (m', r).
Proof.
  apply (truncated_frame_yields_no_message (Sink [] (Some 5%nat)) [x01; x02]
           (fst (writeMessage (Sink [] (Some 5%nat)) [x01; x02])) FrameBroken).
  vm_compute. reflexivity.
Defined.

(** [readPbMessage] reads back what [writePbMessage] wrote, given that the
    protobuf codec decodes its own encodings; a message the codec encodes to
    more than 65535 bytes is refused before any byte is sent. *)
Theorem pb_roundtrip {Msg} (marshal : Msg -> option (list byte)) (unmarshal : list byte -> option Msg)
    (codec : forall m b, marshal m = Some b -> unmarshal b = Some m) (w : sink) (msg : Msg) (rest : list byte) :
  match writePbMessage marshal w msg with
  | (w', None) => exists sent, delivered w' = delivered w ++ sent /\
                               readPbMessage unmarshal (sent ++ rest) = Ok (msg, rest)
  | (w', Some (PbFrame (FrameTooLarge _))) => w' = w
  | (w', Some PbCodec) => w' = w
  | (w', Some (PbFrame _)) => True
  end.
Proof.
  unfold writePbMessage. destruct (marshal msg) as [b|] eqn:Em; [|done].
  destruct (writeMessage w b) as [w' [e|]] eqn:E.
  - destruct e; try done. unfold writeMessage, sink_write in E.
    repeat (case_match || case_decide); simplify_eq/=; done.
  - apply writeMessage_ok in E as [Hf Hd]. exists (frame b). split; [done|].
    unfold readPbMessage. by rewrite readMessage_frame, (codec _ _ Em).
Qed.

Lemma pb_roundtrip_witness :
  exists sent, delivered (fst (writePbMessage (fun b : bool => Some [if b then x01 else x00])
                                 (Sink [x07] None) true)) = [x07] ++ sent /\
    readPbMessage (fun l => match l with [x01] => Some true | [x00] => Some false | _ => None end)
      (sent ++ [x05]) = Ok (true, [x05]).
Proof.
  apply (pb_roundtrip (fun b : bool => Some [if b then x01 else x00])
           (fun l => match l with [x01] => Some true | [x00] => Some false | _ => None end)
           ltac:(intros [] b [= <-]; reflexivity) (Sink [x07] None) true [x05]).
Defined.

(** A stream over a packet socket only returns packets of one peer: with
    the remote address set, [Read] returns the first packet whose sender is that
    address (or the first error), skipping the others, and keeps the address;
    with no address yet, the first packet is returned and its sender pinned. *)
Theorem packetConnWrapper_single_peer c inner c' r rest :
  packetConnWrapper_Read c inner = (c', Some r, rest) ->
  exists skipped hd, inner = skipped ++ hd :: rest /\
    Forall (fun x => exists d a, x = Ok (d, a) /\ is_Some (pw_raddr c) /\ a <> pw_raddr c) skipped /\
    match hd with
    | Err e => r = Err e /\ c' = c
    | Ok (d, a) => r = Ok d /\ pw_raddr c' = a /\ (is_Some (pw_raddr c) -> c' = c)
    end.
Proof.
  revert c. induction inner as [|[[d a]|e] inner IH]; intros c; simpl; [done| |].
  - destruct (pw_raddr c) as [x|] eqn:Ec.
    + destruct (sameAddr (Some x) a) eqn:Es.
      * intros [= <- <- <-]. apply sameAddr_eq in Es as <-. exists [], (Ok (d, Some x)).
        simpl. auto.
      * intros (sk & hd & -> & Hsk & Hhd)%IH. exists (Ok (d, a) :: sk), hd.
        rewrite Ec in Hsk, Hhd. split; [done|]. split; [|done].
        constructor; [|done]. exists d, a. repeat split; [by eexists|].
        intros ->. assert (sameAddr (Some x) (Some x) = true) by by apply sameAddr_eq. congruence.
    + intros [= <- <- <-]. exists [], (Ok (d, a)). simpl. repeat split; [constructor|].
      by intros [? ?].
  - intros [= <- <- <-]. exists [], (Err e). simpl. auto.
Qed.

Definition peer_a : net_addr := NetAddr "udp" "10.0.0.1:1".
Definition peer_b : net_addr := NetAddr "udp" "10.0.0.2:1".

Lemma packetConnWrapper_single_peer_witness :
  exists skipped hd,
    [Ok ([x01], Some peer_b); Ok ([x02], Some peer_a); Err EOF] = skipped ++ hd :: [Err EOF] /\
    Forall (fun x => exists d a, x = Ok (d, a) /\ is_Some (Some peer_a) /\ a <> Some peer_a) skipped /\
    match hd with
    | Err e => Ok [x02] = Err e /\ PacketConnWrapper (Some peer_a) = PacketConnWrapper (Some peer_a)
    | Ok (d, a) => @Ok io_error _ [x02] = Ok d /\ Some peer_a = a /\
                   (is_Some (Some peer_a) -> PacketConnWrapper (Some peer_a) = PacketConnWrapper (Some peer_a))
    end.
Proof.
  apply (packetConnWrapper_single_peer (PacketConnWrapper (Some peer_a))
           [Ok ([x01], Some peer_b); Ok ([x02], Some peer_a); Err EOF]
           (PacketConnWrapper (Some peer_a)) (Ok [x02]) [Err EOF]).
  vm_compute. reflexivity.
Defined.
