(* ===== verification/GoStrings.v ===== *)
(** * GoStrings: the functions of Go's [strings], [strconv] and [net] packages
    the modelled code calls

    A Go string is a byte sequence: [string] in records and messages, [list byte]
    inside the functions ([s2b]/[b2s] are mutually inverse).  [TrimSpace] is
    complete: it also removes the multi-byte Unicode spaces.  [ToLower]/[ToUpper]
    map the ASCII letters and leave every other byte alone, which is what Go does
    on ASCII input; the callers modelled here use them on host names, header
    names and DNS names. *)

From S2P Require Import Prelude.

Definition s2b (s : string) : list byte := String.list_byte_of_string s.
Definition b2s (l : list byte) : string := String.string_of_list_byte l.

Lemma s2b_b2s l : s2b (b2s l) = l.
Proof. apply String.list_byte_of_string_of_list_byte. Qed.

Lemma b2s_s2b s : b2s (s2b s) = s.
Proof. apply String.string_of_list_byte_of_string. Qed.

#[export] Instance s2b_inj : Inj (=) (=) s2b.
Proof. intros a b H. rewrite <- (b2s_s2b a), <- (b2s_s2b b). congruence. Qed.

(** Go's [len(s)]. *)
Definition slen (s : string) : Z := Z.of_nat (length (s2b s)).

(** ** [strings.TrimSpace] *)

Definition byte_in (lo hi : Z) (b : byte) : bool := (lo <=? b2z b) && (b2z b <=? hi).

Lemma byte_in_spec lo hi b : byte_in lo hi b = true <-> lo <= b2z b <= hi.
Proof. unfold byte_in. rewrite andb_true_iff, !Z.leb_le. done. Qed.

(** U+0009..U+000D and U+0020. *)
Definition space1 (b : byte) : bool := byte_in 9 13 b || byte_eqb b x20.

(** U+0085 and U+00A0. *)
Definition space2 (b0 b1 : byte) : bool := byte_eqb b0 xc2 && (byte_eqb b1 x85 || byte_eqb b1 xa0).

(** U+1680, U+2000..U+200A, U+2028, U+2029, U+202F, U+205F and U+3000. *)
Definition space3 (b0 b1 b2 : byte) : bool :=
  (byte_eqb b0 xe1 && byte_eqb b1 x9a && byte_eqb b2 x80) ||
  (byte_eqb b0 xe2 && byte_eqb b1 x80 &&
     (byte_in 128 138 b2 || byte_eqb b2 xa8 || byte_eqb b2 xa9 || byte_eqb b2 xaf)) ||
  (byte_eqb b0 xe2 && byte_eqb b1 x81 && byte_eqb b2 x9f) ||
  (byte_eqb b0 xe3 && byte_eqb b1 x80 && byte_eqb b2 x80).

Section TrimWith.
Variables (sp2 : byte -> byte -> bool) (sp3 : byte -> byte -> byte -> bool).

Fixpoint trim_with (s : list byte) : list byte :=
  match s with
  | [] => []
  | b0 :: r1 =>
      if space1 b0 then trim_with r1
      else match r1 with
           | [] => s
           | b1 :: r2 =>
               if sp2 b0 b1 then trim_with r2
               else match r2 with
                    | [] => s
                    | b2 :: r3 => if sp3 b0 b1 b2 then trim_with r3 else s
                    end
           end
  end.
End TrimWith.

Definition trim_left (s : list byte) : list byte := trim_with space2 space3 s.

Definition trim_right (s : list byte) : list byte :=
  rev (trim_with (fun b0 b1 => space2 b1 b0) (fun b0 b1 b2 => space3 b2 b1 b0) (rev s)).

Definition trim_space (s : list byte) : list byte := trim_right (trim_left s).

Definition TrimSpace (s : string) : string := b2s (trim_space (s2b s)).

Lemma trim_with_suffix sp2 sp3 s : exists p, s = p ++ trim_with sp2 sp3 s.
Proof.
  induction s as [s IH] using (induction_ltof1 _ (@length byte)). unfold ltof in IH.
  destruct s as [|b0 [|b1 [|b2 r]]]; simpl.
  - by exists [].
  - destruct (space1 b0); [by exists [b0]|by exists []].
  - destruct (space1 b0); [|destruct (sp2 b0 b1); [by exists [b0; b1]|by exists []]].
    destruct (IH [b1] ltac:(simpl; lia)) as [p Hp]. exists (b0 :: p). simpl in *. by f_equal.
  - destruct (space1 b0).
    { destruct (IH (b1 :: b2 :: r) ltac:(simpl; lia)) as [p Hp]. exists (b0 :: p). simpl in *. by f_equal. }
    destruct (sp2 b0 b1).
    { destruct (IH (b2 :: r) ltac:(simpl; lia)) as [p Hp]. exists (b0 :: b1 :: p). simpl in *. by repeat f_equal. }
    destruct (sp3 b0 b1 b2); [|by exists []].
    destruct (IH r ltac:(simpl; lia)) as [p Hp]. exists (b0 :: b1 :: b2 :: p). simpl. by repeat f_equal.
Qed.

(** What is left is a contiguous part of the input. *)
Lemma trim_space_infix s : exists p q, s = p ++ trim_space s ++ q.
Proof.
  unfold trim_space, trim_right, trim_left.
  destruct (trim_with_suffix space2 space3 s) as [p Hp].
  set (t := trim_with space2 space3 s) in *.
  destruct (trim_with_suffix (fun b0 b1 => space2 b1 b0) (fun b0 b1 b2 => space3 b2 b1 b0) (rev t)) as [q Hq].
  exists p, (rev q). rewrite Hp at 1. f_equal.
  rewrite <- rev_app_distr, <- Hq. by rewrite rev_involutive.
Qed.

Lemma trim_space_length s : (length (trim_space s) <= length s)%nat.
Proof.
  destruct (trim_space_infix s) as (p & q & H). apply (f_equal length) in H.
  rewrite !length_app in H. lia.
Qed.

(** A string that neither starts nor ends like a space is unchanged. *)
Lemma trim_with_noop sp2 sp3 b0 r :
  space1 b0 = false ->
  (forall b1 r2, r = b1 :: r2 -> sp2 b0 b1 = false) ->
  (forall b1 b2 r3, r = b1 :: b2 :: r3 -> sp3 b0 b1 b2 = false) ->
  trim_with sp2 sp3 (b0 :: r) = b0 :: r.
Proof.
  intros H1 H2 H3. simpl. rewrite H1. destruct r as [|b1 [|b2 r3]]; [done| |].
  - by rewrite (H2 _ _ eq_refl).
  - by rewrite (H2 _ _ eq_refl), (H3 _ _ _ eq_refl).
Qed.

(** Whether a string starts with a space. *)
Definition starts_space (sp2 : byte -> byte -> bool) (sp3 : byte -> byte -> byte -> bool) (s : list byte) : bool :=
  match s with
  | [] => false
  | b0 :: r1 => space1 b0 || match r1 with [] => false | b1 :: r2 => sp2 b0 b1 || match r2 with [] => false | b2 :: _ => sp3 b0 b1 b2 end end
  end.

Lemma trim_with_fixed sp2 sp3 s : starts_space sp2 sp3 s = false -> trim_with sp2 sp3 s = s.
Proof.
  destruct s as [|b0 [|b1 [|b2 r]]]; simpl; [done|..]; rewrite ?orb_false_iff.
  - by intros [-> _].
  - by intros [-> [-> _]].
  - by intros [-> [-> ->]].
Qed.

Lemma trim_with_starts sp2 sp3 s : starts_space sp2 sp3 (trim_with sp2 sp3 s) = false.
Proof.
  induction s as [s IH] using (induction_ltof1 _ (@length byte)). unfold ltof in IH.
  destruct s as [|b0 [|b1 [|b2 r]]]; simpl; [done|..].
  - destruct (space1 b0) eqn:H1; simpl; [done|by rewrite H1].
  - destruct (space1 b0) eqn:H1; [apply (IH [b1]); simpl; lia|]. destruct (sp2 b0 b1) eqn:H2; simpl; [done|by rewrite H1, H2].
  - destruct (space1 b0) eqn:H1; [apply (IH (b1 :: b2 :: r)); simpl; lia|].
    destruct (sp2 b0 b1) eqn:H2; [apply (IH (b2 :: r)); simpl; lia|].
    destruct (sp3 b0 b1 b2) eqn:H3; [apply IH; simpl; lia|]. simpl. by rewrite H1, H2, H3.
Qed.

Lemma starts_space_prefix sp2 sp3 p q : starts_space sp2 sp3 (p ++ q) = false -> starts_space sp2 sp3 p = false.
Proof.
  destruct p as [|b0 [|b1 [|b2 p]]]; simpl; [done|..]; rewrite ?orb_false_iff.
  - tauto.
  - intros [-> [-> _]]. done.
  - tauto.
Qed.

Lemma trim_space_idem s : trim_space (trim_space s) = trim_space s.
Proof.
  unfold trim_space at 1. assert (Hl : trim_left (trim_space s) = trim_space s).
  { apply trim_with_fixed. unfold trim_space, trim_right.
    destruct (trim_with_suffix (fun b0 b1 => space2 b1 b0) (fun b0 b1 b2 => space3 b2 b1 b0) (rev (trim_left s))) as [q Hq].
    apply (f_equal (@rev byte)) in Hq. rewrite rev_app_distr, rev_involutive in Hq. apply starts_space_prefix with (rev q).
    rewrite <- Hq. apply trim_with_starts. }
  rewrite Hl. unfold trim_space, trim_right. rewrite rev_involutive. f_equal. apply trim_with_fixed, trim_with_starts.
Qed.

Lemma TrimSpace_idem s : TrimSpace (TrimSpace s) = TrimSpace s.
Proof. unfold TrimSpace. by rewrite s2b_b2s, trim_space_idem. Qed.

(** ** Case mapping, prefixes, suffixes *)

Definition lower_byte (b : byte) : byte := if byte_in 65 90 b then z2b (b2z b + 32) else b.
Definition upper_byte (b : byte) : byte := if byte_in 97 122 b then z2b (b2z b - 32) else b.
Definition ToLower (s : string) : string := b2s (lower_byte <$> s2b s).
Definition ToUpper (s : string) : string := b2s (upper_byte <$> s2b s).

(** [strings.ToLower] up to non-ASCII results: besides the ASCII capitals, U+0130
    and U+212A are the runes whose lower case is an ASCII letter, so that the
    result equals an ASCII constant exactly when Go's does. *)
Fixpoint lower_runes (s : list byte) : list byte :=
  match s with
  | xc4 :: xb0 :: r => x69 :: lower_runes r
  | xe2 :: x84 :: xaa :: r => x6b :: lower_runes r
  | b :: r => lower_byte b :: lower_runes r
  | [] => []
  end.

Definition ToLowerRunes (s : string) : string := b2s (lower_runes (s2b s)).

Fixpoint has_prefix (p s : list byte) : bool :=
  match p, s with
  | [], _ => true
  | a :: p', b :: s' => byte_eqb a b && has_prefix p' s'
  | _ :: _, [] => false
  end.

Definition HasPrefix (s p : string) : bool := has_prefix (s2b p) (s2b s).
Definition HasSuffix (s p : string) : bool := has_prefix (rev (s2b p)) (rev (s2b s)).

Definition TrimSuffix (s p : string) : string :=
  if HasSuffix s p then b2s (take (length (s2b s) - length (s2b p)) (s2b s)) else s.

Lemma byte_eqb_eq a b : byte_eqb a b = true <-> a = b.
Proof. apply bool_decide_eq_true. Qed.

Lemma byte_eqb_refl a : byte_eqb a a = true.
Proof. by apply byte_eqb_eq. Qed.

Lemma has_prefix_spec p s : has_prefix p s = true <-> exists r, s = p ++ r.
Proof.
  revert s. induction p as [|a p IH]; intros s; simpl.
  - split; [by exists s|done].
  - destruct s as [|b s]; [split; [done|by intros [r ?]]|].
    rewrite andb_true_iff, byte_eqb_eq, IH. split.
    + intros [-> [r ->]]. by exists r.
    + intros [r [= -> ->]]. eauto.
Qed.

(** ** Searching, splitting and joining *)

(** [strings.IndexByte(s, c)], with [None] for Go's -1. *)
Fixpoint index_byte (c : byte) (s : list byte) : option nat :=
  match s with
  | [] => None
  | b :: r => if byte_eqb b c then Some O else S <$> index_byte c r
  end.

Definition contains_byte (c : byte) (s : list byte) : bool :=
  match index_byte c s with Some _ => true | None => false end.

Fixpoint contains (sub s : list byte) : bool :=
  has_prefix sub s || match s with [] => false | _ :: r => contains sub r end.

Definition Contains (s sub : string) : bool := contains (s2b sub) (s2b s).

(** [strings.Split(s, sep)] for a one-byte separator: never empty. *)
Fixpoint split_byte (c : byte) (s : list byte) : list (list byte) :=
  match s with
  | [] => [[]]
  | b :: r =>
      if byte_eqb b c then [] :: split_byte c r
      else match split_byte c r with
           | [] => [[b]]
           | h :: t => (b :: h) :: t
           end
  end.

Definition Split (s : string) (c : byte) : list string := b2s <$> split_byte c (s2b s).

Fixpoint join_bytes (sep : list byte) (l : list (list byte)) : list byte :=
  match l with
  | [] => []
  | [x] => x
  | x :: r => x ++ sep ++ join_bytes sep r
  end.

Definition Join (l : list string) (sep : string) : string := b2s (join_bytes (s2b sep) (s2b <$> l)).

Lemma split_byte_nonempty c s : split_byte c s <> [].
Proof. destruct s as [|b r]; simpl; [done|]. destruct (byte_eqb b c); [done|]. by destruct (split_byte c r). Qed.

Lemma join_split_byte c s : join_bytes [c] (split_byte c s) = s.
Proof.
  induction s as [|b r IH]; [done|]. simpl.
  pose proof (split_byte_nonempty c r) as Hne.
  destruct (byte_eqb b c) eqn:E.
  - apply byte_eqb_eq in E as ->. destruct (split_byte c r); [done|]. simpl in *. by rewrite IH.
  - destruct (split_byte c r) as [|h [|h' t]]; [done| |]; simpl in *; by f_equal.
Qed.

(** [strings.ReplaceAll(s, c, "")] for a one-byte [c]. *)
Definition remove_byte (c : byte) (s : list byte) : list byte := filter (fun b => b <> c) s.

(** ** Numbers *)

Definition is_digit (b : byte) : bool := byte_in 48 57 b.

Fixpoint digits_fuel (fuel : nat) (n : Z) (acc : list byte) : list byte :=
  match fuel with
  | O => acc
  | S k =>
      let acc' := z2b (48 + n mod 10) :: acc in
      if n <? 10 then acc' else digits_fuel k (n / 10) acc'
  end.

(** [strconv.Itoa] / [FormatUint] in base 10; 32 digits cover 64-bit values. *)
Definition Itoa (n : Z) : string :=
  if n <? 0 then b2s (x2d :: digits_fuel 32 (- n) []) else b2s (digits_fuel 32 n []).

Definition dec_value (acc : Z) (s : list byte) : Z :=
  fold_left (fun a b => a * 10 + (b2z b - 48)) s acc.

(** [strconv.Atoi] on a 64-bit platform: optional sign, digits, range check. *)
Definition Atoi (s : string) : option Z :=
  let '(neg, ds) := match s2b s with
                    | x2d :: r => (true, r)
                    | x2b :: r => (false, r)
                    | r => (false, r)
                    end in
  if bool_decide (ds = []) || negb (forallb is_digit ds) then None
  else let v := dec_value 0 ds in
       let n := if neg then - v else v in
       if (- 2 ^ 63 <=? n) && (n <? 2 ^ 63) then Some n else None.

Definition hex_digit (n : Z) : byte := if n <? 10 then z2b (48 + n) else z2b (87 + n).

(** [hex.EncodeToString]. *)
Definition hex_encode (l : list byte) : list byte :=
  concat ((fun b => [hex_digit (b2z b / 16); hex_digit (b2z b mod 16)]) <$> l).

Lemma length_hex_encode l : length (hex_encode l) = (2 * length l)%nat.
Proof.
  induction l as [|b l IH]; [done|]. unfold hex_encode in *.
  rewrite fmap_cons. cbn [concat]. rewrite length_app, IH. cbn [length]. lia.
Qed.

(** ** [net.JoinHostPort] and [net.SplitHostPort] *)

Definition JoinHostPort (host port : string) : string :=
  if contains_byte x3a (s2b host)
  then "[" +:+ host +:+ "]:" +:+ port
  else host +:+ ":" +:+ port.

(** The position of the last colon. *)
Definition last_colon (s : list byte) : option nat :=
  (fun k => (length s - 1 - k)%nat) <$> index_byte x3a (rev s).

(** [SplitHostPort]: the port follows the last colon; a bracketed host must end
    just before it; an unbracketed host holds no colon; no stray brackets.
    Byte indices as in the Go code ([j] and [k] bound the bracket checks). *)
Definition split_host_port (s : list byte) : option (list byte * list byte) :=
  match last_colon s with
  | None => None
  | Some i =>
      match s with
      | x5b :: _ =>
          match index_byte x5d s with
          | None => None
          | Some e =>
              if negb (Nat.eqb (e + 1) i) then None
              else let host := drop 1 (take e s) in
                   if contains_byte x5b (drop 1 s) || contains_byte x5d (drop (e + 1) s) then None
                   else Some (host, drop (i + 1) s)
          end
      | _ =>
          let host := take i s in
          if contains_byte x3a host || contains_byte x5b s || contains_byte x5d s then None
          else Some (host, drop (i + 1) s)
      end
  end.

Definition SplitHostPort (s : string) : option (string * string) :=
  (fun '(h, p) => (b2s h, b2s p)) <$> split_host_port (s2b s).
