(* ===== verification/GoURL.v ===== *)
(** * GoURL: [net/url]'s [Parse], [Hostname] and [Port]

    The part of Go's URL parser the modelled code relies on, at the level of
    bytes: scheme, query and fragment cutting, authority, userinfo, host and
    path, with the escapes each of them accepts. *)

From S2P Require Import Prelude GoStrings.

Record url := Url {
  u_scheme : list byte;
  u_opaque : list byte;
  u_user : option (list byte * option (list byte));
  u_host : list byte;
  u_path : list byte;
  u_rawquery : list byte;
  u_forcequery : bool;
  u_fragment : list byte;
}.

Definition is_alpha (b : byte) : bool := byte_in 65 90 b || byte_in 97 122 b.
Definition is_alnum (b : byte) : bool := is_alpha b || is_digit b.
Definition mem_byte (b : byte) (l : list byte) : bool := existsb (byte_eqb b) l.

Definition unhex (b : byte) : option Z :=
  if is_digit b then Some (b2z b - 48)
  else if byte_in 97 102 b then Some (b2z b - 87)
  else if byte_in 65 70 b then Some (b2z b - 55)
  else None.

(** [strings.Cut(s, c)]: before, after, and nothing after when [c] is absent. *)
Definition cut (c : byte) (s : list byte) : list byte * list byte :=
  match index_byte c s with
  | Some i => (take i s, drop (i + 1) s)
  | None => (s, [])
  end.

(** ** Escapes *)

Inductive esc_mode := EncodeHost | EncodeZone | EncodePath | EncodeUser | EncodeFragment.

(** [shouldEscape(c, encodeHost)], the same for [encodeZone]. *)
Definition should_escape_host (b : byte) : bool :=
  negb (is_alnum b || mem_byte b (s2b "!$&'()*+,;=:[]<>-_.~") || byte_eqb b x22).

Definition esc_checks_host (m : esc_mode) : bool :=
  match m with EncodeHost | EncodeZone => true | _ => false end.

Fixpoint unescape (m : esc_mode) (s : list byte) : option (list byte) :=
  match s with
  | [] => Some []
  | b0 :: r =>
      if byte_eqb b0 x25 then
        match r with
        | b1 :: b2 :: r' =>
            match unhex b1, unhex b2 with
            | Some h1, Some h2 =>
                let v := z2b (16 * h1 + h2) in
                let is25 := byte_eqb b1 x32 && byte_eqb b2 x35 in
                let bad := match m with
                           | EncodeHost => (h1 <? 8) && negb is25
                           | EncodeZone => negb is25 && negb (byte_eqb v x20) && should_escape_host v
                           | _ => false
                           end in
                if bad then None else (v ::.) <$> unescape m r'
            | _, _ => None
            end
        | _ => None
        end
      else if esc_checks_host m && (b2z b0 <? 128) && should_escape_host b0 then None
      else (b0 ::.) <$> unescape m r
  end.

(** ** Authority *)

Definition validOptionalPort (p : list byte) : bool :=
  match p with
  | [] => true
  | c :: ds => byte_eqb c x3a && forallb is_digit ds
  end.

Definition last_index (c : byte) (s : list byte) : option nat :=
  (fun k => (length s - 1 - k)%nat) <$> index_byte c (rev s).

Fixpoint index_sub (sub s : list byte) : option nat :=
  if has_prefix sub s then Some O
  else match s with [] => None | _ :: r => S <$> index_sub sub r end.

Definition parseHost (host : list byte) : option (list byte) :=
  if has_prefix [x5b] host then
    match last_index x5d host with
    | None => None
    | Some i =>
        if negb (validOptionalPort (drop (i + 1) host)) then None
        else match index_sub (s2b "%25") (take i host) with
             | Some zone =>
                 h1 ← unescape EncodeHost (take zone host);
                 h2 ← unescape EncodeZone (drop zone (take i host));
                 h3 ← unescape EncodeHost (drop i host);
                 Some (h1 ++ h2 ++ h3)
             | None => unescape EncodeHost host
             end
    end
  else match last_index x3a host with
       | Some i => if negb (validOptionalPort (drop i host)) then None else unescape EncodeHost host
       | None => unescape EncodeHost host
       end.

Definition validUserinfo (s : list byte) : bool :=
  forallb (fun b => is_alnum b || mem_byte b (s2b "-._:~!$&'()*+,;=%@")) s.

Definition parseAuthority (a : list byte) : option (option (list byte * option (list byte)) * list byte) :=
  match last_index x40 a with
  | None => host ← parseHost a; Some (None, host)
  | Some i =>
      host ← parseHost (drop (i + 1) a);
      let userinfo := take i a in
      if negb (validUserinfo userinfo) then None
      else match index_byte x3a userinfo with
           | None => name ← unescape EncodeUser userinfo; Some (Some (name, None), host)
           | Some k =>
               name ← unescape EncodeUser (take k userinfo);
               pass ← unescape EncodeUser (drop (k + 1) userinfo);
               Some (Some (name, Some pass), host)
           end
  end.

(** ** The parser *)

(** [getScheme]: [None] is an error; otherwise the scheme and the rest. *)
Fixpoint get_scheme (pre s : list byte) (whole : list byte) : option (list byte * list byte) :=
  match s with
  | [] => Some ([], whole)
  | c :: r =>
      if is_alpha c then get_scheme (pre ++ [c]) r whole
      else if is_digit c || mem_byte c [x2b; x2d; x2e] then
        match pre with [] => Some ([], whole) | _ => get_scheme (pre ++ [c]) r whole end
      else if byte_eqb c x3a then
        match pre with [] => None | _ => Some (pre, r) end
      else Some ([], whole)
  end.

Definition has_ctl (s : list byte) : bool := existsb (fun b => (b2z b <? 32) || (b2z b =? 127)) s.

Definition count_byte (c : byte) (s : list byte) : nat := length (filter (fun b => b = c) s).

Definition parse_nofrag (raw : list byte) : option url :=
  if has_ctl raw then None
  else if bool_decide (raw = [x2a]) then Some (Url [] [] None [] [x2a] [] false [])
  else
    sr ← get_scheme [] raw raw;
    let scheme := lower_byte <$> fst sr in
    let rest0 := snd sr in
    let force := has_prefix [x3f] (rev rest0) && Nat.eqb (count_byte x3f rest0) 1 in
    let '(rest, query) :=
      if force then (take (length rest0 - 1) rest0, []) else cut x3f rest0 in
    if negb (has_prefix [x2f] rest) && negb (bool_decide (scheme = [])) then
      Some (Url scheme rest None [] [] query force [])
    else if negb (has_prefix [x2f] rest) && contains_byte x3a (fst (cut x2f rest)) then None
    else
      if (negb (bool_decide (scheme = [])) || negb (has_prefix (s2b "///") rest)) && has_prefix (s2b "//") rest then
        let after := drop 2 rest in
        let '(authority, path) :=
          match index_byte x2f after with
          | Some i => (take i after, drop i after)
          | None => (after, [])
          end in
        uh ← parseAuthority authority;
        p ← unescape EncodePath path;
        Some (Url scheme [] (fst uh) (snd uh) p query force [])
      else
        p ← unescape EncodePath rest;
        Some (Url scheme [] None [] p query force []).

Definition url_Parse (raw : list byte) : option url :=
  let '(u, frag) := cut x23 raw in
  r ← parse_nofrag u;
  match frag with
  | [] => Some r
  | _ => f ← unescape EncodeFragment frag; Some {| r with u_fragment := f |}
  end.

(** ** [Hostname] and [Port] *)

Definition url_splitHostPort (hostPort : list byte) : list byte * list byte :=
  let '(host, port) :=
    match last_index x3a hostPort with
    | Some colon =>
        if validOptionalPort (drop colon hostPort)
        then (take colon hostPort, drop (colon + 1) hostPort) else (hostPort, [])
    | None => (hostPort, [])
    end in
  if has_prefix [x5b] host && has_prefix [x5d] (rev host)
  then (drop 1 (take (length host - 1) host), port)
  else (host, port).

Definition url_Hostname (u : url) : list byte := fst (url_splitHostPort (u_host u)).
Definition url_Port (u : url) : list byte := snd (url_splitHostPort (u_host u)).

(** An accepted host is a concatenation of bytes that [encodeHost] or
    [encodeZone] allow: in particular it holds no slash, question mark, number
    sign, at sign, backslash or control byte. *)
Definition host_byte (b : byte) : bool :=
  (128 <=? b2z b) || negb (should_escape_host b) || byte_eqb b x25 || byte_eqb b x20.

Lemma unescape_host_bytes m s t :
  esc_checks_host m = true -> unescape m s = Some t -> forallb host_byte t = true.
Proof.
  intros Hm. revert t. induction s as [s IH] using (induction_ltof1 _ (@length byte)). unfold ltof in IH.
  intros t. destruct s as [|b0 r]; simpl; [by intros [= <-]|].
  destruct (byte_eqb b0 x25) eqn:E25.
  - destruct r as [|b1 [|b2 r']]; try done.
    destruct (unhex b1) as [h1|] eqn:E1; [|done]. destruct (unhex b2) as [h2|] eqn:E2; [|done].
    case_match eqn:Hbad; [done|]. intros (u & Hu & ->)%fmap_Some.
    simpl. apply andb_true_iff. split; [|eapply IH; [|exact Hu]; simpl; lia].
    unfold host_byte. destruct m; try done; simpl in Hbad.
    + apply andb_false_iff in Hbad as [Hh|H25].
      * assert (Hr : 0 <= h2 < 16 /\ h1 < 16).
        { unfold unhex, is_digit, byte_in in E1, E2. split; [revert E2|revert E1]; clear;
          repeat case_match; intros; simplify_eq; lia. }
        rewrite b2z_z2b, Z.mod_small by lia.
        destruct (Z.leb_spec 128 (16 * h1 + h2)); [done|lia].
      * apply negb_false_iff, andb_true_iff in H25 as [->%byte_eqb_eq ->%byte_eqb_eq].
        vm_compute in E1, E2. simplify_eq. by vm_compute.
    + apply andb_false_iff in Hbad as [Hx|Hx].
      * apply andb_false_iff in Hx as [H25|Hv].
        -- apply negb_false_iff, andb_true_iff in H25 as [->%byte_eqb_eq ->%byte_eqb_eq].
           vm_compute in E1, E2. simplify_eq. by vm_compute.
        -- apply negb_false_iff in Hv. rewrite Hv. by rewrite !orb_true_r.
      * rewrite Hx. simpl. by rewrite orb_true_r.
  - rewrite Hm. simpl. case_match eqn:Hc; [done|]. intros (u & Hu & ->)%fmap_Some. simpl.
    apply andb_true_iff. split; [|eapply IH; [|exact Hu]; simpl; lia].
    unfold host_byte. apply andb_false_iff in Hc as [Hc|Hc].
    + destruct (Z.leb_spec 128 (b2z b0)); [done|]. apply Z.ltb_ge in Hc. lia.
    + rewrite Hc. simpl. by rewrite orb_true_r.
Qed.

Lemma forallb_app_true {A} (f : A -> bool) a b :
  forallb f a = true -> forallb f b = true -> forallb f (a ++ b) = true.
Proof. intros. rewrite forallb_app. by apply andb_true_iff. Qed.

Lemma parseHost_bytes h t : parseHost h = Some t -> forallb host_byte t = true.
Proof.
  assert (Hu : forall s, unescape EncodeHost s = Some t -> forallb host_byte t = true)
    by (intros s; by apply unescape_host_bytes).
  unfold parseHost. intros H. repeat case_match; simplify_eq/=; try (by eapply Hu).
  apply bind_Some in H as (h1 & Ha & H). apply bind_Some in H as (h2 & Hb & H).
  apply bind_Some in H as (h3 & Hc & [= <-]).
  apply forallb_app_true; [|apply forallb_app_true];
    (eapply unescape_host_bytes; [|eassumption]; done).
Qed.

Lemma parseAuthority_host a o h : parseAuthority a = Some (o, h) -> forallb host_byte h = true.
Proof.
  unfold parseAuthority. intros H. repeat case_match;
  repeat match goal with H : (_ ≫= _) = Some _ |- _ => apply bind_Some in H as (? & ? & H) end;
  repeat case_match;
  repeat match goal with H : (_ ≫= _) = Some _ |- _ => apply bind_Some in H as (? & ? & H) end;
  simplify_eq; eauto using parseHost_bytes.
Qed.

Lemma url_Parse_host raw u : url_Parse raw = Some u -> forallb host_byte (u_host u) = true.
Proof.
  assert (Hn : forall v r, parse_nofrag v = Some r -> forallb host_byte (u_host r) = true).
  { intros v r. unfold parse_nofrag. intros H.
    case_match; [done|]. case_match; [by simplify_eq|].
    apply bind_Some in H as ([sc rest0] & _ & H). cbv zeta in H. case_match.
    do 2 (case_match; [by simplify_eq|]). case_match.
    - case_match. apply bind_Some in H as ([o h] & Ha & H). apply bind_Some in H as (? & _ & [= <-]).
      simpl. by eapply parseAuthority_host.
    - apply bind_Some in H as (? & _ & [= <-]). done. }
  unfold url_Parse. destruct (cut x23 raw) as [v f]. intros (r & Hr & H)%bind_Some.
  destruct f; [simplify_eq; eauto|].
  apply bind_Some in H as (? & _ & [= <-]). simpl. eauto.
Qed.
