(* ===== verification/GoNet.v ===== *)
(** * GoNet: IP addresses as [net] and [net/netip] read and print them

    An [net.IP] is a list of four or sixteen bytes.  [ParseIP] follows
    [netip.ParseAddr]: dotted decimal without leading zeros, or colon-separated
    hexadecimal groups with at most one [::] and an optional dotted tail; an address
    with a zone is not an [net.IP].  [IP_String] prints IPv4 and IPv4-mapped
    addresses dotted and shortens the first longest run of two or more zero groups. *)

From S2P Require Import Prelude GoStrings GoURL.

(** ** Parsing *)

(** [parseIPv4Fields]; [fields] are the octets before the current one, [first] and
    [prevdot] say what precedes the current byte. *)
Fixpoint ipv4_fields (s : list byte) (first prevdot : bool) (val : Z) (digLen : nat) (fields : list byte) : option (list byte) :=
  match s with
  | [] => if (length fields <? 3)%nat then None else Some (fields ++ [z2b val])
  | c :: r =>
      if is_digit c then
        if (digLen =? 1)%nat && (val =? 0) then None
        else
          let val := val * 10 + (b2z c - 48) in
          if val >? 255 then None else ipv4_fields r false false val (S digLen) fields
      else if byte_eqb c x2e then
        if first || bool_decide (r = []) || prevdot then None
        else if (length fields =? 3)%nat then None
        else ipv4_fields r false true 0 0 (fields ++ [z2b val])
      else None
  end.

Definition parseIPv4 (s : list byte) : option (list byte) := ipv4_fields s true false 0 0 [].

(** The hexadecimal number at the front of a group: its value, its length, the rest. *)
Fixpoint hex_scan (s : list byte) (off : nat) (acc : Z) : option (Z * nat * list byte) :=
  match s with
  | [] => Some (acc, off, [])
  | c :: r =>
      match unhex c with
      | None => Some (acc, off, s)
      | Some d =>
          let acc := acc * 16 + d in
          if (3 <? off)%nat || (acc >? 65535) then None else hex_scan r (S off) acc
      end
  end.

(** The loop of [parseIPv6]: the bytes read, the place of the ellipsis, the rest of
    the string.  A group is two bytes; [fuel] is the number of groups that fit. *)
Fixpoint ipv6_loop (fuel : nat) (s ip : list byte) (ellipsis : option nat) : option (list byte * option nat * list byte) :=
  match fuel with
  | O => Some (ip, ellipsis, s)
  | S fuel =>
      '(acc, off, rest) ← hex_scan s 0 0;
      if (off =? 0)%nat then None
      else if has_prefix [x2e] rest then
        if (bool_decide (ellipsis = None) && negb (length ip =? 12)%nat) || (12 <? length ip)%nat then None
        else (v4 ← parseIPv4 s; Some (ip ++ v4, ellipsis, []))
      else
        let ip := ip ++ be_put 2 acc in
        match rest with
        | [] => Some (ip, ellipsis, [])
        | c :: rest =>
            if negb (byte_eqb c x3a) || bool_decide (rest = []) then None
            else if has_prefix [x3a] rest then
              if bool_decide (ellipsis <> None) then None
              else
                let rest := drop 1 rest in
                if bool_decide (rest = []) then Some (ip, Some (length ip), [])
                else ipv6_loop fuel rest ip (Some (length ip))
            else ipv6_loop fuel rest ip ellipsis
        end
  end.

(** The end of [parseIPv6]: the ellipsis is expanded. *)
Definition ipv6_finish (x : list byte * option nat * list byte) : option (list byte) :=
  let '(ip, ellipsis, rest) := x in
  if negb (bool_decide (rest = [])) then None
  else if (length ip <? 16)%nat then
    e ← ellipsis; Some (take e ip ++ replicate (16 - length ip) x00 ++ drop e ip)
  else if bool_decide (ellipsis <> None) then None else Some ip.

Definition parseIPv6 (s : list byte) : option (list byte) :=
  if has_prefix [x3a; x3a] s then
    match drop 2 s with
    | [] => Some (replicate 16 x00)
    | s => x ← ipv6_loop 8 s [] (Some O); ipv6_finish x
    end
  else x ← ipv6_loop 8 s [] None; ipv6_finish x.

Definition v4InV6Prefix : list byte := replicate 10 x00 ++ [xff; xff].

(** [netip.ParseAddr] looks for the first dot, colon or per cent sign. *)
Fixpoint parse_addr (s whole : list byte) : option (list byte) :=
  match s with
  | [] => None
  | c :: r =>
      if byte_eqb c x2e then app v4InV6Prefix <$> parseIPv4 whole
      else if byte_eqb c x3a then parseIPv6 whole
      else if byte_eqb c x25 then None
      else parse_addr r whole
  end.

Definition ParseIP (s : string) : option (list byte) :=
  if contains_byte x25 (s2b s) then None else parse_addr (s2b s) (s2b s).

Definition To4 (ip : list byte) : option (list byte) :=
  if (length ip =? 4)%nat then Some ip
  else if (length ip =? 16)%nat && bool_decide (take 12 ip = v4InV6Prefix) then Some (drop 12 ip)
  else None.

Definition To16 (ip : list byte) : option (list byte) :=
  if (length ip =? 4)%nat then Some (v4InV6Prefix ++ ip)
  else if (length ip =? 16)%nat then Some ip else None.

(** [IP.Equal]: an IPv4 address equals its mapped form. *)
Definition IP_Equal (a b : list byte) : bool :=
  match To16 a, To16 b with
  | Some x, Some y => bool_decide (x = y)
  | None, None => bool_decide (a = b)
  | _, _ => false
  end.

(** ** Printing *)

Definition dotted (ip : list byte) : list byte := join_bytes [x2e] ((fun b => s2b (Itoa (b2z b))) <$> ip).

(** The eight groups of an address. *)
Fixpoint groups (ip : list byte) : list Z :=
  match ip with a :: b :: r => (b2z a * 256 + b2z b) :: groups r | _ => [] end.

(** [appendHex]: no leading zeros. *)
Definition hex16 (n : Z) : list byte :=
  (if 4096 <=? n then [hex_digit (n / 4096)] else []) ++ (if 256 <=? n then [hex_digit (n / 256 mod 16)] else [])
  ++ (if 16 <=? n then [hex_digit (n / 16 mod 16)] else []) ++ [hex_digit (n mod 16)].

Fixpoint zero_run (l : list Z) : nat := match l with 0 :: r => S (zero_run r) | _ => O end.

(** The first longest run of at least two zero groups: its place and its length. *)
Fixpoint best_run (i : nat) (l : list Z) (best : option (nat * nat)) : option (nat * nat) :=
  match l with
  | [] => best
  | _ :: r =>
      let n := zero_run l in
      best_run (S i) r (if (2 <=? n)%nat && (match best with Some (_, m) => m | None => O end <? n)%nat then Some (i, n) else best)
  end.

Definition ipv6_string (ip : list byte) : list byte :=
  let g := groups ip in
  let join l := join_bytes [x3a] (hex16 <$> l) in
  match best_run 0 g None with
  | None => join g
  | Some (i, n) => join (take i g) ++ [x3a; x3a] ++ join (drop (i + n) g)
  end.

(** [IP.String] of an address of four or sixteen bytes. *)
Definition IP_String (ip : list byte) : string :=
  match To4 ip with
  | Some v4 => b2s (dotted v4)
  | None => b2s (ipv6_string ip)
  end.

Example parse_mapped : ParseIP "::ffff:10.0.0.1" = ParseIP "10.0.0.1".
Proof. reflexivity. Qed.

Example parse_refused : ParseIP <$> ["01.2.3.4"; "1.2.3"; "1::2::3"; "fe80::1%eth0"; "1:2:3:4:5:6:7:8::"; "host"] =
  [None; None; None; None; None; None].
Proof. reflexivity. Qed.

Example print_ipv6 : (IP_String <$> ParseIP "2001:DB8:0:0:1:0:0:0") = Some "2001:db8:0:0:1::".
Proof. reflexivity. Qed.

Example print_loopback : (IP_String <$> ParseIP "::1") = Some "::1".
Proof. reflexivity. Qed.

(** ** Addresses have sixteen bytes *)

Lemma ipv4_fields_length s f p v d fields ip :
  ipv4_fields s f p v d fields = Some ip -> (length fields <= 3)%nat -> length ip = 4%nat.
Proof.
  revert f p v d fields. induction s as [|c r IH]; intros f p v d fields; cbn [ipv4_fields].
  - destruct (Nat.ltb_spec (length fields) 3); [done|]. intros [= <-] Hl. rewrite length_app. cbn. lia.
  - intros H Hl. repeat (case_match; try done); (eapply IH; [exact H|]); [done|].
    rewrite length_app. cbn. apply Nat.eqb_neq in H3. lia.
Qed.

Lemma ipv6_loop_length fuel s ip e x :
  ipv6_loop fuel s ip e = Some x -> (length ip + 2 * fuel = 16)%nat -> (forall i, e = Some i -> (i <= length ip)%nat) ->
  (length (fst (fst x)) <= 16)%nat /\ forall i, snd (fst x) = Some i -> (i <= length (fst (fst x)))%nat.
Proof.
  revert s ip e. induction fuel as [|fuel IH]; intros s ip e; cbn [ipv6_loop].
  - intros [= <-] Hl He. cbn. split; [lia|done].
  - intros H Hl He. destruct (hex_scan s 0 0) as [[[acc off] rest]|]; [|done]. cbn [mbind option_bind] in H.
    assert (Hg : length (ip ++ be_put 2 acc) = (length ip + 2)%nat) by (rewrite length_app, length_be_put; lia).
    destruct (off =? 0)%nat; [done|]. destruct (has_prefix [x2e] rest).
    + destruct ((_ && _) || _) eqn:Hb; [done|]. destruct (parseIPv4 s) as [v4|] eqn:E; [|done]. injection H as <-. cbn.
      apply ipv4_fields_length in E; [|cbn; lia]. apply orb_false_iff in Hb as [_ Hb%Nat.ltb_ge].
      rewrite length_app, E. split; [lia|]. intros i Hi. apply He in Hi. lia.
    + destruct rest as [|c rest].
      * injection H as <-. cbn [fst snd]. rewrite Hg. split; [lia|]. intros i Hi. apply He in Hi. lia.
      * destruct (negb _ || _); [done|]. destruct (has_prefix [x3a] rest).
        -- destruct (bool_decide (e <> None)); [done|]. destruct (bool_decide (drop 1 rest = [])).
           ++ injection H as <-. cbn [fst snd]. rewrite Hg. split; [lia|]. intros i [= <-]. lia.
           ++ eapply IH; [exact H|lia|]. intros i [= <-]. lia.
        -- eapply IH; [exact H|lia|]. intros i Hi. apply He in Hi. lia.
Qed.

Lemma parseIPv6_length s ip : parseIPv6 s = Some ip -> length ip = 16%nat.
Proof.
  assert (Hfin : forall x, (length (fst (fst x)) <= 16)%nat /\ (forall i, snd (fst x) = Some i -> (i <= length (fst (fst x)))%nat) ->
    ipv6_finish x = Some ip -> length ip = 16%nat).
  { intros [[a e] rest] [Hl He] H. unfold ipv6_finish in H. cbn [fst snd] in *. destruct (negb _); [done|]. destruct (Nat.ltb_spec (length a) 16) as [Hlt|Hge].
    - destruct e as [e|]; [|done]. injection H as <-. specialize (He e eq_refl).
      rewrite !length_app, length_take, length_replicate, length_drop. lia.
    - destruct (bool_decide _); [done|]. injection H as <-. lia. }
  unfold parseIPv6. intros H. destruct (has_prefix [x3a; x3a] s).
  - destruct (drop 2 s) as [|c r] eqn:E; [by injection H as <-|].
    destruct (ipv6_loop 8 (c :: r) [] (Some 0%nat)) as [x|] eqn:El; [|done]. eapply (Hfin x); [|exact H].
    eapply ipv6_loop_length; [exact El|done|]. intros i [= <-]. cbn. lia.
  - destruct (ipv6_loop 8 s [] None) as [x|] eqn:El; [|done]. eapply (Hfin x); [|exact H].
    by eapply ipv6_loop_length.
Qed.

Lemma ParseIP_length s ip : ParseIP s = Some ip -> length ip = 16%nat.
Proof.
  unfold ParseIP. case_match; [done|]. generalize (s2b s) at 1. intros l. induction l as [|c r IH]; cbn [parse_addr]; [done|].
  destruct (byte_eqb c x2e).
  - destruct (parseIPv4 (s2b s)) as [v4|] eqn:E; [|done]. intros [= <-]. apply ipv4_fields_length in E; [|cbn; lia].
    change (length (v4InV6Prefix ++ v4) = 16%nat). by rewrite length_app, E.
  - destruct (byte_eqb c x3a); [apply parseIPv6_length|]. destruct (byte_eqb c x25); [done|exact IH].
Qed.

Lemma To4_length ip v4 : To4 ip = Some v4 -> length v4 = 4%nat.
Proof.
  unfold To4. destruct (Nat.eqb_spec (length ip) 4); [by intros [= <-]|].
  destruct (Nat.eqb_spec (length ip) 16); [|done]. cbn. case_bool_decide; [|done]. intros [= <-]. rewrite length_drop. lia.
Qed.
