(* ===== verification/Socks5.v ===== *)
(** * Socks5: the SOCKS5 client ([socks5_proxy.go], [proxy_config.go])

    The connection to the proxy is the bytes it will still deliver and a sink for
    what is written; a proxy that stops answering ends the input, a write to a broken
    connection fails.  The handshake is a computation in a state and error monad over
    the connection.  UDP packets of an association are a list in order of arrival. *)

From S2P Require Import Prelude Framing GoStrings GoURL GoNet.

Definition socks5Version : byte := x05.
Definition socks5NoAuth : byte := x00.
Definition socks5UserPassAuth : byte := x02.
Definition socks5NoAcceptable : byte := xff.
Definition socks5CmdConnect : byte := x01.
Definition socks5CmdUDP : byte := x03.
Definition socks5AddrIPv4 : byte := x01.
Definition socks5AddrDomain : byte := x03.
Definition socks5AddrIPv6 : byte := x04.
Definition socks5StatusSuccess : byte := x00.

Record socks5ProxyConfig := MkSocksConfig { sc_address : string; sc_username : string; sc_password : string; sc_auth : bool }.

Record socks5Address := MkSocksAddr { sa_host : string; sa_port : Z }.

Inductive socks_error :=
| WriteFailed | ReadFailed (e : io_error)
| ProxyURLRequired | ProxyURLInvalid | UnsupportedScheme | ProxyHostMissing | HalfCredentials | CredentialsTooLong
| TargetInvalid | TargetPortInvalid
| GreetingVersion (b : byte) | AuthNotConfigured | AuthRejected | AuthUnsupported (b : byte) | AuthFailed
| DomainLength | ReplyVersion (b : byte) | ReplyReserved (b : byte) | AddrType (b : byte) | RequestFailed (status : byte)
| DatagramShort | DatagramReserved | DatagramFragmented
| ContextDone | DeadlineFailed | DialFailed | ListenFailed | RelayInvalid | RelayUnresolved.

(** ** Configuration *)

Definition socks5ProxyConfigFromRaw (raw : string) (username password : option string) : result socks_error socks5ProxyConfig :=
  if bool_decide (raw = "") then Err ProxyURLRequired
  else
    let raw := if Contains raw "://" then raw else "socks5://" +:+ raw in
    match url_Parse (s2b raw) with
    | None => Err ProxyURLInvalid
    | Some u =>
        if negb (bool_decide (b2s (u_scheme u) = "socks5")) && negb (bool_decide (b2s (u_scheme u) = "socks5h"))
        then Err UnsupportedScheme
        else
          let host := url_Hostname u in
          if bool_decide (host = []) then Err ProxyHostMissing
          else
            let port := url_Port u in
            let port := if bool_decide (port = []) then s2b "1080" else port in
            let cfg := MkSocksConfig (JoinHostPort (b2s host) (b2s port)) "" "" false in
            let configured :=
              match username, password with
              | None, None => Ok cfg
              | Some n, Some p => Ok {| cfg with sc_username := n; sc_password := p; sc_auth := true |}
              | _, _ => Err HalfCredentials
              end in
            let? cfg := configured in
            let cfg := match u_user u with
                       | Some (n, p) =>
                           if sc_auth cfg then cfg
                           else {| cfg with sc_username := b2s n; sc_password := b2s (default [] p); sc_auth := true |}
                       | None => cfg
                       end in
            if sc_auth cfg && ((slen (sc_username cfg) >? 255) || (slen (sc_password cfg) >? 255))
            then Err CredentialsTooLong else Ok cfg
    end.

Definition parseSOCKS5TargetAddress (addr : string) : result socks_error socks5Address :=
  match SplitHostPort addr with
  | None => Err TargetInvalid
  | Some (host, portRaw) =>
      match Atoi portRaw with
      | None => Err TargetPortInvalid
      | Some port => if (port <? 1) || (port >? 65535) then Err TargetPortInvalid else Ok (MkSocksAddr host port)
      end
  end.

(** ** The wire format *)

Definition socks5EncodeAddress (target : socks5Address) : result socks_error (list byte) :=
  let port := be_put 2 (u16 (sa_port target)) in
  match ParseIP (sa_host target) with
  | Some ip =>
      match To4 ip with
      | Some v4 => Ok (socks5AddrIPv4 :: v4 ++ port)
      | None => match To16 ip with
                | None => Err DomainLength
                | Some v6 => Ok (socks5AddrIPv6 :: v6 ++ port)
                end
      end
  | None =>
      let host := s2b (sa_host target) in
      if (length host =? 0)%nat || (255 <? length host)%nat then Err DomainLength
      else Ok (socks5AddrDomain :: z2b (Z.of_nat (length host)) :: host ++ port)
  end.

Definition socks5BuildRequest (command : byte) (target : socks5Address) : result socks_error (list byte) :=
  let? addr := socks5EncodeAddress target in Ok ([socks5Version; command; x00] ++ addr).

(** Reading from the bytes that are left. *)
Definition read (n : nat) (s : list byte) : result socks_error (list byte * list byte) :=
  match read_full n s with Ok x => Ok x | Err e => Err (ReadFailed e) end.

Definition socks5ReadAddress (s : list byte) (atyp : byte) : result socks_error (socks5Address * list byte) :=
  let host :=
    if byte_eqb atyp socks5AddrIPv4 then let? (raw, s) := read 4 s in Ok (IP_String raw, s)
    else if byte_eqb atyp socks5AddrIPv6 then let? (raw, s) := read 16 s in Ok (IP_String raw, s)
    else if byte_eqb atyp socks5AddrDomain then
      let? (size, s) := read 1 s in
      let? (raw, s) := read (Z.to_nat (be_get size)) s in Ok (b2s raw, s)
    else Err (AddrType atyp) in
  let? (host, s) := host in
  let? (portRaw, s) := read 2 s in
  Ok (MkSocksAddr host (be_get portRaw), s).

(** The four bytes before the address of a reply. *)
Definition socks5ReadReply (s : list byte) : result socks_error (byte * socks5Address * list byte) :=
  let? (head, s) := read 4 s in
  match head with
  | [version; status; reserved; atyp] =>
      if negb (byte_eqb version socks5Version) then Err (ReplyVersion version)
      else if negb (byte_eqb reserved x00) then Err (ReplyReserved reserved)
      else let? (addr, s) := socks5ReadAddress s atyp in Ok (status, addr, s)
  | _ => Err (ReadFailed EOF)
  end.

Definition socks5BuildUDPDatagram (target : socks5Address) (payload : list byte) : result socks_error (list byte) :=
  let? addr := socks5EncodeAddress target in Ok ([x00; x00; x00] ++ addr ++ payload).

Definition socks5DecodeUDPDatagram (packet : list byte) : result socks_error (list byte * socks5Address) :=
  match packet with
  | a :: b :: c :: atyp :: rest =>
      if negb (byte_eqb a x00) || negb (byte_eqb b x00) then Err DatagramReserved
      else if negb (byte_eqb c x00) then Err DatagramFragmented
      else
        let? (addr, reader) := socks5ReadAddress rest atyp in
        let payloadOffset := (4 + length rest - length reader)%nat in
        Ok (drop payloadOffset packet, addr)
  | _ => Err DatagramShort
  end.

(** ** The handshake *)

Record sconn := MkConn { cn_in : list byte; cn_out : sink }.

Definition SM (A : Type) : Type := sconn -> sconn * result socks_error A.

Definition sret {A} (a : A) : SM A := fun c => (c, Ok a).
Definition sfail {A} (e : socks_error) : SM A := fun c => (c, Err e).
Definition sbind {A B} (m : SM A) (k : A -> SM B) : SM B :=
  fun c => match m c with (c, Ok a) => k a c | (c, Err e) => (c, Err e) end.

Declare Scope socks_scope.
Notation "'let*' x ':=' m 'in' k" := (sbind m (fun x => k)) (at level 10, x pattern, m at level 100, k at level 200) : socks_scope.
#[local] Open Scope socks_scope.

(** [conn.Write]. *)
Definition swrite (b : list byte) : SM unit :=
  fun c => match sink_write (cn_out c) b with
           | (w, None) => ({| c with cn_out := w |}, Ok tt)
           | (w, Some _) => ({| c with cn_out := w |}, Err WriteFailed)
           end.

(** A reader of the input; after an error the input does not matter. *)
Definition sreader {A} (f : list byte -> result socks_error (A * list byte)) : SM A :=
  fun c => match f (cn_in c) with
           | Ok (a, s) => ({| c with cn_in := s |}, Ok a)
           | Err e => (c, Err e)
           end.

Definition sread (n : nat) : SM (list byte) := sreader (read n).

Definition userpass_request (username password : string) : list byte :=
  [x01; z2b (slen username)] ++ s2b username ++ [z2b (slen password)] ++ s2b password.

Definition socks5UserPass (username password : string) : SM unit :=
  let* _ := swrite (userpass_request username password) in
  let* reply := sread 2 in
  match reply with
  | [a; b] => if negb (byte_eqb a x01) || negb (byte_eqb b x00) then sfail AuthFailed else sret tt
  | _ => sfail AuthFailed
  end.

Definition greeting (cfg : socks5ProxyConfig) : list byte :=
  let methods := [socks5NoAuth] ++ (if sc_auth cfg then [socks5UserPassAuth] else []) in
  [socks5Version; z2b (Z.of_nat (length methods))] ++ methods.

Definition socks5Negotiate (cfg : socks5ProxyConfig) : SM unit :=
  let* _ := swrite (greeting cfg) in
  let* reply := sread 2 in
  match reply with
  | [version; method] =>
      if negb (byte_eqb version socks5Version) then sfail (GreetingVersion version)
      else if byte_eqb method socks5NoAuth then sret tt
      else if byte_eqb method socks5UserPassAuth then
        if sc_auth cfg then socks5UserPass (sc_username cfg) (sc_password cfg) else sfail AuthNotConfigured
      else if byte_eqb method socks5NoAcceptable then sfail AuthRejected
      else sfail (AuthUnsupported method)
  | _ => sfail (ReadFailed EOF)
  end.

(** What the context and the deadlines of the connection do around [fn]. *)
Record deadline_env := MkDeadlineEnv {
  de_doneBefore : bool; de_setFails : bool; de_doneAfter : bool; de_resetFails : bool }.

Definition withContextConnDeadline {A} (env : deadline_env) (fn : SM A) : SM A :=
  fun c =>
    if de_doneBefore env then (c, Err ContextDone)
    else if de_setFails env then (c, Err DeadlineFailed)
    else
      let '(c, r) := fn c in
      if de_doneAfter env then (c, Err ContextDone)
      else match r with
           | Err e => (c, Err e)
           | Ok a => if de_resetFails env then (c, Err DeadlineFailed) else (c, Ok a)
           end.

(** The exchange of a request and its reply, after the negotiation. *)
Definition request (command : byte) (target : socks5Address) : SM socks5Address :=
  match socks5BuildRequest command target with
  | Err e => sfail e
  | Ok req =>
      let* _ := swrite req in
      let* x := sreader (fun s => let? (status, addr, s) := socks5ReadReply s in Ok ((status, addr), s)) in
      if negb (byte_eqb (fst x) socks5StatusSuccess) then sfail (RequestFailed (fst x)) else sret (snd x)
  end.

Definition socks5Handshake (env : deadline_env) (cfg : socks5ProxyConfig) (command : byte) (target : socks5Address) : SM unit :=
  withContextConnDeadline env
    (let* _ := socks5Negotiate cfg in
     let* _ := request command target in
     sret tt).

(** [dialSOCKS5]: the connection that was dialed, whether it was closed, the result. *)
Definition dialSOCKS5 (env : deadline_env) (proxyRaw : string) (username password : option string) (target : string)
    (dialed : option sconn) : option sconn * bool * result socks_error unit :=
  match socks5ProxyConfigFromRaw proxyRaw username password with
  | Err e => (None, false, Err e)
  | Ok cfg =>
      match dialed with
      | None => (None, false, Err DialFailed)
      | Some conn =>
          match parseSOCKS5TargetAddress target with
          | Err e => (Some conn, true, Err e)
          | Ok targetAddr =>
              match socks5Handshake env cfg socks5CmdConnect targetAddr conn with
              | (conn, Err e) => (Some conn, true, Err e)
              | (conn, Ok _) => (Some conn, false, Ok tt)
              end
          end
      end
  end.

(** ** UDP associations *)

Record UDPAddr := MkUDPAddr { ua_IP : list byte; ua_Port : Z }.

Definition socks5SameUDPAddr (a b : option UDPAddr) : bool :=
  match a, b with
  | Some a, Some b => (ua_Port a =? ua_Port b) && IP_Equal (ua_IP a) (ua_IP b)
  | _, _ => false
  end.

Definition unspecified (host : string) : bool :=
  bool_decide (host = "") || bool_decide (host = "0.0.0.0") || bool_decide (host = "::").

(** [remote]: the address of the control connection when it is a TCP address;
    [resolve]: [net.ResolveUDPAddr]. *)
Definition socks5RelayUDPAddr (resolve : string -> option UDPAddr) (addr : socks5Address) (remote : option (list byte)) :
    result socks_error UDPAddr :=
  let host := if unspecified (sa_host addr) then match remote with Some ip => IP_String ip | None => sa_host addr end
              else sa_host addr in
  if bool_decide (host = "") || (sa_port addr =? 0) then Err RelayInvalid
  else match resolve (JoinHostPort host (Itoa (sa_port addr))) with
       | None => Err RelayUnresolved
       | Some a => Ok a
       end.

Record socks5UDPConn := MkSocksUDP {
  su_relay : UDPAddr;
  su_target : socks5Address;
  su_queue : list (option UDPAddr * list byte);      (* packets that arrive at the socket *)
  su_sent : list (UDPAddr * list byte);
  su_closed : bool;
  su_udpCloses : nat;
  su_controlCloses : nat;
}.

(** The association, with the sockets it opened and closed: the control
    connection, the UDP socket. *)
Definition newSOCKS5UDPConn (env : deadline_env) (resolve : string -> option UDPAddr) (remote : option (list byte))
    (proxyRaw target : string) (username password : option string) (dialed : option sconn) (listened : bool) :
    (option bool * option bool) * result socks_error socks5UDPConn :=
  match socks5ProxyConfigFromRaw proxyRaw username password with
  | Err e => ((None, None), Err e)
  | Ok cfg =>
      match dialed with
      | None => ((None, None), Err DialFailed)
      | Some control =>
          match parseSOCKS5TargetAddress target with
          | Err e => ((Some true, None), Err e)
          | Ok targetAddr =>
              let associate := let* _ := socks5Negotiate cfg in request socks5CmdUDP (MkSocksAddr "0.0.0.0" 0) in
              match withContextConnDeadline env associate control with
              | (_, Err e) => ((Some true, None), Err e)
              | (_, Ok relayAddr) =>
                  if negb listened then ((Some true, None), Err ListenFailed)
                  else match socks5RelayUDPAddr resolve relayAddr remote with
                       | Err e => ((Some true, Some true), Err e)
                       | Ok relay => ((Some false, Some false), Ok (MkSocksUDP relay targetAddr [] [] false 0 0))
                       end
              end
          end
      end
  end.

Definition target_addr (c : socks5UDPConn) : string := JoinHostPort (sa_host (su_target c)) (Itoa (sa_port (su_target c))).

(** Whether a packet is for the reader: from the relay, well formed, from the port of
    the target. *)
Definition relevant (relay : UDPAddr) (target : socks5Address) (x : option UDPAddr * list byte) : option (list byte) :=
  if socks5SameUDPAddr (fst x) (Some relay) then
    match socks5DecodeUDPDatagram (snd x) with
    | Err _ => None
    | Ok (payload, source) => if negb (sa_port source =? sa_port target) then None else Some payload
    end
  else None.

(** [ReadFrom] with a buffer of [n] bytes; [None]: it still waits. *)
Fixpoint read_from (relay : UDPAddr) (target : socks5Address) (n : nat) (queue : list (option UDPAddr * list byte)) :
    list (option UDPAddr * list byte) * option (list byte) :=
  match queue with
  | [] => ([], None)
  | x :: queue =>
      match relevant relay target x with
      | None => read_from relay target n queue
      | Some payload => (queue, Some (take n payload))
      end
  end.

Definition ReadFrom (n : nat) (c : socks5UDPConn) : socks5UDPConn * option (list byte * string) :=
  let '(queue, r) := read_from (su_relay c) (su_target c) n (su_queue c) in
  ({| c with su_queue := queue |}, (fun p => (p, target_addr c)) <$> r).

Definition WriteTo (p : list byte) (addr : option string) (ok : bool) (c : socks5UDPConn) :
    socks5UDPConn * result socks_error Z :=
  let target := match addr with
                | Some a => if bool_decide (a = "") then Ok (su_target c) else parseSOCKS5TargetAddress a
                | None => Ok (su_target c)
                end in
  match target with
  | Err e => (c, Err e)
  | Ok target =>
      match socks5BuildUDPDatagram target p with
      | Err e => (c, Err e)
      | Ok packet => if ok then ({| c with su_sent := su_sent c ++ [(su_relay c, packet)] |}, Ok (Z.of_nat (length p)))
                     else (c, Err WriteFailed)
      end
  end.

Definition socks5_Close (c : socks5UDPConn) : socks5UDPConn :=
  if su_closed c then c
  else {| c with su_closed := true; su_udpCloses := S (su_udpCloses c); su_controlCloses := S (su_controlCloses c) |}.

(** ** Addresses *)

(** The form in which the proxy names the host: IP addresses are printed anew. *)
Definition canonical_host (host : string) : string :=
  match ParseIP host with Some ip => IP_String ip | None => host end.

Lemma read_app n a r : length a = n -> read n (a ++ r) = Ok (a, r).
Proof. intros H. unfold read. by rewrite read_full_app. Qed.

Lemma read_ok n s a r : read n s = Ok (a, r) -> s = a ++ r /\ length a = n.
Proof. unfold read. destruct (read_full n s) as [[x y]|] eqn:E; [|done]. intros [= <- <-]. by apply read_full_ok. Qed.

Lemma be_get_u16 z : be_get (be_put 2 (u16 z)) = u16 z.
Proof. rewrite be_get_put. unfold u16. apply Z.mod_small. apply Z.mod_pos_bound. lia. Qed.

Lemma IP_String_v4 ip v4 : To4 ip = Some v4 -> IP_String v4 = IP_String ip.
Proof.
  intros H. pose proof (To4_length ip v4 H) as Hl. unfold IP_String. rewrite H. unfold To4. by rewrite Hl.
Qed.

(** What is encoded is read back, and nothing else is taken. *)
Lemma encode_address_read target addr rest :
  socks5EncodeAddress target = Ok addr ->
  exists atyp body, addr = atyp :: body /\
    socks5ReadAddress (body ++ rest) atyp = Ok (MkSocksAddr (canonical_host (sa_host target)) (u16 (sa_port target)), rest).
Proof.
  unfold socks5EncodeAddress, canonical_host. destruct (ParseIP (sa_host target)) as [ip|] eqn:Hip.
  - pose proof (ParseIP_length _ _ Hip) as Hl. destruct (To4 ip) as [v4|] eqn:H4.
    + intros [= <-]. eexists _, _. split; [done|]. unfold socks5ReadAddress. rewrite <- app_assoc.
      rewrite (read_app 4) by by eapply To4_length. cbn [byte_eqb bool_decide decide socks5AddrIPv4].
      change (byte_eqb socks5AddrIPv4 socks5AddrIPv4) with true. cbv match beta. rewrite (read_app 2) by apply length_be_put.
      by rewrite be_get_u16, (IP_String_v4 ip).
    + unfold To16. rewrite Hl. cbn [Nat.eqb]. intros [= <-]. eexists _, _. split; [done|]. unfold socks5ReadAddress.
      rewrite <- app_assoc, (read_app 16) by done.
      change (byte_eqb socks5AddrIPv6 socks5AddrIPv4) with false. change (byte_eqb socks5AddrIPv6 socks5AddrIPv6) with true.
      cbv match beta. rewrite (read_app 2) by apply length_be_put. by rewrite be_get_u16.
  - destruct (Nat.eqb_spec (length (s2b (sa_host target))) 0) as [|H0]; [done|].
    destruct (Nat.ltb_spec 255 (length (s2b (sa_host target)))) as [|Hle]; [done|]. cbn [orb]. intros [= <-].
    eexists _, _. split; [done|]. unfold socks5ReadAddress.
    change (byte_eqb socks5AddrDomain socks5AddrIPv4) with false. change (byte_eqb socks5AddrDomain socks5AddrIPv6) with false.
    change (byte_eqb socks5AddrDomain socks5AddrDomain) with true. cbv match beta.
    set (host := s2b (sa_host target)) in *. set (b := z2b (Z.of_nat (length host))).
    assert (Hb : be_get [b] = Z.of_nat (length host)).
    { unfold be_get. cbn. subst b. rewrite b2z_z2b, Z.mod_small by lia. lia. }
    change ((b :: host ++ be_put 2 (u16 (sa_port target))) ++ rest) with ([b] ++ (host ++ be_put 2 (u16 (sa_port target))) ++ rest).
    rewrite (read_app 1 [b] ((host ++ be_put 2 (u16 (sa_port target))) ++ rest)) by done. rewrite Hb, Nat2Z.id.
    rewrite <- app_assoc, (read_app (length host) host) by done. rewrite (read_app 2) by apply length_be_put.
    rewrite be_get_u16. subst host. by rewrite b2s_s2b.
Qed.

Lemma datagram_decode target payload packet :
  socks5BuildUDPDatagram target payload = Ok packet ->
  socks5DecodeUDPDatagram packet =
    Ok (payload, MkSocksAddr (canonical_host (sa_host target)) (u16 (sa_port target))).
Proof.
  unfold socks5BuildUDPDatagram. destruct (socks5EncodeAddress target) as [addr|] eqn:E; [|done]. intros [= <-].
  destruct (encode_address_read target addr payload E) as (atyp & body & -> & Hr). cbn [app socks5DecodeUDPDatagram].
  change (byte_eqb x00 x00) with true. cbn [negb orb]. rewrite Hr. do 2 f_equal. f_equal.
  rewrite length_app. replace (4 + (length body + length payload) - length payload)%nat with (4 + length body)%nat by lia.
  cbn [drop plus]. by rewrite drop_app_length.
Qed.

(** ** The handshake, byte by byte *)

Lemma swrite_spec b c c' r : swrite b c = (c', r) ->
  cn_in c' = cn_in c /\
  match r with
  | Ok _ => delivered (cn_out c') = delivered (cn_out c) ++ b
  | Err _ => exists n, delivered (cn_out c') = delivered (cn_out c) ++ take n b
  end.
Proof.
  unfold swrite, sink_write. destruct (room (cn_out c)) as [k|]; [case_decide|]; intros [= <- <-]; cbn; eauto.
Qed.

Lemma sread_spec n c c' r : sread n c = (c', r) ->
  cn_out c' = cn_out c /\ match r with Ok a => cn_in c = a ++ cn_in c' /\ length a = n | Err _ => True end.
Proof.
  unfold sread, sreader. destruct (read n (cn_in c)) as [[a s]|] eqn:E; intros [= <- <-]; [|done].
  apply read_ok in E as [-> ?]. done.
Qed.

(** Everything that was written is the beginning of [w]; on success, all of it. *)
Definition wrote {A} (c c' : sconn) (r : result socks_error A) (w : list byte) : Prop :=
  match r with
  | Ok _ => delivered (cn_out c') = delivered (cn_out c) ++ w
  | Err _ => exists n, delivered (cn_out c') = delivered (cn_out c) ++ take n w
  end.

Lemma wrote_err {A B} c c' (e : socks_error) w w' (a : A) :
  wrote c c' (@Ok socks_error A a) w -> wrote c c' (@Err socks_error B e) (w ++ w').
Proof. intros H. exists (length w). by rewrite take_app_length. Qed.

Lemma wrote_err_app {A B} c c' (e e' : socks_error) w w' :
  wrote c c' (@Err socks_error A e) w -> wrote c c' (@Err socks_error B e') (w ++ w').
Proof. intros [n H]. exists (n `min` length w)%nat. rewrite H, take_app_le by lia. by rewrite <- take_take, firstn_all. Qed.

Lemma wrote_seq {A B} c c1 c' (a : A) (r : result socks_error B) w w' :
  wrote c c1 (@Ok socks_error A a) w -> wrote c1 c' r w' -> wrote c c' r (w ++ w').
Proof.
  unfold wrote. intros H. destruct r as [b|e].
  - intros ->. by rewrite H, <- app_assoc.
  - intros [n ->]. exists (length w + n)%nat. rewrite H, take_app_add. by rewrite <- app_assoc.
Qed.

Lemma byte_eqb_spec a b : byte_eqb a b = true <-> a = b.
Proof. apply bool_decide_eq_true. Qed.

(** The proxy chose passwords and one is configured. *)
Definition selected (cfg : socks5ProxyConfig) (input : list byte) : bool :=
  sc_auth cfg && bool_decide (take 2 input = [socks5Version; socks5UserPassAuth]).

Definition auth_request (cfg : socks5ProxyConfig) (input : list byte) : list byte :=
  if selected cfg input then userpass_request (sc_username cfg) (sc_password cfg) else [].

Definition auth_reply (cfg : socks5ProxyConfig) (input : list byte) : list byte :=
  if selected cfg input then [x01; x00] else [].

Lemma selected_reply cfg a b s :
  selected cfg ([a; b] ++ s) = sc_auth cfg && (byte_eqb a socks5Version && byte_eqb b socks5UserPassAuth).
Proof.
  unfold selected, byte_eqb. cbn [take app]. f_equal. repeat case_bool_decide; naive_solver.
Qed.

Lemma userpass_spec u p c c' r : socks5UserPass u p c = (c', r) ->
  wrote c c' r (userpass_request u p) /\ (r = Ok tt -> cn_in c = [x01; x00] ++ cn_in c').
Proof.
  unfold socks5UserPass, sbind. intros H. destruct (swrite _ c) as [c1 [[]|e]] eqn:E1.
  2: { injection H as <- <-. apply swrite_spec in E1 as [_ E1]. done. }
  apply swrite_spec in E1 as [Hin Hw]. destruct (sread 2 c1) as [c2 [reply|e]] eqn:E2; apply sread_spec in E2 as [Ho E2].
  2: { injection H as <- <-. split; [|done]. exists (length (userpass_request u p)). by rewrite Ho, firstn_all. }
  destruct E2 as [E2 Hl]. assert (Hw2 : delivered (cn_out c2) = delivered (cn_out c) ++ userpass_request u p) by by rewrite Ho.
  destruct reply as [|a [|b [|]]]; try done.
  destruct (negb (byte_eqb a x01) || negb (byte_eqb b x00)) eqn:Hb; injection H as <- <-.
  - split; [|done]. exists (length (userpass_request u p)). by rewrite Hw2, firstn_all.
  - split; [done|]. intros _. apply orb_false_iff in Hb as [Ha%negb_false_iff%byte_eqb_spec Hb%negb_false_iff%byte_eqb_spec].
    subst. by rewrite <- Hin.
Qed.

Lemma negotiate_spec cfg c c' r : socks5Negotiate cfg c = (c', r) ->
  wrote c c' r (greeting cfg ++ auth_request cfg (cn_in c)) /\
  (r = Ok tt -> exists method, cn_in c = [socks5Version; method] ++ auth_reply cfg (cn_in c) ++ cn_in c').
Proof.
  unfold socks5Negotiate, sbind. intros H. destruct (swrite _ c) as [c1 [[]|e]] eqn:E1.
  2: { injection H as <- <-. apply swrite_spec in E1 as [_ E1]. split; [|done]. by eapply (@wrote_err_app unit unit c c1 e). }
  apply swrite_spec in E1 as [Hin Hw]. destruct (sread 2 c1) as [c2 [reply|e]] eqn:E2; apply sread_spec in E2 as [Ho E2].
  2: { injection H as <- <-. split; [|done]. apply (@wrote_err unit unit c c2 e _ _ tt). cbn. by rewrite Ho. }
  destruct E2 as [E2 Hl]. assert (Hw2 : wrote c c2 (@Ok socks_error unit tt) (greeting cfg)) by (cbn; by rewrite Ho).
  destruct reply as [|a [|b [|]]]; try done. rewrite Hin in E2.
  assert (Herr : forall e w, wrote c c2 (@Err socks_error unit e) (greeting cfg ++ w)).
  { intros e w. by apply (@wrote_err unit unit c c2 e _ _ tt). }
  unfold auth_request, auth_reply. rewrite E2, selected_reply.
  destruct (byte_eqb a socks5Version) eqn:Ha; cbn [negb] in H; [|injection H as <- <-; split; [apply Herr|done]].
  apply byte_eqb_spec in Ha as ->. destruct (byte_eqb b socks5NoAuth) eqn:Hb0.
  { injection H as <- <-. apply byte_eqb_spec in Hb0 as ->. change (byte_eqb socks5NoAuth socks5UserPassAuth) with false.
    rewrite !andb_false_r, app_nil_r. split; [done|]. intros _. by exists socks5NoAuth. }
  destruct (byte_eqb b socks5UserPassAuth) eqn:Hb.
  2: { destruct (byte_eqb b socks5NoAcceptable); injection H as <- <-; (split; [apply Herr|done]). }
  destruct (sc_auth cfg); [|injection H as <- <-; split; [apply Herr|done]]. cbn [andb].
  apply userpass_spec in H as [H1 H2]. split; [by eapply wrote_seq|]. intros E. exists b. by rewrite <- (H2 E).
Qed.

Lemma read_reply_split s status addr rest :
  socks5ReadReply s = Ok (status, addr, rest) -> exists reply, s = reply ++ rest.
Proof.
  unfold socks5ReadReply. destruct (read 4 s) as [[head s1]|] eqn:E1; [|done]. apply read_ok in E1 as [-> _].
  destruct head as [|v [|st [|rs [|aty [|]]]]]; try done. destruct (negb _); [done|]. destruct (negb _); [done|].
  destruct (socks5ReadAddress s1 aty) as [[a s2]|] eqn:E; [|done]. intros [= <- <- <-].
  assert (exists body, s1 = body ++ s2) as [body ->]; [|eexists; by rewrite app_assoc].
  unfold socks5ReadAddress in E.
  match type of E with (match ?h with _ => _ end) = _ => destruct h as [[host s3]|] eqn:Eh; [|done] end.
  destruct (read 2 s3) as [[p s4]|] eqn:Ep; [|done]. injection E as _ <-. apply read_ok in Ep as [-> _].
  assert (exists b, s1 = b ++ p ++ s4) as [b ->]; [|eexists; by rewrite app_assoc].
  repeat case_match; try done; simplify_eq; repeat match goal with H : read _ _ = Ok _ |- _ => apply read_ok in H as [-> _] end;
    try (by eexists); by eexists; rewrite app_assoc.
Qed.

Definition request_bytes (command : byte) (target : socks5Address) : list byte :=
  match socks5BuildRequest command target with Ok req => req | Err _ => [] end.

Lemma request_spec command target c c' r : request command target c = (c', r) ->
  wrote c c' r (request_bytes command target) /\
  (forall addr, r = Ok addr -> exists reply, cn_in c = reply ++ cn_in c' /\
     socks5ReadReply (cn_in c) = Ok (socks5StatusSuccess, addr, cn_in c')).
Proof.
  unfold request, request_bytes. destruct (socks5BuildRequest command target) as [req|e].
  2: { intros [= <- <-]. split; [|done]. exists O. by rewrite app_nil_r. }
  unfold sbind. intros H. destruct (swrite req c) as [c1 [[]|e]] eqn:E1.
  2: { injection H as <- <-. apply swrite_spec in E1 as [_ E1]. done. }
  apply swrite_spec in E1 as [Hin Hw]. unfold sreader in H. rewrite Hin in H.
  destruct (socks5ReadReply (cn_in c)) as [[[status addr] rest]|e] eqn:Er.
  2: { injection H as <- <-. split; [|done]. exists (length req). by rewrite firstn_all. }
  cbn [fst snd] in H. destruct (byte_eqb status socks5StatusSuccess) eqn:Hs; cbn [negb] in H; injection H as <- <-.
  - split; [done|]. intros a [= <-]. cbn [cn_in]. apply byte_eqb_spec in Hs as ->.
    destruct (read_reply_split _ _ _ _ Er) as [reply E]. exists reply. by rewrite <- E.
  - split; [|done]. exists (length req). by rewrite firstn_all.
Qed.

(** The negotiation followed by a request. *)
Lemma negotiated_request cfg command target c c' r :
  (let* _ := socks5Negotiate cfg in request command target) c = (c', r) ->
  wrote c c' r (greeting cfg ++ auth_request cfg (cn_in c) ++ request_bytes command target) /\
  (forall addr, r = Ok addr -> exists method reply,
     cn_in c = [socks5Version; method] ++ auth_reply cfg (cn_in c) ++ reply ++ cn_in c' /\
     socks5ReadReply (reply ++ cn_in c') = Ok (socks5StatusSuccess, addr, cn_in c')).
Proof.
  unfold sbind. intros H. destruct (socks5Negotiate cfg c) as [c1 [[]|e]] eqn:E1; apply negotiate_spec in E1 as [H1 H2].
  2: { injection H as <- <-. split; [|done]. rewrite app_assoc. by eapply (@wrote_err_app unit _ c c1 e). }
  apply request_spec in H as [H3 H4]. split; [rewrite app_assoc; by eapply wrote_seq|].
  intros addr E. destruct (H2 eq_refl) as [method Hm]. destruct (H4 addr E) as (reply & Hr & Hreply).
  exists method, reply. rewrite <- Hr. split; [exact Hm|exact Hreply].
Qed.

Lemma deadline_result {A} env (fn : SM A) c c' r :
  withContextConnDeadline env fn c = (c', r) ->
  (c' = c /\ exists e, r = Err e) \/ exists r0, fn c = (c', r0) /\ (r = r0 \/ exists e, r = Err e).
Proof.
  unfold withContextConnDeadline. destruct (de_doneBefore env); [intros [= <- <-]; left; eauto|].
  destruct (de_setFails env); [intros [= <- <-]; left; eauto|]. destruct (fn c) as [c1 r1]. intros H. right.
  destruct (de_doneAfter env); [injection H as <- <-; eauto|]. destruct r1; [|injection H as <- <-; eauto].
  destruct (de_resetFails env); injection H as <- <-; eauto.
Qed.

Lemma wrote_weaken {A B} c c' (r : result socks_error A) (e : socks_error) w :
  wrote c c' r w -> wrote c c' (@Err socks_error B e) w.
Proof. destruct r; [intros H; exists (length w); by rewrite firstn_all|done]. Qed.

(** ** Properties *)

(** C40: The CONNECT handshake takes and gives exactly what the protocol says.
    Whatever the proxy answers and however the connection breaks, what is written is
    the beginning of the greeting, the credentials and the request; the credentials
    are there only if they are configured and the proxy chose that method.  On
    success everything was written, and what was read is the method, the answer to
    the credentials if they were sent, and one successful reply: the next byte read
    is the first one of the target. *)
Theorem socks5_handshake_exact env cfg command target c c' r
    (H : socks5Handshake env cfg command target c = (c', r)) :
  wrote c c' r (greeting cfg ++ auth_request cfg (cn_in c) ++ request_bytes command target) /\
  (r = Ok tt -> exists method reply addr,
     cn_in c = [socks5Version; method] ++ auth_reply cfg (cn_in c) ++ reply ++ cn_in c' /\
     socks5ReadReply (reply ++ cn_in c') = Ok (socks5StatusSuccess, addr, cn_in c')).
Proof.
  unfold socks5Handshake in H. apply deadline_result in H as [[-> [e ->]]|(r0 & H & Hr)].
  { split; [|done]. exists O. by rewrite app_nil_r. }
  assert (H' : exists r1, (let* _ := socks5Negotiate cfg in request command target) c = (c', r1) /\
    match r1 with Ok _ => r0 = Ok tt | Err e => r0 = Err e end).
  { unfold sbind in *. destruct (socks5Negotiate cfg c) as [c1 [a|e]]; [|injection H as <- <-; eexists; by split].
    destruct (request command target c1) as [c2 [b|e]]; injection H as <- <-; eexists; (split; [done|done]). }
  destruct H' as (r1 & H1 & Hr1). apply negotiated_request in H1 as [Hw Hok]. destruct r1 as [addr|e].
  - subst r0. destruct Hr as [->|[e ->]].
    + split; [exact Hw|]. intros _. destruct (Hok addr eq_refl) as (m & reply & ? & ?). by exists m, reply, addr.
    + split; [by eapply wrote_weaken|done].
  - subst r0. assert (Hre : exists e', r = Err e') by (destruct Hr as [->|[e' ->]]; eauto). destruct Hre as [e' ->].
    split; [by eapply wrote_weaken|done].
Qed.

(** A proxy that wants a password, accepts it, and connects to the target, which
    then sends two bytes. *)
Definition sample_config : socks5ProxyConfig := MkSocksConfig "proxy:1080" "user" "pw" true.
Definition sample_target : socks5Address := MkSocksAddr "example.com" 443.
Definition sample_env : deadline_env := MkDeadlineEnv false false false false.
Definition sample_conn : sconn :=
  MkConn [x05; x02; x01; x00; x05; x00; x00; x01; x0a; x00; x00; x01; x00; x50; x68; x69] (Sink [] None).
Definition sample_after := fst (socks5Handshake sample_env sample_config socks5CmdConnect sample_target sample_conn).

Lemma socks5_handshake_exact_witness :
  cn_in sample_after = s2b "hi" /\
  delivered (cn_out sample_after) =
    [x05; x02; x00; x02] ++ [x01; x04] ++ s2b "user" ++ [x02] ++ s2b "pw" ++ [x05; x01; x00; x03; x0b] ++ s2b "example.com" ++ [x01; xbb].
Proof.
  split; [vm_compute; reflexivity|].
  destruct (socks5_handshake_exact sample_env sample_config socks5CmdConnect sample_target sample_conn sample_after (Ok tt)) as [H _].
  - vm_compute. reflexivity.
  - rewrite H. vm_compute. reflexivity.
Defined.

(** Datagrams survive the association.  What [WriteTo] sends for a target is
    decoded to the same payload, port and host (an IP address in its printed form);
    and [ReadFrom] delivers, in order, exactly the datagrams that come from the relay,
    are well formed and name the target's port, each cut to the reader's buffer; the
    others are skipped. *)
Theorem socks5_datagrams :
  (forall target payload packet, socks5BuildUDPDatagram target payload = Ok packet ->
     socks5DecodeUDPDatagram packet =
       Ok (payload, MkSocksAddr (canonical_host (sa_host target)) (u16 (sa_port target)))) /\
  (forall n c, match ReadFrom n c with
     | (c', Some (data, from)) => exists skipped x payload,
         su_queue c = skipped ++ x :: su_queue c' /\ Forall (fun y => relevant (su_relay c) (su_target c) y = None) skipped /\
         relevant (su_relay c) (su_target c) x = Some payload /\ data = take n payload /\ from = target_addr c
     | (c', None) => su_queue c' = [] /\ Forall (fun y => relevant (su_relay c) (su_target c) y = None) (su_queue c)
     end).
Proof.
  split; [apply datagram_decode|]. intros n c. unfold ReadFrom. generalize (su_queue c). intros q.
  assert (Hq : match read_from (su_relay c) (su_target c) n q with
    | (q', Some data) => exists skipped x payload, q = skipped ++ x :: q' /\
        Forall (fun y => relevant (su_relay c) (su_target c) y = None) skipped /\
        relevant (su_relay c) (su_target c) x = Some payload /\ data = take n payload
    | (q', None) => q' = [] /\ Forall (fun y => relevant (su_relay c) (su_target c) y = None) q
    end).
  { induction q as [|x q IH]; cbn [read_from]; [done|]. destruct (relevant _ _ x) as [payload|] eqn:E.
    - exists [], x, payload. by split_and!; [|constructor| |].
    - destruct (read_from _ _ n q) as [q' [data|]].
      + destruct IH as (sk & y & p & -> & Hf & ? & ?). exists (x :: sk), y, p. split_and!; [done|by constructor|done|done].
      + destruct IH as [-> Hf]. split; [done|by constructor]. }
  destruct (read_from _ _ n q) as [q' [data|]]; cbn [fmap option_fmap option_map su_queue].
  - destruct Hq as (sk & x & p & -> & ? & ? & ?). by exists sk, x, p.
  - exact Hq.
Qed.

(** A SOCKS5 dial leaves nothing open when it fails.  On every path of
    [dialSOCKS5] and of [newSOCKS5UDPConn], sockets that were opened are closed when
    an error is returned and open when it succeeds; an association has a valid
    target port; and [Close] closes both sockets of an association exactly once. *)
Theorem socks5_dials_release env raw username password target dialed :
  (let '(conn, closed, r) := dialSOCKS5 env raw username password target dialed in
   match r with
   | Ok _ => is_Some conn /\ closed = false
   | Err _ => conn = None \/ closed = true
   end) /\
  (forall resolve remote listened,
     let '((control, udp), r) := newSOCKS5UDPConn env resolve remote raw target username password dialed listened in
     match r with
     | Ok a => control = Some false /\ udp = Some false /\ 1 <= sa_port (su_target a) <= 65535 /\
               su_udpCloses (socks5_Close (socks5_Close a)) = 1%nat /\ su_controlCloses (socks5_Close (socks5_Close a)) = 1%nat
     | Err _ => control <> Some false /\ udp <> Some false
     end).
Proof.
  assert (Hport : forall a, parseSOCKS5TargetAddress target = Ok a -> 1 <= sa_port a <= 65535).
  { unfold parseSOCKS5TargetAddress. intros a. destruct (SplitHostPort target) as [[h p]|]; [|done].
    destruct (Atoi p) as [port|]; [|done]. destruct ((port <? 1) || (port >? 65535)) eqn:Hb; [done|]. intros [= <-]. cbn. lia. }
  unfold dialSOCKS5, newSOCKS5UDPConn. destruct (socks5ProxyConfigFromRaw raw username password) as [cfg|]; [|by split; [left|]].
  destruct dialed as [conn|]; [|by split; [left|]]. destruct (parseSOCKS5TargetAddress target) as [a|]; [|by split; [right|]].
  split.
  - destruct (socks5Handshake _ _ _ _ _) as [c' [|]]; [by split|by right].
  - intros resolve remote listened. destruct (withContextConnDeadline _ _ _) as [c' [relayAddr|]]; [|done].
    destruct listened; [|done]. cbn [negb]. destruct (socks5RelayUDPAddr _ _ _) as [relay|]; [|done].
    split_and!; try done; by apply Hport.
Qed.
