(* ===== verification/TerminalSafe.v ===== *)
(** * TerminalSafe: text from elsewhere on a terminal ([cmd/rstream/cmd/terminal_sanitize.go])

    Names, labels and messages that come from the engine or from other clients are
    printed through [terminalSafe], which takes escape sequences and control characters
    out of them.  What the code uses of [unicode/utf8], [strings.Map], [strings.Fields]
    and [unicode.IsSpace] is written out: bytes that are not UTF-8 decode, one at a time,
    to the replacement character. *)

From S2P Require Import Prelude GoStrings.

(** ** UTF-8 *)

Definition RuneError : Z := 65533.

Definition cont (b : byte) : bool := byte_in 128 191 b.

(** [utf8.DecodeRune]: the first rune of a string and its width. *)
Definition DecodeRune (s : list byte) : Z * nat :=
  match s with
  | [] => (RuneError, 0%nat)
  | b0 :: r =>
      if b2z b0 <? 128 then (b2z b0, 1%nat)
      else if byte_in 194 223 b0 then
        match r with
        | b1 :: _ => if cont b1 then (Z.lor (Z.shiftl (Z.land (b2z b0) 31) 6) (Z.land (b2z b1) 63), 2%nat) else (RuneError, 1%nat)
        | [] => (RuneError, 1%nat)
        end
      else if byte_in 224 239 b0 then
        match r with
        | b1 :: b2 :: _ =>
            if byte_in (if b2z b0 =? 224 then 160 else 128) (if b2z b0 =? 237 then 159 else 191) b1 && cont b2 then
              (Z.lor (Z.lor (Z.shiftl (Z.land (b2z b0) 15) 12) (Z.shiftl (Z.land (b2z b1) 63) 6)) (Z.land (b2z b2) 63), 3%nat)
            else (RuneError, 1%nat)
        | _ => (RuneError, 1%nat)
        end
      else if byte_in 240 244 b0 then
        match r with
        | b1 :: b2 :: b3 :: _ =>
            if byte_in (if b2z b0 =? 240 then 144 else 128) (if b2z b0 =? 244 then 143 else 191) b1 && cont b2 && cont b3 then
              (Z.lor (Z.lor (Z.lor (Z.shiftl (Z.land (b2z b0) 7) 18) (Z.shiftl (Z.land (b2z b1) 63) 12)) (Z.shiftl (Z.land (b2z b2) 63) 6))
                 (Z.land (b2z b3) 63), 4%nat)
            else (RuneError, 1%nat)
        | _ => (RuneError, 1%nat)
        end
      else (RuneError, 1%nat)
  end.

(** [Builder.WriteRune]: the encoding of a rune; one that has none is the replacement character. *)
Definition EncodeRune (r : Z) : list byte :=
  let three r := [z2b (Z.lor 224 (Z.shiftr r 12)); z2b (Z.lor 128 (Z.land (Z.shiftr r 6) 63)); z2b (Z.lor 128 (Z.land r 63))] in
  if (0 <=? r) && (r <=? 127) then [z2b r]
  else if (0 <=? r) && (r <=? 2047) then [z2b (Z.lor 192 (Z.shiftr r 6)); z2b (Z.lor 128 (Z.land r 63))]
  else if (r <? 0) || (1114111 <? r) || ((55296 <=? r) && (r <=? 57343)) then three RuneError
  else if r <=? 65535 then three r
  else [z2b (Z.lor 240 (Z.shiftr r 18)); z2b (Z.lor 128 (Z.land (Z.shiftr r 12) 63)); z2b (Z.lor 128 (Z.land (Z.shiftr r 6) 63)); z2b (Z.lor 128 (Z.land r 63))].

(** [for _, r := range s]: the runes of a string with their bytes; every round consumes a byte at least. *)
Fixpoint runes_fuel (fuel : nat) (s : list byte) : list (Z * list byte) :=
  match fuel, s with
  | S fuel, _ :: _ => let '(r, n) := DecodeRune s in (r, take n s) :: runes_fuel fuel (drop n s)
  | _, _ => []
  end.

Definition runes (s : list byte) : list (Z * list byte) := runes_fuel (length s) s.

(** [strings.Map]: a negative result drops the rune. *)
Definition Map (mapping : Z -> Z) (s : list byte) : list byte :=
  concat ((fun x => let r := mapping x.1 in if r <? 0 then [] else EncodeRune r) <$> runes s).

Definition IsSpace (r : Z) : bool :=
  (9 <=? r) && (r <=? 13) || (r =? 32) || (r =? 133) || (r =? 160) || (r =? 5760) || (8192 <=? r) && (r <=? 8202)
  || (r =? 8232) || (r =? 8233) || (r =? 8239) || (r =? 8287) || (r =? 12288).

(** [strings.Fields]: the runs of runes between white space; [cur] is the current one. *)
Fixpoint fields_loop (cur : list byte) (l : list (Z * list byte)) : list (list byte) :=
  match l with
  | [] => if bool_decide (cur = []) then [] else [cur]
  | (r, b) :: l =>
      if IsSpace r then if bool_decide (cur = []) then fields_loop [] l else cur :: fields_loop [] l
      else fields_loop (cur ++ b) l
  end.

Definition Fields (s : list byte) : list (list byte) := fields_loop [] (runes s).

(** ** The code *)

(** Skips the parameters of a control sequence up to its final byte. *)
Fixpoint skip_csi (s : list byte) : list byte :=
  match s with
  | [] => []
  | b :: s => if byte_in 64 126 b then s else skip_csi s
  end.

(** Skips an operating system command up to BEL or ESC and a backslash. *)
Fixpoint skip_osc (s : list byte) : list byte :=
  match s with
  | [] => []
  | b :: s =>
      if byte_eqb b x07 then s
      else if byte_eqb b x1b then match s with c :: rest => if byte_eqb c x5c then rest else skip_osc s | [] => [] end
      else skip_osc s
  end.

(** The loop of [stripANSIEscapes]; every round consumes a byte at least. *)
Fixpoint strip_loop (fuel : nat) (s : list byte) : list byte :=
  match fuel, s with
  | S fuel, b :: s =>
      if negb (byte_eqb b x1b) then b :: strip_loop fuel s
      else match s with
           | [] => []
           | c :: s => if byte_eqb c x5b then strip_loop fuel (skip_csi s)
                       else if byte_eqb c x5d then strip_loop fuel (skip_osc s)
                       else strip_loop fuel s
           end
  | _, _ => []
  end.

Definition stripANSIEscapes (value : list byte) : list byte := strip_loop (length value) value.

Definition safe_rune (r : Z) : Z :=
  if (r =? 9) || (r =? 10) || (r =? 13) then 32
  else if (r <? 32) || (r =? 127) || (128 <=? r) && (r <=? 159) then -1
  else r.

Definition terminalSafe (value : string) : string :=
  let value := stripANSIEscapes (s2b value) in
  let value := Map safe_rune value in
  b2s (join_bytes [x20] (Fields value)).

Definition terminalSafeDefault (value : string) : string :=
  let value := terminalSafe value in
  if bool_decide (TrimSpace value = "") then "-" else value.

Example strip_example : terminalSafe (b2s (s2b "a" ++ [x1b; x5b] ++ s2b "31mb" ++ [x1b; x5d] ++ s2b "0;title" ++ [x07] ++ s2b " c" ++ [x9b; x0a; x0a] ++ s2b "d")) = b2s (s2b "ab c" ++ [xef; xbf; xbd] ++ s2b " d").
Proof. vm_compute. reflexivity. Qed.

(** ** Encoding and decoding *)

Definition valid_rune (r : Z) : Prop := 0 <= r < 55296 \/ 57344 <= r <= 1114111.

Lemma lor_small k a b : 0 <= k -> 0 <= b < 2 ^ k -> Z.lor (a * 2 ^ k) b = a * 2 ^ k + b.
Proof.
  intros Hk Hb. assert (H : Z.land (a * 2 ^ k) b = 0).
  { apply Z.bits_inj'. intros i Hi. rewrite Z.land_spec, Z.bits_0. destruct (Z.lt_ge_cases i k).
    - by rewrite Z.mul_pow2_bits_low by lia.
    - rewrite <-(Z.mod_small b (2 ^ k)) by lia. by rewrite Z.mod_pow2_bits_high, andb_false_r by lia. }
  by rewrite <-Z.lxor_lor, <-Z.add_nocarry_lxor.
Qed.

Lemma lor_shift k a b : 0 <= k -> 0 <= b < 2 ^ k -> Z.lor (Z.shiftl a k) b = a * 2 ^ k + b.
Proof. intros Hk Hb. rewrite Z.shiftl_mul_pow2 by done. by apply lor_small. Qed.

Lemma land_63 a : Z.land a 63 = a mod 64.
Proof. apply (Z.land_ones a 6). lia. Qed.

Lemma land_31 a : Z.land a 31 = a mod 32.
Proof. apply (Z.land_ones a 5). lia. Qed.

Lemma land_15 a : Z.land a 15 = a mod 16.
Proof. apply (Z.land_ones a 4). lia. Qed.

Lemma land_7 a : Z.land a 7 = a mod 8.
Proof. apply (Z.land_ones a 3). lia. Qed.

Lemma mod64 a : 0 <= a mod 64 < 64.
Proof. apply Z.mod_pos_bound. lia. Qed.

Lemma tail_byte a : b2z (z2b (Z.lor 128 (Z.land a 63))) = 128 + a mod 64.
Proof. rewrite b2z_z2b, land_63, (lor_small 7 1) by (pose proof (mod64 a); lia). pose proof (mod64 a). apply Z.mod_small. lia. Qed.

Lemma head_byte2 a : 0 <= a < 32 -> b2z (z2b (Z.lor 192 a)) = 192 + a.
Proof. intros H. rewrite b2z_z2b, (lor_small 6 3) by lia. apply Z.mod_small. lia. Qed.

Lemma head_byte3 a : 0 <= a < 16 -> b2z (z2b (Z.lor 224 a)) = 224 + a.
Proof. intros H. rewrite b2z_z2b, (lor_small 5 7) by lia. apply Z.mod_small. lia. Qed.

Lemma head_byte4 a : 0 <= a < 8 -> b2z (z2b (Z.lor 240 a)) = 240 + a.
Proof. intros H. rewrite b2z_z2b, (lor_small 4 15) by lia. apply Z.mod_small. lia. Qed.

(** The value of a sequence of two, three or four bytes. *)
Lemma two_bytes b0 b1 : Z.lor (Z.shiftl (Z.land b0 31) 6) (Z.land b1 63) = (b0 mod 32) * 64 + b1 mod 64.
Proof. rewrite land_31, land_63, lor_shift by (pose proof (mod64 b1); lia). done. Qed.

Lemma three_bytes b0 b1 b2 :
  Z.lor (Z.lor (Z.shiftl (Z.land b0 15) 12) (Z.shiftl (Z.land b1 63) 6)) (Z.land b2 63) = (b0 mod 16) * 4096 + (b1 mod 64) * 64 + b2 mod 64.
Proof.
  rewrite land_15, !land_63 by lia. pose proof (mod64 b1). pose proof (mod64 b2).
  rewrite <-Z.lor_assoc, (lor_shift 6), lor_shift by lia. lia.
Qed.

Lemma four_bytes b0 b1 b2 b3 :
  Z.lor (Z.lor (Z.lor (Z.shiftl (Z.land b0 7) 18) (Z.shiftl (Z.land b1 63) 12)) (Z.shiftl (Z.land b2 63) 6)) (Z.land b3 63) =
  (b0 mod 8) * 262144 + (b1 mod 64) * 4096 + (b2 mod 64) * 64 + b3 mod 64.
Proof.
  rewrite land_7, !land_63 by lia. pose proof (mod64 b1). pose proof (mod64 b2). pose proof (mod64 b3).
  rewrite <-!Z.lor_assoc, (lor_shift 6), (lor_shift 12), lor_shift by lia. lia.
Qed.

Ltac arith := Z.to_euclidean_division_equations; lia.

Lemma byte_in_other lo hi b : b2z b < lo \/ hi < b2z b -> byte_in lo hi b = false.
Proof. intros H. apply not_true_is_false. rewrite byte_in_spec. lia. Qed.

Lemma decode1 b rest : b2z b < 128 -> DecodeRune (b :: rest) = (b2z b, 1%nat).
Proof. intros H. cbn. by destruct (Z.ltb_spec (b2z b) 128); [|lia]. Qed.

Lemma decode2 b0 b1 rest : 194 <= b2z b0 <= 223 -> 128 <= b2z b1 <= 191 -> DecodeRune (b0 :: b1 :: rest) = ((b2z b0 - 192) * 64 + (b2z b1 - 128), 2%nat).
Proof.
  intros H0 H1. cbn [DecodeRune]. destruct (Z.ltb_spec (b2z b0) 128); [lia|]. unfold cont.
  rewrite (proj2 (byte_in_spec 194 223 b0)), (proj2 (byte_in_spec 128 191 b1)), two_bytes by done. f_equal. arith.
Qed.

Lemma decode3 b0 b1 b2 rest : 224 <= b2z b0 <= 239 -> 128 <= b2z b1 <= 191 -> 128 <= b2z b2 <= 191 -> (b2z b0 = 224 -> 160 <= b2z b1) -> (b2z b0 = 237 -> b2z b1 <= 159) ->
  DecodeRune (b0 :: b1 :: b2 :: rest) = ((b2z b0 - 224) * 4096 + (b2z b1 - 128) * 64 + (b2z b2 - 128), 3%nat).
Proof.
  intros H0 H1 H2 H3 H4. cbn [DecodeRune]. destruct (Z.ltb_spec (b2z b0) 128); [lia|]. unfold cont.
  rewrite (byte_in_other 194), (proj2 (byte_in_spec 224 239 b0)), (proj2 (byte_in_spec 128 191 b2)), three_bytes by (done || lia).
  rewrite (proj2 (byte_in_spec (if _ : bool then _ else _) _ b1)) by (destruct (Z.eqb_spec (b2z b0) 224), (Z.eqb_spec (b2z b0) 237); lia).
  cbn [andb]. f_equal. arith.
Qed.

Lemma decode4 b0 b1 b2 b3 rest : 240 <= b2z b0 <= 244 -> 128 <= b2z b1 <= 191 -> 128 <= b2z b2 <= 191 -> 128 <= b2z b3 <= 191 ->
  (b2z b0 = 240 -> 144 <= b2z b1) -> (b2z b0 = 244 -> b2z b1 <= 143) ->
  DecodeRune (b0 :: b1 :: b2 :: b3 :: rest) = ((b2z b0 - 240) * 262144 + (b2z b1 - 128) * 4096 + (b2z b2 - 128) * 64 + (b2z b3 - 128), 4%nat).
Proof.
  intros H0 H1 H2 H3 H4 H5. cbn [DecodeRune]. destruct (Z.ltb_spec (b2z b0) 128); [lia|]. unfold cont.
  rewrite (byte_in_other 194), (byte_in_other 224), (proj2 (byte_in_spec 240 244 b0)), (proj2 (byte_in_spec 128 191 b2)), (proj2 (byte_in_spec 128 191 b3)), four_bytes by (done || lia).
  rewrite (proj2 (byte_in_spec (if _ : bool then _ else _) _ b1)) by (destruct (Z.eqb_spec (b2z b0) 240), (Z.eqb_spec (b2z b0) 244); lia).
  cbn [andb]. f_equal. arith.
Qed.

(** The bytes of a rune that has an encoding. *)
Lemma decode_encode r rest : valid_rune r -> DecodeRune (EncodeRune r ++ rest) = (r, length (EncodeRune r)).
Proof.
  intros Hv. unfold EncodeRune. cbv zeta. destruct (Z.leb_spec 0 r); [|destruct Hv; lia]. cbn [andb]. rewrite !Z.shiftr_div_pow2 by lia.
  destruct (Z.leb_spec r 127); [cbn [app length]; rewrite decode1; rewrite b2z_z2b, Z.mod_small by lia; [done|lia]|].
  destruct (Z.leb_spec r 2047).
  { cbn [app length]. rewrite decode2; rewrite ?tail_byte, ?head_byte2 by arith; [f_equal; arith|arith..]. }
  destruct (Z.ltb_spec r 0); [lia|]. destruct (Z.ltb_spec 1114111 r); [destruct Hv; lia|]. cbn [orb].
  destruct ((55296 <=? r) && (r <=? 57343)) eqn:Hs; [exfalso; apply andb_true_iff in Hs as [?%Z.leb_le ?%Z.leb_le]; destruct Hv; lia|].
  destruct (Z.leb_spec r 65535); cbn [app length].
  - rewrite decode3; rewrite ?tail_byte, ?head_byte3 by arith; [f_equal; arith|arith..|intros; arith|intros]. destruct Hv; arith.
  - rewrite decode4; rewrite ?tail_byte, ?head_byte4 by arith; [f_equal; arith|arith..|intros; arith|intros; arith].
Qed.

Lemma decode_valid b s : valid_rune (DecodeRune (b :: s)).1 /\ (0 < (DecodeRune (b :: s)).2)%nat.
Proof.
  assert (He : valid_rune RuneError) by (right; unfold RuneError; lia). pose proof (b2z_range b).
  destruct (Z.ltb_spec (b2z b) 128) as [Hb|Hb]; [rewrite decode1 by done; split; [left; cbn; lia|cbn; lia]|].
  destruct (byte_in 194 223 b) eqn:E2.
  { destruct s as [|b1 s]; cbn [DecodeRune]; rewrite (proj2 (Z.ltb_ge _ _) Hb), E2; [split; [done|cbn; lia]|]. destruct (cont b1) eqn:E; [|split; [done|cbn; lia]].
    apply byte_in_spec in E, E2. rewrite two_bytes. split; [left; cbn; arith|cbn; lia]. }
  destruct (byte_in 224 239 b) eqn:E3.
  { destruct s as [|b1 [|b2 s]]; cbn [DecodeRune]; rewrite (proj2 (Z.ltb_ge _ _) Hb), E2, E3; try (split; [done|cbn; lia]). destruct (_ && cont b2) eqn:E; [|split; [done|cbn; lia]].
    apply andb_true_iff in E as [E1 E4]. apply byte_in_spec in E1, E3, E4. rewrite three_bytes. split; [|cbn; lia]. unfold valid_rune. cbn.
    destruct (Z.eqb_spec (b2z b) 224), (Z.eqb_spec (b2z b) 237); arith. }
  destruct (byte_in 240 244 b) eqn:E4; [|cbn [DecodeRune]; rewrite (proj2 (Z.ltb_ge _ _) Hb), E2, E3, E4; split; [done|cbn; lia]].
  destruct s as [|b1 [|b2 [|b3 s]]]; cbn [DecodeRune]; rewrite (proj2 (Z.ltb_ge _ _) Hb), E2, E3, E4; try (split; [done|cbn; lia]).
  destruct (_ && cont b3) eqn:E; [|split; [done|cbn; lia]]. apply andb_true_iff in E as [[E5 E6]%andb_true_iff E7]. apply byte_in_spec in E4, E5, E6, E7. rewrite four_bytes.
  split; [|cbn; lia]. unfold valid_rune. cbn. destruct (Z.eqb_spec (b2z b) 240), (Z.eqb_spec (b2z b) 244); arith.
Qed.

(** ** Strings of encoded runes *)

Definition enc (rs : list Z) : list byte := concat (EncodeRune <$> rs).

Lemma encode_nonempty r : EncodeRune r <> [].
Proof. unfold EncodeRune. cbv zeta. by repeat case_match. Qed.

Lemma enc_nil rs : enc rs = [] <-> rs = [].
Proof. split; [|by intros ->]. destruct rs as [|r rs]; [done|]. unfold enc. cbn. intros [H _]%app_nil. by apply encode_nonempty in H. Qed.

Lemma enc_app a b : enc (a ++ b) = enc a ++ enc b.
Proof. unfold enc. by rewrite fmap_app, concat_app. Qed.

Lemma runes_enc rs : Forall valid_rune rs -> runes (enc rs) = (fun r => (r, EncodeRune r)) <$> rs.
Proof.
  intros Hv. unfold runes. assert (H : forall n, (length (enc rs) <= n)%nat -> runes_fuel n (enc rs) = (fun r => (r, EncodeRune r)) <$> rs); [|by apply H].
  induction Hv as [|r rs Hr _ IH]; intros n Hn; [by destruct n|]. unfold enc in Hn |- *. cbn [fmap list_fmap concat] in Hn |- *. fold (enc rs) in Hn |- *.
  pose proof (encode_nonempty r) as Hne. pose proof (decode_encode r (enc rs) Hr) as Hd. destruct (EncodeRune r) as [|b e] eqn:E; [done|].
  destruct n as [|n]; [cbn in Hn; lia|]. cbn [app] in Hd, Hn |- *. cbn [runes_fuel]. rewrite Hd. cbn [length take drop]. rewrite take_app_length, drop_app_length. f_equal.
  apply IH. cbn in Hn. rewrite length_app in Hn. lia.
Qed.

(** The runes of any string are valid, and their bytes are the string. *)
Lemma runes_all s : Forall (fun x => valid_rune x.1) (runes s) /\ concat (snd <$> runes s) = s.
Proof.
  unfold runes. assert (H : forall n s, (length s <= n)%nat -> Forall (fun x => valid_rune x.1) (runes_fuel n s) /\ concat (snd <$> runes_fuel n s) = s); [|by apply H].
  clear s. induction n as [|n IH]; intros s Hn; (destruct s as [|b s]; [by split|]); [cbn in Hn; lia|]. cbn [runes_fuel].
  destruct (decode_valid b s) as [Hv Hp]. destruct (DecodeRune (b :: s)) as [r k]. cbn in Hv, Hp.
  destruct (IH (drop k (b :: s))) as [H1 H2]; [rewrite length_drop; cbn in *; lia|]. split; [by constructor|].
  rewrite fmap_cons. cbn [concat snd]. rewrite H2. apply take_drop.
Qed.

Definition mapped (f : Z -> Z) (s : list byte) : list Z := filter (fun r => 0 <= r) (f <$> (runes s).*1).

Lemma Map_enc f s : Map f s = enc (mapped f s).
Proof.
  unfold Map, enc, mapped. induction (runes s) as [|[r b] l IH]; [done|]. rewrite !fmap_cons, filter_cons. cbn [concat fst].
  destruct (Z.ltb_spec (f r) 0); [rewrite decide_False by lia|rewrite decide_True by lia; rewrite fmap_cons; cbn [concat]]; by rewrite IH.
Qed.

(** Fields and their join, on runes. *)
Fixpoint words_loop (cur : list Z) (l : list Z) : list (list Z) :=
  match l with
  | [] => if bool_decide (cur = []) then [] else [cur]
  | r :: l => if IsSpace r then if bool_decide (cur = []) then words_loop [] l else cur :: words_loop [] l else words_loop (cur ++ [r]) l
  end.

Fixpoint join_words (l : list (list Z)) : list Z :=
  match l with
  | [] => []
  | [w] => w
  | w :: l => w ++ [32] ++ join_words l
  end.

Lemma fields_words l cur : fields_loop (enc cur) ((fun r => (r, EncodeRune r)) <$> l) = enc <$> words_loop cur l.
Proof.
  revert cur. induction l as [|r l IH]; intros cur; rewrite ?fmap_cons; cbn [fields_loop words_loop].
  - cbn. rewrite (bool_decide_ext _ _ (enc_nil cur)). by case_bool_decide.
  - destruct (IsSpace r).
    + rewrite (bool_decide_ext _ _ (enc_nil cur)). case_bool_decide; [by rewrite <-IH|]. rewrite fmap_cons. f_equal. by rewrite <-IH.
    + rewrite <-IH, enc_app. unfold enc at 2. cbn. by rewrite app_nil_r.
Qed.

Lemma join_enc ws : join_bytes [x20] (enc <$> ws) = enc (join_words ws).
Proof.
  induction ws as [|w [|w' ws] IH]; [done|done|]. change (join_bytes [x20] (enc <$> w :: w' :: ws)) with (enc w ++ [x20] ++ join_bytes [x20] (enc <$> w' :: ws)).
  rewrite IH. change (join_words (w :: w' :: ws)) with (w ++ [32] ++ join_words (w' :: ws)). by rewrite !enc_app.
Qed.

(** ** Safe text *)

(** A rune a terminal shows: it is not a control character. *)
Definition printable (r : Z) : Prop := valid_rune r /\ 32 <= r /\ ~ 127 <= r <= 159.

Definition word (w : list Z) : Prop := w <> [] /\ Forall (fun r => printable r /\ IsSpace r = false) w.

(** UTF-8 text of printable words with one space between them. *)
Definition safe_text (value : string) : Prop := exists ws, Forall word ws /\ s2b value = enc (join_words ws).

Lemma words_ok l cur : Forall printable l -> Forall (fun r => printable r /\ IsSpace r = false) cur -> Forall word (words_loop cur l).
Proof.
  intros Hl. revert cur. induction Hl as [|r l Hr _ IH]; intros cur Hc; cbn [words_loop].
  - case_bool_decide; constructor; [by split|constructor].
  - destruct (IsSpace r) eqn:E.
    + case_bool_decide; [by apply IH|]. constructor; [by split|by apply IH].
    + apply IH, Forall_app. split; [done|by apply Forall_singleton].
Qed.

Lemma words_app w : Forall (fun r => IsSpace r = false) w -> forall l cur, words_loop cur (w ++ l) = words_loop (cur ++ w) l.
Proof.
  induction 1 as [|r w Hr _ IH]; intros l cur; cbn [app]; [by rewrite app_nil_r|]. cbn [words_loop]. rewrite Hr, IH. by rewrite <-app_assoc.
Qed.

Lemma words_join ws : Forall word ws -> words_loop [] (join_words ws) = ws.
Proof.
  induction 1 as [|w ws [Hne Hw] _ IH]; [done|]. assert (Hs : Forall (fun r => IsSpace r = false) w) by (eapply Forall_impl; [exact Hw|naive_solver]).
  destruct ws as [|w' ws].
  - cbn [join_words]. rewrite <-(app_nil_r w) at 1. rewrite words_app by done. cbn. by rewrite bool_decide_false.
  - change (join_words (w :: w' :: ws)) with (w ++ [32] ++ join_words (w' :: ws)). rewrite words_app by done. cbn [app words_loop]. change (IsSpace 32) with true. cbv iota.
    by rewrite bool_decide_false, IH.
Qed.

Lemma join_printable ws : Forall word ws -> Forall printable (join_words ws).
Proof.
  assert (Hw : forall w, word w -> Forall printable w) by (intros w [_ H]; eapply Forall_impl; [exact H|naive_solver]).
  induction 1 as [|w [|w' ws] H1 H2 IH]; [constructor|by apply Hw|]. change (join_words (w :: w' :: ws)) with (w ++ [32] ++ join_words (w' :: ws)).
  apply Forall_app. split; [by apply Hw|]. constructor; [|done]. split; [left|]; lia.
Qed.

Lemma safe_rune_spec r : valid_rune r -> safe_rune r = -1 \/ printable (safe_rune r).
Proof.
  intros Hv. unfold safe_rune. destruct ((r =? 9) || (r =? 10) || (r =? 13)); [right; split; [left|]; lia|].
  destruct ((r <? 32) || (r =? 127) || (128 <=? r) && (r <=? 159)) eqn:E; [by left|]. right. split; [done|]. lia.
Qed.

Lemma safe_rune_id r : printable r -> safe_rune r = r.
Proof. intros (_ & H1 & H2). unfold safe_rune. destruct ((r =? 9) || (r =? 10) || (r =? 13)) eqn:E1; [lia|]. by destruct ((r <? 32) || (r =? 127) || (128 <=? r) && (r <=? 159)) eqn:E2; [lia|]. Qed.

Lemma mapped_printable s : Forall printable (mapped safe_rune s).
Proof.
  unfold mapped. apply Forall_forall. intros r [Hr Hin]%list_elem_of_filter. apply list_elem_of_fmap in Hin as (x & -> & [[y b] [-> Hy]]%list_elem_of_fmap).
  destruct (runes_all s) as [Hv _]. rewrite Forall_forall in Hv. destruct (safe_rune_spec y (Hv _ Hy)) as [E|?]; [|done]. cbn in Hr. lia.
Qed.

Lemma mapped_enc rs : Forall printable rs -> mapped safe_rune (enc rs) = rs.
Proof.
  intros H. unfold mapped. rewrite runes_enc by (eapply Forall_impl; [exact H|by intros ? []]). rewrite <-!list_fmap_compose.
  induction H as [|r rs Hr _ IH]; [done|]. rewrite fmap_cons, filter_cons. cbn. rewrite safe_rune_id by done. destruct Hr as (_ & ? & _). rewrite decide_True by lia. f_equal. exact IH.
Qed.

Lemma encode_bytes r : printable r -> Forall (fun b => 32 <= b2z b /\ b2z b <> 127) (EncodeRune r).
Proof.
  intros (Hv & Hr & Hn). unfold EncodeRune. cbv zeta. rewrite !Z.shiftr_div_pow2 by lia. destruct (Z.leb_spec 0 r); [|lia]. cbn [andb].
  destruct (Z.leb_spec r 127); [repeat constructor; rewrite b2z_z2b, Z.mod_small by lia; lia|].
  destruct (Z.leb_spec r 2047); [repeat constructor; rewrite ?tail_byte, ?head_byte2 by arith; arith|].
  destruct (_ || _); [repeat constructor; vm_compute; discriminate|]. destruct (Z.ltb_spec 1114111 r); [destruct Hv; lia|].
  destruct (Z.leb_spec r 65535); repeat constructor; rewrite ?tail_byte, ?head_byte3, ?head_byte4 by arith; arith.
Qed.

Lemma enc_bytes rs : Forall printable rs -> Forall (fun b => 32 <= b2z b /\ b2z b <> 127) (enc rs).
Proof. induction 1 as [|r rs Hr _ IH]; [constructor|]. unfold enc. cbn. apply Forall_app. split; [by apply encode_bytes|done]. Qed.

Lemma strip_none s : Forall (fun b => 32 <= b2z b /\ b2z b <> 127) s -> stripANSIEscapes s = s.
Proof.
  unfold stripANSIEscapes. induction 1 as [|b s [Hb _] _ IH]; [done|]. cbn [length strip_loop]. destruct (byte_eqb b x1b) eqn:E; [|cbn; by rewrite IH].
  apply byte_eqb_eq in E as ->. vm_compute in Hb. by destruct Hb.
Qed.

(** The loop has fuel enough: more changes nothing. *)
Lemma strip_fuel s : forall n, (length s <= n)%nat -> strip_loop n s = stripANSIEscapes s.
Proof.
  unfold stripANSIEscapes. remember (length s) as k eqn:Hk. assert (Hle : (length s <= k)%nat) by lia. clear Hk. revert s Hle.
  assert (Hcsi : forall s, (length (skip_csi s) <= length s)%nat) by (induction s as [|b s IH]; cbn; [lia|]; destruct (byte_in 64 126 b); lia).
  assert (Hosc : forall s, (length (skip_osc s) <= length s)%nat).
  { induction s as [|b s IH]; cbn; [lia|]. destruct (byte_eqb b x07); [lia|]. destruct (byte_eqb b x1b); [|lia]. destruct s as [|c s]; [cbn; lia|]. destruct (byte_eqb c x5c); cbn in *; lia. }
  induction k as [|k IH]; intros s Hle n Hn.
  { destruct s; [|cbn in Hle; lia]. by destruct n. }
  destruct n as [|n]; [lia|]. destruct s as [|b s]; [done|]. cbn [strip_loop]. cbn in Hle.
  destruct (negb (byte_eqb b x1b)); [f_equal; apply IH; lia|]. destruct s as [|c s]; [done|]. cbn in Hle. specialize (Hcsi s). specialize (Hosc s).
  destruct (byte_eqb c x5b); [apply IH; lia|]. destruct (byte_eqb c x5d); apply IH; lia.
Qed.

Lemma terminalSafe_words value : exists ws, Forall word ws /\ s2b (terminalSafe value) = enc (join_words ws).
Proof.
  unfold terminalSafe. rewrite s2b_b2s, Map_enc. set (rs := mapped safe_rune _). assert (Hp : Forall printable rs) by apply mapped_printable.
  unfold Fields. rewrite runes_enc by (eapply Forall_impl; [exact Hp|by intros ? []]). change (@nil byte) with (enc []). rewrite fields_words, join_enc.
  exists (words_loop [] rs). split; [by apply words_ok|done].
Qed.

Lemma default_safe value : safe_text (terminalSafe value) -> safe_text (terminalSafeDefault value) /\ terminalSafeDefault value <> "".
Proof.
  intros H. unfold terminalSafeDefault. cbv zeta. case_bool_decide as E; [|split; [done|]; by intros E'; rewrite E' in E].
  split; [|done]. exists [[45]]. split; [|reflexivity]. apply Forall_singleton. split; [done|]. apply Forall_singleton. split; [|reflexivity]. split; [left|]; lia.
Qed.

(** C26: text that is shown through [terminalSafe] cannot control the terminal: whatever the bytes, valid UTF-8 or not, the result is UTF-8 text of printable words separated by single spaces, without escape, control or C1 characters; text that already is of this form, and only that, is left as it is, so that sanitising twice changes nothing; with the default a field is never empty. *)
Theorem terminal_safe (value : string) :
  safe_text (terminalSafe value) /\ (forall r b, (r, b) ∈ runes (s2b (terminalSafe value)) -> printable r) /\
  Forall (fun b => 32 <= b2z b /\ b2z b <> 127) (s2b (terminalSafe value)) /\
  (terminalSafe value = value <-> safe_text value) /\ terminalSafe (terminalSafe value) = terminalSafe value /\
  safe_text (terminalSafeDefault value) /\ terminalSafeDefault value <> "".
Proof.
  assert (Hid : forall v, safe_text v -> terminalSafe v = v).
  { intros v (ws & Hw & Hv). pose proof (join_printable _ Hw) as Hp. unfold terminalSafe. rewrite Hv, (strip_none _ (enc_bytes _ Hp)), Map_enc, mapped_enc by done.
    unfold Fields. rewrite runes_enc by (eapply Forall_impl; [exact Hp|by intros ? []]). change (@nil byte) with (enc []). rewrite fields_words, join_enc, words_join by done.
    by rewrite <-Hv, b2s_s2b. }
  destruct (terminalSafe_words value) as (ws & Hw & Hv). pose proof (join_printable _ Hw) as Hp. assert (Hs : safe_text (terminalSafe value)) by (by exists ws).
  split; [done|]. split; [|split; [rewrite Hv; by apply enc_bytes|split; [split; [by intros <-|by apply Hid]|split; [by apply Hid|by apply default_safe]]]].
  intros r b Hin. rewrite Hv, runes_enc in Hin by (eapply Forall_impl; [exact Hp|by intros ? []]). apply list_elem_of_fmap in Hin as (x & [= -> _] & Hx).
  rewrite Forall_forall in Hp. by apply Hp.
Qed.
