(* ===== verification/MtlsExec.v ===== *)
(** * MtlsExec: client certificates whose key is held by another program
    ([internal/mtlsexec/provider.go], [process.go], [algorithms.go], [protocol.go])

    A [Provider] gets its certificate and its signatures from an executable: it asks for the
    identity once, checks that the certificate is the enrolled one, and verifies every
    signature before it is used in a handshake.  A semaphore bounds how many helpers run,
    another one lets a single caller load the identity.

    The hash functions, the verification of signatures, PEM and X.509 parsing, JSON and the
    syntax of durations are parameters; what a helper, the file system, the environment and
    contexts do are the answers of the steps.  Paths and permissions are those of Unix. *)

From S2P Require Import Prelude GoStrings.

(** ** Algorithms ([algorithms.go]) *)

(** [crypto.Hash]; zero is no hash. *)
Definition SHA256 : Z := 5.
Definition SHA384 : Z := 6.
Definition SHA512 : Z := 7.

Definition hash_size (h : Z) : Z := if h =? SHA256 then 32 else if h =? SHA384 then 48 else if h =? SHA512 then 64 else 0.

Record algorithm := MkAlgorithm { al_name : string; al_scheme : Z; al_hash : Z; al_key : string; al_bits : Z; al_pss : bool }.

Definition algorithms : list algorithm := [
  MkAlgorithm "ecdsa_secp256r1_sha256" 1027 SHA256 "ecdsa" 256 false;
  MkAlgorithm "ecdsa_secp384r1_sha384" 1283 SHA384 "ecdsa" 384 false;
  MkAlgorithm "ecdsa_secp521r1_sha512" 1539 SHA512 "ecdsa" 521 false;
  MkAlgorithm "rsa_pss_rsae_sha256" 2052 SHA256 "rsa" 0 true;
  MkAlgorithm "rsa_pss_rsae_sha384" 2053 SHA384 "rsa" 0 true;
  MkAlgorithm "rsa_pss_rsae_sha512" 2054 SHA512 "rsa" 0 true;
  MkAlgorithm "rsa_pkcs1_sha256" 1025 SHA256 "rsa" 0 false;
  MkAlgorithm "rsa_pkcs1_sha384" 1281 SHA384 "rsa" 0 false;
  MkAlgorithm "rsa_pkcs1_sha512" 1537 SHA512 "rsa" 0 false;
  MkAlgorithm "ed25519" 2055 0 "ed25519" 0 false].

(** A public key: its kind, its size (bits of the curve or the modulus, bytes of an Ed25519 key) and its value. *)
Inductive public_key (K : Type) :=
| EcdsaKey (bits : Z) (k : K)
| RsaKey (bits : Z) (k : K)
| Ed25519Key (bytes : Z) (k : K)
| OtherKey.
Arguments EcdsaKey {K}.
Arguments RsaKey {K}.
Arguments Ed25519Key {K}.
Arguments OtherKey {K}.

Definition supports {K} (a : algorithm) (public : public_key K) : bool :=
  match public with
  | EcdsaKey bits _ => bool_decide (al_key a = "ecdsa") && (bits =? al_bits a)
  | RsaKey bits _ => bool_decide (al_key a = "rsa") && (bits >=? 2048) && (bits <=? 8192)
  | Ed25519Key bytes _ => bool_decide (al_key a = "ed25519") && (bytes =? 32)
  | OtherKey => false
  end.

Definition findAlgorithm (name : string) : option algorithm := find (fun a => bool_decide (al_name a = name)) algorithms.

(** [crypto.SignerOpts]: a hash, options of RSA-PSS or of Ed25519; the pointers may be nil. *)
Inductive SignerOpts :=
| HashOpts (h : Z)
| PSSOptions (o : option (Z * Z)) (* salt length and hash *)
| Ed25519Options (o : option (string * Z)). (* context and hash *)

Definition PSSSaltLengthEqualsHash : Z := -1.

Inductive mtls_error :=
| FIPSUnavailable | CommandNotAbsolute | BadDigestOption | BadTimeout | BadConcurrency | TooManyArguments | BadArguments | BadEnvName
| NoSignerOpts | BadSaltLength | NotPureEd25519 | UnsupportedOptions
| ContextDone | ExecutableUnavailable | ExecutableUnsafe | RequestLimit | EnvUnset | EnvInvalid | OutputLimit | HelperExit (code : Z) | HelperFailed
| InvalidJSON | TrailingData | BadVersion | HelperError (code : string) | UnknownHelperError
| BadIdentityResponse | NotCertificates | BadChain | BadCertificate | NoCertificate | NotEnrolled | NotValidNow | NoSignatureUsage | NoClientUsage
| BadCapability | DuplicateCapability | BadInputMode
| SigningInputLimit | DigestLength | UnsupportedMode | BadSignatureResponse | SignatureInvalid
| TLSTooOld | NoHandshakeContext | Incompatible.

Definition HashFunc (opts : SignerOpts) : Z :=
  match opts with
  | HashOpts h => h
  | PSSOptions o => default 0 (snd <$> o)
  | Ed25519Options o => default 0 (snd <$> o)
  end.

Definition selectAlgorithm {K} (public : public_key K) (opts : option SignerOpts) : result mtls_error algorithm :=
  match opts with
  | None => Err NoSignerOpts
  | Some opts =>
      let isPSS := match opts with PSSOptions _ => true | _ => false end in
      if match opts with PSSOptions (Some (salt, _)) => negb (salt =? PSSSaltLengthEqualsHash) | PSSOptions None => true | _ => false end then Err BadSaltLength
      else if match opts with Ed25519Options (Some (context, h)) => negb (bool_decide (context = "")) || negb (h =? 0) | Ed25519Options None => true | _ => false end
      then Err NotPureEd25519
      else match find (fun a => supports a public && (al_hash a =? HashFunc opts) && Bool.eqb (al_pss a) isPSS) algorithms with
           | Some a => Ok a
           | None => Err UnsupportedOptions
           end
  end.

(** ** Options and protocol ([provider.go], [protocol.go]) *)

Record Options := MkOptions { op_Command : string; op_Args : list string; op_Timeout : string; op_MaxConcurrency : Z; op_PassEnv : list string; op_CertificateSHA256 : list byte }.

Definition Version : Z := 1.
Definition MaxRequestBytes : Z := Z.shiftl 2 20.
Definition MaxResponseBytes : Z := Z.shiftl 256 10.
Definition MaxDataBytes : Z := Z.shiftl 1 20.
Definition second : Z := 1000000000.
Definition Minute : Z := 60 * second.

Record Request := MkRequest { rq_Version : Z; rq_Operation : string; rq_CertificateSHA256 : string; rq_Algorithm : string; rq_Input : string; rq_Data : list byte; rq_PSSSaltLength : option Z }.

Record Capability := MkCapability { ca_Algorithm : string; ca_Inputs : list string }.

Record Response := MkResponse { rp_Version : Z; rp_CertificateChain : string; rp_Capabilities : list Capability; rp_Signature : list byte; rp_Error : string }.

Definition env_letter (c : byte) : bool := byte_eqb c x5f || byte_in 97 122 c || byte_in 65 90 c.

(** Runes beyond ASCII are refused, so that bytes are enough. *)
Definition validEnvName (name : string) : bool :=
  match s2b name with
  | [] => false
  | c :: rest => env_letter c && forallb (fun c => env_letter c || byte_in 48 57 c) rest
  end.

(** The sizes of the arguments are added up as they are checked. *)
Fixpoint check_args (size : Z) (args : list string) : bool :=
  match args with
  | [] => true
  | arg :: args => let size := size + slen arg in negb (contains_byte x00 (s2b arg) || (size >? Z.shiftl 64 10)) && check_args size args
  end.

(** What [New] computes: the options, the timeout, the fingerprint and the capacity of the gate. *)
Record settings := MkSettings { se_options : Options; se_timeout : Z; se_fingerprint : string; se_gate : nat }.

Definition New (ParseDuration : string -> option Z) (fips : bool) (o : Options) : result mtls_error settings :=
  if fips then Err FIPSUnavailable
  else if negb (HasPrefix (op_Command o) "/") || contains_byte x00 (s2b (op_Command o)) then Err CommandNotAbsolute
  else if negb (Z.of_nat (length (op_CertificateSHA256 o)) =? 32) then Err BadDigestOption
  else
    let? timeout := if bool_decide (op_Timeout o = "") then Ok (5 * second)
                    else match ParseDuration (op_Timeout o) with
                         | Some t => if (t <=? 0) || (t >? Minute) then Err BadTimeout else Ok t
                         | None => Err BadTimeout
                         end in
    if (op_MaxConcurrency o <? 0) || (op_MaxConcurrency o >? 32) then Err BadConcurrency
    else
      let n := if op_MaxConcurrency o =? 0 then 1 else op_MaxConcurrency o in
      if (128 <? length (op_Args o))%nat || (128 <? length (op_PassEnv o))%nat then Err TooManyArguments
      else if negb (check_args 0 (op_Args o)) then Err BadArguments
      else if negb (forallb validEnvName (op_PassEnv o)) then Err BadEnvName
      else Ok (MkSettings (MkOptions (op_Command o) (op_Args o) (op_Timeout o) n (op_PassEnv o) (op_CertificateSHA256 o)) timeout
                 (b2s (hex_encode (op_CertificateSHA256 o))) (Z.to_nat n)).

(** ** Running a helper ([process.go]) *)

(** [limitedOutput]: keeps what a helper writes, up to a limit. *)
Record limitedOutput := MkOutput { lo_data : list byte; lo_count : Z; lo_limit : Z; lo_exceeded : bool; lo_discard : bool }.

Definition new_output (limit : Z) (discard : bool) : limitedOutput := MkOutput [] 0 limit false discard.

(** A failed write is [false]; nothing more is copied after it. *)
Definition output_Write (data : list byte) (w : limitedOutput) : bool * limitedOutput :=
  let n := Z.of_nat (length data) in
  if n >? lo_limit w - lo_count w then (false, {| lo_data := lo_data w; lo_count := lo_count w; lo_limit := lo_limit w; lo_exceeded := true; lo_discard := lo_discard w |})
  else (true, {| lo_data := if lo_discard w then lo_data w else lo_data w ++ data; lo_count := lo_count w + n; lo_limit := lo_limit w;
                 lo_exceeded := lo_exceeded w; lo_discard := lo_discard w |}).

Fixpoint copy_output (chunks : list (list byte)) (w : limitedOutput) : limitedOutput :=
  match chunks with
  | [] => w
  | c :: chunks => let '(ok, w) := output_Write c w in if ok then copy_output chunks w else w
  end.

Fixpoint pass_environment (LookupEnv : string -> option string) (size : Z) (pass : list string) : result mtls_error (list string) :=
  match pass with
  | [] => Ok []
  | name :: pass =>
      match LookupEnv name with
      | None => Err EnvUnset
      | Some value =>
          let size := size + slen name + slen value in
          if (size >? Z.shiftl 64 10) || contains_byte x00 (s2b value) then Err EnvInvalid
          else let? env := pass_environment LookupEnv size pass in Ok ((name +:+ "=" +:+ value) :: env)
      end
  end.

Definition helperEnvironment (LookupEnv : string -> option string) (pass : list string) : result mtls_error (list string) :=
  let? env := pass_environment LookupEnv 0 pass in Ok (["LANG=C"; "LC_ALL=C"] ++ env).

(** How [cmd.Run] ends. *)
Inductive exit_status := Exited | ExitCode (code : Z) | NotRun.

(** What is outside: the file of the command (whether it is a regular file, and its permissions), the environment, what the helper writes, how it ends and whether the context is done by then. *)
Record helper := MkHelper {
  he_stat : option (bool * Z);
  he_LookupEnv : string -> option string;
  he_stdout : list (list byte);
  he_stderr : list (list byte);
  he_done : bool;
  he_exit : exit_status;
}.

Definition helper_errors : list string :=
  ["unsupported_version"; "unsupported_algorithm"; "identity_unavailable"; "identity_mismatch"; "signing_denied"; "invalid_request"; "internal_error"].

Section Provider.
(** JSON: the bytes of a request; the response at the front of some bytes, and whether nothing but space follows it. *)
Context (Marshal : Request -> option (list byte)) (Decode : list byte -> option (Response * bool)).
(** Hashes and signatures. *)
Context {K : Type} (Sum : Z -> list byte -> list byte) (VerifyASN1 : K -> list byte -> list byte -> bool)
  (VerifyPSS VerifyPKCS1v15 : K -> Z -> list byte -> list byte -> bool) (VerifyEd25519 : K -> list byte -> list byte -> bool).

(** A parsed certificate. *)
Record certificate := MkCertificate {
  ce_Raw : list byte;
  ce_NotBefore : Z;
  ce_NotAfter : Z;
  ce_KeyUsage : Z;
  ce_ExtKeyUsage : list Z;
  ce_UnknownExtKeyUsage : list (list Z);
  ce_PublicKey : public_key K;
}.

(** A PEM block: its type, how many headers it has and its bytes. *)
Record pem_block := MkBlock { pb_Type : string; pb_Headers : nat; pb_Bytes : list byte }.

Context (pem_Decode : list byte -> option (pem_block * list byte)) (ParseCertificate : list byte -> option certificate).
Context (st : settings).

(** The section of [run] that holds the gate. *)
Definition run (request : Request) (h : helper) : result mtls_error Response :=
  match he_stat h with
  | None | Some (false, _) => Err ExecutableUnavailable
  | Some (true, perm) =>
      if (Z.land perm 73 =? 0) || negb (Z.land perm 18 =? 0) then Err ExecutableUnsafe
      else
        let request := MkRequest Version (rq_Operation request) (se_fingerprint st) (rq_Algorithm request) (rq_Input request) (rq_Data request) (rq_PSSSaltLength request) in
        match Marshal request with
        | None => Err RequestLimit
        | Some data =>
            if Z.of_nat (length data) >? MaxRequestBytes then Err RequestLimit
            else
              let? _ := helperEnvironment (he_LookupEnv h) (op_PassEnv (se_options st)) in
              let stdout := copy_output (he_stdout h) (new_output MaxResponseBytes false) in
              let stderr := copy_output (he_stderr h) (new_output 4096 true) in
              if lo_exceeded stdout || lo_exceeded stderr then Err OutputLimit
              else if he_done h then Err ContextDone
              else match he_exit h with
                   | ExitCode code => Err (HelperExit code)
                   | NotRun => Err HelperFailed
                   | Exited =>
                       match Decode (lo_data stdout) with
                       | None => Err InvalidJSON
                       | Some (response, only) =>
                           if negb only then Err TrailingData
                           else if negb (rp_Version response =? Version) then Err BadVersion
                           else if negb (bool_decide (rp_Error response = "")) then
                             if bool_decide (rp_Error response ∈ helper_errors) then Err (HelperError (rp_Error response)) else Err UnknownHelperError
                           else Ok response
                       end
                   end
        end
  end.

(** ** Identities and signatures ([provider.go]) *)

Definition digest (a : algorithm) (message : list byte) : list byte := if al_hash a =? 0 then message else Sum (al_hash a) message.

Definition verify (a : algorithm) (public : public_key K) (digest signature : list byte) : bool :=
  match public with
  | EcdsaKey _ k => VerifyASN1 k digest signature
  | RsaKey _ k => if al_pss a then VerifyPSS k (al_hash a) digest signature else VerifyPKCS1v15 k (al_hash a) digest signature
  | Ed25519Key _ k => VerifyEd25519 k digest signature
  | OtherKey => false
  end.

Definition KeyUsageDigitalSignature : Z := 1.
Definition ExtKeyUsageAny : Z := 0.
Definition ExtKeyUsageClientAuth : Z := 2.

Definition validLeaf (now : Z) (leaf : certificate) : result mtls_error () :=
  if (now <? ce_NotBefore leaf) || negb (now <? ce_NotAfter leaf) then Err NotValidNow
  else if negb (ce_KeyUsage leaf =? 0) && (Z.land (ce_KeyUsage leaf) KeyUsageDigitalSignature =? 0) then Err NoSignatureUsage
  else if (negb (bool_decide (ce_ExtKeyUsage leaf = [])) || negb (bool_decide (ce_UnknownExtKeyUsage leaf = [])))
          && negb (bool_decide (ExtKeyUsageClientAuth ∈ ce_ExtKeyUsage leaf)) && negb (bool_decide (ExtKeyUsageAny ∈ ce_ExtKeyUsage leaf)) then Err NoClientUsage
  else Ok ().

Record identity := MkIdentity { id_chain : list (list byte); id_Leaf : certificate; id_schemes : list Z; id_inputs : gmap string (list string) }.

(** The loop over the PEM blocks; it ends after the seventeenth, which is one too many. *)
Fixpoint parse_chain (fuel : nat) (chain : list (list byte)) (leaf : option certificate) (rest : list byte) : result mtls_error (list (list byte) * option certificate) :=
  match fuel with
  | O => Err BadChain
  | S fuel =>
      if bool_decide (trim_space rest = []) then Ok (chain, leaf)
      else if negb (has_prefix (s2b "-----BEGIN CERTIFICATE-----") (trim_space rest)) then Err NotCertificates
      else match pem_Decode rest with
           | None => Err BadChain
           | Some (block, remaining) =>
               if negb (bool_decide (pb_Type block = "CERTIFICATE")) || negb (pb_Headers block =? 0)%nat || (16 <=? length chain)%nat then Err BadChain
               else match ParseCertificate (pb_Bytes block) with
                    | None => Err BadCertificate
                    | Some cert => parse_chain fuel (chain ++ [pb_Bytes block]) (match leaf with None => Some cert | Some _ => leaf end) remaining
                    end
           end
  end.

Fixpoint check_inputs (a : algorithm) (seen inputs : list string) : bool :=
  match inputs with
  | [] => true
  | input :: inputs =>
      negb ((negb (bool_decide (input = "message")) && negb (bool_decide (input = "digest"))) || ((al_hash a =? 0) && negb (bool_decide (input = "message"))) || bool_decide (input ∈ seen))
      && check_inputs a (seen ++ [input]) inputs
  end.

Fixpoint add_capabilities (capabilities : list Capability) (id : identity) : result mtls_error identity :=
  match capabilities with
  | [] => Ok id
  | c :: capabilities =>
      match findAlgorithm (ca_Algorithm c) with
      | None => Err BadCapability
      | Some a =>
          if negb (supports a (ce_PublicKey (id_Leaf id))) then Err BadCapability
          else if bool_decide (is_Some (id_inputs id !! al_name a)) || bool_decide (ca_Inputs c = []) || (2 <? length (ca_Inputs c))%nat then Err DuplicateCapability
          else if negb (check_inputs a [] (ca_Inputs c)) then Err BadInputMode
          else add_capabilities capabilities (MkIdentity (id_chain id) (id_Leaf id) (id_schemes id ++ [al_scheme a]) (<[al_name a := ca_Inputs c]> (id_inputs id)))
      end
  end.

Definition parseIdentity (now : Z) (response : Response) : result mtls_error identity :=
  if negb (bool_decide (rp_Signature response = [])) || bool_decide (rp_Capabilities response = []) || (length algorithms <? length (rp_Capabilities response))%nat then Err BadIdentityResponse
  else
    let? (chain, leaf) := parse_chain 18 [] None (s2b (rp_CertificateChain response)) in
    match leaf with
    | None => Err NoCertificate
    | Some leaf =>
        if negb (bool_decide (Sum SHA256 (ce_Raw leaf) = op_CertificateSHA256 (se_options st))) then Err NotEnrolled
        else
          let? _ := validLeaf now leaf in
          add_capabilities (rp_Capabilities response) (MkIdentity chain leaf [] ∅)
    end.

(** [sign] up to the request: the algorithm, the digest the signature will be verified against, and what the helper is asked. *)
Definition sign_request (id : identity) (data : list byte) (opts : option SignerOpts) (message : bool) : result mtls_error (algorithm * list byte * Request) :=
  if Z.of_nat (length data) >? MaxDataBytes then Err SigningInputLimit
  else
    let? a := selectAlgorithm (ce_PublicKey (id_Leaf id)) opts in
    let inputs := default [] (id_inputs id !! al_name a) in
    let dg := if message then digest a data else data in
    let? (data, input) :=
      if message || (al_hash a =? 0) then if negb (bool_decide ("message" ∈ inputs)) then Ok (dg, "digest") else Ok (data, "message")
      else if negb (Z.of_nat (length data) =? hash_size (al_hash a)) then Err DigestLength
      else Ok (data, "digest") in
    if negb (bool_decide (input ∈ inputs)) then Err UnsupportedMode
    else Ok (a, dg, MkRequest 0 "sign" "" (al_name a) input data (if al_pss a then Some (hash_size (al_hash a)) else None)).

(** [sign] from the helper's response. *)
Definition sign_response (id : identity) (a : algorithm) (dg : list byte) (response : Response) : result mtls_error (list byte) :=
  if negb (bool_decide (rp_CertificateChain response = "")) || negb (bool_decide (rp_Capabilities response = [])) || bool_decide (rp_Signature response = [])
     || (1024 <? length (rp_Signature response))%nat then Err BadSignatureResponse
  else if negb (verify a (ce_PublicKey (id_Leaf id)) dg (rp_Signature response)) then Err SignatureInvalid
  else Ok (rp_Signature response).

Definition VersionTLS12 : Z := 771.

(** [GetClientCertificate] around [loadIdentity]: the checks before and after it. *)
Definition certificate_request (request : option (Z * bool)) : result mtls_error () :=
  match request with
  | None => Err TLSTooOld
  | Some (version, context) => if version <? VersionTLS12 then Err TLSTooOld else if negb context then Err NoHandshakeContext else Ok ()
  end.

Definition GetClientCertificate (SupportsCertificate : identity -> bool) (request : option (Z * bool)) (loaded : result mtls_error identity) (now : Z) : result mtls_error identity :=
  let? _ := certificate_request request in
  let? id := loaded in
  let? _ := validLeaf now (id_Leaf id) in
  if negb (SupportsCertificate id) then Err Incompatible else Ok id.

(** The signatures [Check] asks for: one for every advertised algorithm. *)
Definition check_options (id : identity) : list SignerOpts :=
  omap (fun a => if bool_decide (is_Some (id_inputs id !! al_name a)) then Some (if al_pss a then PSSOptions (Some (PSSSaltLengthEqualsHash, al_hash a)) else HashOpts (al_hash a)) else None) algorithms.

(** ** Calls in progress

    A call is a [loadIdentity] or the [sign] of a signer made from a loaded identity.  [Waiting] calls are in a
    [select] with their context; [Helper] calls hold the gate. *)
Inductive call :=
| LoadLook
| LoadWaiting
| LoadLocked
| LoadGate
| LoadHelper
| LoadParse (response : Response)
| LoadStore (id : identity)
| Loaded (r : result mtls_error identity)
| SignStart (id : identity) (data : list byte) (opts : option SignerOpts) (message : bool)
| SignGate (id : identity) (data : list byte) (opts : option SignerOpts) (message : bool) (a : algorithm) (dg : list byte) (request : Request)
| SignHelper (id : identity) (data : list byte) (opts : option SignerOpts) (message : bool) (a : algorithm) (dg : list byte) (request : Request)
| Signed (id : identity) (data : list byte) (opts : option SignerOpts) (message : bool) (r : result mtls_error (list byte)).

Record provider := MkProvider { pv_gate : nat; pv_loading : bool; pv_identity : option identity; pv_calls : list call }.

(** How a step of a call goes: on, with the context done, with a helper that has ended, at a time. *)
Inductive choice := Go | Done | Ended (h : helper) | At (now : Z).

Definition set_call (i : nat) (c : call) (p : provider) : provider := MkProvider (pv_gate p) (pv_loading p) (pv_identity p) (<[i := c]> (pv_calls p)).
Definition release_loading (p : provider) : provider := MkProvider (pv_gate p) false (pv_identity p) (pv_calls p).
Definition take_gate (p : provider) : provider := MkProvider (S (pv_gate p)) (pv_loading p) (pv_identity p) (pv_calls p).
Definition release_gate (p : provider) : provider := MkProvider (pred (pv_gate p)) (pv_loading p) (pv_identity p) (pv_calls p).

(** The deferred functions of [loadIdentity]. *)
Definition load_return (i : nat) (r : result mtls_error identity) (p : provider) : option provider := Some (set_call i (Loaded r) (release_loading p)).

Definition gate_free (p : provider) : bool := (pv_gate p <? se_gate st)%nat.

Definition loadIdentity (i : nat) (c : call) (ch : choice) (p : provider) : option provider :=
  match c, ch with
  | LoadLook, Go => Some (set_call i (match pv_identity p with Some id => Loaded (Ok id) | None => LoadWaiting end) p)
  | LoadWaiting, Go => if pv_loading p then None else Some (set_call i LoadLocked (MkProvider (pv_gate p) true (pv_identity p) (pv_calls p)))
  | LoadWaiting, Done => Some (set_call i (Loaded (Err ContextDone)) p)
  | LoadLocked, Go => match pv_identity p with Some id => load_return i (Ok id) p | None => Some (set_call i LoadGate p) end
  | LoadGate, Go => if gate_free p then Some (set_call i LoadHelper (take_gate p)) else None
  | LoadGate, Done => load_return i (Err ContextDone) p
  | LoadHelper, Done => load_return i (Err ContextDone) (release_gate p)
  | LoadHelper, Ended h =>
      match run (MkRequest 0 "identity" "" "" "" [] None) h with
      | Ok response => Some (set_call i (LoadParse response) (release_gate p))
      | Err e => load_return i (Err e) (release_gate p)
      end
  | LoadParse response, At now =>
      match parseIdentity now response with
      | Ok id => Some (set_call i (LoadStore id) p)
      | Err e => load_return i (Err e) p
      end
  | LoadStore id, Go => load_return i (Ok id) (MkProvider (pv_gate p) (pv_loading p) (Some id) (pv_calls p))
  | _, _ => None
  end.

Definition sign (i : nat) (c : call) (ch : choice) (p : provider) : option provider :=
  match c, ch with
  | SignStart id data opts message, Go =>
      match sign_request id data opts message with
      | Ok (a, dg, request) => Some (set_call i (SignGate id data opts message a dg request) p)
      | Err e => Some (set_call i (Signed id data opts message (Err e)) p)
      end
  | SignGate id data opts message a dg request, Go => if gate_free p then Some (set_call i (SignHelper id data opts message a dg request) (take_gate p)) else None
  | SignGate id data opts message a dg request, Done => Some (set_call i (Signed id data opts message (Err ContextDone)) p)
  | SignHelper id data opts message a dg request, Done => Some (set_call i (Signed id data opts message (Err ContextDone)) (release_gate p))
  | SignHelper id data opts message a dg request, Ended h =>
      Some (set_call i (Signed id data opts message (let? response := run request h in sign_response id a dg response)) (release_gate p))
  | _, _ => None
  end.

Definition call_step (i : nat) (ch : choice) (p : provider) : option provider :=
  match pv_calls p !! i with
  | None => None
  | Some c => match loadIdentity i c ch p with Some p => Some p | None => sign i c ch p end
  end.

Definition add_call (c : call) (p : provider) : provider := MkProvider (pv_gate p) (pv_loading p) (pv_identity p) (pv_calls p ++ [c]).

(** A caller loads the identity, or signs with an identity a load has returned. *)
Inductive event := Load | Sign (from : nat) (data : list byte) (opts : option SignerOpts) (message : bool) | Step (i : nat) (ch : choice).

Definition step (e : event) (p : provider) : option provider :=
  match e with
  | Load => Some (add_call LoadLook p)
  | Sign from data opts message => match pv_calls p !! from with Some (Loaded (Ok id)) => Some (add_call (SignStart id data opts message) p) | _ => None end
  | Step i ch => call_step i ch p
  end.

Definition new_provider : provider := MkProvider 0 false None [].

Fixpoint run_events (es : list event) (p : provider) : option provider :=
  match es with
  | [] => Some p
  | e :: es => match step e p with Some p => run_events es p | None => None end
  end.

(** ** Invariant *)

(** A loaded identity is the enrolled certificate, with capabilities its key supports. *)
Record enrolled (id : identity) : Prop := {
  en_fingerprint : Sum SHA256 (ce_Raw (id_Leaf id)) = op_CertificateSHA256 (se_options st);
  en_valid : exists now, validLeaf now (id_Leaf id) = Ok ();
  en_inputs : forall name inputs, id_inputs id !! name = Some inputs ->
    exists a, a ∈ algorithms /\ al_name a = name /\ supports a (ce_PublicKey (id_Leaf id)) = true /\
      inputs <> [] /\ NoDup inputs /\ (forall m, m ∈ inputs -> m = "message" \/ al_hash a <> 0 /\ m = "digest");
}.

(** A returned signature is one of the enrolled key, over what was to be signed, by an algorithm the identity advertises. *)
Definition authentic (id : identity) (data : list byte) (opts : option SignerOpts) (message : bool) (signature : list byte) : Prop :=
  exists a, selectAlgorithm (ce_PublicKey (id_Leaf id)) opts = Ok a /\ is_Some (id_inputs id !! al_name a) /\
    verify a (ce_PublicKey (id_Leaf id)) (if message then digest a data else data) signature = true.

Lemma find_algorithm name a : findAlgorithm name = Some a -> a ∈ algorithms /\ al_name a = name.
Proof. intros [Hin Hn]%find_some. split; [by apply list_elem_of_In|]. by apply bool_decide_eq_true in Hn. Qed.

Lemma check_inputs_spec a inputs : forall seen, check_inputs a seen inputs = true -> NoDup seen ->
  NoDup (seen ++ inputs) /\ forall m, m ∈ inputs -> m = "message" \/ al_hash a <> 0 /\ m = "digest".
Proof.
  induction inputs as [|input inputs IH]; intros seen; cbn [check_inputs]; intros H Hs; [rewrite app_nil_r; split; [done|]; intros m Hm; inversion Hm|].
  apply andb_true_iff in H as [H1 H2]. apply negb_true_iff, orb_false_iff in H1 as [[H1 H3]%orb_false_iff H4]. apply bool_decide_eq_false in H4.
  destruct (IH _ H2) as [Hd Hm]. { apply NoDup_app. split; [done|]. split; [|apply NoDup_singleton]. intros x Hx ->%list_elem_of_singleton. done. }
  rewrite <-app_assoc in Hd. split; [done|]. intros m [-> |Hin]%elem_of_cons; [|by apply Hm].
  apply andb_false_iff in H1 as [H1%negb_false_iff%bool_decide_eq_true|H1%negb_false_iff%bool_decide_eq_true]; [by left|right]. split; [|done].
  intros E. rewrite E, H1 in H3. done.
Qed.

Definition capable (id : identity) : Prop := forall name inputs, id_inputs id !! name = Some inputs ->
  exists a, a ∈ algorithms /\ al_name a = name /\ supports a (ce_PublicKey (id_Leaf id)) = true /\
    inputs <> [] /\ NoDup inputs /\ (forall m, m ∈ inputs -> m = "message" \/ al_hash a <> 0 /\ m = "digest").

Lemma capabilities_ok l : forall id id', add_capabilities l id = Ok id' -> capable id -> capable id' /\ id_Leaf id' = id_Leaf id.
Proof.
  induction l as [|c l IH]; intros id id'; cbn [add_capabilities]; [by intros [= <-]|]. destruct (findAlgorithm _) as [a|] eqn:Ef; [|done].
  destruct (supports a _) eqn:Es; [|done]. cbn [negb]. destruct (_ || _) eqn:Eo; [done|]. destruct (check_inputs a [] _) eqn:Ei; [|done]. cbn [negb]. intros H Hc.
  apply IH in H as [H ->]; [done|]. intros name inputs. cbn [id_inputs id_Leaf]. destruct (decide (name = al_name a)) as [-> |Hne].
  - rewrite lookup_insert_eq. intros [= <-]. apply find_algorithm in Ef as [Hin _]. apply orb_false_iff in Eo as [[_ Eo%bool_decide_eq_false]%orb_false_iff _].
    apply check_inputs_spec in Ei as [Hd Hm]; [|constructor]. exists a. by split_and!.
  - rewrite lookup_insert_ne by done. apply Hc.
Qed.

(** The loop over the chain has fuel enough: more changes nothing. *)
Lemma chain_fuel n : forall chain leaf rest k, (18 <= length chain + n)%nat -> (length chain <= 16)%nat -> parse_chain (n + k) chain leaf rest = parse_chain n chain leaf rest.
Proof.
  induction n as [|n IH]; intros chain leaf rest k Hn Hl; [lia|]. cbn [Nat.add parse_chain]. case_bool_decide; [done|]. destruct (negb _); [done|].
  destruct (pem_Decode rest) as [[block remaining]|]; [|done]. destruct (_ || (16 <=? length chain)%nat) eqn:E; [done|]. apply orb_false_iff in E as [_ E%Nat.leb_gt].
  destruct (ParseCertificate _); [|done]. apply IH; rewrite length_app; cbn; lia.
Qed.

Lemma parse_enrolled now response id : parseIdentity now response = Ok id -> enrolled id.
Proof.
  unfold parseIdentity. destruct (_ || _ || _); [done|]. destruct (parse_chain _ _ _ _) as [[chain [leaf|]]|]; try done. destruct (bool_decide _) eqn:Es; [|done]. cbn [negb].
  destruct (validLeaf now leaf) as [[]|] eqn:Ev; [|done]. intros H. apply capabilities_ok in H as [H El]; [|intros ? ? Hl; cbn in Hl; by rewrite lookup_empty in Hl].
  apply bool_decide_eq_true in Es. constructor; rewrite ?El; [done|by exists now|]. intros name inputs Hl. rewrite <-El. by apply H.
Qed.

Lemma response_authentic id data opts message a dg request response signature :
  sign_request id data opts message = Ok (a, dg, request) -> sign_response id a dg response = Ok signature -> authentic id data opts message signature.
Proof.
  unfold sign_request, sign_response. destruct (_ >? _); [done|]. destruct (selectAlgorithm _ _) as [a'|] eqn:Ea; [|done].
  destruct (if _ : bool then _ else _) as [[d input]|]; [|done]. destruct (bool_decide (input ∈ _)) eqn:Ei; [|done]. intros [= -> <- <-].
  destruct (_ || _ || _ || _); [done|]. destruct (verify a _ _ _) eqn:Ev; [|done]. intros [= <-]. exists a. split_and!; [done| |done].
  apply bool_decide_eq_true in Ei. destruct (id_inputs id !! al_name a); [by eexists|]. inversion Ei.
Qed.

Definition in_helper (c : call) : nat := match c with LoadHelper | SignHelper _ _ _ _ _ _ _ => 1 | _ => 0 end.
Definition in_load (c : call) : nat := match c with LoadLocked | LoadGate | LoadHelper | LoadParse _ | LoadStore _ => 1 | _ => 0 end.

Definition call_ok (idn : option identity) (c : call) : Prop :=
  match c with
  | LoadGate | LoadHelper | LoadParse _ => idn = None
  | LoadStore id => idn = None /\ enrolled id
  | Loaded (Ok id) => idn = Some id
  | SignStart id _ _ _ => idn = Some id
  | SignGate id data opts message a dg request | SignHelper id data opts message a dg request => idn = Some id /\ sign_request id data opts message = Ok (a, dg, request)
  | Signed id data opts message r => idn = Some id /\ forall signature, r = Ok signature -> authentic id data opts message signature
  | _ => True
  end.

Record inv (p : provider) : Prop := {
  iv_gate : pv_gate p = sum_list_with in_helper (pv_calls p);
  iv_bound : (pv_gate p <= se_gate st)%nat;
  iv_loading : Nat.b2n (pv_loading p) = sum_list_with in_load (pv_calls p);
  iv_calls : Forall (call_ok (pv_identity p)) (pv_calls p);
  iv_identity : forall id, pv_identity p = Some id -> enrolled id;
}.

Lemma sum_set {A} (w : A -> nat) l i x y : l !! i = Some x -> (sum_list_with w (<[i := y]> l) + w x = sum_list_with w l + w y)%nat.
Proof. revert i. induction l as [|a l IH]; intros [|i] H; simplify_eq/=; [lia|]. specialize (IH _ H). lia. Qed.

Lemma mtls_inv_set p i c c' g l : inv p -> pv_calls p !! i = Some c -> (g + in_helper c = pv_gate p + in_helper c')%nat -> (g <= se_gate st)%nat ->
  (Nat.b2n l + in_load c = Nat.b2n (pv_loading p) + in_load c')%nat -> call_ok (pv_identity p) c' ->
  inv (MkProvider g l (pv_identity p) (<[i := c']> (pv_calls p))).
Proof.
  intros [H1 H2 H3 H4 H5] Hc Hg Hb Hl Hok. constructor; cbn; [|done| | |done].
  - pose proof (sum_set in_helper _ _ _ c' Hc). lia.
  - pose proof (sum_set in_load _ _ _ c' Hc). lia.
  - by apply Forall_insert.
Qed.

Lemma gate_held p i c : inv p -> pv_calls p !! i = Some c -> (in_helper c <= pv_gate p)%nat.
Proof. intros [H1 _ _ _ _] Hc. pose proof (sum_set in_helper _ _ _ LoadLook Hc). cbn in *. lia. Qed.

Lemma lock_held p i c : inv p -> pv_calls p !! i = Some c -> in_load c = 1%nat -> pv_loading p = true.
Proof. intros [_ _ H3 _ _] Hc H. pose proof (sum_set in_load _ _ _ LoadLook Hc). cbn in *. destruct (pv_loading p); [done|]. cbn in *. lia. Qed.

Lemma call_at p i c : inv p -> pv_calls p !! i = Some c -> call_ok (pv_identity p) c.
Proof. intros [_ _ _ H4 _] Hc. by eapply Forall_lookup_1. Qed.

(** The step that publishes the identity: no other call relies on there being none. *)
Lemma inv_store p i id : inv p -> pv_calls p !! i = Some (LoadStore id) ->
  inv (MkProvider (pv_gate p) false (Some id) (<[i := Loaded (Ok id)]> (pv_calls p))).
Proof.
  intros Hp Hc. pose proof (lock_held _ _ _ Hp Hc eq_refl) as Hl. destruct (call_at _ _ _ Hp Hc) as [Hn He].
  destruct Hp as [H1 H2 H3 H4 H5]. rewrite Hl in H3. cbn in H3. rewrite Hn in H4. constructor; cbn; [|done| | |by intros ? [= <-]].
  - pose proof (sum_set in_helper _ _ _ (Loaded (Ok id)) Hc). cbn in *. lia.
  - pose proof (sum_set in_load _ _ _ (Loaded (Ok id)) Hc). cbn in *. lia.
  - apply Forall_lookup. intros j c Hj. destruct (decide (j = i)) as [-> |Hne].
    { rewrite list_lookup_insert_eq in Hj by (by eapply lookup_lt_Some). by injection Hj as <-. }
    rewrite list_lookup_insert_ne in Hj by done. assert (Hz : in_load c = 0%nat).
    { pose proof (sum_set in_load _ _ _ LoadLook Hc) as Ha. pose proof (sum_set in_load (<[i := LoadLook]> (pv_calls p)) j c LoadLook) as Hb.
      rewrite list_lookup_insert_ne in Hb by done. specialize (Hb Hj). cbn in *. lia. }
    pose proof (Forall_lookup_1 _ _ _ _ H4 Hj) as Hok. by destruct c as [| | | | | | |[]| | | |]; cbn in *; try done; destruct Hok.
Qed.

Lemma step_load_inv p i c ch p' : inv p -> pv_calls p !! i = Some c -> loadIdentity i c ch p = Some p' -> inv p'.
Proof.
  intros Hp Hc. pose proof (gate_held _ _ _ Hp Hc) as Hg. pose proof (lock_held _ _ _ Hp Hc) as Hl. pose proof (call_at _ _ _ Hp Hc) as Hok. pose proof (iv_bound _ Hp) as Hb.
  unfold loadIdentity, load_return, set_call, release_loading, take_gate, release_gate, gate_free.
  destruct c as [| | | | |response|id|r| | | |], ch; try done; cbn [pv_gate pv_loading pv_identity pv_calls in_helper in_load] in *.
  - intros [= <-]. eapply mtls_inv_set; [done|exact Hc|by destruct (pv_identity p)..|]. by destruct (pv_identity p).
  - destruct (pv_loading p) eqn:E; [done|]. intros [= <-]. eapply mtls_inv_set; [done|exact Hc|done|done|by rewrite E|done].
  - intros [= <-]. by eapply mtls_inv_set.
  - specialize (Hl eq_refl). destruct (pv_identity p) as [id|] eqn:Ei; intros [= <-]; rewrite <-Ei; (eapply mtls_inv_set; [done|exact Hc|done|done|by rewrite Hl|done]).
  - destruct (Nat.ltb_spec (pv_gate p) (se_gate st)); [|done]. intros [= <-]. eapply mtls_inv_set; [done|exact Hc|cbn; lia|lia|done|done].
  - specialize (Hl eq_refl). intros [= <-]. eapply mtls_inv_set; [done|exact Hc|done|done|by rewrite Hl|done].
  - specialize (Hl eq_refl). intros [= <-]. eapply mtls_inv_set; [done|exact Hc|cbn; lia|lia|by rewrite Hl|done].
  - specialize (Hl eq_refl). destruct (run _ h); intros [= <-]; (eapply mtls_inv_set; [done|exact Hc|cbn; lia|lia|by rewrite Hl|done]).
  - specialize (Hl eq_refl). destruct (parseIdentity now response) as [id|] eqn:E; intros [= <-]; (eapply mtls_inv_set; [done|exact Hc|done|done|by rewrite Hl|]); [|done].
    split; [done|by eapply parse_enrolled].
  - intros [= <-]. by apply inv_store.
Qed.

Lemma step_sign_inv p i c ch p' : inv p -> pv_calls p !! i = Some c -> sign i c ch p = Some p' -> inv p'.
Proof.
  intros Hp Hc. pose proof (gate_held _ _ _ Hp Hc) as Hg. pose proof (call_at _ _ _ Hp Hc) as Hok. pose proof (iv_bound _ Hp) as Hb.
  unfold sign, set_call, take_gate, release_gate, gate_free.
  destruct c as [| | | | | | | |id data opts message|id data opts message a dg request|id data opts message a dg request|], ch; try done; cbn [pv_gate pv_loading pv_identity pv_calls in_helper in_load call_ok] in *.
  - destruct (sign_request id data opts message) as [[[a dg] request]|] eqn:E; intros [= <-]; by eapply mtls_inv_set.
  - destruct (Nat.ltb_spec (pv_gate p) (se_gate st)); [|done]. intros [= <-]. eapply mtls_inv_set; [done|exact Hc|cbn; lia|lia|done|done].
  - intros [= <-]. eapply mtls_inv_set; [done|exact Hc|done|done|done|]. by destruct Hok.
  - intros [= <-]. eapply mtls_inv_set; [done|exact Hc|cbn; lia|lia|done|]. by destruct Hok.
  - intros [= <-]. eapply mtls_inv_set; [done|exact Hc|cbn; lia|lia|done|]. destruct Hok as [Hi Hr]. split; [done|]. intros signature Hs.
    destruct (run request h) as [response|]; [|done]. by eapply response_authentic.
Qed.

Lemma inv_add p c : inv p -> in_helper c = 0%nat -> in_load c = 0%nat -> call_ok (pv_identity p) c -> inv (add_call c p).
Proof.
  intros [H1 H2 H3 H4 H5] Hh Hl Hc. constructor; cbn; rewrite ?sum_list_with_app; cbn; rewrite ?Hh, ?Hl; [lia|done|lia| |done]. apply Forall_app. split; [done|by apply Forall_singleton].
Qed.

Lemma mtls_step_inv e p p' : inv p -> step e p = Some p' -> inv p'.
Proof.
  intros Hp. destruct e as [|from data opts message|i ch]; cbn [step].
  - intros [= <-]. by apply inv_add.
  - destruct (pv_calls p !! from) as [[| | | | | | |[id|]| | | |]|] eqn:E; try done. intros [= <-]. apply inv_add; try done. exact (call_at _ _ _ Hp E).
  - unfold call_step. destruct (pv_calls p !! i) as [c|] eqn:E; [|done]. destruct (loadIdentity i c ch p) eqn:El; [intros [= <-]; by eapply step_load_inv|by eapply step_sign_inv].
Qed.

Lemma events_inv es : forall p p', inv p -> run_events es p = Some p' -> inv p'.
Proof.
  induction es as [|e es IH]; intros p p' Hp; cbn [run_events]; [by intros [= <-]|]. destruct (step e p) as [q|] eqn:E; [|done]. apply IH. by eapply mtls_step_inv.
Qed.

Lemma mtls_inv_start : inv new_provider.
Proof. constructor; cbn; [done|lia|done|constructor|done]. Qed.

(** The identity is kept once it is there. *)
Lemma step_identity e p p' id : inv p -> step e p = Some p' -> pv_identity p = Some id -> pv_identity p' = Some id.
Proof.
  intros Hp. destruct e as [|from data opts message|i ch]; cbn [step]; [by intros [= <-]|by repeat case_match; intros ?; simplify_eq|].
  unfold call_step. destruct (pv_calls p !! i) as [c|] eqn:E; [|done]. pose proof (call_at _ _ _ Hp E) as Hok. intros Hs Hi.
  destruct (loadIdentity i c ch p) as [q|] eqn:El; [injection Hs as <-|by destruct c, ch; cbn in Hs; repeat case_match; simplify_eq/=].
  destruct c as [| | | | |response|id'|r| | | |], ch; cbn in El, Hok; try done; unfold load_return in El; repeat case_match; simplify_eq/=; try done. destruct Hok as [Hok _]. congruence.
Qed.

Lemma events_identity es : forall p p' id, inv p -> run_events es p = Some p' -> pv_identity p = Some id -> pv_identity p' = Some id.
Proof.
  induction es as [|e es IH]; intros p p' id Hp; cbn [run_events]; [by intros [= <-]|]. destruct (step e p) as [q|] eqn:E; [|done]. intros Hr Hi.
  eapply IH; [by eapply mtls_step_inv|exact Hr|by eapply step_identity].
Qed.

(** ** What callers can rely on *)

(** C25: whatever the helper answers and however calls interleave: at most the configured number of helpers runs at a time and at most one call loads the identity; every load returns the same identity, whose certificate has the enrolled fingerprint and only capabilities its key supports, and it never changes; a signature is only returned when it verifies under that certificate over what was to be signed, by the algorithm the handshake asked for. *)
Theorem external_signer_safe (es : list event) (p : provider) (Hrun : run_events es new_provider = Some p) :
  (sum_list_with in_helper (pv_calls p) <= se_gate st)%nat /\ (sum_list_with in_load (pv_calls p) <= 1)%nat /\
  (forall i id, pv_calls p !! i = Some (Loaded (Ok id)) -> enrolled id /\ forall fs q j id', run_events fs p = Some q -> pv_calls q !! j = Some (Loaded (Ok id')) -> id' = id) /\
  (forall i id data opts message signature, pv_calls p !! i = Some (Signed id data opts message (Ok signature)) -> enrolled id /\ authentic id data opts message signature).
Proof.
  pose proof (events_inv _ _ _ mtls_inv_start Hrun) as Hp. destruct Hp as [H1 H2 H3 H4 H5] eqn:E. clear E. split_and!; [lia|destruct (pv_loading p); cbn in *; lia| |].
  - intros i id Hi. pose proof (call_at _ _ _ Hp Hi) as Hok. cbn in Hok. split; [by apply H5|]. intros fs q j id' Hq Hj.
    pose proof (call_at _ _ _ (events_inv _ _ _ Hp Hq) Hj) as Hok'. cbn in Hok'. rewrite (events_identity _ _ _ _ Hp Hq Hok) in Hok'. congruence.
  - intros i id data opts message signature Hi. pose proof (call_at _ _ _ Hp Hi) as [Hid Ha]. split; [by apply H5|by apply Ha].
Qed.

(** What the helper is asked to sign is what the handshake wants signed: the data itself or its digest, in a mode the identity advertises for the selected algorithm, within the limit, a digest having the length of its hash. *)
Theorem signing_requests (Hsum : forall h m, hash_size h <> 0 -> Z.of_nat (length (Sum h m)) = hash_size h) id data opts message a dg request
    (Hid : enrolled id) (Hok : sign_request id data opts message = Ok (a, dg, request)) :
  Z.of_nat (length data) <= MaxDataBytes /\ selectAlgorithm (ce_PublicKey (id_Leaf id)) opts = Ok a /\ dg = (if message then digest a data else data) /\ rq_Algorithm request = al_name a /\
  rq_Input request ∈ default [] (id_inputs id !! al_name a) /\
  (rq_Input request = "message" /\ rq_Data request = data \/ rq_Input request = "digest" /\ rq_Data request = dg /\ Z.of_nat (length dg) = hash_size (al_hash a)).
Proof.
  unfold sign_request in Hok. destruct (Z.gtb_spec (Z.of_nat (length data)) MaxDataBytes) as [|Hlen]; [done|]. destruct (selectAlgorithm _ _) as [a'|] eqn:Ea; [|done].
  assert (Hin : a' ∈ algorithms).
  { unfold selectAlgorithm in Ea. destruct opts as [o|]; [|done]. destruct (match o with PSSOptions _ => _ | _ => _ end); [done|]. destruct (match o with Ed25519Options _ => _ | _ => _ end); [done|].
    destruct (find _ _) eqn:Ef; [|done]. injection Ea as <-. apply find_some in Ef as [Hin _]. by apply list_elem_of_In. }
  assert (Hsz : al_hash a' <> 0 -> hash_size (al_hash a') <> 0).
  { clear -Hin. unfold algorithms in Hin. rewrite !elem_of_cons in Hin. destruct_or!; subst; try done; by apply not_elem_of_nil in Hin. }
  destruct (if message || _ then _ else _) as [[d input]|] eqn:Em; [|done]. destruct (bool_decide (input ∈ _)) eqn:Ei; [|done]. injection Hok as <- <- <-. apply bool_decide_eq_true in Ei.
  split; [exact Hlen|]. split_and!; try done. cbn [rq_Input rq_Data].
  destruct (message || (al_hash a' =? 0)) eqn:Eg.
  - case_bool_decide as Hm; cbn [negb] in Em; injection Em as <- <-; [by left|]. right. split_and!; try done.
    assert (Hz : al_hash a' <> 0).
    { intros Hz. destruct (id_inputs id !! al_name a') as [inputs|] eqn:El; [|inversion Ei]. destruct (en_inputs _ Hid _ _ El) as (b & Hb & Hn & _ & _ & _ & Hmode).
      assert (b = a') as ->. { clear -Hb Hin Hn. unfold algorithms in Hb, Hin. rewrite !elem_of_cons in Hb, Hin. destruct_or!; subst; try done; by apply not_elem_of_nil in Hb || by apply not_elem_of_nil in Hin. }
      destruct (Hmode _ Ei) as [|[? _]]; done. }
    destruct message; [|cbn in Eg; lia]. unfold digest. destruct (Z.eqb_spec (al_hash a') 0); [done|]. by apply Hsum, Hsz.
  - destruct (Z.eqb_spec (Z.of_nat (length data)) (hash_size (al_hash a'))) as [E|]; [|done]. injection Em as <- <-. right. destruct message; [done|]. done.
Qed.
End Provider.

(** The settings of a provider are within their limits. *)
Theorem settings_bounded (ParseDuration : string -> option Z) (fips : bool) (o : Options) (st : settings) (Hok : New ParseDuration fips o = Ok st) :
  fips = false /\ (1 <= se_gate st <= 32)%nat /\ 0 < se_timeout st <= Minute /\ length (op_CertificateSHA256 (se_options st)) = 32%nat /\
  slen (se_fingerprint st) = 64 /\ HasPrefix (op_Command (se_options st)) "/" = true /\ Forall (fun n => validEnvName n = true) (op_PassEnv (se_options st)).
Proof.
  unfold New in Hok. destruct fips; [done|]. destruct (HasPrefix _ _) eqn:Ep; [|done]. destruct (contains_byte _ _); [done|]. cbn [negb orb] in Hok.
  destruct (Z.eqb_spec (Z.of_nat (length (op_CertificateSHA256 o))) 32) as [E|]; [|done]. cbn [negb] in Hok.
  destruct (if bool_decide _ then _ else _) as [t|] eqn:Et; [|done]. destruct ((_ <? 0) || _) eqn:Ec; [done|]. cbv zeta in Hok. destruct ((128 <? length _)%nat || _); [done|]. destruct (check_args _ _); [|done].
  destruct (forallb _ _) eqn:Ef; [|done]. injection Hok as <-. cbn. apply orb_false_iff in Ec as [?%Z.ltb_ge Hc]. rewrite Z.gtb_ltb in Hc. apply Z.ltb_ge in Hc.
  split_and!; try done; try lia.
  - destruct (Z.eqb_spec (op_MaxConcurrency o) 0); lia.
  - destruct (Z.eqb_spec (op_MaxConcurrency o) 0); lia.
  - case_bool_decide; [injection Et as <-; unfold second; lia|]. destruct (ParseDuration _) as [u|]; [|done]. destruct (_ || _) eqn:E'; [done|]. injection Et as <-. lia.
  - case_bool_decide; [injection Et as <-; unfold Minute, second; lia|]. destruct (ParseDuration _) as [u|]; [|done]. destruct (_ || _) eqn:E'; [done|]. injection Et as <-. lia.
  - unfold slen. rewrite s2b_b2s, length_hex_encode. lia.
  - by apply forallb_True, Is_true_true in Ef || (rewrite forallb_forall in Ef; apply Forall_forall; intros n Hn; apply Ef; by apply list_elem_of_In).
Qed.

(** ** A helper *)

Definition toy_raw : list byte := replicate 32 x41.
Definition toy_options : Options := MkOptions "/usr/bin/signer" ["--key"; "1"] "" 0 ["HOME"] toy_raw.
Definition toy_settings : settings := MkSettings (MkOptions "/usr/bin/signer" ["--key"; "1"] "" 1 ["HOME"] toy_raw) (5 * second) (b2s (hex_encode toy_raw)) 1.

(** The hash keeps the first bytes; a signature is the key before the message. *)
Definition toy_Sum (h : Z) (m : list byte) : list byte := take (Z.to_nat (hash_size h)) (m ++ replicate 64 x00).
Definition toy_verify (k dg signature : list byte) : bool := bool_decide (signature = k ++ dg).
Definition toy_certificate : @certificate (list byte) := MkCertificate toy_raw 0 100 1 [2] [] (Ed25519Key 32 [x4b]).
Definition toy_pem (rest : list byte) : option (pem_block * list byte) := Some (MkBlock "CERTIFICATE" 0 toy_raw, []).

(** What the helper prints is an identity when it starts with a brace and a signature otherwise. *)
Definition toy_Decode (out : list byte) : option (Response * bool) :=
  match out with
  | x7b :: _ => Some (MkResponse 1 "-----BEGIN CERTIFICATE-----" [MkCapability "ed25519" ["message"]] [] "", true)
  | _ => Some (MkResponse 1 "" [] out "", true)
  end.

Definition toy_run : list event -> @provider (list byte) -> option provider :=
  run_events (fun _ => Some []) toy_Decode toy_Sum toy_verify (fun k _ => toy_verify k) (fun k _ => toy_verify k) toy_verify toy_pem (fun _ => Some toy_certificate) toy_settings.

Definition toy_helper (out : list byte) : helper := MkHelper (Some (true, 493)) (fun _ => Some "/root") [out] [] false Exited.

Definition toy_events : list event :=
  [Load; Load; Step 0 Go; Step 1 Go; Step 1 Go; Step 1 Go; Step 1 Go; Step 1 (Ended (toy_helper [x7b])); Step 1 (At 50); Step 1 Go; Step 0 Go; Step 0 Go;
   Sign 0 [x6d] (Some (HashOpts 0)) true; Step 2 Go; Step 2 Go; Step 2 (Ended (toy_helper [x4b; x6d]))].

Definition toy_identity : @identity (list byte) := MkIdentity [toy_raw] toy_certificate [2055] {["ed25519" := ["message"]]}.

(** The settings are those of the options. *)
Example toy_New : New (fun _ => None) false toy_options = Ok toy_settings.
Proof. vm_compute. reflexivity. Qed.

Lemma settings_bounded_witness : New (fun _ => None) false toy_options = Ok toy_settings /\ (1 <= se_gate toy_settings <= 32)%nat.
Proof. split; [exact toy_New|]. apply (settings_bounded (fun _ => None) false toy_options toy_settings toy_New). Defined.

Lemma external_signer_safe_witness : exists p, toy_run toy_events new_provider = Some p /\
  pv_calls p !! 2%nat = Some (Signed toy_identity [x6d] (Some (HashOpts 0)) true (Ok [x4b; x6d])) /\
  enrolled toy_Sum toy_settings toy_identity /\
  authentic toy_Sum toy_verify (fun k _ => toy_verify k) (fun k _ => toy_verify k) toy_verify toy_identity [x6d] (Some (HashOpts 0)) true [x4b; x6d].
Proof.
  destruct (toy_run toy_events new_provider) as [p|] eqn:E; [|vm_compute in E; discriminate E]. exists p. split; [reflexivity|].
  assert (Hc : pv_calls p !! 2%nat = Some (Signed toy_identity [x6d] (Some (HashOpts 0)) true (Ok [x4b; x6d]))) by (vm_compute in E; injection E as <-; vm_compute; reflexivity).
  split; [exact Hc|]. destruct (external_signer_safe _ _ _ _ _ _ _ _ _ _ _ _ E) as (_ & _ & _ & H). exact (H _ _ _ _ _ _ Hc).
Defined.

Lemma signing_requests_witness : exists a dg request,
  sign_request toy_Sum toy_identity [x6d] (Some (HashOpts 0)) true = Ok (a, dg, request) /\ dg = digest toy_Sum a [x6d] /\ rq_Algorithm request = al_name a.
Proof.
  destruct (sign_request toy_Sum toy_identity [x6d] (Some (HashOpts 0)) true) as [[[a dg] request]|] eqn:E; [|vm_compute in E; discriminate E]. exists a, dg, request.
  split; [reflexivity|]. destruct (fun H1 H2 => signing_requests toy_Sum toy_settings H1 toy_identity _ _ _ _ _ _ H2 E) as (_ & _ & H1 & H2 & _).
  - intros h m _. unfold toy_Sum. rewrite length_take_le; [unfold hash_size; repeat case_match; lia|]. rewrite length_app, length_replicate. unfold hash_size. repeat case_match; lia.
  - apply (parse_enrolled toy_Sum toy_pem (fun _ => Some toy_certificate) toy_settings 50 (MkResponse 1 "-----BEGIN CERTIFICATE-----" [MkCapability "ed25519" ["message"]] [] "")). vm_compute. reflexivity.
  - split; [exact H1|exact H2].
Defined.
