(* ===== verification/Cors.v ===== *)
(** * Cors: the HTTP CORS policy of [httpcors/cors.go]

    [Normalize] and [normalizeOrigin] validate a configuration, [New] compiles
    it, [Prepare]/[Preflight]/[Wrap] apply it to a request, and [responseWriter]
    decides the response headers when the status line is committed.
    [httpguts.ValidHeaderFieldName] (golang.org/x/net) is a parameter. *)

From S2P Require Import Prelude GoStrings GoURL.

Record Config := MkConfig {
  AllowedOrigins : list string;
  AllowedMethods : list string;
  AllowedHeaders : list string;
  ExposedHeaders : list string;
  AllowCredentials : bool;
  MaxAge : Z;
}.

#[export] Instance cors_config_eq_dec : EqDecision Config.
Proof. solve_decision. Defined.

Inductive cors_error :=
| NoOrigins
| MaxAgeRange
| TooManyEntries
| TooManyBytes
| BadOrigin
| BadOriginPort
| BadToken
| UnsupportedMethod (m : string).

#[export] Instance cors_error_eq_dec : EqDecision cors_error.
Proof. solve_decision. Defined.

(** [Clone] on a pointer: the copy shares no storage, so it is the value. *)
Definition Clone (c : option Config) : option Config :=
  match c with
  | None => None
  | Some c => Some (MkConfig (AllowedOrigins c) (AllowedMethods c) (AllowedHeaders c)
                             (ExposedHeaders c) (AllowCredentials c) (MaxAge c))
  end.

(** ** HTTP headers *)

Definition token_byte (b : byte) : bool := is_alnum b || mem_byte b (s2b "!#$%&'*+-.^_`|~").

Fixpoint canonical_bytes (upper : bool) (s : list byte) : list byte :=
  match s with
  | [] => []
  | b :: r => (if upper then upper_byte b else lower_byte b) :: canonical_bytes (byte_eqb b x2d) r
  end.

(** [http.CanonicalHeaderKey]: names with other bytes are left alone. *)
Definition CanonicalHeaderKey (s : string) : string :=
  if forallb token_byte (s2b s) then b2s (canonical_bytes true (s2b s)) else s.

(** [http.Header]: values by canonical name. *)
Abbreviation headers := (gmap string (list string)).

Definition h_Values (h : headers) (k : string) : list string := default [] (h !! CanonicalHeaderKey k).
Definition h_Get (h : headers) (k : string) : string := default "" (head (h_Values h k)).
Definition h_Set (h : headers) (k v : string) : headers := <[CanonicalHeaderKey k := [v]]> h.
Definition h_Add (h : headers) (k v : string) : headers :=
  <[CanonicalHeaderKey k := h_Values h k ++ [v]]> h.
Definition h_Del (h : headers) (k : string) : headers := delete (CanonicalHeaderKey k) h.

Definition EqualFold (a b : string) : bool := bool_decide (ToLower a = ToLower b).

Definition vary_has (h : headers) (value : string) : bool :=
  existsb (fun field =>
    existsb (fun token => EqualFold (TrimSpace token) value || bool_decide (TrimSpace token = "*"))
            (Split field x2c)) (h_Values h "Vary").

Definition addVary (h : headers) (value : string) : headers :=
  if vary_has h value then h else h_Add h "Vary" value.

(** ** Origins *)

Definition origin_forbidden : list byte := [x2a; x5c; x0d; x0a; x09; x20; x23; x3f].

Definition normalizeOrigin (value : string) : result cors_error string :=
  match url_Parse (s2b value) with
  | None => Err BadOrigin
  | Some u =>
      if negb (bool_decide (u_scheme u = s2b "http") || bool_decide (u_scheme u = s2b "https"))
         || bool_decide (u_host u = []) || bool_decide (url_Hostname u = [])
         || has_prefix [x3a] (rev (u_host u))
         || match u_user u with Some _ => true | None => false end
         || negb (bool_decide (u_path u = [])) || negb (bool_decide (u_rawquery u = []))
         || u_forcequery u || negb (bool_decide (u_fragment u = []))
         || existsb (fun b => mem_byte b origin_forbidden) (s2b value)
      then Err BadOrigin
      else
        let port := url_Port u in
        let fin (host : list byte) := b2s (u_scheme u ++ s2b "://" ++ (lower_byte <$> host)) in
        if bool_decide (port = []) then Ok (fin (u_host u))
        else match Atoi (b2s port) with
             | None => Err BadOriginPort
             | Some n =>
                 if (n <? 1) || (n >? 65535) then Err BadOriginPort
                 else if (bool_decide (u_scheme u = s2b "https") && bool_decide (port = s2b "443"))
                         || (bool_decide (u_scheme u = s2b "http") && bool_decide (port = s2b "80"))
                 then Ok (fin (s2b (TrimSuffix (b2s (u_host u)) (b2s (x3a :: port)))))
                 else Ok (fin (u_host u))
             end
  end.

(** ** Configurations *)

Section Policy.
Variable ValidHeaderFieldName : string -> bool.

(** One value of list number [group] (0 origins, 1 methods, 2 allowed and 3
    exposed headers). *)
Definition normalize_value (group : nat) (value : string) : result cors_error string :=
  match group with
  | O => normalizeOrigin value
  | _ =>
      if bool_decide (value = "*") || negb (ValidHeaderFieldName value) then Err BadToken
      else if Nat.eqb group 1 then
        let m := ToUpper value in
        if bool_decide (m = "CONNECT") || bool_decide (m = "TRACE") || bool_decide (m = "TRACK")
        then Err (UnsupportedMethod m) else Ok m
      else Ok (CanonicalHeaderKey value)
  end.

(** The inner loop: the running byte count and the rewritten entries. *)
Fixpoint normalize_values (group : nat) (size : Z) (values : list string) : result cors_error (Z * list string) :=
  match values with
  | [] => Ok (size, [])
  | v :: r =>
      let size' := size + slen v in
      if size' >? 16384 then Err TooManyBytes
      else let? v' := normalize_value group v in
           let? x := normalize_values group size' r in
           Ok (fst x, v' :: snd x)
  end.

Definition normalize_group (group : nat) (size : Z) (values : list string) : result cors_error (Z * list string) :=
  if Z.of_nat (length values) >? 128 then Err TooManyEntries else normalize_values group size values.

Definition Normalize (c : option Config) : result cors_error (option Config) :=
  match Clone c with
  | None => Ok None
  | Some c =>
      if bool_decide (AllowedOrigins c = []) then Err NoOrigins
      else if (MaxAge c <? 0) || (MaxAge c >? 86400) then Err MaxAgeRange
      else
        let methods := match AllowedMethods c with [] => ["GET"; "HEAD"; "POST"] | m => m end in
        let hdrs := match AllowedHeaders c with [] => ["Authorization"; "Content-Type"] | h => h end in
        let? o := normalize_group 0 0 (AllowedOrigins c) in
        let? m := normalize_group 1 (fst o) methods in
        let? h := normalize_group 2 (fst m) hdrs in
        let? e := normalize_group 3 (fst h) (ExposedHeaders c) in
        Ok (Some (MkConfig (snd o) (snd m) (snd h) (snd e) (AllowCredentials c) (MaxAge c)))
  end.

(** ** Policies *)

Record Policy := MkPolicy {
  origins : gset string;
  methods : gset string;
  hdr_names : gset string;
  allowMethods : string;
  allowHeaders : string;
  exposeHeaders : string;
  credentials : bool;
  maxAge : string;
}.

Definition New (c : option Config) : result cors_error (option Policy) :=
  match Normalize c with
  | Err e => Err e
  | Ok None => Ok None
  | Ok (Some c) =>
      Ok (Some {|
        origins := list_to_set (AllowedOrigins c);
        methods := list_to_set (AllowedMethods c);
        hdr_names := list_to_set (ToLower <$> AllowedHeaders c);
        allowMethods := Join (AllowedMethods c) ", ";
        allowHeaders := Join (AllowedHeaders c) ", ";
        exposeHeaders := Join (ExposedHeaders c) ", ";
        credentials := AllowCredentials c;
        maxAge := Itoa (MaxAge c) |})
  end.

(** ** Requests and the response writer *)

Record request := MkRequest {
  r_Method : string;
  r_Header : headers;
  r_Host : string;
  r_TLS : bool;
}.

(** [rw_header] is the header map shared with the wrapped writer; [rw_sent]
    records the calls that reached the wrapped writer's [WriteHeader] with the
    headers at that moment. *)
Record responseWriter := MkRW {
  rw_policy : Policy;
  rw_origin : string;
  rw_preflight : bool;
  rw_written : bool;
  rw_header : headers;
  rw_sent : list (Z * headers);
}.

Definition is_cors_header (name : string) : bool := HasPrefix (ToLower name) "access-control-".

Definition strip_cors (h : headers) : headers := filter (fun kv => is_cors_header (fst kv) = false) h.

(** The headers [WriteHeader(status)] leaves in the map. *)
Definition cors_headers (w : responseWriter) (status : Z) : headers :=
  let h := addVary (strip_cors (rw_header w)) "Origin" in
  let h := if rw_preflight w
           then addVary (addVary h "Access-Control-Request-Method") "Access-Control-Request-Headers"
           else h in
  if bool_decide (rw_origin w = "") then h
  else
    let h := h_Set h "Access-Control-Allow-Origin" (rw_origin w) in
    let h := if credentials (rw_policy w) then h_Set h "Access-Control-Allow-Credentials" "true" else h in
    if rw_preflight w && (200 <=? status) && (status <? 300) then
      h_Set (h_Set (h_Set h "Access-Control-Allow-Methods" (allowMethods (rw_policy w)))
                   "Access-Control-Allow-Headers" (allowHeaders (rw_policy w)))
            "Access-Control-Max-Age" (maxAge (rw_policy w))
    else if negb (rw_preflight w) && negb (bool_decide (exposeHeaders (rw_policy w) = ""))
    then h_Set h "Access-Control-Expose-Headers" (exposeHeaders (rw_policy w))
    else h.

Definition WriteHeader (w : responseWriter) (status : Z) : responseWriter :=
  if rw_written w then w
  else
    let h := cors_headers w status in
    {| w with rw_header := h;
              rw_written := (200 <=? status) || (status =? 101);
              rw_sent := rw_sent w ++ [(status, h)] |}.

(** [Write], [FlushError] and [Finish] commit a 200 first when nothing was. *)
Definition Write (w : responseWriter) : responseWriter := if rw_written w then w else WriteHeader w 200.
Definition FlushError (w : responseWriter) : responseWriter := if rw_written w then w else WriteHeader w 200.
Definition Hijack (w : responseWriter) (ok : bool) : responseWriter :=
  if ok then {| w with rw_written := true |} else w.
Definition Finish (w : responseWriter) : responseWriter := WriteHeader w 200.

(** [http.Error(w, _, status)]. *)
Definition http_Error (w : responseWriter) (status : Z) : responseWriter :=
  let h := h_Set (h_Set (h_Del (rw_header w) "Content-Length") "Content-Type" "text/plain; charset=utf-8")
                 "X-Content-Type-Options" "nosniff" in
  Write (WriteHeader {| w with rw_header := h |} status).

Definition new_writer (p : Policy) (h : headers) : responseWriter := MkRW p "" false false h [].

(** What [Prepare] hands back: the bare writer (no policy, or CONNECT) or the
    wrapped one, and whether the request goes on. *)
Inductive prepared :=
| Bare
| Wrapped (w : responseWriter) (go_on : bool).

Definition Prepare (p : option Policy) (h : headers) (r : request) (targetOrigin : string) : prepared :=
  match p with
  | None => Bare
  | Some p =>
      if bool_decide (r_Method r = "CONNECT") then Bare
      else
        let writer := new_writer p h in
        let os := h_Values (r_Header r) "Origin" in
        if bool_decide (os = []) then Wrapped writer true
        else
          let origin := normalizeOrigin (h_Get (r_Header r) "Origin") in
          let target := match normalizeOrigin targetOrigin with Ok t => t | Err _ => "" end in
          let sameOrigin := match origin with Ok o => bool_decide (o = target) | Err _ => false end in
          let known := match origin with Ok o => bool_decide (o ∈ origins p) | Err _ => false end in
          if negb (Nat.eqb (length os) 1) || negb (is_ok origin) || (negb sameOrigin && negb known)
          then Wrapped (http_Error writer 403) false
          else
            let writer := {| writer with
              rw_origin := h_Get (r_Header r) "Origin";
              rw_preflight := bool_decide (r_Method r = "OPTIONS")
                              && negb (bool_decide (h_Get (r_Header r) "Access-Control-Request-Method" = "")) |} in
            if negb sameOrigin && negb (rw_preflight writer) && negb (bool_decide (r_Method r ∈ methods p))
            then Wrapped (http_Error writer 403) false
            else Wrapped writer true
  end.

Definition requested_headers_ok (p : Policy) (r : request) : bool :=
  forallb (fun field =>
    forallb (fun header => let hd := TrimSpace header in
               ValidHeaderFieldName hd && bool_decide (ToLower hd ∈ hdr_names p))
            (Split field x2c))
    (h_Values (r_Header r) "Access-Control-Request-Headers").

(** [Preflight]: [None] when the request is not a preflight. *)
Definition Preflight (p : Policy) (w : responseWriter) (r : request) : option responseWriter :=
  if negb (bool_decide (r_Method r = "OPTIONS")) || bool_decide (h_Get (r_Header r) "Origin" = "")
     || bool_decide (h_Get (r_Header r) "Access-Control-Request-Method" = "")
  then None
  else
    let valid := Nat.eqb (length (h_Values (r_Header r) "Access-Control-Request-Method")) 1
                 && bool_decide (h_Get (r_Header r) "Access-Control-Request-Method" ∈ methods p)
                 && requested_headers_ok p r in
    if valid then Some (WriteHeader w 204) else Some (http_Error w 403).

(** ** [Wrap]: the wrapped application as a program over the writer *)

Inductive wop :=
| WHeader (k v : string)
| WStatus (status : Z)
| WBody
| WFlush
| WHijack (ok : bool).

Definition run_wop (w : responseWriter) (o : wop) : responseWriter :=
  match o with
  | WHeader k v => {| w with rw_header := h_Set (rw_header w) k v |}
  | WStatus s => WriteHeader w s
  | WBody => Write w
  | WFlush => FlushError w
  | WHijack ok => Hijack w ok
  end.

(** The outcome of a request under a policy: the final writer and whether the
    application ran; [None] when it ran on the bare writer. *)
Definition Wrap (p : Policy) (app : list wop) (h : headers) (r : request) : option (responseWriter * bool) :=
  let scheme := if r_TLS r then "https" else "http" in
  let target := match normalizeOrigin (scheme +:+ "://" +:+ r_Host r) with Ok t => t | Err _ => "" end in
  match Prepare (Some p) h r target with
  | Bare => None
  | Wrapped w false => Some (w, false)
  | Wrapped w true =>
      match Preflight p w r with
      | Some w' => Some (w', false)
      | None => Some (Finish (fold_left run_wop app w), true)
      end
  end.
End Policy.

(** ** What reaches the browser *)

Abbreviation ACAO := "Access-Control-Allow-Origin".
Abbreviation ACAC := "Access-Control-Allow-Credentials".

(** The browser's origin is admitted: a single, valid [Origin] that is the
    service's own or one the policy lists. *)
Definition admitted (p : Policy) (r : request) (target : string) : Prop :=
  exists v o, h_Values (r_Header r) "Origin" = [v] /\ normalizeOrigin v = Ok o /\
              (o = target \/ o ∈ origins p).

Definition target_of (r : request) : string :=
  match normalizeOrigin ((if r_TLS r then "https" else "http") +:+ "://" +:+ r_Host r) with
  | Ok t => match normalizeOrigin t with Ok t' => t' | Err _ => "" end
  | Err _ => match normalizeOrigin "" with Ok t' => t' | Err _ => "" end
  end.

Definition known_cors_keys : list string :=
  [ACAO; ACAC; "Access-Control-Allow-Methods"; "Access-Control-Allow-Headers"; "Access-Control-Max-Age";
   "Access-Control-Expose-Headers"].

Lemma canonical_keys :
  (CanonicalHeaderKey "Vary" = "Vary") /\ (CanonicalHeaderKey "Origin" = "Origin") /\
  Forall (fun k => CanonicalHeaderKey k = k /\ is_cors_header k = true) known_cors_keys.
Proof. repeat (constructor || split); vm_compute; reflexivity. Qed.

Lemma addVary_other h v k : k <> "Vary" -> addVary h v !! k = h !! k.
Proof.
  intros Hk. unfold addVary, h_Add. case_match; [done|].
  replace (CanonicalHeaderKey "Vary") with "Vary" by (vm_compute; reflexivity).
  by rewrite lookup_insert_ne.
Qed.

Lemma strip_cors_None h k : is_cors_header k = true -> strip_cors h !! k = None.
Proof.
  intros Hk. apply map_lookup_filter_None. right. intros x _. simpl. congruence.
Qed.

Lemma h_Set_lookup h k v k' :
  CanonicalHeaderKey k = k -> h_Set h k v !! k' = if decide (k = k') then Some [v] else h !! k'.
Proof. intros Hk. unfold h_Set. rewrite Hk. apply lookup_insert. Qed.

(** The committed headers, one lookup at a time. *)
Definition base_headers (w : responseWriter) : headers :=
  let h := addVary (strip_cors (rw_header w)) "Origin" in
  if rw_preflight w then addVary (addVary h "Access-Control-Request-Method") "Access-Control-Request-Headers" else h.

Lemma base_headers_cors w k : is_cors_header k = true -> base_headers w !! k = None.
Proof.
  intros Hk. assert (k <> "Vary") by (intros ->; vm_compute in Hk; done).
  unfold base_headers. case_match; rewrite !addVary_other by done; by apply strip_cors_None.
Qed.

Ltac cors_lookup :=
  repeat (rewrite h_Set_lookup by (vm_compute; reflexivity);
          rewrite ?decide_True by done; rewrite ?decide_False by done; simpl).

Lemma cors_headers_origin w s :
  cors_headers w s !! ACAO = if bool_decide (rw_origin w = "") then None else Some [rw_origin w].
Proof.
  unfold cors_headers. fold (base_headers w). case_bool_decide.
  { apply base_headers_cors. by vm_compute. }
  repeat case_match; cors_lookup; done.
Qed.

Lemma cors_headers_credentials w s :
  cors_headers w s !! ACAC =
  if bool_decide (rw_origin w = "") then None
  else if credentials (rw_policy w) then Some ["true"] else None.
Proof.
  assert (base_headers w !! ACAC = None) by (apply base_headers_cors; by vm_compute).
  unfold cors_headers. fold (base_headers w). case_bool_decide; [done|].
  repeat case_match; cors_lookup; done.
Qed.

(** Every response a writer committed so far obeys its own origin. *)
Definition writer_sound (w : responseWriter) : Prop :=
  Forall (fun sh => (snd sh) !! ACAO = (if bool_decide (rw_origin w = "") then None else Some [rw_origin w]) /\
                    (snd sh) !! ACAC = (if bool_decide (rw_origin w = "") then None
                                        else if credentials (rw_policy w) then Some ["true"] else None))
         (rw_sent w).

Lemma WriteHeader_sound w s : writer_sound w -> writer_sound (WriteHeader w s).
Proof.
  intros H. unfold WriteHeader. destruct (rw_written w); [done|]. unfold writer_sound. simpl.
  apply Forall_app. split; [done|]. constructor; [|constructor]. simpl.
  by rewrite cors_headers_origin, cors_headers_credentials.
Qed.

Lemma WriteHeader_same w s :
  rw_origin (WriteHeader w s) = rw_origin w /\ rw_policy (WriteHeader w s) = rw_policy w.
Proof. unfold WriteHeader. by case_match. Qed.

Lemma run_wop_sound w o :
  writer_sound w -> writer_sound (run_wop w o) /\ rw_origin (run_wop w o) = rw_origin w /\
                    rw_policy (run_wop w o) = rw_policy w.
Proof.
  intros H. destruct o; simpl; unfold Write, FlushError, Hijack;
    repeat case_match; auto using WriteHeader_sound; split; auto using WriteHeader_sound, WriteHeader_same.
Qed.

Lemma run_app_sound app w :
  writer_sound w -> writer_sound (fold_left run_wop app w) /\
  rw_origin (fold_left run_wop app w) = rw_origin w /\ rw_policy (fold_left run_wop app w) = rw_policy w.
Proof.
  revert w. induction app as [|o app IH]; intros w H; simpl; [done|].
  destruct (run_wop_sound w o H) as (Hs & Ho & Hp).
  destruct (IH _ Hs) as (? & -> & ->). by rewrite Ho, Hp.
Qed.

Lemma http_Error_sound w s :
  writer_sound w -> writer_sound (http_Error w s) /\ rw_origin (http_Error w s) = rw_origin w /\
                    rw_policy (http_Error w s) = rw_policy w.
Proof.
  intros H. unfold http_Error, Write.
  set (w0 := {| w with rw_header := _ |}).
  assert (H0 : writer_sound w0) by exact H.
  pose proof (WriteHeader_same w0 s) as [Ho Hp].
  case_match.
  - split; [by apply WriteHeader_sound|by rewrite Ho, Hp].
  - pose proof (WriteHeader_same (WriteHeader w0 s) 200) as [-> ->].
    split; [by apply WriteHeader_sound, WriteHeader_sound|by rewrite Ho, Hp].
Qed.

Definition own_origin (r : request) (target : string) : Prop :=
  exists o, normalizeOrigin (h_Get (r_Header r) "Origin") = Ok o /\ o = target.

Lemma normalizeOrigin_empty : normalizeOrigin "" = Err BadOrigin.
Proof. by vm_compute. Qed.

Lemma normalizeOrigin_nonempty v o : normalizeOrigin v = Ok o -> v <> "".
Proof. intros H ->. by rewrite normalizeOrigin_empty in H. Qed.

Lemma h_Get_single h k v : h_Values h k = [v] -> h_Get h k = v.
Proof. unfold h_Get. by intros ->. Qed.

(** Everything [Prepare] guarantees about the writer it returns. *)
Record prepare_post (p : Policy) (r : request) (target : string) (w : responseWriter) (go : bool) : Prop := {
  pp_sound : writer_sound w;
  pp_policy : rw_policy w = p;
  pp_origin : rw_origin w = "" \/ (rw_origin w = h_Get (r_Header r) "Origin" /\ admitted p r target);
  pp_refused : go = false -> exists hs, rw_sent w = [(403, hs)];
  pp_admitted : go = true -> rw_sent w = [] /\ rw_written w = false /\
    (h_Values (r_Header r) "Origin" = [] \/
     (admitted p r target /\
      (own_origin r target \/ r_Method r ∈ methods p \/
       (r_Method r = "OPTIONS" /\ h_Get (r_Header r) "Access-Control-Request-Method" <> ""))));
}.

Lemma http_Error_sent w : rw_written w = false -> rw_sent w = [] ->
  exists hs, rw_sent (http_Error w 403) = [(403, hs)].
Proof. intros Hw Hs. eexists. unfold http_Error, Write, WriteHeader. simpl. rewrite Hw. simpl. by rewrite Hs. Qed.

Lemma admitted_intro p r target os o :
  h_Values (r_Header r) "Origin" = os -> Nat.eqb (length os) 1 = true ->
  normalizeOrigin (h_Get (r_Header r) "Origin") = Ok o -> (o = target \/ o ∈ origins p) ->
  admitted p r target.
Proof.
  intros Hos Hl Hn Ho. destruct os as [|v [|? ?]]; try done.
  exists v, o. rewrite (h_Get_single _ _ _ Hos) in Hn. done.
Qed.

Lemma prepare_refused p r target o pf h :
  (o = "" \/ (o = h_Get (r_Header r) "Origin" /\ admitted p r target)) ->
  prepare_post p r target (http_Error (MkRW p o pf false h []) 403) false.
Proof.
  intros Ho. destruct (http_Error_sound (MkRW p o pf false h []) 403 ltac:(constructor)) as (? & Eo & Ep).
  constructor; [done|done|by rewrite Eo|intros _; by apply http_Error_sent|done].
Qed.

Lemma prepare_passed p r target o pf h :
  (o = "" \/ (o = h_Get (r_Header r) "Origin" /\ admitted p r target)) ->
  (h_Values (r_Header r) "Origin" = [] \/
   (admitted p r target /\
    (own_origin r target \/ r_Method r ∈ methods p \/
     (r_Method r = "OPTIONS" /\ h_Get (r_Header r) "Access-Control-Request-Method" <> "")))) ->
  prepare_post p r target (MkRW p o pf false h []) true.
Proof. intros Ho Hc. constructor; simpl; [constructor|done|done|done|done]. Qed.

Lemma Prepare_post p h r t w go :
  Prepare (Some p) h r t = Wrapped w go ->
  prepare_post p r (match normalizeOrigin t with Ok t' => t' | Err _ => "" end) w go.
Proof.
  unfold Prepare, new_writer. case_bool_decide; [done|]. case_bool_decide as Hos.
  { intros [= <- <-]. apply prepare_passed; auto. }
  set (target := match normalizeOrigin t with Ok t' => t' | Err _ => "" end).
  destruct (normalizeOrigin (h_Get (r_Header r) "Origin")) as [o|e] eqn:En; simpl.
  2: { rewrite orb_true_r. simpl. intros [= <- <-]. apply prepare_refused; auto. }
  destruct (Nat.eqb (length _) 1) eqn:Hl; simpl.
  2: { intros [= <- <-]. apply prepare_refused; auto. }
  destruct (bool_decide (o = target)) eqn:Hsame; simpl.
  { apply bool_decide_eq_true in Hsame. intros [= <- <-].
    assert (Ha : admitted p r target) by (eapply admitted_intro; eauto).
    apply prepare_passed; [auto|]. right. split; [done|]. left. by exists o. }
  destruct (bool_decide (o ∈ origins p)) eqn:Hin; simpl.
  2: { intros [= <- <-]. apply prepare_refused; auto. }
  apply bool_decide_eq_true in Hin.
  assert (Ha : admitted p r target) by (eapply admitted_intro; eauto).
  destruct (bool_decide (r_Method r = "OPTIONS") && _) eqn:Hpf; simpl;
    [|destruct (bool_decide (r_Method r ∈ methods p)) eqn:Hm; simpl]; intros [= <- <-].
  - apply prepare_passed; [auto|]. right. split; [done|]. right. right.
    apply andb_true_iff in Hpf as [Ho Hr].
    apply bool_decide_eq_true in Ho. apply negb_true_iff, bool_decide_eq_false in Hr. done.
  - apply bool_decide_eq_true in Hm. apply prepare_passed; auto.
  - apply prepare_refused; auto.
Qed.

Lemma Preflight_post V p w r w' :
  Preflight V p w r = Some w' -> writer_sound w ->
  writer_sound w' /\ rw_origin w' = rw_origin w /\ rw_policy w' = rw_policy w.
Proof.
  unfold Preflight. intros H Hs. repeat (case_match; simplify_eq);
    auto using http_Error_sound; split; auto using WriteHeader_sound, WriteHeader_same.
Qed.

Lemma Wrap_writer V p app h r w ran :
  Wrap V p app h r = Some (w, ran) ->
  writer_sound w /\ rw_policy w = p /\
  (rw_origin w = "" \/ (rw_origin w = h_Get (r_Header r) "Origin" /\ admitted p r (target_of r))).
Proof.
  unfold Wrap. set (t := match normalizeOrigin _ with Ok t => t | Err _ => "" end).
  destruct (Prepare _ _ _ _) as [|w0 go] eqn:Ep; [done|]. apply Prepare_post in Ep.
  assert (Ht : match normalizeOrigin t with Ok t' => t' | Err _ => "" end = target_of r)
    by (unfold t, target_of; by destruct (normalizeOrigin (_ +:+ _))).
  rewrite Ht in Ep. destruct Ep as [Hs Hp Ho _ _].
  destruct go; [|by intros [= <- <-]].
  destruct (Preflight V p w0 r) as [w1|] eqn:Epf; intros [= <- <-].
  - destruct (Preflight_post _ _ _ _ _ Epf Hs) as (? & -> & ->). done.
  - destruct (run_app_sound app w0 Hs) as (Hs' & Ho' & Hp'). unfold Finish.
    pose proof (WriteHeader_same (fold_left run_wop app w0) 200) as [-> ->].
    rewrite Ho', Hp'. split; [by apply WriteHeader_sound|done].
Qed.

(** C34: whatever headers the wrapped application writes, no response carries
    [Access-Control-Allow-Origin] unless the browser's origin is admitted (the
    service's own, or listed by the policy), and then its value is exactly the
    origin the browser sent; [Access-Control-Allow-Credentials] appears only
    with it and only when the policy allows credentials. *)
Theorem wrap_cors_sound V p app h r w ran st hs :
  Wrap V p app h r = Some (w, ran) -> (st, hs) ∈ rw_sent w ->
  match hs !! ACAO with
  | Some v => v = [h_Get (r_Header r) "Origin"] /\ admitted p r (target_of r) /\
              hs !! ACAC = (if credentials p then Some ["true"] else None)
  | None => hs !! ACAC = None
  end.
Proof.
  intros H Hin. destruct (Wrap_writer _ _ _ _ _ _ _ H) as (Hs & Hp & Ho).
  unfold writer_sound in Hs. rewrite Forall_forall in Hs.
  destruct (Hs _ Hin) as [Eo Ec]. simpl in Eo, Ec. rewrite Eo, Ec, Hp.
  destruct (bool_decide (rw_origin w = "")) eqn:E; [done|].
  apply bool_decide_eq_false in E. destruct Ho as [?|[-> Ha]]; done.
Qed.

(** The application runs only when the request has no [Origin], or its
    origin is admitted and either is the service's own or the method is one the
    policy lists; a refused request gets exactly one response, a 403. *)
Theorem wrap_application_admission V p app h r w ran :
  Wrap V p app h r = Some (w, ran) ->
  if ran then
    h_Values (r_Header r) "Origin" = [] \/
    (admitted p r (target_of r) /\ (own_origin r (target_of r) \/ r_Method r ∈ methods p))
  else exists st hs, rw_sent w = [(st, hs)] /\ (st = 403 \/ (st = 204 /\ r_Method r = "OPTIONS" /\
         h_Get (r_Header r) "Access-Control-Request-Method" ∈ methods p /\ requested_headers_ok V p r = true)).
Proof.
  unfold Wrap. set (t := match normalizeOrigin _ with Ok t => t | Err _ => "" end).
  destruct (Prepare _ _ _ _) as [|w0 go] eqn:Ep; [done|]. apply Prepare_post in Ep.
  assert (Ht : match normalizeOrigin t with Ok t' => t' | Err _ => "" end = target_of r)
    by (unfold t, target_of; by destruct (normalizeOrigin (_ +:+ _))).
  rewrite Ht in Ep. destruct Ep as [Hs Hp Ho Href Hadm].
  destruct go.
  2: { intros [= <- <-]. destruct (Href eq_refl) as [hs ->]. exists 403, hs. auto. }
  destruct (Hadm eq_refl) as (Hsent & Hw & Hcase). clear Href Hadm.
  unfold Preflight. destruct (_ || _) eqn:Hnp.
  - intros [= <- <-]. destruct Hcase as [?|[Ha [?|[?|[Hopt Hreq]]]]]; auto.
    exfalso. destruct Ha as (v & o & Hv & Hn & _). pose proof (normalizeOrigin_nonempty _ _ Hn).
    rewrite (h_Get_single _ _ _ Hv), Hopt in Hnp. revert Hnp.
    rewrite (bool_decide_eq_false_2 (v = "")), (bool_decide_eq_false_2 (_ = "")),
      bool_decide_eq_true_2 by done. done.
  - apply orb_false_iff in Hnp as [Hnp _]. apply orb_false_iff in Hnp as [Hopt _].
    apply negb_false_iff, bool_decide_eq_true in Hopt.
    destruct (_ && requested_headers_ok V p r) eqn:Hv; intros [= <- <-].
    + apply andb_true_iff in Hv as [Hv Hh]. apply andb_true_iff in Hv as [_ Hm].
      apply bool_decide_eq_true in Hm. unfold WriteHeader. rewrite Hw. simpl. rewrite Hsent.
      do 2 eexists. split; [reflexivity|]. by right.
    + destruct (http_Error_sent w0 Hw Hsent) as [hs ->]. exists 403, hs. auto.
Qed.

Definition sample_policy : Policy :=
  MkPolicy {["https://app.example"]} {["GET"]} {["content-type"]} "GET" "Content-Type" "" true "0".

Definition sample_request : request :=
  MkRequest "GET" {["Origin" := ["https://app.example"]]} "svc.example" true.

Definition sample_app : list wop := [WHeader ACAO "*"; WStatus 200; WBody].

Definition sample_response : responseWriter :=
  match Wrap (fun _ => true) sample_policy sample_app ∅ sample_request with
  | Some (w, _) => w
  | None => new_writer sample_policy ∅
  end.

Lemma wrap_cors_sound_witness :
  match (snd (default (0, ∅) (head (rw_sent sample_response))) : headers) !! ACAO with
  | Some v => v = [h_Get (r_Header sample_request) "Origin"] /\
              admitted sample_policy sample_request (target_of sample_request) /\
              (snd (default (0, ∅) (head (rw_sent sample_response))) : headers) !! ACAC
              = (if credentials sample_policy then Some ["true"] else None)
  | None => (snd (default (0, ∅) (head (rw_sent sample_response))) : headers) !! ACAC = None
  end.
Proof.
  apply (wrap_cors_sound (fun _ => true) sample_policy sample_app ∅ sample_request sample_response true 200
           (snd (default (0, ∅) (head (rw_sent sample_response))))).
  - vm_compute. reflexivity.
  - assert (H : map fst (rw_sent sample_response) = [200]) by (vm_compute; reflexivity).
    destruct (rw_sent sample_response) as [|[st h] l]; [discriminate H|]. injection H as -> _. apply list_elem_of_here.
Defined.

Definition foreign_request : request :=
  MkRequest "GET" {["Origin" := ["https://evil.example"]]} "svc.example" true.

Lemma wrap_application_admission_witness :
  exists st hs, rw_sent (http_Error (new_writer sample_policy ∅) 403) = [(st, hs)] /\
    (st = 403 \/ (st = 204 /\ r_Method foreign_request = "OPTIONS" /\
       h_Get (r_Header foreign_request) "Access-Control-Request-Method" ∈ methods sample_policy /\
       requested_headers_ok (fun _ => true) sample_policy foreign_request = true)).
Proof.
  apply (wrap_application_admission (fun _ => true) sample_policy sample_app ∅ foreign_request
           (http_Error (new_writer sample_policy ∅) 403) false).
  vm_compute. reflexivity.
Defined.

(** ** What [Normalize] accepts *)

Definition list_bytes (l : list string) : Z := fold_right (fun s n => slen s + n) 0 l.

Lemma normalize_values_spec V group size values size' out :
  normalize_values V group size values = Ok (size', out) ->
  size' = size + list_bytes values /\ (values <> [] -> size' <= 16384) /\
  Forall2 (fun v v' => normalize_value V group v = Ok v') values out.
Proof.
  revert size size' out. induction values as [|v r IH]; intros size size' out; simpl.
  { intros [= <- <-]. split; [lia|]. done. }
  destruct (Z.gtb_spec (size + slen v) 16384); [done|].
  destruct (normalize_value V group v) as [v'|] eqn:Ev; [|done].
  destruct (normalize_values V group _ r) as [[s2 o2]|] eqn:Er; [|done].
  intros [= <- <-]. destruct (IH _ _ _ Er) as (-> & Hb & HF). split; [lia|].
  split; [|by constructor]. intros _. destruct r; simpl in *; [lia|]. by apply Hb.
Qed.

Lemma normalize_group_spec V group size values size' out :
  normalize_group V group size values = Ok (size', out) ->
  (length out <= 128)%nat /\ size' = size + list_bytes values /\ (values <> [] -> size' <= 16384) /\
  Forall2 (fun v v' => normalize_value V group v = Ok v') values out.
Proof.
  unfold normalize_group. destruct (Z.gtb_spec (Z.of_nat (length values)) 128); [done|].
  intros (-> & Hb & HF)%normalize_values_spec. apply Forall2_length in HF as Hl. split; [lia|]. done.
Qed.

Definition method_ok (m : string) : Prop :=
  m <> "CONNECT" /\ m <> "TRACE" /\ m <> "TRACK" /\ exists v, m = ToUpper v.

(** The policy a normalized configuration promises to be. *)
Record normalized (c n : Config) : Prop := {
  nz_bounded : (length (AllowedOrigins n) <= 128)%nat /\ (length (AllowedMethods n) <= 128)%nat /\
               (length (AllowedHeaders n) <= 128)%nat /\ (length (ExposedHeaders n) <= 128)%nat;
  nz_origins : AllowedOrigins n <> [] /\
               Forall2 (fun v o => normalizeOrigin v = Ok o) (AllowedOrigins c) (AllowedOrigins n);
  nz_methods : AllowedMethods n <> [] /\ Forall method_ok (AllowedMethods n);
  nz_headers : AllowedHeaders n <> [];
  nz_size : list_bytes (AllowedOrigins c) + list_bytes (AllowedMethods c)
            + list_bytes (AllowedHeaders c) + list_bytes (ExposedHeaders c) <= 16384;
  nz_age : 0 <= MaxAge n <= 86400;
  nz_same : AllowCredentials n = AllowCredentials c /\ MaxAge n = MaxAge c;
}.

Lemma list_bytes_nonneg l : 0 <= list_bytes l.
Proof. induction l; simpl; unfold slen in *; lia. Qed.

Lemma normalize_methods_ok V ms out :
  Forall2 (fun v v' => normalize_value V 1 v = Ok v') ms out -> Forall method_ok out.
Proof.
  induction 1 as [|v v' ms out Hv _ IH]; constructor; [|done]. simpl in Hv.
  repeat case_match; simplify_eq.
  match goal with H : _ || _ || _ = false |- _ =>
    apply orb_false_iff in H as [H ?]; apply orb_false_iff in H as [? ?] end.
  repeat match goal with H : bool_decide _ = false |- _ => apply bool_decide_eq_false in H end.
  repeat split; [done..|]. by eexists.
Qed.

Lemma Forall2_nonempty {A B} (P : A -> B -> Prop) l k : Forall2 P l k -> l <> [] -> k <> [].
Proof. by intros []. Qed.

(** A configuration [Normalize] accepts has between 1 and 128 origins, each
    in canonical form, only non-forbidden upper-case methods and at most 128 of
    each list; its configured bytes total at most 16384 and its max age is
    between 0 and 86400 seconds; credentials and max age are the caller's.  A
    [nil] configuration is left to the application. *)
Theorem normalize_accepts_bounded V c :
  match Normalize V c with
  | Ok (Some n) => exists c0, c = Some c0 /\ normalized c0 n
  | Ok None => c = None
  | Err _ => is_Some c
  end.
Proof.
  unfold Normalize. destruct c as [c|]; [|done].
  cbn [Clone AllowedOrigins AllowedMethods AllowedHeaders ExposedHeaders AllowCredentials MaxAge].
  case_bool_decide as Ho; [done|]. destruct (_ || _) eqn:Hage; [done|].
  set (methods0 := match AllowedMethods c with [] => _ | _ => _ end).
  set (hdrs0 := match AllowedHeaders c with [] => _ | _ => _ end).
  destruct (normalize_group V 0 0 _) as [[s1 o]|] eqn:E1; [|done].
  destruct (normalize_group V 1 _ _) as [[s2 m]|] eqn:E2; [|done].
  destruct (normalize_group V 2 _ _) as [[s3 h]|] eqn:E3; [|done].
  destruct (normalize_group V 3 _ _) as [[s4 e]|] eqn:E4; [|done].
  apply normalize_group_spec in E1 as (L1 & S1 & _ & F1), E2 as (L2 & S2 & _ & F2),
    E3 as (L3 & S3 & B3 & F3), E4 as (L4 & S4 & B4 & F4). cbn [fst snd] in *.
  assert (Hm : methods0 <> [] /\ list_bytes (AllowedMethods c) <= list_bytes methods0)
    by (unfold methods0; destruct (AllowedMethods c); [split; [done|by vm_compute]|done]).
  assert (Hh : hdrs0 <> [] /\ list_bytes (AllowedHeaders c) <= list_bytes hdrs0)
    by (unfold hdrs0; destruct (AllowedHeaders c); [split; [done|by vm_compute]|done]).
  exists c. split; [done|]. destruct Hm as [Hm Hm'], Hh as [Hh Hh'].
  constructor; cbn [AllowedOrigins AllowedMethods AllowedHeaders ExposedHeaders AllowCredentials MaxAge fst snd];
    eauto using Forall2_nonempty, normalize_methods_ok.
  - clearbody methods0 hdrs0. specialize (B3 Hh). destruct (decide (ExposedHeaders c = [])) as [He|He].
    + rewrite He in *. change (list_bytes []) with 0. lia.
    + specialize (B4 He). lia.
  - apply orb_false_iff in Hage as [?%Z.ltb_ge Hg]. destruct (Z.gtb_spec (MaxAge c) 86400); lia || done.
Qed.
