(* ===== verification/TunnelProps.v ===== *)
(** * TunnelProps: tunnel properties, their wire form and their text forms

    [tunnel_properties.go] (the property record, cloning and the validation done
    before a tunnel is created), [types.go] and the conversions of [helpers.go]
    to and from the protobuf messages, and the address formatting of [helpers.go].

    Named string types ([Protocol], [TunnelType], ...) are strings with the
    constants of the source: a value outside the constants is possible, as in Go.
    A pointer is an [option]; a slice is a list ([nil] and the empty slice are not
    told apart); the [Labels] map keeps [nil] apart from the empty map.  An
    instant ([time.Time]) is an abstract type with the protobuf timestamp
    conversions ([timestamppb.New], [AsTime]) as parameters. *)

From S2P Require Import Prelude GoStrings GoURL Cors.

(** ** Constants *)

Definition TunnelTypeBytestream := "bytestream".
Definition TunnelTypeDatagram := "datagram".
Definition ProtocolTLS := "tls".
Definition ProtocolTCP := "tcp".
Definition ProtocolDTLS := "dtls".
Definition ProtocolQUIC := "quic".
Definition ProtocolHTTP := "http".
Definition ProtocolWebTTY := "webtty".
Definition TLSModePassthrough := "passthrough".
Definition TLSModeTerminated := "terminated".
Definition HTTP1_1 := "http/1.1".
Definition HTTP2 := "h2c".
Definition HTTP3 := "h3".

(** ** The property record *)

Section Props.
Context {Time : Type}.

Record TunnelProperties := MkTunnelProperties {
  ID : option string;
  CreationDate : option Time;
  Name : option string;
  Type_ : option string;
  Publish : option bool;
  Protocol : option string;
  Labels : option (gmap string string);
  GeoIP : list string;
  TrustedIPs : list string;
  Host : option string;
  Hostname : option string;
  Port : option Z;
  TLSMode : option string;
  TLSALPNs : list string;
  TLSMinVersion : option string;
  TLSCiphers : list string;
  MTLSAuth : option bool;
  HTTPVersion : option string;
  HTTPCORS : option Config;
  HTTPUseTLS : option bool;
  UpstreamTLS : option bool;
  DatagramGuaranteedDelivery : option bool;
  AllowCrossRegionRouting : option bool;
  TokenAuth : option bool;
  RstreamAuth : option bool;
  ChallengeMode : option bool;
}.

Definition empty_props : TunnelProperties :=
  MkTunnelProperties None None None None None None None [] [] None None None None [] None [] None None None
    None None None None None None None.

Definition clonePtr {A} (value : option A) : option A :=
  match value with None => None | Some v => Some v end.

(** Go builds a fresh map holding the same entries. *)
Definition cloneStringMap (values : option (gmap string string)) : option (gmap string string) :=
  match values with
  | None => None
  | Some m => Some (map_fold (fun k v r => <[k := v]> r) ∅ m)
  end.

Definition cloneTunnelProperties (p : TunnelProperties) : TunnelProperties := {|
  ID := clonePtr (ID p);
  CreationDate := clonePtr (CreationDate p);
  Name := clonePtr (Name p);
  Type_ := clonePtr (Type_ p);
  Publish := clonePtr (Publish p);
  Protocol := clonePtr (Protocol p);
  Labels := cloneStringMap (Labels p);
  GeoIP := [] ++ GeoIP p;
  TrustedIPs := [] ++ TrustedIPs p;
  Host := clonePtr (Host p);
  Hostname := clonePtr (Hostname p);
  Port := clonePtr (Port p);
  TLSMode := clonePtr (TLSMode p);
  TLSALPNs := [] ++ TLSALPNs p;
  TLSMinVersion := clonePtr (TLSMinVersion p);
  TLSCiphers := [] ++ TLSCiphers p;
  MTLSAuth := clonePtr (MTLSAuth p);
  HTTPVersion := clonePtr (HTTPVersion p);
  HTTPCORS := Clone (HTTPCORS p);
  HTTPUseTLS := clonePtr (HTTPUseTLS p);
  UpstreamTLS := clonePtr (UpstreamTLS p);
  DatagramGuaranteedDelivery := clonePtr (DatagramGuaranteedDelivery p);
  AllowCrossRegionRouting := clonePtr (AllowCrossRegionRouting p);
  TokenAuth := clonePtr (TokenAuth p);
  RstreamAuth := clonePtr (RstreamAuth p);
  ChallengeMode := clonePtr (ChallengeMode p) |}.

Lemma clonePtr_id {A} (o : option A) : clonePtr o = o.
Proof. by destruct o. Qed.

Lemma cloneStringMap_id m : cloneStringMap m = m.
Proof.
  destruct m as [m|]; [|done]. simpl. f_equal.
  apply (map_fold_weak_ind (fun r m => r = m)); [done|]. by intros i x m' r _ ->.
Qed.

Lemma Clone_id c : Clone c = c.
Proof. destruct c as [[]|]; done. Qed.

Lemma cloneTunnelProperties_id p : cloneTunnelProperties p = p.
Proof.
  unfold cloneTunnelProperties. rewrite !clonePtr_id, cloneStringMap_id, Clone_id. by destruct p.
Qed.

(** ** The wire form *)

(** Wrapper messages ([wrapperspb]): a present value. *)
Record Wrapped (A : Type) := MkWrapped { Value : A }.
Arguments MkWrapped {A} _.
Arguments Value {A} _.

Context {Timestamp : Type} (timestamppb_New : Time -> Timestamp) (AsTime : Timestamp -> Time).

Record PbTunnelProperties := MkPb {
  pb_Id : option (Wrapped string);
  pb_CreationDate : option Timestamp;
  pb_Name : option (Wrapped string);
  pb_Type : option (Wrapped string);
  pb_Publish : option (Wrapped bool);
  pb_Protocol : option (Wrapped string);
  pb_Labels : option (gmap string string);
  pb_Geoip : list string;
  pb_TrustedIps : list string;
  pb_Host : option (Wrapped string);
  pb_Hostname : option (Wrapped string);
  pb_Port : option (Wrapped Z);
  pb_TlsMode : option (Wrapped string);
  pb_TlsAlpns : list string;
  pb_TlsMinVersion : option (Wrapped string);
  pb_TlsCiphers : list string;
  pb_MtlsAuth : option (Wrapped bool);
  pb_HttpVersion : option (Wrapped string);
  pb_HttpCors : option Config;
  pb_HttpUseTls : option (Wrapped bool);
  pb_UpstreamTls : option (Wrapped bool);
  pb_DatagramGuaranteedDelivery : option (Wrapped bool);
  pb_AllowCrossRegionRouting : option (Wrapped bool);
  pb_TokenAuth : option (Wrapped bool);
  pb_RstreamAuth : option (Wrapped bool);
  pb_ChallengeMode : option (Wrapped bool);
}.

(** [stringPbValueOrNil], [boolPbValueOrNil], [uint32PbValueOrNil]. *)
Definition pbValueOrNil {A} (s : option A) : option (Wrapped A) :=
  match s with None => None | Some v => Some (MkWrapped v) end.

(** [stringPtrFromPbValue], [boolPtrFromPbValue], [uint32PtrFromPbValue]. *)
Definition ptrFromPbValue {A} (s : option (Wrapped A)) : option A :=
  match s with None => None | Some w => Some (Value w) end.

Definition timestampPbValueOrNil (t : option Time) : option Timestamp :=
  match t with None => None | Some t => Some (timestamppb_New t) end.

Definition timePtrFromPbValue (t : option Timestamp) : option Time :=
  match t with None => None | Some t => Some (AsTime t) end.

(** [pb.HttpCors] has the fields of [httpcors.Config]; both ways clone. *)
Definition httpCORSFromPb (value : option Config) : option Config :=
  match value with None => None | Some v => Clone (Some v) end.

Definition httpCORSToPb (value : option Config) : option Config :=
  match value with
  | None => None
  | Some v => match Clone (Some v) with
              | Some v => Some (MkConfig (AllowedOrigins v) (AllowedMethods v) (AllowedHeaders v)
                                         (ExposedHeaders v) (AllowCredentials v) (MaxAge v))
              | None => None
              end
  end.

Definition toTunnelProperties (msg : PbTunnelProperties) : TunnelProperties := {|
  HTTPCORS := httpCORSFromPb (pb_HttpCors msg);
  ID := ptrFromPbValue (pb_Id msg);
  CreationDate := timePtrFromPbValue (pb_CreationDate msg);
  Name := ptrFromPbValue (pb_Name msg);
  Type_ := ptrFromPbValue (pb_Type msg);
  Publish := ptrFromPbValue (pb_Publish msg);
  Protocol := ptrFromPbValue (pb_Protocol msg);
  Labels := pb_Labels msg;
  GeoIP := pb_Geoip msg;
  TrustedIPs := pb_TrustedIps msg;
  Host := ptrFromPbValue (pb_Host msg);
  Hostname := ptrFromPbValue (pb_Hostname msg);
  Port := ptrFromPbValue (pb_Port msg);
  TLSMode := ptrFromPbValue (pb_TlsMode msg);
  TLSALPNs := pb_TlsAlpns msg;
  TLSMinVersion := ptrFromPbValue (pb_TlsMinVersion msg);
  TLSCiphers := pb_TlsCiphers msg;
  MTLSAuth := ptrFromPbValue (pb_MtlsAuth msg);
  HTTPVersion := ptrFromPbValue (pb_HttpVersion msg);
  HTTPUseTLS := ptrFromPbValue (pb_HttpUseTls msg);
  UpstreamTLS := ptrFromPbValue (pb_UpstreamTls msg);
  DatagramGuaranteedDelivery := ptrFromPbValue (pb_DatagramGuaranteedDelivery msg);
  AllowCrossRegionRouting := ptrFromPbValue (pb_AllowCrossRegionRouting msg);
  TokenAuth := ptrFromPbValue (pb_TokenAuth msg);
  RstreamAuth := ptrFromPbValue (pb_RstreamAuth msg);
  ChallengeMode := ptrFromPbValue (pb_ChallengeMode msg) |}.

Definition toTunnelPropertiesPb (props : TunnelProperties) : PbTunnelProperties := {|
  pb_HttpCors := httpCORSToPb (HTTPCORS props);
  pb_Id := pbValueOrNil (ID props);
  pb_CreationDate := timestampPbValueOrNil (CreationDate props);
  pb_Name := pbValueOrNil (Name props);
  pb_Type := pbValueOrNil (Type_ props);
  pb_Publish := pbValueOrNil (Publish props);
  pb_Protocol := pbValueOrNil (Protocol props);
  pb_Labels := Labels props;
  pb_Geoip := GeoIP props;
  pb_TrustedIps := TrustedIPs props;
  pb_Host := pbValueOrNil (Host props);
  pb_Hostname := pbValueOrNil (Hostname props);
  pb_Port := pbValueOrNil (Port props);
  pb_TlsMode := pbValueOrNil (TLSMode props);
  pb_TlsAlpns := TLSALPNs props;
  pb_TlsMinVersion := pbValueOrNil (TLSMinVersion props);
  pb_TlsCiphers := TLSCiphers props;
  pb_MtlsAuth := pbValueOrNil (MTLSAuth props);
  pb_HttpVersion := pbValueOrNil (HTTPVersion props);
  pb_HttpUseTls := pbValueOrNil (HTTPUseTLS props);
  pb_UpstreamTls := pbValueOrNil (UpstreamTLS props);
  pb_DatagramGuaranteedDelivery := pbValueOrNil (DatagramGuaranteedDelivery props);
  pb_AllowCrossRegionRouting := pbValueOrNil (AllowCrossRegionRouting props);
  pb_TokenAuth := pbValueOrNil (TokenAuth props);
  pb_RstreamAuth := pbValueOrNil (RstreamAuth props);
  pb_ChallengeMode := pbValueOrNil (ChallengeMode props) |}.

Lemma ptrFrom_pbValue {A} (o : option A) : ptrFromPbValue (pbValueOrNil o) = o.
Proof. by destruct o. Qed.

Lemma httpCORS_roundtrip c : httpCORSFromPb (httpCORSToPb c) = c.
Proof. destruct c as [[]|]; done. Qed.
End Props.

Arguments TunnelProperties : clear implicits.
Arguments PbTunnelProperties : clear implicits.

(** Converting tunnel properties to the protobuf message and back gives the
    same properties, field by field, given that the protobuf timestamp preserves
    instants. *)
Theorem tunnel_properties_roundtrip {Time Timestamp} (timestamppb_New : Time -> Timestamp)
    (AsTime : Timestamp -> Time) (instants : forall t, AsTime (timestamppb_New t) = t)
    (props : TunnelProperties Time) :
  toTunnelProperties AsTime (toTunnelPropertiesPb timestamppb_New props) = props.
Proof.
  unfold toTunnelProperties, toTunnelPropertiesPb. simpl.
  rewrite !ptrFrom_pbValue, httpCORS_roundtrip.
  assert (Ht : timePtrFromPbValue AsTime (timestampPbValueOrNil timestamppb_New (CreationDate props)) = CreationDate props)
    by (destruct (CreationDate props); simpl; [by rewrite instants|done]).
  rewrite Ht. by destruct props.
Qed.

Definition blank_props : TunnelProperties Z := empty_props.

Definition sample_props : TunnelProperties Z :=
  {| blank_props with ID := Some "t1"; CreationDate := Some 1500; Protocol := Some ProtocolTCP; Port := Some 22;
                      Labels := Some {["a" := "b"]} |}.

Lemma tunnel_properties_roundtrip_witness :
  toTunnelProperties (fun s : Z * Z => fst s * 1000 + snd s)
    (toTunnelPropertiesPb (fun t => (t / 1000, t mod 1000)) sample_props) = sample_props.
Proof.
  apply (tunnel_properties_roundtrip (fun t => (t / 1000, t mod 1000)) (fun s : Z * Z => fst s * 1000 + snd s)).
  intros t. simpl. rewrite (Z.div_mod t 1000) at 3 by lia. lia.
Defined.

(** ** Validation before creation *)

Inductive create_error :=
| CorsRequiresPublishedHTTP
| CorsInvalid (e : cors_error)
| PortRequiresTCP
| PortRange
| TCPRequiresBytestream
| TCPCannotBeUnpublished
| TCPUnsupportedOption.

Section Create.
Context {Time : Type} (ValidHeaderFieldName : string -> bool).

Definition is_set {A} (o : option A) : bool := match o with Some _ => true | None => false end.
Definition opt_is {A} `{EqDecision A} (o : option A) (v : A) : bool := bool_decide (o = Some v).

(** [p != nil && *p != v]. *)
Definition opt_differs {A} `{EqDecision A} (o : option A) (v : A) : bool :=
  match o with Some x => negb (bool_decide (x = v)) | None => false end.

Definition has_tcp_unsupported (p : TunnelProperties Time) : bool :=
  is_set (Hostname p) || is_set (TLSMode p) || negb (bool_decide (TLSALPNs p = []))
  || is_set (TLSMinVersion p) || negb (bool_decide (TLSCiphers p = [])) || is_set (MTLSAuth p)
  || is_set (HTTPVersion p) || is_set (HTTPUseTLS p) || is_set (UpstreamTLS p)
  || is_set (DatagramGuaranteedDelivery p) || is_set (TokenAuth p) || is_set (RstreamAuth p)
  || is_set (ChallengeMode p).

Definition normalize_cors (p : TunnelProperties Time) : result create_error (TunnelProperties Time) :=
  if is_set (HTTPCORS p) then
    if opt_differs (Publish p) true || opt_differs (Protocol p) ProtocolHTTP
    then Err CorsRequiresPublishedHTTP
    else match Normalize ValidHeaderFieldName (HTTPCORS p) with
         | Err e => Err (CorsInvalid e)
         | Ok c => Ok {| p with HTTPCORS := c |}
         end
  else Ok p.

Definition normalizeCreateTunnelProperties (p : TunnelProperties Time) :
    result create_error (TunnelProperties Time) :=
  let? p := normalize_cors p in
  if is_set (Port p) && negb (opt_is (Protocol p) ProtocolTCP) then Err PortRequiresTCP
  else if negb (opt_is (Protocol p) ProtocolTCP) then Ok p
  else if match Port p with Some n => (n =? 0) || (n >? 65535) | None => false end then Err PortRange
  else if opt_differs (Type_ p) TunnelTypeBytestream then Err TCPRequiresBytestream
  else if opt_differs (Publish p) true then Err TCPCannotBeUnpublished
  else if has_tcp_unsupported p then Err TCPUnsupportedOption
  else Ok {| p with Type_ := Some TunnelTypeBytestream; Publish := Some true |}.

(** What the engine may assume of the properties a client sends. *)
Record creatable (p : TunnelProperties Time) : Prop := {
  cr_port : forall n, Port p = Some n -> Protocol p = Some ProtocolTCP /\ n <> 0 /\ n <= 65535;
  cr_tcp : Protocol p = Some ProtocolTCP ->
           Type_ p = Some TunnelTypeBytestream /\ Publish p = Some true /\ has_tcp_unsupported p = false /\
           HTTPCORS p = None;
  cr_cors : forall c, HTTPCORS p = Some c ->
            Publish p <> Some false /\ (Protocol p = None \/ Protocol p = Some ProtocolHTTP) /\
            exists c0, normalized c0 c;
}.

(** Nothing but the type, the publish flag and the CORS policy may change. *)
Definition same_request (p q : TunnelProperties Time) : Prop :=
  {| p with Type_ := None; Publish := None; HTTPCORS := None |}
  = {| q with Type_ := None; Publish := None; HTTPCORS := None |}.

Lemma opt_differs_false {A} `{EqDecision A} (o : option A) v :
  opt_differs o v = false <-> o = None \/ o = Some v.
Proof.
  destruct o as [x|]; simpl; [|split; auto].
  rewrite negb_false_iff, bool_decide_eq_true. split; [intros ->; auto|by intros [?|[= ->]]].
Qed.

Lemma normalize_cors_Ok p q :
  normalize_cors p = Ok q -> same_request p q /\ Type_ q = Type_ p /\ Publish q = Publish p /\
  (forall c, HTTPCORS q = Some c -> Publish q <> Some false /\
     (Protocol q = None \/ Protocol q = Some ProtocolHTTP) /\ exists c0, normalized c0 c).
Proof.
  unfold normalize_cors. destruct (HTTPCORS p) as [c0|] eqn:Ec; simpl.
  2: { intros [= <-]. repeat split; try done; congruence. }
  destruct (_ || _) eqn:Ed; [done|].
  apply orb_false_iff in Ed as [Hp Hpr]. apply opt_differs_false in Hp, Hpr.
  pose proof (normalize_accepts_bounded ValidHeaderFieldName (Some c0)) as HN.
  destruct (Normalize _ _) as [[n|]|e]; [|done|done]. intros [= <-].
  destruct HN as (c1 & [= <-] & Hn). unfold same_request. simpl. repeat split; try done.
  - destruct Hp as [->| ->]; done.
  - intros. exists c0. naive_solver.
Qed.
End Create.

(** Properties accepted for creation are ones the engine can serve: a port
    only with protocol tcp and in 1..65535 (the value 0 and values above are
    refused); a tcp tunnel is a published bytestream tunnel with no hostname,
    HTTP, TLS, edge-authentication or datagram option; a CORS policy only on a
    published HTTP tunnel and in normalized form.  Apart from the type, the
    publish flag and the CORS policy, the request is unchanged. *)
Theorem create_properties_valid {Time} V (p q : TunnelProperties Time) :
  normalizeCreateTunnelProperties V p = Ok q -> creatable q /\ same_request p q.
Proof.
  unfold normalizeCreateTunnelProperties. destruct (normalize_cors V p) as [p1|] eqn:Ec; [|done].
  apply normalize_cors_Ok in Ec as (Hsame & Ht & Hp & Hc).
  unfold opt_is. destruct (decide (Protocol p1 = Some ProtocolTCP)) as [Htcp|Htcp].
  - rewrite bool_decide_eq_true_2 by done. simpl. rewrite andb_false_r.
    destruct (match Port p1 with Some n => _ | None => false end) eqn:Eport; [done|].
    destruct (opt_differs (Type_ p1) _) eqn:Ety; [done|].
    destruct (opt_differs (Publish p1) _) eqn:Epub; [done|].
    destruct (has_tcp_unsupported p1) eqn:Eu; [done|]. intros [= <-].
    assert (Hnc : HTTPCORS p1 = None).
    { destruct (HTTPCORS p1) as [c|]; [|done]. destruct (Hc c eq_refl) as (_ & [Hx|Hx] & _); rewrite Htcp in Hx; done. }
    split; [|exact Hsame]. constructor; simpl; [|done|rewrite Hnc; done].
    intros n Hn. rewrite Hn in Eport. apply orb_false_iff in Eport as [?%Z.eqb_neq Hg].
    destruct (Z.gtb_spec n 65535); [done|]. auto.
  - rewrite bool_decide_eq_false_2 by done. simpl.
    destruct (is_set (Port p1)) eqn:Ep; [done|]. intros [= <-].
    split; [|exact Hsame]. constructor; [|done|done].
    intros n Hn. by rewrite Hn in Ep.
Qed.

Definition sample_tcp : TunnelProperties Z := {| blank_props with Protocol := Some ProtocolTCP; Port := Some 22 |}.
Definition sample_tcp' : TunnelProperties Z :=
  {| sample_tcp with Type_ := Some TunnelTypeBytestream; Publish := Some true |}.

Lemma create_properties_valid_witness : creatable sample_tcp' /\ same_request sample_tcp sample_tcp'.
Proof.
  assert (H : normalizeCreateTunnelProperties (fun _ => true) sample_tcp = Ok sample_tcp') by reflexivity.
  exact (create_properties_valid (fun _ => true) sample_tcp sample_tcp' H).
Defined.

(** ** Text forms *)

Section Text.
Context {Time : Type}.

(** [publishedHost]. *)
Definition publishedHost (p : TunnelProperties Time) : option string :=
  let fallback :=
    match Host p with
    | Some h => if bool_decide (TrimSpace h = "") then None else Some (TrimSpace h)
    | None => None
    end in
  match Hostname p with
  | Some h =>
      if bool_decide (TrimSpace h = "") then fallback
      else
        let host := TrimSpace h in
        let port := match Port p with Some n => if n >? 0 then n else 443 | None => 443 end in
        if opt_is (Protocol p) ProtocolTLS || opt_is (Protocol p) ProtocolTCP || negb (port =? 443)
        then Some (JoinHostPort host (Itoa port)) else Some host
  | None => fallback
  end.

Definition FormatForwardingAddr (p : TunnelProperties Time) : result string string :=
  match publishedHost p with
  | Some host =>
      if opt_is (Protocol p) ProtocolHTTP then Ok ("https://" +:+ host)
      else if opt_is (Protocol p) ProtocolWebTTY then Ok ("https://" +:+ host +:+ " (webtty)")
      else if opt_is (Protocol p) ProtocolTLS then Ok (host +:+ " (tls)")
      else if opt_is (Protocol p) ProtocolTCP then Ok (host +:+ " (tcp)")
      else if opt_is (Protocol p) ProtocolDTLS then Ok (host +:+ " (dtls)")
      else if opt_is (Protocol p) ProtocolQUIC then Ok (host +:+ " (quic)")
      else Ok host
  | None =>
      match Name p with
      | Some n => Ok ("rstrm://" +:+ n +:+ " (unpublished)")
      | None => match ID p with
                | Some i => Ok ("rstrm://" +:+ i +:+ " (unpublished)")
                | None => Err "invalid tunnel properties: no host, name, or ID"
                end
      end
  end.

Definition tunnelUsesUpstreamTLS (p : TunnelProperties Time) : bool :=
  match UpstreamTLS p with
  | Some b => b
  | None => opt_is (HTTPUseTLS p) true
  end.

(** The switch on the protocol that ends [FormatForwardedHostPort]. *)
Definition protocol_suffix (p : TunnelProperties Time) : string :=
  if opt_is (Protocol p) ProtocolTLS then
    if opt_is (TLSMode p) TLSModePassthrough then " (tls)"
    else if opt_is (UpstreamTLS p) true then " (tls)" else " (tcp)"
  else if opt_is (Protocol p) ProtocolTCP then " (tcp)"
  else if opt_is (Protocol p) ProtocolDTLS then
    if opt_is (UpstreamTLS p) true then " (dtls)" else " (udp)"
  else if opt_is (Protocol p) ProtocolQUIC then " (quic)"
  else if opt_is (Protocol p) ProtocolWebTTY then " (webtty)"
  else "".

Definition FormatForwardedHostPort (host port : string) (p : TunnelProperties Time) : string :=
  let isHTTP := opt_is (Protocol p) ProtocolHTTP in
  let isH3 := opt_is (HTTPVersion p) HTTP3 in
  let useHTTPS := isHTTP && (isH3 || tunnelUsesUpstreamTLS p) in
  let b := if isHTTP then (if useHTTPS then "https://" else "http://") else "" in
  let b := b +:+ host in
  let b := if negb ((negb useHTTPS && isHTTP && bool_decide (port = "80"))
                    || (useHTTPS && bool_decide (port = "443")))
           then b +:+ ":" +:+ port else b in
  match HTTPVersion p with
  | Some v =>
      if isHTTP then (if negb useHTTPS || isH3 then b +:+ " (" +:+ v +:+ ")" else b)
      else b +:+ protocol_suffix p
  | None => b +:+ protocol_suffix p
  end.
End Text.

Definition blank (o : option string) : Prop := forall h, o = Some h -> TrimSpace h = "".

Lemma blank_None : blank None.
Proof. by intros h. Qed.

Lemma blank_Some h : blank (Some h) <-> TrimSpace h = "".
Proof. split; [intros H; by apply H|by intros H ? [= <-]]. Qed.

Lemma publishedHost_None {Time} (p : TunnelProperties Time) :
  publishedHost p = None <-> blank (Hostname p) /\ blank (Host p).
Proof.
  pose proof blank_None. unfold publishedHost.
  destruct (Hostname p) as [hn|], (Host p) as [ho|]; rewrite ?blank_Some;
    repeat case_bool_decide;
    try match goal with |- context [if ?c then Some _ else Some _] => destruct c end;
    (split; [first [discriminate|auto]|intuition done]).
Qed.

(** A tunnel has no forwarding address exactly when it has no usable
    hostname or host (blank counts as absent), no name and no ID; and the
    address of a tunnel published over TLS or TCP always shows a port. *)
Theorem forwarding_address_total {Time} (p : TunnelProperties Time) :
  (is_ok (FormatForwardingAddr p) = false <->
     blank (Hostname p) /\ blank (Host p) /\ Name p = None /\ ID p = None) /\
  (forall h, Hostname p = Some h -> TrimSpace h <> "" ->
     Protocol p = Some ProtocolTLS \/ Protocol p = Some ProtocolTCP ->
     exists n suffix, FormatForwardingAddr p = Ok (JoinHostPort (TrimSpace h) (Itoa n) +:+ suffix) /\
                      (n = 443 \/ Port p = Some n)).
Proof.
  split.
  - pose proof (publishedHost_None p) as Hpub.
    unfold FormatForwardingAddr. destruct (publishedHost p) as [host|].
    + split; [repeat case_match; discriminate|]. intros (Ha & Hb & _). discriminate (proj2 Hpub (conj Ha Hb)).
    + destruct (proj1 Hpub eq_refl) as [Ha Hb].
      destruct (Name p); [split; [discriminate|intros (_ & _ & [=] & _)]|].
      destruct (ID p); [split; [discriminate|intros (_ & _ & _ & [=])]|]. by split.
  - intros h Hh Hne Hpr. unfold FormatForwardingAddr, publishedHost, opt_is. rewrite Hh.
    rewrite (bool_decide_eq_false_2 (TrimSpace h = "")) by done.
    assert (Hport : exists n, match Port p with Some n => if n >? 0 then n else 443 | None => 443 end = n /\
                              (n = 443 \/ Port p = Some n)).
    { eexists. split; [reflexivity|]. destruct (Port p) as [n|]; [|auto]. case_match; auto. }
    destruct Hport as (n & -> & Hn). destruct Hpr as [-> | ->]; simpl.
    + exists n, " (tls)". auto.
    + exists n, " (tcp)". auto.
Qed.
