(* ===== verification/Deadline.v ===== *)
(** * Deadline: the resettable packet deadline of [packet_deadline.go]

    A deadline carries a signal channel that is closed when the deadline passes
    or is replaced, so that a blocked reader re-examines it.  Channels are
    numbered in allocation order; [pd_closed] holds the closed ones and closing
    one twice panics.  [time.AfterFunc] callbacks are explicit: [Timer.Stop] does
    not recall a callback that already started, so a callback of a stopped timer
    may still run ([StepFire] fires any callback ever armed). *)

From S2P Require Import Prelude.

(** An instant in nanoseconds; [None] is the zero [time.Time]. *)
Abbreviation instant := (option Z).

Record packetDeadline := MkDeadline {
  pd_timer : option (nat * Z);       (* the channel the callback captured, and when it is due *)
  pd_deadline : instant;
  pd_changed : nat;                  (* the current signal channel *)
  pd_closed : gset nat;
  pd_next : nat;                     (* the next channel to allocate *)
  pd_armed : list (nat * Z);         (* every callback ever scheduled *)
}.

Definition newPacketDeadline : packetDeadline := MkDeadline None None 0 ∅ 1 [].

(** [close(ch)]: [None] is the panic on a closed channel. *)
Definition close_chan (d : packetDeadline) (ch : nat) : option packetDeadline :=
  if decide (ch ∈ pd_closed d) then None else Some {| d with pd_closed := {[ch]} ∪ pd_closed d |}.

Definition closePacketDeadlineSignal (d : packetDeadline) (ch : nat) : option packetDeadline :=
  if decide (ch ∈ pd_closed d) then Some d else close_chan d ch.

(** [set(t)] at time [now]. *)
Definition set_deadline (d : packetDeadline) (t : instant) (now : Z) : option packetDeadline :=
  d ← closePacketDeadlineSignal {| d with pd_timer := None |} (pd_changed d);
  let ch := pd_next d in
  let d := {| d with pd_deadline := t; pd_changed := ch; pd_next := S ch |} in
  match t with
  | None => Some d
  | Some t =>
      if t - now <=? 0 then close_chan d ch
      else Some {| d with pd_timer := Some (ch, t); pd_armed := (ch, t) :: pd_armed d |}
  end.

(** The callback armed for channel [ch]. *)
Definition fire (d : packetDeadline) (ch : nat) : option packetDeadline :=
  if decide (pd_changed d = ch)
  then d ← closePacketDeadlineSignal d ch; Some {| d with pd_timer := None |}
  else Some d.

Definition snapshot (d : packetDeadline) : instant * nat := (pd_deadline d, pd_changed d).

Definition expired (d : packetDeadline) (now : Z) : bool :=
  match fst (snapshot d) with None => false | Some t => negb (now <? t) end.

(** ** Every interleaving of resets and callbacks *)

Inductive dl_step : packetDeadline -> packetDeadline -> Prop :=
| StepSet d t now d' : set_deadline d t now = Some d' -> dl_step d d'
| StepFire d ch due d' : (ch, due) ∈ pd_armed d -> fire d ch = Some d' -> dl_step d d'.

Definition signalled (d : packetDeadline) (ch : nat) : Prop := ch ∈ pd_closed d.

Record dl_inv (d : packetDeadline) : Prop := {
  dl_inv_alloc : (pd_changed d < pd_next d)%nat;
  dl_inv_closed : forall ch, ch ∈ pd_closed d -> (ch < pd_next d)%nat;
  dl_inv_replaced : forall ch, (ch < pd_next d)%nat -> ch <> pd_changed d -> signalled d ch;
  dl_inv_armed : forall ch t, (ch, t) ∈ pd_armed d -> (ch < pd_next d)%nat /\ (ch = pd_changed d -> pd_deadline d = Some t);
  dl_inv_pending : ~ signalled d (pd_changed d) ->
                match pd_deadline d with
                | None => True
                | Some t => pd_timer d = Some (pd_changed d, t) /\ (pd_changed d, t) ∈ pd_armed d
                end;
}.

Lemma dl_inv_new : dl_inv newPacketDeadline.
Proof. constructor; simpl; unfold signalled; simpl; try set_solver; lia. Qed.

Lemma closeSignal_Some d ch :
  exists d', closePacketDeadlineSignal d ch = Some d' /\
    d' = {| d with pd_closed := {[ch]} ∪ pd_closed d |}.
Proof.
  unfold closePacketDeadlineSignal, close_chan. case_decide as H; [|by eexists].
  eexists. split; [done|]. destruct d; simpl in *. f_equal. set_solver.
Qed.

(** Resets never panic: the channel they close directly is fresh. *)
Lemma set_deadline_inv d t now : dl_inv d -> exists d', set_deadline d t now = Some d' /\ dl_inv d'.
Proof.
  intros [Ha Hc Hr Har Hp]. unfold set_deadline.
  destruct (closeSignal_Some {| d with pd_timer := None |} (pd_changed d)) as (d1 & -> & ->). simpl.
  assert (Hfresh : pd_next d ∉ {[pd_changed d]} ∪ pd_closed d).
  { rewrite elem_of_union, elem_of_singleton. intros [?|?%Hc]; lia. }
  assert (Hrep : forall ch, (ch < S (pd_next d))%nat -> ch <> pd_next d -> ch ∈ {[pd_changed d]} ∪ pd_closed d).
  { intros ch ? ?. destruct (decide (ch = pd_changed d)); [set_solver|].
    apply elem_of_union_r, Hr; [lia|done]. }
  assert (Hcl : forall ch, ch ∈ {[pd_changed d]} ∪ pd_closed d -> (ch < S (pd_next d))%nat).
  { intros ch [->%elem_of_singleton|?%Hc]%elem_of_union; lia. }
  assert (Harm : forall ch t', (ch, t') ∈ pd_armed d -> (ch < S (pd_next d))%nat /\ ch <> pd_next d).
  { intros ch t' [? _]%Har. lia. }
  destruct t as [t|]; simpl.
  - destruct (Z.leb_spec (t - now) 0).
    + unfold close_chan. simpl. rewrite decide_False by done. eexists. split; [done|].
      constructor; simpl; unfold signalled; simpl; [lia|set_solver by lia|set_solver| |set_solver].
      intros ch t' [? ?]%Harm. done.
    + eexists. split; [done|]. constructor; simpl; unfold signalled; simpl; [lia|done|done| |].
      * intros ch t' [[= -> ->]|[? ?]%Harm]%elem_of_cons; [split; [lia|done]|done].
      * intros _. split; [done|]. left.
  - eexists. split; [done|]. constructor; simpl; unfold signalled; simpl; [lia|done|done| |done].
    intros ch t' [? ?]%Harm. done.
Qed.

Lemma fire_inv d ch due : dl_inv d -> (ch, due) ∈ pd_armed d -> exists d', fire d ch = Some d' /\ dl_inv d'.
Proof.
  intros [Ha Hc Hr Har Hp] Hin. unfold fire. case_decide as E; [|by exists d]. subst ch.
  destruct (closeSignal_Some d (pd_changed d)) as (d1 & -> & ->). simpl. eexists. split; [done|].
  constructor; simpl; unfold signalled in *; simpl; [done| |set_solver|done|set_solver].
  intros ch [->%elem_of_singleton|?%Hc]%elem_of_union; done.
Qed.

Lemma dl_step_inv d d' : dl_step d d' -> dl_inv d -> dl_inv d'.
Proof.
  intros [? t now ? E|? ch due ? Hin E] Hi.
  - destruct (set_deadline_inv d0 t now Hi) as (? & E' & ?). by simplify_eq.
  - destruct (fire_inv d0 ch due Hi Hin) as (? & E' & ?). by simplify_eq.
Qed.

Lemma dl_reachable_inv d : rtc dl_step newPacketDeadline d -> dl_inv d.
Proof. intros H. eapply rtc_invariant; [apply dl_step_inv|exact H|apply dl_inv_new]. Qed.

(** In every interleaving of resets and timer callbacks, no operation panics
    on a closed channel; a channel handed out by [snapshot] before a reset is
    closed after it, so its waiters wake up; and as long as the current channel
    is open and a deadline is set, a callback for that very channel and instant
    is armed, so the deadline cannot pass unnoticed. *)
Theorem deadline_no_lost_wakeup d :
  rtc dl_step newPacketDeadline d ->
  (forall t now, exists d', set_deadline d t now = Some d' /\ signalled d' (snd (snapshot d))) /\
  (forall ch due, (ch, due) ∈ pd_armed d -> exists d', fire d ch = Some d') /\
  (forall t, pd_deadline d = Some t -> ~ signalled d (pd_changed d) ->
     (pd_changed d, t) ∈ pd_armed d /\
     exists d', fire d (pd_changed d) = Some d' /\ signalled d' (snd (snapshot d))).
Proof.
  intros Hi%dl_reachable_inv. split; [|split].
  - intros t now. destruct (set_deadline_inv d t now Hi) as (d' & E & Hi'). exists d'. split; [done|].
    unfold set_deadline in E.
    destruct (closeSignal_Some {| d with pd_timer := None |} (pd_changed d)) as (d1 & E1 & ->).
    rewrite E1 in E. simpl in E. unfold signalled, snapshot, close_chan in *. simpl in *.
    repeat (case_match || case_decide); simplify_eq/=; set_solver.
  - intros ch due Hin. destruct (fire_inv d ch due Hi Hin) as (d' & ? & _). eauto.
  - intros t Ht Hs. pose proof (dl_inv_pending _ Hi Hs) as Hp. rewrite Ht in Hp. destruct Hp as [_ Hp].
    split; [done|]. unfold fire. rewrite decide_True by done.
    destruct (closeSignal_Some d (pd_changed d)) as (d1 & -> & ->). simpl. eexists. split; [done|].
    unfold signalled. simpl. set_solver.
Qed.

Definition armed_deadline : packetDeadline :=
  match set_deadline newPacketDeadline (Some 100) 0 with Some d => d | None => newPacketDeadline end.

Lemma deadline_no_lost_wakeup_witness :
  (forall t now, exists d', set_deadline armed_deadline t now = Some d' /\ signalled d' (snd (snapshot armed_deadline))) /\
  (forall ch due, (ch, due) ∈ pd_armed armed_deadline -> exists d', fire armed_deadline ch = Some d') /\
  (forall t, pd_deadline armed_deadline = Some t -> ~ signalled armed_deadline (pd_changed armed_deadline) ->
     (pd_changed armed_deadline, t) ∈ pd_armed armed_deadline /\
     exists d', fire armed_deadline (pd_changed armed_deadline) = Some d' /\
                signalled d' (snd (snapshot armed_deadline))).
Proof.
  apply (deadline_no_lost_wakeup armed_deadline).
  apply rtc_once, (StepSet _ (Some 100) 0). reflexivity.
Defined.
