(* ===== verification/Datagram.v ===== *)
(** * Datagram: QUIC datagram channels ([quic_transport.go])

    Channel identifiers derived from stream IDs, the channel itself (a bounded
    receive queue with drop accounting), the transport's routing registry and
    its read loop, and the listener that hands channels to the application.

    Channels are shared between the transport, the control channel and the
    application: they live in a heap ([wd_heap]) and everyone holds their
    address.  Each operation below is one mutex-protected section or one channel
    operation of the Go code; [step] is their interleaving. *)

From S2P Require Import Prelude GoStrings Framing Deadline.

Definition datagramChannelIDSize : nat := 12.
Definition datagramReceiveQueueSize : nat := 64.

(** A channel identifier is an array of twelve bytes. *)
Abbreviation channel_id := (list byte).

#[export] Instance byte_countable : Countable byte.
Proof.
  apply (inj_countable Byte.to_N Byte.of_N). intros x. apply Byte.of_to_N.
Defined.

(** ** Identifiers *)

Definition hexNibble (c : byte) : option Z :=
  if byte_in 48 57 c then Some (b2z c - 48)
  else if byte_in 97 102 c then Some (b2z c - 97 + 10)
  else if byte_in 65 70 c then Some (b2z c - 65 + 10)
  else None.

Inductive id_error := StreamIDTooShort | StreamIDNonHex | NegotiatedLength | NegotiatedInvalid.

#[export] Instance id_error_eq_dec : EqDecision id_error.
Proof. solve_decision. Defined.

(** The loop over [n] bytes: two nibbles each. *)
Fixpoint parse_hex (n : nat) (s : list byte) : result id_error (list byte) :=
  match n with
  | O => Ok []
  | S m =>
      match s with
      | c1 :: c2 :: r =>
          match hexNibble c1 with
          | None => Err StreamIDNonHex
          | Some hi =>
              match hexNibble c2 with
              | None => Err StreamIDNonHex
              | Some lo =>
                  let? rest := parse_hex m r in
                  Ok (z2b (Z.lor (Z.shiftl hi 4) lo) :: rest)
              end
          end
      | _ => Err StreamIDTooShort
      end
  end.

Definition datagramChannelIDFromStreamID (streamID : string) : result id_error channel_id :=
  let s := remove_byte x2d (trim_space (s2b streamID)) in
  if (length s <? datagramChannelIDSize * 2)%nat then Err StreamIDTooShort
  else parse_hex datagramChannelIDSize s.

Definition zero_id : channel_id := replicate datagramChannelIDSize x00.

Definition dialDatagramChannelID (streamID : string) (negotiated : list byte) : result id_error channel_id :=
  match datagramChannelIDFromStreamID streamID with
  | Err e => Err e
  | Ok legacy =>
      if bool_decide (negotiated = []) then Ok legacy
      else if negb (Nat.eqb (length negotiated) datagramChannelIDSize) then Err NegotiatedLength
      else if bool_decide (negotiated = legacy) || bool_decide (negotiated = zero_id) then Err NegotiatedInvalid
      else Ok negotiated
  end.

(** [String()]: lower-case hexadecimal. *)
Definition channel_id_String (id : channel_id) : string := b2s (hex_encode id).

(** ** The channel *)

Record dchannel := MkDChannel {
  dc_channelID : channel_id;
  dc_laddr : option net_addr;
  dc_raddr : option net_addr;
  dc_recvCh : list (list byte);      (* buffered, capacity datagramReceiveQueueSize *)
  dc_done : bool;                    (* ctx cancelled *)
  dc_closed : bool;
  dc_once : bool;                    (* the close has run *)
  dc_registryBacked : bool;
  dc_accepted : bool;                (* deliveryState = datagramDeliveryAccepted *)
  dc_proxyRspDone : option bool;     (* nil, or whether the signal was closed *)
  dc_readDeadline : packetDeadline;
  dc_writeDeadline : packetDeadline;
  dc_received : Z;
  dc_dropped : Z;
  dc_maximumQueued : Z;
}.

Definition new_dchannel (id : channel_id) (laddr raddr : option net_addr) (backed : bool) : dchannel :=
  MkDChannel id laddr raddr [] false false false backed false None newPacketDeadline newPacketDeadline 0 0 0.

(** [accept]: the compare-and-swap from queued to accepted. *)
Definition accept (c : dchannel) : dchannel * bool :=
  if dc_accepted c then (c, false) else ({| c with dc_accepted := true |}, true).

Definition accepted (c : dchannel) : bool := dc_accepted c.

Definition enqueue (c : dchannel) (payload : list byte) : dchannel * bool :=
  if dc_done c then (c, false)
  else if (length (dc_recvCh c) <? datagramReceiveQueueSize)%nat then
    let q := dc_recvCh c ++ [payload] in
    let depth := Z.of_nat (length q) in
    ({| c with dc_recvCh := q; dc_received := u64 (dc_received c + 1);
               dc_maximumQueued := if depth >? dc_maximumQueued c then depth else dc_maximumQueued c |}, true)
  else ({| c with dc_dropped := u64 (dc_dropped c + 1) |}, false).

Inductive read_outcome :=
| ReadClosed
| ReadTimeout
| ReadData (data : list byte) (from : option net_addr)
| ReadBlocked.

(** [ReadFrom(p)] with [len(p) = plen] at time [now], up to the point where it
    returns or blocks in the select. *)
Definition ReadFrom (c : dchannel) (plen : nat) (now : Z) : dchannel * read_outcome :=
  if dc_done c then (c, ReadClosed)
  else if expired (dc_readDeadline c) now then (c, ReadTimeout)
  else match dc_recvCh c with
       | data :: q => ({| c with dc_recvCh := q |}, ReadData (take plen data) (dc_raddr c))
       | [] => (c, ReadBlocked)
       end.

Inductive send_error := SendTooLarge | SendFailed.
Inductive write_error := WClosed | WBadAddress | WTimeout | WTooLarge (n : nat) | WFailed.

Definition datagram_of (id : channel_id) (p : list byte) : list byte := id ++ p.

(** [WriteTo]: the datagram given to the provider, and its answer. *)
Definition WriteTo (c : dchannel) (p : list byte) (addr : option net_addr) (now : Z)
    (send : list byte -> result send_error unit) : result write_error nat :=
  if dc_done c then Err WClosed
  else match addr, dc_raddr c with
       | Some a, Some r =>
           if negb (bool_decide (addr_string a = addr_string r)) then Err WBadAddress
           else if expired (dc_writeDeadline c) now then Err WTimeout
           else match send (datagram_of (dc_channelID c) p) with
                | Ok _ => Ok (length p)
                | Err SendTooLarge => Err (WTooLarge (length p))
                | Err SendFailed => Err WFailed
                end
       | _, _ => Err WBadAddress
       end.

(** The body of [close]'s [sync.Once], before the callbacks. *)
Definition close_state (c : dchannel) (now : Z) : dchannel :=
  {| c with dc_once := true; dc_closed := true; dc_done := true;
            dc_readDeadline := default (dc_readDeadline c) (set_deadline (dc_readDeadline c) None now);
            dc_writeDeadline := default (dc_writeDeadline c) (set_deadline (dc_writeDeadline c) None now) |}.

Definition markProxyResponseWritten (c : dchannel) : dchannel :=
  match dc_proxyRspDone c with
  | Some _ => {| c with dc_proxyRspDone := Some true |}
  | None => c
  end.

(** [SetReadDeadline]/[SetWriteDeadline]: refused once closed. *)
Definition SetReadDeadline (c : dchannel) (t : instant) (now : Z) : dchannel * bool :=
  if dc_closed c then (c, false)
  else ({| c with dc_readDeadline := default (dc_readDeadline c) (set_deadline (dc_readDeadline c) t now) |}, true).

Definition SetWriteDeadline (c : dchannel) (t : instant) (now : Z) : dchannel * bool :=
  if dc_closed c then (c, false)
  else ({| c with dc_writeDeadline := default (dc_writeDeadline c) (set_deadline (dc_writeDeadline c) t now) |}, true).

(** ** Identifiers: correctness *)

Lemma hexNibble_range c h : hexNibble c = Some h -> 0 <= h < 16.
Proof.
  unfold hexNibble. intros H.
  repeat match goal with H : context [if byte_in ?a ?b ?c then _ else _] |- _ =>
    destruct (byte_in a b c) eqn:?; [|] end; simplify_eq;
  repeat match goal with H : byte_in _ _ _ = true |- _ => apply byte_in_spec in H end; lia.
Qed.

Lemma hexNibble_digit c h : hexNibble c = Some h -> hex_digit h = lower_byte c.
Proof.
  unfold hexNibble, lower_byte, hex_digit, byte_in. intros H. pose proof (b2z_range c). apply b2z_inj.
  repeat match goal with
  | H : context [?a <=? ?b] |- _ => destruct (Z.leb_spec a b)
  | |- context [?a <=? ?b] => destruct (Z.leb_spec a b)
  | |- context [?a <? ?b] => destruct (Z.ltb_spec a b)
  end; simplify_eq/=; rewrite ?b2z_z2b; try lia; rewrite ?Z.mod_small; lia.
Qed.

Lemma nibbles_add hi lo : 0 <= hi < 16 -> 0 <= lo < 16 -> Z.lor (Z.shiftl hi 4) lo = hi * 16 + lo.
Proof.
  intros Hh Hl.
  assert (H : forallb (fun h => forallb (fun l => Z.lor (Z.shiftl h 4) l =? h * 16 + l) (seqZ 0 16)) (seqZ 0 16) = true)
    by (vm_compute; reflexivity).
  rewrite forallb_forall in H. specialize (H hi). rewrite forallb_forall in H.
  apply Z.eqb_eq, H; apply list_elem_of_In, elem_of_seqZ; lia.
Qed.

Lemma nibbles_byte hi lo : 0 <= hi < 16 -> 0 <= lo < 16 ->
  b2z (z2b (Z.lor (Z.shiftl hi 4) lo)) / 16 = hi /\ b2z (z2b (Z.lor (Z.shiftl hi 4) lo)) mod 16 = lo.
Proof.
  intros Hh Hl.
  rewrite nibbles_add, b2z_z2b, Z.mod_small by lia. split.
  - rewrite Z.div_add_l, Z.div_small by lia. lia.
  - rewrite Z.add_comm, Z.mod_add, Z.mod_small by lia. done.
Qed.

Lemma parse_hex_encode n s id :
  parse_hex n s = Ok id -> length id = n /\ hex_encode id = lower_byte <$> take (2 * n) s.
Proof.
  revert s id. induction n as [|n IH]; intros s id; [by intros [= <-]|].
  destruct s as [|c1 [|c2 r]]; [done|done|]. simpl parse_hex.
  destruct (hexNibble c1) as [hi|] eqn:E1; [|done]. destruct (hexNibble c2) as [lo|] eqn:E2; [|done].
  destruct (parse_hex n r) as [rest|] eqn:Er; [|done]. intros [= <-].
  destruct (IH _ _ Er) as [Hl He]. split; [simpl; lia|].
  destruct (nibbles_byte hi lo) as [H1 H2]; [by eapply hexNibble_range|by eapply hexNibble_range|].
  replace (2 * S n)%nat with (S (S (2 * n))) by lia. unfold hex_encode. rewrite fmap_cons. cbn [concat take app].
  rewrite H1, H2, (hexNibble_digit _ _ E1), (hexNibble_digit _ _ E2), !fmap_cons. fold (hex_encode rest).
  by rewrite He.
Qed.

Lemma parse_hex_complete n s :
  (2 * n <= length s)%nat -> Forall (fun c => is_Some (hexNibble c)) (take (2 * n) s) ->
  exists id, parse_hex n s = Ok id.
Proof.
  revert s. induction n as [|n IH]; intros s Hl HF; [by eexists|].
  destruct s as [|c1 [|c2 r]]; [simpl in Hl; lia|simpl in Hl; lia|].
  replace (2 * S n)%nat with (S (S (2 * n))) in HF by lia. cbn [take] in HF.
  apply Forall_cons in HF as [[hi E1] HF]. apply Forall_cons in HF as [[lo E2] HF].
  destruct (IH r) as [id Hid]; [simpl in Hl; lia|done|]. simpl. rewrite E1, E2, Hid. by eexists.
Qed.

Definition hex_lower (b : byte) : Prop := 48 <= b2z b <= 57 \/ 97 <= b2z b <= 102.

Lemma hex_digit_lower n : 0 <= n < 16 -> hex_lower (hex_digit n).
Proof.
  intros H. unfold hex_lower, hex_digit. destruct (Z.ltb_spec n 10); rewrite b2z_z2b, Z.mod_small by lia; lia.
Qed.

Lemma hex_encode_lower l : Forall hex_lower (hex_encode l).
Proof.
  unfold hex_encode. induction l as [|b l IH]; [constructor|]. rewrite fmap_cons. cbn [concat].
  pose proof (b2z_range b).
  cbn [app]. apply Forall_cons; split; [|apply Forall_cons; split; [|done]]; apply hex_digit_lower.
  - split; [apply Z.div_pos; lia|apply Z.div_lt_upper_bound; lia].
  - apply Z.mod_pos_bound. lia.
Qed.

Lemma hex_lower_noop b : hex_lower b -> space1 b = false /\ lower_byte b = b /\ b <> x2d /\
  (forall c, space2 b c = false) /\ (forall c, space2 c b = false) /\
  (forall c d, space3 b c d = false) /\ (forall c d, space3 c d b = false).
Proof.
  intros H. unfold hex_lower in H.
  assert (Hne : forall x, b2z x < 48 \/ 57 < b2z x < 97 \/ 102 < b2z x -> byte_eqb b x = false).
  { intros x Hx. apply bool_decide_eq_false. intros ->. lia. }
  assert (Hin : forall lo hi, (hi < 48 \/ (57 < lo /\ hi < 97) \/ 102 < lo) -> byte_in lo hi b = false).
  { intros lo hi Hx. unfold byte_in. apply andb_false_iff. rewrite !Z.leb_gt. lia. }
  unfold space1, space2, space3, lower_byte.
  repeat split; intros; rewrite ?Hne, ?Hin by (vm_compute; auto || lia);
    rewrite ?andb_false_r, ?andb_false_l, ?orb_false_r; try done.
  intros ->. change (b2z x2d) with 45 in H. lia.
Qed.

Lemma trim_with_hex sp2 sp3 s :
  (forall b c, hex_lower b -> sp2 b c = false) -> (forall b c d, hex_lower b -> sp3 b c d = false) ->
  Forall hex_lower s -> trim_with sp2 sp3 s = s.
Proof.
  intros H2 H3 HF. destruct HF as [|b r Hb HF]; [done|].
  apply trim_with_noop; [apply (hex_lower_noop b Hb)|intros; by apply H2|intros; by apply H3].
Qed.

Lemma clean_hex s : Forall hex_lower s -> remove_byte x2d (trim_space s) = s.
Proof.
  intros HF. unfold trim_space, trim_right, trim_left.
  assert (Hl : trim_with space2 space3 s = s)
    by (apply trim_with_hex; [intros b c Hb; apply (hex_lower_noop b Hb)|intros b c d Hb; apply (hex_lower_noop b Hb)|done]).
  rewrite Hl, trim_with_hex; [|intros b c Hb; apply (hex_lower_noop b Hb)|intros b c d Hb; apply (hex_lower_noop b Hb)|].
  - rewrite rev_involutive. unfold remove_byte. clear Hl.
    induction HF as [|b r Hb _ IH]; [done|]. rewrite filter_cons_True by apply (hex_lower_noop b Hb). by f_equal.
  - by apply Forall_rev.
Qed.

Lemma hexNibble_hex_digit n : 0 <= n < 16 -> hexNibble (hex_digit n) = Some n.
Proof.
  intros H. assert (Hf : forallb (fun k => bool_decide (hexNibble (hex_digit k) = Some k)) (seqZ 0 16) = true)
    by (vm_compute; reflexivity).
  rewrite forallb_forall in Hf. eapply bool_decide_eq_true, Hf. apply list_elem_of_In, elem_of_seqZ. lia.
Qed.

Lemma parse_hex_of_encode l : parse_hex (length l) (hex_encode l) = Ok l.
Proof.
  induction l as [|b l IH]; [done|]. unfold hex_encode. rewrite fmap_cons. cbn [concat app length parse_hex].
  fold (hex_encode l). pose proof (b2z_range b).
  rewrite !hexNibble_hex_digit, IH by (split; [apply Z.div_pos || apply Z.mod_pos_bound; lia|];
    apply Z.div_lt_upper_bound || apply Z.mod_pos_bound; lia).
  do 2 f_equal. rewrite nibbles_add by (split; [apply Z.div_pos || apply Z.mod_pos_bound; lia|];
    apply Z.div_lt_upper_bound || apply Z.mod_pos_bound; lia).
  rewrite <- (z2b_b2z b) at 3. f_equal. rewrite (Z.div_mod (b2z b) 16) at 3 by lia. lia.
Qed.

(** The channel identifier of a stream is the first 24 hexadecimal digits of
    its ID, dashes and surrounding space apart, read case-insensitively: the
    identifier prints back to those digits in lower case, is twelve bytes long,
    and printing an identifier and deriving it again gives it back. *)
Theorem channel_id_of_stream_id :
  (forall streamID id, datagramChannelIDFromStreamID streamID = Ok id ->
     length id = datagramChannelIDSize /\
     channel_id_String id = b2s (lower_byte <$> take 24 (remove_byte x2d (trim_space (s2b streamID))))) /\
  (forall id, length id = datagramChannelIDSize -> datagramChannelIDFromStreamID (channel_id_String id) = Ok id).
Proof.
  split.
  - intros streamID id. unfold datagramChannelIDFromStreamID. case_match; [done|].
    intros [Hl He]%parse_hex_encode. split; [done|]. unfold channel_id_String. by rewrite He.
  - intros id Hl. unfold datagramChannelIDFromStreamID, channel_id_String. rewrite s2b_b2s.
    rewrite clean_hex by apply hex_encode_lower. rewrite length_hex_encode, Hl.
    pose proof (parse_hex_of_encode id) as H. rewrite Hl in H. exact H.
Qed.

(** ** The receive queue is a bounded FIFO *)

Inductive dop :=
| OpEnqueue (payload : list byte)
| OpRead (plen : nat) (now : Z).

(** What a run on an open channel shows: payloads accepted, payloads refused,
    and packets read (whole payloads; the reader's buffer may cut them). *)
Record dlog := MkDLog { dl_in : list (list byte); dl_drop : nat; dl_out : list (list byte) }.

Definition run_dop (s : dchannel * dlog) (o : dop) : dchannel * dlog :=
  let '(c, l) := s in
  match o with
  | OpEnqueue p =>
      match enqueue c p with
      | (c', true) => (c', {| l with dl_in := dl_in l ++ [p] |})
      | (c', false) => (c', {| l with dl_drop := S (dl_drop l) |})
      end
  | OpRead plen now =>
      match ReadFrom c plen now with
      | (c', ReadData _ _) => (c', {| l with dl_out := dl_out l ++ take 1 (dc_recvCh c) |})
      | (c', _) => (c', l)
      end
  end.

Definition run_dops (c : dchannel) (ops : list dop) : dchannel * dlog :=
  fold_left run_dop ops (c, MkDLog [] 0 []).

Record fifo_inv (c : dchannel) (l : dlog) : Prop := {
  fi_open : dc_done c = false;
  fi_order : dl_in l = dl_out l ++ dc_recvCh c;
  fi_bound : (length (dc_recvCh c) <= datagramReceiveQueueSize)%nat;
  fi_received : dc_received c = u64 (Z.of_nat (length (dl_in l)));
  fi_dropped : dc_dropped c = u64 (Z.of_nat (dl_drop l));
  fi_maximum : Z.of_nat (length (dc_recvCh c)) <= dc_maximumQueued c <= Z.of_nat datagramReceiveQueueSize;
}.

Lemma u64_succ n : u64 (u64 (Z.of_nat n) + 1) = u64 (Z.of_nat (S n)).
Proof. unfold u64. rewrite Zplus_mod_idemp_l. f_equal. lia. Qed.

Lemma run_dop_inv c l o : fifo_inv c l -> fifo_inv (fst (run_dop (c, l) o)) (snd (run_dop (c, l) o)).
Proof.
  intros [Ho Hord Hb Hr Hd Hm]. destruct o as [p|plen now]; simpl.
  - unfold enqueue. rewrite Ho. destruct (Nat.ltb_spec (length (dc_recvCh c)) datagramReceiveQueueSize); simpl.
    + constructor; simpl; try done.
      * by rewrite Hord, app_assoc.
      * rewrite length_app. simpl. lia.
      * rewrite Hr, length_app. simpl. rewrite Nat.add_1_r. apply u64_succ.
      * rewrite length_app. simpl.
        destruct (Z.gtb_spec (Z.of_nat (length (dc_recvCh c) + 1)) (dc_maximumQueued c)); lia.
    + constructor; simpl; try done. rewrite Hd. apply u64_succ.
  - unfold ReadFrom. rewrite Ho. destruct (expired _ now); [by constructor|].
    destruct (dc_recvCh c) as [|d q] eqn:Eq; simpl.
    + constructor; simpl; rewrite ?Eq; try done.
    + constructor; simpl; try done.
      * rewrite Hord. by rewrite <- app_assoc.
      * simpl in Hb. lia.
      * simpl in Hm. lia.
Qed.

(** An open datagram channel is a FIFO of at most 64 packets that drops new
    arrivals when full: in every run, the packets read followed by those still
    queued are exactly the accepted payloads in arrival order; [Received] and
    [Dropped] count the accepted and the refused ones (modulo 2^64), and
    [MaximumQueueDepth] bounds the depth and never exceeds the capacity. *)
Theorem datagram_queue_fifo id laddr raddr backed ops :
  let '(c, l) := run_dops (new_dchannel id laddr raddr backed) ops in fifo_inv c l.
Proof.
  unfold run_dops.
  assert (H : forall c l, fifo_inv c l -> let '(c', l') := fold_left run_dop ops (c, l) in fifo_inv c' l').
  { induction ops as [|o ops IH]; intros c l Hi; cbn [fold_left]; [done|].
    pose proof (run_dop_inv c l o Hi) as H1. destruct (run_dop (c, l) o) as [c1 l1]. by apply IH. }
  apply H. constructor; simpl; try done; lia.
Qed.

(** ** The transport's registry *)

Record qtransport := MkQT {
  qt_conn : option nat;                       (* quicConn *)
  qt_channels : gmap channel_id nat;          (* datagramChannels *)
  qt_running : bool;                          (* datagramReadRunning *)
  qt_readDone : option nat;                   (* datagramReadDone, by the connection its loop reads *)
  qt_closeGeneration : Z;
}.

Record world := MkWorld {
  wd_t : qtransport;
  wd_ctrl : option (gmap channel_id nat);     (* controlChannelImpl.datagramChannels; None once closed *)
  wd_heap : gmap nat dchannel;
  wd_next : nat;
}.

Definition new_world : world := MkWorld (MkQT None ∅ false None 0) (Some ∅) ∅ 0.

Definition registerDatagramChannel (w : world) (id : channel_id) (a : nat) : world * bool :=
  let t := wd_t w in
  match qt_conn t with
  | None => (w, false)
  | Some conn =>
      match qt_channels t !! id with
      | Some _ => (w, false)
      | None =>
          let t1 := {| t with qt_channels := <[id := a]> (qt_channels t) |} in
          let t2 := if qt_running t then t1 else {| t1 with qt_running := true; qt_readDone := Some conn |} in
          ({| w with wd_t := t2 |}, true)
      end
  end.

Definition unregisterDatagramChannel (w : world) (id : channel_id) (a : nat) : world :=
  if bool_decide (qt_channels (wd_t w) !! id = Some a)
  then {| w with wd_t := {| (wd_t w) with qt_channels := delete id (qt_channels (wd_t w)) |} |}
  else w.

(** [controlChannelImpl.unregisterDatagramChannel]. *)
Definition ctrl_unregister (w : world) (id : channel_id) (a : nat) : world :=
  match wd_ctrl w with
  | Some m => if bool_decide (m !! id = Some a) then {| w with wd_ctrl := Some (delete id m) |} else w
  | None => w
  end.

(** [close(local)] on the channel at [a]: once; then [onClose] withdraws it from
    both registries, by pointer. *)
Definition close_channel (w : world) (now : Z) (a : nat) : world :=
  match wd_heap w !! a with
  | None => w
  | Some ch =>
      if dc_once ch then w
      else
        let w1 := {| w with wd_heap := <[a := close_state ch now]> (wd_heap w) |} in
        ctrl_unregister (unregisterDatagramChannel w1 (dc_channelID ch) a) (dc_channelID ch) a
  end.

Definition detachDatagramChannelsLocked (t : qtransport) : qtransport * list nat :=
  ({| t with qt_channels := ∅; qt_running := false |}, snd <$> map_to_list (qt_channels t)).

(** The body of [datagramReadLoop] for one datagram. *)
Definition route (w : world) (data : list byte) : world :=
  if (length data <? datagramChannelIDSize)%nat then w
  else
    let channelID := take datagramChannelIDSize data in
    let payload := drop datagramChannelIDSize data in
    match qt_channels (wd_t w) !! channelID with
    | None => w
    | Some a => match wd_heap w !! a with
                | None => w
                | Some ch => {| w with wd_heap := <[a := fst (enqueue ch payload)]> (wd_heap w) |}
                end
    end.

Definition invalidateConnection (w : world) (conn : nat) (now : Z) : world * bool :=
  let t := wd_t w in
  if negb (bool_decide (qt_conn t = Some conn)) then (w, false)
  else
    let '(t1, channels) := detachDatagramChannelsLocked t in
    let t2 := {| t1 with qt_conn := None; qt_closeGeneration := u64 (qt_closeGeneration t + 1) |} in
    (fold_left (fun w a => close_channel w now a) channels {| w with wd_t := t2 |}, true).

Definition closeDatagramChannelsForConn (w : world) (conn : nat) (now : Z) : world :=
  let t := wd_t w in
  if match qt_conn t with Some c => negb (Nat.eqb c conn) | None => false end then w
  else
    let t0 := if bool_decide (qt_conn t = Some conn)
              then {| t with qt_running := false; qt_readDone := None |} else t in
    let '(t1, channels) := detachDatagramChannelsLocked t0 in
    fold_left (fun w a => close_channel w now a) channels {| w with wd_t := t1 |}.

(** [QUICTransport.Close]. *)
Definition transport_Close (w : world) (now : Z) : world :=
  let t := wd_t w in
  let '(t1, channels) := detachDatagramChannelsLocked t in
  let t2 := {| t1 with qt_conn := None; qt_closeGeneration := u64 (qt_closeGeneration t + 1) |} in
  fold_left (fun w a => close_channel w now a) channels {| w with wd_t := t2 |}.

(** The registration part of [handleDatagramProxyConnReq], under [c.mu]. *)
Definition ctrl_admit (w : world) (id : channel_id) (a : nat) : world * bool :=
  match wd_ctrl w with
  | None => (w, false)
  | Some m => match m !! id with
              | Some _ => (w, false)
              | None => ({| w with wd_ctrl := Some (<[id := a]> m) |}, true)
              end
  end.

(** [handleDatagramChannelClose] with its cleanup. *)
Definition handleDatagramChannelClose (w : world) (id : channel_id) (now : Z) : world :=
  match wd_ctrl w with
  | None => w
  | Some m => match m !! id with
              | None => w
              | Some a => close_channel {| w with wd_ctrl := Some (delete id m) |} now a
              end
  end.

(** ** Every interleaving *)

Inductive dg_step : world -> world -> Prop :=
| DgConnect w conn :
    qt_conn (wd_t w) = None -> dg_step w {| w with wd_t := {| (wd_t w) with qt_conn := Some conn |} |}
| DgAlloc w id laddr raddr backed :
    length id = datagramChannelIDSize ->
    dg_step w {| w with wd_heap := <[wd_next w := new_dchannel id laddr raddr backed]> (wd_heap w);
                        wd_next := S (wd_next w) |}
| DgRegister w id a ch :
    wd_heap w !! a = Some ch -> dc_channelID ch = id -> dg_step w (fst (registerDatagramChannel w id a))
| DgUnregister w id a : dg_step w (unregisterDatagramChannel w id a)
| DgRoute w data : dg_step w (route w data)
| DgRead w a ch plen now :
    wd_heap w !! a = Some ch -> dg_step w {| w with wd_heap := <[a := fst (ReadFrom ch plen now)]> (wd_heap w) |}
| DgClose w now a : dg_step w (close_channel w now a)
| DgInvalidate w conn now : dg_step w (fst (invalidateConnection w conn now))
| DgCloseForConn w conn now : dg_step w (closeDatagramChannelsForConn w conn now)
| DgTransportClose w now : dg_step w (transport_Close w now)
| DgCtrlAdmit w id a ch :
    wd_heap w !! a = Some ch -> dc_channelID ch = id -> dg_step w (fst (ctrl_admit w id a))
| DgCtrlClose w id now : dg_step w (handleDatagramChannelClose w id now).

Definition chan_ok (ch : dchannel) : Prop :=
  length (dc_channelID ch) = datagramChannelIDSize /\ (dc_once ch = true -> dc_done ch = true).

Record dg_inv (w : world) : Prop := {
  di_keyed : forall id a, qt_channels (wd_t w) !! id = Some a ->
             exists ch, wd_heap w !! a = Some ch /\ dc_channelID ch = id;
  di_conn : qt_conn (wd_t w) = None -> qt_channels (wd_t w) = ∅;
  di_chan : forall a ch, wd_heap w !! a = Some ch -> chan_ok ch;
  di_next : forall a, is_Some (wd_heap w !! a) -> (a < wd_next w)%nat;
}.

(** [w'] differs from [w] at most by withdrawn registrations and by channels
    that changed state but kept their identifier. *)
Record shrinks (w w' : world) : Prop := {
  sh_conn : qt_conn (wd_t w') = qt_conn (wd_t w);
  sh_channels : qt_channels (wd_t w') ⊆ qt_channels (wd_t w);
  sh_next : wd_next w' = wd_next w;
  sh_heap : forall a, match wd_heap w !! a, wd_heap w' !! a with
                      | Some ch, Some ch' => dc_channelID ch' = dc_channelID ch /\ (chan_ok ch -> chan_ok ch') /\
                                             (dc_done ch = true -> dc_done ch' = true)
                      | None, None => True
                      | _, _ => False
                      end;
}.

#[export] Instance shrinks_refl : Reflexive shrinks.
Proof. intros w. constructor; try done. intros a. destruct (wd_heap w !! a); auto. Qed.

#[export] Instance shrinks_trans : Transitive shrinks.
Proof.
  intros x y z [c1 s1 n1 h1] [c2 s2 n2 h2]. constructor; [congruence|by etrans|congruence|].
  intros a. specialize (h1 a). specialize (h2 a). repeat case_match; try done.
  destruct h1 as (E1 & K1 & D1), h2 as (E2 & K2 & D2). split; [congruence|]. auto.
Qed.

Lemma shrinks_inv w w' : shrinks w w' -> dg_inv w -> dg_inv w'.
Proof.
  intros [Hc Hs Hn Hh] [Hk Hco Hch Hnx]. constructor.
  - intros id a Ha. destruct (Hk id a) as (ch & E & Eid); [by eapply lookup_weaken|].
    specialize (Hh a). rewrite E in Hh. destruct (wd_heap w' !! a) as [ch'|]; [|done].
    exists ch'. split; [done|]. destruct Hh as (-> & _). done.
  - rewrite Hc. intros E. specialize (Hco E). rewrite Hco in Hs. apply map_eq. intros id.
    rewrite lookup_empty. destruct (qt_channels (wd_t w') !! id) eqn:E'; [|done].
    eapply lookup_weaken in E'; [|exact Hs]. by rewrite lookup_empty in E'.
  - intros a ch' E'. specialize (Hh a). rewrite E' in Hh. destruct (wd_heap w !! a) as [ch|] eqn:E; [|done].
    apply Hh. by eapply Hch.
  - intros a [ch' E']. rewrite Hn. apply Hnx. specialize (Hh a). rewrite E' in Hh.
    destruct (wd_heap w !! a); [by eexists|done].
Qed.

Lemma heap_update_shrinks w a ch ch' :
  wd_heap w !! a = Some ch -> dc_channelID ch' = dc_channelID ch -> (chan_ok ch -> chan_ok ch') ->
  (dc_done ch = true -> dc_done ch' = true) ->
  shrinks w {| w with wd_heap := <[a := ch']> (wd_heap w) |}.
Proof.
  intros Ha Hid Hk Hd. constructor; simpl; try done. intros b. rewrite lookup_insert. case_decide as E.
  - subst b. rewrite Ha. done.
  - destruct (wd_heap w !! b); auto.
Qed.

Lemma unregister_shrinks w id a : shrinks w (unregisterDatagramChannel w id a).
Proof.
  unfold unregisterDatagramChannel. case_bool_decide; [|done]. constructor; simpl; try done.
  - apply delete_subseteq.
  - intros b. destruct (wd_heap w !! b); auto.
Qed.

Lemma ctrl_unregister_shrinks w id a : shrinks w (ctrl_unregister w id a).
Proof.
  unfold ctrl_unregister. repeat case_match; try done. constructor; simpl; try done.
  intros b. destruct (wd_heap w !! b); auto.
Qed.

Lemma close_channel_shrinks w now a : shrinks w (close_channel w now a).
Proof.
  unfold close_channel. destruct (wd_heap w !! a) as [ch|] eqn:E; [|done]. case_match; [done|].
  etrans; [|apply ctrl_unregister_shrinks]. etrans; [|apply unregister_shrinks].
  apply (heap_update_shrinks w a ch); [done|done| |done]. intros [Hl _]. split; done.
Qed.

Lemma close_all_shrinks l w now : shrinks w (fold_left (fun w a => close_channel w now a) l w).
Proof. revert w. induction l as [|a l IH]; intros w; simpl; [done|]. etrans; [apply close_channel_shrinks|apply IH]. Qed.

Lemma unregister_heap w id a : wd_heap (unregisterDatagramChannel w id a) = wd_heap w.
Proof. unfold unregisterDatagramChannel. by case_bool_decide. Qed.

Lemma ctrl_unregister_heap w id a : wd_heap (ctrl_unregister w id a) = wd_heap w.
Proof. unfold ctrl_unregister. by repeat case_match. Qed.

Definition is_done (w : world) (a : nat) : Prop := exists ch, wd_heap w !! a = Some ch /\ dc_done ch = true.

Lemma close_channel_done w now a ch :
  wd_heap w !! a = Some ch -> chan_ok ch -> is_done (close_channel w now a) a.
Proof.
  intros E [_ Ho]. unfold close_channel, is_done. rewrite E. case_match; [by exists ch; auto|].
  rewrite ctrl_unregister_heap, unregister_heap. simpl. rewrite lookup_insert_eq. by eexists.
Qed.

Lemma shrinks_done w w' a : shrinks w w' -> is_done w a -> is_done w' a.
Proof.
  intros [_ _ _ Hh] (ch & E & D). specialize (Hh a). rewrite E in Hh.
  destruct (wd_heap w' !! a) as [ch'|] eqn:E'; [|done]. exists ch'. destruct Hh as (_ & _ & Hd). auto.
Qed.

Lemma close_all_done l w now a :
  (forall b ch, wd_heap w !! b = Some ch -> chan_ok ch) -> a ∈ l -> is_Some (wd_heap w !! a) ->
  is_done (fold_left (fun w a => close_channel w now a) l w) a.
Proof.
  revert w. induction l as [|b l IH]; intros w Hok Hin [ch E]; [by apply not_elem_of_nil in Hin|]. simpl.
  pose proof (close_channel_shrinks w now b) as Hs. apply elem_of_cons in Hin as [->|Hin].
  - eapply shrinks_done; [apply close_all_shrinks|]. eapply close_channel_done; eauto.
  - apply IH; [|done|].
    + intros c ch' E'. pose proof (sh_heap _ _ Hs c) as Hh. rewrite E' in Hh.
      destruct (wd_heap w !! c) as [ch0|] eqn:E0; [|done]. apply Hh. by eapply Hok.
    + pose proof (sh_heap _ _ Hs a) as Hh. rewrite E in Hh.
      destruct (wd_heap (close_channel w now b) !! a); [by eexists|done].
Qed.

Lemma elem_of_detached t id a :
  qt_channels t !! id = Some a -> a ∈ snd (detachDatagramChannelsLocked t).
Proof.
  intros H. simpl. apply list_elem_of_fmap. exists (id, a). split; [done|]. by apply elem_of_map_to_list.
Qed.

Lemma detached_inv w t2 :
  dg_inv w -> qt_channels t2 = ∅ -> dg_inv {| w with wd_t := t2 |}.
Proof.
  intros [Hk Hco Hch Hn] E. constructor; simpl; [|done|done|done]. rewrite E. intros id a H.
  by rewrite lookup_empty in H.
Qed.

Lemma enqueue_ok ch p : chan_ok ch -> chan_ok (fst (enqueue ch p)).
Proof. intros [? ?]. unfold enqueue. repeat case_match; done. Qed.

Lemma enqueue_id ch p : dc_channelID (fst (enqueue ch p)) = dc_channelID ch /\ dc_done (fst (enqueue ch p)) = dc_done ch.
Proof. unfold enqueue. by repeat case_match. Qed.

Lemma ReadFrom_kept c plen now :
  let c' := fst (ReadFrom c plen now) in
  dc_channelID c' = dc_channelID c /\ dc_done c' = dc_done c /\ dc_once c' = dc_once c.
Proof.
  unfold ReadFrom. destruct (dc_done c) eqn:?; [done|]. destruct (expired _ _); [done|]. by destruct (dc_recvCh c).
Qed.

Lemma route_shrinks w data : shrinks w (route w data).
Proof.
  unfold route. case_match; [done|]. destruct (qt_channels (wd_t w) !! _) as [a|]; [|done].
  destruct (wd_heap w !! a) as [ch|] eqn:E; [|done].
  destruct (enqueue_id ch (drop datagramChannelIDSize data)) as [Hi Hd].
  apply (heap_update_shrinks w a ch); [done|done|apply enqueue_ok|by rewrite Hd].
Qed.

Lemma dg_step_inv w w' : dg_step w w' -> dg_inv w -> dg_inv w'.
Proof.
  intros Hstep Hi. destruct Hstep.
  - destruct Hi as [Hk Hco Hch Hn]. by constructor.
  - destruct Hi as [Hk Hco Hch Hn]. constructor; simpl; [|done| |].
    + intros i a (ch & E & Eid)%Hk. exists ch. split; [|done].
      rewrite lookup_insert_ne; [done|]. intros <-. specialize (Hn _ (mk_is_Some _ _ E)). lia.
    + intros a ch. rewrite lookup_insert. case_decide; [|by apply Hch]. intros [= <-]. split; done.
    + intros a. rewrite lookup_insert. case_decide; [lia|]. intros ?%Hn. lia.
  - unfold registerDatagramChannel. repeat case_match; simpl; try done;
      (destruct Hi as [Hk Hco Hch Hn]; constructor; simpl; [|congruence|done|done]);
      (intros i b; rewrite lookup_insert; case_decide; [intros [= <-]; subst; by exists ch|apply Hk]).
  - eapply shrinks_inv; [apply unregister_shrinks|done].
  - eapply shrinks_inv; [apply route_shrinks|done].
  - eapply shrinks_inv; [|done].
    destruct (ReadFrom_kept ch plen now) as (Eid & Ed & Eo).
    apply (heap_update_shrinks w a ch); [done|done|unfold chan_ok; by rewrite Eid, Ed, Eo|by rewrite Ed].
  - eapply shrinks_inv; [apply close_channel_shrinks|done].
  - unfold invalidateConnection. case_match; [done|]. simpl.
    eapply shrinks_inv; [apply close_all_shrinks|]. by apply detached_inv.
  - unfold closeDatagramChannelsForConn. case_match; [done|]. simpl.
    eapply shrinks_inv; [apply close_all_shrinks|]. by apply detached_inv.
  - unfold transport_Close. simpl. eapply shrinks_inv; [apply close_all_shrinks|]. by apply detached_inv.
  - unfold ctrl_admit. repeat case_match; try done. destruct Hi as [Hk Hco Hch Hn]. by constructor.
  - unfold handleDatagramChannelClose. repeat case_match; try done.
    eapply shrinks_inv; [apply close_channel_shrinks|]. destruct Hi as [Hk Hco Hch Hn]. by constructor.
Qed.

Lemma dg_inv_new : dg_inv new_world.
Proof.
  constructor; simpl; [|done| |]; intros *; rewrite lookup_empty; [done|done|by intros [? ?]].
Qed.

Lemma dg_reachable_inv w : rtc dg_step new_world w -> dg_inv w.
Proof. intros H. eapply rtc_invariant; [apply dg_step_inv|exact H|apply dg_inv_new]. Qed.

(** In every interleaving, a datagram [WriteTo] sends for channel identifier
    [id] and a peer transport routes is offered, payload intact, to the channel
    registered under [id] (whose own identifier is [id]) and to no other: every
    other channel is left exactly as it was. *)
Theorem datagram_routing w id p :
  rtc dg_step new_world w -> length id = datagramChannelIDSize ->
  let w' := route w (datagram_of id p) in
  (forall a, qt_channels (wd_t w) !! id = Some a ->
     exists ch, wd_heap w !! a = Some ch /\ dc_channelID ch = id /\ wd_heap w' !! a = Some (fst (enqueue ch p))) /\
  (forall b, qt_channels (wd_t w) !! id <> Some b -> wd_heap w' !! b = wd_heap w !! b) /\
  wd_t w' = wd_t w.
Proof.
  intros Hi%dg_reachable_inv Hl. unfold route, datagram_of.
  rewrite length_app, Hl. rewrite (proj2 (Nat.ltb_ge _ _)) by lia.
  rewrite take_app_length', drop_app_length' by done. simpl.
  destruct (qt_channels (wd_t w) !! id) as [a|] eqn:Ea.
  - destruct (di_keyed _ Hi id a Ea) as (ch & E & Eid). rewrite E. simpl. split; [|split; [|done]].
    + intros ? [= <-]. exists ch. rewrite lookup_insert_eq. done.
    + intros b Hb. rewrite lookup_insert_ne; [done|congruence].
  - split; [done|]. split; [|done]. done.
Qed.

Definition sample_id : channel_id := [x01; x02; x03; x04; x05; x06; x07; x08; x09; x0a; x0b; x0c].

Definition sample_world : world :=
  MkWorld (MkQT (Some 1%nat) {[sample_id := 0%nat]} true (Some 1%nat) 0) (Some ∅)
          {[0%nat := new_dchannel sample_id None None true]} 1.

Lemma sample_world_reachable : rtc dg_step new_world sample_world.
Proof.
  eapply rtc_l; [apply (DgConnect new_world 1); reflexivity|].
  eapply rtc_l; [apply (DgAlloc _ sample_id None None true); reflexivity|].
  eapply rtc_l; [apply (DgRegister _ sample_id 0 (new_dchannel sample_id None None true)); reflexivity|].
  apply rtc_refl.
Defined.

Lemma datagram_routing_witness :
  let w' := route sample_world (datagram_of sample_id [xff]) in
  (forall a, qt_channels (wd_t sample_world) !! sample_id = Some a ->
     exists ch, wd_heap sample_world !! a = Some ch /\ dc_channelID ch = sample_id /\
                wd_heap w' !! a = Some (fst (enqueue ch [xff]))) /\
  (forall b, qt_channels (wd_t sample_world) !! sample_id <> Some b ->
     wd_heap w' !! b = wd_heap sample_world !! b) /\
  wd_t w' = wd_t sample_world.
Proof. exact (datagram_routing sample_world sample_id [xff] sample_world_reachable eq_refl). Defined.

(** Losing the connection closes every datagram channel registered on it and
    empties the registry: in every reachable state, when [invalidateConnection]
    takes effect no channel stays registered and each one that was is closed. *)
Theorem connection_loss_closes_channels w conn now w' :
  rtc dg_step new_world w -> invalidateConnection w conn now = (w', true) ->
  qt_conn (wd_t w') = None /\ qt_channels (wd_t w') = ∅ /\
  forall id a, qt_channels (wd_t w) !! id = Some a -> is_done w' a.
Proof.
  intros Hi%dg_reachable_inv. unfold invalidateConnection. case_match; [done|]. simpl. intros [= <-].
  set (w1 := {| w with wd_t := _ |}).
  assert (H1 : dg_inv w1) by by apply detached_inv.
  assert (H2 : shrinks w1 (fold_left (fun w a => close_channel w now a) (snd <$> map_to_list (qt_channels (wd_t w))) w1))
    by apply close_all_shrinks.
  pose proof (shrinks_inv _ _ H2 H1) as H3. split; [by rewrite (sh_conn _ _ H2)|].
  split; [apply (di_conn _ H3); by rewrite (sh_conn _ _ H2)|].
  intros id a Ha. apply close_all_done.
  - apply (di_chan _ Hi).
  - by apply (elem_of_detached (wd_t w) id).
  - destruct (di_keyed _ Hi id a Ha) as (ch & E & _). by exists ch.
Qed.

Lemma connection_loss_closes_channels_witness :
  qt_conn (wd_t (fst (invalidateConnection sample_world 1 0))) = None /\
  qt_channels (wd_t (fst (invalidateConnection sample_world 1 0))) = ∅ /\
  forall id a, qt_channels (wd_t sample_world) !! id = Some a ->
    is_done (fst (invalidateConnection sample_world 1 0)) a.
Proof.
  exact (connection_loss_closes_channels sample_world 1 0 (fst (invalidateConnection sample_world 1 0))
           sample_world_reachable eq_refl).
Defined.

(** ** A closed channel can stay registered

    [handleDatagramProxyConnReq] first publishes the new channel in the control
    channel's map, releases the lock, and only then registers it with the
    transport.  When the engine's [DatagramChannelClose] for the same stream is
    handled in between, the channel is closed (its withdrawal from the transport
    finds nothing) and then registered. *)

Definition race_world : world :=
  let w0 := {| new_world with wd_t := {| (wd_t new_world) with qt_conn := Some 1%nat |} |} in
  let w1 := {| w0 with wd_heap := <[0%nat := new_dchannel sample_id None None true]> (wd_heap w0); wd_next := 1%nat |} in
  let w2 := fst (ctrl_admit w1 sample_id 0) in
  let w3 := handleDatagramChannelClose w2 sample_id 0 in
  fst (registerDatagramChannel w3 sample_id 0).

