(* ===== verification/PacketListener.v ===== *)
(** * PacketListener: one packet socket over an admitting listener ([net.go])

    [packetListenerWrapper] turns a [PacketListener], which accepts one packet
    connection per peer, into a single [net.PacketConn].  An acceptor goroutine
    installs the accepted connections under the key of their peer, one reader
    goroutine per connection queues its packets, and any number of callers run
    [ReadFrom], [WriteTo], the deadline setters and [Close].

    The connections live in a heap; a goroutine is a program counter of the
    state; a step is one critical section, one channel operation or one call of
    the inner listener or of an inner connection, so that every interleaving of
    the goroutines is a sequence of steps.  [sync.Once] makes the inner listener
    close once: [closeInner] is a single step whose second caller does nothing.
    What the inner listener and connections answer is the argument of a step. *)

From S2P Require Import Prelude Framing Deadline.
From stdpp Require Import pretty.

#[local] Open Scope Z_scope.

(** ** Data *)

Inductive pl_error :=
| EClosed                                 (* net.ErrClosed *)
| EDeadline                               (* os.ErrDeadlineExceeded *)
| ENoConnection
| EInner (msg : string).                  (* of the inner listener or connection *)

#[export] Instance pl_error_eq_dec : EqDecision pl_error.
Proof. solve_decision. Defined.

Record packetListenerConn := MkConn {
  lc_addr : option net_addr;
  lc_peer : option net_addr;
  lc_active : bool;
  lc_closed : bool;                       (* [conn.Close] was called *)
}.

Record packet := MkPacket {
  pk_data : list byte;
  pk_addr : option net_addr;
  pk_source : option nat;                 (* a connection of the heap *)
}.

(** The acceptor: in [Accept]; with an installed connection whose reader is not
    started yet and the connection it replaced; in [readers.Wait]; before
    [closeInner]; before [close(shutdownDone)]; gone. *)
Inductive acceptor :=
| AAccepting
| AInstalled (e : nat) (previous : option nat)
| AWaiting
| AClosing
| ASignalling
| AGone.

#[export] Instance acceptor_eq_dec : EqDecision acceptor.
Proof. solve_decision. Defined.

(** A reader: in [ReadFrom]; at the select with a packet; then the deferred
    function, before each of its steps. *)
Inductive reader := RReading | RSending (p : packet) | RDone | RRelease | RDetach.

(** A caller of [ReadFrom(p)]: at the loop head, in the select with the signal
    of the deadline it saw, holding a packet, returned. *)
Inductive rf_phase :=
| FStart
| FWait (changed : nat)
| FHave (p : packet)
| FReturned (r : result pl_error (list byte * option net_addr)).

(** [initiateShutdown]: not called, before [closeInner] and the closes of the
    detached connections, before the rest of these closes, complete. *)
Inductive shutdown := ShNone | ShInner (es : list nat) | ShConns (es : list nat) | ShDone.

#[export] Instance shutdown_eq_dec : EqDecision shutdown.
Proof. solve_decision. Defined.

Record packetListenerWrapper := MkPL {
  pl_uniquePeers : bool;
  pl_closed : bool;
  pl_admissionStopped : bool;
  pl_closeErr : option pl_error;
  pl_shutdownErr : option pl_error;
  pl_innerClosed : bool;                  (* [innerClose] ran *)
  pl_admissionDone : bool;
  pl_shutdownDone : bool;
  pl_done : bool;
  pl_readers : Z;                         (* the WaitGroup *)
  pl_conns : option (gmap string nat);    (* [None]: nil *)
  pl_nextPeer : Z;
  pl_pkts : chan packet;
  pl_readDeadline : packetDeadline;
  pl_writeDeadline : packetDeadline;
  pl_heap : gmap nat packetListenerConn;
  pl_next : nat;
  pl_acceptor : acceptor;
  pl_readerThreads : gmap nat (reader * string);
  pl_callers : gmap nat (nat * rf_phase);
  pl_shutdown : shutdown;
}.

Definition packetConnFromPacketListener (uniquePeers : bool) : packetListenerWrapper := {|
  pl_uniquePeers := uniquePeers;
  pl_closed := false; pl_admissionStopped := false; pl_closeErr := None; pl_shutdownErr := None;
  pl_innerClosed := false; pl_admissionDone := false; pl_shutdownDone := false; pl_done := false;
  pl_readers := 0; pl_conns := Some ∅; pl_nextPeer := 0; pl_pkts := make_chan 100;
  pl_readDeadline := newPacketDeadline; pl_writeDeadline := newPacketDeadline;
  pl_heap := ∅; pl_next := O; pl_acceptor := AAccepting; pl_readerThreads := ∅; pl_callers := ∅;
  pl_shutdown := ShNone;
|}.

(** A step answers a new state, cannot be taken now, or panics. *)
Inductive outcome := Next (s : packetListenerWrapper) | Blocked | Panicked.

(** ** Peers and keys *)

(** [packetListenerPeerAddr(n)] as a [net.Addr]. *)
Definition packetListenerPeerAddr (n : Z) : net_addr :=
  NetAddr "rstream-connection" ("connection-" +:+ pretty (Z.to_N n)).

Definition nul : string := String (Ascii.ascii_of_nat 0) EmptyString.

Definition packetAddrKey (addr : option net_addr) : string :=
  match addr with
  | None => nul
  | Some a => addr_network a +:+ nul +:+ addr_string a
  end.

(** ** The wrapper's own functions *)

(** [doneOnce.Do(close(done))]. *)
Definition close_done (s : packetListenerWrapper) : packetListenerWrapper := {| s with pl_done := true |}.

Definition stopAdmission (err : option pl_error) (s : packetListenerWrapper) : packetListenerWrapper :=
  if pl_closed s then s
  else
    let s := {| s with pl_admissionStopped := true; pl_closeErr := Some (default EClosed err);
                       pl_admissionDone := true |} in
    if decide (default ∅ (pl_conns s) = ∅) then close_done {| s with pl_closed := true |} else s.

(** [res]: what [inner.Close()] answers. *)
Definition closeInner (res : option pl_error) (s : packetListenerWrapper) : packetListenerWrapper :=
  if pl_innerClosed s then s else {| s with pl_innerClosed := true; pl_shutdownErr := res |}.

Definition set_active (b : bool) (x : packetListenerConn) : packetListenerConn := {| x with lc_active := b |}.
Definition set_closed (x : packetListenerConn) : packetListenerConn := {| x with lc_closed := true |}.

(** [entry.active.Store(false)] and [entry.conn.Close()]. *)
Definition deactivate (e : nat) (s : packetListenerWrapper) : packetListenerWrapper :=
  {| s with pl_heap := alter (set_active false) e (pl_heap s) |}.
Definition close_conn (e : nat) (s : packetListenerWrapper) : packetListenerWrapper :=
  {| s with pl_heap := alter set_closed e (pl_heap s) |}.

Definition option_do {A} (f : A -> packetListenerWrapper -> packetListenerWrapper) (o : option A) :
    packetListenerWrapper -> packetListenerWrapper :=
  match o with Some x => f x | None => id end.

(** ** The acceptor *)

(** [Accept] answered a connection: the critical section of the loop.  A closed
    wrapper closes the connection and leaves. *)
Definition accept_install (raddr : option net_addr) (s : packetListenerWrapper) : outcome :=
  match pl_acceptor s with
  | AAccepting =>
      let e := pl_next s in
      if pl_closed s then
        Next {| s with pl_acceptor := AWaiting |}
      else
        let nextPeer := if pl_uniquePeers s then u64 (pl_nextPeer s + 1) else pl_nextPeer s in
        let peer := if pl_uniquePeers s then Some (packetListenerPeerAddr nextPeer) else raddr in
        let key := packetAddrKey peer in
        match pl_conns s with
        | None => Panicked               (* assignment to a nil map *)
        | Some conns =>
            let previous := conns !! key in
            let s := option_do deactivate previous s in
            Next {| s with
              pl_nextPeer := nextPeer; pl_next := S e;
              pl_heap := <[e := MkConn raddr peer true false]> (pl_heap s);
              pl_conns := Some (<[key := e]> conns);
              pl_readers := pl_readers s + 1;
              pl_acceptor := AInstalled e previous |}
        end
  | _ => Blocked
  end.

(** The rest of the iteration: close the replaced connection, start the reader. *)
Definition accept_spawn (s : packetListenerWrapper) : outcome :=
  match pl_acceptor s with
  | AInstalled e previous =>
      let s := option_do close_conn previous s in
      let key := packetAddrKey (match pl_heap s !! e with Some x => lc_peer x | None => None end) in
      Next {| s with pl_readerThreads := <[e := (RReading, key)]> (pl_readerThreads s);
                     pl_acceptor := AAccepting |}
  | _ => Blocked
  end.

Definition accept_fail (err : option pl_error) (s : packetListenerWrapper) : outcome :=
  match pl_acceptor s with
  | AAccepting => Next {| (stopAdmission err s) with pl_acceptor := AWaiting |}
  | _ => Blocked
  end.

(** The deferred function: [readers.Wait()], [closeInner()], [close(shutdownDone)]. *)
Definition accept_exit (res : option pl_error) (s : packetListenerWrapper) : outcome :=
  match pl_acceptor s with
  | AWaiting => if pl_readers s =? 0 then Next {| s with pl_acceptor := AClosing |} else Blocked
  | AClosing => Next {| (closeInner res s) with pl_acceptor := ASignalling |}
  | ASignalling => if pl_shutdownDone s then Panicked
                   else Next {| s with pl_shutdownDone := true; pl_acceptor := AGone |}
  | _ => Blocked
  end.

(** ** The readers *)

Definition set_reader (e : nat) (r : reader) (key : string) (s : packetListenerWrapper) : packetListenerWrapper :=
  {| s with pl_readerThreads := <[e := (r, key)]> (pl_readerThreads s) |}.

Definition is_active (e : nat) (s : packetListenerWrapper) : bool :=
  match pl_heap s !! e with Some x => lc_active x | None => false end.

(** [entry.conn.ReadFrom(buf)] answered: an error, or a packet that is dropped
    with the reader when the connection is not active any more. *)
Definition read_packet (e : nat) (got : option (list byte)) (s : packetListenerWrapper) : outcome :=
  match pl_readerThreads s !! e with
  | Some (RReading, key) =>
      match got with
      | None => Next (set_reader e RDone key s)
      | Some data =>
          if is_active e s then
            let peer := match pl_heap s !! e with Some x => lc_peer x | None => None end in
            Next (set_reader e (RSending (MkPacket (take (Z.to_nat 65535) data) peer (Some e))) key s)
          else Next (set_reader e RDone key s)
      end
  | _ => Blocked
  end.

Inductive select := SelSend | SelDone | SelDefault.

(** The select: a send when there is room, the return when the wrapper is done,
    the default branch, which drops the packet, when neither is ready. *)
Definition read_select (e : nat) (c : select) (s : packetListenerWrapper) : outcome :=
  match pl_readerThreads s !! e with
  | Some (RSending p, key) =>
      match c, chan_try_send (pl_pkts s) p with
      | SelSend, Some pkts => Next (set_reader e RReading key {| s with pl_pkts := pkts |})
      | SelDone, _ => if pl_done s then Next (set_reader e RDone key s) else Blocked
      | SelDefault, None => if pl_done s then Blocked else Next (set_reader e RReading key s)
      | _, _ => Blocked
      end
  | _ => Blocked
  end.

(** The deferred function of a reader. *)
Definition read_exit (e : nat) (s : packetListenerWrapper) : outcome :=
  match pl_readerThreads s !! e with
  | Some (RDone, key) =>
      if pl_readers s <=? 0 then Panicked     (* negative WaitGroup counter *)
      else Next (set_reader e RRelease key {| s with pl_readers := pl_readers s - 1 |})
  | Some (RRelease, key) => Next (set_reader e RDetach key (close_conn e (deactivate e s)))
  | Some (RDetach, key) =>
      let s := {| s with pl_readerThreads := delete e (pl_readerThreads s) |} in
      if pl_closed s then Next s
      else
        let s := match pl_conns s with
                 | Some conns => if decide (conns !! key = Some e)
                                 then {| s with pl_conns := Some (delete key conns) |} else s
                 | None => s
                 end in
        if pl_admissionStopped s && bool_decide (default ∅ (pl_conns s) = ∅)
        then Next (close_done {| s with pl_closed := true |}) else Next s
  | _ => Blocked
  end.

(** ** Callers *)

Definition pl_err (s : packetListenerWrapper) : pl_error := default EClosed (pl_closeErr s).

Definition set_caller (k n : nat) (p : rf_phase) (s : packetListenerWrapper) : packetListenerWrapper :=
  {| s with pl_callers := <[k := (n, p)]> (pl_callers s) |}.

(** A call of [ReadFrom(p)] with [len(p) = n]. *)
Definition ReadFrom_call (k n : nat) (s : packetListenerWrapper) : outcome :=
  match pl_callers s !! k with None => Next (set_caller k n FStart s) | Some _ => Blocked end.

Inductive receive := RecvPacket | RecvDone | RecvChanged.

(** One step of the loop at time [now]; [c] is the branch of the select. *)
Definition ReadFrom (k : nat) (now : Z) (c : receive) (s : packetListenerWrapper) : outcome :=
  match pl_callers s !! k with
  | Some (n, FStart) =>
      if pl_done s then Next (set_caller k n (FReturned (Err (pl_err s))) s)
      else
        let '(deadline, changed) := snapshot (pl_readDeadline s) in
        if expired (pl_readDeadline s) now then Next (set_caller k n (FReturned (Err EDeadline)) s)
        else Next (set_caller k n (FWait changed) s)
  | Some (n, FWait changed) =>
      match c with
      | RecvPacket =>
          match chan_buf (pl_pkts s) with
          | [] => Blocked
          | p :: rest =>
              let s := {| s with pl_pkts := Chan rest (chan_cap (pl_pkts s)) (chan_closed (pl_pkts s)) |} in
              let stale := match pk_source p with Some e => negb (is_active e s) | None => false end in
              Next (set_caller k n (if stale then FStart else FHave p) s)
          end
      | RecvDone => if pl_done s then Next (set_caller k n (FReturned (Err (pl_err s))) s) else Blocked
      | RecvChanged => if decide (changed ∈ pd_closed (pl_readDeadline s)) then Next (set_caller k n FStart s)
                       else Blocked
      end
  | Some (n, FHave p) =>
      Next (set_caller k n (FReturned (if pl_done s then Err (pl_err s)
                                       else Ok (take n (pk_data p), pk_addr p))) s)
  | _ => Blocked
  end.

(** [WriteTo(p, addr)] up to the inner connection: the connection the packet is
    written to, the remote address it is given and the deadline set on it. *)
Definition WriteTo (addr : option net_addr) (now : Z) (s : packetListenerWrapper) :
    result pl_error (nat * option net_addr * instant) :=
  if expired (pl_writeDeadline s) now then Err EDeadline
  else if pl_closed s then Err EClosed
  else match default ∅ (pl_conns s) !! packetAddrKey addr with
       | None => Err ENoConnection
       | Some e => match pl_heap s !! e with
                   | Some x => Ok (e, lc_addr x, fst (snapshot (pl_writeDeadline s)))
                   | None => Err ENoConnection
                   end
       end.

Definition SetReadDeadline (t : instant) (now : Z) (s : packetListenerWrapper) :
    option (result pl_error packetListenerWrapper) :=
  if pl_closed s then Some (Err EClosed)
  else d ← set_deadline (pl_readDeadline s) t now; Some (Ok {| s with pl_readDeadline := d |}).

(** With the connections whose own deadline is set; [None] is a panic. *)
Definition SetWriteDeadline (t : instant) (now : Z) (s : packetListenerWrapper) :
    option (result pl_error (packetListenerWrapper * list nat)) :=
  if pl_closed s then Some (Err EClosed)
  else d ← set_deadline (pl_writeDeadline s) t now;
       Some (Ok ({| s with pl_writeDeadline := d |}, (map_to_list (default ∅ (pl_conns s))).*2)).

(** ** Shutdown *)

(** The critical section of [initiateShutdown]; [shutdownOnce] lets one caller run it. *)
Definition initiateShutdown (err : option pl_error) (s : packetListenerWrapper) : outcome :=
  match pl_shutdown s with
  | ShNone =>
      let es := (map_to_list (default ∅ (pl_conns s))).*2 in
      let s := {| s with pl_closed := true; pl_closeErr := Some (default EClosed err);
                         pl_admissionDone := true; pl_conns := None |} in
      let s := foldr deactivate s es in
      Next {| (close_done s) with pl_shutdown := ShInner es |}
  | _ => Blocked
  end.

(** The calls that follow it. *)
Definition shutdown_next (res : option pl_error) (s : packetListenerWrapper) : outcome :=
  match pl_shutdown s with
  | ShInner es => Next {| (closeInner res s) with pl_shutdown := ShConns es |}
  | ShConns (e :: es) => Next {| (close_conn e s) with pl_shutdown := ShConns es |}
  | ShConns [] => Next {| s with pl_shutdown := ShDone |}
  | _ => Blocked
  end.

(** What a [Close] that has called [initiateShutdown] returns, when it can. *)
Definition Close_returns (s : packetListenerWrapper) : option (option pl_error) :=
  match pl_shutdown s with
  | ShDone => if pl_shutdownDone s then Some (pl_shutdownErr s) else None
  | _ => None
  end.

(** ** Interleavings *)

Inductive action :=
| AccInstall (raddr : option net_addr)
| AccSpawn
| AccFail (err : option pl_error)
| AccExit (res : option pl_error)
| RdPacket (e : nat) (got : option (list byte))
| RdSelect (e : nat) (c : select)
| RdExit (e : nat)
| CallRead (k n : nat)
| ReadStep (k : nat) (now : Z) (c : receive)
| CallSetRead (t : instant) (now : Z)
| CallSetWrite (t : instant) (now : Z)
| FireRead (ch : nat)
| FireWrite (ch : nat)
| CallShutdown (err : option pl_error)
| ShutStep (res : option pl_error).

Definition step (a : action) (s : packetListenerWrapper) : outcome :=
  match a with
  | AccInstall raddr => accept_install raddr s
  | AccSpawn => accept_spawn s
  | AccFail err => accept_fail err s
  | AccExit res => accept_exit res s
  | RdPacket e got => read_packet e got s
  | RdSelect e c => read_select e c s
  | RdExit e => read_exit e s
  | CallRead k n => ReadFrom_call k n s
  | ReadStep k now c => ReadFrom k now c s
  | CallSetRead t now => match SetReadDeadline t now s with
                         | Some (Ok s') => Next s' | Some (Err _) => Next s | None => Panicked end
  | CallSetWrite t now => match SetWriteDeadline t now s with
                          | Some (Ok (s', _)) => Next s' | Some (Err _) => Next s | None => Panicked end
  | FireRead ch =>
      if bool_decide (ch ∈ (pd_armed (pl_readDeadline s)).*1) then
        match fire (pl_readDeadline s) ch with
        | Some d => Next {| s with pl_readDeadline := d |} | None => Panicked end
      else Blocked
  | FireWrite ch =>
      if bool_decide (ch ∈ (pd_armed (pl_writeDeadline s)).*1) then
        match fire (pl_writeDeadline s) ch with
        | Some d => Next {| s with pl_writeDeadline := d |} | None => Panicked end
      else Blocked
  | CallShutdown err => initiateShutdown err s
  | ShutStep res => shutdown_next res s
  end.

Definition moves (s s' : packetListenerWrapper) : Prop := exists a, step a s = Next s'.

Definition reachable (s : packetListenerWrapper) : Prop :=
  exists u, rtc moves (packetConnFromPacketListener u) s.

(** ** The invariant *)

(** The readers the WaitGroup counts. *)
Definition counted (r : reader * string) : bool :=
  match fst r with RReading | RSending _ | RDone => true | RRelease | RDetach => false end.

Definition installing (a : acceptor) : Z := match a with AInstalled _ _ => 1 | _ => 0 end.

Definition live_readers (m : gmap nat (reader * string)) : Z :=
  Z.of_nat (size (filter (fun '(_, r) => counted r = true) m)).

(** Whether the acceptor can still install a connection. *)
Definition admitting (a : acceptor) : bool := match a with AAccepting | AInstalled _ _ => true | _ => false end.

Record inv_conns (s : packetListenerWrapper) : Prop := {
  ic_alloc : forall e x, pl_heap s !! e = Some x -> (e < pl_next s)%nat;
  ic_entry : forall m k e, pl_conns s = Some m -> m !! k = Some e ->
               exists x, pl_heap s !! e = Some x /\ packetAddrKey (lc_peer x) = k;
  ic_active : forall e x, pl_heap s !! e = Some x -> lc_active x = true ->
               exists m, pl_conns s = Some m /\ m !! packetAddrKey (lc_peer x) = Some e;
  ic_packet : forall p, p ∈ chan_buf (pl_pkts s) \/ (exists e k, pl_readerThreads s !! e = Some (RSending p, k)) \/
                        (exists c n, pl_callers s !! c = Some (n, FHave p)) ->
               exists e x, pk_source p = Some e /\ pl_heap s !! e = Some x /\ pk_addr p = lc_peer x;
  ic_queue : chan_bounded (pl_pkts s) /\ chan_cap (pl_pkts s) = 100%nat;
}.

Record inv_end (s : packetListenerWrapper) : Prop := {
  ie_done : pl_done s = pl_closed s;
  ie_err : pl_closed s = true \/ pl_admissionStopped s = true -> pl_closeErr s <> None;
  ie_nil : pl_conns s = None -> pl_closed s = true;
  ie_shut : pl_shutdown s <> ShNone -> pl_closed s = true /\ pl_conns s = None;
  ie_natural : pl_closed s = true -> pl_shutdown s = ShNone ->
                 pl_conns s = Some ∅ /\ admitting (pl_acceptor s) = false;
  ie_admission : pl_admissionStopped s = true -> admitting (pl_acceptor s) = false;
  ie_stopped : admitting (pl_acceptor s) = false -> pl_closed s = true \/ pl_admissionStopped s = true;
  ie_signal : pl_shutdownDone s = bool_decide (pl_acceptor s = AGone);
  ie_inner : pl_acceptor s = ASignalling \/ pl_acceptor s = AGone -> pl_innerClosed s = true;
}.

Record inv_threads (s : packetListenerWrapper) : Prop := {
  it_count : pl_readers s = installing (pl_acceptor s) + live_readers (pl_readerThreads s);
  it_thread : forall e r k, pl_readerThreads s !! e = Some (r, k) ->
                exists x, pl_heap s !! e = Some x /\ k = packetAddrKey (lc_peer x);
  it_installed : forall e p, pl_acceptor s = AInstalled e p ->
                (exists x, pl_heap s !! e = Some x) /\ pl_readerThreads s !! e = None /\
                (forall q, p = Some q -> exists x, pl_heap s !! q = Some x);
  it_served : forall m k e, pl_conns s = Some m -> m !! k = Some e ->
                is_Some (pl_readerThreads s !! e) \/ exists p, pl_acceptor s = AInstalled e p;
  it_release : forall e k x, pl_readerThreads s !! e = Some (RDetach, k) -> pl_heap s !! e = Some x -> lc_active x = false;
}.

(** Peers of [uniquePeers] are numbered in the order of acceptance, modulo 2^64. *)
Record inv_peers (s : packetListenerWrapper) : Prop := {
  ip_next : pl_uniquePeers s = true -> pl_nextPeer s = u64 (Z.of_nat (pl_next s));
  ip_peer : forall e x, pl_uniquePeers s = true -> pl_heap s !! e = Some x ->
              lc_peer x = Some (packetListenerPeerAddr (u64 (Z.of_nat e + 1)));
}.

Record inv (s : packetListenerWrapper) : Prop := {
  i_conns : inv_conns s;
  i_end : inv_end s;
  i_threads : inv_threads s;
  i_peers : inv_peers s;
  i_rd : dl_inv (pl_readDeadline s);
  i_wd : dl_inv (pl_writeDeadline s);
}.

(** ** Preservation *)

(** Entries keep their addresses; an inactive entry stays inactive. *)
Definition fades (h h' : gmap nat packetListenerConn) : Prop := forall e,
  match h !! e, h' !! e with
  | Some x, Some y => lc_peer y = lc_peer x /\ lc_addr y = lc_addr x /\ (lc_active y = true -> lc_active x = true)
  | None, None => True
  | _, _ => False
  end.

Lemma fades_refl h : fades h h.
Proof. intros e. by destruct (h !! e). Qed.

Lemma fades_trans h1 h2 h3 : fades h1 h2 -> fades h2 h3 -> fades h1 h3.
Proof.
  intros H1 H2 e. specialize (H1 e). specialize (H2 e).
  destruct (h1 !! e), (h2 !! e), (h3 !! e); naive_solver congruence.
Qed.

Lemma fades_alter f e h :
  (forall x, lc_peer (f x) = lc_peer x /\ lc_addr (f x) = lc_addr x /\ (lc_active (f x) = true -> lc_active x = true)) ->
  fades h (alter f e h).
Proof.
  intros Hf e'. destruct (decide (e = e')) as [->|Hn].
  - rewrite lookup_alter_eq. destruct (h !! e'); simpl; [apply Hf|done].
  - rewrite lookup_alter_ne by done. by destruct (h !! e').
Qed.

Lemma fades_deactivate h e : fades h (alter (set_active false) e h).
Proof. by apply fades_alter. Qed.

Lemma fades_close h e : fades h (alter set_closed e h).
Proof. by apply fades_alter. Qed.

Lemma fades_some h h' e y : fades h h' -> h' !! e = Some y ->
  exists x, h !! e = Some x /\ lc_peer y = lc_peer x /\ lc_addr y = lc_addr x /\ (lc_active y = true -> lc_active x = true).
Proof. intros H E. specialize (H e). rewrite E in H. destruct (h !! e) as [x|]; [by exists x|done]. Qed.

Lemma fades_exists h h' e x : fades h h' -> h !! e = Some x ->
  exists y, h' !! e = Some y /\ lc_peer y = lc_peer x /\ lc_addr y = lc_addr x.
Proof. intros H E. specialize (H e). rewrite E in H. destruct (h' !! e) as [y|]; [exists y; naive_solver|done]. Qed.

Ltac inv_open H :=
  destruct H as [[ic_alloc ic_entry ic_active ic_packet ic_queue]
                 [ie_done ie_err ie_nil ie_shut ie_natural ie_admission ie_stopped ie_signal ie_inner]
                 [it_count it_thread it_installed it_served it_release] [ip_next ip_peer] i_rd i_wd].

(** Split the invariant of the new state and keep the parts that did not change. *)
Ltac inv_close := split; [split|split|split|split| |]; cbn; try assumption.

Lemma inv_fade s h' : inv s -> fades (pl_heap s) h' -> inv {| s with pl_heap := h' |}.
Proof.
  intros Hi Hf. inv_open Hi. inv_close.
  - intros e y Hy. destruct (fades_some _ _ _ _ Hf Hy) as (x & ? & _). eauto.
  - intros m k e Hm He. destruct (ic_entry m k e Hm He) as (x & Hx & <-).
    destruct (fades_exists _ _ _ _ Hf Hx) as (y & ? & <- & _). eauto.
  - intros e y Hy Ha. destruct (fades_some _ _ _ _ Hf Hy) as (x & Hx & -> & _ & Hax). eauto.
  - intros p Hp. destruct (ic_packet p Hp) as (e & x & ? & Hx & ->).
    destruct (fades_exists _ _ _ _ Hf Hx) as (y & ? & <- & _). eauto.
  - intros e r k Hr. destruct (it_thread e r k Hr) as (x & Hx & ->).
    destruct (fades_exists _ _ _ _ Hf Hx) as (y & ? & <- & _). eauto.
  - intros e p Ha. destruct (it_installed e p Ha) as ([x Hx] & ? & Hp). split_and!; [|done|].
    + destruct (fades_exists _ _ _ _ Hf Hx) as (y & ? & _). eauto.
    + intros q Hq. destruct (Hp q Hq) as [z Hz]. destruct (fades_exists _ _ _ _ Hf Hz) as (y & ? & _). eauto.
  - intros e k y Hr Hy. destruct (fades_some _ _ _ _ Hf Hy) as (x & Hx & _ & _ & Hax).
    destruct (lc_active y) eqn:Ey; [|done]. specialize (it_release e k x Hr Hx). by rewrite Hax in it_release.
  - intros e y Hu Hy. destruct (fades_some _ _ _ _ Hf Hy) as (x & Hx & -> & _). eauto.
Qed.

Lemma live_readers_insert m e r :
  live_readers (<[e := r]> m) =
  live_readers m + (if counted r then 1 else 0) - (match m !! e with Some r' => if counted r' then 1 else 0 | None => 0 end).
Proof.
  assert (Hf : forall m' : gmap nat (reader * string), m' !! e = None -> forall r',
    live_readers (<[e := r']> m') = live_readers m' + (if counted r' then 1 else 0)).
  { intros m' Hm r'. unfold live_readers. destruct (counted r') eqn:E.
    - rewrite map_filter_insert_True by done. rewrite map_size_insert_None; [lia|].
      apply map_lookup_filter_None_2. by left.
    - rewrite map_filter_insert_False by (by rewrite E). rewrite delete_id by done. lia. }
  destruct (m !! e) as [r'|] eqn:E; [|rewrite Hf by done; lia].
  assert (Em : live_readers m = live_readers (delete e m) + (if counted r' then 1 else 0)).
  { rewrite <- (insert_delete_id m e r') at 1 by done. by rewrite Hf by apply lookup_delete_eq. }
  rewrite <- insert_delete_eq, Hf by apply lookup_delete_eq. lia.
Qed.

Lemma live_readers_delete m e :
  live_readers (delete e m) =
  live_readers m - (match m !! e with Some r' => if counted r' then 1 else 0 | None => 0 end).
Proof.
  destruct (m !! e) as [r|] eqn:E; [|rewrite delete_id by done; lia].
  assert (Em : m = <[e := r]> (delete e m)) by by rewrite insert_delete_id.
  rewrite Em at 2. rewrite live_readers_insert, lookup_delete_eq. lia.
Qed.

Lemma live_readers_nonneg m : 0 <= live_readers m.
Proof. unfold live_readers. lia. Qed.

Definition good (o : outcome) : Prop := match o with Next s' => inv s' | Blocked => True | Panicked => False end.

Lemma good_if (b : bool) o1 o2 :
  (b = true -> good o1) -> (b = false -> good o2) -> good (if b then o1 else o2).
Proof. destruct b; auto. Qed.

(** A connection installed under a key whose previous entry is not active. *)
Lemma install_ok s raddr m :
  inv s -> pl_acceptor s = AAccepting -> pl_closed s = false -> pl_conns s = Some m ->
  let nextPeer := if pl_uniquePeers s then u64 (pl_nextPeer s + 1) else pl_nextPeer s in
  let peer := if pl_uniquePeers s then Some (packetListenerPeerAddr nextPeer) else raddr in
  (forall q x, m !! packetAddrKey peer = Some q -> pl_heap s !! q = Some x -> lc_active x = false) ->
  inv {| s with
    pl_nextPeer := nextPeer; pl_next := S (pl_next s);
    pl_heap := <[pl_next s := MkConn raddr peer true false]> (pl_heap s);
    pl_conns := Some (<[packetAddrKey peer := pl_next s]> m);
    pl_readers := pl_readers s + 1;
    pl_acceptor := AInstalled (pl_next s) (m !! packetAddrKey peer) |}.
Proof.
  intros Hi Ha Hcl Hm nextPeer peer Hprev. inv_open Hi.
  assert (Hfresh : forall e x, pl_heap s !! e = Some x -> e <> pl_next s) by (intros e x He%ic_alloc; lia).
  rewrite Ha in *. inv_close.
  - intros e x. rewrite lookup_insert_Some. intros [[<- _]|[_ He%ic_alloc]]; lia.
  - intros m' k e [= <-]. rewrite lookup_insert_Some. intros [[<- <-]|[Hk He]].
    + rewrite lookup_insert_eq. eauto.
    + destruct (ic_entry m k e Hm He) as (x & Hx & ?). rewrite lookup_insert_ne by (symmetry; eauto). eauto.
  - intros e x. rewrite lookup_insert_Some. intros [[<- <-]|[Hn Hx]] Hact; simpl.
    + eexists. split; [done|]. apply lookup_insert_eq.
    + destruct (ic_active e x Hx Hact) as (m' & Hm' & He). simplify_eq. eexists.
      split; [done|]. rewrite lookup_insert_ne; [done|]. intros E. rewrite <- E in He.
      rewrite (Hprev e x He Hx) in Hact. done.
  - intros p Hp. destruct (ic_packet p Hp) as (e & x & ? & Hx & ?). exists e, x.
    rewrite lookup_insert_ne by (symmetry; eauto). done.
  - done.
  - intros Hs. destruct (ie_shut Hs). congruence.
  - congruence.
  - intros [?|?]; done.
  - simpl in it_count. lia.
  - intros e r k Hr. destruct (it_thread e r k Hr) as (x & Hx & ?). exists x.
    rewrite lookup_insert_ne by (symmetry; eauto). done.
  - intros e p [= <- <-]. split_and!.
    + rewrite lookup_insert_eq. eauto.
    + destruct (pl_readerThreads s !! pl_next s) as [[r k]|] eqn:E; [|done].
      destruct (it_thread _ _ _ E) as (x & Hx%ic_alloc & _). lia.
    + intros q Hq. destruct (ic_entry _ _ _ Hm Hq) as (x & Hx & _). exists x.
      rewrite lookup_insert_ne by (symmetry; eauto). done.
  - intros m' k e [= <-]. rewrite lookup_insert_Some. intros [[<- <-]|[Hk He]]; [eauto|].
    destruct (it_served m k e Hm He) as [?|[p ?]]; [by left|done].
  - intros e k x Hr. rewrite lookup_insert_ne; [eauto|]. destruct (it_thread e _ k Hr) as (y & Hy & _).
    symmetry. eauto.
  - intros Hu. subst nextPeer. rewrite Hu, (ip_next Hu). unfold u64. rewrite Zplus_mod_idemp_l. f_equal. lia.
  - intros e x Hu. rewrite lookup_insert_Some. intros [[<- <-]|[_ Hx]]; simpl; [|eauto].
    subst peer nextPeer. rewrite Hu, (ip_next Hu). unfold u64. by rewrite Zplus_mod_idemp_l.
Qed.

Lemma accept_install_ok s raddr : inv s -> good (accept_install raddr s).
Proof.
  intros Hi. unfold accept_install. destruct (pl_acceptor s) eqn:Ha; try done.
  apply good_if; intros Hc.
  { inv_open Hi. rewrite Ha in *. inv_close; try done.
    - intros _ Hs. destruct (ie_natural Hc Hs). done.
    - by left.
    - intros [?|?]; done.
    - intros m k e Hm He. destruct (it_served m k e Hm He) as [?|[? ?]]; [by left|done]. }
  destruct (pl_conns s) as [m|] eqn:Hm.
  2: { pose proof (ie_nil s (i_end s Hi) Hm). congruence. }
  cbv zeta. set (np := if pl_uniquePeers s then u64 _ else _). set (peer := if pl_uniquePeers s then Some _ else _).
  destruct (m !! packetAddrKey peer) as [q|] eqn:Eq; simpl.
  - rewrite <- Eq. apply (install_ok (deactivate q s) raddr m); try done.
    + by apply inv_fade, fades_deactivate.
    + intros q' x. cbn. fold np peer. rewrite Eq. intros [= <-]. rewrite lookup_alter_eq.
      destruct (pl_heap s !! q); [|done]. intros [= <-]. done.
  - rewrite <- Eq. apply (install_ok s raddr m); try done.
    intros q' x. fold np peer. by rewrite Eq.
Qed.

Lemma accept_spawn_ok s : inv s -> good (accept_spawn s).
Proof.
  intros Hi. unfold accept_spawn. destruct (pl_acceptor s) as [|e p| | | |] eqn:Ha; try done.
  set (s1 := option_do close_conn p s).
  assert (Hi1 : inv s1) by (destruct p; [by apply inv_fade, fades_close|done]).
  assert (Ha1 : pl_acceptor s1 = AInstalled e p) by by destruct p.
  clearbody s1. clear Hi Ha s. rename s1 into s, Ha1 into Ha. inv_open Hi1. rewrite Ha in *.
  destruct (it_installed e p eq_refl) as ([x Hx] & Hn & _). rewrite Hx. cbn. inv_close; try done.
  - intros q [?|[(e' & k & Hk)|?]]; [by auto| |by auto]. apply lookup_insert_Some in Hk as [[_ [=]]|[_ ?]].
    apply ic_packet. right. left. by exists e', k.
  - intros [?|?]; done.
  - rewrite live_readers_insert, Hn. cbn [counted fst]. simpl in it_count. lia.
  - intros e' r k. rewrite lookup_insert_Some. intros [[<- [= <- <-]]|[_ ?]]; eauto.
  - intros m k e' Hm He. left. rewrite lookup_insert_is_Some.
    destruct (decide (e = e')); [by left|]. right. split; [done|].
    by destruct (it_served m k e' Hm He) as [?|[q [= ? _]]].
  - intros e' k y. rewrite lookup_insert_Some. intros [[_ [=]]|[_ ?]]; eauto.
Qed.

Lemma stopAdmission_cases err s (Q : packetListenerWrapper -> Prop) :
  let s1 := {| s with pl_admissionStopped := true; pl_closeErr := Some (default EClosed err); pl_admissionDone := true |} in
  (pl_closed s = true -> Q s) ->
  (pl_closed s = false -> default ∅ (pl_conns s) = ∅ -> Q (close_done {| s1 with pl_closed := true |})) ->
  (pl_closed s = false -> default ∅ (pl_conns s) <> ∅ -> Q s1) ->
  Q (stopAdmission err s).
Proof. intros s1 H1 H2 H3. unfold stopAdmission. destruct (pl_closed s); [auto|]. case_decide; auto. Qed.

Lemma accept_fail_ok s err : inv s -> good (accept_fail err s).
Proof.
  intros Hi. unfold accept_fail. destruct (pl_acceptor s) eqn:Ha; try done.
  inv_open Hi. rewrite Ha in *.
  assert (Hserved : forall m k e, pl_conns s = Some m -> m !! k = Some e ->
    is_Some (pl_readerThreads s !! e) \/ (exists p, AWaiting = AInstalled e p)).
  { intros m k e Hm He. destruct (it_served m k e Hm He) as [?|[? ?]]; [by left|done]. }
  apply (stopAdmission_cases err s (fun s' => good (Next {| s' with pl_acceptor := AWaiting |}))).
  - intros Hc. inv_close; try done.
    + intros _ Hs. by destruct (ie_natural Hc Hs).
    + by left.
    + intros [?|?]; done.
  - intros Hc He. assert (Hm : pl_conns s = Some ∅).
    { destruct (pl_conns s) as [m|] eqn:Hm; [by simpl in He; subst|]. rewrite (ie_nil eq_refl) in Hc. done. }
    inv_close; try done.
    + intros Hs. destruct (ie_shut Hs). congruence.
    + by left.
    + intros [?|?]; done.
  - intros Hc He. inv_close; try done.
    + congruence.
    + by right.
    + intros [?|?]; done.
Qed.

Lemma closeInner_keeps res s : inv s -> inv (closeInner res s).
Proof.
  intros Hi. unfold closeInner. destruct (pl_innerClosed s) eqn:E; [done|]. inv_open Hi. by inv_close.
Qed.

Lemma accept_exit_ok s res : inv s -> good (accept_exit res s).
Proof.
  intros Hi. unfold accept_exit. destruct (pl_acceptor s) eqn:Ha; try done.
  - apply good_if; intros E; [|done]. inv_open Hi. rewrite Ha in *. inv_close; try done.
    + intros [?|?]; done.
    + intros m k e Hm He. destruct (it_served m k e Hm He) as [?|[? ?]]; [by left|done].
  - assert (Hx : pl_innerClosed (closeInner res s) = true)
      by (unfold closeInner; by destruct (pl_innerClosed s) eqn:?).
    assert (Ha' : pl_acceptor (closeInner res s) = AClosing) by (unfold closeInner; by destruct (pl_innerClosed s)).
    apply (closeInner_keeps res) in Hi. revert Hi Hx Ha'. generalize (closeInner res s). clear. intros s Hi Hx Ha.
    inv_open Hi. rewrite Ha in *. inv_close; try done.
    intros m k e Hm He. destruct (it_served m k e Hm He) as [?|[? ?]]; [by left|done].
  - apply good_if; intros E; inv_open Hi; rewrite Ha in *; [by rewrite ie_signal in E|].
    inv_close; try done.
    + auto.
    + intros m k e Hm He. destruct (it_served m k e Hm He) as [?|[? ?]]; [by left|done].
Qed.

Lemma is_Some_insert_thread (m : gmap nat (reader * string)) e e' v :
  is_Some (m !! e') -> is_Some (<[e := v]> m !! e').
Proof. intros H. rewrite lookup_insert_is_Some. destruct (decide (e = e')); auto. Qed.

(** A reader moves on: the WaitGroup is adjusted when it stops being counted. *)
Lemma set_reader_ok s e r r' k :
  inv s -> pl_readerThreads s !! e = Some (r, k) ->
  (counted (r', k) = true -> counted (r, k) = true) ->
  (forall p, r' = RSending p -> exists e x, pk_source p = Some e /\ pl_heap s !! e = Some x /\ pk_addr p = lc_peer x) ->
  (r' = RDetach -> forall x, pl_heap s !! e = Some x -> lc_active x = false) ->
  inv (set_reader e r' k {| s with pl_readers := pl_readers s + (if counted (r', k) then 1 else 0)
                                                 - (if counted (r, k) then 1 else 0) |}).
Proof.
  intros Hi Hr Hc Hp Hd. inv_open Hi. inv_close.
  - intros p [?|[(e' & k' & Hk)|?]]; [by auto| |by auto].
    apply lookup_insert_Some in Hk as [[_ [= E _]]|[_ ?]]; [by apply Hp|].
    apply ic_packet. right. left. by exists e', k'.
  - rewrite live_readers_insert, Hr. lia.
  - intros e' r0 k'. rewrite lookup_insert_Some. intros [[<- [= <- <-]]|[_ ?]]; eauto.
  - intros e' p Ha. destruct (it_installed e' p Ha) as (? & Hn & ?). split_and!; [done| |done].
    rewrite lookup_insert_ne; congruence.
  - intros m k' e' Hm He. destruct (it_served m k' e' Hm He) as [?|?]; [|by right].
    left. by apply is_Some_insert_thread.
  - intros e' k' x. rewrite lookup_insert_Some. intros [[<- [= E _]]|[_ ?]]; eauto.
Qed.

(** The case where nothing is counted differently. *)
Lemma set_reader_same s e r r' k :
  inv s -> pl_readerThreads s !! e = Some (r, k) -> counted (r', k) = counted (r, k) ->
  (forall p, r' = RSending p -> exists e x, pk_source p = Some e /\ pl_heap s !! e = Some x /\ pk_addr p = lc_peer x) ->
  (r' = RDetach -> forall x, pl_heap s !! e = Some x -> lc_active x = false) ->
  inv (set_reader e r' k s).
Proof.
  intros Hi Hr Hc Hp Hd. pose proof (set_reader_ok s e r r' k Hi Hr ltac:(congruence) Hp Hd) as H.
  rewrite Hc in H. rewrite Z.add_simpl_r in H. by destruct s.
Qed.

Lemma read_packet_ok s e got : inv s -> good (read_packet e got s).
Proof.
  intros Hi. unfold read_packet. destruct (pl_readerThreads s !! e) as [[r k]|] eqn:Hr; [|done].
  destruct r; try done. assert (Hexit : inv (set_reader e RDone k s)) by by eapply set_reader_same.
  destruct got as [data|]; [|done]. apply good_if; intros Ha; [|done].
  eapply set_reader_same; try done. intros p [= <-]. simpl. unfold is_active in Ha.
  destruct (pl_heap s !! e) as [x|] eqn:Hx; [|done]. eauto.
Qed.

Lemma read_select_ok s e c : inv s -> good (read_select e c s).
Proof.
  intros Hi. unfold read_select. destruct (pl_readerThreads s !! e) as [[r k]|] eqn:Hr; [|done].
  destruct r as [|p| | |]; try done.
  assert (Hback : inv (set_reader e RReading k s)) by by eapply set_reader_same.
  destruct c, (chan_try_send (pl_pkts s) p) as [pkts|] eqn:Es; try done;
    try (apply good_if; intros _; try done; by eapply set_reader_same).
  apply chan_try_send_Some in Es as (Eb & Ec & _ & Hlt).
  assert (Hp : exists e x, pk_source p = Some e /\ pl_heap s !! e = Some x /\ pk_addr p = lc_peer x).
  { apply (ic_packet s (i_conns s Hi)). right. left. by exists e, k. }
  inv_open Hback. inv_close.
  - intros q [Hq|Hq]; [|by apply ic_packet; right]. rewrite Eb in Hq.
    apply elem_of_app in Hq as [?| ->%list_elem_of_singleton]; [by apply ic_packet; left|done].
  - unfold chan_bounded. destruct ic_queue as [_ Hcap]. simpl in Hcap. rewrite Eb, length_app, Ec. simpl. lia.
Qed.

Lemma counted_live m e r : m !! e = Some r -> counted r = true -> 1 <= live_readers m.
Proof.
  intros Hm Hc. pose proof (live_readers_nonneg (delete e m)) as H.
  rewrite live_readers_delete, Hm, Hc in H. lia.
Qed.

(** A reader that is not counted any more leaves, and its connection with it. *)
Lemma reader_gone_ok s e k :
  inv s -> pl_readerThreads s !! e = Some (RDetach, k) -> pl_closed s = true ->
  inv {| s with pl_readerThreads := delete e (pl_readerThreads s) |}.
Proof.
  intros Hi Hr Hc. inv_open Hi. inv_close.
  - intros p [?|[(e' & k' & Hk)|?]]; [by auto| |by auto]. apply lookup_delete_Some in Hk as [_ ?].
    apply ic_packet. right. left. by exists e', k'.
  - rewrite live_readers_delete, Hr. cbn. lia.
  - intros e' r k' [_ ?]%lookup_delete_Some. eauto.
  - intros e' p Ha. destruct (it_installed e' p Ha) as (? & ? & ?). split_and!; [done| |done].
    apply lookup_delete_None. by right.
  - intros m k' e' Hm He. destruct (decide (pl_shutdown s = ShNone)) as [Hs|Hs].
    + destruct (ie_natural Hc Hs) as [? _]. naive_solver.
    + destruct (ie_shut Hs) as [_ ?]. congruence.
  - intros e' k' x [_ ?]%lookup_delete_Some. eauto.
Qed.

Definition remove_conn (k : string) (e : nat) (m : gmap string nat) : gmap string nat :=
  if decide (m !! k = Some e) then delete k m else m.

Lemma remove_conn_Some k e m k' e' : remove_conn k e m !! k' = Some e' -> m !! k' = Some e' /\ (k', e') <> (k, e).
Proof.
  unfold remove_conn. case_decide as E.
  - intros [Hn ?]%lookup_delete_Some. split; [done|]. intros [= -> ->]. done.
  - intros ?. split; [done|]. intros [= -> ->]. done.
Qed.

Lemma remove_conn_other k e m k' e' : m !! k' = Some e' -> e' <> e -> remove_conn k e m !! k' = Some e'.
Proof.
  intros Hm Hn. unfold remove_conn. case_decide as E; [|done]. rewrite lookup_delete_ne; [done|].
  intros ->. congruence.
Qed.

Lemma reader_detach_ok s e k m :
  inv s -> pl_readerThreads s !! e = Some (RDetach, k) -> pl_closed s = false -> pl_conns s = Some m ->
  inv {| s with pl_readerThreads := delete e (pl_readerThreads s); pl_conns := Some (remove_conn k e m) |}.
Proof.
  intros Hi Hr Hc Hm. inv_open Hi. destruct (it_thread e _ k Hr) as (x & Hx & Ek). inv_close; try congruence.
  - intros m' k' e' [= <-] [He _]%remove_conn_Some. eauto.
  - intros e' y Hy Ha. destruct (ic_active e' y Hy Ha) as (m' & Hm' & He'). simplify_eq.
    eexists. split; [done|]. apply remove_conn_other; [done|]. intros ->.
    rewrite (it_release e _ y Hr Hy) in Ha. done.
  - intros p [?|[(e' & k' & Hk)|?]]; [by auto| |by auto]. apply lookup_delete_Some in Hk as [_ ?].
    apply ic_packet. right. left. by exists e', k'.
  - intros Hs. destruct (ie_shut Hs). congruence.
  - rewrite live_readers_delete, Hr. cbn. lia.
  - intros e' r k' [_ ?]%lookup_delete_Some. eauto.
  - intros e' p Ha. destruct (it_installed e' p Ha) as (? & ? & ?). split_and!; [done| |done].
    apply lookup_delete_None. by right.
  - intros m' k' e' [= <-] [He Hne]%remove_conn_Some. destruct (it_served m k' e' Hm He) as [[r Hr']|?]; [|by right].
    left. exists r. rewrite lookup_delete_ne; [done|]. intros <-.
    destruct (ic_entry m k' e Hm He) as (y & Hy & Hk'). simplify_eq.
  - intros e' k' y [_ ?]%lookup_delete_Some. eauto.
Qed.

Lemma read_exit_ok s e : inv s -> good (read_exit e s).
Proof.
  intros Hi. unfold read_exit. destruct (pl_readerThreads s !! e) as [[r k]|] eqn:Hr; [|done].
  destruct r; try done.
  - apply good_if; intros Hz.
    + apply Z.leb_le in Hz. pose proof (it_count s (i_threads s Hi)). pose proof (counted_live _ _ _ Hr eq_refl).
      unfold installing in *. destruct (pl_acceptor s); lia.
    + pose proof (set_reader_ok s e RDone RRelease k Hi Hr ltac:(done) ltac:(done) ltac:(done)) as H.
      cbn [counted fst] in H. by rewrite Z.add_0_r in H.
  - eapply (set_reader_same _ e RRelease); try done.
    + by apply (inv_fade (deactivate e s)); [apply inv_fade, fades_deactivate|apply fades_close].
    + intros _ x. cbn. rewrite !lookup_alter_eq. destruct (pl_heap s !! e); [|done]. by intros [= <-].
  - set (s1 := {| s with pl_readerThreads := delete e (pl_readerThreads s) |}). cbv zeta.
    apply good_if; intros Hc; change (pl_closed s1) with (pl_closed s) in Hc; [by eapply reader_gone_ok|].
    destruct (pl_conns s) as [m|] eqn:Hm; [|by rewrite (ie_nil s (i_end s Hi) Hm) in Hc].
    pose proof (reader_detach_ok s e k m Hi Hr Hc Hm) as Hd.
    set (s2 := match pl_conns s1 with Some _ => _ | None => _ end).
    assert (E2 : s2 = {| s with pl_readerThreads := delete e (pl_readerThreads s); pl_conns := Some (remove_conn k e m) |}).
    { subst s2 s1. cbn. unfold remove_conn. case_decide; [done|]. by rewrite <- Hm. }
    rewrite E2 in *. clearbody s2. clear E2. set (s3 := {| s with pl_readerThreads := _; pl_conns := Some (remove_conn k e m) |}) in *.
    apply good_if; intros Hz; [|done]. apply andb_true_iff in Hz as [Hst Hemp%bool_decide_eq_true].
    assert (Hm3 : pl_conns s3 = Some ∅) by (change (pl_conns s3) with (Some (remove_conn k e m)); cbn in Hemp; by rewrite Hemp).
    assert (Hsh : pl_shutdown s3 = ShNone).
    { destruct (decide (pl_shutdown s3 = ShNone)) as [?|Hn]; [done|].
      destruct (ie_shut s3 (i_end s3 Hd) Hn) as [_ ?]. congruence. }
    assert (Had : admitting (pl_acceptor s3) = false) by by apply (ie_admission s3 (i_end s3 Hd)).
    assert (Her : pl_closeErr s3 <> None) by (apply (ie_err s3 (i_end s3 Hd)); by right).
    clearbody s3. inv_open Hd. inv_close; try done; try (by left).
Qed.

(** A caller moves on with a packet whose source is known, or without one. *)
Lemma set_caller_ok s k n p :
  inv s -> (forall q, p = FHave q -> exists e x, pk_source q = Some e /\ pl_heap s !! e = Some x /\ pk_addr q = lc_peer x) ->
  inv (set_caller k n p s).
Proof.
  intros Hi Hp. inv_open Hi. inv_close.
  intros q [?|[?|(c & n' & Hc)]]; [by auto|by auto|].
  apply lookup_insert_Some in Hc as [[_ [= _ E]]|[_ ?]]; [by apply Hp|].
  apply ic_packet. right. right. by exists c, n'.
Qed.

Lemma ReadFrom_ok s k now c : inv s -> good (ReadFrom k now c s).
Proof.
  intros Hi. unfold ReadFrom. destruct (pl_callers s !! k) as [[n ph]|] eqn:Hk; [|done].
  destruct ph as [|ch|p|r]; try done.
  - destruct (snapshot _). repeat (apply good_if; intros _); by apply set_caller_ok.
  - destruct c.
    + destruct (chan_buf (pl_pkts s)) as [|p rest] eqn:Eb; [done|].
      assert (Hp : exists e x, pk_source p = Some e /\ pl_heap s !! e = Some x /\ pk_addr p = lc_peer x).
      { apply (ic_packet s (i_conns s Hi)). left. rewrite Eb. left. }
      apply set_caller_ok; [|intros q; by case_match; intros [= <-]].
      inv_open Hi. inv_close.
      * intros q [Hq|Hq]; [|by apply ic_packet; right]. apply ic_packet. left. rewrite Eb. by right.
      * unfold chan_bounded in *. rewrite Eb in ic_queue. simpl in *. lia.
    + apply good_if; intros _; [by apply set_caller_ok|done].
    + case_decide; [by apply set_caller_ok|done].
  - by apply set_caller_ok.
Qed.

Lemma fire_read_ok s ch d : inv s -> ch ∈ (pd_armed (pl_readDeadline s)).*1 ->
  fire (pl_readDeadline s) ch <> None /\ (fire (pl_readDeadline s) ch = Some d -> inv {| s with pl_readDeadline := d |}).
Proof.
  intros Hi ([? due] & -> & Hin)%list_elem_of_fmap. destruct (fire_inv _ _ _ (i_rd s Hi) Hin) as (d' & E & Hd).
  simpl. rewrite E. split; [done|]. intros [= <-]. inv_open Hi. by inv_close.
Qed.

Lemma fire_write_ok s ch d : inv s -> ch ∈ (pd_armed (pl_writeDeadline s)).*1 ->
  fire (pl_writeDeadline s) ch <> None /\ (fire (pl_writeDeadline s) ch = Some d -> inv {| s with pl_writeDeadline := d |}).
Proof.
  intros Hi ([? due] & -> & Hin)%list_elem_of_fmap. destruct (fire_inv _ _ _ (i_wd s Hi) Hin) as (d' & E & Hd).
  simpl. rewrite E. split; [done|]. intros [= <-]. inv_open Hi. by inv_close.
Qed.

(** ** Shutdown *)

Lemma fades_shutdown es s : fades (pl_heap s) (pl_heap (foldr deactivate s es)) /\
  (forall e x, e ∈ es -> pl_heap (foldr deactivate s es) !! e = Some x -> lc_active x = false).
Proof.
  induction es as [|e es [IH1 IH2]]; simpl.
  { split; [apply fades_refl|]. intros e x H. by apply elem_of_nil in H. }
  split; [eapply fades_trans; [exact IH1|apply fades_deactivate]|].
  intros e' x He'. destruct (decide (e' = e)) as [->|Hn].
  - rewrite lookup_alter_eq. destruct (pl_heap _ !! e); [|done]. by intros [= <-].
  - rewrite lookup_alter_ne by done. apply IH2. by apply elem_of_cons in He' as [?|?].
Qed.

Lemma foldr_deactivate s es : foldr deactivate s es = {| s with pl_heap := pl_heap (foldr deactivate s es) |}.
Proof. induction es as [|e es IH]; simpl; [by destruct s|]. by rewrite IH at 1. Qed.

Lemma initiateShutdown_ok s err : inv s -> good (initiateShutdown err s).
Proof.
  intros Hi. unfold initiateShutdown. destruct (pl_shutdown s) eqn:Hs; try done. cbv zeta.
  set (es := (map_to_list (default ∅ (pl_conns s))).*2). 
  match goal with |- context [foldr deactivate ?x es] => set (s2 := x) end.
  rewrite (foldr_deactivate s2 es). destruct (fades_shutdown es s2) as [Hf Hoff].
  change (pl_heap s2) with (pl_heap s) in Hf. set (h := pl_heap (foldr deactivate s2 es)) in *. clearbody h.
  assert (Hall : forall e x, h !! e = Some x -> lc_active x = false).
  { intros e y Hy. destruct (lc_active y) eqn:Ey; [|done].
    destruct (fades_some _ _ _ _ Hf Hy) as (x & Hx & _ & _ & Hax).
    destruct (ic_active s (i_conns s Hi) e x Hx (Hax Ey)) as (m & Hm & He).
    rewrite <- Ey. apply (Hoff e y); [|done]. subst es. rewrite Hm. simpl.
    apply list_elem_of_fmap. exists (packetAddrKey (lc_peer x), e). split; [done|]. by apply elem_of_map_to_list. }
  pose proof (inv_fade s h Hi Hf) as Hi'. inv_open Hi'. inv_close; try done.
  - intros e x Hx Ha. rewrite (Hall e x Hx) in Ha. done.
  - intros _. by left.
Qed.

Lemma shutdown_next_ok s res : inv s -> good (shutdown_next res s).
Proof.
  intros Hi. unfold shutdown_next. destruct (pl_shutdown s) as [|es|[|e es]|] eqn:Hs; try done.
  - assert (Hs' : pl_shutdown (closeInner res s) = ShInner es) by (unfold closeInner; by destruct (pl_innerClosed s)).
    apply (closeInner_keeps res) in Hi. revert Hi Hs'. generalize (closeInner res s). clear. intros s Hi Hs.
    inv_open Hi. inv_close; try done. intros _. apply ie_shut. by rewrite Hs.
  - inv_open Hi. inv_close; try done. intros _. apply ie_shut. by rewrite Hs.
  - pose proof (inv_fade s _ Hi (fades_close (pl_heap s) e)) as Hi'. inv_open Hi'. inv_close; try done.
    intros _. apply ie_shut. cbn. by rewrite Hs.
Qed.

Theorem step_ok s a : inv s -> good (step a s).
Proof.
  intros Hi. destruct a; cbn [step].
  - by apply accept_install_ok.
  - by apply accept_spawn_ok.
  - by apply accept_fail_ok.
  - by apply accept_exit_ok.
  - by apply read_packet_ok.
  - by apply read_select_ok.
  - by apply read_exit_ok.
  - unfold ReadFrom_call. destruct (pl_callers s !! k); [done|]. by apply set_caller_ok.
  - by apply ReadFrom_ok.
  - unfold SetReadDeadline. destruct (pl_closed s) eqn:Hc; [done|].
    destruct (set_deadline_inv _ t now (i_rd s Hi)) as (d & -> & Hd). rewrite <- Hc. inv_open Hi. by inv_close.
  - unfold SetWriteDeadline. destruct (pl_closed s) eqn:Hc; [done|].
    destruct (set_deadline_inv _ t now (i_wd s Hi)) as (d & -> & Hd). rewrite <- Hc. inv_open Hi. by inv_close.
  - apply good_if; [|done]. intros Hin%bool_decide_eq_true.
    destruct (fire (pl_readDeadline s) ch) as [d|] eqn:E.
    + by apply (fire_read_ok s ch d Hi Hin).
    + by destruct (fire_read_ok s ch newPacketDeadline Hi Hin).
  - apply good_if; [|done]. intros Hin%bool_decide_eq_true.
    destruct (fire (pl_writeDeadline s) ch) as [d|] eqn:E.
    + by apply (fire_write_ok s ch d Hi Hin).
    + by destruct (fire_write_ok s ch newPacketDeadline Hi Hin).
  - by apply initiateShutdown_ok.
  - by apply shutdown_next_ok.
Qed.

Lemma inv_new u : inv (packetConnFromPacketListener u).
Proof.
  split; [split|split|split|split| |]; cbn; try done; try apply dl_inv_new.
  all: try naive_solver.
  - intros p [H|[(? & ? & H)|(? & ? & H)]]; [by apply elem_of_nil in H|done..].
  - unfold chan_bounded. simpl. split; [lia|done].
Qed.

Lemma reachable_inv s : reachable s -> inv s.
Proof.
  intros [u Hm]. eapply rtc_invariant; [|exact Hm|apply inv_new].
  intros s1 s2 [a E] Hi. pose proof (step_ok s1 a Hi) as Hg. by rewrite E in Hg.
Qed.

(** ** Replies *)

(** A packet written to [addr] goes to connection [e]. *)
Definition replies_to (s : packetListenerWrapper) (addr : option net_addr) (e : nat) : Prop :=
  forall now, expired (pl_writeDeadline s) now = false ->
    exists x, pl_heap s !! e = Some x /\
      WriteTo addr now s = Ok (e, lc_addr x, fst (snapshot (pl_writeDeadline s))).

Lemma replies_to_active s e x :
  inv s -> pl_heap s !! e = Some x -> lc_active x = true -> replies_to s (lc_peer x) e.
Proof.
  intros Hi Hx Ha now Hw. exists x. split; [done|].
  destruct (ic_active s (i_conns s Hi) e x Hx Ha) as (m & Hm & He). unfold WriteTo. rewrite Hw.
  destruct (pl_closed s) eqn:Hc.
  - destruct (decide (pl_shutdown s = ShNone)) as [Hs|Hs].
    + destruct (ie_natural s (i_end s Hi) Hc Hs) as [? _]. naive_solver.
    + destruct (ie_shut s (i_end s Hi) Hs) as [_ ?]. congruence.
  - rewrite Hm. simpl. by rewrite He, Hx.
Qed.

Lemma pretty_peer_inj n m : 0 <= n -> 0 <= m -> packetListenerPeerAddr n = packetListenerPeerAddr m -> n = m.
Proof.
  intros ? ? [= E]. change (pretty (Z.to_N n) = pretty (Z.to_N m)) in E. apply (inj pretty) in E. by apply Z2N.inj.
Qed.

(** *** Where packets come from *)

(** A run: the actions taken, none of which waits. *)
Fixpoint pl_run (acts : list action) (s : packetListenerWrapper) : option packetListenerWrapper :=
  match acts with
  | [] => Some s
  | a :: r => match step a s with Next s' => pl_run r s' | _ => None end
  end.

(** The packets a step reads off a connection. *)
Definition arrival (a : action) : list (nat * list byte) :=
  match a with RdPacket e (Some data) => [(e, take (Z.to_nat 65535) data)] | _ => [] end.

(** The packets a run reads off the connections, in order. *)
Definition arrivals (acts : list action) : list (nat * list byte) := acts ≫= arrival.

Lemma pl_run_snoc acts a s s' : pl_run (acts ++ [a]) s = Some s' <-> exists s1, pl_run acts s = Some s1 /\ step a s1 = Next s'.
Proof.
  revert s. induction acts as [|b acts IH]; intros s; cbn [pl_run app].
  - split; [destruct (step a s) eqn:E; intros [=]; subst; eauto|intros (s1 & [= ->] & ->); done].
  - destruct (step b s); [apply IH| |]; split; try done; by intros (? & ? & _).
Qed.

Lemma pl_run_reachable u acts s : pl_run acts (packetConnFromPacketListener u) = Some s -> reachable s.
Proof.
  intros H. exists u. revert H. generalize (packetConnFromPacketListener u). induction acts as [|a acts IH]; intros s0; cbn [pl_run]; [by intros [= ->]|].
  destruct (step a s0) as [s1| |] eqn:E; [|done..]. intros H. eapply rtc_l; [by exists a|by apply IH].
Qed.

(** Connections keep their peers. *)
Definition peers_kept (s s' : packetListenerWrapper) : Prop :=
  forall e x, pl_heap s !! e = Some x -> exists y, pl_heap s' !! e = Some y /\ lc_peer y = lc_peer x.

Lemma fades_peers s s' : fades (pl_heap s) (pl_heap s') -> peers_kept s s'.
Proof. intros H e x Hx. destruct (fades_exists _ _ _ _ H Hx) as (y & ? & ? & _). eauto. Qed.

Lemma same_peers s s' : pl_heap s' = pl_heap s -> peers_kept s s'.
Proof. intros H e x Hx. rewrite H. eauto. Qed.

Lemma stopAdmission_heap err s : pl_heap (stopAdmission err s) = pl_heap s.
Proof. unfold stopAdmission. repeat case_match; done. Qed.

Lemma closeInner_heap res s : pl_heap (closeInner res s) = pl_heap s.
Proof. unfold closeInner. by case_match. Qed.

Lemma step_peers a s s' : inv s -> step a s = Next s' -> peers_kept s s'.
Proof.
  intros Hi E. destruct a; cbn [step] in E.
  - unfold accept_install in E. destruct (pl_acceptor s); try done. destruct (pl_closed s); [injection E as <-; by apply same_peers|].
    destruct (pl_conns s) as [conns|]; [|done]. injection E as <-. intros e x Hx.
    set (prev := conns !! _). assert (Hne : e <> pl_next s) by (pose proof (ic_alloc s (i_conns s Hi) e x Hx); lia). cbn [pl_heap].
    rewrite lookup_insert_ne by done. destruct prev as [q|]; cbn [option_do]; [|by exists x]. unfold deactivate. cbn [pl_heap].
    destruct (decide (q = e)) as [->|]; [rewrite lookup_alter_eq, Hx; by eexists|rewrite lookup_alter_ne by done; by exists x].
  - unfold accept_spawn in E. destruct (pl_acceptor s) as [|e p| | | |]; try done. injection E as <-. apply fades_peers. cbn [pl_heap].
    destruct p; cbn [option_do]; [apply fades_close|apply fades_refl].
  - unfold accept_fail in E. destruct (pl_acceptor s); try done. injection E as <-. apply same_peers. cbn [pl_heap]. apply stopAdmission_heap.
  - unfold accept_exit in E. destruct (pl_acceptor s); try done; repeat (case_match; try done); injection E as <-; apply same_peers; cbn [pl_heap]; done || apply closeInner_heap.
  - unfold read_packet in E. repeat (case_match; try done); injection E as <-; by apply same_peers.
  - unfold read_select in E. repeat (case_match; try done); injection E as <-; by apply same_peers.
  - unfold read_exit in E. destruct (pl_readerThreads s !! e) as [[[] k]|]; try done.
    + case_match; [done|]. injection E as <-. by apply same_peers.
    + injection E as <-. apply fades_peers. cbn. eapply fades_trans; [apply fades_deactivate|apply fades_close].
    + repeat (case_match; try done); injection E as <-; by apply same_peers.
  - unfold ReadFrom_call in E. case_match; [done|]. injection E as <-. by apply same_peers.
  - unfold ReadFrom in E. repeat (case_match; try done); injection E as <-; by apply same_peers.
  - unfold SetReadDeadline in E. destruct (pl_closed s); [injection E as <-; by apply same_peers|]. destruct (set_deadline _ _ _); [|done]. injection E as <-. by apply same_peers.
  - unfold SetWriteDeadline in E. destruct (pl_closed s); [injection E as <-; by apply same_peers|]. destruct (set_deadline _ _ _); [|done]. injection E as <-. by apply same_peers.
  - case_bool_decide; [|done]. destruct (fire _ _); [|done]. injection E as <-. by apply same_peers.
  - case_bool_decide; [|done]. destruct (fire _ _); [|done]. injection E as <-. by apply same_peers.
  - unfold initiateShutdown in E. destruct (pl_shutdown s); try done. injection E as <-. apply fades_peers.
    match goal with |- context [foldr deactivate ?s0 ?es] => destruct (fades_shutdown es s0) as [Hf _]; exact Hf end.
  - unfold shutdown_next in E. destruct (pl_shutdown s) as [|es|[|e es]|]; try done; injection E as <-.
    + apply same_peers. cbn [pl_heap]. apply closeInner_heap.
    + by apply same_peers.
    + apply fades_peers, fades_close.
Qed.

Lemma stopAdmission_unique err s : pl_uniquePeers (stopAdmission err s) = pl_uniquePeers s.
Proof. unfold stopAdmission. repeat case_match; done. Qed.

Lemma closeInner_unique res s : pl_uniquePeers (closeInner res s) = pl_uniquePeers s.
Proof. unfold closeInner. by case_match. Qed.

Lemma step_unique a s s' : step a s = Next s' -> pl_uniquePeers s' = pl_uniquePeers s.
Proof.
  intros E. destruct a; cbn [step] in E.
  - unfold accept_install in E. destruct (pl_acceptor s); try done. destruct (pl_closed s); [by injection E as <-|].
    destruct (pl_conns s) as [conns|]; [|done]. injection E as <-. by destruct (conns !! _).
  - unfold accept_spawn in E. destruct (pl_acceptor s) as [|e [q|]| | | |]; try done; by injection E as <-.
  - unfold accept_fail in E. destruct (pl_acceptor s); try done. injection E as <-. apply stopAdmission_unique.
  - unfold accept_exit in E. destruct (pl_acceptor s); try done; [destruct (pl_readers s =? 0); [|done]| |destruct (pl_shutdownDone s); [done|]];
      injection E as <-; try done; apply closeInner_unique.
  - unfold read_packet in E. repeat (case_match; try done); by injection E as <-.
  - unfold read_select in E. repeat (case_match; try done); by injection E as <-.
  - unfold read_exit in E. repeat (case_match; try done); by injection E as <-.
  - unfold ReadFrom_call in E. repeat (case_match; try done); by injection E as <-.
  - unfold ReadFrom in E. repeat (case_match; try done); by injection E as <-.
  - unfold SetReadDeadline in E. destruct (pl_closed s); [by injection E as <-|]. destruct (set_deadline _ _ _); [|done]. by injection E as <-.
  - unfold SetWriteDeadline in E. destruct (pl_closed s); [by injection E as <-|]. destruct (set_deadline _ _ _); [|done]. by injection E as <-.
  - case_bool_decide; [|done]. destruct (fire _ _); [|done]. by injection E as <-.
  - case_bool_decide; [|done]. destruct (fire _ _); [|done]. by injection E as <-.
  - unfold initiateShutdown in E. destruct (pl_shutdown s); try done. injection E as <-. by rewrite foldr_deactivate.
  - unfold shutdown_next in E. destruct (pl_shutdown s) as [|es|[|e es]|]; try done; injection E as <-; try done. apply closeInner_unique.
Qed.

Lemma run_unique u acts s : pl_run acts (packetConnFromPacketListener u) = Some s -> pl_uniquePeers s = u.
Proof.
  revert s. induction acts as [|a acts IH] using rev_ind; intros s; [by intros [= <-]|]. intros (s1 & Hr & E)%pl_run_snoc. rewrite (step_unique _ _ _ E). by apply IH.
Qed.

(** The sources of what callers hold or were given, and of what readers hold. *)
Record flows (acts : list action) (s : packetListenerWrapper) (given held : gmap nat (nat * list byte)) : Prop := {
  fw_arrived : (map_to_list given).*2 ++ (map_to_list held).*2 ++ ((fun p => (default 0%nat (pk_source p), pk_data p)) <$> chan_buf (pl_pkts s)) ⊆+ arrivals acts;
  fw_given : forall k v, given !! k = Some v -> exists n, (exists p, pl_callers s !! k = Some (n, FHave p)) \/ (exists r, pl_callers s !! k = Some (n, FReturned r));
  fw_have : forall k n p, pl_callers s !! k = Some (n, FHave p) -> exists e, pk_source p = Some e /\ given !! k = Some (e, pk_data p);
  fw_returned : forall k n d addr, pl_callers s !! k = Some (n, FReturned (Ok (d, addr))) ->
    exists e data x, given !! k = Some (e, data) /\ d = take n data /\ pl_heap s !! e = Some x /\ addr = lc_peer x;
  fw_held : forall e v, held !! e = Some v -> exists p k, pl_readerThreads s !! e = Some (RSending p, k);
  fw_sending : forall e p k, pl_readerThreads s !! e = Some (RSending p, k) -> pk_source p = Some e /\ held !! e = Some (e, pk_data p);
}.

(** A step that leaves queue, callers and sending readers alone. *)
Lemma flows_same acts a s s' given held : flows acts s given held -> peers_kept s s' ->
  chan_buf (pl_pkts s') = chan_buf (pl_pkts s) -> pl_callers s' = pl_callers s ->
  (forall e p k, pl_readerThreads s' !! e = Some (RSending p, k) <-> pl_readerThreads s !! e = Some (RSending p, k)) ->
  flows (acts ++ [a]) s' given held.
Proof.
  intros [H1 H2 H3 H4 H5 H6] Hp Hq Hc Hr. constructor; rewrite ?Hq, ?Hc; try done.
  - unfold arrivals. rewrite bind_app. by apply submseteq_inserts_r.
  - intros k n d addr Hk. destruct (H4 _ _ _ _ Hk) as (e & data & x & ? & ? & Hx & ->). destruct (Hp _ _ Hx) as (y & ? & ?). exists e, data, y. done.
  - intros e v Hv. destruct (H5 _ _ Hv) as (p & k & Hk). exists p, k. by apply Hr.
  - intros e p k Hk. by eapply H6, Hr.
Qed.

(** The caller [k], which neither holds nor was given a packet, moves on without one. *)
Lemma flows_caller acts a s k n ph given held : flows acts s given held ->
  (forall n' p, pl_callers s !! k <> Some (n', FHave p)) -> (forall n' r, pl_callers s !! k <> Some (n', FReturned r)) ->
  (forall p, ph <> FHave p) -> (forall d addr, ph <> FReturned (Ok (d, addr))) ->
  flows (acts ++ [a]) (set_caller k n ph s) given held.
Proof.
  intros [H1 H2 H3 H4 H5 H6] Ho1 Ho2 Hh Hr. constructor; cbn; try done.
  - unfold arrivals. rewrite bind_app. by apply submseteq_inserts_r.
  - intros k' v Hv. destruct (H2 _ _ Hv) as (m & Hm). destruct (decide (k' = k)) as [->|].
    + exfalso. destruct Hm as [[p Hm]|[r Hm]]; [by eapply Ho1|by eapply Ho2].
    + exists m. rewrite lookup_insert_ne by done. done.
  - intros k' m p. rewrite lookup_insert. case_decide; [intros [= <- ->]; by destruct (Hh p)|apply H3].
  - intros k' m d addr. rewrite lookup_insert. case_decide; [intros [= <- ->]; by destruct (Hr d addr)|apply H4].
Qed.

Lemma free_caller acts s k given held : flows acts s given held ->
  (forall n' p, pl_callers s !! k <> Some (n', FHave p)) -> (forall n' r, pl_callers s !! k <> Some (n', FReturned r)) -> given !! k = None.
Proof.
  intros Hf H1 H2. destruct (given !! k) as [v|] eqn:E; [|done]. destruct (fw_given _ _ _ _ Hf k v E) as (n & [[p Hp]|[r Hr]]); [by destruct (H1 n p)|by destruct (H2 n r)].
Qed.

Lemma map_insert_values {K} `{Countable K} {A} (m : gmap K A) k v : m !! k = None -> (map_to_list (<[k := v]> m)).*2 ≡ₚ v :: (map_to_list m).*2.
Proof. intros Hk. by rewrite map_to_list_insert. Qed.

Lemma map_delete_values {K} `{Countable K} {A} (m : gmap K A) k v : m !! k = Some v -> (map_to_list m).*2 ≡ₚ v :: (map_to_list (delete k m)).*2.
Proof. intros Hk. by rewrite <-(map_to_list_delete m k v Hk). Qed.

(** A reader takes a packet off its connection. *)
Lemma flows_read acts s e key data given held : flows acts s given held -> pl_readerThreads s !! e = Some (RReading, key) ->
  flows (acts ++ [RdPacket e (Some data)])
    (set_reader e (RSending (MkPacket (take (Z.to_nat 65535) data) (match pl_heap s !! e with Some x => lc_peer x | None => None end) (Some e))) key s)
    given (<[e := (e, take (Z.to_nat 65535) data)]> held).
Proof.
  intros [H1 H2 H3 H4 H5 H6] Hr. assert (Hn : held !! e = None).
  { destruct (held !! e) as [v|] eqn:E; [|done]. destruct (H5 e v E) as (p & k & Hk). congruence. }
  constructor; cbn; try done.
  - unfold arrivals. rewrite bind_app. cbn [mbind list_bind arrival app]. rewrite map_insert_values by done.
    rewrite <-app_comm_cons, <-Permutation_middle, <-(Permutation_cons_append (acts ≫= arrival)). by apply submseteq_skip.
  - intros e' v. rewrite !lookup_insert. case_decide; [intros _; eauto|apply H5].
  - intros e' p k. rewrite !lookup_insert. case_decide; [intros [= <- <-]; by subst|apply H6].
Qed.

(** A reader sends its packet, or drops it. *)
Lemma flows_sent acts a s e p key r given held pkts : flows acts s given held -> pl_readerThreads s !! e = Some (RSending p, key) -> (forall q, r <> RSending q) ->
  chan_buf pkts = chan_buf (pl_pkts s) ++ [p] \/ chan_buf pkts = chan_buf (pl_pkts s) ->
  flows (acts ++ [a]) (set_reader e r key {| s with pl_pkts := pkts |}) given (delete e held).
Proof.
  intros [H1 H2 H3 H4 H5 H6] Hr Hnr Hq. destruct (H6 _ _ _ Hr) as [Hs Hh]. constructor; cbn; try done.
  - unfold arrivals. rewrite bind_app. apply submseteq_inserts_r. etrans; [|exact H1]. apply submseteq_skips_l. rewrite (map_delete_values held e _ Hh).
    destruct Hq as [-> | ->].
    + rewrite fmap_app. cbn [fmap list_fmap]. rewrite Hs. cbn [default]. rewrite app_assoc, <-Permutation_cons_append. by rewrite app_comm_cons.
    + rewrite <-app_comm_cons. by apply submseteq_cons.
  - intros e' v. rewrite lookup_delete_Some. intros [Hne Hv]. rewrite lookup_insert_ne by done. by eapply H5.
  - intros e' q k. rewrite lookup_insert. case_decide as Hd; [intros [= E]; by destruct (Hnr q)|]. rewrite lookup_delete_ne by done. apply H6.
Qed.

(** A caller receives the first packet of the queue. *)
Lemma flows_received acts a s k n p rest e given held : flows acts s given held -> chan_buf (pl_pkts s) = p :: rest -> pk_source p = Some e ->
  (forall n' p, pl_callers s !! k <> Some (n', FHave p)) -> (forall n' r, pl_callers s !! k <> Some (n', FReturned r)) ->
  let s1 := {| s with pl_pkts := Chan rest (chan_cap (pl_pkts s)) (chan_closed (pl_pkts s)) |} in
  flows (acts ++ [a]) (set_caller k n FStart s1) given held /\
  flows (acts ++ [a]) (set_caller k n (FHave p) s1) (<[k := (e, pk_data p)]> given) held.
Proof.
  intros Hf Hq Hs Ho1 Ho2. pose proof (free_caller _ _ _ _ _ Hf Ho1 Ho2) as Hn. pose proof Hf as [H1 H2 H3 H4 H5 H6]. rewrite Hq in H1. cbn [fmap list_fmap] in H1. rewrite Hs in H1. cbn [default] in H1.
  cbv zeta. split.
  - apply flows_caller; [|done|done|done|done]. constructor; cbn; try done. etrans; [|exact H1]. do 2 apply submseteq_skips_l. by apply submseteq_cons.
  - constructor; cbn; try done.
    + unfold arrivals. rewrite bind_app. apply submseteq_inserts_r. etrans; [|exact H1]. rewrite map_insert_values by done.
      rewrite <-app_comm_cons. rewrite <-(Permutation_middle (map_to_list held).*2), <-(Permutation_middle (map_to_list given).*2). done.
    + intros k' v. rewrite !lookup_insert. case_decide; [intros _; exists n; left; eauto|apply H2].
    + intros k' m q. rewrite !lookup_insert. case_decide; [intros [= <- <-]; eauto|apply H3].
    + intros k' m d addr. rewrite !lookup_insert. case_decide; [done|apply H4].
Qed.
Lemma step_flows acts a s s' given held : inv s -> flows acts s given held -> step a s = Next s' -> exists given' held', flows (acts ++ [a]) s' given' held'.
Proof.
  intros Hi Hf E. pose proof (step_peers a s s' Hi E) as Hp.
  assert (Hsame : chan_buf (pl_pkts s') = chan_buf (pl_pkts s) -> pl_callers s' = pl_callers s ->
    (forall e p k, pl_readerThreads s' !! e = Some (RSending p, k) <-> pl_readerThreads s !! e = Some (RSending p, k)) ->
    exists given' held', flows (acts ++ [a]) s' given' held') by (intros; exists given, held; by eapply flows_same).
  destruct a; cbn [step] in E.
  - unfold accept_install in E. destruct (pl_acceptor s); try done. destruct (pl_closed s); [injection E as <-; by apply Hsame|].
    destruct (pl_conns s) as [conns|]; [|done]. injection E as <-. apply Hsame; cbn; by destruct (conns !! _).
  - unfold accept_spawn in E. destruct (pl_acceptor s) as [|e q| | | |] eqn:Ea; try done. injection E as <-.
    destruct (it_installed s (i_threads s Hi) e q Ea) as (_ & Hn & _). apply Hsame; cbn; [by destruct q..|].
    intros e' p k. destruct q; cbn [option_do id]; cbn; rewrite lookup_insert; case_decide as Hd; try done; subst e'; rewrite Hn; done.
  - unfold accept_fail in E. destruct (pl_acceptor s); try done. injection E as <-. apply Hsame; cbn; unfold stopAdmission; destruct (pl_closed s); try done; by case_decide.
  - unfold accept_exit in E. unfold closeInner in E. destruct (pl_acceptor s); try done; repeat (case_match; try done); injection E as <-; by apply Hsame.
  - unfold read_packet in E. destruct (pl_readerThreads s !! e) as [[[] key]|] eqn:Er; try done.
    assert (Hdone : Next (set_reader e RDone key s) = Next s' -> exists given' held', flows (acts ++ [RdPacket e got]) s' given' held').
    { intros [= <-]. apply Hsame; [done|done|]. intros e' p k. cbn. rewrite lookup_insert. case_decide; [subst e'; rewrite Er; done|done]. }
    destruct got as [data|]; [|by apply Hdone]. destruct (is_active e s); [|by apply Hdone]. injection E as <-. exists given. eexists. by apply flows_read.
  - unfold read_select in E. destruct (pl_readerThreads s !! e) as [[[|p| | |] key]|] eqn:Er; try done.
    assert (Hdrop : forall r, (forall q, r <> RSending q) -> exists given' held', flows (acts ++ [RdSelect e c]) (set_reader e r key s) given' held').
    { intros r Hr. exists given, (delete e held). destruct s. eapply (flows_sent _ _ _ _ _ _ r _ _ _ Hf Er Hr). by right. }
    destruct c, (chan_try_send (pl_pkts s) p) as [pkts|] eqn:Eq; try done.
    + injection E as <-. exists given, (delete e held). eapply flows_sent; [done|done|done|]. left. by apply chan_try_send_Some in Eq as (? & _).
    + destruct (pl_done s); [|done]. injection E as <-. by apply Hdrop.
    + destruct (pl_done s); [|done]. injection E as <-. by apply Hdrop.
    + destruct (pl_done s); [done|]. injection E as <-. by apply Hdrop.
  - unfold read_exit in E. destruct (pl_readerThreads s !! e) as [[[] key]|] eqn:Er; try done.
    + case_match; [done|]. injection E as <-. apply Hsame; [done|done|]. intros e' p k. cbn. rewrite lookup_insert. case_decide; [subst e'; rewrite Er; done|done].
    + injection E as <-. apply Hsame; [done|done|]. intros e' p k. cbn. rewrite lookup_insert. case_decide; [subst e'; rewrite Er; done|done].
    + assert (Hd : forall e' p k, delete e (pl_readerThreads s) !! e' = Some (RSending p, k) <-> pl_readerThreads s !! e' = Some (RSending p, k)).
      { intros e' p k. destruct (decide (e' = e)) as [->|]; [rewrite lookup_delete_eq, Er; done|by rewrite lookup_delete_ne by done]. }
      repeat (case_match; try done); injection E as <-; by apply Hsame.
  - unfold ReadFrom_call in E. destruct (pl_callers s !! k) eqn:Ek; [done|]. injection E as <-. exists given, held. apply flows_caller; try done; intros; by rewrite Ek.
  - unfold ReadFrom in E. destruct (pl_callers s !! k) as [[n ph]|] eqn:Ek; [|done].
    assert (Hfree : (forall p, ph <> FHave p) -> (forall r, ph <> FReturned r) ->
      (forall n' p, pl_callers s !! k <> Some (n', FHave p)) /\ (forall n' r, pl_callers s !! k <> Some (n', FReturned r))).
    { intros H1 H2. rewrite Ek. split; intros m x [= _ Hx]; [by destruct (H1 x)|by destruct (H2 x)]. }
    destruct ph as [|ch|p|r]; [| | |done].
    + destruct (Hfree ltac:(done) ltac:(done)) as [Ho1 Ho2]. exists given, held.
      destruct (pl_done s); [injection E as <-; by apply flows_caller|]. destruct (snapshot _). case_match; injection E as <-; by apply flows_caller.
    + destruct (Hfree ltac:(done) ltac:(done)) as [Ho1 Ho2]. destruct c.
      * destruct (chan_buf (pl_pkts s)) as [|p rest] eqn:Eq; [done|].
        destruct (ic_packet s (i_conns s Hi) p) as (e & x & Hs & _); [left; rewrite Eq; by left|].
        destruct (flows_received acts (ReadStep k now RecvPacket) s k n p rest e given held Hf Eq Hs Ho1 Ho2) as [F1 F2].
        injection E as <-. case_match; eauto.
      * destruct (pl_done s); [|done]. injection E as <-. exists given, held. by apply flows_caller.
      * case_decide; [|done]. injection E as <-. exists given, held. by apply flows_caller.
    + injection E as <-. exists given, held. destruct Hf as [H1 H2 H3 H4 H5 H6]. destruct (H3 _ _ _ Ek) as (e & Hs & Hg).
      destruct (ic_packet s (i_conns s Hi) p) as (e' & x & Hs' & Hx & Ha); [right; right; by exists k, n|].
      constructor; cbn; try done.
      * unfold arrivals. rewrite bind_app. by apply submseteq_inserts_r.
      * intros k' v. rewrite lookup_insert. case_decide; [intros _; exists n; right; eauto|apply H2].
      * intros k' m q. rewrite lookup_insert. case_decide; [done|apply H3].
      * intros k' m d addr. rewrite lookup_insert. case_decide as Hk; [|apply H4]. subst k'. destruct (pl_done s); [done|]. intros [= <- <- <-].
        exists e, (pk_data p), x. split; [done|]. split; [done|]. split; [|done]. congruence.
  - unfold SetReadDeadline in E. destruct (pl_closed s); [injection E as <-; by apply Hsame|]. destruct (set_deadline _ _ _); [|done]. injection E as <-. by apply Hsame.
  - unfold SetWriteDeadline in E. destruct (pl_closed s); [injection E as <-; by apply Hsame|]. destruct (set_deadline _ _ _); [|done]. injection E as <-. by apply Hsame.
  - case_bool_decide; [|done]. destruct (fire _ _); [|done]. injection E as <-. by apply Hsame.
  - case_bool_decide; [|done]. destruct (fire _ _); [|done]. injection E as <-. by apply Hsame.
  - unfold initiateShutdown in E. destruct (pl_shutdown s); try done. injection E as <-. apply Hsame; cbn; by rewrite foldr_deactivate.
  - unfold shutdown_next, closeInner in E. destruct (pl_shutdown s) as [|es|[|e es]|]; try done; [destruct (pl_innerClosed s)|..]; injection E as <-; by apply Hsame.
Qed.

Lemma run_flows u acts s : pl_run acts (packetConnFromPacketListener u) = Some s -> exists given held, flows acts s given held.
Proof.
  revert s. induction acts as [|a acts IH] using rev_ind; intros s.
  - intros [= <-]. exists ∅, ∅. constructor; cbn; try done; intros *; rewrite lookup_empty; done.
  - intros (s1 & Hr & E)%pl_run_snoc. destruct (IH s1 Hr) as (g & h & Hf). eapply step_flows; [|exact Hf|exact E]. by eapply reachable_inv, pl_run_reachable.
Qed.

(** C36: Packets and replies stay on their connection, in every interleaving of
    accepts, readers, callers, deadlines and shutdown, none of which panics.  The
    packets that calls of [ReadFrom] have returned are packets read off the accepted
    connections, none returned twice: each call has a connection and a packet read off
    that very connection, returns what fits of it, and the address of the peer of that
    connection; as long as the connection is active, a packet written to this address
    goes to it and to no other.  With unique peers no two connections ever share an
    address (before 2^64 of them were accepted), so that one never replaces another. *)
Theorem packet_listener_routes_replies u acts s :
  pl_run acts (packetConnFromPacketListener u) = Some s ->
  (forall a, step a s <> Panicked) /\
  (exists source : gmap nat (nat * list byte),
     (map_to_list source).*2 ⊆+ arrivals acts /\
     forall k n d addr, pl_callers s !! k = Some (n, FReturned (Ok (d, addr))) ->
       exists e data x, source !! k = Some (e, data) /\ d = take n data /\ pl_heap s !! e = Some x /\ addr = lc_peer x /\
         (lc_active x = true -> replies_to s addr e)) /\
  (u = true -> Z.of_nat (pl_next s) < 2 ^ 64 ->
     forall e1 x1 e2 x2, pl_heap s !! e1 = Some x1 -> pl_heap s !! e2 = Some x2 -> lc_peer x1 = lc_peer x2 -> e1 = e2).
Proof.
  intros Hrun. pose proof (reachable_inv s (pl_run_reachable _ _ _ Hrun)) as Hi. split_and!.
  - intros a E. pose proof (step_ok s a Hi) as H. by rewrite E in H.
  - destruct (run_flows _ _ _ Hrun) as (given & held & [H1 _ _ H4 _ _]). exists given. split; [etrans; [|exact H1]; apply submseteq_inserts_r, reflexivity|].
    intros k n d addr Hk. destruct (H4 _ _ _ _ Hk) as (e & data & x & ? & ? & Hx & ->). exists e, data, x. split_and!; try done. intros Ha. by apply replies_to_active.
  - intros Hu Hn e1 x1 e2 x2 H1 H2 E. pose proof (ic_alloc s (i_conns s Hi)) as Hal.
    assert (Hup : pl_uniquePeers s = true) by (rewrite (run_unique _ _ _ Hrun); done).
    pose proof (Hal _ _ H1). pose proof (Hal _ _ H2).
    rewrite (ip_peer s (i_peers s Hi) e1 x1 Hup H1), (ip_peer s (i_peers s Hi) e2 x2 Hup H2) in E.
    apply (inj Some), pretty_peer_inj in E; [|apply u64_range..].
    rewrite (u64_small (Z.of_nat e1 + 1)), (u64_small (Z.of_nat e2 + 1)) in E by lia. lia.
Qed.

(** Two peers; the first sends a packet that a caller takes. *)
Definition sample_exchange : list action :=
  [AccInstall (Some peer_a); AccSpawn; AccInstall (Some peer_b); AccSpawn;
   RdPacket 0 (Some [x01; x02]); RdPacket 1 (Some [x03]); RdSelect 1 SelSend; RdSelect 0 SelSend; CallRead 7 10; ReadStep 7 0 RecvDone; ReadStep 7 0 RecvPacket;
   ReadStep 7 0 RecvDone; CallRead 8 1; ReadStep 8 0 RecvDone; ReadStep 8 0 RecvPacket; ReadStep 8 0 RecvDone].

Lemma packet_listener_routes_replies_witness :
  exists s, pl_run sample_exchange (packetConnFromPacketListener false) = Some s /\
    arrivals sample_exchange = [(0%nat, [x01; x02]); (1%nat, [x03])] /\
    pl_callers s !! 7%nat = Some (10%nat, FReturned (Ok ([x03], Some peer_b))) /\
    pl_callers s !! 8%nat = Some (1%nat, FReturned (Ok ([x01], Some peer_a))) /\
    replies_to s (Some peer_a) 0.
Proof.
  destruct (pl_run sample_exchange (packetConnFromPacketListener false)) as [s|] eqn:E; [|vm_compute in E; discriminate].
  exists s. split; [reflexivity|]. split; [vm_compute; reflexivity|].
  assert (Hc : pl_callers s !! 8%nat = Some (1%nat, FReturned (Ok ([x01], Some peer_a)))) by (vm_compute in E; injection E as <-; vm_compute; reflexivity).
  split; [vm_compute in E; injection E as <-; vm_compute; reflexivity|]. split; [exact Hc|].
  destruct (packet_listener_routes_replies false sample_exchange s E) as (_ & (source & _ & H) & _).
  destruct (H _ _ _ _ Hc) as (e & data & x & _ & _ & Hx & Ha & Hr).
  assert (Hh : pl_heap s = {[0%nat := MkConn (Some peer_a) (Some peer_a) true false;
    1%nat := MkConn (Some peer_b) (Some peer_b) true false]}) by (vm_compute in E; injection E as <-; vm_compute; reflexivity).
  rewrite Hh in Hx. apply lookup_insert_Some in Hx as [[<- <-]|[_ [<- <-]%lookup_singleton_Some]]; [|discriminate Ha].
  apply Hr. reflexivity.
Defined.

Fixpoint run_actions (acts : list action) (s : packetListenerWrapper) : packetListenerWrapper :=
  match acts with
  | [] => s
  | a :: r => match step a s with Next s' => run_actions r s' | _ => s end
  end.

Lemma run_actions_moves acts s : rtc moves s (run_actions acts s).
Proof.
  revert s. induction acts as [|a r IH]; intros s; simpl; [done|].
  destruct (step a s) as [s'| |] eqn:E; [|done..]. eapply rtc_l; [by exists a|apply IH].
Qed.

(** Two peers; the first sends a packet that a caller holds. *)
Definition sample_run : list action :=
  [AccInstall (Some peer_a); AccSpawn; AccInstall (Some peer_b); AccSpawn;
   RdPacket 0 (Some [x01; x02]); RdSelect 0 SelSend; CallRead 7 10; ReadStep 7 0 RecvDone; ReadStep 7 0 RecvPacket].

Definition sample_listener : packetListenerWrapper := run_actions sample_run (packetConnFromPacketListener false).

Lemma sample_listener_reachable : reachable sample_listener.
Proof. exists false. apply run_actions_moves. Qed.

(** ** Closing *)

Definition pending_closes (p : shutdown) : list nat :=
  match p with ShInner es | ShConns es => es | _ => [] end.

(** A connection that nobody closed yet is in the table, will be closed by the
    shutdown, or was just replaced and will be closed by the acceptor. *)
Record inv_close (s : packetListenerWrapper) : Prop := {
  il_owner : forall e x, pl_heap s !! e = Some x -> lc_closed x = false ->
    (exists m, pl_conns s = Some m /\ m !! packetAddrKey (lc_peer x) = Some e) \/
    e ∈ pending_closes (pl_shutdown s) \/
    (exists e', pl_acceptor s = AInstalled e' (Some e));
  il_released : forall e k x, pl_readerThreads s !! e = Some (RDetach, k) -> pl_heap s !! e = Some x -> lc_closed x = true;
  il_inner : (exists es, pl_shutdown s = ShConns es) \/ pl_shutdown s = ShDone -> pl_innerClosed s = true;
}.

(** Heaps that differ only by connections that were deactivated or closed. *)
Definition closes (h h' : gmap nat packetListenerConn) : Prop :=
  fades h h' /\ forall e x y, h !! e = Some x -> h' !! e = Some y -> lc_closed y = false -> lc_closed x = false.

Lemma closes_deactivate h e : closes h (alter (set_active false) e h).
Proof.
  split; [apply fades_deactivate|]. intros e' x y Hx. destruct (decide (e = e')) as [->|].
  - rewrite lookup_alter_eq, Hx. by intros [= <-].
  - rewrite lookup_alter_ne by done. naive_solver.
Qed.

Lemma closes_close h e : closes h (alter set_closed e h).
Proof.
  split; [apply fades_close|]. intros e' x y Hx. destruct (decide (e = e')) as [->|].
  - rewrite lookup_alter_eq, Hx. by intros [= <-].
  - rewrite lookup_alter_ne by done. naive_solver.
Qed.

Lemma closes_deactivate_all es s : closes (pl_heap s) (pl_heap (foldr deactivate s es)).
Proof.
  induction es as [|e es IH]; simpl; [split; [apply fades_refl|naive_solver]|].
  destruct IH as [F1 C1]. destruct (closes_deactivate (pl_heap (foldr deactivate s es)) e) as [F2 C2].
  split; [by eapply fades_trans|]. intros e' x z Hx Hz Hc.
  destruct (fades_exists _ _ _ _ F1 Hx) as (y & Hy & _). eauto.
Qed.

Lemma il_closes s h' : inv_close s -> closes (pl_heap s) h' -> inv_close {| s with pl_heap := h' |}.
Proof.
  intros [Ho Hr Hin] [Hf Hc]. split; cbn; [| |done].
  - intros e y Hy Hcl. destruct (fades_some _ _ _ _ Hf Hy) as (x & Hx & -> & _). eauto.
  - intros e k y Hk Hy. destruct (fades_some _ _ _ _ Hf Hy) as (x & Hx & _).
    destruct (lc_closed y) eqn:E; [done|]. specialize (Hr e k x Hk Hx). rewrite (Hc e x y Hx Hy E) in Hr. done.
Qed.

Definition closing_ok (o : outcome) : Prop := match o with Next s' => inv_close s' | _ => True end.

Lemma closing_if (b : bool) o1 o2 :
  (b = true -> closing_ok o1) -> (b = false -> closing_ok o2) -> closing_ok (if b then o1 else o2).
Proof. destruct b; auto. Qed.

Lemma il_install s raddr : inv s -> inv_close s -> closing_ok (accept_install raddr s).
Proof.
  intros Hi Hl. unfold accept_install. destruct (pl_acceptor s) eqn:Ha; try done.
  apply closing_if; intros Hc.
  { destruct Hl as [Ho Hr Hin]. split; cbn; [|done..]. intros e x Hx Hcl.
    destruct (Ho e x Hx Hcl) as [?|[?|[? ?]]]; [by left|by right; left|congruence]. }
  destruct (pl_conns s) as [m|] eqn:Hm; [|done]. cbv zeta.
  set (np := if pl_uniquePeers s then u64 _ else _). set (peer := if pl_uniquePeers s then Some _ else _).
  set (prev := m !! packetAddrKey peer).
  assert (H1 : inv_close (option_do deactivate prev s) /\ inv (option_do deactivate prev s)).
  { destruct prev; simpl; [|done]. split; [apply il_closes, closes_deactivate; done|apply inv_fade, fades_deactivate; done]. }
  assert (Hm1 : pl_conns (option_do deactivate prev s) = Some m /\ pl_acceptor (option_do deactivate prev s) = AAccepting /\
    pl_next (option_do deactivate prev s) = pl_next s) by (destruct prev; split_and!; done).
  revert H1 Hm1. generalize (option_do deactivate prev s). intros s1 [[Ho Hr Hin] Hi1] (Hm1 & Ha1 & Hn1).
  split; cbn; [| |done].
  - intros e x. rewrite lookup_insert_Some. intros [[<- <-]|[Hn Hx]] Hcl; simpl.
    + left. eexists. split; [done|]. apply lookup_insert_eq.
    + destruct (Ho e x Hx Hcl) as [(m' & Hm' & He)|[?|[e' Hae]]]; [|by right; left|congruence].
      assert (m' = m) as -> by congruence.
      destruct (decide (packetAddrKey (lc_peer x) = packetAddrKey peer)) as [Ek|Hk].
      * right; right. exists (pl_next s). f_equal. rewrite Ek in He. exact He.
      * left. eexists. split; [done|]. by rewrite lookup_insert_ne.
  - intros e k x Hk. rewrite lookup_insert_ne; [eauto|]. intros <-.
    destruct (it_thread s1 (i_threads s1 Hi1) _ _ _ Hk) as (y & Hy%(ic_alloc s1 (i_conns s1 Hi1)) & _). lia.
Qed.

Lemma il_spawn s : inv s -> inv_close s -> closing_ok (accept_spawn s).
Proof.
  intros Hi Hl. unfold accept_spawn. destruct (pl_acceptor s) as [|e p| | | |] eqn:Ha; try done.
  assert (H1 : inv_close (option_do close_conn p s) /\ inv (option_do close_conn p s)).
  { destruct p; simpl; [|done]. split; [apply il_closes, closes_close; done|apply inv_fade, fades_close; done]. }
  assert (Hp : pl_acceptor (option_do close_conn p s) = AInstalled e p /\
    (forall q x, p = Some q -> pl_heap (option_do close_conn p s) !! q = Some x -> lc_closed x = true)).
  { split; [by destruct p|]. intros q x ->. cbn. rewrite lookup_alter_eq. destruct (pl_heap s !! q); [|done].
    by intros [= <-]. }
  revert H1 Hp. generalize (option_do close_conn p s). intros s1 [[Ho Hr Hin] Hi1] [Ha1 Hp].
  split; cbn; [| |done].
  - intros e' x Hx Hcl. destruct (Ho e' x Hx Hcl) as [?|[?|[e2 He2]]]; [by left|by right; left|].
    rewrite Ha1 in He2. injection He2 as -> ->. rewrite (Hp e' x eq_refl Hx) in Hcl. done.
  - intros e' k x. rewrite lookup_insert_Some. intros [[_ [=]]|[_ ?]]; eauto.
Qed.

(** Steps that leave the connections, the table and the shutdown alone. *)
Lemma il_same s s' : inv_close s ->
  pl_heap s' = pl_heap s -> pl_conns s' = pl_conns s -> pl_shutdown s' = pl_shutdown s ->
  (pl_innerClosed s = true -> pl_innerClosed s' = true) ->
  (forall e p, pl_acceptor s = AInstalled e (Some p) -> pl_acceptor s' = AInstalled e (Some p)) ->
  (forall e k, pl_readerThreads s' !! e = Some (RDetach, k) -> pl_readerThreads s !! e = Some (RDetach, k)) ->
  inv_close s'.
Proof.
  intros [Ho Hr Hin] Eh Ec Es Ei Ea Et. split; rewrite ?Eh, ?Ec, ?Es.
  - intros e x Hx Hcl. destruct (Ho e x Hx Hcl) as [?|[?|[e' He']]]; [by left|by right; left|]. right; right. eauto.
  - eauto.
  - auto.
Qed.

Lemma insert_detach (m : gmap nat (reader * string)) e r k e' k' :
  r <> RDetach -> <[e := (r, k)]> m !! e' = Some (RDetach, k') -> m !! e' = Some (RDetach, k').
Proof. intros Hr [[_ [= -> _]]|[_ ?]]%lookup_insert_Some; [done|done]. Qed.

Lemma il_fail s err : inv_close s -> closing_ok (accept_fail err s).
Proof.
  intros Hl. unfold accept_fail. destruct (pl_acceptor s) eqn:Ha; try done.
  apply (stopAdmission_cases err s (fun s' => closing_ok (Next {| s' with pl_acceptor := AWaiting |})));
    intros; apply (il_same s); try done; cbn; congruence.
Qed.

Lemma closeInner_same res s :
  pl_heap (closeInner res s) = pl_heap s /\ pl_conns (closeInner res s) = pl_conns s /\
  pl_shutdown (closeInner res s) = pl_shutdown s /\ pl_acceptor (closeInner res s) = pl_acceptor s /\
  pl_readerThreads (closeInner res s) = pl_readerThreads s /\ pl_innerClosed (closeInner res s) = true.
Proof. unfold closeInner. by destruct (pl_innerClosed s) eqn:E. Qed.

Lemma il_exit s res : inv_close s -> closing_ok (accept_exit res s).
Proof.
  intros Hl. unfold accept_exit. destruct (pl_acceptor s) eqn:Ha; try done; try (apply closing_if; intros _; try done).
  - apply (il_same s); try done; cbn; congruence.
  - destruct (closeInner_same res s) as (? & ? & ? & ? & E5 & ?). apply (il_same s); cbn; try done; [congruence|by rewrite E5].
  - apply (il_same s); try done; cbn; congruence.
Qed.

Lemma il_packet s e got : inv_close s -> closing_ok (read_packet e got s).
Proof.
  intros Hl. unfold read_packet. destruct (pl_readerThreads s !! e) as [[r k]|]; [|done]. destruct r; try done.
  destruct got; [apply closing_if; intros _|]; apply (il_same s); try done; intros e' k'; by apply insert_detach.
Qed.

Lemma il_select s e c : inv_close s -> closing_ok (read_select e c s).
Proof.
  intros Hl. unfold read_select. destruct (pl_readerThreads s !! e) as [[r k]|]; [|done].
  destruct r as [|p| | |]; try done. destruct c, (chan_try_send (pl_pkts s) p); try done; try (apply closing_if; intros _; try done);
    apply (il_same s); try done; intros e' k'; by apply insert_detach.
Qed.

Lemma il_detach s e k m :
  inv s -> inv_close s -> pl_readerThreads s !! e = Some (RDetach, k) -> pl_conns s = Some m ->
  inv_close {| s with pl_readerThreads := delete e (pl_readerThreads s); pl_conns := Some (remove_conn k e m) |}.
Proof.
  intros Hi [Ho Hr Hin] Hk Hm. split; cbn; [| |done].
  - intros e' x Hx Hcl. destruct (Ho e' x Hx Hcl) as [(m' & Hm' & He)|[?|?]]; [|by right; left|by right; right].
    left. assert (m' = m) as -> by congruence. eexists. split; [done|].
    apply remove_conn_other; [done|]. intros ->. rewrite (Hr e k x Hk Hx) in Hcl. done.
  - intros e' k' x [_ ?]%lookup_delete_Some. eauto.
Qed.

Lemma il_read_exit s e : inv s -> inv_close s -> closing_ok (read_exit e s).
Proof.
  intros Hi Hl. unfold read_exit. destruct (pl_readerThreads s !! e) as [[r k]|] eqn:Hr; [|done]. destruct r; try done.
  - apply closing_if; intros _; [done|]. apply (il_same s); try done. intros e' k'. by apply insert_detach.
  - destruct (il_closes (deactivate e s) _ (il_closes s _ Hl (closes_deactivate _ e)) (closes_close _ e)) as [Ho Hrel Hin].
    split; [exact Ho| |exact Hin]. cbn. intros e' k' x [[<- _]|[_ ?]]%lookup_insert_Some.
    + rewrite lookup_alter_eq. destruct (alter _ _ _ !! _); [|done]. by intros [= <-].
    + by eapply Hrel.
  - assert (Hgone : inv_close {| s with pl_readerThreads := delete e (pl_readerThreads s) |}).
    { apply (il_same s); try done. intros e' k'. cbn. by intros [_ ?]%lookup_delete_Some. }
    cbv zeta. apply closing_if; intros Hc; [done|].
    destruct (pl_conns s) as [m|] eqn:Hm; [|by rewrite (ie_nil s (i_end s Hi) Hm) in Hc].
    pose proof (il_detach s e k m Hi Hl Hr Hm) as Hd. unfold remove_conn in Hd. cbn.
    case_decide; apply closing_if; intros _; try done.
    all: (eapply il_same; [exact Hd|try done..]); cbn; congruence.
Qed.

Lemma il_shutdown s err : inv s -> inv_close s -> closing_ok (initiateShutdown err s).
Proof.
  intros Hi Hl. unfold initiateShutdown. destruct (pl_shutdown s) eqn:Hs; try done. cbv zeta.
  set (es := (map_to_list (default ∅ (pl_conns s))).*2).
  match goal with |- context [foldr deactivate ?x es] => set (s2 := x) end.
  rewrite (foldr_deactivate s2 es). pose proof (closes_deactivate_all es s2) as Hf.
  change (pl_heap s2) with (pl_heap s) in Hf. destruct (il_closes s _ Hl Hf) as [Ho Hr Hin].
  split; cbn in *; [|done|].
  - intros e x Hx Hcl. destruct (Ho e x Hx Hcl) as [(m & Hm & He)|[Hp|?]]; [| |by right; right].
    + right; left. subst es. rewrite Hm. simpl. apply list_elem_of_fmap. exists (packetAddrKey (lc_peer x), e).
      split; [done|]. by apply elem_of_map_to_list.
    + rewrite Hs in Hp. by apply elem_of_nil in Hp.
  - intros [[? ?]|?]; done.
Qed.

Lemma il_shutdown_next s res : inv_close s -> closing_ok (shutdown_next res s).
Proof.
  intros Hl. unfold shutdown_next. destruct (pl_shutdown s) as [|es|[|e es]|] eqn:Hs; try done.
  - destruct (closeInner_same res s) as (E1 & E2 & E3 & E4 & E5 & E6). destruct Hl as [Ho Hr Hin].
    split; cbn; rewrite ?E1, ?E2, ?E4, ?E5; [|done|done]. rewrite Hs in Ho. exact Ho.
  - destruct Hl as [Ho Hr Hin]. rewrite Hs in *. split; cbn; [exact Ho|done|]. intros _. apply Hin. eauto.
  - destruct (il_closes s _ Hl (closes_close _ e)) as [Ho Hr Hin]. cbn in *. rewrite Hs in *. split; cbn; [|done|].
    + intros e' x Hx Hcl. destruct (Ho e' x Hx Hcl) as [?|[Hp|?]]; [by left| |by right; right]. cbn in Hp.
      apply elem_of_cons in Hp as [->|?]; [|by right; left]. rewrite lookup_alter_eq in Hx.
      destruct (pl_heap s !! e); [|done]. by injection Hx as <-.
    + intros _. apply Hin. eauto.
Qed.

Lemma closing_step s a : inv s -> inv_close s -> closing_ok (step a s).
Proof.
  intros Hi Hl. destruct a; cbn [step].
  - by apply il_install.
  - by apply il_spawn.
  - by apply il_fail.
  - by apply il_exit.
  - by apply il_packet.
  - by apply il_select.
  - by apply il_read_exit.
  - unfold ReadFrom_call. destruct (pl_callers s !! k); [done|]. by apply (il_same s).
  - unfold ReadFrom. destruct (pl_callers s !! k) as [[n ph]|]; [|done].
    destruct ph, c; try done; try (destruct (chan_buf _)); try done; try (destruct (snapshot _));
      repeat (apply closing_if; intros _); try case_decide; try done; by apply (il_same s).
  - unfold SetReadDeadline. destruct (pl_closed s) eqn:Hc; [done|].
    destruct (set_deadline _ _ _); [|done]. rewrite <- Hc. by apply (il_same s).
  - unfold SetWriteDeadline. destruct (pl_closed s) eqn:Hc; [done|].
    destruct (set_deadline _ _ _); [|done]. rewrite <- Hc. by apply (il_same s).
  - apply closing_if; intros _; [|done]. destruct (fire _ _); [|done]. by apply (il_same s).
  - apply closing_if; intros _; [|done]. destruct (fire _ _); [|done]. by apply (il_same s).
  - by apply il_shutdown.
  - by apply il_shutdown_next.
Qed.

Lemma reachable_closing s : reachable s -> inv s /\ inv_close s.
Proof.
  intros [u Hm]. refine (rtc_invariant moves (fun s => inv s /\ inv_close s) _ _ _ Hm _).
  - intros s1 s2 [a E] [Hi Hl]. pose proof (step_ok s1 a Hi) as Hg. pose proof (closing_step s1 a Hi Hl) as Hc.
    rewrite E in Hg, Hc. done.
  - split; [apply inv_new|]. split; cbn; [done..|]. intros [[? ?]|?]; done.
Qed.

(** The steps the goroutines of the wrapper take by themselves, and the answers
    that the documentation of [net] promises: [Accept] of a closed listener and
    [ReadFrom] of a closed connection return.  [res] is what [inner.Close] answers. *)
Definition obliged (res : option pl_error) (a : action) (s : packetListenerWrapper) : bool :=
  match a with
  | AccSpawn | RdSelect _ _ | RdExit _ => true
  | AccExit r | ShutStep r => bool_decide (r = res)
  | AccFail _ => pl_innerClosed s
  | RdPacket e None => match pl_heap s !! e with Some x => lc_closed x | None => false end
  | _ => false
  end.

Definition obliged_moves (res : option pl_error) (s s' : packetListenerWrapper) : Prop :=
  exists a, obliged res a s = true /\ step a s = Next s'.

(** What every state on the way of a shutdown satisfies. *)
Record closing (res : option pl_error) (s : packetListenerWrapper) : Prop := {
  cg_inv : inv s;
  cg_close : inv_close s;
  cg_started : pl_shutdown s <> ShNone;
  cg_result : pl_innerClosed s = true -> pl_shutdownErr s = res;
}.

Ltac step_cases E :=
  repeat match type of E with
         | context [match ?x with _ => _ end] =>
             lazymatch x with context [match _ with _ => _ end] => fail | _ => destruct x eqn:? end
         end; try discriminate E; injection E as <-; cbn.

Lemma obliged_shutdown res s s' :
  obliged_moves res s s' -> pl_closed s = true ->
  (pl_shutdown s <> ShNone -> pl_shutdown s' <> ShNone) /\
  ((pl_innerClosed s = true -> pl_shutdownErr s = res) -> pl_innerClosed s' = true -> pl_shutdownErr s' = res).
Proof.
  intros (a & Ho & E) Hc. destruct a; cbn in Ho; try discriminate Ho; cbn [step] in E;
    unfold accept_spawn, accept_fail, stopAdmission, accept_exit, read_packet, read_select, read_exit,
      shutdown_next, closeInner, option_do, id in E; rewrite ?Hc in E; try apply bool_decide_eq_true in Ho; subst.
  all: step_cases E; (split; [congruence|auto]).
Qed.

Lemma closing_moves res s s' : closing res s -> obliged_moves res s s' -> closing res s'.
Proof.
  intros [Hi Hl Hs Hr] Hm. destruct (ie_shut s (i_end s Hi) Hs) as [Hc _].
  destruct (obliged_shutdown res s s' Hm Hc) as [? ?]. destruct Hm as (a & _ & E).
  pose proof (step_ok s a Hi) as Hg. pose proof (closing_step s a Hi Hl) as Hk. rewrite E in Hg, Hk. split; auto.
Qed.

Abbreviation obliged_run res := (rtc (obliged_moves res)).

Lemma closing_run res s s' : obliged_run res s s' -> closing res s -> closing res s'.
Proof. apply rtc_invariant. intros s1 s2 Hm Hc. by eapply closing_moves. Qed.

Lemma obliged_step res a s s' : obliged res a s = true -> step a s = Next s' -> obliged_run res s s'.
Proof. intros. apply rtc_once. by exists a. Qed.

(** The shutdown closes the inner listener and every detached connection. *)
Lemma shutdown_completes res s : closing res s -> exists s', obliged_run res s s' /\ pl_shutdown s' = ShDone.
Proof.
  intros Hc. assert (Hs : exists es, (pl_shutdown s = ShInner es) \/ (pl_shutdown s = ShConns es) \/ pl_shutdown s = ShDone).
  { pose proof (cg_started res s Hc). destruct (pl_shutdown s) as [|es|es|]; [done|exists es|exists es|exists []]; auto. }
  assert (Hconns : forall es s, pl_shutdown s = ShConns es -> exists s', obliged_run res s s' /\ pl_shutdown s' = ShDone).
  { clear s Hc Hs. induction es as [|e es IH]; intros s Hs.
    - eexists. split; [apply (obliged_step res (ShutStep res)); cbn; [by rewrite bool_decide_eq_true_2|]|].
      + unfold shutdown_next. by rewrite Hs.
      + done.
    - destruct (IH {| (close_conn e s) with pl_shutdown := ShConns es |} eq_refl) as (s' & Hr & ?). exists s'. split; [|done].
      etrans; [apply (obliged_step res (ShutStep res)); cbn; [by rewrite bool_decide_eq_true_2|]|exact Hr].
      unfold shutdown_next. by rewrite Hs. }
  destruct Hs as [es [Hs|[Hs|Hs]]]; [|by eapply Hconns|by exists s].
  destruct (Hconns es {| (closeInner res s) with pl_shutdown := ShConns es |} eq_refl) as (s' & Hr & ?).
  exists s'. split; [|done].
  etrans; [apply (obliged_step res (ShutStep res)); cbn; [by rewrite bool_decide_eq_true_2|]|exact Hr].
  unfold shutdown_next. by rewrite Hs.
Qed.

(** With the shutdown complete, every connection is closed or about to be. *)
Lemma shutdown_closed res s : closing res s -> pl_shutdown s = ShDone ->
  pl_closed s = true /\ pl_done s = true /\ pl_conns s = None /\ pl_innerClosed s = true.
Proof.
  intros [Hi Hl _ _] Hs. destruct (ie_shut s (i_end s Hi)) as [Hc Hn]; [by rewrite Hs|].
  split_and!; [done| |done|]; [by rewrite (ie_done s (i_end s Hi))|]. apply (il_inner s Hl). by right.
Qed.

Lemma acceptor_leaves res s : closing res s -> pl_shutdown s = ShDone -> admitting (pl_acceptor s) = true ->
  exists s', obliged_run res s s' /\ pl_shutdown s' = ShDone /\ pl_acceptor s' = AWaiting.
Proof.
  intros Hc Hs Ha.
  assert (Hacc : forall s, closing res s -> pl_shutdown s = ShDone -> pl_acceptor s = AAccepting ->
    exists s', obliged_run res s s' /\ pl_shutdown s' = ShDone /\ pl_acceptor s' = AWaiting).
  { clear s Hc Hs Ha. intros s Hc Hs Ha. destruct (shutdown_closed res s Hc Hs) as (Hcl & _ & _ & Hin).
    eexists. split; [apply (obliged_step res (AccFail None)); [done|]|].
    - cbn [step]. unfold accept_fail. rewrite Ha. done.
    - cbn. unfold stopAdmission. by rewrite Hcl. }
  destruct (pl_acceptor s) as [|e p| | | |] eqn:Ea; try done; [by apply Hacc|].
  assert (E : exists s1, step AccSpawn s = Next s1 /\ pl_acceptor s1 = AAccepting /\ pl_shutdown s1 = ShDone).
  { cbn [step]. unfold accept_spawn. rewrite Ea. eexists. split; [done|]. cbn. split; [done|]. by destruct p. }
  destruct E as (s1 & E & Ea1 & Hs1). assert (Hr1 : obliged_run res s s1) by by apply (obliged_step res AccSpawn).
  destruct (Hacc s1) as (s' & Hr & ? & ?); [by eapply closing_run|done..|]. exists s'. split; [by etrans|done].
Qed.

(** A reader leaves: its connection is closed and the wrapper is done. *)
Lemma reader_step res s e r k : closing res s -> pl_shutdown s = ShDone -> pl_acceptor s = AWaiting ->
  pl_readerThreads s !! e = Some (r, k) ->
  exists a s', obliged res a s = true /\ step a s = Next s' /\ pl_shutdown s' = ShDone /\ pl_acceptor s' = AWaiting /\
    pl_readerThreads s' = match r with
                          | RReading | RSending _ => <[e := (RDone, k)]> (pl_readerThreads s)
                          | RDone => <[e := (RRelease, k)]> (pl_readerThreads s)
                          | RRelease => <[e := (RDetach, k)]> (pl_readerThreads s)
                          | RDetach => delete e (pl_readerThreads s)
                          end.
Proof.
  intros Hc Hs Ha Hr. destruct (shutdown_closed res s Hc Hs) as (Hcl & Hd & Hn & Hin). destruct Hc as [Hi Hl _ _].
  destruct r.
  - exists (RdPacket e None), (set_reader e RDone k s). cbn. unfold read_packet. rewrite Hr. split_and!; try done.
    destruct (it_thread s (i_threads s Hi) e _ k Hr) as (x & Hx & _). rewrite Hx.
    destruct (lc_closed x) eqn:Ex; [done|]. destruct (il_owner s Hl e x Hx Ex) as [(m & Hm & _)|[Hp|[e' He']]].
    + congruence.
    + rewrite Hs in Hp. by apply elem_of_nil in Hp.
    + congruence.
  - exists (RdSelect e SelDone), (set_reader e RDone k s). cbn. unfold read_select. rewrite Hr, Hd. split_and!; done.
  - exists (RdExit e). cbn. unfold read_exit. rewrite Hr.
    pose proof (it_count s (i_threads s Hi)) as Hcnt. pose proof (counted_live _ _ _ Hr eq_refl). rewrite Ha in Hcnt.
    cbn in Hcnt. destruct (Z.leb_spec (pl_readers s) 0); [lia|]. by eexists.
  - exists (RdExit e). cbn. unfold read_exit. rewrite Hr. by eexists.
  - exists (RdExit e). cbn. unfold read_exit. rewrite Hr. cbn. rewrite Hcl. by eexists.
Qed.

Definition reader_rank (r : reader) : nat :=
  match r with RReading | RSending _ => 4 | RDone => 3 | RRelease => 2 | RDetach => 1 end.

Lemma peer_reader_leaves res n : forall s e r k, closing res s -> pl_shutdown s = ShDone -> pl_acceptor s = AWaiting ->
  pl_readerThreads s !! e = Some (r, k) -> (reader_rank r <= n)%nat ->
  exists s', obliged_run res s s' /\ pl_shutdown s' = ShDone /\ pl_acceptor s' = AWaiting /\
    pl_readerThreads s' = delete e (pl_readerThreads s).
Proof.
  induction n as [|n IH]; intros s e r k Hc Hs Ha Hr Hn; [destruct r; simpl in Hn; lia|].
  destruct (reader_step res s e r k Hc Hs Ha Hr) as (a & s1 & Ho & E & Hs1 & Ha1 & Ht).
  assert (Hr1 : obliged_run res s s1) by by eapply obliged_step.
  assert (Hgo : forall r', pl_readerThreads s1 = <[e := (r', k)]> (pl_readerThreads s) -> (reader_rank r' <= n)%nat ->
    exists s', obliged_run res s s' /\ pl_shutdown s' = ShDone /\ pl_acceptor s' = AWaiting /\
      pl_readerThreads s' = delete e (pl_readerThreads s)).
  { intros r' Et Hn'. destruct (IH s1 e r' k) as (s' & Hr' & ? & ? & Ed); try done; [by eapply closing_run| |].
    - rewrite Et. apply lookup_insert_eq.
    - exists s'. split_and!; [by etrans|done..|]. by rewrite Ed, Et, delete_insert_eq. }
  destruct r; simpl in Hn; try (eapply Hgo; [exact Ht|simpl; lia]). by exists s1.
Qed.

Lemma readers_leave res n : forall s, closing res s -> pl_shutdown s = ShDone -> pl_acceptor s = AWaiting ->
  size (pl_readerThreads s) = n ->
  exists s', obliged_run res s s' /\ pl_shutdown s' = ShDone /\ pl_acceptor s' = AWaiting /\ pl_readers s' = 0.
Proof.
  induction n as [|n IH]; intros s Hc Hs Ha Hn.
  - exists s. split_and!; try done. rewrite (it_count s (i_threads s (cg_inv res s Hc))), Ha.
    apply map_size_empty_iff in Hn. rewrite Hn. done.
  - destruct (map_choose (pl_readerThreads s)) as (e & [r k] & Hr).
    { intros E. by rewrite E, map_size_empty in Hn. }
    destruct (peer_reader_leaves res 4 s e r k Hc Hs Ha Hr) as (s1 & Hr1 & Hs1 & Ha1 & Ht1); [destruct r; simpl; lia|].
    destruct (IH s1) as (s' & Hr' & ?); try done; [by eapply closing_run| |].
    + rewrite Ht1, map_size_delete_Some; [|by eexists]. rewrite Hn. done.
    + exists s'. split; [by etrans|done].
Qed.

Lemma acceptor_signals res s : closing res s -> pl_shutdown s = ShDone -> admitting (pl_acceptor s) = false ->
  (pl_acceptor s = AWaiting -> pl_readers s = 0) ->
  exists s', obliged_run res s s' /\ Close_returns s' = Some res.
Proof.
  intros Hc Hs Ha Hz.
  assert (Hend : forall s, closing res s -> pl_shutdown s = ShDone -> pl_acceptor s = AGone -> Close_returns s = Some res).
  { clear s Hc Hs Ha Hz. intros s Hc Hs Ha. destruct (shutdown_closed res s Hc Hs) as (_ & _ & _ & Hin).
    unfold Close_returns. rewrite Hs, (ie_signal s (i_end s (cg_inv res s Hc))), Ha.
    rewrite bool_decide_eq_true_2 by done. by rewrite (cg_result res s Hc Hin). }
  assert (Hex : forall s s1, obliged_moves res s s1 -> closing res s ->
    (closing res s1 -> exists s', obliged_run res s1 s' /\ Close_returns s' = Some res) ->
    exists s', obliged_run res s s' /\ Close_returns s' = Some res).
  { intros s0 s1 Hm Hc0 H. destruct H as (s' & ? & ?); [by eapply closing_moves|]. exists s'. split; [by eapply rtc_l|done]. }
  assert (Hsig : forall s, closing res s -> pl_shutdown s = ShDone -> pl_acceptor s = ASignalling ->
    exists s', obliged_run res s s' /\ Close_returns s' = Some res).
  { clear s Hc Hs Ha Hz. intros s Hc Hs Ha.
    assert (E : step (AccExit res) s = Next {| s with pl_shutdownDone := true; pl_acceptor := AGone |}).
    { cbn. unfold accept_exit. rewrite Ha, (ie_signal s (i_end s (cg_inv res s Hc))), Ha. done. }
    eapply (Hex s); [exists (AccExit res); split; [cbn; by rewrite bool_decide_eq_true_2|exact E]|done|].
    intros Hc1. eexists. split; [done|]. by apply Hend. }
  assert (Hclo : forall s, closing res s -> pl_shutdown s = ShDone -> pl_acceptor s = AClosing ->
    exists s', obliged_run res s s' /\ Close_returns s' = Some res).
  { clear s Hc Hs Ha Hz. intros s Hc Hs Ha. destruct (shutdown_closed res s Hc Hs) as (_ & _ & _ & Hin).
    eapply (Hex s); [exists (AccExit res); split; [cbn; by rewrite bool_decide_eq_true_2|]|done|].
    - cbn. unfold accept_exit. by rewrite Ha.
    - intros Hc1. apply Hsig; [done| |done]. cbn. unfold closeInner. by rewrite Hin. }
  destruct (pl_acceptor s) eqn:Ea; try done; [| by apply Hclo | by apply Hsig | by exists s; split; [done|apply Hend] ].
  eapply (Hex s); [exists (AccExit res); split; [cbn; by rewrite bool_decide_eq_true_2|]|done|].
  - cbn. unfold accept_exit. rewrite Ea, (Hz eq_refl). done.
  - intros Hc1. by apply Hclo.
Qed.

(** [Close] returns.  Whatever the accepts, readers and callers were doing
    when the shutdown began, there is a run of the wrapper's own goroutines, in
    which the closed listener and the closed connections answer as [net]
    documents, that ends with every [Close] returning exactly the error of the
    inner listener's [Close]. *)
Theorem packet_listener_close_returns s res :
  reachable s -> pl_shutdown s <> ShNone -> (pl_innerClosed s = true -> pl_shutdownErr s = res) ->
  exists s', obliged_run res s s' /\ Close_returns s' = Some res.
Proof.
  intros [Hi Hl]%reachable_closing Hs Hr. assert (Hc : closing res s) by done.
  destruct (shutdown_completes res s Hc) as (s1 & R1 & Hs1).
  assert (Hc1 : closing res s1) by by eapply closing_run.
  assert (H2 : exists s2, obliged_run res s1 s2 /\ pl_shutdown s2 = ShDone /\ admitting (pl_acceptor s2) = false).
  { destruct (admitting (pl_acceptor s1)) eqn:Ea; [|by exists s1].
    destruct (acceptor_leaves res s1 Hc1 Hs1 Ea) as (s2 & ? & ? & E). exists s2. by rewrite E. }
  destruct H2 as (s2 & R2 & Hs2 & Ha2). assert (Hc2 : closing res s2) by by eapply closing_run.
  assert (H3 : exists s3, obliged_run res s2 s3 /\ pl_shutdown s3 = ShDone /\ admitting (pl_acceptor s3) = false /\
    (pl_acceptor s3 = AWaiting -> pl_readers s3 = 0)).
  { destruct (decide (pl_acceptor s2 = AWaiting)) as [Ew|]; [|by exists s2].
    destruct (readers_leave res _ s2 Hc2 Hs2 Ew eq_refl) as (s3 & ? & ? & E & ?). exists s3. by rewrite E. }
  destruct H3 as (s3 & R3 & Hs3 & Ha3 & Hz3). assert (Hc3 : closing res s3) by by eapply closing_run.
  destruct (acceptor_signals res s3 Hc3 Hs3 Ha3 Hz3) as (s4 & R4 & ?). exists s4. split; [|done].
  etrans; [exact R1|]. etrans; [exact R2|]. by etrans.
Qed.

Lemma packet_listener_close_returns_witness :
  exists s', obliged_run (Some (EInner "in use"))
    (run_actions [CallShutdown None] sample_listener) s' /\ Close_returns s' = Some (Some (EInner "in use")).
Proof.
  apply (packet_listener_close_returns (run_actions [CallShutdown None] sample_listener)).
  - exists false. etrans; [apply (run_actions_moves sample_run)|apply run_actions_moves].
  - vm_compute. discriminate.
  - vm_compute. discriminate.
Defined.
