(* ===== verification/TransportConfig.v ===== *)
(** * TransportConfig: layered transport settings ([config/transport.go])

    A transport configuration is a tree of optional sections.  [MergeTransport]
    lays one over another, [transportMode] chooses between QUIC, TLS and the race
    of both, and [FlattenTransportWithError] turns the merged tree into the
    options of the dialers.  Sections are pointers, which [MergeTransport] copies,
    so that they are values here; an empty Go string is an unset field.  Reading
    and parsing a CA file is a parameter. *)

From S2P Require Import Prelude GoStrings.

(** ** Data *)

Record BindConfig := MkBind { bc_Mode : string; bc_Interface : string; bc_Address : string }.

Record DNSConfig := MkDNS {
  dc_Override : string; dc_TLS : option bool; dc_ServerName : string; dc_DNSSEC : option bool }.

Record TLSConfig := MkTLS {
  ts_CAFile : string; ts_ServerName : string; ts_InsecureSkipVerify : option bool }.

Record ProxyTLSConfig := MkProxyTLS {
  pt_CAFile : string; pt_ServerName : string; pt_InsecureSkipVerify : option bool }.

Record ProxyConfig := MkProxy {
  pc_HTTP : string;
  pc_SOCKS5 : string;
  pc_Username : string;
  pc_Password : string;
  pc_Headers : option (gmap string string);      (* [None]: nil *)
  pc_FromEnvironment : option bool;
  pc_TLS : option ProxyTLSConfig;
}.

Record TransportConfig := MkTransportConfig {
  tc_Bind : option BindConfig;
  tc_IPFamily : string;
  tc_DNS : option DNSConfig;
  tc_MPTCP : option bool;
  tc_TLS : option TLSConfig;
  tc_Proxy : option ProxyConfig;
  tc_Mode : string;
  tc_UseQUIC : option bool;
}.

Definition empty_bind : BindConfig := MkBind "" "" "".
Definition empty_dns : DNSConfig := MkDNS "" None "" None.
Definition empty_tls : TLSConfig := MkTLS "" "" None.
Definition empty_proxy_tls : ProxyTLSConfig := MkProxyTLS "" "" None.
Definition empty_proxy : ProxyConfig := MkProxy "" "" "" "" None None None.
Definition empty_transport : TransportConfig := MkTransportConfig None "" None None None None "" None.

(** ** Merging *)

(** [if override.F != "" { out.F = override.F }]. *)
Definition set_string (out override : string) : string :=
  if bool_decide (override = "") then out else override.

(** [if override.F != nil { out.F = override.F }]. *)
Definition set_ptr {A} (out override : option A) : option A :=
  match override with Some _ => override | None => out end.

(** [if override.S != nil { if out.S == nil { out.S = &S{} }; ... }]. *)
Definition set_section {S} (empty : S) (merge : S -> S -> S) (out override : option S) : option S :=
  match override with
  | None => out
  | Some o => Some (merge (default empty out) o)
  end.

Definition merge_bind (out o : BindConfig) : BindConfig := {|
  bc_Mode := set_string (bc_Mode out) (bc_Mode o);
  bc_Interface := set_string (bc_Interface out) (bc_Interface o);
  bc_Address := set_string (bc_Address out) (bc_Address o) |}.

Definition merge_dns (out o : DNSConfig) : DNSConfig := {|
  dc_Override := set_string (dc_Override out) (dc_Override o);
  dc_TLS := set_ptr (dc_TLS out) (dc_TLS o);
  dc_ServerName := set_string (dc_ServerName out) (dc_ServerName o);
  dc_DNSSEC := set_ptr (dc_DNSSEC out) (dc_DNSSEC o) |}.

Definition merge_tls (out o : TLSConfig) : TLSConfig := {|
  ts_CAFile := set_string (ts_CAFile out) (ts_CAFile o);
  ts_ServerName := set_string (ts_ServerName out) (ts_ServerName o);
  ts_InsecureSkipVerify := set_ptr (ts_InsecureSkipVerify out) (ts_InsecureSkipVerify o) |}.

Definition merge_proxy_tls (out o : ProxyTLSConfig) : ProxyTLSConfig := {|
  pt_CAFile := set_string (pt_CAFile out) (pt_CAFile o);
  pt_ServerName := set_string (pt_ServerName out) (pt_ServerName o);
  pt_InsecureSkipVerify := set_ptr (pt_InsecureSkipVerify out) (pt_InsecureSkipVerify o) |}.

(** The loop over [override.Proxy.Headers], which starts when there is one. *)
Definition merge_headers (out o : option (gmap string string)) : option (gmap string string) :=
  match o with
  | None => out
  | Some m => if bool_decide (m = ∅) then out
              else Some (map_fold (fun k v r => <[k := v]> r) (default ∅ out) m)
  end.

Definition merge_proxy (out o : ProxyConfig) : ProxyConfig := {|
  pc_HTTP := set_string (pc_HTTP out) (pc_HTTP o);
  pc_SOCKS5 := set_string (pc_SOCKS5 out) (pc_SOCKS5 o);
  pc_Username := set_string (pc_Username out) (pc_Username o);
  pc_Password := set_string (pc_Password out) (pc_Password o);
  pc_FromEnvironment := set_ptr (pc_FromEnvironment out) (pc_FromEnvironment o);
  pc_TLS := set_section empty_proxy_tls merge_proxy_tls (pc_TLS out) (pc_TLS o);
  pc_Headers := merge_headers (pc_Headers out) (pc_Headers o) |}.

(** The copy of [base]: the map of headers is copied entry by entry. *)
Definition copy_base (base : TransportConfig) : TransportConfig :=
  {| base with tc_Proxy :=
       match tc_Proxy base with
       | None => None
       | Some p => Some {| p with pc_Headers :=
                             match pc_Headers p with
                             | None => None
                             | Some m => Some (map_fold (fun k v r => <[k := v]> r) ∅ m)
                             end |}
       end |}.

(** [override.Mode] clears the legacy selector; [override.UseQUIC] alone clears the mode. *)
Definition merge_selector (out o : TransportConfig) : string * option bool :=
  let '(mode, useQUIC) :=
    if bool_decide (tc_Mode o = "") then (tc_Mode out, tc_UseQUIC out) else (tc_Mode o, None) in
  match tc_UseQUIC o with
  | None => (mode, useQUIC)
  | Some q => (if bool_decide (tc_Mode o = "") then "" else mode, Some q)
  end.

Definition MergeTransport (base override : option TransportConfig) : option TransportConfig :=
  match base, override with
  | None, None => None
  | _, _ =>
      let out := match base with Some b => copy_base b | None => empty_transport end in
      match override with
      | None => Some out
      | Some o =>
          let '(mode, useQUIC) := merge_selector out o in
          Some {|
            tc_Bind := set_section empty_bind merge_bind (tc_Bind out) (tc_Bind o);
            tc_IPFamily := set_string (tc_IPFamily out) (tc_IPFamily o);
            tc_DNS := set_section empty_dns merge_dns (tc_DNS out) (tc_DNS o);
            tc_MPTCP := set_ptr (tc_MPTCP out) (tc_MPTCP o);
            tc_TLS := set_section empty_tls merge_tls (tc_TLS out) (tc_TLS o);
            tc_Proxy := set_section empty_proxy merge_proxy (tc_Proxy out) (tc_Proxy o);
            tc_Mode := mode;
            tc_UseQUIC := useQUIC |}
      end
  end.

(** ** The mode *)

Inductive TunnelTransportMode := ModeAuto | ModeTLS | ModeQUIC.

#[export] Instance transport_mode_eq_dec : EqDecision TunnelTransportMode.
Proof. solve_decision. Defined.

Inductive transport_error := InvalidMode (value : string) | ProxyTLSWithSOCKS5 | ProxyTLSWithoutProxy | InvalidCA (file : string).

Definition ParseTunnelTransportMode (value : string) : result transport_error TunnelTransportMode :=
  let mode := ToLowerRunes (TrimSpace value) in
  if bool_decide (mode = "auto") then Ok ModeAuto
  else if bool_decide (mode = "tls") then Ok ModeTLS
  else if bool_decide (mode = "quic") then Ok ModeQUIC
  else Err (InvalidMode value).

Definition transportMode (cfg : option TransportConfig) : result transport_error TunnelTransportMode :=
  match cfg with
  | None => Ok ModeAuto
  | Some c =>
      if negb (bool_decide (tc_Mode c = "")) then ParseTunnelTransportMode (tc_Mode c)
      else match tc_UseQUIC c with
           | Some q => Ok (if q then ModeQUIC else ModeTLS)
           | None => Ok ModeAuto
           end
  end.

(** ** The dialers *)

Section Flatten.

(** What [os.ReadFile] and [x509] make of a CA file: its certificates. *)
Context (pool : Type) (read_ca : string -> option pool).

(** [tls.Config], as far as the settings reach it. *)
Record tls_settings := MkTlsSettings {
  cs_RootCAs : option pool; cs_ServerName : string; cs_InsecureSkipVerify : bool }.

Record Transport := MkTransport {
  tr_LocalAddr : option string;
  tr_NetworkInterface : option string;
  tr_ForceIPv4 : option bool;
  tr_ForceIPv6 : option bool;
  tr_DNSOverride : option string;
  tr_DNSOverTLS : option bool;
  tr_DNSServerName : option string;
  tr_DNSSECEnabled : option bool;
  tr_MPTCPEnabled : option bool;
  tr_ProxyHTTP : option string;
  tr_ProxySOCKS5 : option string;
  tr_ProxyUsername : option string;
  tr_ProxyPassword : option string;
  tr_ProxyHTTPHeaders : option (gmap string string);
  tr_TLSProxyConfig : option tls_settings;
  tr_ProxyFromEnvironment : option bool;
}.

Record QUICTransport := MkQUICTransport {
  qt_LocalAddr : option string;
  qt_NetworkInterface : option string;
  qt_ForceIPv4 : option bool;
  qt_ForceIPv6 : option bool;
  qt_DNSOverride : option string;
  qt_DNSOverTLS : option bool;
  qt_DNSServerName : option string;
  qt_DNSSECEnabled : option bool;
  qt_ProxyHTTP : option string;
  qt_ProxySOCKS5 : option string;
  qt_ProxyUsername : option string;
  qt_ProxyPassword : option string;
  qt_ProxyHTTPHeaders : option (gmap string string);
  qt_TLSProxyConfig : option tls_settings;
  qt_ProxyFromEnvironment : option bool;
}.

Definition zero_transport : Transport :=
  MkTransport None None None None None None None None None None None None None None None None.
Definition zero_quic : QUICTransport :=
  MkQUICTransport None None None None None None None None None None None None None None None.

Inductive dialer := DTLS (t : Transport) | DQUIC (t : QUICTransport) | DAuto (t : option Transport) (q : option QUICTransport).

Definition boolPtrValue (value : option bool) : bool := default false value.

Definition validateProxyTLSConfig (proxy : option ProxyConfig) : option transport_error :=
  match proxy with
  | None => None
  | Some p =>
      match pc_TLS p with
      | None => None
      | Some _ =>
          if negb (bool_decide (pc_SOCKS5 p = "")) then Some ProxyTLSWithSOCKS5
          else if bool_decide (pc_HTTP p = "") && negb (boolPtrValue (pc_FromEnvironment p)) then Some ProxyTLSWithoutProxy
          else None
      end
  end.

Definition tlsConfigFromSettings (caFile serverName : string) (insecureSkipVerify : option bool) :
    result transport_error (option tls_settings) :=
  let finish (rootCAs : option pool) (set : bool) :=
    let '(name, set) := if bool_decide (serverName = "") then ("", set) else (serverName, true) in
    let '(insecure, set) := match insecureSkipVerify with Some b => (b, true) | None => (false, set) end in
    Ok (if set : bool then Some (MkTlsSettings rootCAs name insecure) else None) in
  if bool_decide (caFile = "") then finish None false
  else match read_ca caFile with
       | None => Err (InvalidCA caFile)
       | Some p => finish (Some p) true
       end.

Definition proxyTLSConfig (cfg : option ProxyTLSConfig) : result transport_error (option tls_settings) :=
  match cfg with
  | None => Ok None
  | Some c => tlsConfigFromSettings (pt_CAFile c) (pt_ServerName c) (pt_InsecureSkipVerify c)
  end.

Definition EngineTLSConfig (cfg : option TransportConfig) : result transport_error (option tls_settings) :=
  match cfg with
  | Some c => match tc_TLS c with
              | Some t => tlsConfigFromSettings (ts_CAFile t) (ts_ServerName t) (ts_InsecureSkipVerify t)
              | None => Ok None
              end
  | None => Ok None
  end.

(** [if c { t.F = ...; set = true }]. *)
Definition put {T} (c : bool) (f : T -> T) (st : T * bool) : T * bool :=
  if c then (f (fst st), true) else st.

Definition nonempty (s : string) : bool := negb (bool_decide (s = "")).

Definition copy_headers (h : option (gmap string string)) : option (gmap string string) :=
  Some (map_fold (fun k v r => <[k := v]> r) ∅ (default ∅ h)).

(** The QUIC branch of [FlattenTransportWithError], section by section. *)
Definition quic_bind (cfg : TransportConfig) (st : QUICTransport * bool) : QUICTransport * bool :=
  match tc_Bind cfg with
  | None => st
  | Some b =>
      if bool_decide (bc_Mode b = "address") || bool_decide (bc_Mode b = "") then
        put (nonempty (bc_Address b)) (fun t => {| t with qt_LocalAddr := Some (bc_Address b) |}) st
      else if bool_decide (bc_Mode b = "interface") then
        put (nonempty (bc_Interface b)) (fun t => {| t with qt_NetworkInterface := Some (bc_Interface b) |}) st
      else st
  end.

Definition quic_family (cfg : TransportConfig) (st : QUICTransport * bool) : QUICTransport * bool :=
  if bool_decide (tc_IPFamily cfg = "ipv4") then put true (fun t => {| t with qt_ForceIPv4 := Some true |}) st
  else if bool_decide (tc_IPFamily cfg = "ipv6") then put true (fun t => {| t with qt_ForceIPv6 := Some true |}) st
  else st.

Definition quic_dns (cfg : TransportConfig) (st : QUICTransport * bool) : QUICTransport * bool :=
  match tc_DNS cfg with
  | None => st
  | Some d =>
      let st := put (nonempty (dc_Override d)) (fun t => {| t with qt_DNSOverride := Some (dc_Override d) |}) st in
      let st := put (bool_decide (is_Some (dc_TLS d))) (fun t => {| t with qt_DNSOverTLS := dc_TLS d |}) st in
      let st := put (nonempty (dc_ServerName d)) (fun t => {| t with qt_DNSServerName := Some (dc_ServerName d) |}) st in
      put (bool_decide (is_Some (dc_DNSSEC d))) (fun t => {| t with qt_DNSSECEnabled := dc_DNSSEC d |}) st
  end.

Definition quic_proxy (p : ProxyConfig) (st : QUICTransport * bool) : QUICTransport * bool :=
  let st := put (nonempty (pc_HTTP p)) (fun t => {| t with qt_ProxyHTTP := Some (pc_HTTP p) |}) st in
  let st := put (nonempty (pc_SOCKS5 p)) (fun t => {| t with qt_ProxySOCKS5 := Some (pc_SOCKS5 p) |}) st in
  let st := put (nonempty (pc_Username p)) (fun t => {| t with qt_ProxyUsername := Some (pc_Username p) |}) st in
  let st := put (nonempty (pc_Password p)) (fun t => {| t with qt_ProxyPassword := Some (pc_Password p) |}) st in
  let st := put (bool_decide (is_Some (pc_FromEnvironment p)))
              (fun t => {| t with qt_ProxyFromEnvironment := pc_FromEnvironment p |}) st in
  put (negb (bool_decide (default ∅ (pc_Headers p) = ∅)))
    (fun t => {| t with qt_ProxyHTTPHeaders := copy_headers (pc_Headers p) |}) st.

Definition flatten_quic (cfg : TransportConfig) : result transport_error QUICTransport :=
  let st := quic_dns cfg (quic_family cfg (quic_bind cfg (zero_quic, false))) in
  let finish (st : QUICTransport * bool) := Ok (if snd st then fst st else zero_quic) in
  match tc_Proxy cfg with
  | None => finish st
  | Some p =>
      let st := quic_proxy p st in
      match proxyTLSConfig (pc_TLS p) with
      | Err e => Err e
      | Ok proxyTLS => finish (put (bool_decide (is_Some proxyTLS)) (fun t => {| t with qt_TLSProxyConfig := proxyTLS |}) st)
      end
  end.

(** The explicit TLS branch. *)
Definition tls_bind (cfg : TransportConfig) (st : Transport * bool) : Transport * bool :=
  match tc_Bind cfg with
  | None => st
  | Some b =>
      if bool_decide (bc_Mode b = "interface") then
        put (nonempty (bc_Interface b)) (fun t => {| t with tr_NetworkInterface := Some (bc_Interface b) |}) st
      else if bool_decide (bc_Mode b = "address") || bool_decide (bc_Mode b = "") then
        put (nonempty (bc_Address b)) (fun t => {| t with tr_LocalAddr := Some (bc_Address b) |}) st
      else st
  end.

Definition tls_family (cfg : TransportConfig) (st : Transport * bool) : Transport * bool :=
  if bool_decide (tc_IPFamily cfg = "ipv4") then put true (fun t => {| t with tr_ForceIPv4 := Some true |}) st
  else if bool_decide (tc_IPFamily cfg = "ipv6") then put true (fun t => {| t with tr_ForceIPv6 := Some true |}) st
  else st.

Definition tls_dns (cfg : TransportConfig) (st : Transport * bool) : Transport * bool :=
  match tc_DNS cfg with
  | None => st
  | Some d =>
      let st := put (nonempty (dc_Override d)) (fun t => {| t with tr_DNSOverride := Some (dc_Override d) |}) st in
      let st := put (bool_decide (is_Some (dc_TLS d))) (fun t => {| t with tr_DNSOverTLS := dc_TLS d |}) st in
      let st := put (nonempty (dc_ServerName d)) (fun t => {| t with tr_DNSServerName := Some (dc_ServerName d) |}) st in
      put (bool_decide (is_Some (dc_DNSSEC d))) (fun t => {| t with tr_DNSSECEnabled := dc_DNSSEC d |}) st
  end.

Definition tls_proxy (p : ProxyConfig) (st : Transport * bool) : Transport * bool :=
  let st := put (nonempty (pc_HTTP p)) (fun t => {| t with tr_ProxyHTTP := Some (pc_HTTP p) |}) st in
  let st := put (nonempty (pc_SOCKS5 p)) (fun t => {| t with tr_ProxySOCKS5 := Some (pc_SOCKS5 p) |}) st in
  let st := put (nonempty (pc_Username p)) (fun t => {| t with tr_ProxyUsername := Some (pc_Username p) |}) st in
  let st := put (nonempty (pc_Password p)) (fun t => {| t with tr_ProxyPassword := Some (pc_Password p) |}) st in
  let st := put (bool_decide (is_Some (pc_FromEnvironment p)))
              (fun t => {| t with tr_ProxyFromEnvironment := pc_FromEnvironment p |}) st in
  put (negb (bool_decide (default ∅ (pc_Headers p) = ∅)))
    (fun t => {| t with tr_ProxyHTTPHeaders := copy_headers (pc_Headers p) |}) st.

Definition tls_mptcp (cfg : TransportConfig) (st : Transport * bool) : Transport * bool :=
  put (bool_decide (is_Some (tc_MPTCP cfg))) (fun t => {| t with tr_MPTCPEnabled := tc_MPTCP cfg |}) st.

Definition flatten_tls (cfg : TransportConfig) : result transport_error Transport :=
  let st := tls_mptcp cfg (tls_dns cfg (tls_family cfg (tls_bind cfg (zero_transport, false)))) in
  let finish (st : Transport * bool) := Ok (if snd st then fst st else zero_transport) in
  match tc_Proxy cfg with
  | None => finish st
  | Some p =>
      let st := tls_proxy p st in
      match proxyTLSConfig (pc_TLS p) with
      | Err e => Err e
      | Ok proxyTLS => finish (put (bool_decide (is_Some proxyTLS)) (fun t => {| t with tr_TLSProxyConfig := proxyTLS |}) st)
      end
  end.

(** A configuration with an explicit mode; the automatic one calls it twice. *)
Definition flatten_mode (mode : TunnelTransportMode) (cfg : TransportConfig) : result transport_error dialer :=
  match validateProxyTLSConfig (tc_Proxy cfg) with
  | Some e => Err e
  | None => match mode with
            | ModeQUIC => let? t := flatten_quic cfg in Ok (DQUIC t)
            | _ => let? t := flatten_tls cfg in Ok (DTLS t)
            end
  end.

Definition FlattenTransportWithError (cfg : option TransportConfig) : result transport_error dialer :=
  let? mode := transportMode cfg in
  match cfg with
  | None => Ok (DAuto None None)
  | Some c =>
      match mode with
      | ModeAuto =>
          let? tlsDialer := flatten_mode ModeTLS {| c with tc_Mode := "tls"; tc_UseQUIC := None |} in
          let? quicDialer := flatten_mode ModeQUIC {| c with tc_Mode := "quic"; tc_UseQUIC := None |} in
          let tlsTransport := match tlsDialer with DTLS t => t | _ => zero_transport end in
          let quicTransport := match quicDialer with DQUIC t => t | _ => zero_quic end in
          Ok (DAuto (Some tlsTransport) (Some quicTransport))
      | _ => flatten_mode mode c
      end
  end.
End Flatten.

(** ** Copies and headers *)

Lemma map_fold_copy (m r : gmap string string) : map_fold (fun k v r => <[k := v]> r) r m = m ∪ r.
Proof.
  revert r. induction m as [|k v m Hk IH] using map_ind; intros r.
  - rewrite map_fold_empty. by rewrite (left_id_L ∅ (∪)).
  - rewrite map_fold_insert_L; [by rewrite IH, insert_union_l| |done].
    intros j1 j2 z1 z2 y Hne _ _. by apply insert_insert_ne.
Qed.

Lemma copy_base_id b : copy_base b = b.
Proof.
  destruct b as [? ? ? ? ? [[? ? ? ? [m|] ? ?]|] ? ?]; unfold copy_base; simpl; [|done..].
  by rewrite map_fold_copy, (right_id_L ∅ (∪)).
Qed.

(** Two layers of headers: the upper one wins; an empty layer is no layer. *)
Lemma merge_headers_eq out o :
  merge_headers out o =
  if decide (default ∅ o = ∅) then out else Some (default ∅ o ∪ default ∅ out).
Proof.
  unfold merge_headers. destruct o as [m|]; simpl; [|done]. case_bool_decide; case_decide; try done.
  by rewrite map_fold_copy.
Qed.

(** ** Merging is associative, field by field *)

Lemma set_string_assoc a b c : set_string (set_string a b) c = set_string a (set_string b c).
Proof. unfold set_string. repeat case_bool_decide; done. Qed.

Lemma set_ptr_assoc {A} (a b c : option A) : set_ptr (set_ptr a b) c = set_ptr a (set_ptr b c).
Proof. by destruct c, b. Qed.

Lemma union_empty (a b : gmap string string) : a ∪ b = ∅ <-> a = ∅ /\ b = ∅.
Proof.
  split; [|intros [-> ->]; by rewrite (left_id_L ∅ (∪))]. intros H.
  assert (a = ∅) as -> by (apply map_empty; intros k; apply (f_equal (.!! k)) in H;
    rewrite lookup_empty in H; by apply lookup_union_None in H as [? _]).
  by rewrite (left_id_L ∅ (∪)) in H.
Qed.

Lemma merge_headers_assoc a b c : merge_headers (merge_headers a b) c = merge_headers a (merge_headers b c).
Proof.
  rewrite !merge_headers_eq. destruct (decide (default ∅ c = ∅)) as [Ec|Ec].
  - rewrite ?merge_headers_eq. done.
  - simpl. rewrite (decide_False (P := default ∅ c ∪ default ∅ b = ∅)) by (by rewrite union_empty; intros [? _]).
    destruct (decide (default ∅ b = ∅)) as [Eb|Eb]; simpl.
    + by rewrite Eb, (right_id_L ∅ (∪)).
    + by rewrite (assoc_L (∪)).
Qed.

Section Sections.
Context {S : Type} (empty : S) (merge : S -> S -> S).
Hypothesis merge_assoc : forall a b c, merge (merge a b) c = merge a (merge b c).
Hypothesis merge_empty : forall a b, merge a (merge empty b) = merge a b.

Lemma set_section_assoc a b c :
  set_section empty merge (set_section empty merge a b) c = set_section empty merge a (set_section empty merge b c).
Proof.
  destruct c as [c|]; [|done]. destruct b as [b|]; simpl; [by rewrite merge_assoc|]. by rewrite merge_empty.
Qed.
End Sections.

Lemma set_string_empty a b : set_string a (set_string "" b) = set_string a b.
Proof. unfold set_string. by repeat case_bool_decide. Qed.

Lemma set_ptr_empty {A} (a b : option A) : set_ptr a (set_ptr None b) = set_ptr a b.
Proof. by destruct b. Qed.

Create HintDb merge discriminated.
#[export] Hint Rewrite set_string_assoc @set_ptr_assoc set_string_empty @set_ptr_empty merge_headers_assoc : merge.

Ltac merge_fields := intros; unfold merge_bind, merge_dns, merge_tls, merge_proxy_tls, merge_proxy; simpl;
  autorewrite with merge; done.

Lemma merge_bind_assoc a b c : merge_bind (merge_bind a b) c = merge_bind a (merge_bind b c).
Proof. merge_fields. Qed.
Lemma merge_bind_empty a b : merge_bind a (merge_bind empty_bind b) = merge_bind a b.
Proof. merge_fields. Qed.
Lemma merge_dns_assoc a b c : merge_dns (merge_dns a b) c = merge_dns a (merge_dns b c).
Proof. merge_fields. Qed.
Lemma merge_dns_empty a b : merge_dns a (merge_dns empty_dns b) = merge_dns a b.
Proof. merge_fields. Qed.
Lemma merge_tls_assoc a b c : merge_tls (merge_tls a b) c = merge_tls a (merge_tls b c).
Proof. merge_fields. Qed.
Lemma merge_tls_empty a b : merge_tls a (merge_tls empty_tls b) = merge_tls a b.
Proof. merge_fields. Qed.
Lemma merge_proxy_tls_assoc a b c : merge_proxy_tls (merge_proxy_tls a b) c = merge_proxy_tls a (merge_proxy_tls b c).
Proof. merge_fields. Qed.
Lemma merge_proxy_tls_empty a b : merge_proxy_tls a (merge_proxy_tls empty_proxy_tls b) = merge_proxy_tls a b.
Proof. merge_fields. Qed.

Lemma merge_headers_empty a b : merge_headers a (merge_headers None b) = merge_headers a b.
Proof. rewrite <- merge_headers_assoc. by destruct a. Qed.

Lemma merge_proxy_assoc a b c : merge_proxy (merge_proxy a b) c = merge_proxy a (merge_proxy b c).
Proof.
  unfold merge_proxy; simpl. autorewrite with merge.
  by rewrite (set_section_assoc _ _ merge_proxy_tls_assoc merge_proxy_tls_empty).
Qed.

Lemma merge_proxy_empty a b : merge_proxy a (merge_proxy empty_proxy b) = merge_proxy a b.
Proof.
  unfold merge_proxy; simpl. autorewrite with merge. rewrite merge_headers_empty. f_equal.
  destruct (pc_TLS b); simpl; [by rewrite merge_proxy_tls_empty|done].
Qed.

(** The selector: a layer that selects anything replaces the whole choice. *)
Definition selects (c : TransportConfig) : bool :=
  negb (bool_decide (tc_Mode c = "")) || bool_decide (is_Some (tc_UseQUIC c)).

Lemma merge_selector_eq out o :
  merge_selector out o = if selects o then (tc_Mode o, tc_UseQUIC o) else (tc_Mode out, tc_UseQUIC out).
Proof.
  unfold merge_selector, selects. destruct o as [? ? ? ? ? ? mode [q|]]; simpl; case_bool_decide; simpl; subst; done.
Qed.

(** One layer over another: the reference definition of a merge. *)
Definition lay (out o : TransportConfig) : TransportConfig := {|
  tc_Bind := set_section empty_bind merge_bind (tc_Bind out) (tc_Bind o);
  tc_IPFamily := set_string (tc_IPFamily out) (tc_IPFamily o);
  tc_DNS := set_section empty_dns merge_dns (tc_DNS out) (tc_DNS o);
  tc_MPTCP := set_ptr (tc_MPTCP out) (tc_MPTCP o);
  tc_TLS := set_section empty_tls merge_tls (tc_TLS out) (tc_TLS o);
  tc_Proxy := set_section empty_proxy merge_proxy (tc_Proxy out) (tc_Proxy o);
  tc_Mode := if selects o then tc_Mode o else tc_Mode out;
  tc_UseQUIC := if selects o then tc_UseQUIC o else tc_UseQUIC out |}.

Lemma MergeTransport_lay base o : MergeTransport base (Some o) = Some (lay (default empty_transport base) o).
Proof.
  unfold MergeTransport, lay. destruct base as [b|]; rewrite ?copy_base_id, merge_selector_eq; destruct (selects o); reflexivity.
Qed.

Lemma selects_lay a b : selects (lay a b) = selects a || selects b.
Proof.
  unfold selects at 1. cbn. destruct (selects b) eqn:E; [|by rewrite orb_false_r].
  rewrite orb_true_r. exact E.
Qed.

Lemma lay_assoc a b c : lay (lay a b) c = lay a (lay b c).
Proof.
  unfold lay at 1 3. rewrite selects_lay. cbn. autorewrite with merge.
  rewrite (set_section_assoc _ _ merge_bind_assoc merge_bind_empty).
  rewrite (set_section_assoc _ _ merge_dns_assoc merge_dns_empty).
  rewrite (set_section_assoc _ _ merge_tls_assoc merge_tls_empty).
  rewrite (set_section_assoc _ _ merge_proxy_assoc merge_proxy_empty).
  destruct (selects c), (selects b); done.
Qed.

Lemma lay_empty a b : lay a (lay empty_transport b) = lay a b.
Proof.
  rewrite <- lay_assoc. by destruct a.
Qed.

(** Layers of transport settings compose.  Merging three layers gives the
    same settings in either grouping (so that environment, context and flags can
    be merged in steps), a nil layer changes nothing, and the transport the
    result selects is the one of the last layer that selects any: an explicit
    mode or the legacy flag of an upper layer replaces both of a lower one. *)
Theorem merge_transport_layers a b c :
  MergeTransport (MergeTransport a b) c = MergeTransport a (MergeTransport b c) /\
  MergeTransport a None = a /\
  forall x, transportMode (MergeTransport a (Some x)) =
    if selects x then transportMode (Some x) else transportMode a.
Proof.
  assert (Hnil : forall x, MergeTransport x None = x).
  { intros [x|]; simpl; [by rewrite copy_base_id|done]. }
  split_and!; [|apply Hnil|].
  - destruct c as [c|]; [|by rewrite !Hnil]. rewrite !MergeTransport_lay. destruct b as [b|]; simpl.
    + rewrite !MergeTransport_lay. simpl. by rewrite lay_assoc.
    + by rewrite Hnil, lay_empty.
  - intros x. rewrite MergeTransport_lay. simpl. destruct (selects x); [done|]. by destruct a.
Qed.

(** ** Both dialers receive the same options *)

Section Options.
Context {pool : Type}.

(** The settings both kinds of dialer have. *)
Record dial_options := MkOptions {
  op_LocalAddr : option string;
  op_NetworkInterface : option string;
  op_ForceIPv4 : option bool;
  op_ForceIPv6 : option bool;
  op_DNS : option string * option bool * option string * option bool;
  op_Proxy : option string * option string * option string * option string;
  op_Headers : option (gmap string string);
  op_ProxyTLS : option (tls_settings pool);
  op_FromEnvironment : option bool;
}.

Definition tls_options (t : Transport pool) : dial_options :=
  let '(MkTransport _ la ni v4 v6 d1 d2 d3 d4 _ p1 p2 p3 p4 h pt fe) := t in
  MkOptions la ni v4 v6 (d1, d2, d3, d4) (p1, p2, p3, p4) h pt fe.

Definition quic_options (t : QUICTransport pool) : dial_options :=
  let '(MkQUICTransport _ la ni v4 v6 d1 d2 d3 d4 p1 p2 p3 p4 h pt fe) := t in
  MkOptions la ni v4 v6 (d1, d2, d3, d4) (p1, p2, p3, p4) h pt fe.

Definition from_string (s : string) : option string := if bool_decide (s = "") then None else Some s.

(** What a configuration asks of a dialer, setting by setting. *)
Definition wanted (cfg : TransportConfig) (proxyTLS : option (tls_settings pool)) : dial_options :=
  let d := default empty_dns (tc_DNS cfg) in
  let p := default empty_proxy (tc_Proxy cfg) in
  let b := default empty_bind (tc_Bind cfg) in
  let address := bool_decide (bc_Mode b = "address") || bool_decide (bc_Mode b = "") in {|
  op_LocalAddr := if address then from_string (bc_Address b) else None;
  op_NetworkInterface := if bool_decide (bc_Mode b = "interface") then from_string (bc_Interface b) else None;
  op_ForceIPv4 := if bool_decide (tc_IPFamily cfg = "ipv4") then Some true else None;
  op_ForceIPv6 := if bool_decide (tc_IPFamily cfg = "ipv6") then Some true else None;
  op_DNS := (from_string (dc_Override d), dc_TLS d, from_string (dc_ServerName d), dc_DNSSEC d);
  op_Proxy := (from_string (pc_HTTP p), from_string (pc_SOCKS5 p), from_string (pc_Username p), from_string (pc_Password p));
  op_Headers := if bool_decide (default ∅ (pc_Headers p) = ∅) then None else pc_Headers p;
  op_ProxyTLS := proxyTLS;
  op_FromEnvironment := pc_FromEnvironment p |}.
End Options.

Lemma from_string_put (s : string) :
  from_string s = if nonempty s then Some s else None.
Proof. unfold from_string, nonempty. by case_bool_decide. Qed.

Lemma option_put {A} (o : option A) : o = if bool_decide (is_Some o) then o else None.
Proof. by destruct o. Qed.

(** The effect of each section on the options. *)
Section Effects.
Context {pool : Type}.
Abbreviation options := (@dial_options pool).

Definition bind_effect (cfg : TransportConfig) (o : options) : options :=
  let b := default empty_bind (tc_Bind cfg) in
  let address := bool_decide (bc_Mode b = "address") || bool_decide (bc_Mode b = "") in
  {| o with op_LocalAddr := set_ptr (op_LocalAddr o) (if address then from_string (bc_Address b) else None);
            op_NetworkInterface := set_ptr (op_NetworkInterface o)
              (if bool_decide (bc_Mode b = "interface") then from_string (bc_Interface b) else None) |}.

Definition family_effect (cfg : TransportConfig) (o : options) : options :=
  {| o with op_ForceIPv4 := set_ptr (op_ForceIPv4 o) (if bool_decide (tc_IPFamily cfg = "ipv4") then Some true else None);
            op_ForceIPv6 := set_ptr (op_ForceIPv6 o) (if bool_decide (tc_IPFamily cfg = "ipv6") then Some true else None) |}.

Definition dns_effect (cfg : TransportConfig) (o : options) : options :=
  let d := default empty_dns (tc_DNS cfg) in
  let '(a, b, c, e) := op_DNS o in
  {| o with op_DNS := (set_ptr a (from_string (dc_Override d)), set_ptr b (dc_TLS d),
                       set_ptr c (from_string (dc_ServerName d)), set_ptr e (dc_DNSSEC d)) |}.

Definition proxy_effect (p : ProxyConfig) (o : options) : options :=
  let '(a, b, c, e) := op_Proxy o in
  {| o with op_Proxy := (set_ptr a (from_string (pc_HTTP p)), set_ptr b (from_string (pc_SOCKS5 p)),
                         set_ptr c (from_string (pc_Username p)), set_ptr e (from_string (pc_Password p)));
            op_FromEnvironment := set_ptr (op_FromEnvironment o) (pc_FromEnvironment p);
            op_Headers := set_ptr (op_Headers o)
              (if bool_decide (default ∅ (pc_Headers p) = ∅) then None else pc_Headers p) |}.

Lemma copy_headers_id h : default ∅ h <> ∅ -> copy_headers h = h.
Proof. destruct h as [m|]; simpl; [|done]. intros _. unfold copy_headers. by rewrite map_fold_copy, (right_id_L ∅ (∪)). Qed.

Ltac effect := unfold put, from_string, nonempty; repeat case_bool_decide; try congruence; try reflexivity.

Lemma tls_bind_effect cfg st : tls_options (fst (tls_bind pool cfg st)) = bind_effect cfg (tls_options (fst st)).
Proof.
  destruct st as [[] set]. unfold tls_bind, bind_effect. destruct (tc_Bind cfg) as [[m i a]|]; simpl; [|done]. effect.
Qed.
Lemma quic_bind_effect cfg st : quic_options (fst (quic_bind pool cfg st)) = bind_effect cfg (quic_options (fst st)).
Proof.
  destruct st as [[] set]. unfold quic_bind, bind_effect. destruct (tc_Bind cfg) as [[m i a]|]; simpl; [|done]. effect.
Qed.
Lemma tls_family_effect cfg st : tls_options (fst (tls_family pool cfg st)) = family_effect cfg (tls_options (fst st)).
Proof. destruct st as [[] set]. unfold tls_family, family_effect. effect. Qed.
Lemma quic_family_effect cfg st : quic_options (fst (quic_family pool cfg st)) = family_effect cfg (quic_options (fst st)).
Proof. destruct st as [[] set]. unfold quic_family, family_effect. effect. Qed.
(** One guarded assignment, seen through the options. *)
Lemma put_effect {T} (opt : T -> options) c f (F : options -> options) st :
  (forall t, opt (f t) = F (opt t)) -> opt (fst (put c f st)) = if c then F (opt (fst st)) else opt (fst st).
Proof. intros H. by destruct c; simpl. Qed.

Definition on_proxy (g : option string * option string * option string * option string ->
    option string * option string * option string * option string) (o : options) : options :=
  {| o with op_Proxy := g (op_Proxy o) |}.

(** The assignments of the proxy section, in order. *)
Definition proxy_assignments (p : ProxyConfig) (o : options) : options :=
  let o := if nonempty (pc_HTTP p) then on_proxy (fun '(a, b, c, e) => (Some (pc_HTTP p), b, c, e)) o else o in
  let o := if nonempty (pc_SOCKS5 p) then on_proxy (fun '(a, b, c, e) => (a, Some (pc_SOCKS5 p), c, e)) o else o in
  let o := if nonempty (pc_Username p) then on_proxy (fun '(a, b, c, e) => (a, b, Some (pc_Username p), e)) o else o in
  let o := if nonempty (pc_Password p) then on_proxy (fun '(a, b, c, e) => (a, b, c, Some (pc_Password p))) o else o in
  let o := if bool_decide (is_Some (pc_FromEnvironment p)) then {| o with op_FromEnvironment := pc_FromEnvironment p |} else o in
  if negb (bool_decide (default ∅ (pc_Headers p) = ∅)) then {| o with op_Headers := copy_headers (pc_Headers p) |} else o.

Lemma if_on_proxy (c : bool) g (o : options) : (if c then on_proxy g o else o) = on_proxy (if c then g else id) o.
Proof. by destruct c, o. Qed.

Lemma on_proxy_twice g h (o : options) : on_proxy g (on_proxy h o) = on_proxy (fun x => g (h x)) o.
Proof. done. Qed.

Lemma if_environment (c : bool) v (o : options) :
  (if c then {| o with op_FromEnvironment := v |} else o) =
  {| o with op_FromEnvironment := if c then v else op_FromEnvironment o |}.
Proof. by destruct c, o. Qed.

Lemma if_headers (c : bool) v (o : options) :
  (if c then {| o with op_Headers := v |} else o) = {| o with op_Headers := if c then v else op_Headers o |}.
Proof. by destruct c, o. Qed.

Lemma proxy_assignments_effect p o : proxy_assignments p o = proxy_effect p o.
Proof.
  unfold proxy_assignments. cbv zeta. rewrite !if_on_proxy, !on_proxy_twice, if_environment, if_headers.
  unfold proxy_effect. destruct o as [la ni v4 v6 dns [[[a b] c] e] hs pt fe], p as [h s u w hd fe' pt'].
  cbn [on_proxy op_Proxy op_Headers op_FromEnvironment pc_HTTP pc_SOCKS5 pc_Username pc_Password pc_FromEnvironment pc_Headers].
  f_equal.
  - unfold nonempty, from_string. by repeat case_bool_decide.
  - case_bool_decide; simpl; [done|]. rewrite copy_headers_id by done. by destruct hd.
  - by destruct fe'.
Qed.

Definition on_dns (g : option string * option bool * option string * option bool ->
    option string * option bool * option string * option bool) (o : options) : options :=
  {| o with op_DNS := g (op_DNS o) |}.

Definition dns_assignments (d : DNSConfig) (o : options) : options :=
  let o := if nonempty (dc_Override d) then on_dns (fun '(a, b, c, e) => (Some (dc_Override d), b, c, e)) o else o in
  let o := if bool_decide (is_Some (dc_TLS d)) then on_dns (fun '(a, b, c, e) => (a, dc_TLS d, c, e)) o else o in
  let o := if nonempty (dc_ServerName d) then on_dns (fun '(a, b, c, e) => (a, b, Some (dc_ServerName d), e)) o else o in
  if bool_decide (is_Some (dc_DNSSEC d)) then on_dns (fun '(a, b, c, e) => (a, b, c, dc_DNSSEC d)) o else o.

Lemma if_on_dns (c : bool) g (o : options) : (if c then on_dns g o else o) = on_dns (if c then g else id) o.
Proof. by destruct c, o. Qed.

Lemma on_dns_twice g h (o : options) : on_dns g (on_dns h o) = on_dns (fun x => g (h x)) o.
Proof. done. Qed.

Lemma dns_assignments_effect cfg d (o : options) : tc_DNS cfg = Some d -> dns_assignments d o = dns_effect cfg o.
Proof.
  intros Hd. unfold dns_assignments. cbv zeta. rewrite !if_on_dns, !on_dns_twice.
  unfold dns_effect. rewrite Hd. destruct o as [la ni v4 v6 [[[a b] c] e] pr hs pt fe], d as [ov [t|] n [s|]];
    unfold nonempty, from_string; cbn [op_DNS from_option id dc_Override dc_TLS dc_ServerName dc_DNSSEC];
    destruct (bool_decide (ov = "")), (bool_decide (n = "")); reflexivity.
Qed.

Ltac by_fields := by intros [].

Lemma tls_dns_effect cfg st : tls_options (fst (tls_dns pool cfg st)) = dns_effect cfg (tls_options (fst st)).
Proof.
  unfold tls_dns. destruct (tc_DNS cfg) as [d|] eqn:Hd.
  2: { unfold dns_effect. rewrite Hd. by destruct (tls_options _) as [? ? ? ? [[[? ?] ?] ?] ? ? ? ?]. }
  rewrite <- (dns_assignments_effect cfg d) by done. unfold dns_assignments. cbv zeta.
  rewrite (put_effect tls_options _ _ (on_dns (fun '(a, b, c, e) => (a, b, c, dc_DNSSEC d)))) by by_fields.
  rewrite (put_effect tls_options _ _ (on_dns (fun '(a, b, c, e) => (a, b, Some (dc_ServerName d), e)))) by by_fields.
  rewrite (put_effect tls_options _ _ (on_dns (fun '(a, b, c, e) => (a, dc_TLS d, c, e)))) by by_fields.
  rewrite (put_effect tls_options _ _ (on_dns (fun '(a, b, c, e) => (Some (dc_Override d), b, c, e)))) by by_fields.
  done.
Qed.

Lemma quic_dns_effect cfg st : quic_options (fst (quic_dns pool cfg st)) = dns_effect cfg (quic_options (fst st)).
Proof.
  unfold quic_dns. destruct (tc_DNS cfg) as [d|] eqn:Hd.
  2: { unfold dns_effect. rewrite Hd. by destruct (quic_options _) as [? ? ? ? [[[? ?] ?] ?] ? ? ? ?]. }
  rewrite <- (dns_assignments_effect cfg d) by done. unfold dns_assignments. cbv zeta.
  rewrite (put_effect quic_options _ _ (on_dns (fun '(a, b, c, e) => (a, b, c, dc_DNSSEC d)))) by by_fields.
  rewrite (put_effect quic_options _ _ (on_dns (fun '(a, b, c, e) => (a, b, Some (dc_ServerName d), e)))) by by_fields.
  rewrite (put_effect quic_options _ _ (on_dns (fun '(a, b, c, e) => (a, dc_TLS d, c, e)))) by by_fields.
  rewrite (put_effect quic_options _ _ (on_dns (fun '(a, b, c, e) => (Some (dc_Override d), b, c, e)))) by by_fields.
  done.
Qed.

Lemma tls_proxy_effect p st : tls_options (fst (tls_proxy pool p st)) = proxy_effect p (tls_options (fst st)).
Proof.
  rewrite <- proxy_assignments_effect. unfold tls_proxy, proxy_assignments. cbv zeta.
  rewrite (put_effect tls_options _ _ (fun o => {| o with op_Headers := copy_headers (pc_Headers p) |})) by by_fields.
  rewrite (put_effect tls_options _ _ (fun o => {| o with op_FromEnvironment := pc_FromEnvironment p |})) by by_fields.
  rewrite (put_effect tls_options _ _ (on_proxy (fun '(a, b, c, e) => (a, b, c, Some (pc_Password p))))) by by_fields.
  rewrite (put_effect tls_options _ _ (on_proxy (fun '(a, b, c, e) => (a, b, Some (pc_Username p), e)))) by by_fields.
  rewrite (put_effect tls_options _ _ (on_proxy (fun '(a, b, c, e) => (a, Some (pc_SOCKS5 p), c, e)))) by by_fields.
  rewrite (put_effect tls_options _ _ (on_proxy (fun '(a, b, c, e) => (Some (pc_HTTP p), b, c, e)))) by by_fields.
  done.
Qed.

Lemma quic_proxy_effect p st : quic_options (fst (quic_proxy pool p st)) = proxy_effect p (quic_options (fst st)).
Proof.
  rewrite <- proxy_assignments_effect. unfold quic_proxy, proxy_assignments. cbv zeta.
  rewrite (put_effect quic_options _ _ (fun o => {| o with op_Headers := copy_headers (pc_Headers p) |})) by by_fields.
  rewrite (put_effect quic_options _ _ (fun o => {| o with op_FromEnvironment := pc_FromEnvironment p |})) by by_fields.
  rewrite (put_effect quic_options _ _ (on_proxy (fun '(a, b, c, e) => (a, b, c, Some (pc_Password p))))) by by_fields.
  rewrite (put_effect quic_options _ _ (on_proxy (fun '(a, b, c, e) => (a, b, Some (pc_Username p), e)))) by by_fields.
  rewrite (put_effect quic_options _ _ (on_proxy (fun '(a, b, c, e) => (a, Some (pc_SOCKS5 p), c, e)))) by by_fields.
  rewrite (put_effect quic_options _ _ (on_proxy (fun '(a, b, c, e) => (Some (pc_HTTP p), b, c, e)))) by by_fields.
  done.
Qed.
End Effects.

(** ** The dialers a configuration becomes *)

Section Equivalence.
Context {pool : Type} (read_ca : string -> option pool).

(** A transport that was not touched is the zero one. *)
Definition coherent {T} (zero : T) (st : T * bool) : Prop := snd st = false -> fst st = zero.

Lemma coherent_put {T} (zero : T) c f st : coherent zero st -> coherent zero (put c f st).
Proof. by destruct c. Qed.

Lemma coherent_finish {T} (zero : T) st : coherent zero st -> (if snd st then fst st else zero) = fst st.
Proof. unfold coherent. destruct (snd st); [done|]. intros H. by rewrite H. Qed.

Ltac coherent := unfold tls_bind, tls_family, tls_dns, tls_mptcp, tls_proxy, quic_bind, quic_family, quic_dns, quic_proxy;
  repeat (case_match || apply coherent_put); try done.

Lemma tls_sections_coherent cfg st : coherent (zero_transport pool) st ->
  coherent (zero_transport pool) (tls_mptcp pool cfg (tls_dns pool cfg (tls_family pool cfg (tls_bind pool cfg st)))).
Proof. intros. coherent. Qed.

Lemma quic_sections_coherent cfg st : coherent (zero_quic pool) st ->
  coherent (zero_quic pool) (quic_dns pool cfg (quic_family pool cfg (quic_bind pool cfg st))).
Proof. intros. coherent. Qed.

Definition with_proxy_tls (v : option (tls_settings pool)) (o : @dial_options pool) : @dial_options pool :=
  {| o with op_ProxyTLS := v |}.

(** The sections together are what the configuration asks for. *)
Lemma wanted_effects cfg proxyTLS :
  let o := dns_effect cfg (family_effect cfg (bind_effect cfg (tls_options (zero_transport pool)))) in
  with_proxy_tls proxyTLS (match tc_Proxy cfg with Some p => proxy_effect p o | None => o end) = wanted cfg proxyTLS.
Proof.
  unfold wanted, with_proxy_tls. cbn [tls_options zero_transport]. unfold bind_effect, family_effect, dns_effect.
  cbn [op_LocalAddr op_NetworkInterface op_ForceIPv4 op_ForceIPv6 op_DNS op_Proxy op_Headers op_ProxyTLS op_FromEnvironment].
  generalize (default empty_bind (tc_Bind cfg)) (default empty_dns (tc_DNS cfg)). intros b d.
  assert (Hs : forall A (x : option A), set_ptr None x = x) by by intros A [].
  rewrite !Hs. destruct (tc_Proxy cfg) as [p|]; [|reflexivity]. unfold proxy_effect.
  cbn [op_LocalAddr op_NetworkInterface op_ForceIPv4 op_ForceIPv6 op_DNS op_Proxy op_Headers op_ProxyTLS op_FromEnvironment].
  rewrite !Hs. reflexivity.
Qed.

Lemma put_some {T} (f : option (tls_settings pool) -> T -> T) v st :
  (forall t, f None t = t) -> fst (put (bool_decide (is_Some v)) (f v) st) = f v (fst st).
Proof. destruct v; simpl; [done|]. intros H. by rewrite H. Qed.

(** Multipath TCP is set by its own section only. *)
Lemma put_mptcp c (f : Transport pool -> Transport pool) st :
  (forall t, tr_MPTCPEnabled pool (f t) = tr_MPTCPEnabled pool t) ->
  tr_MPTCPEnabled pool (fst (put c f st)) = tr_MPTCPEnabled pool (fst st).
Proof. intros H. by destruct c; simpl. Qed.

Lemma sections_mptcp cfg st :
  tr_MPTCPEnabled pool (fst st) = None ->
  tr_MPTCPEnabled pool (fst (tls_mptcp pool cfg (tls_dns pool cfg (tls_family pool cfg (tls_bind pool cfg st))))) = tc_MPTCP cfg.
Proof.
  intros H0. assert (H1 : tr_MPTCPEnabled pool (fst (tls_dns pool cfg (tls_family pool cfg (tls_bind pool cfg st)))) = None).
  { unfold tls_dns, tls_family, tls_bind. repeat case_match; rewrite ?put_mptcp by done; done. }
  unfold tls_mptcp. destruct (tc_MPTCP cfg) as [m|]; [done|]. exact H1.
Qed.

Lemma proxy_mptcp p st : tr_MPTCPEnabled pool (fst (tls_proxy pool p st)) = tr_MPTCPEnabled pool (fst st).
Proof. unfold tls_proxy. cbv zeta. by rewrite !put_mptcp. Qed.

Lemma proxy_coherent p st : coherent (zero_transport pool) st -> coherent (zero_transport pool) (tls_proxy pool p st).
Proof. intros. unfold tls_proxy. cbv zeta. by repeat apply coherent_put. Qed.

Lemma quic_proxy_coherent p st : coherent (zero_quic pool) st -> coherent (zero_quic pool) (quic_proxy pool p st).
Proof. intros. unfold quic_proxy. cbv zeta. by repeat apply coherent_put. Qed.

Lemma mptcp_effect cfg st : tls_options (fst (tls_mptcp pool cfg st)) = tls_options (fst st).
Proof.
  unfold tls_mptcp. rewrite (put_effect tls_options _ _ id) by by intros []. by destruct (bool_decide _).
Qed.

Lemma proxy_tls_put (o : @dial_options pool) v :
  op_ProxyTLS o = None -> (if bool_decide (is_Some v) then with_proxy_tls v o else o) = with_proxy_tls v o.
Proof. intros H. destruct v; [done|]. destruct o. cbn in H. by subst. Qed.

Lemma sections_proxy_tls cfg p :
  let o := dns_effect cfg (family_effect cfg (bind_effect cfg (tls_options (zero_transport pool)))) in
  op_ProxyTLS o = None /\ op_ProxyTLS (proxy_effect p o) = None.
Proof. done. Qed.

Lemma flatten_tls_ok cfg proxyTLS :
  proxyTLSConfig pool read_ca (pc_TLS (default empty_proxy (tc_Proxy cfg))) = Ok proxyTLS ->
  exists t, flatten_tls pool read_ca cfg = Ok t /\ tls_options t = wanted cfg proxyTLS /\
            tr_MPTCPEnabled pool t = tc_MPTCP cfg.
Proof.
  intros Hp. rewrite <- wanted_effects. unfold flatten_tls.
  pose proof (tls_sections_coherent cfg (zero_transport pool, false) ltac:(done)) as Hc.
  pose proof (sections_mptcp cfg (zero_transport pool, false) eq_refl) as Hm.
  assert (Ho : tls_options (fst (tls_mptcp pool cfg (tls_dns pool cfg (tls_family pool cfg (tls_bind pool cfg (zero_transport pool, false)))))) =
    dns_effect cfg (family_effect cfg (bind_effect cfg (tls_options (zero_transport pool))))).
  { by rewrite mptcp_effect, tls_dns_effect, tls_family_effect, tls_bind_effect. }
  pose proof (sections_proxy_tls cfg) as Hn. cbv zeta in Hn |- *. rewrite <- Ho in *. clear Ho. revert Hc Hm Hn.
  generalize (tls_mptcp pool cfg (tls_dns pool cfg (tls_family pool cfg (tls_bind pool cfg (zero_transport pool, false))))).
  intros st Hc Hm Hn. destruct (tc_Proxy cfg) as [p|]; simpl in Hp.
  - rewrite Hp. eexists. split; [done|]. rewrite coherent_finish by by apply coherent_put, proxy_coherent.
    rewrite put_mptcp, proxy_mptcp by done. split; [|done].
    rewrite (put_effect tls_options _ _ (with_proxy_tls proxyTLS)) by by intros [].
    rewrite tls_proxy_effect. apply proxy_tls_put, Hn.
  - injection Hp as <-. eexists. split; [done|]. rewrite coherent_finish by done. split; [|done].
    exact (proxy_tls_put _ None (proj1 (Hn empty_proxy))).
Qed.

Lemma flatten_quic_ok cfg proxyTLS :
  proxyTLSConfig pool read_ca (pc_TLS (default empty_proxy (tc_Proxy cfg))) = Ok proxyTLS ->
  exists q, flatten_quic pool read_ca cfg = Ok q /\ quic_options q = wanted cfg proxyTLS.
Proof.
  intros Hp. rewrite <- wanted_effects. unfold flatten_quic.
  pose proof (quic_sections_coherent cfg (zero_quic pool, false) ltac:(done)) as Hc.
  assert (Ho : quic_options (fst (quic_dns pool cfg (quic_family pool cfg (quic_bind pool cfg (zero_quic pool, false))))) =
    dns_effect cfg (family_effect cfg (bind_effect cfg (tls_options (zero_transport pool))))).
  { by rewrite quic_dns_effect, quic_family_effect, quic_bind_effect. }
  pose proof (sections_proxy_tls cfg) as Hn. cbv zeta in Hn |- *. rewrite <- Ho in *. clear Ho. revert Hc Hn.
  generalize (quic_dns pool cfg (quic_family pool cfg (quic_bind pool cfg (zero_quic pool, false)))).
  intros st Hc Hn. destruct (tc_Proxy cfg) as [p|]; simpl in Hp.
  - rewrite Hp. eexists. split; [done|]. rewrite coherent_finish by by apply coherent_put, quic_proxy_coherent.
    rewrite (put_effect quic_options _ _ (with_proxy_tls proxyTLS)) by by intros [].
    rewrite quic_proxy_effect. apply proxy_tls_put, Hn.
  - injection Hp as <-. eexists. split; [done|]. rewrite coherent_finish by done.
    exact (proxy_tls_put _ None (proj1 (Hn empty_proxy))).
Qed.

Lemma flatten_fails cfg e :
  proxyTLSConfig pool read_ca (pc_TLS (default empty_proxy (tc_Proxy cfg))) = Err e ->
  flatten_tls pool read_ca cfg = Err e /\ flatten_quic pool read_ca cfg = Err e.
Proof.
  unfold flatten_tls, flatten_quic. destruct (tc_Proxy cfg) as [p|]; cbn [default from_option id]; [|done].
  intros H. cbv zeta. by rewrite H.
Qed.

(** A configuration reaches both kinds of dialer alike.  The two branches
    that build the TLS and the QUIC dialer are written out separately; they fail
    alike, when the TLS settings of the proxy are unusable, and otherwise build
    dialers with the same bind, address-family, DNS and proxy options, which are
    exactly the ones the configuration asks for (nothing is dropped and nothing
    is set that was not asked for); multipath TCP reaches the TLS dialer; and
    the automatic dialer carries those two. *)
Theorem flatten_equivalence cfg :
  match proxyTLSConfig pool read_ca (pc_TLS (default empty_proxy (tc_Proxy cfg))) with
  | Err e => flatten_tls pool read_ca cfg = Err e /\ flatten_quic pool read_ca cfg = Err e
  | Ok proxyTLS => exists t q,
      flatten_tls pool read_ca cfg = Ok t /\ flatten_quic pool read_ca cfg = Ok q /\
      tls_options t = wanted cfg proxyTLS /\ quic_options q = wanted cfg proxyTLS /\
      tr_MPTCPEnabled pool t = tc_MPTCP cfg /\
      (validateProxyTLSConfig (tc_Proxy cfg) = None -> transportMode (Some cfg) = Ok ModeAuto ->
       FlattenTransportWithError pool read_ca (Some cfg) = Ok (DAuto pool (Some t) (Some q)))
  end.
Proof.
  destruct (proxyTLSConfig _ _ _) as [proxyTLS|e] eqn:Hp; [|by apply flatten_fails].
  destruct (flatten_tls_ok cfg proxyTLS Hp) as (t & Ht & ? & ?).
  destruct (flatten_quic_ok cfg proxyTLS Hp) as (q & Hq & ?). exists t, q. split_and!; try done.
  intros Hv Hmode. unfold FlattenTransportWithError. rewrite Hmode. unfold flatten_mode. cbn [tc_Proxy]. rewrite Hv.
  change (flatten_tls pool read_ca {| cfg with tc_Mode := "tls"; tc_UseQUIC := None |}) with (flatten_tls pool read_ca cfg).
  change (flatten_quic pool read_ca {| cfg with tc_Mode := "quic"; tc_UseQUIC := None |}) with (flatten_quic pool read_ca cfg).
  by rewrite Ht, Hq.
Qed.
End Equivalence.
