(* ===== verification/Ech.v ===== *)
(** * Ech: discovery of Encrypted Client Hello configurations
    ([internal/ech/ech.go], [system_resolver.go], [system_resolver_other.go], [ech_client.go])

    The resolver finds the ECH configuration list of a host in DNS, follows aliases,
    caches what it found, and [dialWithECHResult] uses it for a handshake with at most
    one retry.

    The messages of [github.com/miekg/dns] are data; its [Fqdn], the contents of
    [/etc/resolv.conf] and what a nameserver answers are parameters.  Slices and indices
    are checked as Go checks them: going out of range is the error [Panicked], and
    [OutOfFuel] marks a loop the model would not have finished; the theorems show that
    neither happens. *)

From S2P Require Import Prelude GoStrings GoNet.

(** ** Configuration lists *)

Inductive ech_error :=
| ListTooShort | ListLengthMismatch | ConfigTruncated | ConfigLengthMismatch | ListEmpty
| ConfigTooShort | InvalidPublicKey | PublicKeyEmpty | InvalidCipherSuites | MissingMaxNameLength
| InvalidPublicName | PublicNameEmpty | InvalidExtensions | TrailingBytes
| MissingLength | TruncatedBytes
| Panicked | OutOfFuel.

#[export] Instance ech_error_eq_dec : EqDecision ech_error.
Proof. solve_decision. Defined.

Definition len {A} (l : list A) : Z := Z.of_nat (length l).

(** [l[lo:hi]] and [l[i]], which panic out of range. *)
Definition slice {A} (l : list A) (lo hi : Z) : result ech_error (list A) :=
  if (0 <=? lo) && (lo <=? hi) && (hi <=? len l) then Ok (take (Z.to_nat (hi - lo)) (drop (Z.to_nat lo) l)) else Err Panicked.

Definition index {A} (l : list A) (i : Z) : result ech_error A :=
  if 0 <=? i then match l !! Z.to_nat i with Some x => Ok x | None => Err Panicked end else Err Panicked.

(** [binary.BigEndian.Uint16(b)]. *)
Definition uint16 (b : list byte) : result ech_error Z :=
  match b with b0 :: b1 :: _ => Ok (be_get [b0; b1]) | _ => Err Panicked end.

Definition readUint16Bytes (raw : list byte) (offset : Z) : result ech_error (list byte * Z) :=
  if len raw <? offset + 2 then Err MissingLength
  else
    let? b := slice raw offset (offset + 2) in
    let? length := uint16 b in
    let offset := offset + 2 in
    if len raw <? offset + length then Err TruncatedBytes
    else let? out := slice raw offset (offset + length) in Ok (out, offset + length).

Definition readUint8Bytes (raw : list byte) (offset : Z) : result ech_error (list byte * Z) :=
  if len raw <? offset + 1 then Err MissingLength
  else
    let? b := index raw offset in
    let length := b2z b in
    let offset := offset + 1 in
    if len raw <? offset + length then Err TruncatedBytes
    else let? out := slice raw offset (offset + length) in Ok (out, offset + length).

(** [fmt.Errorf("...: %w", err)]: the wrapped error, unless the call panicked. *)
Definition wrap {A} (e : ech_error) (r : result ech_error A) : result ech_error A :=
  match r with Ok a => Ok a | Err Panicked => Err Panicked | Err _ => Err e end.

Definition parseConfigPublicName (raw : list byte) : result ech_error string :=
  if len raw <? 10 then Err ConfigTooShort
  else
    let offset := 4 + 1 + 2 in
    let? (publicKey, next) := wrap InvalidPublicKey (readUint16Bytes raw offset) in
    if bool_decide (publicKey = []) then Err PublicKeyEmpty
    else
      let offset := next in
      let? (_, next) := wrap InvalidCipherSuites (readUint16Bytes raw offset) in
      let offset := next in
      if len raw <? offset + 1 then Err MissingMaxNameLength
      else
        let offset := offset + 1 in
        let? (publicName, next) := wrap InvalidPublicName (readUint8Bytes raw offset) in
        let offset := next in
        if bool_decide (publicName = []) then Err PublicNameEmpty
        else
          let? (_, next) := wrap InvalidExtensions (readUint16Bytes raw offset) in
          if negb (next =? len raw) then Err TrailingBytes else Ok (b2s publicName).

(** The loop of [parseConfigList]; [configs] are the public names found so far. *)
Fixpoint parse_configs (fuel : nat) (configList : list byte) (offset : Z) (configs : list string) : result ech_error (list string) :=
  match fuel with
  | O => Err OutOfFuel
  | S fuel =>
      if negb (offset <? len configList) then Ok configs
      else
        let? tail := slice configList offset (len configList) in
        if len tail <? 4 then Err ConfigTruncated
        else
          let? b := slice configList (offset + 2) (offset + 4) in
          let? length := uint16 b in
          let end_ := offset + 4 + length in
          if end_ >? len configList then Err ConfigLengthMismatch
          else
            let? raw := slice configList offset end_ in
            let? publicName := parseConfigPublicName raw in
            parse_configs fuel configList end_ (configs ++ [publicName])
  end.

Definition parseConfigList (configList : list byte) : result ech_error (list string) :=
  if len configList <? 2 then Err ListTooShort
  else
    let? b := slice configList 0 2 in
    let? totalLength := uint16 b in
    if negb (totalLength =? len configList - 2) then Err ListLengthMismatch
    else
      let? configs := parse_configs (S (length configList)) configList 2 [] in
      if bool_decide (configs = []) then Err ListEmpty else Ok configs.

(** *** The wire format (draft-ietf-tls-esni) the parser accepts *)

Record ech_config := MkECHConfig {
  ec_version : byte * byte;
  ec_config_id : byte;
  ec_kem_id : byte * byte;
  ec_public_key : list byte;
  ec_cipher_suites : list byte;
  ec_maximum_name_length : byte;
  ec_public_name : list byte;
  ec_extensions : list byte;
}.

Definition vec16 (l : list byte) : list byte := be_put 2 (len l) ++ l.
Definition vec8 (l : list byte) : list byte := z2b (len l) :: l.

Definition encode_contents (c : ech_config) : list byte :=
  [ec_config_id c; (ec_kem_id c).1; (ec_kem_id c).2] ++ vec16 (ec_public_key c) ++ vec16 (ec_cipher_suites c) ++
  [ec_maximum_name_length c] ++ vec8 (ec_public_name c) ++ vec16 (ec_extensions c).

Definition encode_config (c : ech_config) : list byte :=
  [(ec_version c).1; (ec_version c).2] ++ vec16 (encode_contents c).

Record wf_config (c : ech_config) : Prop := {
  wf_key : ec_public_key c <> [];
  wf_name : ec_public_name c <> [];
  wf_name_length : len (ec_public_name c) < 256;
  wf_length : len (encode_contents c) < 65536;
}.

Definition encode_list (cs : list ech_config) : list byte := vec16 (concat (encode_config <$> cs)).

(** *** The parser accepts exactly the encodings *)

Lemma len_app {A} (a b : list A) : len (a ++ b) = len a + len b.
Proof. unfold len. rewrite length_app. lia. Qed.

Lemma len_cons {A} (x : A) l : len (x :: l) = 1 + len l.
Proof. unfold len. cbn [length]. lia. Qed.

Lemma len_nonneg {A} (l : list A) : 0 <= len l.
Proof. unfold len. lia. Qed.

Lemma len_vec16 l : len (vec16 l) = 2 + len l.
Proof. unfold vec16. rewrite len_app. unfold len at 1. by rewrite length_be_put. Qed.

Lemma len_vec8 l : len (vec8 l) = 1 + len l.
Proof. apply len_cons. Qed.

Lemma slice_app {A} (a b c : list A) : slice (a ++ b ++ c) (len a) (len a + len b) = Ok b.
Proof.
  unfold slice. rewrite !len_app. pose proof (len_nonneg a). pose proof (len_nonneg b). pose proof (len_nonneg c).
  destruct (Z.leb_spec 0 (len a)); [|lia]. destruct (Z.leb_spec (len a) (len a + len b)); [|lia].
  destruct (Z.leb_spec (len a + len b) (len a + (len b + len c))); [|lia]. cbn. f_equal.
  replace (Z.to_nat (len a)) with (length a) by (unfold len; lia).
  replace (Z.to_nat (len a + len b - len a)) with (length b) by (unfold len; lia).
  by rewrite drop_app_length, take_app_length.
Qed.

Lemma slice_tail {A} (a b : list A) : slice (a ++ b) (len a) (len (a ++ b)) = Ok b.
Proof. pose proof (slice_app a b []) as H. rewrite app_nil_r in H. by rewrite len_app. Qed.

Lemma index_app {A} (a : list A) x b : index (a ++ x :: b) (len a) = Ok x.
Proof.
  unfold index. destruct (Z.leb_spec 0 (len a)); [|pose proof (len_nonneg a); lia].
  replace (Z.to_nat (len a)) with (length a) by (unfold len; lia). by rewrite list_lookup_middle.
Qed.

(** [readUint16Bytes] and [readUint8Bytes] on what is left after the offset. *)
Lemma readUint16_at pre rest :
  readUint16Bytes (pre ++ rest) (len pre) =
  match rest with
  | b0 :: b1 :: r =>
      let n := be_get [b0; b1] in
      if len r <? n then Err TruncatedBytes else Ok (take (Z.to_nat n) r, len pre + 2 + n)
  | _ => Err MissingLength
  end.
Proof.
  unfold readUint16Bytes. rewrite len_app. destruct rest as [|b0 [|b1 r]]; rewrite ?len_cons.
  { destruct (Z.ltb_spec (len pre + len (@nil byte)) (len pre + 2)); [done|unfold len in *; cbn in *; lia]. }
  { destruct (Z.ltb_spec (len pre + (1 + len (@nil byte))) (len pre + 2)); [done|unfold len in *; cbn in *; lia]. }
  pose proof (len_nonneg r). destruct (Z.ltb_spec (len pre + (1 + (1 + len r))) (len pre + 2)); [lia|].
  change (pre ++ b0 :: b1 :: r) with (pre ++ [b0; b1] ++ r).
  pose proof (slice_app pre [b0; b1] r) as Hs. unfold len at 3 in Hs. cbn [length] in Hs. change (Z.of_nat 2) with 2 in Hs. rewrite Hs. cbn [uint16].
  pose proof (be_get_range [b0; b1]) as Hr. cbn [length] in Hr. set (n := be_get [b0; b1]) in *. cbv zeta.
  destruct (Z.ltb_spec (len r) n), (Z.ltb_spec (len pre + (1 + (1 + len r))) (len pre + 2 + n)); try lia; [done|].
  rewrite <- (take_drop (Z.to_nat n) r) at 1. rewrite app_assoc.
  assert (Hn : len (take (Z.to_nat n) r) = n) by (unfold len in *; rewrite length_take; lia).
  pose proof (slice_app (pre ++ [b0; b1]) (take (Z.to_nat n) r) (drop (Z.to_nat n) r)) as Hs2.
  rewrite Hn, len_app in Hs2. change (len [b0; b1]) with 2 in Hs2. rewrite Hs2. done.
Qed.

Lemma readUint8_at pre rest :
  readUint8Bytes (pre ++ rest) (len pre) =
  match rest with
  | b0 :: r => if len r <? b2z b0 then Err TruncatedBytes else Ok (take (Z.to_nat (b2z b0)) r, len pre + 1 + b2z b0)
  | _ => Err MissingLength
  end.
Proof.
  unfold readUint8Bytes. rewrite len_app. destruct rest as [|b0 r]; rewrite ?len_cons.
  - destruct (Z.ltb_spec (len pre + len (@nil byte)) (len pre + 1)); [done|unfold len in *; cbn in *; lia].
  - pose proof (len_nonneg r). destruct (Z.ltb_spec (len pre + (1 + len r)) (len pre + 1)); [lia|].
    rewrite index_app. pose proof (b2z_range b0) as Hr. set (n := b2z b0) in *. cbv zeta.
    destruct (Z.ltb_spec (len r) n), (Z.ltb_spec (len pre + (1 + len r)) (len pre + 1 + n)); try lia; [done|].
    rewrite <- (take_drop (Z.to_nat n) r) at 1. change (pre ++ b0 :: ?x) with (pre ++ [b0] ++ x). rewrite app_assoc.
    assert (Hn : len (take (Z.to_nat n) r) = n) by (unfold len in *; rewrite length_take; lia).
    pose proof (slice_app (pre ++ [b0]) (take (Z.to_nat n) r) (drop (Z.to_nat n) r)) as Hs2.
    rewrite Hn, len_app in Hs2. change (len [b0]) with 1 in Hs2. cbn [app]. rewrite Hs2. done.
Qed.

Lemma readUint16_vec pre b post : len b < 65536 -> readUint16Bytes (pre ++ vec16 b ++ post) (len pre) = Ok (b, len pre + len (vec16 b)).
Proof.
  intros Hb. rewrite readUint16_at. unfold vec16 at 1. pose proof (len_nonneg b).
  assert (Hg : be_get (be_put 2 (len b)) = len b) by (apply be_get_put_small; cbn; lia).
  pose proof (length_be_put 2 (len b)) as Hl. destruct (be_put 2 (len b)) as [|b0 [|b1 [|]]] eqn:E; try done. cbn [app]. rewrite Hg.
  rewrite len_app. pose proof (len_nonneg post). destruct (Z.ltb_spec (len b + len post) (len b)); [lia|].
  replace (Z.to_nat (len b)) with (length b) by (unfold len; lia). rewrite take_app_length, len_vec16. f_equal. f_equal. lia.
Qed.

Lemma readUint16_inv pre rest b next : readUint16Bytes (pre ++ rest) (len pre) = Ok (b, next) ->
  exists post, rest = vec16 b ++ post /\ next = len (pre ++ vec16 b) /\ len b < 65536.
Proof.
  rewrite readUint16_at. destruct rest as [|b0 [|b1 r]]; try done. cbv zeta.
  pose proof (be_get_range [b0; b1]) as Hr. cbn [length] in Hr.
  destruct (Z.ltb_spec (len r) (be_get [b0; b1])); [done|]. intros [= <- <-].
  assert (Hn : len (take (Z.to_nat (be_get [b0; b1])) r) = be_get [b0; b1]) by (unfold len in *; rewrite length_take; lia).
  exists (drop (Z.to_nat (be_get [b0; b1])) r). rewrite len_app, len_vec16, Hn. unfold vec16. rewrite Hn.
  pose proof (be_put_get [b0; b1]) as Hp. cbn [length] in Hp. rewrite Hp. cbn [app]. rewrite take_drop. repeat split; lia.
Qed.

Lemma readUint8_vec pre b post : len b < 256 -> readUint8Bytes (pre ++ vec8 b ++ post) (len pre) = Ok (b, len pre + len (vec8 b)).
Proof.
  intros Hb. rewrite readUint8_at. unfold vec8 at 1. cbn [app]. pose proof (len_nonneg b). rewrite b2z_z2b, Z.mod_small by lia.
  rewrite len_app. pose proof (len_nonneg post). destruct (Z.ltb_spec (len b + len post) (len b)); [lia|].
  replace (Z.to_nat (len b)) with (length b) by (unfold len; lia). rewrite take_app_length, len_vec8. f_equal. f_equal. lia.
Qed.

Lemma readUint8_inv pre rest b next : readUint8Bytes (pre ++ rest) (len pre) = Ok (b, next) ->
  exists post, rest = vec8 b ++ post /\ next = len (pre ++ vec8 b) /\ len b < 256.
Proof.
  rewrite readUint8_at. destruct rest as [|b0 r]; try done. pose proof (b2z_range b0) as Hr.
  destruct (Z.ltb_spec (len r) (b2z b0)); [done|]. intros [= <- <-].
  assert (Hn : len (take (Z.to_nat (b2z b0)) r) = b2z b0) by (unfold len in *; rewrite length_take; lia).
  exists (drop (Z.to_nat (b2z b0)) r). rewrite len_app, len_vec8, Hn. unfold vec8. rewrite Hn, z2b_b2z. cbn [app]. rewrite take_drop. repeat split; lia.
Qed.

Lemma read_no_panic pre rest :
  readUint16Bytes (pre ++ rest) (len pre) <> Err Panicked /\ readUint8Bytes (pre ++ rest) (len pre) <> Err Panicked.
Proof.
  rewrite readUint16_at, readUint8_at. split.
  - destruct rest as [|? [|? ?]]; try done. cbv zeta. by destruct (_ <? _).
  - destruct rest; [done|]. by destruct (_ <? _).
Qed.

Definition benign (e : ech_error) : Prop := e <> Panicked /\ e <> OutOfFuel.

Lemma wrap_cases {A} e (r : result ech_error A) : benign e -> r <> Err Panicked ->
  match wrap e r with Ok a => r = Ok a | Err e' => benign e' end.
Proof. intros He Hr. destruct r as [a|[]]; cbn; done. Qed.

(** What [parseConfigPublicName] says about the bytes it was given. *)
Lemma parse_name_cases raw :
  match parseConfigPublicName raw with
  | Ok n => exists h c, raw = h ++ encode_contents c /\ len h = 4 /\ ec_public_key c <> [] /\ ec_public_name c <> [] /\
                        len (ec_public_name c) < 256 /\ n = b2s (ec_public_name c)
  | Err e => benign e
  end.
Proof.
  unfold parseConfigPublicName. destruct (Z.ltb_spec (len raw) 10); [done|]. change (4 + 1 + 2) with 7.
  destruct raw as [|a0 [|a1 [|a2 [|a3 [|id [|k0 [|k1 r]]]]]]]; try (unfold len in *; cbn in *; lia).
  set (h := [a0; a1; a2; a3; id; k0; k1]). change (a0 :: _) with (h ++ r). change 7 with (len h).
  destruct (read_no_panic h r) as [Hp _]. pose proof (wrap_cases InvalidPublicKey _ ltac:(done) Hp) as Hw.
  destruct (wrap InvalidPublicKey _) as [[pk next]|]; [|done]. apply readUint16_inv in Hw as (r1 & -> & -> & Hpk).
  case_bool_decide as Hk; [done|]. rewrite app_assoc. set (h1 := h ++ vec16 pk).
  destruct (read_no_panic h1 r1) as [Hp1 _]. pose proof (wrap_cases InvalidCipherSuites _ ltac:(done) Hp1) as Hw.
  destruct (wrap InvalidCipherSuites _) as [[cs next]|]; [|done]. apply readUint16_inv in Hw as (r2 & -> & -> & Hcs).
  rewrite app_assoc. set (h2 := h1 ++ vec16 cs).
  destruct (Z.ltb_spec (len (h2 ++ r2)) (len h2 + 1)) as [|Hmx]; [done|]. destruct r2 as [|mx r2]; [rewrite app_nil_r in Hmx; lia|].
  change (h2 ++ mx :: r2) with (h2 ++ [mx] ++ r2). rewrite app_assoc. set (h3 := h2 ++ [mx]).
  replace (len h2 + 1) with (len h3) by (unfold h3; by rewrite len_app).
  destruct (read_no_panic h3 r2) as [_ Hp3]. pose proof (wrap_cases InvalidPublicName _ ltac:(done) Hp3) as Hw.
  destruct (wrap InvalidPublicName _) as [[nm next]|]; [|done]. apply readUint8_inv in Hw as (r3 & -> & -> & Hnm).
  case_bool_decide as Hn; [done|]. rewrite app_assoc. set (h4 := h3 ++ vec8 nm).
  destruct (read_no_panic h4 r3) as [Hp4 _]. pose proof (wrap_cases InvalidExtensions _ ltac:(done) Hp4) as Hw.
  destruct (wrap InvalidExtensions _) as [[ex next]|]; [|done]. apply readUint16_inv in Hw as (r4 & -> & -> & Hex).
  rewrite app_assoc. destruct (Z.eqb_spec (len (h4 ++ vec16 ex)) (len ((h4 ++ vec16 ex) ++ r4))) as [He|]; [|done]. rewrite (len_app _ r4) in He.
  cbn [negb]. assert (r4 = []) as -> by (destruct r4; [done|rewrite len_cons in He; pose proof (len_nonneg r4); lia]).
  exists [a0; a1; a2; a3], (MkECHConfig (a0, a1) id (k0, k1) pk cs mx nm ex). rewrite app_nil_r. split; [|done].
  unfold h4, h3, h2, h1, h, encode_contents. cbn [ec_config_id ec_kem_id ec_public_key ec_cipher_suites ec_maximum_name_length ec_public_name ec_extensions fst snd].
  by rewrite <- !app_assoc.
Qed.

Lemma contents_lengths c : len (encode_contents c) < 65536 ->
  len (ec_public_key c) < 65536 /\ len (ec_cipher_suites c) < 65536 /\ len (ec_extensions c) < 65536.
Proof.
  unfold encode_contents. rewrite !len_app, !len_vec16, len_vec8.
  pose proof (len_nonneg (ec_public_key c)). pose proof (len_nonneg (ec_cipher_suites c)). pose proof (len_nonneg (ec_extensions c)).
  pose proof (len_nonneg (ec_public_name c)). change (len [_; _; _]) with 3. change (len [_]) with 1. lia.
Qed.

Lemma parse_name_encode h c : len h = 4 -> wf_config c -> parseConfigPublicName (h ++ encode_contents c) = Ok (b2s (ec_public_name c)).
Proof.
  intros Hh [Hk Hn Hnl Hl]. destruct (contents_lengths c Hl) as (Hpk & Hcs & Hex).
  destruct c as [v id [k0 k1] pk cs mx nm ex]. cbn [ec_public_key ec_public_name ec_cipher_suites ec_extensions] in *.
  unfold encode_contents. cbn [ec_config_id ec_kem_id ec_public_key ec_cipher_suites ec_maximum_name_length ec_public_name ec_extensions fst snd].
  unfold parseConfigPublicName. rewrite !len_app, !len_vec16, len_vec8. change (len [id; k0; k1]) with 3. change (len [mx]) with 1.
  assert (0 < len pk) by (destruct pk; [done|rewrite len_cons; pose proof (len_nonneg pk); lia]).
  pose proof (len_nonneg cs). pose proof (len_nonneg nm). pose proof (len_nonneg ex).
  destruct (Z.ltb_spec (len h + (3 + (2 + len pk + (2 + len cs + (1 + (1 + len nm + (2 + len ex))))))) 10); [lia|]. change (4 + 1 + 2) with 7.
  set (h0 := h ++ [id; k0; k1]). assert (Hh0 : len h0 = 7) by (unfold h0; rewrite len_app, Hh; done). rewrite app_assoc. fold h0.
  rewrite <- Hh0 at 1. rewrite readUint16_vec by done. cbn [wrap]. rewrite bool_decide_false by done.
  rewrite <- len_app, app_assoc. rewrite readUint16_vec by done. cbn [wrap].
  match goal with |- context [if ?a <? ?b then _ else _] => destruct (Z.ltb_spec a b) end; [rewrite !len_app, !len_vec16, Hh0 in *; lia|].
  rewrite <- len_app, app_assoc. set (h2 := (h0 ++ vec16 pk) ++ vec16 cs). rewrite app_assoc.
  replace (len h2 + 1) with (len (h2 ++ [mx])) by (rewrite len_app; done). rewrite readUint8_vec by done. cbn [wrap]. rewrite bool_decide_false by done.
  rewrite <- len_app, app_assoc, <- (app_nil_r (vec16 ex)) at 1. rewrite readUint16_vec by done. cbn [wrap].
  match goal with |- context [negb (?a =? ?b)] => destruct (Z.eqb_spec a b) as [|Hne] end; [done|].
  exfalso. apply Hne. unfold h2. rewrite !len_app, !len_vec16, !len_vec8. change (len [mx]) with 1. lia.
Qed.

Lemma encode_config_header c : exists h, len h = 4 /\ encode_config c = h ++ encode_contents c.
Proof.
  exists ([(ec_version c).1; (ec_version c).2] ++ be_put 2 (len (encode_contents c))). split; [by rewrite len_app; unfold len at 2; rewrite length_be_put|].
  unfold encode_config, vec16. by rewrite app_assoc.
Qed.

Definition config_names (cs : list ech_config) : list string := (fun c => b2s (ec_public_name c)) <$> cs.

(** One turn of the loop at a position where four bytes are left. *)
Lemma parse_configs_turn fuel pre v0 v1 l0 l1 r names :
  parse_configs (S fuel) (pre ++ v0 :: v1 :: l0 :: l1 :: r) (len pre) names =
  let n := be_get [l0; l1] in
  if len r <? n then Err ConfigLengthMismatch
  else let? name := parseConfigPublicName ([v0; v1; l0; l1] ++ take (Z.to_nat n) r) in
       parse_configs fuel (pre ++ v0 :: v1 :: l0 :: l1 :: r) (len pre + 4 + n) (names ++ [name]).
Proof.
  cbn [parse_configs]. rewrite slice_tail, !len_app, !len_cons. pose proof (len_nonneg r). pose proof (len_nonneg pre).
  destruct (Z.ltb_spec (len pre) (len pre + (1 + (1 + (1 + (1 + len r)))))); [|lia]. cbn [negb].
  destruct (Z.ltb_spec (1 + (1 + (1 + (1 + len r)))) 4); [lia|].
  pose proof (slice_app (pre ++ [v0; v1]) [l0; l1] r) as Hs. rewrite len_app in Hs. change (len [v0; v1]) with 2 in Hs. change (len [l0; l1]) with 2 in Hs.
  rewrite <- app_assoc in Hs. cbn [app] in Hs. replace (len pre + 4) with (len pre + 2 + 2) by lia. rewrite Hs. cbn [uint16].
  pose proof (be_get_range [l0; l1]) as Hr. cbn [length] in Hr. set (n := be_get [l0; l1]) in *. cbv zeta.
  rewrite Z.gtb_ltb. destruct (Z.ltb_spec (len r) n), (Z.ltb_spec (len pre + (1 + (1 + (1 + (1 + len r))))) (len pre + 2 + 2 + n)); try lia; [done|].
  assert (Hn : len (take (Z.to_nat n) r) = n) by (unfold len in *; rewrite length_take; lia).
  pose proof (slice_app pre ([v0; v1; l0; l1] ++ take (Z.to_nat n) r) (drop (Z.to_nat n) r)) as Hs2.
  rewrite <- app_assoc, take_drop, len_app, Hn in Hs2. change (len [v0; v1; l0; l1]) with 4 in Hs2. cbn [app] in Hs2.
  replace (len pre + 2 + 2 + n) with (len pre + (4 + n)) by lia. rewrite Hs2. cbn [app].
  destruct (parseConfigPublicName _); [|done]. done.
Qed.

Lemma parse_configs_cases fuel pre rest names : (length rest < fuel)%nat ->
  match parse_configs fuel (pre ++ rest) (len pre) names with
  | Ok out => exists cs, rest = concat (encode_config <$> cs) /\ Forall wf_config cs /\ out = names ++ config_names cs
  | Err e => benign e
  end.
Proof.
  revert pre rest names. induction fuel as [|fuel IH]; intros pre rest names Hf; [lia|].
  destruct rest as [|v0 rest].
  { cbn [parse_configs]. rewrite len_app. change (len (@nil byte)) with 0. destruct (Z.ltb_spec (len pre) (len pre + 0)); [lia|].
    exists []. cbn. by rewrite app_nil_r. }
  destruct rest as [|v1 [|l0 [|l1 r]]].
  1-3: cbn [parse_configs]; rewrite slice_tail, len_app, !len_cons; change (len (@nil byte)) with 0;
    match goal with |- context [negb (?a <? ?b)] => destruct (Z.ltb_spec a b) end; [|lia]; cbn [negb];
    match goal with |- context [?a <? ?b] => destruct (Z.ltb_spec a b) end; [done|lia].
  rewrite parse_configs_turn. cbv zeta. pose proof (be_get_range [l0; l1]) as Hr. cbn [length] in Hr.
  destruct (Z.ltb_spec (len r) (be_get [l0; l1])) as [|Hlen]; [done|].
  assert (Hn : len (take (Z.to_nat (be_get [l0; l1])) r) = be_get [l0; l1]) by (unfold len in *; rewrite length_take; lia).
  set (body := take (Z.to_nat (be_get [l0; l1])) r) in *. pose proof (parse_name_cases ([v0; v1; l0; l1] ++ body)) as Hc.
  destruct (parseConfigPublicName _) as [name|]; [|done]. destruct Hc as (h & c & Hb & Hh & Hk & Hnm & Hnl & ->).
  assert (Hcontents : body = encode_contents c) by (apply app_inj_length in Hb as [_ ?]; [done|unfold len in Hh; cbn; lia]).
  set (tail := drop (Z.to_nat (be_get [l0; l1])) r).
  assert (Hsplit : pre ++ v0 :: v1 :: l0 :: l1 :: r = (pre ++ [v0; v1; l0; l1] ++ body) ++ tail)
    by (rewrite <- !app_assoc; cbn [app]; unfold body, tail; by rewrite take_drop).
  rewrite Hsplit. replace (len pre + 4 + be_get [l0; l1]) with (len (pre ++ [v0; v1; l0; l1] ++ body)) by (rewrite !len_app, Hn; change (len [v0; v1; l0; l1]) with 4; lia).
  specialize (IH (pre ++ [v0; v1; l0; l1] ++ body) tail (names ++ [b2s (ec_public_name c)])).
  destruct (parse_configs fuel _ _ _) as [out|]; [|by apply IH; unfold tail; rewrite length_drop; cbn in Hf; lia].
  destruct IH as (cs & Htail & Hwf & ->); [unfold tail; rewrite length_drop; cbn in Hf; lia|].
  exists (MkECHConfig (v0, v1) (ec_config_id c) (ec_kem_id c) (ec_public_key c) (ec_cipher_suites c) (ec_maximum_name_length c) (ec_public_name c) (ec_extensions c) :: cs).
  set (c' := MkECHConfig _ _ _ _ _ _ _ _). assert (Hcc : encode_contents c' = encode_contents c) by (by destruct c).
  split; [|split; [constructor; [|done]|]].
  - rewrite fmap_cons. cbn [concat]. rewrite <- Htail. unfold encode_config, vec16. rewrite Hcc, <- Hcontents, Hn. cbn [c' ec_version fst snd].
    pose proof (be_put_get [l0; l1]) as Hp. cbn [length] in Hp. rewrite Hp. cbn [app]. unfold body, tail. by rewrite take_drop.
  - constructor; try done. rewrite Hcc, <- Hcontents, Hn. lia.
  - unfold config_names. rewrite fmap_cons. rewrite <- app_assoc. done.
Qed.

Lemma parse_configs_encode fuel pre cs names : (length (concat (encode_config <$> cs)) < fuel)%nat -> Forall wf_config cs ->
  parse_configs fuel (pre ++ concat (encode_config <$> cs)) (len pre) names = Ok (names ++ config_names cs).
Proof.
  revert fuel pre names. induction cs as [|c cs IH]; intros fuel pre names Hf Hwf; (destruct fuel as [|fuel]; [lia|]).
  { cbn [parse_configs fmap list_fmap concat config_names]. rewrite len_app. change (len (@nil byte)) with 0. destruct (Z.ltb_spec (len pre) (len pre + 0)); [lia|].
    cbn. by rewrite app_nil_r. }
  apply Forall_cons_1 in Hwf as [Hc Hcs]. rewrite fmap_cons in *. cbn [concat] in *. set (tail := concat (encode_config <$> cs)) in *.
  rewrite length_app in Hf. assert (Hlc : len (encode_config c) = 4 + len (encode_contents c)).
  { unfold encode_config. rewrite len_app, len_vec16. change (len [_; _]) with 2. lia. }
  pose proof (len_nonneg (encode_contents c)). pose proof (wf_length _ Hc).
  assert (Hg : be_get (be_put 2 (len (encode_contents c))) = len (encode_contents c)) by (apply be_get_put_small; change (256 ^ Z.of_nat 2) with 65536; lia).
  pose proof (parse_name_encode ([(ec_version c).1; (ec_version c).2] ++ be_put 2 (len (encode_contents c))) c) as Hname.
  pose proof (length_be_put 2 (len (encode_contents c))) as Hl. unfold encode_config at 1, vec16.
  destruct (be_put 2 (len (encode_contents c))) as [|l0 [|l1 [|]]] eqn:Eb; try done. cbn [app] in *.
  rewrite parse_configs_turn. cbv zeta. rewrite Hg, len_app. pose proof (len_nonneg tail).
  destruct (Z.ltb_spec (len (encode_contents c) + len tail) (len (encode_contents c))); [lia|].
  replace (Z.to_nat (len (encode_contents c))) with (length (encode_contents c)) by (unfold len; lia).
  rewrite take_app_length. cbn [app]. rewrite Hname by done.
  specialize (IH fuel (pre ++ encode_config c) (names ++ [b2s (ec_public_name c)])). rewrite len_app, Hlc, <- !app_assoc in IH.
  unfold encode_config at 1, vec16 in IH. rewrite Eb in IH. cbn [app] in IH.
  replace (len pre + 4 + len (encode_contents c)) with (len pre + (4 + len (encode_contents c))) by lia.
  rewrite IH; [done| |done]. unfold len in Hlc. lia.
Qed.

(** C23: [parseConfigList] accepts exactly the encodings of a non-empty list of well-formed configurations and returns their public names; on any other input it returns an error, without slicing out of range and within its loop bound. *)
Theorem parse_config_list_exact (configList : list byte) (names : list string) :
  (parseConfigList configList = Ok names <->
   exists cs, cs <> [] /\ Forall wf_config cs /\ len (concat (encode_config <$> cs)) < 65536 /\
              configList = encode_list cs /\ names = config_names cs) /\
  parseConfigList configList <> Err Panicked /\ parseConfigList configList <> Err OutOfFuel.
Proof.
  assert (Hcases : match parseConfigList configList with
                   | Ok out => exists cs, cs <> [] /\ Forall wf_config cs /\ len (concat (encode_config <$> cs)) < 65536 /\
                                          configList = encode_list cs /\ out = config_names cs
                   | Err e => benign e end).
  { unfold parseConfigList. destruct (Z.ltb_spec (len configList) 2); [done|].
    destruct configList as [|l0 [|l1 body]]; try (unfold len in *; cbn in *; lia).
    rewrite (slice_app [] [l0; l1] body : slice (l0 :: l1 :: body) 0 2 = Ok [l0; l1]). cbn [uint16]. rewrite !len_cons.
    destruct (Z.eqb_spec (be_get [l0; l1]) (1 + (1 + len body) - 2)) as [Hb|]; [|done]. cbn [negb].
    pose proof (parse_configs_cases (S (length (l0 :: l1 :: body))) [l0; l1] body [] ltac:(cbn; lia)) as Hc. cbn [app] in Hc. change (len [l0; l1]) with 2 in Hc.
    destruct (parse_configs _ _ _ _) as [out|]; [|done]. destruct Hc as (cs & -> & Hwf & ->). case_bool_decide as Hn; [done|].
    pose proof (be_get_range [l0; l1]) as Hr. cbn [length] in Hr. replace (1 + (1 + len (concat (encode_config <$> cs))) - 2) with (len (concat (encode_config <$> cs))) in Hb by lia.
    exists cs. repeat split; try done; [by intros ->|lia|]. unfold encode_list, vec16. rewrite <- Hb.
    pose proof (be_put_get [l0; l1]) as Hp. cbn [length] in Hp. by rewrite Hp. }
  repeat split.
  - intros H. by rewrite H in Hcases.
  - intros (cs & Hne & Hwf & Hl & -> & ->). unfold parseConfigList, encode_list, vec16. set (body := concat _) in *. pose proof (len_nonneg body).
    assert (Hg : be_get (be_put 2 (len body)) = len body) by (apply be_get_put_small; cbn; lia).
    pose proof (length_be_put 2 (len body)) as Hlp. destruct (be_put 2 (len body)) as [|l0 [|l1 [|]]]; try done. cbn [app]. rewrite !len_cons.
    destruct (Z.ltb_spec (1 + (1 + len body)) 2); [lia|]. rewrite (slice_app [] [l0; l1] body : slice (l0 :: l1 :: body) 0 2 = Ok [l0; l1]). cbn [uint16]. rewrite Hg.
    destruct (Z.eqb_spec (len body) (1 + (1 + len body) - 2)); [|lia]. cbn [negb].
    pose proof (parse_configs_encode (S (length (l0 :: l1 :: body))) [l0; l1] cs [] ltac:(fold body; cbn; lia) Hwf) as He. fold body in He.
    change (len [l0; l1]) with 2 in He. cbn [app] in He. rewrite He. rewrite bool_decide_false; [done|]. by destruct cs.
  - intros H. by rewrite H in Hcases; destruct Hcases.
  - intros H. by rewrite H in Hcases; destruct Hcases.
Qed.

(** ** Names, options and targets *)

Record ResolverOptions := MkResolverOptions {
  ro_DNSOverride : string;
  ro_DNSOverTLS : bool;
  ro_DNSServerName : string;
  ro_DNSSECEnabled : bool;
  ro_ForceIPv4 : bool;
  ro_ForceIPv6 : bool;
}.

Record Target := MkTarget { tg_Address : string; tg_ServerName : string; tg_NextProtos : list string }.

Definition empty_options : ResolverOptions := MkResolverOptions "" false "" false false false.

Definition normalizeDNSName (value : string) : string := TrimSuffix (ToLower (TrimSpace value)) ".".

Definition addressPort (value : string) : string :=
  match SplitHostPort (TrimSpace value) with Some (_, port) => port | None => "" end.

Definition hostNoPort (value : string) : string :=
  let value := TrimSpace value in
  if bool_decide (value = "") then ""
  else match SplitHostPort value with Some (host, _) => host | None => value end.

Definition ensurePort (address defaultPort : string) : string :=
  match SplitHostPort address with Some _ => address | None => JoinHostPort address defaultPort end.

Definition boolKey (v : bool) : string := if v then "1" else "0".

Definition NUL : string := b2s [x00].

Definition cacheKey (target : Target) (opts : ResolverOptions) : string :=
  normalizeDNSName (tg_ServerName target) +:+ NUL +:+ normalizeDNSName (tg_Address target) +:+ NUL +:+ Join (tg_NextProtos target) "," +:+ NUL +:+
  ro_DNSOverride opts +:+ NUL +:+ boolKey (ro_DNSOverTLS opts) +:+ NUL +:+ normalizeDNSName (ro_DNSServerName opts) +:+ NUL +:+
  boolKey (ro_DNSSECEnabled opts) +:+ NUL +:+ boolKey (ro_ForceIPv4 opts) +:+ NUL +:+ boolKey (ro_ForceIPv6 opts).

Definition supportsRstreamALPN (nextProtos : list string) : bool := existsb (fun p => bool_decide (p = "rstrm/1")) nextProtos.

Definition supportsHTTPSALPN (nextProtos : list string) : bool :=
  existsb (fun p => bool_decide (p = "http/1.1") || bool_decide (p = "h2") || bool_decide (p = "h3")) nextProtos.

Definition looksLikeProjectEndpoint (label : string) : bool :=
  if negb (slen label =? 8) then false else forallb (fun c => byte_in 48 57 c || byte_in 97 102 c) (s2b label).

Definition dot : byte := x2e.

Definition clusterHostForServerName (serverName : string) : option string :=
  let host := normalizeDNSName (hostNoPort serverName) in
  if bool_decide (host = "") || bool_decide (ParseIP host <> None) then None
  else match Split host dot with
       | l0 :: l1 :: l2 :: rest =>
           if bool_decide (l1 = "t") then Some (Join (l2 :: rest) ".")
           else if looksLikeProjectEndpoint l0 then Some (Join (l1 :: l2 :: rest) ".") else Some host
       | [l0; l1] => if looksLikeProjectEndpoint l0 then Some (Join [l1] ".") else Some host
       | _ => Some host
       end.

Definition TypeA : Z := 1.
Definition TypeAAAA : Z := 28.
Definition TypeSVCB : Z := 64.
Definition TypeHTTPS : Z := 65.

Record discoveryQuery := MkQuery { dq_name : string; dq_queryType : Z; dq_supportedALPN : list string }.

Definition discoveryQueryForTarget (target : Target) : option discoveryQuery :=
  let host := normalizeDNSName (tg_ServerName target) in
  let host := if bool_decide (host = "") then normalizeDNSName (hostNoPort (tg_Address target)) else host in
  if bool_decide (host = "") || bool_decide (ParseIP host <> None) then None
  else
    let port := addressPort (tg_Address target) in
    let port := if bool_decide (port = "") then "443" else port in
    if supportsRstreamALPN (tg_NextProtos target) then
      match clusterHostForServerName host with
      | None => None
      | Some clusterHost => Some (MkQuery ("_" +:+ port +:+ "._rstream." +:+ clusterHost) TypeSVCB ["rstrm/1"])
      end
    else if supportsHTTPSALPN (tg_NextProtos target) then
      let name := if bool_decide (port = "443") then host else "_" +:+ port +:+ "._https." +:+ host in
      Some (MkQuery name TypeHTTPS (tg_NextProtos target))
    else None.

Example discovery_rstream : discoveryQueryForTarget (MkTarget "deadbeef.eu.rstream.io:8443" "" ["rstrm/1"]) =
  Some (MkQuery "_8443._rstream.eu.rstream.io" TypeSVCB ["rstrm/1"]).
Proof. vm_compute. reflexivity. Qed.

Example discovery_https : discoveryQueryForTarget (MkTarget "Web.Example.COM.:443" "" ["h2"]) =
  Some (MkQuery "web.example.com" TypeHTTPS ["h2"]).
Proof. vm_compute. reflexivity. Qed.

(** ** Resource records ([github.com/miekg/dns]) *)

Inductive SVCBKeyValue := SVCBAlpn (Alpn : list string) | SVCBECHConfig (ECH : list byte) | SVCBOther (key : Z).

Inductive rdata :=
| RR_A (A : list byte) | RR_AAAA (AAAA : list byte) | RR_CNAME (Target : string)
| RR_SVCB (Priority : Z) (Target : string) (Value : list SVCBKeyValue)
| RR_HTTPS (Priority : Z) (Target : string) (Value : list SVCBKeyValue)
| RR_Other (type : Z).

Record RR := MkRR { rr_Name : string; rr_data : rdata }.

Definition hasSupportedALPN (recordALPN supportedALPN : list string) : bool :=
  existsb (fun r => existsb (fun s => bool_decide (r = s)) supportedALPN) recordALPN.

(** The first loop of [configListFromRecord]: whether no ALPN parameter rules the record out. *)
Definition alpn_fits (supportedALPN : list string) (value : SVCBKeyValue) : bool :=
  match value with
  | SVCBAlpn alpn => negb (negb (bool_decide (supportedALPN = [])) && negb (hasSupportedALPN alpn supportedALPN))
  | _ => true
  end.

(** The second loop: the first non-empty ECH parameter decides. *)
Fixpoint first_ech (values : list SVCBKeyValue) : option (list byte) :=
  match values with
  | [] => None
  | SVCBECHConfig ech :: r =>
      if bool_decide (ech = []) then first_ech r
      else match parseConfigList ech with Ok _ => Some ech | Err _ => None end
  | _ :: r => first_ech r
  end.

Definition configListFromRecord (values : list SVCBKeyValue) (supportedALPN : list string) : option (list byte) :=
  if forallb (alpn_fits supportedALPN) values then first_ech values else None.

Section Resolver.
(** [dns.Fqdn], of the DNS library: the name with its final dot. *)
Context (Fqdn : string -> string).

Definition named (currentName : string) (r : RR) : bool := bool_decide (ToLower (rr_Name r) = ToLower (Fqdn currentName)).

Definition record_config (queryType : Z) (supportedALPN : list string) (currentName : string) (r : RR) : option (list byte) :=
  if negb (named currentName r) then None
  else match rr_data r with
       | RR_SVCB prio _ values => if negb (queryType =? TypeSVCB) || (prio =? 0) then None else configListFromRecord values supportedALPN
       | RR_HTTPS prio _ values => if negb (queryType =? TypeHTTPS) || (prio =? 0) then None else configListFromRecord values supportedALPN
       | _ => None
       end.

Definition selectConfigList (records : list RR) (currentName : string) (queryType : Z) (supportedALPN : list string) : option (list byte) :=
  find_map (record_config queryType supportedALPN currentName) records.

Definition record_alias (queryType : Z) (currentName : string) (r : RR) : option string :=
  if negb (named currentName r) then None
  else match rr_data r with
       | RR_SVCB prio target _ => if (queryType =? TypeSVCB) && (prio =? 0) && negb (bool_decide (target = ".")) then Some target else None
       | RR_HTTPS prio target _ => if (queryType =? TypeHTTPS) && (prio =? 0) && negb (bool_decide (target = ".")) then Some target else None
       | RR_CNAME target => Some target
       | _ => None
       end.

Definition nextAliasTarget (records : list RR) (currentName : string) (queryType : Z) : option string :=
  find_map (record_alias queryType currentName) records.

(** [net.IP.String] of the contents of an address record. *)
Definition IP_text (ip : list byte) : string :=
  match ip with
  | [] => "<nil>"
  | _ => if (length ip =? 4)%nat || (length ip =? 16)%nat then IP_String ip else "?" +:+ b2s (hex_encode ip)
  end.

Definition record_address (queryType : Z) (currentName : string) (r : RR) : option string :=
  if negb (named currentName r) then None
  else match rr_data r with
       | RR_A ip => if queryType =? TypeA then Some (IP_text ip) else None
       | RR_AAAA ip => if queryType =? TypeAAAA then Some (IP_text ip) else None
       | _ => None
       end.

Definition record_cname (currentName : string) (r : RR) : option string :=
  if negb (named currentName r) then None
  else match rr_data r with RR_CNAME target => Some target | _ => None end.

(** The addresses, or the alias when there is none. *)
Definition selectAddresses (records : list RR) (currentName : string) (queryType : Z) : list string * string :=
  let addrs := omap (record_address queryType currentName) records in
  if negb (bool_decide (addrs = [])) then (addrs, "")
  else ([], default "" (find_map (record_cname currentName) records)).

(** ** Queries *)

Inductive dns_error :=
| DNSSECRequiresTLS | TLSRequiresOverride | TLSRequiresServerName | NoResolvers | SystemResolvers (e : string)
| ContextDone | ExchangeFailed (nameserver : string) | NotAuthenticated (qname : string) | DenialNotAuthenticated (qname : string)
| BadRcode (rcode : Z).

Definition RcodeSuccess : Z := 0.
Definition RcodeNameError : Z := 3.

Record response := MkResponse { rs_Truncated : bool; rs_Rcode : Z; rs_AuthenticatedData : bool; rs_Answer : list RR }.

(** What an exchange with a nameserver gives: an error, with whether the context is done
    by then, no message, or a message. *)
Inductive exchanged := ExFailed (ctxDone : bool) | ExNil | ExMessage (r : response).

Definition dnsTLSServerName (opts : ResolverOptions) : result dns_error string :=
  let name := normalizeDNSName (ro_DNSServerName opts) in
  if negb (bool_decide (name = "")) then Ok name
  else if bool_decide (ro_DNSOverride opts = "") then Err TLSRequiresOverride
  else
    let host := normalizeDNSName (hostNoPort (ro_DNSOverride opts)) in
    if bool_decide (host = "") || bool_decide (ParseIP host <> None) then Err TLSRequiresServerName else Ok host.

(** The network and, over TLS, the name the resolver's certificate must have. *)
Record dns_client := MkDNSClient { dc_Net : string; dc_ServerName : option string }.

Definition dnsNetwork (opts : ResolverOptions) : string := if ro_DNSOverTLS opts then "tcp-tls" else "udp".
Definition tcpNetwork (opts : ResolverOptions) : string := if ro_DNSOverTLS opts then "tcp-tls" else "tcp".

Definition newDNSClient (opts : ResolverOptions) (forceTCP : bool) : result dns_error dns_client :=
  let net := if forceTCP then tcpNetwork opts else dnsNetwork opts in
  if ro_DNSOverTLS opts then let? serverName := dnsTLSServerName opts in Ok (MkDNSClient net (Some serverName))
  else Ok (MkDNSClient net None).

Definition defaultResolverPort (opts : ResolverOptions) : string := if ro_DNSOverTLS opts then "853" else "53".

(** [/etc/resolv.conf] as the DNS library reads it: servers and port, or an error. *)
Context (resolv_conf : result string (list string * string)).

Definition readResolvConfNameservers : result dns_error (list string) :=
  match resolv_conf with
  | Err e => Err (SystemResolvers e)
  | Ok (servers, port) => Ok ((fun server => ensurePort server port) <$> servers)
  end.

Definition nameserversForQuery (opts : ResolverOptions) : result dns_error (list string) :=
  if ro_DNSOverTLS opts && bool_decide (TrimSpace (ro_DNSOverride opts) = "") then Err TLSRequiresOverride
  else if negb (bool_decide (ro_DNSOverride opts = "")) then Ok [ensurePort (ro_DNSOverride opts) (defaultResolverPort opts)]
  else
    let? fallback := readResolvConfNameservers in
    if bool_decide (fallback = []) then Err NoResolvers else Ok fallback.

(** What the nameservers answer to one query, over the first client and over TCP. *)
Context (exchange : dns_client -> string -> string -> Z -> exchanged).

Inductive tried := TReturn (r : result dns_error (list RR)) | TContinue (lastErr : option dns_error).

(** The [switch] on the response code. *)
Definition judge_response (opts : ResolverOptions) (qname : string) (r : response) : tried :=
  if rs_Rcode r =? RcodeSuccess then
    if ro_DNSSECEnabled opts && negb (rs_AuthenticatedData r) then TContinue (Some (NotAuthenticated qname))
    else TReturn (Ok (rs_Answer r))
  else if rs_Rcode r =? RcodeNameError then
    if ro_DNSSECEnabled opts && negb (rs_AuthenticatedData r) then TContinue (Some (DenialNotAuthenticated qname))
    else TReturn (Ok [])
  else TContinue (Some (BadRcode (rs_Rcode r))).

Definition try_nameserver (opts : ResolverOptions) (client tcpClient : dns_client) (qname : string) (queryType : Z) (ns : string)
    (lastErr : option dns_error) : tried :=
  let address := ensurePort ns (defaultResolverPort opts) in
  match exchange client address (Fqdn qname) queryType with
  | ExFailed true => TReturn (Err ContextDone)
  | ExFailed false => TContinue (Some (ExchangeFailed address))
  | ExNil => TContinue lastErr
  | ExMessage r =>
      if rs_Truncated r then
        match exchange tcpClient address (Fqdn qname) queryType with
        | ExFailed true => TReturn (Err ContextDone)
        | ExFailed false => TContinue (Some (ExchangeFailed address))
        | ExNil => TContinue lastErr
        | ExMessage r => judge_response opts qname r
        end
      else judge_response opts qname r
  end.

Fixpoint try_nameservers (opts : ResolverOptions) (client tcpClient : dns_client) (qname : string) (queryType : Z) (l : list string)
    (lastErr : option dns_error) : result dns_error (list RR) :=
  match l with
  | [] => match lastErr with Some e => Err e | None => Ok [] end
  | ns :: r =>
      match try_nameserver opts client tcpClient qname queryType ns lastErr with
      | TReturn x => x
      | TContinue lastErr => try_nameservers opts client tcpClient qname queryType r lastErr
      end
  end.

Definition exchangeDNSQuery (opts : ResolverOptions) (qname : string) (queryType : Z) : result dns_error (list RR) :=
  if ro_DNSSECEnabled opts && negb (ro_DNSOverTLS opts) then Err DNSSECRequiresTLS
  else
    let? nameservers := nameserversForQuery opts in
    let? client := newDNSClient opts false in
    let? tcpClient := newDNSClient opts true in
    try_nameservers opts client tcpClient qname queryType nameservers None.
End Resolver.

(** ** Lookups *)

Definition maxLookupDepth : nat := 8.

Section Lookups.
(** The n-th query of a lookup and its answer: [lookupDNSResponse] at that time. *)
Context (Fqdn : string -> string) (lookupDNSResponse : nat -> string -> Z -> result dns_error (list RR)).

(** The loop of [lookupConfigList] after [depth] turns; [None] and [Some []] are both an empty list. *)
Fixpoint follow (turns : nat) (query : discoveryQuery) (depth : nat) (currentName : string) : result dns_error (list byte) :=
  match turns with
  | O => Ok []
  | S turns =>
      let? answer := lookupDNSResponse depth currentName (dq_queryType query) in
      if bool_decide (answer = []) then Ok []
      else match selectConfigList Fqdn answer currentName (dq_queryType query) (dq_supportedALPN query) with
           | Some configList => Ok configList
           | None =>
               match nextAliasTarget Fqdn answer currentName (dq_queryType query) with
               | None => Ok []
               | Some nextName => follow turns query (S depth) (Fqdn nextName)
               end
           end
  end.

Definition lookupConfigList (target : Target) : result dns_error (list byte) :=
  match discoveryQueryForTarget target with
  | None => Ok []
  | Some query => follow maxLookupDepth query 0 (Fqdn (dq_name query))
  end.

(** The loop of [lookupHostOnce] over the query types. *)
Fixpoint host_types (types : list Z) (n : nat) (qname : string) (addrs : list string) : result dns_error (list string * string * nat) :=
  match types with
  | [] => Ok (addrs, "", n)
  | t :: types =>
      let? answer := lookupDNSResponse n qname t in
      let '(moreAddrs, alias) := selectAddresses Fqdn answer qname t in
      let addrs := addrs ++ moreAddrs in
      if bool_decide (addrs = []) && negb (bool_decide (alias = "")) then Ok ([], alias, S n)
      else host_types types (S n) qname addrs
  end.

Definition lookupHostOnce (opts : ResolverOptions) (n : nat) (qname : string) : result dns_error (list string * string * nat) :=
  host_types (if ro_ForceIPv4 opts then [TypeA] else if ro_ForceIPv6 opts then [TypeAAAA] else [TypeA; TypeAAAA]) n qname [].

Fixpoint follow_host (turns : nat) (opts : ResolverOptions) (n : nat) (currentName : string) : result dns_error (list string) :=
  match turns with
  | O => Ok []
  | S turns =>
      let? (addrs, alias, n) := lookupHostOnce opts n currentName in
      if negb (bool_decide (addrs = [])) then Ok addrs
      else if bool_decide (alias = "") then Ok []
      else follow_host turns opts n (Fqdn alias)
  end.

Definition LookupHost (host : string) (opts : ResolverOptions) : result dns_error (list string) :=
  let currentName := Fqdn (normalizeDNSName host) in
  if bool_decide (currentName = ".") then Ok [] else follow_host maxLookupDepth opts 0 currentName.

(** A list found in DNS parses. *)
Definition valid_list (l : list byte) : Prop := l = [] \/ exists names, parseConfigList l = Ok names.

Lemma first_ech_valid values l : first_ech values = Some l -> valid_list l.
Proof.
  induction values as [|[alpn|ech|k] values IH]; cbn [first_ech]; try done.
  case_bool_decide; [done|]. destruct (parseConfigList ech) eqn:E; [|done]. intros [= <-]. right. eauto.
Qed.

Lemma select_valid answer name t alpn l : selectConfigList Fqdn answer name t alpn = Some l -> valid_list l.
Proof.
  intros H%find_map_Some. destruct H as (r & _ & Hr). unfold record_config, configListFromRecord in Hr. go_cases; eauto using first_ech_valid.
Qed.

Lemma follow_valid turns query depth name l : follow turns query depth name = Ok l -> valid_list l.
Proof.
  revert depth name. induction turns as [|turns IH]; intros depth name; cbn [follow]; [intros [= <-]; by left|].
  destruct (lookupDNSResponse _ _ _); [|done]. case_bool_decide; [intros [= <-]; by left|].
  destruct (selectConfigList _ _ _ _ _) eqn:E; [intros [= <-]; eauto using select_valid|]. destruct (nextAliasTarget _ _ _ _); [apply IH|intros [= <-]; by left].
Qed.

Lemma lookup_valid target l : lookupConfigList target = Ok l -> valid_list l.
Proof. unfold lookupConfigList. destruct (discoveryQueryForTarget target); [apply follow_valid|intros [= <-]; by left]. Qed.
End Lookups.

(** *** DNSSEC *)

Lemma judge_authenticated opts qname r a : ro_DNSSECEnabled opts = true -> judge_response opts qname r = TReturn (Ok a) -> a <> [] ->
  rs_AuthenticatedData r = true /\ rs_Answer r = a.
Proof. unfold judge_response. intros ->. go_cases; intros; simplify_eq; by destruct (rs_AuthenticatedData r). Qed.

Lemma try_nameserver_authenticated Fqdn exchange opts c t qname qt ns lastErr a : ro_DNSSECEnabled opts = true ->
  try_nameserver Fqdn exchange opts c t qname qt ns lastErr = TReturn (Ok a) -> a <> [] ->
  exists client r, (client = c \/ client = t) /\ exchange client (ensurePort ns (defaultResolverPort opts)) (Fqdn qname) qt = ExMessage r /\
    rs_AuthenticatedData r = true /\ rs_Answer r = a.
Proof.
  intros Hd. unfold try_nameserver. destruct (exchange c _ _ _) as [[]| |r] eqn:E; try done. destruct (rs_Truncated r).
  - destruct (exchange t _ _ _) as [[]| |r2] eqn:E2; try done. intros H Ha. exists t, r2. destruct (judge_authenticated _ _ _ _ Hd H Ha). auto.
  - intros H Ha. exists c, r. destruct (judge_authenticated _ _ _ _ Hd H Ha). auto.
Qed.

Lemma try_nameservers_authenticated Fqdn exchange opts c t qname qt l lastErr a : ro_DNSSECEnabled opts = true ->
  try_nameservers Fqdn exchange opts c t qname qt l lastErr = Ok a -> a <> [] ->
  exists client ns r, (client = c \/ client = t) /\ exchange client (ensurePort ns (defaultResolverPort opts)) (Fqdn qname) qt = ExMessage r /\
    rs_AuthenticatedData r = true /\ rs_Answer r = a.
Proof.
  intros Hd. revert lastErr. induction l as [|ns l IH]; intros lastErr; cbn [try_nameservers].
  { destruct lastErr; [done|]. by intros [= <-]. }
  destruct (try_nameserver _ _ _ _ _ _ _ _ _) as [x|e] eqn:E; [|apply IH]. intros -> Ha.
  destruct (try_nameserver_authenticated _ _ _ _ _ _ _ _ _ _ Hd E Ha) as (client & r & H). by exists client, ns, r.
Qed.

(** C22: With DNSSEC enabled, a query yields records only over a TLS connection to a resolver whose certificate name is verified, and only the records of a message that resolver marked as authenticated. *)
Theorem dnssec_authenticated Fqdn resolv_conf exchange opts qname queryType answer
    (Hdnssec : ro_DNSSECEnabled opts = true)
    (Hok : exchangeDNSQuery Fqdn resolv_conf exchange opts qname queryType = Ok answer) (Hne : answer <> []) :
  ro_DNSOverTLS opts = true /\
  exists client nameserver r,
    dc_Net client = "tcp-tls" /\ dnsTLSServerName opts = Ok (default "" (dc_ServerName client)) /\ dc_ServerName client <> None /\
    exchange client nameserver (Fqdn qname) queryType = ExMessage r /\ rs_AuthenticatedData r = true /\ rs_Answer r = answer.
Proof.
  unfold exchangeDNSQuery in Hok. rewrite Hdnssec in Hok. destruct (ro_DNSOverTLS opts) eqn:Ht; [|done]. split; [done|]. cbn [andb negb] in Hok.
  destruct (nameserversForQuery _ opts) as [l|]; [|done]. unfold newDNSClient, tcpNetwork, dnsNetwork in Hok. rewrite Ht in Hok.
  destruct (dnsTLSServerName opts) as [name|] eqn:Hn; [|done].
  apply try_nameservers_authenticated in Hok as (client & ns & r & Hc & He & Ha & Hr); [|done|done].
  exists client, (ensurePort ns (defaultResolverPort opts)), r. destruct Hc as [-> | ->]; cbn; done.
Qed.

Definition sample_ech_options : ResolverOptions := MkResolverOptions "dns.example:853" true "" true false false.
Definition sample_record : RR := MkRR "example.com." (RR_A [x0a; x00; x00; x01]).
Definition sample_exchange (c : dns_client) (ns q : string) (t : Z) : exchanged := ExMessage (MkResponse false RcodeSuccess true [sample_record]).

Lemma dnssec_authenticated_witness :
  exchangeDNSQuery (fun s => s +:+ ".") (Err "") sample_exchange sample_ech_options "example.com" TypeA = Ok [sample_record] /\
  ro_DNSOverTLS sample_ech_options = true.
Proof.
  split; [vm_compute; reflexivity|].
  apply (dnssec_authenticated (fun s => s +:+ ".") (Err "") sample_exchange sample_ech_options "example.com" TypeA [sample_record]);
    [reflexivity|vm_compute; reflexivity|discriminate].
Defined.

(** ** The cache *)

Definition positiveCacheTTL : Z := 10 * 60 * 1000000000.
Definition negativeCacheTTL : Z := 60 * 1000000000.

Record cacheEntry := MkEntry { ce_configList : list byte; ce_expiresAt : Z }.

Definition cache := gmap string cacheEntry.

(** The first critical section of [LookupConfigList]: a live entry, or none, and then an expired one is gone. *)
Definition lookup_cached (key : string) (now : Z) (c : cache) : option (list byte) * cache :=
  match c !! key with
  | Some entry => if now <? ce_expiresAt entry then (Some (ce_configList entry), c) else (None, delete key c)
  | None => (None, c)
  end.

(** Its second critical section: what was found, kept for ten minutes or, when empty, for one. *)
Definition store_found (key : string) (now : Z) (configList : list byte) (c : cache) : cache :=
  <[key := MkEntry configList (now + if bool_decide (configList = []) then negativeCacheTTL else positiveCacheTTL)]> c.

Definition LookupConfigList (lookup : result dns_error (list byte)) (target : Target) (opts : ResolverOptions) (now : Z) (c : cache) :
    result dns_error (list byte) * cache :=
  let key := cacheKey target opts in
  match lookup_cached key now c with
  | (Some l, c) => (Ok l, c)
  | (None, c) =>
      match lookup with
      | Err e => (Err e, c)
      | Ok configList => (Ok configList, store_found key now configList c)
      end
  end.

Definition RememberConfigList (target : Target) (opts : ResolverOptions) (configList : list byte) (now : Z) (c : cache) : option ech_error * cache :=
  if bool_decide (configList = []) then (None, c)
  else match parseConfigList configList with
       | Err e => (Some e, c)
       | Ok _ => (None, <[cacheKey target opts := MkEntry configList (now + positiveCacheTTL)]> c)
       end.

(** Every cached list is empty or well formed. *)
Definition cache_ok (c : cache) : Prop := map_Forall (fun _ e => valid_list (ce_configList e)) c.

Lemma lookup_cached_ok key now c : cache_ok c ->
  cache_ok (lookup_cached key now c).2 /\ (forall l, (lookup_cached key now c).1 = Some l -> valid_list l).
Proof.
  intros Hc. unfold lookup_cached. destruct (c !! key) as [e|] eqn:E; [|done]. destruct (_ <? _); cbn.
  - split; [done|]. intros l [= <-]. by apply (Hc key).
  - split; [|done]. by apply map_Forall_delete.
Qed.

Lemma store_found_ok key now l c : cache_ok c -> valid_list l -> cache_ok (store_found key now l c).
Proof. intros Hc Hl. by apply map_Forall_insert_2. Qed.

Lemma remember_ok target opts l now c : cache_ok c -> cache_ok (RememberConfigList target opts l now c).2.
Proof.
  intros Hc. unfold RememberConfigList. case_bool_decide; [done|]. destruct (parseConfigList l) eqn:E; [|done]. apply map_Forall_insert_2; [|done]. right. eauto.
Qed.

(** The resolver with its calls in progress: a lookup is between its critical sections. *)
Record resolver := MkResolver { rv_cache : cache; rv_calls : gmap nat (Target * ResolverOptions * Z); rv_returned : list (list byte) }.

Inductive resolver_step (Fqdn : string -> string) : resolver -> resolver -> Prop :=
| step_hit s target opts now l c :
    lookup_cached (cacheKey target opts) now (rv_cache s) = (Some l, c) ->
    resolver_step Fqdn s (MkResolver c (rv_calls s) (l :: rv_returned s))
| step_miss s n target opts now c :
    rv_calls s !! n = None ->
    lookup_cached (cacheKey target opts) now (rv_cache s) = (None, c) ->
    resolver_step Fqdn s (MkResolver c (<[n := (target, opts, now)]> (rv_calls s)) (rv_returned s))
| step_found s n target opts now lookupDNSResponse l :
    rv_calls s !! n = Some (target, opts, now) ->
    lookupConfigList Fqdn lookupDNSResponse target = Ok l ->
    resolver_step Fqdn s (MkResolver (store_found (cacheKey target opts) now l (rv_cache s)) (delete n (rv_calls s)) (l :: rv_returned s))
| step_failed s n :
    resolver_step Fqdn s (MkResolver (rv_cache s) (delete n (rv_calls s)) (rv_returned s))
| step_remember s target opts l now :
    resolver_step Fqdn s (MkResolver (RememberConfigList target opts l now (rv_cache s)).2 (rv_calls s) (rv_returned s)).

Definition new_resolver : resolver := MkResolver ∅ ∅ [].

(** In every interleaving of lookups and of lists remembered from rejected handshakes, whatever the nameservers answer, the cache holds and the lookups return only empty or well-formed configuration lists. *)
Theorem resolver_lists_valid Fqdn (s : resolver) (Hs : rtc (resolver_step Fqdn) new_resolver s) :
  cache_ok (rv_cache s) /\ Forall valid_list (rv_returned s).
Proof.
  eapply (rtc_invariant _ (fun s => cache_ok (rv_cache s) /\ Forall valid_list (rv_returned s))); [|exact Hs|split; [apply map_Forall_empty|constructor]].
  clear s Hs. intros s1 s2 Hstep [Hc Hr]. destruct Hstep as [s target opts now l c H|s n target opts now c Hn H|s n target opts now lk l Hn H|s n|s target opts l now]; cbn.
  - destruct (lookup_cached_ok (cacheKey target opts) now (rv_cache s) Hc) as [H1 H2]. rewrite H in H1, H2. split; [done|]. constructor; [by apply H2|done].
  - destruct (lookup_cached_ok (cacheKey target opts) now (rv_cache s) Hc) as [H1 _]. by rewrite H in H1.
  - apply lookup_valid in H. split; [by apply store_found_ok|by constructor].
  - done.
  - split; [by apply remember_ok|done].
Qed.

(** A list with one configuration, for X25519 and the public name [example.com]. *)
Definition sample_ech_config : ech_config :=
  MkECHConfig (xfe, x0d) x01 (x00, x20) (replicate 32 x2a) [x00; x01; x00; x01] x40 (s2b "example.com") [].
Definition sample_ech_list : list byte := encode_list [sample_ech_config].

Definition sample_ech_target : Target := MkTarget "example.com:443" "" ["h2"].

Definition sample_https (n : nat) (qname : string) (t : Z) : result dns_error (list RR) :=
  Ok [MkRR "example.com." (RR_HTTPS 1 "." [SVCBAlpn ["h2"]; SVCBECHConfig sample_ech_list])].

Lemma resolver_lists_valid_witness : exists s, rv_returned s = [sample_ech_list] /\ sample_ech_list <> [] /\ Forall valid_list (rv_returned s).
Proof.
  eexists. split; [|split; [discriminate|]]; cycle 1.
  - eapply (resolver_lists_valid (fun s => if HasSuffix s "." then s else s +:+ ".")).
    eapply rtc_l; [|eapply rtc_l; [|apply rtc_refl]].
    + eapply (step_miss _ new_resolver 0 sample_ech_target empty_options 5); reflexivity.
    + eapply (step_found _ _ 0 sample_ech_target empty_options 5 sample_https sample_ech_list); vm_compute; reflexivity.
  - reflexivity.
Defined.

(** ** Dialing with ECH ([ech_client.go]) *)

Definition VersionTLS13 : Z := 772.

(** The fields of [tls.Config] the code reads or sets; [tl_rest] stands for the others. *)
Record tls_config (Rest : Type) := MkTLSConfig {
  tl_ServerName : string;
  tl_NextProtos : list string;
  tl_MinVersion : Z;
  tl_MaxVersion : Z;
  tl_InsecureSkipVerify : bool;
  tl_EncryptedClientHelloConfigList : list byte;
  tl_RejectionVerify : bool;  (** whether [EncryptedClientHelloRejectionVerify] is set *)
  tl_rest : Rest;
}.
Arguments MkTLSConfig {Rest}.
Arguments tl_ServerName {Rest} _.
Arguments tl_NextProtos {Rest} _.
Arguments tl_MinVersion {Rest} _.
Arguments tl_MaxVersion {Rest} _.
Arguments tl_InsecureSkipVerify {Rest} _.
Arguments tl_EncryptedClientHelloConfigList {Rest} _.
Arguments tl_RejectionVerify {Rest} _.
Arguments tl_rest {Rest} _.

(** [splitHostPort] of [helpers.go]; [None] is its error, empty parts are nil pointers. *)
Definition splitHostPort (addr : string) : option (option string * option string) :=
  let ptr s := if bool_decide (s = "") then None else Some s in
  match SplitHostPort addr with
  | Some (host, port) => Some (ptr host, ptr port)
  | None => if contains_byte x3a (s2b addr) then None else Some (ptr addr, None)
  end.

Section Dial.
Context {Conn Rest : Type}.
Notation config := (tls_config Rest).

Inductive dialed := Connected (c : Conn) | Rejected (RetryConfigList : list byte) | Refused.

Inductive dial_error := FIPSUnavailable | ContextError | DialError (d : dialed).

Definition outcome_of (d : dialed) : result dial_error Conn := match d with Connected c => Ok c | d => Err (DialError d) end.

Definition newECHTLSConfig (baseCfg : config) (configList : list byte) : config :=
  MkTLSConfig (tl_ServerName baseCfg) (tl_NextProtos baseCfg)
    (if (tl_MinVersion baseCfg =? 0) || (tl_MinVersion baseCfg <? VersionTLS13) then VersionTLS13 else tl_MinVersion baseCfg)
    (tl_MaxVersion baseCfg) (tl_InsecureSkipVerify baseCfg) configList
    (if tl_InsecureSkipVerify baseCfg && negb (tl_RejectionVerify baseCfg) then true else tl_RejectionVerify baseCfg) (tl_rest baseCfg).

(** [fips] is the build flag, [ctxDone] whether the context is done when the lookup failed, [lookup] what the lookup
    finds if the cache has nothing, [now] and [later] the clock, [dial n cfg] what the n-th dial answers.  The result
    comes with the configurations dialed, in order, and the cache. *)
Definition dialWithECHResult (fips ctxDone : bool) (lookup : result dns_error (list byte)) (now later : Z) (addr : string)
    (baseCfg : option config) (opts : ResolverOptions) (dial : nat -> option config -> dialed) (c : cache) :
    result dial_error Conn * list (option config) * cache :=
  let plain c := (outcome_of (dial 0%nat baseCfg), [baseCfg], c) in
  if fips then
    match baseCfg with
    | Some b => if negb (bool_decide (tl_EncryptedClientHelloConfigList b = [])) then (Err FIPSUnavailable, [], c) else plain c
    | None => plain c
    end
  else match baseCfg with
  | None => plain c
  | Some b =>
      if negb (bool_decide (tl_EncryptedClientHelloConfigList b = [])) then plain c
      else if negb (tl_MaxVersion b =? 0) && (tl_MaxVersion b <? VersionTLS13) then plain c
      else
        let serverName := if bool_decide (tl_ServerName b = "")
                          then match splitHostPort addr with Some (host, _) => host | None => None end
                          else Some (tl_ServerName b) in
        match serverName with
        | None => plain c
        | Some serverName =>
            let target := MkTarget addr serverName (tl_NextProtos b) in
            match LookupConfigList lookup target opts now c with
            | (Err _, c) => if ctxDone then (Err ContextError, [], c) else plain c
            | (Ok configList, c) =>
                if bool_decide (configList = []) then plain c
                else
                  let echCfg := newECHTLSConfig b configList in
                  match dial 0%nat (Some echCfg) with
                  | Connected conn => (Ok conn, [Some echCfg], c)
                  | Rejected retry =>
                      if negb (bool_decide (retry = [])) && negb (bool_decide (retry = configList)) then
                        let c := (RememberConfigList target opts retry later c).2 in
                        let retryCfg := newECHTLSConfig b retry in
                        (outcome_of (dial 1%nat (Some retryCfg)), [Some echCfg; Some retryCfg], c)
                      else (Err (DialError (Rejected retry)), [Some echCfg], c)
                  | Refused => (Err (DialError Refused), [Some echCfg], c)
                  end
            end
        end
  end.

(** A configuration that hides the server name: ECH with TLS 1.3, and otherwise what was asked for. *)
Definition protects (b : config) (cfg : option config) : Prop :=
  exists x, cfg = Some x /\ tl_EncryptedClientHelloConfigList x <> [] /\ VersionTLS13 <= tl_MinVersion x /\
    tl_ServerName x = tl_ServerName b /\ tl_NextProtos x = tl_NextProtos b /\ tl_MaxVersion x = tl_MaxVersion b /\
    tl_InsecureSkipVerify x = tl_InsecureSkipVerify b /\ tl_rest x = tl_rest b.

Lemma protects_new b l : l <> [] -> protects b (Some (newECHTLSConfig b l)).
Proof.
  intros Hl. eexists. split; [reflexivity|]. cbn. split; [done|]. split; [|done].
  destruct (Z.eqb_spec (tl_MinVersion b) 0), (Z.ltb_spec (tl_MinVersion b) VersionTLS13); cbn; lia.
Qed.

(** The list the resolver answers a dial with, when the dial asks it. *)
Definition discovered (fips : bool) (lookup : result dns_error (list byte)) (now : Z) (addr : string) (b : config) (opts : ResolverOptions)
    (c : cache) : option (list byte) :=
  if fips || negb (bool_decide (tl_EncryptedClientHelloConfigList b = [])) || (negb (tl_MaxVersion b =? 0) && (tl_MaxVersion b <? VersionTLS13)) then None
  else
    serverName ← (if bool_decide (tl_ServerName b = "") then match splitHostPort addr with Some (host, _) => host | None => None end else Some (tl_ServerName b));
    match (LookupConfigList lookup (MkTarget addr serverName (tl_NextProtos b)) opts now c).1 with
    | Ok l => if bool_decide (l = []) then None else Some l
    | Err _ => None
    end.
End Dial.

(** C21: Once a configuration list is known for a host, no handshake reveals its name: every dial uses ECH and TLS 1.3 with the caller's other settings, the first with the list that was found, at most one more with the list of a rejection that differs from it, and the connection returned is the last dial's; without such a list the caller's configuration is dialed unchanged or not at all. *)
Theorem ech_no_downgrade {Conn Rest} fips ctxDone lookup now later addr (b : tls_config Rest) opts
    (dial : nat -> option (tls_config Rest) -> @dialed Conn) c out dials c'
    (Hrun : dialWithECHResult fips ctxDone lookup now later addr (Some b) opts dial c = (out, dials, c')) :
  match discovered fips lookup now addr b opts c with
  | Some l =>
      Forall (protects b) dials /\ head dials = Some (Some (newECHTLSConfig b l)) /\
      (length dials <= 2)%nat /\
      (forall cfg, dials !! 1%nat = Some cfg -> exists retry, dial 0%nat (Some (newECHTLSConfig b l)) = Rejected retry /\ retry <> l /\ cfg = Some (newECHTLSConfig b retry)) /\
      (forall conn, out = Ok conn -> exists cfg, last dials = Some cfg /\ dial (length dials - 1)%nat cfg = Connected conn)
  | None => dials = [] /\ is_ok out = false \/ dials = [Some b] /\ out = outcome_of (dial 0%nat (Some b))
  end.
Proof.
  unfold dialWithECHResult, discovered in *. destruct fips; cbn [orb].
  { destruct (negb (bool_decide (tl_EncryptedClientHelloConfigList b = []))); injection Hrun as <- <- <-; cbn; auto. }
  destruct (negb (bool_decide (tl_EncryptedClientHelloConfigList b = []))); [injection Hrun as <- <- <-; rewrite ?orb_true_r; cbn; auto|]. cbn [orb].
  destruct (negb (tl_MaxVersion b =? 0) && (tl_MaxVersion b <? VersionTLS13)); [injection Hrun as <- <- <-; rewrite ?orb_true_r; cbn; auto|].
  destruct (if bool_decide (tl_ServerName b = "") then _ else _) as [sn|]; [|injection Hrun as <- <- <-; cbn; auto]. cbn [mbind option_bind].
  destruct (LookupConfigList _ _ _ _ _) as [[l|e] c1]; cbn [fst]; [|destruct ctxDone; injection Hrun as <- <- <-; cbn; auto].
  case_bool_decide as Hl; [injection Hrun as <- <- <-; rewrite ?orb_true_r; cbn; auto|]. assert (Hp : protects b (Some (newECHTLSConfig b l))) by (by apply protects_new).
  destruct (dial 0%nat (Some (newECHTLSConfig b l))) as [conn|retry|] eqn:E.
  - injection Hrun as <- <- <-. split; [by repeat constructor|]. split; [done|]. split; [cbn; lia|]. split; [done|]. intros x [= ->]. eauto.
  - destruct (bool_decide_reflect (retry = [])) as [Hr|Hr], (bool_decide_reflect (retry = l)) as [Hr'|Hr']; cbn [negb andb] in Hrun;
      injection Hrun as <- <- <-; (split; [repeat (apply Forall_cons_2; [first [exact Hp|by apply protects_new]|]); apply Forall_nil_2|]); (split; [done|]); (split; [cbn; lia|]); (split; [|try done]); try done.
    + intros cfg [= <-]. eauto.
    + intros conn Hc. eexists. split; [reflexivity|]. cbn. by destruct (dial 1%nat _); simplify_eq/=.
  - injection Hrun as <- <- <-. split; [by repeat constructor|]. split; [done|]. split; [cbn; lia|]. done.
Qed.

Definition sample_tls : tls_config unit := MkTLSConfig "" ["h2"] 0 0 false [] false tt.

(** The engine rejects the first list and offers another one. *)
Definition sample_dials (n : nat) (cfg : option (tls_config unit)) : @dialed nat :=
  if decide (n = 0)%nat then Rejected (encode_list [sample_ech_config; sample_ech_config]) else Connected 7%nat.

Lemma ech_no_downgrade_witness :
  let '(_, dials, _) := dialWithECHResult false false (Ok sample_ech_list) 5 6 "example.com:443" (Some sample_tls) empty_options sample_dials ∅ in
  length dials = 2%nat /\ Forall (protects sample_tls) dials.
Proof.
  assert (Hd : length (dialWithECHResult false false (Ok sample_ech_list) 5 6 "example.com:443" (Some sample_tls) empty_options sample_dials ∅).1.2 = 2%nat) by (vm_compute; reflexivity).
  destruct (dialWithECHResult _ _ _ _ _ _ _ _ _ _) as [[out dials] c'] eqn:E. split; [exact Hd|].
  exact (proj1 (ech_no_downgrade _ _ _ _ _ _ _ _ _ _ _ _ _ E)).
Defined.
