(* ===== verification/DialRoutes.v ===== *)
(** * DialRoutes: resolving an address into routes and racing them
    ([dns_resolution.go], [dial_routes.go], the dials of [transport.go], part of [proxy_config.go])

    A dial resolves the engine's address and the proxy's address, pairs them into
    routes and races the routes, two at a time, until one connects.  The race is an
    interleaving semantics: the goroutines that dial, the timer, the parent context and
    the loop take steps in any order.

    The host lookups are parameters: [lookup_host] of the internal resolver ([Ech])
    and [lookup_ip] of the system's. *)

From S2P Require Import Prelude GoStrings GoURL GoNet Socks5 TransportConfig Ech.

(** ** [net/netip] addresses *)

Inductive Addr := Addr4 (ip : list byte) | Addr6 (ip : list byte) (zone : string).

#[export] Instance addr_eq_dec : EqDecision Addr.
Proof. solve_decision. Defined.

(** [parseIPv6] of an address that may carry a zone. *)
Definition parse_zoned (s : list byte) : option Addr :=
  match index_byte x25 s with
  | None => (fun ip => Addr6 ip "") <$> parseIPv6 s
  | Some i => if bool_decide (drop (i + 1) s = []) then None else (fun ip => Addr6 ip (b2s (drop (i + 1) s))) <$> parseIPv6 (take i s)
  end.

Fixpoint parse_from (s whole : list byte) : option Addr :=
  match s with
  | [] => None
  | c :: r =>
      if byte_eqb c x2e then Addr4 <$> parseIPv4 whole
      else if byte_eqb c x3a then parse_zoned whole
      else if byte_eqb c x25 then None
      else parse_from r whole
  end.

Definition ParseAddr (s : string) : option Addr := parse_from (s2b s) (s2b s).

Definition Is4In6 (ip : list byte) : bool := bool_decide (take 12 ip = v4InV6Prefix).

Definition Unmap (a : Addr) : Addr :=
  match a with Addr6 ip zone => if Is4In6 ip then Addr4 (drop 12 ip) else a | _ => a end.

Definition Is4 (a : Addr) : bool := match a with Addr4 _ => true | _ => false end.
Definition Is6 (a : Addr) : bool := match a with Addr6 _ _ => true | _ => false end.

Definition with_zone (s zone : string) : string := if bool_decide (zone = "") then s else s +:+ "%" +:+ zone.

Definition Addr_String (a : Addr) : string :=
  match a with
  | Addr4 ip => b2s (dotted ip)
  | Addr6 ip zone => with_zone (if Is4In6 ip then "::ffff:" +:+ b2s (dotted (drop 12 ip)) else b2s (ipv6_string ip)) zone
  end.

Example parse_addr_zone : ParseAddr "fe80::1%eth0" = Some (Addr6 (xfe :: x80 :: replicate 13 x00 ++ [x01]) "eth0").
Proof. reflexivity. Qed.

(** ** Resolution *)

Record dnsResolverConfig := MkDNSResolver {
  dr_override : string; dr_overTLS : bool; dr_serverName : string; dr_dnssecEnabled : bool; dr_forceIPv4 : bool; dr_forceIPv6 : bool }.

Definition dns_enabled (c : dnsResolverConfig) : bool :=
  negb (bool_decide (dr_override c = "")) || dr_overTLS c || dr_dnssecEnabled c || dr_forceIPv4 c || dr_forceIPv6 c.

Definition resolver_options (c : dnsResolverConfig) : ResolverOptions :=
  MkResolverOptions (dr_override c) (dr_overTLS c) (dr_serverName c) (dr_dnssecEnabled c) (dr_forceIPv4 c) (dr_forceIPv6 c).

Definition stringValue (v : option string) : string := default "" v.
Definition boolValue (v : option bool) : bool := default false v.

Definition dnsResolverOptionsFromTransport {pool} (t : Transport pool) : dnsResolverConfig :=
  MkDNSResolver (stringValue (tr_DNSOverride _ t)) (boolValue (tr_DNSOverTLS _ t)) (stringValue (tr_DNSServerName _ t))
    (boolValue (tr_DNSSECEnabled _ t)) (boolValue (tr_ForceIPv4 _ t)) (boolValue (tr_ForceIPv6 _ t)).

Definition dnsResolverOptionsFromQUICTransport {pool} (t : QUICTransport pool) : dnsResolverConfig :=
  MkDNSResolver (stringValue (qt_DNSOverride _ t)) (boolValue (qt_DNSOverTLS _ t)) (stringValue (qt_DNSServerName _ t))
    (boolValue (qt_DNSSECEnabled _ t)) (boolValue (qt_ForceIPv4 _ t)) (boolValue (qt_ForceIPv6 _ t)).

(** [echResolverOptions]; [selected] is what an [AutoTransport] has pinned. *)
Definition echResolverOptions {pool} (selected : option (Transport pool + QUICTransport pool)) (d : dialer pool) : ResolverOptions :=
  let tls t := resolver_options (dnsResolverOptionsFromTransport t) in
  let quic q := resolver_options (dnsResolverOptionsFromQUICTransport q) in
  match d with
  | DTLS _ t => tls t
  | DQUIC _ q => quic q
  | DAuto _ t q =>
      match selected with
      | Some (inl t) => tls t
      | Some (inr q) => quic q
      | None => match q, t with Some q, _ => quic q | None, Some t => tls t | None, None => empty_options end
      end
  end.

Inductive resolve_error := BadHostPort (addr : string) | NotIPv4 (host : string) | NotIPv6 (host : string)
| LookupFailed (host : string) | NoAddresses (host : string) | InvalidAddress (value : string).

(** [net.IPAddr.String]. *)
Definition IPAddr_String (a : list byte * string) : string := with_zone (IP_text a.1) a.2.

(** The two families of addresses, in order of appearance; the first address decides
    which one comes first. *)
Record families := MkFamilies { fm_first : list string; fm_second : list string; fm_firstIPv6 : bool; fm_seen : gset string }.

Definition add_address (port : string) (f : families) (value : string) : result resolve_error families :=
  match ParseAddr value with
  | None => Err (InvalidAddress value)
  | Some ip =>
      let ip := Unmap ip in
      if bool_decide (Addr_String ip ∈ fm_seen f) then Ok f
      else
        let seen := {[Addr_String ip]} ∪ fm_seen f in
        let firstIPv6 := if bool_decide (size seen = 1%nat) then Is6 ip else fm_firstIPv6 f in
        let text := JoinHostPort (Addr_String ip) port in
        if Bool.eqb (Is6 ip) firstIPv6 then Ok (MkFamilies (fm_first f ++ [text]) (fm_second f) firstIPv6 seen)
        else Ok (MkFamilies (fm_first f) (fm_second f ++ [text]) firstIPv6 seen)
  end.

Fixpoint add_addresses (port : string) (f : families) (l : list string) : result resolve_error families :=
  match l with
  | [] => Ok f
  | v :: r => let? f := add_address port f v in add_addresses port f r
  end.

Definition at_index (l : list string) (i : nat) : list string := match l !! i with Some x => [x] | None => [] end.

(** The final loop: one of each family per turn. *)
Definition alternate (a b : list string) : list string :=
  concat ((fun i => at_index a i ++ at_index b i) <$> seq 0 (Nat.max (length a) (length b))).

Section Resolve.
Context (lookup_host : ResolverOptions -> string -> result dns_error (list string))
        (lookup_ip : string -> result string (list (list byte * string))).

(** The addresses the resolver gives for a name. *)
Definition lookup_addresses (host : string) (cfg : dnsResolverConfig) : result resolve_error (list string) :=
  if dns_enabled cfg then
    match lookup_host (resolver_options cfg) host with Ok l => Ok l | Err _ => Err (LookupFailed host) end
  else
    match lookup_ip host with Ok ips => Ok (IPAddr_String <$> ips) | Err _ => Err (LookupFailed host) end.

Definition resolveDialAddresses (addr : string) (cfg : dnsResolverConfig) : result resolve_error (list string) :=
  match SplitHostPort addr with
  | None => Err (BadHostPort addr)
  | Some (host, port) =>
      match ParseAddr host with
      | Some ip =>
          if dr_forceIPv4 cfg && negb (Is4 (Unmap ip)) then Err (NotIPv4 host)
          else if dr_forceIPv6 cfg && negb (Is6 (Unmap ip)) then Err (NotIPv6 host)
          else Ok [addr]
      | None =>
          let? addresses := lookup_addresses host cfg in
          if bool_decide (addresses = []) then Err (NoAddresses host)
          else
            let? f := add_addresses port (MkFamilies [] [] false ∅) addresses in
            Ok (alternate (fm_first f) (fm_second f))
      end
  end.

(** [resolveDialAddress]: its first address; indexing an empty slice panics. *)
Definition resolveDialAddress (addr : string) (cfg : dnsResolverConfig) : result resolve_error (option string) :=
  let? addresses := resolveDialAddresses addr cfg in Ok (head addresses).

(** ** Routes *)

Record dialRoute := MkRoute { rt_target : string; rt_proxy : string }.

Definition endpoint (r : dialRoute) : string := if bool_decide (rt_proxy r = "") then rt_target r else rt_proxy r.

Record dialRoutes := MkRoutes { rs_targets : list string; rs_proxies : list string }.

Definition count (r : dialRoutes) : nat := length (rs_targets r) * length (rs_proxies r).

(** Remainders and indices panic ([None]) where Go's do. *)
Definition at_ (r : dialRoutes) (index : nat) : option dialRoute :=
  let np := length (rs_proxies r) in
  let nt := length (rs_targets r) in
  if (np =? 0)%nat || (nt =? 0)%nat then None
  else
    let proxy := (index mod np)%nat in
    let target := ((index / np + proxy) mod nt)%nat in
    t ← rs_targets r !! target; p ← rs_proxies r !! proxy; Some (MkRoute t p).

Inductive route_error := TwoProxies | ProxyURL | ProxyScheme (scheme : string) | ProxyHost | ProxySocks (e : socks_error) | RouteResolve (e : resolve_error).

Definition httpProxyDialAddress (u : url) : result route_error string :=
  let host := url_Hostname u in
  if bool_decide (host = []) then Err ProxyHost
  else
    let port := url_Port u in
    if bool_decide (port = []) then
      if bool_decide (b2s (u_scheme u) = "http") then Ok (JoinHostPort (b2s host) "80")
      else if bool_decide (b2s (u_scheme u) = "https") then Ok (JoinHostPort (b2s host) "443")
      else Err (ProxyScheme (b2s (u_scheme u)))
    else Ok (JoinHostPort (b2s host) (b2s port)).

(** The address of the configured proxy, empty without one. *)
Definition proxy_address (proxyHTTP proxySOCKS5 : string) : result route_error string :=
  if negb (bool_decide (proxyHTTP = "")) then
    match url_Parse (s2b proxyHTTP) with
    | None => Err ProxyURL
    | Some u =>
        if negb (bool_decide (b2s (u_scheme u) = "http")) && negb (bool_decide (b2s (u_scheme u) = "https"))
        then Err (ProxyScheme (b2s (u_scheme u)))
        else httpProxyDialAddress u
    end
  else if negb (bool_decide (proxySOCKS5 = "")) then
    match socks5ProxyConfigFromRaw proxySOCKS5 None None with
    | Err e => Err (ProxySocks e)
    | Ok p => Ok (sc_address p)
    end
  else Ok "".

Definition resolve_for (addr : string) (cfg : dnsResolverConfig) : result route_error (list string) :=
  match resolveDialAddresses addr cfg with Ok l => Ok l | Err e => Err (RouteResolve e) end.

Definition prepareDialRoutes (addr proxyHTTP proxySOCKS5 : string) (cfg : dnsResolverConfig) : result route_error dialRoutes :=
  if negb (bool_decide (proxyHTTP = "")) && negb (bool_decide (proxySOCKS5 = "")) then Err TwoProxies
  else
    let? proxy := proxy_address proxyHTTP proxySOCKS5 in
    let? targets := if bool_decide (proxy = "") || dns_enabled cfg then resolve_for addr cfg else Ok [addr] in
    let? proxies := if negb (bool_decide (proxy = "")) then resolve_for proxy cfg else Ok [""] in
    Ok (MkRoutes targets proxies).

Definition dialNetwork (base : string) (route : dialRoute) : string :=
  match SplitHostPort (endpoint route) with
  | None => base
  | Some (host, _) => if contains_byte x3a (s2b host) then base +:+ "6" else base +:+ "4"
  end.
End Resolve.

(** *** What resolution returns *)

(** The addresses without repetitions, by their text. *)
Fixpoint uniq (seen : gset string) (ips : list Addr) : list Addr :=
  match ips with
  | [] => []
  | ip :: r => if bool_decide (Addr_String ip ∈ seen) then uniq seen r else ip :: uniq ({[Addr_String ip]} ∪ seen) r
  end.

Definition same_family (a b : Addr) : bool := Bool.eqb (Is6 a) (Is6 b).

Fixpoint interleave {A} (a b : list A) : list A :=
  match a, b with
  | x :: a, y :: b => x :: y :: interleave a b
  | [], b => b
  | a, [] => a
  end.

(** Addresses of the family of the first one and of the other, alternating. *)
Definition happy_order (text : Addr -> string) (ips : list Addr) : list string :=
  match ips with
  | [] => []
  | a :: _ => interleave (text <$> filter (fun b => same_family b a = true) ips) (text <$> filter (fun b => same_family b a = false) ips)
  end.

Lemma interleave_perm {A} (a b : list A) : interleave a b ≡ₚ a ++ b.
Proof.
  revert b. induction a as [|x a IH]; intros [|y b]; cbn; [done..|by rewrite app_nil_r|].
  rewrite IH. constructor. by rewrite Permutation_middle.
Qed.

Lemma alternate_cons x y a b : alternate (x :: a) (y :: b) = x :: y :: alternate a b.
Proof.
  unfold alternate. cbn [length Nat.max]. rewrite <- (cons_seq (Nat.max (length a) (length b)) 0), fmap_cons. cbn [concat]. f_equal.
  rewrite <- seq_shift, <- list_fmap_compose. done.
Qed.

Lemma alternate_one_sided f l : (forall i, f i = at_index l i) -> concat (f <$> seq 0 (length l)) = l.
Proof.
  intros Hf. rewrite (list_fmap_ext f (at_index l)) by done. clear f Hf. induction l as [|x l IH]; [done|].
  cbn [length]. rewrite <- (cons_seq (length l) 0), fmap_cons. cbn. f_equal. rewrite <- seq_shift, <- list_fmap_compose. exact IH.
Qed.

Lemma alternate_interleave a b : alternate a b = interleave a b.
Proof.
  revert b. induction a as [|x a IH]; intros [|y b].
  - done.
  - unfold alternate. cbn [length Nat.max interleave]. apply (alternate_one_sided _ (y :: b)). done.
  - unfold alternate. rewrite Nat.max_l by (cbn; lia). cbn [interleave]. apply (alternate_one_sided _ (x :: a)). intros i. unfold at_index. by rewrite app_nil_r.
  - rewrite alternate_cons, IH. done.
Qed.

(** The families after some addresses, and after the ones that follow. *)
Definition parsed (values : list string) (ips : list Addr) : Prop := Forall2 (fun v ip => exists a, ParseAddr v = Some a /\ ip = Unmap a) values ips.

Lemma add_addresses_later port f values f' first (Hf : (0 < size (fm_seen f))%nat) (H6 : fm_firstIPv6 f = Is6 first) :
  add_addresses port f values = Ok f' ->
  exists ips, parsed values ips /\
    fm_first f' = fm_first f ++ ((fun a => JoinHostPort (Addr_String a) port) <$> filter (fun b => same_family b first = true) (uniq (fm_seen f) ips)) /\
    fm_second f' = fm_second f ++ ((fun a => JoinHostPort (Addr_String a) port) <$> filter (fun b => same_family b first = false) (uniq (fm_seen f) ips)).
Proof.
  revert f Hf H6. induction values as [|v values IH]; intros f Hf H6; cbn [add_addresses].
  { intros [= <-]. exists []. cbn. rewrite !app_nil_r. split; [constructor|done]. }
  unfold add_address. destruct (ParseAddr v) as [a|] eqn:Ev; [|done].
  destruct (bool_decide (Addr_String (Unmap a) ∈ fm_seen f)) eqn:Hs.
  { intros H. destruct (IH f Hf H6 H) as (ips & Hp & H1 & H2). exists (Unmap a :: ips). split; [constructor; eauto|]. cbn [uniq]. by rewrite Hs. }
  apply bool_decide_eq_false in Hs as Hs'. assert (Hsz : size ({[Addr_String (Unmap a)]} ∪ fm_seen f) = S (size (fm_seen f))).
  { rewrite size_union by set_solver. by rewrite size_singleton. }
  rewrite (bool_decide_false (size _ = 1%nat)) by lia. rewrite H6.
  assert (Hsame : Bool.eqb (Is6 (Unmap a)) (Is6 first) = same_family (Unmap a) first) by done. rewrite Hsame.
  destruct (same_family (Unmap a) first) eqn:E; intros H;
    (edestruct IH as (ips & Hp & H1 & H2); [| |exact H|]; [cbn [fm_seen]; lia|reflexivity|]);
    exists (Unmap a :: ips); (split; [constructor; eauto|]); cbn [uniq fm_first fm_second fm_seen] in *; rewrite Hs;
    rewrite !filter_cons, E; (rewrite decide_True by done; rewrite decide_False by done) || (rewrite decide_False by done; rewrite decide_True by done);
    rewrite fmap_cons, H1, H2, <- app_assoc; done.
Qed.

Lemma uniq_head ip ips : uniq ∅ (ip :: ips) = ip :: uniq {[Addr_String ip]} ips.
Proof. cbn [uniq]. rewrite bool_decide_false by set_solver. by rewrite union_empty_r_L. Qed.

Lemma add_addresses_spec port values f' : values <> [] ->
  add_addresses port (MkFamilies [] [] false ∅) values = Ok f' ->
  exists ips, parsed values ips /\ ips <> [] /\
    alternate (fm_first f') (fm_second f') = happy_order (fun a => JoinHostPort (Addr_String a) port) (uniq ∅ ips).
Proof.
  destruct values as [|v values]; [done|]. intros _. cbn [add_addresses]. unfold add_address. destruct (ParseAddr v) as [a|] eqn:Ev; [|done].
  cbn [fm_seen fm_first fm_second]. rewrite bool_decide_false by set_solver. rewrite union_empty_r_L.
  rewrite bool_decide_true by apply size_singleton. rewrite eqb_reflx. cbn [app]. intros H.
  eapply (add_addresses_later _ _ _ _ (Unmap a)) in H as (ips & Hp & H1 & H2); [|cbn; rewrite size_singleton; lia|done].
  exists (Unmap a :: ips). split; [constructor; eauto|]. split; [done|]. rewrite alternate_interleave, H1, H2, uniq_head.
  cbn [happy_order fm_first fm_second fm_seen]. rewrite !filter_cons.
  assert (Hr : same_family (Unmap a) (Unmap a) = true) by apply eqb_reflx. rewrite Hr.
  rewrite decide_True by done. rewrite decide_False by done. by rewrite fmap_cons.
Qed.

Lemma happy_order_perm text ips : happy_order text ips ≡ₚ text <$> ips.
Proof.
  destruct ips as [|a r]; [done|]. unfold happy_order. rewrite interleave_perm, <- fmap_app. apply fmap_Permutation.
  generalize (a :: r). intros l. induction l as [|b l IH]; [done|]. rewrite !filter_cons.
  destruct (same_family b a) eqn:E; (rewrite decide_True by done; rewrite decide_False by done) || (rewrite decide_False by done; rewrite decide_True by done).
  - cbn. by constructor.
  - rewrite <- Permutation_middle. by constructor.
Qed.

Lemma uniq_NoDup seen ips : NoDup (Addr_String <$> uniq seen ips) /\ forall ip, ip ∈ uniq seen ips -> Addr_String ip ∉ seen.
Proof.
  revert seen. induction ips as [|ip ips IH]; intros seen; cbn [uniq]; [split; [constructor|intros ? H; inversion H]|].
  case_bool_decide as Hs; [apply IH|]. destruct (IH ({[Addr_String ip]} ∪ seen)) as [Hn Hd]. split.
  - rewrite fmap_cons. constructor; [|done]. intros (x & Hx & Hin)%list_elem_of_fmap. apply Hd in Hin. set_solver.
  - intros x [->|Hx]%elem_of_cons; [done|]. apply Hd in Hx. set_solver.
Qed.

Lemma uniq_covers seen ips ip : ip ∈ ips -> Addr_String ip ∈ seen \/ exists a, a ∈ uniq seen ips /\ Addr_String a = Addr_String ip.
Proof.
  revert seen. induction ips as [|x ips IH]; intros seen Hin; [inversion Hin|]. cbn [uniq].
  apply elem_of_cons in Hin as [<-|Hin].
  - case_bool_decide; [by left|]. right. exists ip. split; [by left|done].
  - case_bool_decide; [by apply IH|]. destruct (IH ({[Addr_String x]} ∪ seen) Hin) as [[->%elem_of_singleton|?]%elem_of_union|(a & ? & ?)].
    + right. exists x. split; [by left|done].
    + by left.
    + right. exists a. split; [by right|done].
Qed.

(** Resolving a name for a dial fails, or returns every address the resolver gave exactly once, IPv4-mapped ones as IPv4, ordered so that the two families alternate, starting with the family of the first answer and keeping the resolver's order within each. *)
Theorem resolve_alternates lookup_host lookup_ip (addr host port : string) (cfg : dnsResolverConfig) (out : list string)
    (Hsplit : SplitHostPort addr = Some (host, port)) (Hname : ParseAddr host = None)
    (Hok : resolveDialAddresses lookup_host lookup_ip addr cfg = Ok out) :
  exists addresses ips,
    lookup_addresses lookup_host lookup_ip host cfg = Ok addresses /\ parsed addresses ips /\
    let text a := JoinHostPort (Addr_String a) port in
    out <> [] /\ out = happy_order text (uniq ∅ ips) /\ out ≡ₚ text <$> uniq ∅ ips /\
    NoDup (Addr_String <$> uniq ∅ ips) /\ (forall ip, ip ∈ ips -> exists a, a ∈ uniq ∅ ips /\ Addr_String a = Addr_String ip).
Proof.
  unfold resolveDialAddresses in Hok. rewrite Hsplit, Hname in Hok.
  destruct (lookup_addresses _ _ host cfg) as [addresses|]; [|done]. case_bool_decide as Hne; [done|].
  destruct (add_addresses port _ addresses) as [f|] eqn:E; [|done]. injection Hok as <-.
  destruct (add_addresses_spec _ _ _ Hne E) as (ips & Hp & Hi & ->). exists addresses, ips. split; [done|]. split; [done|]. cbv zeta.
  split; [|split; [done|split; [apply happy_order_perm|split; [apply uniq_NoDup|]]]].
  - destruct ips as [|a ips]; [done|]. rewrite uniq_head. intros H. pose proof (happy_order_perm (fun a => JoinHostPort (Addr_String a) port) (a :: uniq {[Addr_String a]} ips)) as Hperm.
    rewrite H in Hperm. apply Permutation_nil in Hperm. by rewrite fmap_cons in Hperm.
  - intros ip Hin. by destruct (uniq_covers ∅ ips ip Hin) as [?%elem_of_empty|?].
Qed.

Definition sample_lookup (host : string) : result string (list (list byte * string)) :=
  Ok [([x0a; x00; x00; x01], ""); ([x0a; x00; x00; x02], ""); (replicate 15 x00 ++ [x01], ""); (v4InV6Prefix ++ [x0a; x00; x00; x01], "")].

Definition no_dns : dnsResolverConfig := MkDNSResolver "" false "" false false false.

Lemma resolve_alternates_witness :
  resolveDialAddresses (fun _ _ => Ok []) sample_lookup "engine.example:443" no_dns = Ok ["10.0.0.1:443"; "[::1]:443"; "10.0.0.2:443"] /\
  exists ips, ["10.0.0.1:443"; "[::1]:443"; "10.0.0.2:443"] ≡ₚ (fun a => JoinHostPort (Addr_String a) "443") <$> uniq ∅ ips.
Proof.
  assert (H : resolveDialAddresses (fun _ _ => Ok []) sample_lookup "engine.example:443" no_dns = Ok ["10.0.0.1:443"; "[::1]:443"; "10.0.0.2:443"]) by (vm_compute; reflexivity).
  split; [exact H|]. destruct (resolve_alternates (fun _ _ => Ok []) sample_lookup "engine.example:443" "engine.example" "443" no_dns _ ltac:(reflexivity) ltac:(reflexivity) H) as (adr & ips & _ & _ & Hs).
  exists ips. apply Hs.
Defined.

(** *** Every pair of a target and a proxy is one route *)

Definition proxy_index (r : dialRoutes) (i : nat) : nat := (i mod length (rs_proxies r))%nat.
Definition target_index (r : dialRoutes) (i : nat) : nat := ((i / length (rs_proxies r) + proxy_index r i) mod length (rs_targets r))%nat.

Lemma route_indices (nt np : nat) : (0 < nt)%nat -> (0 < np)%nat ->
  forall i j, (i < nt * np)%nat -> (j < nt * np)%nat -> (i mod np = j mod np)%nat ->
  ((i / np + i mod np) mod nt = (j / np + j mod np) mod nt)%nat -> i = j.
Proof.
  intros Ht Hp i j Hi Hj Hm Hq. rewrite Hm in Hq.
  assert (i / np < nt)%nat by (apply Nat.Div0.div_lt_upper_bound; lia). assert (j / np < nt)%nat by (apply Nat.Div0.div_lt_upper_bound; lia).
  assert (Hd : (i / np = j / np)%nat).
  { pose proof (Nat.div_mod (i / np + j mod np) nt ltac:(lia)) as E1. pose proof (Nat.div_mod (j / np + j mod np) nt ltac:(lia)) as E2.
    rewrite Hq in E1. set (u := ((i / np + j mod np) / nt)%nat) in *. set (v := ((j / np + j mod np) / nt)%nat) in *.
    destruct (Nat.lt_trichotomy u v) as [|[->|]]; [nia|lia|nia]. }
  rewrite (Nat.div_mod i np), (Nat.div_mod j np) by lia. by rewrite Hd, Hm.
Qed.

Lemma route_found (nt np t p : nat) : (t < nt)%nat -> (p < np)%nat ->
  exists i, (i < nt * np)%nat /\ (i mod np = p)%nat /\ ((i / np + i mod np) mod nt = t)%nat.
Proof.
  intros Ht Hp. set (q := ((t + nt * p - p) mod nt)%nat). assert (q < nt)%nat by (apply Nat.mod_upper_bound; lia).
  exists (np * q + p)%nat. rewrite Nat.add_comm, Nat.mul_comm, Nat.Div0.mod_add, Nat.div_add by lia.
  rewrite (Nat.mod_small p np), (Nat.div_small p np) by lia. split; [nia|]. split; [done|].
  unfold q. rewrite Nat.add_0_l, Nat.Div0.add_mod_idemp_l. replace (t + nt * p - p + p)%nat with (t + p * nt)%nat by nia.
  rewrite Nat.Div0.mod_add. by apply Nat.mod_small.
Qed.

Lemma resolve_nonempty lookup_host lookup_ip addr cfg out : resolveDialAddresses lookup_host lookup_ip addr cfg = Ok out -> out <> [].
Proof.
  unfold resolveDialAddresses. destruct (SplitHostPort addr) as [[host port]|]; [|done]. destruct (ParseAddr host) as [ip|].
  { destruct (_ && _); [done|]. destruct (_ && _); [done|]. by intros [= <-]. }
  destruct (lookup_addresses _ _ host cfg) as [addresses|]; [|done]. case_bool_decide as Hne; [done|].
  destruct (add_addresses port _ addresses) as [f|] eqn:E; [|done]. intros [= <-].
  destruct (add_addresses_spec _ _ _ Hne E) as (ips & _ & Hi & ->). destruct ips as [|a ips]; [done|]. rewrite uniq_head. intros H.
  pose proof (happy_order_perm (fun a => JoinHostPort (Addr_String a) port) (a :: uniq {[Addr_String a]} ips)) as Hperm.
  rewrite H in Hperm. apply Permutation_nil in Hperm. by rewrite fmap_cons in Hperm.
Qed.

(** Prepared routes enumerate every pair of a target and a proxy address exactly once, indexing never goes out of range, the proxies are tried in turn, and behind a proxy without DNS settings the name of the target is left to the proxy. *)
Theorem routes_enumerate lookup_host lookup_ip addr proxyHTTP proxySOCKS5 cfg (r : dialRoutes)
    (Hok : prepareDialRoutes lookup_host lookup_ip addr proxyHTTP proxySOCKS5 cfg = Ok r) :
  (0 < count r)%nat /\
  (forall i, exists t p, rs_targets r !! target_index r i = Some t /\ rs_proxies r !! proxy_index r i = Some p /\ at_ r i = Some (MkRoute t p)) /\
  (forall i j, (i < count r)%nat -> (j < count r)%nat -> target_index r i = target_index r j -> proxy_index r i = proxy_index r j -> i = j) /\
  (forall t p, (t < length (rs_targets r))%nat -> (p < length (rs_proxies r))%nat -> exists i, (i < count r)%nat /\ target_index r i = t /\ proxy_index r i = p) /\
  (proxyHTTP = "" -> proxySOCKS5 = "" -> rs_proxies r = [""]) /\
  (forall proxy, proxy_address proxyHTTP proxySOCKS5 = Ok proxy -> proxy <> "" -> dns_enabled cfg = false -> rs_targets r = [addr]).
Proof.
  unfold prepareDialRoutes in Hok. destruct (_ && _); [done|]. destruct (proxy_address proxyHTTP proxySOCKS5) as [proxy|] eqn:Ep; [|done].
  assert (Hne : forall a l, resolve_for lookup_host lookup_ip a cfg = Ok l -> l <> []).
  { intros a l. unfold resolve_for. destruct (resolveDialAddresses _ _ a cfg) eqn:E; [|done]. intros [= <-]. by eapply resolve_nonempty. }
  destruct (if bool_decide (proxy = "") || dns_enabled cfg then _ else _) as [targets|] eqn:Et; [|done].
  destruct (if negb (bool_decide (proxy = "")) then _ else _) as [proxies|] eqn:Epx; [|done]. injection Hok as <-.
  assert (Ht : targets <> []) by (destruct (_ || _); [by eapply Hne|by injection Et as <-]).
  assert (Hp : proxies <> []) by (destruct (negb _); [by eapply Hne|by injection Epx as <-]).
  assert (Hlt : (0 < length targets)%nat) by (destruct targets; [done|cbn; lia]). assert (Hlp : (0 < length proxies)%nat) by (destruct proxies; [done|cbn; lia]).
  unfold count, target_index, proxy_index, at_. cbn [rs_targets rs_proxies]. repeat split.
  - nia.
  - intros i. assert (Hi : (i mod length proxies < length proxies)%nat) by (apply Nat.mod_upper_bound; lia).
    assert (Hj : ((i / length proxies + i mod length proxies) mod length targets < length targets)%nat) by (apply Nat.mod_upper_bound; lia).
    apply lookup_lt_is_Some in Hi as [p Ep']. apply lookup_lt_is_Some in Hj as [t Et']. exists t, p. rewrite Ep', Et'. repeat split; try done.
    destruct (Nat.eqb_spec (length proxies) 0), (Nat.eqb_spec (length targets) 0); try lia. cbn [orb]. done.
  - intros i j Hi Hj H1 H2. by apply (route_indices (length targets) (length proxies)).
  - intros t p H1 H2. destruct (route_found (length targets) (length proxies) t p H1 H2) as (i & ? & ? & ?). eauto.
  - intros -> ->. cbn in Ep. injection Ep as <-. cbn in Epx. by injection Epx as <-.
  - intros ? [= <-] Hproxy Hd. rewrite (bool_decide_false _ Hproxy), Hd in Et. cbn in Et. by injection Et as <-.
Qed.

Lemma routes_enumerate_witness : exists r,
  prepareDialRoutes (fun _ _ => Ok []) sample_lookup "engine.example:443" "http://proxy.example:3128" "" no_dns = Ok r /\
  rs_targets r = ["engine.example:443"] /\ (0 < count r)%nat.
Proof.
  destruct (prepareDialRoutes (fun _ _ => Ok []) sample_lookup "engine.example:443" "http://proxy.example:3128" "" no_dns) as [r|] eqn:E; [|vm_compute in E; discriminate].
  exists r. destruct (routes_enumerate _ _ _ _ _ _ _ E) as (Hc & _ & _ & _ & _ & Ht). split; [reflexivity|]. split; [|exact Hc].
  apply (Ht "proxy.example:3128"); [vm_compute; reflexivity|discriminate|reflexivity].
Defined.
