(* ===== verification/DialRace.v ===== *)
(** * DialRace: the race of dial routes ([raceDialRoutes] of [dial_routes.go])

    The loop starts a route, another one after a delay or a failure, never more than
    two at a time, and returns the first connection; whatever the others produce is
    closed.  A goroutine that dials, the timer, the parent context and the loop take
    steps in any order ([race_step]).  A connection is named by the index of the route
    that opened it. *)

From S2P Require Import Prelude DialRoutes.

Definition dialFallbackDelay : Z := 250 * 1000000.
Definition defaultDialTimeout : Z := 30 * 1000000000.

(** [dialSetupContext]: the deadline of a dial, given the caller's. *)
Definition dialSetupContext (deadline : option Z) (now : Z) : Z := match deadline with Some d => d | None => now + defaultDialTimeout end.

(** The time an attempt is given; [None] is a division by zero.  [remaining] is the
    time until the deadline of the context, if it has one. *)
Definition attempt_budget (remaining : option Z) (count index : Z) : option Z :=
  match remaining with
  | None => Some defaultDialTimeout
  | Some remaining =>
      let parts := Z.quot (count - index + 1) 2 in
      if parts =? 0 then None else Some (Z.min (Z.max (2 * 1000000000) (Z.quot remaining parts)) remaining)
  end.

Section Race.
Context {E : Type} (n : nat).

Inductive timer := Armed | Fired | Off.

(** [None] is a connection, [Some e] an error. *)
Definition dialResult : Type := nat * option E.

Inductive after_drain := AfterContext | AfterWinner (i : nat).

Inductive outcome := OConn (i : nat) | OContext | OFailed (firstErr : option E).

Inductive pc := Loop | Drain (k : after_drain) | Returned (o : outcome).

Record race := MkRace {
  ra_next : nat;
  ra_active : nat;
  ra_dialing : gset nat;  (** the goroutines whose dial has not returned *)
  ra_results : list dialResult;  (** the buffered channel *)
  ra_pc : pc;
  ra_firstErr : option E;
  ra_timer : timer;
  ra_parent : bool;  (** whether the parent context is done *)
  ra_cancelled : bool;  (** whether [cancel] was called *)
  ra_open : gset nat;  (** connections that are open *)
  ra_closes : list nat;  (** the calls of [closeValue] *)
}.

(** The closure [start]. *)
Definition start (s : race) : race :=
  {| s with ra_next := S (ra_next s); ra_active := S (ra_active s); ra_dialing := {[ra_next s]} ∪ ra_dialing s |}.

Definition close_conn (i : nat) (s : race) : race := {| s with ra_open := ra_open s ∖ {[i]}; ra_closes := ra_closes s ++ [i] |}.

(** The entry of [raceDialRoutes]. *)
Definition raceDialRoutes (parent : bool) : race :=
  let s := MkRace 0 0 ∅ [] Loop None Off parent false ∅ [] in
  if parent then {| s with ra_pc := Returned OContext |} else {| (start s) with ra_timer := Armed |}.

Inductive event := EParent | ETimer | EFinish (i : nat) (r : option E) | ELoopDone | ELoopTimer | ELoopResult | ELoopExit | EDrain | EDrainEnd.

(** A dial returns and its goroutine sends the result; the send blocks on a full channel. *)
Definition finish (i : nat) (r : option E) (s : race) : option race :=
  if bool_decide (i ∈ ra_dialing s) && (length (ra_results s) <? 2)%nat then
    Some {| s with ra_dialing := ra_dialing s ∖ {[i]}; ra_results := ra_results s ++ [(i, r)];
                   ra_open := match r with None => {[i]} ∪ ra_open s | Some _ => ra_open s end |}
  else None.

Definition in_loop (s : race) : bool := match ra_pc s with Loop => true | _ => false end.

(** The cases of [select], while [active > 0]. *)
Definition loop_done (s : race) : option race :=
  if in_loop s && (0 <? ra_active s)%nat && (ra_parent s || ra_cancelled s) then Some {| s with ra_cancelled := true; ra_pc := Drain AfterContext |} else None.

Definition loop_timer (s : race) : option race :=
  if in_loop s && (0 <? ra_active s)%nat then
    match ra_timer s with
    | Fired =>
        let s := {| s with ra_timer := Off |} in
        Some (if (ra_next s <? n)%nat && (ra_active s <? 2)%nat then start s else s)
    | _ => None
    end
  else None.

Definition loop_result (s : race) : option race :=
  if in_loop s && (0 <? ra_active s)%nat then
    match ra_results s with
    | [] => None
    | (i, r) :: rest =>
        let s := {| s with ra_results := rest; ra_active := pred (ra_active s) |} in
        match r with
        | None => Some {| s with ra_cancelled := true; ra_pc := Drain (AfterWinner i) |}
        | Some e =>
            let s := match ra_firstErr s with None => {| s with ra_firstErr := Some e |} | Some _ => s end in
            Some (if (ra_next s <? n)%nat then
                    let s := start s in
                    if (ra_active s <? 2)%nat then {| s with ra_timer := Armed |} else s
                  else s)
        end
    end
  else None.

Definition loop_exit (s : race) : option race :=
  if in_loop s && (ra_active s =? 0)%nat then
    Some {| s with ra_cancelled := true; ra_pc := Returned (if ra_parent s then OContext else OFailed (ra_firstErr s)) |}
  else None.

(** A turn of the loop of [drain]. *)
Definition drain (s : race) : option race :=
  match ra_pc s, ra_results s with
  | Drain _, (i, r) :: rest =>
      if (0 <? ra_active s)%nat then
        let s := {| s with ra_results := rest; ra_active := pred (ra_active s) |} in
        Some (match r with None => close_conn i s | Some _ => s end)
      else None
  | _, _ => None
  end.

(** What follows [drain]. *)
Definition drain_end (s : race) : option race :=
  match ra_pc s with
  | Drain k =>
      if (ra_active s =? 0)%nat then
        match k with
        | AfterContext => Some {| s with ra_pc := Returned OContext |}
        | AfterWinner i =>
            Some (if ra_parent s then {| (close_conn i s) with ra_pc := Returned OContext |} else {| s with ra_pc := Returned (OConn i) |})
        end
      else None
  | _ => None
  end.

Definition race_step (e : event) (s : race) : option race :=
  match e with
  | EParent => if ra_parent s then None else Some {| s with ra_parent := true |}
  | ETimer => match ra_timer s with Armed => Some {| s with ra_timer := Fired |} | _ => None end
  | EFinish i r => finish i r s
  | ELoopDone => loop_done s
  | ELoopTimer => loop_timer s
  | ELoopResult => loop_result s
  | ELoopExit => loop_exit s
  | EDrain => drain s
  | EDrainEnd => drain_end s
  end.

Definition race_moves (s s' : race) : Prop := exists e, race_step e s = Some s'.
Definition race_reachable (s : race) : Prop := exists parent, rtc race_moves (raceDialRoutes parent) s.

(** ** Invariant *)

Definition connections (l : list dialResult) : gset nat := list_to_set (omap (fun x : dialResult => match x.2 with None => Some x.1 | Some _ => None end) l).

(** The connection the loop has taken from the channel. *)
Definition held (p : pc) : gset nat := match p with Drain (AfterWinner i) | Returned (OConn i) => {[i]} | _ => ∅ end.

Record race_core (s : race) : Prop := {
  ri_active : ra_active s = (size (ra_dialing s) + length (ra_results s))%nat;
  ri_two : (ra_active s <= 2)%nat;
  ri_next : (ra_next s <= n)%nat;
  ri_dialing : forall i, i ∈ ra_dialing s -> (i < ra_next s)%nat;
  ri_results : forall i r, (i, r) ∈ ra_results s -> (i < ra_next s)%nat /\ i ∉ ra_dialing s;
  ri_nodup : NoDup (ra_results s).*1;
  ri_open : ra_open s = connections (ra_results s) ∪ held (ra_pc s);
  ri_held : forall i, i ∈ held (ra_pc s) -> (i < ra_next s)%nat /\ i ∉ ra_dialing s /\ i ∉ (ra_results s).*1;
  ri_closes : NoDup (ra_closes s);
  ri_closed : forall i, i ∈ ra_closes s -> (i < ra_next s)%nat /\ i ∉ ra_dialing s /\ i ∉ (ra_results s).*1 /\ i ∉ held (ra_pc s);
  ri_drain : ra_pc s = Drain AfterContext -> ra_parent s = true;
  ri_idle : ra_pc s = Loop -> ra_cancelled s = false /\ ra_closes s = [];
  ri_returned : forall o, ra_pc s = Returned o ->
    ra_active s = 0%nat /\
    match o with
    | OContext => ra_parent s = true
    | OFailed e => e <> None /\ ra_next s = n /\ ra_closes s = []
    | OConn _ => True
    end;
}.

(** The loop is left only when every route has failed. *)
Definition race_inv (s : race) : Prop :=
  race_core s /\ (ra_pc s = Loop -> (0 < ra_active s)%nat \/ ra_firstErr s <> None /\ ra_next s = n).

Lemma connections_app a b : connections (a ++ b) = connections a ∪ connections b.
Proof. unfold connections. by rewrite omap_app, list_to_set_app_L. Qed.

Lemma connections_in i l : i ∈ connections l <-> (i, None) ∈ l.
Proof.
  unfold connections. rewrite elem_of_list_to_set, list_elem_of_omap. split.
  - intros ([j [e|]] & Hin & Hj); [done|]. by injection Hj as ->.
  - intros H. by exists (i, None).
Qed.

Lemma connections_indices i l : i ∈ connections l -> i ∈ l.*1.
Proof. intros H%connections_in. apply list_elem_of_fmap. by exists (i, None). Qed.

(** Starting a route. *)
Lemma start_core s : race_core s -> (ra_next s < n)%nat -> (ra_active s < 2)%nat -> (forall o, ra_pc s <> Returned o) -> race_core (start s).
Proof.
  intros [] Hn Ha Hr. assert (ra_next s ∉ ra_dialing s) by (intros ?%ri_dialing0; lia).
  assert (Hres : ra_next s ∉ (ra_results s).*1) by (intros ([i r] & Heq & Hin)%list_elem_of_fmap; apply ri_results0 in Hin as [? _]; cbn in *; lia).
  constructor; cbn [start ra_next ra_active ra_dialing ra_results ra_pc ra_firstErr ra_timer ra_parent ra_cancelled ra_open ra_closes]; try done; try lia.
  - rewrite size_union, size_singleton by set_solver. lia.
  - intros i [->%elem_of_singleton|?%ri_dialing0]%elem_of_union; lia.
  - intros i r Hin. pose proof (list_elem_of_fmap_2 fst _ _ Hin). apply ri_results0 in Hin as [? ?]. cbn in *. split; [lia|]. set_solver.
  - intros i Hin. apply ri_held0 in Hin as (? & ? & ?). split; [lia|]. split; [|done]. intros [->%elem_of_singleton|?]%elem_of_union; [lia|done].
  - intros i Hin. apply ri_closed0 in Hin as (? & ? & ? & ?). split; [lia|]. split; [|done]. intros [->%elem_of_singleton|?]%elem_of_union; [lia|done].
  - intros o Ho. by destruct (Hr o).
Qed.

(** Splits the invariant of an updated state into its fields. *)
Ltac race_fields :=
  constructor; cbn [ra_next ra_active ra_dialing ra_results ra_pc ra_firstErr ra_timer ra_parent ra_cancelled ra_open ra_closes start close_conn held] in *; try done; try lia.

Lemma finish_core i r s s' : race_core s -> finish i r s = Some s' -> race_core s'.
Proof.
  intros [] H. unfold finish in H. case_bool_decide as Hi; [|done]. destruct (Nat.ltb_spec (length (ra_results s)) 2); [|done].
  injection H as <-. assert (Hres : i ∉ (ra_results s).*1) by (intros ([j e] & -> & Hin)%list_elem_of_fmap; apply ri_results0 in Hin as [_ ?]; done).
  assert (Hsz : (size (ra_dialing s ∖ {[i]}) + 1 = size (ra_dialing s))%nat).
  { rewrite size_difference by set_solver. rewrite size_singleton. assert (size (ra_dialing s) <> 0%nat) by (intros ?%size_empty_inv; set_solver). lia. }
  race_fields.
  - rewrite length_app. cbn. lia.
  - intros j Hj. apply ri_dialing0. set_solver.
  - intros j e [Hin|[= -> ->]%list_elem_of_singleton]%elem_of_app; [apply ri_results0 in Hin; set_solver|]. split; [by apply ri_dialing0|set_solver].
  - rewrite fmap_app. apply NoDup_app. split; [done|]. cbn. split; [|apply NoDup_singleton]. intros j Hj ->%list_elem_of_singleton. done.
  - rewrite connections_app, ri_open0. destruct r; cbn; set_solver.
  - intros j Hj. rewrite fmap_app. apply ri_held0 in Hj as (? & ? & ?). set_solver.
  - intros j Hj. rewrite fmap_app. apply ri_closed0 in Hj as (? & ? & ? & ?). set_solver.
Qed.

(** Taking a result from the channel. *)
Lemma pop_facts s i r rest : race_core s -> ra_results s = (i, r) :: rest ->
  ra_active s = (size (ra_dialing s) + S (length rest))%nat /\ (i ∉ rest.*1) /\ i ∉ ra_dialing s /\ (i < ra_next s)%nat /\
  (i ∉ ra_closes s) /\ (i ∉ held (ra_pc s)) /\ (forall j e, (j, e) ∈ rest -> (j < ra_next s)%nat /\ j ∉ ra_dialing s) /\ NoDup (rest.*1) /\
  connections (ra_results s) = (match r with None => {[i]} | Some _ => ∅ end) ∪ connections rest.
Proof.
  intros [] H. rewrite H in *. cbn [length] in *. rewrite fmap_cons in *. apply NoDup_cons in ri_nodup0 as [Hi Hn]. destruct (ri_results0 i r ltac:(by left)) as [Hlt Hd].
  split; [exact ri_active0|]. split; [done|]. split; [done|]. split; [done|]. split; [intros Hc; apply ri_closed0 in Hc; set_solver|].
  split; [intros Hh; apply ri_held0 in Hh; set_solver|]. split; [intros j e Hin; apply (ri_results0 j e); by right|]. split; [done|].
  unfold connections. destruct r; cbn; set_solver.
Qed.

Lemma pop_core s i r rest fe p : race_core s -> ra_results s = (i, r) :: rest ->
  ra_pc s = Loop -> p = match r with None => Drain (AfterWinner i) | Some _ => Loop end ->
  race_core {| s with ra_results := rest; ra_active := pred (ra_active s); ra_firstErr := fe; ra_pc := p; ra_cancelled := match r with None => true | Some _ => false end |}.
Proof.
  intros Hc Hres Hpc ->. destruct (pop_facts s i r rest Hc Hres) as (Hact & Hir & Hid & Hin & Hic & Hih & Hrest & Hnd & Hconn). destruct Hc.
  rewrite Hpc in *. race_fields.
  - rewrite Hact, Nat.add_succ_r. reflexivity.
  - rewrite ri_open0, Hconn. destruct r; cbn; set_solver.
  - intros j Hj. destruct r; cbn in Hj; [set_solver|]. apply elem_of_singleton in Hj as ->. done.
  - intros j Hj. apply ri_closed0 in Hj as Hk. rewrite Hres, fmap_cons in Hk. destruct r; cbn in *; set_solver.
  - by destruct r.
  - destruct r; [|done]. intros _. by destruct (ri_idle0 eq_refl).
  - by destruct r.
Qed.

Lemma drain_core s s' : race_core s -> drain s = Some s' -> race_core s' /\ ra_pc s' <> Loop.
Proof.
  intros Hc H. unfold drain in H. destruct (ra_pc s) as [|k|o] eqn:Hpc; try done. destruct (ra_results s) as [|[i r] rest] eqn:Hres; [done|].
  destruct (0 <? ra_active s)%nat; [|done]. injection H as <-.
  destruct (pop_facts s i r rest Hc Hres) as (Hact & Hir & Hid & Hin & Hic & Hih & Hrest & Hnd & Hconn).
  split; [|by destruct r]. destruct Hc. rewrite Hpc in *. destruct r as [e|]; race_fields.
  all: try (rewrite Hact, Nat.add_succ_r; reflexivity).
  - rewrite ri_open0, Hconn. set_solver.
  - intros j Hj. apply ri_held0 in Hj. rewrite Hres, fmap_cons in Hj. set_solver.
  - intros j Hj. apply ri_closed0 in Hj. rewrite Hres, fmap_cons in Hj. set_solver.
  - assert (i ∉ connections rest) by (intros ?%connections_indices; done). rewrite ri_open0, Hconn. set_solver.
  - intros j Hj. apply ri_held0 in Hj. rewrite Hres, fmap_cons in Hj. set_solver.
  - apply NoDup_app. split; [done|]. split; [|apply NoDup_singleton]. intros j Hj ->%list_elem_of_singleton. done.
  - intros j [Hj| ->%list_elem_of_singleton]%elem_of_app; [|done]. apply ri_closed0 in Hj. rewrite Hres, fmap_cons in Hj. set_solver.
Qed.

Lemma drain_end_core s s' : race_core s -> drain_end s = Some s' -> race_core s' /\ exists o, ra_pc s' = Returned o.
Proof.
  intros [] H. unfold drain_end in H. destruct (ra_pc s) as [|k|o] eqn:Hpc; try done. destruct (Nat.eqb_spec (ra_active s) 0) as [Ha|]; [|done].
  assert (Hres : ra_results s = []) by (destruct (ra_results s); [done|cbn in *; lia]). destruct k as [|i]; [|destruct (ra_parent s) eqn:Hp]; injection H as <-; (split; [|eauto]).
  all: rewrite Hres in *; race_fields.
  all: try (intros o [= <-]; split; [done|]; auto).
  - rewrite ri_open0. cbn. set_solver.
  - apply NoDup_app. split; [done|]. split; [|apply NoDup_singleton]. intros j Hj ->%list_elem_of_singleton. apply ri_closed0 in Hj. set_solver.
  - intros j [Hj| ->%list_elem_of_singleton]%elem_of_app; [apply ri_closed0 in Hj; set_solver|]. destruct (ri_held0 i ltac:(set_solver)) as (? & ? & ?). set_solver.
Qed.

Lemma race_init parent : (0 < n)%nat -> race_inv (raceDialRoutes parent).
Proof.
  intros Hn. assert (Hz : forall p, p = Loop \/ p = Returned OContext /\ parent = true -> race_core (MkRace 0 0 ∅ [] p None Off parent false ∅ [])).
  { intros p [-> |[-> ->]]; constructor; cbn; try done; try lia; try set_solver; try apply NoDup_nil_2. }
  destruct parent; cbn [raceDialRoutes].
  - split; [|done]. apply (Hz (Returned OContext)). auto.
  - assert (Hs : race_core (start (MkRace 0 0 ∅ [] Loop None Off false false ∅ []))) by (apply start_core; cbn; try lia; [apply Hz; auto|done]).
    split; [|left; cbn; lia]. destruct Hs. race_fields.
Qed.

Lemma in_loop_pc s : in_loop s = true -> ra_pc s = Loop.
Proof. unfold in_loop. by destruct (ra_pc s). Qed.

Lemma race_step_inv e s s' : race_step e s = Some s' -> race_inv s -> race_inv s'.
Proof.
  intros H [Hc Hl]. destruct e as [| |i r| | | | | |]; cbn [race_step] in H.
  - destruct (ra_parent s); [done|]. injection H as <-. split; [|done]. destruct Hc. race_fields. intros o Ho. destruct (ri_returned0 o Ho) as [? ?]. by destruct o.
  - destruct (ra_timer s); try done. injection H as <-. split; [|done]. by destruct Hc; race_fields.
  - split; [by eapply finish_core|]. unfold finish in H. destruct (_ && _); [|done]. by injection H as <-.
  - unfold loop_done in H. destruct (in_loop s) eqn:Hil; [apply in_loop_pc in Hil as Hpc; cbn [andb] in H|done]. destruct (_ && _) eqn:Hb; [|done]. injection H as <-.
    apply andb_true_iff in Hb as [_ Hb]. split; [|done]. destruct Hc. rewrite Hpc in *. race_fields. intros _. by rewrite (proj1 (ri_idle0 eq_refl)), orb_false_r in Hb.
  - unfold loop_timer in H. destruct (in_loop s) eqn:Hil; [apply in_loop_pc in Hil as Hpc; cbn [andb] in H|done]. destruct (Nat.ltb_spec 0 (ra_active s)) as [Ha|]; [|done].
    destruct (ra_timer s); try done. injection H as <-. assert (Hoff : race_core {| s with ra_timer := Off |}) by (by destruct Hc; race_fields).
    destruct (Nat.ltb_spec (ra_next s) n), (Nat.ltb_spec (ra_active s) 2); cbn; (split; [|intros _; left; cbn; lia]);
      [apply (start_core _ Hoff); cbn; [lia|lia|by rewrite Hpc]|exact Hoff..].
  - unfold loop_result in H. destruct (in_loop s) eqn:Hil; [apply in_loop_pc in Hil as Hpc; cbn [andb] in H|done]. destruct (Nat.ltb_spec 0 (ra_active s)) as [Ha|]; [|done].
    destruct (ra_results s) as [|[i r] rest] eqn:Hres; [done|].
    pose proof (pop_core s i r rest (match r with Some e => match ra_firstErr s with None => Some e | x => x end | None => ra_firstErr s end) _ Hc Hres Hpc eq_refl) as Hp.
    destruct (ri_idle _ Hc Hpc) as [Hcan _]. pose proof (ri_next _ Hc) as Hnx. pose proof (ri_two _ Hc) as Htwo. destruct r as [e|].
    + set (s1 := {| s with ra_results := rest; ra_active := pred (ra_active s); ra_firstErr := match ra_firstErr s with None => Some e | x => x end |}).
      assert (H1 : race_core s1) by (destruct s; cbn in *; subst; exact Hp).
      assert (H' : s' = if (ra_next s1 <? n)%nat then if (ra_active (start s1) <? 2)%nat then {| (start s1) with ra_timer := Armed |} else start s1 else s1).
      { apply (inj Some). rewrite <- H. unfold s1. destruct s; cbn in *. destruct ra_firstErr0; subst; done. }
      rewrite H'. clear H' H s'. destruct (Nat.ltb_spec (ra_next s1) n) as [Hlt|Hge].
      * assert (Hs : race_core (start s1)) by (apply (start_core _ H1); [done|cbn; lia|cbn; by rewrite Hpc]).
        destruct (ra_active (start s1) <? 2)%nat; (split; [|intros _; left; apply Nat.lt_0_succ]); [|done]. destruct Hs. race_fields.
      * split; [done|]. intros _. right. cbn in *. split; [by destruct (ra_firstErr s)|lia].
    + injection H as <-. split; [|done]. destruct s; cbn in *; subst; exact Hp.
  - unfold loop_exit in H. destruct (in_loop s) eqn:Hil; [apply in_loop_pc in Hil as Hpc; cbn [andb] in H|done]. destruct (Nat.eqb_spec (ra_active s) 0) as [Ha|]; [|done]. injection H as <-.
    destruct (Hl Hpc) as [?|[He Hn]]; [lia|]. split; [|done]. destruct Hc. rewrite Hpc in *.
    destruct (ra_parent s) eqn:Hp; race_fields; intros o [= <-]; [auto|]. destruct (ri_idle0 eq_refl). auto.
  - apply (drain_core _ _ Hc) in H as [H1 H2]. split; [done|]. intros Hl'. by destruct H2.
  - apply (drain_end_core _ _ Hc) in H as [H1 [o H2]]. split; [done|]. by rewrite H2.
Qed.

Lemma race_reachable_inv s : (0 < n)%nat -> race_reachable s -> race_inv s.
Proof. intros Hn [parent H]. eapply rtc_invariant; [|exact H|by apply race_init]. intros s1 s2 [e He]. by eapply race_step_inv. Qed.

(** ** Termination *)

Definition measure (s : race) : nat :=
  (6 * (n - ra_next s) + 3 * size (ra_dialing s) + 2 * length (ra_results s) + match ra_timer s with Armed => 2 | Fired => 1 | Off => 0 end
   + (if ra_parent s then 0 else 1) + match ra_pc s with Loop => 2 | Drain _ => 1 | Returned _ => 0 end)%nat.

Lemma size_start (s : race) : race_core s -> size ({[ra_next s]} ∪ ra_dialing s) = S (size (ra_dialing s)).
Proof. intros Hc. rewrite size_union, size_singleton; [done|]. intros i ->%elem_of_singleton H%(ri_dialing _ Hc). lia. Qed.

Lemma measure_start (s : race) : race_core s -> (ra_next s < n)%nat -> (measure (start s) + 3 = measure s)%nat.
Proof. intros Hc Hn. unfold measure. cbn [start ra_next ra_dialing ra_results ra_timer ra_parent ra_pc]. rewrite size_start by done. lia. Qed.

Lemma measure_decreases e s s' : race_inv s -> race_step e s = Some s' -> (measure s' < measure s)%nat.
Proof.
  intros [Hc Hl] H. destruct e as [| |i r| | | | | |]; cbn [race_step] in H.
  - destruct (ra_parent s) eqn:Hp; [done|]. injection H as <-. unfold measure. cbn [ra_next ra_dialing ra_results ra_timer ra_parent ra_pc]. rewrite Hp. lia.
  - destruct (ra_timer s) eqn:Ht; try done. injection H as <-. unfold measure. cbn [ra_next ra_dialing ra_results ra_timer ra_parent ra_pc]. rewrite Ht. lia.
  - unfold finish in H. case_bool_decide as Hi; [|done]. destruct (_ <? _)%nat; [|done]. injection H as <-. unfold measure. cbn [ra_next ra_dialing ra_results ra_timer ra_parent ra_pc].
    rewrite length_app, size_difference, size_singleton by set_solver. assert (size (ra_dialing s) <> 0%nat) by (intros ?%size_empty_inv; set_solver). cbn [length]. lia.
  - unfold loop_done in H. destruct (in_loop s) eqn:Hil; [apply in_loop_pc in Hil as Hpc; cbn [andb] in H|done]. destruct (_ && _); [|done]. injection H as <-.
    unfold measure. cbn [ra_next ra_dialing ra_results ra_timer ra_parent ra_pc]. rewrite Hpc. lia.
  - unfold loop_timer in H. destruct (in_loop s); [cbn [andb] in H|done]. destruct (_ <? _)%nat; [|done]. destruct (ra_timer s) eqn:Ht; try done.
    assert (Hoff : race_core {| s with ra_timer := Off |}) by (by destruct Hc; race_fields).
    assert (Hm : (measure {| s with ra_timer := Off |} + 1 = measure s)%nat) by (unfold measure; cbn [ra_next ra_dialing ra_results ra_timer ra_parent ra_pc]; rewrite Ht; lia).
    destruct (Nat.ltb_spec (ra_next {| s with ra_timer := Off |}) n) as [Hn|]; [|cbn [andb] in H; injection H as <-; lia].
    pose proof (measure_start _ Hoff Hn). destruct (_ <? _)%nat; cbn [andb] in H; injection H as <-; lia.
  - unfold loop_result in H. destruct (in_loop s) eqn:Hil; [apply in_loop_pc in Hil as Hpc; cbn [andb] in H|done]. destruct (_ <? _)%nat; [|done].
    destruct (ra_results s) as [|[i r] rest] eqn:Hres; [done|].
    pose proof (pop_core s i r rest (match r with Some e => match ra_firstErr s with None => Some e | x => x end | None => ra_firstErr s end) _ Hc Hres Hpc eq_refl) as Hp.
    destruct (ri_idle _ Hc Hpc) as [Hcan _]. destruct r as [e|].
    + set (s1 := {| s with ra_results := rest; ra_active := pred (ra_active s); ra_firstErr := match ra_firstErr s with None => Some e | x => x end |}).
      assert (H1 : race_core s1) by (destruct s; cbn in *; subst; exact Hp).
      assert (H' : s' = if (ra_next s1 <? n)%nat then if (ra_active (start s1) <? 2)%nat then {| (start s1) with ra_timer := Armed |} else start s1 else s1).
      { apply (inj Some). rewrite <- H. unfold s1. destruct s; cbn in *. destruct ra_firstErr0; subst; done. }
      assert (Hm : (measure s1 + 2 = measure s)%nat) by (unfold measure, s1; cbn [ra_next ra_dialing ra_results ra_timer ra_parent ra_pc]; rewrite Hres; cbn [length]; lia).
      rewrite H'. destruct (Nat.ltb_spec (ra_next s1) n) as [Hn|]; [|lia]. pose proof (measure_start _ H1 Hn) as Hst.
      destruct (ra_active (start s1) <? 2)%nat; [|lia].
      assert ((measure {| (start s1) with ra_timer := Armed |} <= measure (start s1) + 2)%nat) by (unfold measure; cbn [ra_next ra_dialing ra_results ra_timer ra_parent ra_pc]; destruct (ra_timer (start s1)); lia). lia.
    + injection H as <-. unfold measure. cbn [ra_next ra_dialing ra_results ra_timer ra_parent ra_pc]. rewrite Hpc, Hres. cbn [length]. lia.
  - unfold loop_exit in H. destruct (in_loop s) eqn:Hil; [apply in_loop_pc in Hil as Hpc; cbn [andb] in H|done]. destruct (_ =? _)%nat; [|done]. injection H as <-.
    unfold measure. cbn [ra_next ra_dialing ra_results ra_timer ra_parent ra_pc]. rewrite Hpc. lia.
  - unfold drain in H. destruct (ra_pc s) eqn:Hpc; try done. destruct (ra_results s) as [|[i r] rest] eqn:Hres; [done|]. destruct (_ <? _)%nat; [|done].
    destruct r; injection H as <-; unfold measure; cbn [close_conn ra_next ra_dialing ra_results ra_timer ra_parent ra_pc]; rewrite Hpc, Hres; cbn [length]; lia.
  - unfold drain_end in H. destruct (ra_pc s) as [|k|o] eqn:Hpc; try done. destruct (_ =? _)%nat; [|done].
    destruct k as [|i]; [|destruct (ra_parent s) eqn:Hpa]; injection H as <-; unfold measure; cbn [close_conn ra_next ra_dialing ra_results ra_timer ra_parent ra_pc]; rewrite ?Hpc, ?Hpa; lia.
Qed.

(** A step of the loop, or the end of a dial that ends as [res] says; the timer and the caller's context take none. *)
Definition internal (res : nat -> option E) (e : event) : Prop :=
  match e with
  | EFinish i r => r = res i
  | ELoopResult | ELoopExit | EDrain | EDrainEnd => True
  | EParent | ETimer | ELoopDone | ELoopTimer => False
  end.

(** A race that has not returned can go on by such a step. *)
Lemma race_progress res s : race_inv s -> (forall o, ra_pc s <> Returned o) -> exists e, internal res e /\ is_Some (race_step e s).
Proof.
  intros [Hc Hl] Hr. destruct (Nat.eqb_spec (ra_active s) 0) as [Ha|Ha].
  - destruct (ra_pc s) as [|k|o] eqn:Hpc; [| |by destruct (Hr o)].
    + exists ELoopExit. split; [done|]. cbn. unfold loop_exit, in_loop. rewrite Hpc, Ha. by eexists.
    + exists EDrainEnd. split; [done|]. cbn. unfold drain_end. rewrite Hpc, Ha. destruct k; [by eexists|]. by eexists.
  - destruct (ra_results s) as [|[i r] rest] eqn:Hres.
    + assert (Hd : ra_dialing s <> ∅) by (intros Hd; pose proof (ri_active _ Hc) as H; rewrite Hres, Hd, size_empty in H; cbn in H; lia).
      apply set_choose_L in Hd as [i Hi]. exists (EFinish i (res i)). split; [done|]. cbn. unfold finish. rewrite bool_decide_true, Hres by done. by eexists.
    + destruct (ra_pc s) as [|k|o] eqn:Hpc; [| |by destruct (Hr o)].
      * exists ELoopResult. split; [done|]. cbn. unfold loop_result, in_loop. rewrite Hpc, Hres. destruct (Nat.ltb_spec 0 (ra_active s)); [|lia]. cbn [andb]. destruct r; by eexists.
      * exists EDrain. split; [done|]. cbn. unfold drain. rewrite Hpc, Hres. destruct (Nat.ltb_spec 0 (ra_active s)); [|lia]. by eexists.
Qed.

Fixpoint race_run (l : list (event)) (s : race) : option race :=
  match l with [] => Some s | e :: l => s' ← race_step e s; race_run l s' end.

Lemma race_run_reachable l s s' : race_run l s = Some s' -> rtc race_moves s s'.
Proof.
  revert s. induction l as [|e l IH]; intros s; cbn; [by intros [= ->]|]. destruct (race_step e s) as [s1|] eqn:Hs; [|done]. cbn. intros H.
  eapply rtc_l; [by exists e|by apply IH].
Qed.

Lemma race_run_measure l s s' : race_inv s -> race_run l s = Some s' -> (length l + measure s' <= measure s)%nat.
Proof.
  revert s. induction l as [|e l IH]; intros s Hi; cbn [race_run]; [intros [= ->]; cbn; lia|].
  destruct (race_step e s) as [s1|] eqn:Hs; [|done]. cbn [mbind option_bind length]. intros H. apply IH in H; [|by eapply race_step_inv]. apply (measure_decreases _ _ _ Hi) in Hs. lia.
Qed.
Lemma race_run_inv l s s' : race_inv s -> race_run l s = Some s' -> race_inv s'.
Proof.
  revert s. induction l as [|e l IH]; intros s Hi; cbn [race_run]; [by intros [= <-]|]. destruct (race_step e s) as [s1|] eqn:Hs; [|done]. apply IH. by eapply race_step_inv.
Qed.

(** Once the dials in progress return, so does the race. *)
Lemma race_returns res s : race_inv s -> exists l s' o, Forall (internal res) l /\ race_run l s = Some s' /\ ra_pc s' = Returned o.
Proof.
  remember (measure s) as m eqn:Hm. revert s Hm. induction (lt_wf m) as [m _ IH]. intros s -> Hi.
  assert (Hcase : (exists o, ra_pc s = Returned o) \/ forall o, ra_pc s <> Returned o) by (destruct (ra_pc s); eauto; right; by intros).
  destruct Hcase as [[o Ho]|Hr]; [by exists [], s, o|]. destruct (race_progress res s Hi Hr) as (e & He & s1 & Hs).
  destruct (IH _ (measure_decreases _ _ _ Hi Hs) s1 eq_refl (race_step_inv _ _ _ Hs Hi)) as (l & s' & o & Hl & Hrun & Ho).
  exists (e :: l), s', o. split; [by constructor|]. split; [|done]. cbn [race_run]. by rewrite Hs.
Qed.

(** ** What the dials returned *)

Definition ended (e : event) : list dialResult := match e with EFinish i r => [(i, r)] | _ => [] end.

(** The dials that returned, in order. *)
Definition returns (l : list event) : list dialResult := mjoin (ended <$> l).

Definition failed_dial (x : dialResult) : Prop := x.2 <> None.
Definition first_error (l : list dialResult) : option E := head (omap snd l).

(** What the loop has taken from the channel. *)
Definition taken_ok (s : race) (c : list dialResult) : Prop :=
  match ra_pc s with
  | Loop => Forall failed_dial c /\ first_error c = ra_firstErr s
  | Drain (AfterWinner i) | Returned (OConn i) => exists c1 c2, c = c1 ++ (i, None) :: c2 /\ Forall failed_dial c1
  | Returned (OFailed e) => Forall failed_dial c /\ first_error c = e
  | Drain AfterContext | Returned OContext => True
  end.

Record history (f : list dialResult) (s : race) : Prop := {
  hi_dialed : f.*1 ++ elements (ra_dialing s) ≡ₚ seq 0 (ra_next s);
  hi_conns : forall i, (i, None) ∈ f -> i ∈ ra_open s \/ i ∈ ra_closes s;
  hi_taken : exists c, f = c ++ ra_results s /\ taken_ok s c;
}.

Lemma history_start f s : race_core s -> history f s -> history f (start s).
Proof.
  intros Hc [H1 H2 H3]. constructor; [|exact H2|exact H3]. cbn [start ra_dialing ra_next].
  rewrite elements_union_singleton by (intros H%(ri_dialing _ Hc); lia). rewrite seq_S, <-H1, (Permutation_cons_append (elements _)). by rewrite app_assoc.
Qed.

Lemma first_error_snoc c e : Forall failed_dial c -> first_error (c ++ [e]) = match first_error c with Some x => Some x | None => e.2 end.
Proof.
  intros Hc. unfold first_error. destruct Hc as [|[i [x|]] c Hx Hc]; [by destruct e as [j [x|]]|done|done].
Qed.

Lemma history_step e f s s' : race_inv s -> race_step e s = Some s' -> history f s -> history (f ++ ended e) s'.
Proof.
  intros [Hc Hl] H Hh. pose proof Hh as [H1 H2 H3]. destruct e as [| |i r| | | | | |]; cbn [race_step ended] in *; rewrite ?app_nil_r.
  - destruct (ra_parent s); [done|]. injection H as <-. by constructor.
  - destruct (ra_timer s); try done. injection H as <-. by constructor.
  - unfold finish in H. case_bool_decide as Hi; [|done]. destruct (_ <? _)%nat; [|done]. injection H as <-. constructor; cbn [ra_dialing ra_next ra_open ra_closes ra_results].
    + rewrite fmap_app, <-H1, <-app_assoc. cbn. apply Permutation_app_head. rewrite (union_difference_singleton_L i (ra_dialing s)) at 2 by done.
      by rewrite elements_union_singleton by set_solver.
    + intros j [Hj|Hj]%elem_of_app; [destruct (H2 j Hj); [left; destruct r; set_solver|by right]|]. apply list_elem_of_singleton in Hj as [= -> <-]. left. set_solver.
    + destruct H3 as (c & -> & Ht). exists c. split; [by rewrite app_assoc|exact Ht].
  - unfold loop_done in H. destruct (in_loop s); [cbn [andb] in H|done]. destruct (_ && _); [|done]. injection H as <-. destruct H3 as (c & ? & ?). constructor; [done..|]. by exists c.
  - unfold loop_timer in H. destruct (in_loop s); [cbn [andb] in H|done]. destruct (_ <? _)%nat; [|done]. destruct (ra_timer s); try done. injection H as <-.
    assert (Hoff : history f {| s with ra_timer := Off |}) by (by constructor). destruct (_ && _); [|done]. apply history_start; [by destruct Hc; race_fields|done].
  - unfold loop_result in H. destruct (in_loop s) eqn:Hil; [apply in_loop_pc in Hil as Hpc; cbn [andb] in H|done]. destruct (_ <? _)%nat; [|done].
    destruct (ra_results s) as [|[i r] rest] eqn:Hres; [done|]. destruct H3 as (c & -> & Ht). unfold taken_ok in Ht. rewrite Hpc in Ht. destruct Ht as [Hf He].
    destruct r as [e|].
    + set (s1 := {| s with ra_results := rest; ra_active := pred (ra_active s); ra_firstErr := match ra_firstErr s with None => Some e | x => x end |}).
      assert (Hp : history (c ++ (i, Some e) :: rest) s1).
      { constructor; [done..|]. exists (c ++ [(i, Some e)]). split; [by rewrite <-app_assoc|]. unfold taken_ok, s1. cbn [ra_pc ra_firstErr]. rewrite Hpc. split.
        - apply Forall_app. split; [done|]. by apply Forall_singleton.
        - rewrite first_error_snoc, He by done. by destruct (ra_firstErr s). }
      assert (Hcore : race_core s1).
      { pose proof (pop_core s i (Some e) rest (match ra_firstErr s with None => Some e | x => x end) _ Hc Hres Hpc eq_refl) as Hpop. destruct (ri_idle _ Hc Hpc) as [Hcan _].
        unfold s1. clear -Hpop Hcan Hpc. destruct s. cbn in *. by subst. }
      assert (H' : s' = if (ra_next s1 <? n)%nat then if (ra_active (start s1) <? 2)%nat then {| (start s1) with ra_timer := Armed |} else start s1 else s1).
      { apply (inj Some). rewrite <- H. unfold s1. destruct s; cbn in *. destruct ra_firstErr0; subst; done. }
      rewrite H'. destruct (ra_next s1 <? n)%nat; [|exact Hp]. pose proof (history_start _ _ Hcore Hp) as Hs. destruct (ra_active (start s1) <? 2)%nat; [|exact Hs].
      destruct Hs. by constructor.
    + injection H as <-. constructor; [done..|]. exists (c ++ [(i, None)]). split; [by rewrite <-app_assoc|]. exists c, []. by split.
  - unfold loop_exit in H. destruct (in_loop s) eqn:Hil; [apply in_loop_pc in Hil as Hpc; cbn [andb] in H|done]. destruct (_ =? _)%nat; [|done]. injection H as <-.
    destruct H3 as (c & -> & Ht). unfold taken_ok in Ht. rewrite Hpc in Ht. constructor; [done..|]. exists c. split; [done|]. unfold taken_ok. cbn [ra_pc]. by destruct (ra_parent s).
  - unfold drain in H. destruct (ra_pc s) as [|k|o] eqn:Hpc; try done. destruct (ra_results s) as [|[i r] rest] eqn:Hres; [done|]. destruct (_ <? _)%nat; [|done]. injection H as <-.
    destruct H3 as (c & -> & Ht). unfold taken_ok in Ht. rewrite Hpc in Ht.
    assert (Ht' : forall t, ra_pc t = ra_pc s -> taken_ok t (c ++ [(i, r)])).
    { intros t Hp. unfold taken_ok. rewrite Hp, Hpc. destruct k as [|j]; [done|]. destruct Ht as (c1 & c2 & -> & Hf). exists c1, (c2 ++ [(i, r)]). split; [|done]. by rewrite <-app_assoc. }
    constructor.
    + by destruct r.
    + intros j Hj. destruct r; [by apply H2|]. cbn [close_conn ra_open ra_closes]. destruct (decide (j = i)) as [-> |]; [right; set_solver|]. destruct (H2 j Hj); set_solver.
    + exists (c ++ [(i, r)]). split; [by destruct r; cbn; rewrite <-app_assoc|]. apply Ht'. by destruct r.
  - unfold drain_end in H. destruct (ra_pc s) as [|k|o] eqn:Hpc; try done. destruct (_ =? _)%nat; [|done].
    destruct H3 as (c & -> & Ht). unfold taken_ok in Ht. rewrite Hpc in Ht.
    destruct k as [|i]; [|destruct (ra_parent s)]; injection H as <-; (constructor; cbn [close_conn ra_dialing ra_next ra_open ra_closes ra_results]; [done|try done|by exists c]).
    intros j Hj. destruct (decide (j = i)) as [-> |]; [right; set_solver|]. destruct (H2 j Hj); set_solver.
Qed.

Lemma history_run l : forall f s s', race_inv s -> race_run l s = Some s' -> history f s -> history (f ++ returns l) s'.
Proof.
  induction l as [|e l IH]; intros f s s' Hi; cbn [race_run]; [intros [= <-]; by rewrite app_nil_r|]. destruct (race_step e s) as [s1|] eqn:Hs; [|done]. intros H Hh.
  unfold returns. rewrite fmap_cons. cbn [mjoin list_join]. rewrite app_assoc. eapply IH; [by eapply race_step_inv|exact H|by apply (history_step _ _ _ _ Hi Hs)].
Qed.

Lemma history_init parent : history [] (raceDialRoutes parent).
Proof.
  destruct parent; constructor; cbn; try (by intros ? ?%not_elem_of_nil); try done; try (by exists []).
Qed.
End Race.

(** C19: Whatever the dials, the timer and the caller's context do: the dials that have returned and the ones in progress are the routes 0, 1, ... in order, each dialed once, at most two at a time.  When the race returns, every dial it started has returned; with a connection, it is the first one a dial returned, it is open and every other one has been closed exactly once; with an error, every route was dialed and failed and it is the first error; with the context's error, the context is done and every connection has been closed. *)
Theorem race_no_leak {E} (n : nat) (Hn : (0 < n)%nat) (parent : bool) (l : list (@event E)) (s : race)
    (Hrun : race_run n l (raceDialRoutes parent) = Some s) :
  (returns l).*1 ++ elements (ra_dialing s) ≡ₚ seq 0 (ra_next s) /\ (ra_next s <= n)%nat /\ (size (ra_dialing s) <= 2)%nat /\ NoDup (ra_closes s) /\
  forall o, ra_pc s = Returned o ->
    (returns l).*1 ≡ₚ seq 0 (ra_next s) /\
    match o with
    | OConn i => ra_open s = {[i]} /\ (exists l1 l2, returns l = l1 ++ (i, None) :: l2 /\ Forall failed_dial l1) /\
        (forall j, j <> i -> (j, None) ∈ returns l -> j ∈ ra_closes s)
    | OContext => ra_parent s = true /\ ra_open s = ∅ /\ (forall j, (j, None) ∈ returns l -> j ∈ ra_closes s)
    | OFailed e => ra_next s = n /\ Forall failed_dial (returns l) /\ e = first_error (returns l) /\ e <> None /\ ra_open s = ∅
    end.
Proof.
  pose proof (race_init (E := E) n parent Hn) as Hi. pose proof (race_run_inv n _ _ _ Hi Hrun) as [[] _].
  destruct (history_run n l [] _ _ Hi Hrun (history_init parent)) as [H1 H2 (c & Hf & Ht)]. cbn [app] in *. unfold taken_ok in Ht.
  split; [done|]. split; [done|]. split; [lia|]. split; [done|]. intros o Ho. destruct (ri_returned0 o Ho) as [Ha Hout].
  assert (Hd : ra_dialing s = ∅) by (assert (Hz : size (ra_dialing s) = 0%nat) by lia; by apply size_empty_inv, leibniz_equiv in Hz).
  assert (Hr : ra_results s = []) by (destruct (ra_results s); [done|cbn in *; lia]).
  rewrite Hd, elements_empty, app_nil_r in H1. split; [done|]. rewrite Ho, Hr in ri_open0. rewrite Hr, app_nil_r in Hf. subst c. rewrite Ho in Ht. destruct o as [i| |e].
  - assert (Hop : ra_open s = {[i]}) by (rewrite ri_open0; cbn; set_solver). split; [done|]. split; [done|]. intros j Hj Hin. destruct (H2 j Hin); set_solver.
  - assert (Hop : ra_open s = ∅) by (rewrite ri_open0; cbn; set_solver). split; [done|]. split; [done|]. intros j Hin. destruct (H2 j Hin); set_solver.
  - destruct Ht as [Hfd He], Hout as (? & ? & ?). by split_and!.
Qed.

(** C20: A race over n routes takes at most 6n+2 steps, and whatever the dials in progress return, once they do the race returns, by steps of its loop alone: it needs neither the timer nor the caller's context to end. *)
Theorem race_terminates {E} (n : nat) (Hn : (0 < n)%nat) (parent : bool) (l : list (@event E)) (s : race)
    (Hrun : race_run n l (raceDialRoutes parent) = Some s) :
  (length l <= 6 * n + 2)%nat /\
  forall res, exists l' s' o, Forall (internal res) l' /\ race_run n l' s = Some s' /\ ra_pc s' = Returned o.
Proof.
  pose proof (race_init (E := E) n parent Hn) as Hi. split.
  - apply (race_run_measure n _ _ _ Hi) in Hrun. assert ((measure n (@raceDialRoutes E parent) <= 6 * n + 2)%nat); [|lia].
    destruct parent; unfold measure; cbn [raceDialRoutes start ra_next ra_dialing ra_results ra_timer ra_parent ra_pc]; rewrite ?union_empty_r_L, ?size_singleton, ?size_empty; cbn [length]; lia.
  - intros res. apply race_returns. by eapply race_run_inv.
Qed.

(** Two routes: the second is started by the timer, connects first, and the first, which also connects, is closed. *)
Definition sample_race : list (@event nat) := [ETimer; ELoopTimer; EFinish 1 None; ELoopResult; EFinish 0 None; EDrain; EDrainEnd].

Definition sample_race_end : option (@race nat) := race_run 2 sample_race (raceDialRoutes false).

Lemma race_no_leak_witness : exists s, sample_race_end = Some s /\ ra_pc s = Returned (OConn 1) /\ ra_open s = {[1%nat]} /\ 0%nat ∈ ra_closes s.
Proof.
  destruct sample_race_end as [s|] eqn:Es; [|vm_compute in Es; discriminate]. exists s.
  destruct (race_no_leak 2 ltac:(lia) false sample_race s Es) as (_ & _ & _ & _ & Hr).
  assert (Hpc : ra_pc s = Returned (OConn 1)) by (vm_compute in Es; by injection Es as <-).
  split; [done|]. split; [exact Hpc|]. destruct (Hr _ Hpc) as (_ & Ho & _ & Hc). split; [exact Ho|]. apply Hc; [done|]. vm_compute. right. left.
Defined.

Lemma race_terminates_witness : exists s, sample_race_end = Some s /\ (length sample_race <= 6 * 2 + 2)%nat.
Proof.
  destruct sample_race_end as [s|] eqn:Es; [|vm_compute in Es; discriminate]. exists s. split; [done|].
  exact (proj1 (race_terminates 2 ltac:(lia) false sample_race s Es)).
Defined.

(** The time given to an attempt is defined, never more than what remains and at least two seconds of it. *)
Lemma attempt_budget_bounds remaining count index : 0 <= index < count -> 0 <= remaining ->
  exists b, attempt_budget (Some remaining) count index = Some b /\ Z.min (2 * 1000000000) remaining <= b <= remaining.
Proof.
  intros Hi Hr. unfold attempt_budget. assert (Hp : 1 <= Z.quot (count - index + 1) 2) by (rewrite Z.quot_div_nonneg by lia; apply Z.div_le_lower_bound; lia).
  destruct (Z.eqb_spec (Z.quot (count - index + 1) 2) 0); [lia|]. eexists. split; [reflexivity|]. lia.
Qed.
