(* ===== verification/TransportDial.v ===== *)
(** * TransportDial: one dial of the TLS transport ([transport.go], [proxy_config.go])

    [Transport.Dial] checks its proxy settings, prepares the routes ([DialRoutes]), races
    them ([DialRace]) and dials each with [dialRoute]: directly, through SOCKS5 ([Socks5])
    or through an HTTP proxy with CONNECT.  What the network, the TLS stack and the proxy
    answer is the environment of a dial; what the dial does is its trace. *)

From S2P Require Import Prelude GoStrings GoURL GoNet Cors Socks5 TransportConfig Ech DialRoutes.

(** ** [base64.StdEncoding] and basic authentication *)

Definition std64_char (z : Z) : byte :=
  if z <? 26 then z2b (65 + z) else if z <? 52 then z2b (71 + z) else if z <? 62 then z2b (z - 4) else if z =? 62 then x2b else x2f.

Fixpoint std64 (l : list byte) : list byte :=
  match l with
  | [] => []
  | [a] => let n := b2z a * 16 in [std64_char (n / 64); std64_char (n mod 64); x3d; x3d]
  | [a; b] => let n := b2z a * 1024 + b2z b * 4 in [std64_char (n / 4096); std64_char (n / 64 mod 64); std64_char (n mod 64); x3d]
  | a :: b :: c :: r =>
      let n := b2z a * 65536 + b2z b * 256 + b2z c in
      std64_char (n / 262144) :: std64_char (n / 4096 mod 64) :: std64_char (n / 64 mod 64) :: std64_char (n mod 64) :: std64 r
  end.

Definition basicAuth (username password : string) : string := "Basic " +:+ b2s (std64 (s2b (username +:+ ":" +:+ password))).

Example basic_auth_rfc : basicAuth "Aladdin" "open sesame" = "Basic QWxhZGRpbjpvcGVuIHNlc2FtZQ==".
Proof. vm_compute. reflexivity. Qed.

(** ** Proxy settings *)

Inductive dial_failure :=
| EnvironmentProxy | EnvironmentScheme (scheme : string) | ProxyTLSNeedsProxy | ProxyTLSOverSOCKS5 | HeadersOverSOCKS5
| Routes (e : route_error) | LocalAddress | InterfaceFailed | NoInterfaceIP | OnlyOneProxy | BadProxyURL | BadProxyScheme (scheme : string)
| ProxyDialFailed | TLSOverHTTPProxy | ProxyHandshakeFailed | OneCredential | ConnectFailed | Socks5Failed | DialFailed_ | HandshakeFailed.

(** What the environment variables say for a target: an error, no proxy, or a URL. *)
Inductive environment_proxy := EnvError | EnvNone | EnvProxy (scheme text : string).

Definition effectiveProxyURLs (environment : string -> environment_proxy) (proxyHTTP proxySOCKS5 : string) (fromEnvironment : option bool) (target : string) :
    result dial_failure (string * string) :=
  if negb (bool_decide (proxyHTTP = "")) || negb (bool_decide (proxySOCKS5 = "")) || negb (boolValue fromEnvironment) then Ok (proxyHTTP, proxySOCKS5)
  else match environment target with
       | EnvError => Err EnvironmentProxy
       | EnvNone => Ok ("", "")
       | EnvProxy scheme text =>
           if bool_decide (scheme = "http") || bool_decide (scheme = "https") then Ok (text, "")
           else if bool_decide (scheme = "socks5") || bool_decide (scheme = "socks5h") then Ok ("", text)
           else Err (EnvironmentScheme scheme)
       end.

Definition proxyCredentials (u : url) (username password : option string) : result dial_failure (option (string * string)) :=
  match username, password with
  | Some n, Some p => Ok (Some (n, p))
  | None, None => Ok (match u_user u with Some (n, p) => Some (b2s n, b2s (default [] p)) | None => None end)
  | _, _ => Err OneCredential
  end.

(** An address of an interface: [None] is one that is neither a network nor an address. *)
Fixpoint select_ip (addrs : list (option (list byte))) (forceIPv4 forceIPv6 : bool) : option (list byte) :=
  match addrs with
  | [] => None
  | None :: r => select_ip r forceIPv4 forceIPv6
  | Some ip :: r =>
      if forceIPv4 && bool_decide (To4 ip <> None) then Some ip
      else if forceIPv6 && bool_decide (To16 ip <> None) && bool_decide (To4 ip = None) then Some ip
      else if negb forceIPv4 && negb forceIPv6 then Some ip
      else select_ip r forceIPv4 forceIPv6
  end.

(** [interface] is [None] when there is no such interface. *)
Definition selectInterfaceIP (interface : option (option (list (option (list byte))))) (forceIPv4 forceIPv6 : bool) : result dial_failure (option (list byte)) :=
  match interface with
  | Some (Some (a :: r)) => Ok (select_ip (a :: r) forceIPv4 forceIPv6)
  | _ => Err InterfaceFailed
  end.

(** [proxyValue] of [socks5_proxy.go]. *)
Definition proxyValue (value : option string) : string := match value with None => "" | Some v => TrimSpace v end.

(** ** The dial of a route *)

Inductive layer := ProxyLayer | TargetLayer.

Inductive action :=
| ADial (network address : string) (local : option (list byte))
| AHandshake (l : layer) (serverName : string) (insecure ok : bool)
| AConnect (target : string) (h : headers) (ok : bool)
| ASocks5 (target : string) (ok : bool)
| AClose.

(** The answers of one attempt: whether the dial, the handshake with the proxy, the
    CONNECT (with the context's deadline around both), the SOCKS5 handshake and the
    handshake with the target succeed, and the addresses of an interface. *)
Record answers := MkDialAnswers {
  an_interface : string -> option (option (list (option (list byte))));
  an_dial : bool; an_proxyTLS : bool; an_connect : bool; an_socks5 : bool; an_targetTLS : bool }.

Section Dial.
Context {pool : Type} (d : Transport pool).

(** The settings of [tls.Config] the code looks at: the server name and whether
    certificates are verified. *)
Definition tls_setting : Type := string * bool.

Definition local_address (an : answers) (network : string) : result dial_failure (option (list byte)) :=
  match tr_LocalAddr _ d, tr_NetworkInterface _ d with
  | Some a, _ => match ParseIP a with Some ip => Ok (Some ip) | None => Err LocalAddress end
  | None, Some name =>
      let? ip := selectInterfaceIP (an_interface an name) (bool_decide (network = "tcp4")) (bool_decide (network = "tcp6")) in
      match ip with Some ip => Ok (Some ip) | None => Err NoInterfaceIP end
  | None, None => Ok None
  end.

(** The headers of the CONNECT request; [custom] are the configured ones, in map order. *)
Definition connect_headers (credentials : option (string * string)) (custom : list (string * string)) : headers :=
  let h : headers := ∅ in
  let h := match credentials with
           | Some (username, password) =>
               let h := h_Set h "Authorization" (basicAuth username password) in
               h_Del (h_Set h "Proxy-Authorization" (h_Get h "Authorization")) "Authorization"
           | None => h
           end in
  foldl (fun h kv => h_Set h kv.1 kv.2) h custom.

(** The server name and verification of the handshake with an HTTPS proxy, or none. *)
Definition proxy_tls (u : url) : result dial_failure (option tls_setting) :=
  let https := bool_decide (b2s (u_scheme u) = "https") in
  match tr_TLSProxyConfig _ d with
  | None => if https then Ok (Some (b2s (url_Hostname u), false)) else Ok None
  | Some c =>
      if bool_decide (b2s (u_scheme u) = "http") then Err TLSOverHTTPProxy
      else
        let insecure := cs_InsecureSkipVerify _ c in
        let name := cs_ServerName _ c in
        Ok (Some (if negb insecure && bool_decide (name = "") then b2s (url_Hostname u) else name, insecure))
  end.

(** What follows an open connection: its trace and whether it failed. *)
Definition over_http_proxy (an : answers) (u : url) (target : string) (custom : list (string * string)) : list action * option dial_failure :=
  match proxy_tls u with
  | Err e => ([], Some e)
  | Ok handshake =>
      let '(t1, failed) := match handshake with
                           | None => ([], None)
                           | Some (name, insecure) => ([AHandshake ProxyLayer name insecure (an_proxyTLS an)], if an_proxyTLS an then None else Some ProxyHandshakeFailed)
                           end in
      match failed with
      | Some e => (t1, Some e)
      | None =>
          match proxyCredentials u (tr_ProxyUsername _ d) (tr_ProxyPassword _ d) with
          | Err e => (t1, Some e)
          | Ok credentials =>
              (t1 ++ [AConnect target (connect_headers credentials custom) (an_connect an)], if an_connect an then None else Some ConnectFailed)
          end
      end
  end.

(** The connection to the target before its TLS: the trace, whether a connection is open, whether it failed. *)
Definition connect_route (an : answers) (route : dialRoute) (network : string) (local : option (list byte)) (proxyHTTP proxySOCKS5 : string)
    (custom : list (string * string)) : list action * bool * option dial_failure :=
  let set s := negb (bool_decide (s = "")) in
  if set proxyHTTP && set proxySOCKS5 then ([], false, Some OnlyOneProxy)
  else if negb (set proxyHTTP) && negb (set proxySOCKS5) && bool_decide (is_Some (tr_TLSProxyConfig _ d)) then ([], false, Some ProxyTLSNeedsProxy)
  else if set proxySOCKS5 then
    if negb (bool_decide (custom = [])) then ([], false, Some HeadersOverSOCKS5)
    else if bool_decide (is_Some (tr_TLSProxyConfig _ d)) then ([], false, Some ProxyTLSOverSOCKS5)
    else if negb (an_dial an) then ([ADial network (rt_proxy route) local], false, Some Socks5Failed)
    else if an_socks5 an then ([ADial network (rt_proxy route) local; ASocks5 (rt_target route) true], true, None)
    else ([ADial network (rt_proxy route) local; ASocks5 (rt_target route) false; AClose], false, Some Socks5Failed)
  else if set proxyHTTP then
    match url_Parse (s2b proxyHTTP) with
    | None => ([], false, Some BadProxyURL)
    | Some u =>
        if negb (bool_decide (b2s (u_scheme u) = "http")) && negb (bool_decide (b2s (u_scheme u) = "https")) then ([], false, Some (BadProxyScheme (b2s (u_scheme u))))
        else if negb (an_dial an) then ([ADial network (rt_proxy route) local], false, Some ProxyDialFailed)
        else let '(t, failed) := over_http_proxy an u (rt_target route) custom in (ADial network (rt_proxy route) local :: t, true, failed)
    end
  else if an_dial an then ([ADial network (rt_target route) local], true, None)
  else ([ADial network (rt_target route) local], false, Some DialFailed_).

Definition dialRoute (an : answers) (route : dialRoute) (tlsCfg : option tls_setting) (proxyHTTP proxySOCKS5 : string) (custom : list (string * string)) :
    list action * result dial_failure unit :=
  let network := dialNetwork "tcp" route in
  match local_address an network with
  | Err e => ([], Err e)
  | Ok local =>
      let '(t, open, failed) := connect_route an route network local proxyHTTP proxySOCKS5 custom in
      let '(t, failed) := match failed, tlsCfg with
                          | None, Some (name, insecure) =>
                              (t ++ [AHandshake TargetLayer name insecure (an_targetTLS an)], if an_targetTLS an then None else Some HandshakeFailed)
                          | _, _ => (t, failed)
                          end in
      match failed with
      | Some e => (if open then t ++ [AClose] else t, Err e)
      | None => (t, Ok tt)
      end
  end.

(** [Transport.Dial] before its race: the routes and the proxies their dials use. *)
Definition Dial_routes (lookup_host : Ech.ResolverOptions -> string -> result Ech.dns_error (list string)) (lookup_ip : string -> result string (list (list byte * string)))
    (environment : string -> environment_proxy) (addr : string) (custom : list (string * string)) : result dial_failure (dialRoutes * string * string) :=
  let? (proxyHTTP, proxySOCKS5) :=
    effectiveProxyURLs environment (proxyValue (tr_ProxyHTTP _ d)) (proxyValue (tr_ProxySOCKS5 _ d)) (tr_ProxyFromEnvironment _ d) addr in
  if bool_decide (proxyHTTP = "") && bool_decide (proxySOCKS5 = "") && bool_decide (is_Some (tr_TLSProxyConfig _ d)) then Err ProxyTLSNeedsProxy
  else if negb (bool_decide (proxySOCKS5 = "")) && bool_decide (is_Some (tr_TLSProxyConfig _ d)) then Err ProxyTLSOverSOCKS5
  else if negb (bool_decide (proxySOCKS5 = "")) && negb (bool_decide (custom = [])) then Err HeadersOverSOCKS5
  else match prepareDialRoutes lookup_host lookup_ip addr proxyHTTP proxySOCKS5 (dnsResolverOptionsFromTransport d) with
       | Err e => Err (Routes e)
       | Ok routes => Ok (routes, proxyHTTP, proxySOCKS5)
       end.
End Dial.

(** ** What a dial leaves behind *)

Definition is_close (a : action) : bool := match a with AClose => true | _ => false end.
Definition is_dial (a : action) : bool := match a with ADial _ _ _ => true | _ => false end.

(** How many connections a trace leaves open, given whether its dial succeeded. *)
Definition left_open (ok : bool) (t : list action) : Z :=
  (if ok then len (filter (fun a => is_dial a = true) t) else 0) - len (filter (fun a => is_close a = true) t).

(** Before a CONNECT comes a successful handshake with the proxy. *)
Fixpoint after_handshake (seen : bool) (t : list action) : bool :=
  match t with
  | [] => true
  | AHandshake ProxyLayer _ _ ok :: r => after_handshake (seen || ok) r
  | AConnect _ _ _ :: r => seen && after_handshake seen r
  | _ :: r => after_handshake seen r
  end.

Lemma over_http_proxy_trace {pool} (d : Transport pool) an u target custom t f : over_http_proxy d an u target custom = (t, f) ->
  Forall (fun a => is_dial a = false /\ is_close a = false) t /\
  (b2s (u_scheme u) = "https" -> after_handshake false t = true) /\
  (f = None -> exists h, AConnect target h true ∈ t).
Proof.
  unfold over_http_proxy, proxy_tls. intros H.
  destruct (tr_TLSProxyConfig pool d) as [c|]; [destruct (bool_decide_reflect (b2s (u_scheme u) = "http")) as [Hs|Hs]|destruct (bool_decide_reflect (b2s (u_scheme u) = "https")) as [Hs|Hs]].
  - injection H as <- <-. repeat split; try done. 
  - destruct (an_proxyTLS an) eqn:Ep; [|injection H as <- <-; repeat split; try done; by repeat constructor].
    destruct (proxyCredentials _ _ _); [|injection H as <- <-; repeat split; try done; by repeat constructor].
    destruct (an_connect an); injection H as <- <-; repeat split; try done; try (by repeat constructor). eexists. right. by left.
  - destruct (an_proxyTLS an) eqn:Ep; [|injection H as <- <-; repeat split; try done; by repeat constructor].
    destruct (proxyCredentials _ _ _); [|injection H as <- <-; repeat split; try done; by repeat constructor].
    destruct (an_connect an); injection H as <- <-; repeat split; try done; try (by repeat constructor). eexists. right. by left.
  - destruct (proxyCredentials _ _ _); [|injection H as <- <-; repeat split; try done; by repeat constructor].
    destruct (an_connect an); injection H as <- <-; repeat split; try done; try (by repeat constructor). eexists. by left.
Qed.

Lemma left_open_app ok a b : left_open ok (a ++ b) = left_open ok a + left_open ok b.
Proof. unfold left_open. rewrite !filter_app, !len_app. destruct ok; lia. Qed.

Lemma left_open_quiet ok t : Forall (fun a => is_dial a = false /\ is_close a = false) t -> left_open ok t = 0.
Proof.
  induction 1 as [|a t [Hd Hc] _ IH]; [by destruct ok|]. unfold left_open in *. rewrite !filter_cons, Hd, Hc. destruct (decide (false = true)) as [?|_]; [done|]. done.
Qed.

Lemma after_handshake_app seen a b : after_handshake seen a = true -> (forall x, x ∈ b -> forall tg h ok, x <> AConnect tg h ok) -> after_handshake seen (a ++ b) = true.
Proof.
  revert seen. induction a as [|x a IH]; intros seen Ha Hb; cbn [app].
  - clear Ha. revert seen. induction b as [|x b IHb]; intros seen; [done|]. cbn [after_handshake].
    assert (Hb' : forall y, y ∈ b -> forall tg h ok, y <> AConnect tg h ok) by (intros y Hy; apply Hb; by right).
    destruct x as [| [] | tg h ok | |]; try (by apply IHb). exfalso. by apply (Hb (AConnect tg h ok) ltac:(by left) tg h ok).
  - cbn [after_handshake] in *. destruct x as [| [] | | |]; try (by apply IH). apply andb_true_iff in Ha as [-> Ha]. by apply IH.
Qed.

Lemma connect_route_trace {pool} (d : Transport pool) an route network local proxyHTTP proxySOCKS5 custom t open failed :
  connect_route d an route network local proxyHTTP proxySOCKS5 custom = (t, open, failed) ->
  left_open (an_dial an) t = (if open then 1 else 0) /\ (failed = None -> open = true) /\
  (forall u, url_Parse (s2b proxyHTTP) = Some u -> b2s (u_scheme u) = "https" -> after_handshake false t = true) /\
  (failed = None -> proxyHTTP <> "" -> exists h, AConnect (rt_target route) h true ∈ t).
Proof.
  unfold connect_route. intros H. destruct (bool_decide_reflect (proxyHTTP = "")) as [Hh|Hh], (bool_decide_reflect (proxySOCKS5 = "")) as [Hs|Hs]; cbn [negb andb] in H.
  - destruct (bool_decide (is_Some _)); [(injection H as <- <- <-; repeat split; first [by try intros|by destruct (an_dial an)])|]. destruct (an_dial an) eqn:Ed; (injection H as <- <- <-; repeat split; first [by try intros|by destruct (an_dial an)]).
  - destruct (bool_decide (custom = [])); cbn [negb] in H; [|(injection H as <- <- <-; repeat split; first [by try intros|by destruct (an_dial an)])]. destruct (bool_decide (is_Some _)); [(injection H as <- <- <-; repeat split; first [by try intros|by destruct (an_dial an)])|].
    destruct (an_dial an) eqn:Ed; cbn [negb] in H; [|(injection H as <- <- <-; repeat split; first [by try intros|by destruct (an_dial an)])]. destruct (an_socks5 an); (injection H as <- <- <-; repeat split; first [by try intros|by destruct (an_dial an)]).
  - destruct (url_Parse (s2b proxyHTTP)) as [u|] eqn:Eu; [|(injection H as <- <- <-; repeat split; first [by try intros|by destruct (an_dial an)])].
    destruct (_ && _); [injection H as <- <- <-; repeat split; first [by try intros|by destruct (an_dial an)]|]. destruct (an_dial an) eqn:Ed; cbn [negb] in H; [|(injection H as <- <- <-; repeat split; first [by try intros|by destruct (an_dial an)])].
    destruct (over_http_proxy d an u (rt_target route) custom) as [t' f] eqn:Eo. injection H as <- <- <-.
    apply over_http_proxy_trace in Eo as (Hq & Hhs & Hc). split; [|split; [done|split]].
    + change (ADial network (rt_proxy route) local :: t') with ([ADial network (rt_proxy route) local] ++ t'). by rewrite left_open_app, (left_open_quiet _ t').
    + intros ? [= <-] Hscheme. cbn. by apply Hhs.
    + intros -> _. destruct (Hc eq_refl) as [h Hin]. exists h. by right.
  - (injection H as <- <- <-; repeat split; first [by try intros|by destruct (an_dial an)]).
Qed.

(** A dialed route leaves exactly one connection open when it succeeds and none when it fails, at whatever stage; to an HTTPS proxy the CONNECT request, and with it the proxy's credentials, is sent only after a successful TLS handshake; and a dial that succeeds has been connected through the proxy and ends with the TLS handshake with the target, when these are asked for. *)
Theorem dial_route_releases {pool} (d : Transport pool) (an : answers) (route : DialRoutes.dialRoute) (tlsCfg : option tls_setting)
    (proxyHTTP proxySOCKS5 : string) (custom : list (string * string)) :
  let '(t, out) := dialRoute d an route tlsCfg proxyHTTP proxySOCKS5 custom in
  left_open (an_dial an) t = (if is_ok out then 1 else 0) /\
  (forall u, url_Parse (s2b proxyHTTP) = Some u -> b2s (u_scheme u) = "https" -> after_handshake false t = true) /\
  (out = Ok tt -> proxyHTTP <> "" -> exists h, AConnect (rt_target route) h true ∈ t) /\
  (forall name insecure, out = Ok tt -> tlsCfg = Some (name, insecure) -> last t = Some (AHandshake TargetLayer name insecure true)).
Proof.
  unfold dialRoute. destruct (local_address d an _) as [local|]; [|repeat split; first [done|by destruct (an_dial an)]].
  destruct (connect_route _ _ _ _ _ _ _ _) as [[t open] failed] eqn:Ec. apply connect_route_trace in Ec as (Ho & Hf & Hh & Hc).
  assert (Hclose : forall tg h ok, AClose <> AConnect tg h ok) by done.
  assert (Htail : forall b, (forall x, x ∈ b -> x = AClose \/ exists n i k, x = AHandshake TargetLayer n i k) ->
    forall u, url_Parse (s2b proxyHTTP) = Some u -> b2s (u_scheme u) = "https" -> after_handshake false (t ++ b) = true).
  { intros b Hb u Hu Hs. apply after_handshake_app; [by eapply Hh|]. intros x Hx tg h ok ->. apply Hb in Hx as [?|(? & ? & ? & ?)]; done. }
  destruct failed as [e|].
  { destruct open; (split; [|split; [|done]]); [by rewrite left_open_app, Ho; destruct (an_dial an)|apply Htail; intros x ->%list_elem_of_singleton; auto|done|exact Hh]. }
  rewrite (Hf eq_refl) in *. destruct tlsCfg as [[name insecure]|]; [|split; [done|split; [done|split; [auto|done]]]].
  destruct (an_targetTLS an).
  - split; [by rewrite left_open_app, Ho; destruct (an_dial an)|]. split; [apply Htail; intros x ->%list_elem_of_singleton; eauto|]. split.
    + intros _ Hp. destruct (Hc eq_refl Hp) as [h Hin]. exists h. apply elem_of_app. by left.
    + intros n i _ [= <- <-]. by rewrite last_snoc.
  - rewrite <- app_assoc. cbn [app]. split; [by rewrite left_open_app, Ho; destruct (an_dial an)|]. split; [|done].
    apply Htail. intros x [-> | ->%list_elem_of_singleton]%elem_of_cons; eauto.
Qed.
