(* ===== verification/ConfigResolve.v ===== *)
(** * ConfigResolve: the effective configuration of a client
    ([config/config.go], [resolve.go], [env.go], [client.go], [controlplane/project.go],
    [headers.go])

    [Resolve] combines flags, environment variables and the configuration file into the
    address of an engine, the credential that is sent to it and the transport.  Reading
    keychains, certificates and external signers, the expiry of a JSON web token, and the
    digest that identifies a credential are parameters, as is the time. *)

From S2P Require Import Prelude GoStrings Cors TransportConfig.

(** ** Configuration files *)

Record TokenStorage := MkTokenStorage { tk_Kind : string; tk_Provider : string; tk_Value : string; tk_Service : string; tk_Account : string }.
Record MTLS {Storage : Type} := MkMTLS { ml_Certificate : string; ml_CertificateFile : string; ml_Key : string; ml_KeyFile : string; ml_Storage : option Storage }.
Arguments MTLS : clear implicits.

Inductive config_error :=
| ContextAmbiguous (name : string) | ContextDuplicate (name : string) | ContextMissing (name : string) | ContextOtherAPI (name : string)
| InvalidHeaderName (name : string) | ReservedHeader (name : string) | InvalidHeaderValue (name : string) | DuplicateHeader (name : string) | InvalidHeadersJSON
| InvalidRegion | RegionWithEngine | RegionNeedsProject | TokenStorageRequired | TokenStorageUnsupported (kind : string) | KeychainInvalid | KeychainFailed
| TokenAndMTLS | StoredTokenOverride | StoredMTLSOverride | MTLSMixed | MTLSBothForms | MTLSIncomplete | MTLSRequired | MTLSLoad
| TokenExpired | EngineIsRequired | AuthenticationIsRequired | TransportError (e : transport_error)
| InvalidRouting | NoEngineEndpoint | RegionalProject | RegionUnavailable (region : string) | RegionAmbiguous (region : string) | RegionInvalidEndpoint (region : string) | MTLSRegion | NoToken.

Definition firstNonEmpty (values : list string) : string := default "" (find_map (fun v => if bool_decide (v = "") then None else Some v) values).

(** [NormalizeAPIURL]: the loop drops one slash a round. *)
Fixpoint trim_slashes (fuel : nat) (url : string) : string :=
  match fuel with
  | O => url
  | S fuel => if HasSuffix url "/" && negb (HasSuffix url "://") then trim_slashes fuel (TrimSuffix url "/") else url
  end.

Definition NormalizeAPIURL (url : string) : string := let url := TrimSpace url in trim_slashes (length (s2b url)) url.

(** ** Regions ([controlplane/project.go]) *)

Definition region_alnum (b : byte) : bool := byte_in 97 122 b || byte_in 48 57 b.

(** [validRegion]; a byte of a character beyond ASCII is refused like the character. *)
Fixpoint region_bytes (first : bool) (s : list byte) : bool :=
  match s with
  | [] => true
  | b :: r => (region_alnum b || (negb first && negb (bool_decide (r = [])) && (byte_eqb b x2e || byte_eqb b x5f || byte_eqb b x2d))) && region_bytes false r
  end.

Definition validRegion (value : string) : bool := region_bytes true (s2b value) && negb (bool_decide (value = "")).

Definition NormalizeRegion (region : string) : result config_error string :=
  let value := ToLowerRunes (TrimSpace region) in
  if bool_decide (value = "") || bool_decide (value = "auto") then Ok ""
  else if (slen value >? 64) || negb (validRegion value) then Err InvalidRegion
  else Ok value.

Record ProjectRegionalEndpoint := MkRegional { re_Region : string; re_Domain : string; re_EnginePort : Z }.
Record Project := MkProject { pr_Endpoint : string; pr_URL : string; pr_Domain : string; pr_EnginePort : Z; pr_Routing : string; pr_RegionalEndpoints : list ProjectRegionalEndpoint }.

Definition engine_address (endpoint domain : string) (port : Z) : string := endpoint +:+ "." +:+ domain +:+ ":" +:+ Itoa port.

Definition EngineAddress (p : Project) : string :=
  let endpoint := TrimSpace (pr_Endpoint p) in
  let domain := TrimSpace (pr_Domain p) in
  if negb (bool_decide (endpoint = "")) && negb (bool_decide (domain = "")) then engine_address endpoint domain (if pr_EnginePort p <=? 0 then 443 else pr_EnginePort p)
  else
    let value := TrimSpace (pr_URL p) in
    if bool_decide (value = "") then "" else if contains_byte x3a (s2b value) then value else value +:+ ":443".

Definition routing (p : Project) : string := ToLowerRunes (TrimSpace (pr_Routing p)).

Definition validateProjectResponse (p : Project) : result config_error () :=
  if bool_decide (routing p = "global") || bool_decide (routing p = "regional") then Ok () else Err InvalidRouting.

Definition EngineAddressForRegion (p : Project) (region : string) : result config_error string :=
  let? _ := validateProjectResponse p in
  let? requested := NormalizeRegion region in
  if bool_decide (requested = "") then
    let engine := EngineAddress p in if bool_decide (engine = "") then Err NoEngineEndpoint else Ok engine
  else if bool_decide (ToLower (TrimSpace (pr_Routing p)) = "regional") then Err RegionalProject
  else match filter (fun c => ToLowerRunes (TrimSpace (re_Region c)) = requested) (pr_RegionalEndpoints p) with
       | [] => Err (RegionUnavailable requested)
       | [c] =>
           let endpoint := TrimSpace (pr_Endpoint p) in
           let domain := TrimSpace (re_Domain c) in
           if bool_decide (endpoint = "") || bool_decide (domain = "") || (re_EnginePort c <? 1) || (re_EnginePort c >? 65535) then Err (RegionInvalidEndpoint requested)
           else Ok (engine_address endpoint domain (re_EnginePort c))
       | _ => Err (RegionAmbiguous requested)
       end.

(** ** Headers ([controlplane/headers.go]) *)

Definition reservedHeaders : list string :=
  ["Authorization"; "Connection"; "Content-Length"; "Cookie"; "Forwarded"; "Host"; "Keep-Alive"; "Proxy-Authorization"; "Proxy-Connection"; "Te"; "Trailer"; "Transfer-Encoding"; "Upgrade"].

Definition reserved_header (name : string) : bool := bool_decide (name ∈ reservedHeaders) || HasPrefix name "X-Forwarded-".

Section Resolve.
Context {Storage Identity pool : Type}.
Context (ValidHeaderFieldName ValidHeaderFieldValue : string -> bool) (parse_headers : string -> option (list (string * string))).
Context (read_ca : string -> option pool) (keychain : TokenStorage -> option string).
Context (key_pair : string -> string -> option Identity) (key_pair_files : string -> string -> option Identity) (load_storage : Storage -> option Identity).
Context (token_exp : string -> option Z).

(** Headers in the order Go ranges over the map. *)
Fixpoint normalize_headers (headers : list (string * string)) (out : gmap string string) : result config_error (gmap string string) :=
  match headers with
  | [] => Ok out
  | (name, value) :: r =>
      let canonical := CanonicalHeaderKey (TrimSpace name) in
      if negb (ValidHeaderFieldName canonical) then Err (InvalidHeaderName name)
      else if reserved_header canonical then Err (ReservedHeader name)
      else if negb (ValidHeaderFieldValue value) then Err (InvalidHeaderValue name)
      else if bool_decide (is_Some (out !! canonical)) then Err (DuplicateHeader canonical)
      else normalize_headers r (<[canonical := value]> out)
  end.

Definition NormalizeHeaders (headers : list (string * string)) := normalize_headers headers ∅.

Record Auth := MkAuth { au_Token : option (option TokenStorage); au_MTLS : option (MTLS Storage) }.
Record Environment := MkEnvironment { ev_APIURL : string; ev_Auth : option Auth; ev_Headers : list (string * string); ev_Transport : option TransportConfig }.
Record Context_ := MkContext_ {
  cx_Name : string; cx_APIURL : string; cx_ProjectEndpoint : string; cx_Engine : string; cx_Region : string; cx_Auth : option Auth; cx_Transport : option TransportConfig }.
Record Config := MkConfig_ { cf_Default : option string; cf_Environments : list Environment; cf_Contexts : list Context_ }.

Definition ResolveControlPlaneHeaders (env : option Environment) (raw : string) : result config_error (gmap string string) :=
  let? configured := match env with Some e => NormalizeHeaders (ev_Headers e) | None => Ok ∅ end in
  if bool_decide (TrimSpace raw = "") then Ok configured
  else match parse_headers raw with
       | None => Err InvalidHeadersJSON
       | Some l => let? normalized := NormalizeHeaders l in Ok (normalized ∪ configured)
       end.

(** ** Looking up *)

Definition FindEnvironment (c : Config) (apiURL : string) : option Environment :=
  let apiURL := NormalizeAPIURL apiURL in
  find_map (fun e => if bool_decide (NormalizeAPIURL (ev_APIURL e) = apiURL) then Some e else None) (cf_Environments c).

Definition contextMatches (c : Config) (name : string) : list Context_ := filter (fun x => cx_Name x = name) (cf_Contexts c).

Definition FindContextByName (c : Config) (name : string) : result config_error (option Context_) :=
  match contextMatches c name with [] => Ok None | [x] => Ok (Some x) | _ => Err (ContextAmbiguous name) end.

Definition FindContextByNameAndAPIURL (c : Config) (name apiURL : string) : result config_error (option Context_) :=
  let apiURL := NormalizeAPIURL apiURL in
  match contextMatches c name with
  | [] => Ok None
  | matches =>
      match filter (fun x => NormalizeAPIURL (cx_APIURL x) = apiURL) matches with
      | [x] => Ok (Some x)
      | [] => Err (ContextMissing name)
      | _ => Err (ContextDuplicate name)
      end
  end.

Definition FindContextUnlinked (c : Config) (name : string) : result config_error (option Context_) :=
  match contextMatches c name with
  | [] => Ok None
  | matches =>
      match filter (fun x => cx_APIURL x = "") matches with
      | [x] => Ok (Some x)
      | [] => Err (ContextMissing name)
      | _ => Err (ContextAmbiguous name)
      end
  end.

Definition FindContextForAPIURL (c : Config) (name apiURL : string) : result config_error (option Context_) :=
  let apiURL := NormalizeAPIURL apiURL in
  match contextMatches c name with
  | [] => Ok None
  | matches =>
      match filter (fun x => NormalizeAPIURL (cx_APIURL x) = apiURL) matches with
      | [x] => Ok (Some x)
      | _ :: _ :: _ => Err (ContextDuplicate name)
      | [] =>
          match filter (fun x => cx_APIURL x = "") matches with
          | [x] => if (1 <? length matches)%nat then Err (ContextAmbiguous name) else Ok (Some x)
          | [] => Err (ContextMissing name)
          | _ => Err (ContextAmbiguous name)
          end
      end
  end.

(** ** Credentials *)

Definition validateMacOSKeychainTokenStorage (s : TokenStorage) : bool :=
  bool_decide (TrimSpace (tk_Provider s) = "macos") && negb (bool_decide (TrimSpace (tk_Service s) = "")) &&
  negb (bool_decide (TrimSpace (tk_Account s) = "")) && bool_decide (TrimSpace (tk_Value s) = "").

Definition tokenFromKeychainStorage (s : TokenStorage) : result config_error (string * bool) :=
  if negb (validateMacOSKeychainTokenStorage s) then Err KeychainInvalid
  else match keychain s with None => Err KeychainFailed | Some token => Ok (token, true) end.

Definition TokenFromAuth (auth : option Auth) : result config_error (string * bool) :=
  match auth with
  | None => Ok ("", false)
  | Some a =>
      match au_Token a with
      | None => Ok ("", false)
      | Some None => Err TokenStorageRequired
      | Some (Some s) =>
          let kind := TrimSpace (tk_Kind s) in
          if bool_decide (kind = "") then Err TokenStorageRequired
          else if bool_decide (kind = "inline") then Ok (tk_Value s, negb (bool_decide (tk_Value s = "")))
          else if bool_decide (kind = "keychain") then tokenFromKeychainStorage s
          else Err (TokenStorageUnsupported kind)
      end
  end.

Definition hasMTLSAlias (m : MTLS Storage) : bool :=
  negb (bool_decide (TrimSpace (ml_Certificate m) = "")) || negb (bool_decide (TrimSpace (ml_Key m) = "")) ||
  negb (bool_decide (TrimSpace (ml_CertificateFile m) = "")) || negb (bool_decide (TrimSpace (ml_KeyFile m) = "")).

Definition loadMTLSConfig (certPEM keyPEM certFile keyFile : string) : result config_error Identity :=
  let certPEM := TrimSpace certPEM in let keyPEM := TrimSpace keyPEM in
  let certFile := TrimSpace certFile in let keyFile := TrimSpace keyFile in
  let set s := negb (bool_decide (s = "")) in
  let hasInline := set certPEM || set keyPEM in
  let hasFiles := set certFile || set keyFile in
  let load (o : option Identity) : result config_error Identity := match o with Some i => Ok i | None => Err MTLSLoad end in
  if hasInline && hasFiles then Err MTLSBothForms
  else if hasInline then (if negb (set certPEM) || negb (set keyPEM) then Err MTLSIncomplete else load (key_pair certPEM keyPEM))
  else if hasFiles then (if negb (set certFile) || negb (set keyFile) then Err MTLSIncomplete else load (key_pair_files certFile keyFile))
  else Err MTLSRequired.

Definition MTLSConfigFromAuth (auth : option Auth) : result config_error (option Identity) :=
  match auth with
  | None => Ok None
  | Some a =>
      match au_MTLS a with
      | None => Ok None
      | Some m =>
          match ml_Storage m with
          | Some s => if hasMTLSAlias m then Err MTLSMixed else match load_storage s with Some i => Ok (Some i) | None => Err MTLSLoad end
          | None => if negb (hasMTLSAlias m) then Ok None else let? i := loadMTLSConfig (ml_Certificate m) (ml_Key m) (ml_CertificateFile m) (ml_KeyFile m) in Ok (Some i)
          end
      end
  end.

Definition selectedAuth (ctx : option Context_) (env : option Environment) : option Auth :=
  let from_env := match env with
                  | Some e => match ctx with
                              | None => ev_Auth e
                              | Some c => if bool_decide (NormalizeAPIURL (cx_APIURL c) = NormalizeAPIURL (ev_APIURL e)) then ev_Auth e else None
                              end
                  | None => None
                  end in
  match ctx with
  | Some c => match cx_Auth c with
              | Some a => match au_Token a, au_MTLS a with None, None => from_env | _, _ => Some a end
              | None => from_env
              end
  | None => from_env
  end.

Definition engineOverrideUsesStoredToken (engineOverride : string) (ctx : option Context_) : bool :=
  let engineOverride := TrimSpace engineOverride in
  if bool_decide (engineOverride = "") then false
  else match ctx with
       | None => true
       | Some c => let ctxEngine := TrimSpace (cx_Engine c) in if bool_decide (ctxEngine = "") then true else negb (bool_decide (ctxEngine = engineOverride))
       end.

Definition resolveToken (ctx : option Context_) (env : option Environment) : result config_error string :=
  let? own := match ctx with Some c => TokenFromAuth (cx_Auth c) | None => Ok ("", false) end in
  if own.2 then Ok own.1
  else match env with
       | None => Ok ""
       | Some e =>
           if match ctx with None => true | Some c => bool_decide (NormalizeAPIURL (cx_APIURL c) = NormalizeAPIURL (ev_APIURL e)) end then
             let? stored := TokenFromAuth (ev_Auth e) in Ok (if stored.2 then stored.1 else "")
           else Ok ""
       end.

(** ** Resolution *)

Record ResolveInput := MkInput {
  ri_Config : Config; ri_APIURL : list string; ri_Context : list string; ri_Engine : list string; ri_Token : list string; ri_MTLSCert : list string; ri_MTLSKey : list string;
  ri_Region : list string; ri_TunnelTransport : list string;  (** the flag and the variable *)
  ri_EnvUseQUIC : option bool; ri_EnvControlPlaneHeaders : string; ri_IgnoreDefaultContext : bool;
  ri_RequireToken : bool; ri_RequireEngine : bool; ri_ResolveToken : bool; ri_TokenOnly : bool; ri_Now : Z }.

(** [tls.Config] of a client. *)
Record tls_config := MkTLSConfig { tl_Identity : option Identity; tl_RootCAs : option pool; tl_ServerName : string; tl_InsecureSkipVerify : bool }.

Record Resolved := MkResolved {
  rs_APIURL : string; rs_ContextName : string; rs_Environment : option Environment; rs_Context : option Context_; rs_Engine : string; rs_StableDomainEngine : string;
  rs_Region : string; rs_Token : string; rs_Transport : dialer pool; rs_TransportConfig : TransportConfig; rs_TLSClientConfig : option tls_config;
  rs_ControlPlaneHeaders : gmap string string; rs_mtlsSource : option (MTLS Storage) }.

Definition find_context (i : ResolveInput) (name apiURL : string) : result config_error (option Context_) :=
  if bool_decide (name = "") then Ok None
  else
    let? ctx :=
      if negb (bool_decide (apiURL = "")) then
        let? ctx := FindContextByNameAndAPIURL (ri_Config i) name apiURL in
        match ctx with None => FindContextUnlinked (ri_Config i) name | Some _ => Ok ctx end
      else FindContextByName (ri_Config i) name in
    match ctx with
    | None => Err (ContextMissing name)
    | Some c =>
        let ctxAPIURL := NormalizeAPIURL (cx_APIURL c) in
        if negb (bool_decide (apiURL = "")) && negb (bool_decide (ctxAPIURL = "")) && negb (bool_decide (ctxAPIURL = apiURL)) then Err (ContextOtherAPI name)
        else Ok (Some c)
    end.

(** The token, the client identity, or an error; the digest that names the source is left out. *)
Definition resolveAuthentication (i : ResolveInput) (ctx : option Context_) (env : option Environment) (engineOverride : string) : result config_error (string * option Identity) :=
  let token := firstNonEmpty (ri_Token i) in
  let explicitToken := negb (bool_decide (token = "")) in
  let shouldResolveToken := ri_ResolveToken i || ri_RequireToken i || explicitToken in
  let override := engineOverrideUsesStoredToken engineOverride ctx in
  if ri_TokenOnly i then
    if negb explicitToken && shouldResolveToken then
      let? token := resolveToken ctx env in
      if negb (bool_decide (token = "")) && override then Err StoredTokenOverride else Ok (token, None)
    else Ok (token, None)
  else
    let certFile := firstNonEmpty (ri_MTLSCert i) in
    let keyFile := firstNonEmpty (ri_MTLSKey i) in
    let explicitMTLS := negb (bool_decide (certFile = "")) || negb (bool_decide (keyFile = "")) in
    let auth := if explicitMTLS then Some (MkAuth None (Some (MkMTLS Storage "" certFile "" keyFile None))) else selectedAuth ctx env in
    let hasMTLS := match auth with Some a => match au_MTLS a with Some m => hasMTLSAlias m || match ml_Storage m with Some _ => true | None => false end | None => false end | None => false end in
    let hasToken := match auth with Some a => match au_Token a with Some _ => true | None => false end | None => false end in
    if hasMTLS && (explicitToken || hasToken) then Err TokenAndMTLS
    else if hasMTLS && negb explicitMTLS && override then Err StoredMTLSOverride
    else
      let? token :=
        if negb explicitToken && shouldResolveToken && negb hasMTLS then
          let? stored := TokenFromAuth auth in
          if negb (bool_decide (stored.1 = "")) && override then Err StoredTokenOverride else Ok stored.1
        else Ok token in
      let? mtls := MTLSConfigFromAuth auth in
      Ok (token, mtls).

(** Times are in nanoseconds. *)
Definition isTokenExpired (token : string) (now : Z) : bool := match token_exp token with None => false | Some exp => exp <? now end.

Definition mode_string (m : TunnelTransportMode) : string := match m with ModeAuto => "auto" | ModeTLS => "tls" | ModeQUIC => "quic" end.

Definition transport_of {A} (r : result transport_error A) : result config_error A := match r with Ok a => Ok a | Err e => Err (TransportError e) end.

Definition resolve_transport (i : ResolveInput) (ctx : option Context_) (env : option Environment) : result config_error (option TransportConfig) :=
  let base := match ctx with
              | None => None
              | Some c => MergeTransport (match env with
                                          | Some e => if negb (bool_decide (NormalizeAPIURL (cx_APIURL c) = "")) && bool_decide (NormalizeAPIURL (cx_APIURL c) = NormalizeAPIURL (ev_APIURL e))
                                                      then ev_Transport e else None
                                          | None => None
                                          end) (cx_Transport c)
              end in
  let override := firstNonEmpty (ri_TunnelTransport i) in
  if negb (bool_decide (override = "")) then
    let? mode := transport_of (ParseTunnelTransportMode override) in
    Ok (Some {| (default empty_transport base) with tc_Mode := mode_string mode; tc_UseQUIC := None |})
  else match ri_EnvUseQUIC i with
       | Some q => Ok (Some {| (default empty_transport base) with tc_Mode := ""; tc_UseQUIC := Some q |})
       | None => Ok base
       end.

Definition mergeTLSClientConfig (mtls : option Identity) (cfg : option TransportConfig) : result config_error (option tls_config) :=
  let? engine := transport_of (EngineTLSConfig pool read_ca cfg) in
  Ok match mtls, engine with
     | None, None => None
     | None, Some e => Some (MkTLSConfig None (cs_RootCAs _ e) (cs_ServerName _ e) (cs_InsecureSkipVerify _ e))
     | Some _, None => Some (MkTLSConfig mtls None "" false)
     | Some _, Some e => Some (MkTLSConfig mtls (cs_RootCAs _ e) (cs_ServerName _ e) (cs_InsecureSkipVerify _ e))
     end.

Definition HasMTLS (r : Resolved) : bool := match rs_TLSClientConfig r with Some t => match tl_Identity t with Some _ => true | None => false end | None => false end.

Definition Resolve (i : ResolveInput) : result config_error Resolved :=
  let cfg := ri_Config i in
  let explicit := NormalizeAPIURL (firstNonEmpty (ri_APIURL i)) in
  let contextName := firstNonEmpty (ri_Context i) in
  let contextName := if negb (ri_IgnoreDefaultContext i) && bool_decide (contextName = "") then default "" (cf_Default cfg) else contextName in
  let? ctx := find_context i contextName explicit in
  let explicit := match ctx with
                  | Some c => if bool_decide (explicit = "") && negb (bool_decide (NormalizeAPIURL (cx_APIURL c) = "")) then NormalizeAPIURL (cx_APIURL c) else explicit
                  | None => explicit
                  end in
  let apiURL := if bool_decide (explicit = "") then "https://rstream.io" else explicit in
  let env := match ctx with
             | Some c => if bool_decide (NormalizeAPIURL (cx_APIURL c) = "") then None else FindEnvironment cfg apiURL
             | None => FindEnvironment cfg apiURL
             end in
  let? headers := ResolveControlPlaneHeaders env (ri_EnvControlPlaneHeaders i) in
  let engineOverride := firstNonEmpty (ri_Engine i) in
  let engine := if bool_decide (engineOverride = "") then match ctx with Some c => cx_Engine c | None => "" end else engineOverride in
  let? region := NormalizeRegion (firstNonEmpty (ri_Region i ++ [match ctx with Some c => cx_Region c | None => "" end])) in
  if negb (bool_decide (region = "")) && negb (bool_decide (engineOverride = "")) then Err RegionWithEngine
  else if negb (bool_decide (region = "")) && match ctx with None => true | Some c => bool_decide (TrimSpace (cx_ProjectEndpoint c) = "") end then Err RegionNeedsProject
  else
    let? auth := resolveAuthentication i ctx env engineOverride in
    let token := auth.1 in
    if negb (bool_decide (token = "")) && isTokenExpired token (ri_Now i) then Err TokenExpired
    else if ri_RequireEngine i && bool_decide (engine = "") && bool_decide (region = "") then Err EngineIsRequired
    else if ri_RequireToken i && bool_decide (token = "") && match auth.2 with None => true | Some _ => false end then Err AuthenticationIsRequired
    else
      let? transportConfig := resolve_transport i ctx env in
      let? transport := transport_of (FlattenTransportWithError pool read_ca transportConfig) in
      let? tls := mergeTLSClientConfig auth.2 transportConfig in
      let kept := default {| empty_transport with tc_Mode := "auto" |} (MergeTransport None transportConfig) in
      let explicitMTLS := negb (bool_decide (firstNonEmpty (ri_MTLSCert i ++ ri_MTLSKey i) = "")) in
      let source := match auth.2 with
                    | Some _ => if explicitMTLS then None else match selectedAuth ctx env with Some a => au_MTLS a | None => None end
                    | None => None
                    end in
      Ok (MkResolved apiURL contextName env ctx engine engine region token transport kept tls headers source).

(** ** Clients *)

Definition StableDomainEndpoint (r : Resolved) : string := let v := TrimSpace (rs_StableDomainEngine r) in if bool_decide (v = "") then rs_Engine r else v.

Definition ResolveProjectRegion (r : Resolved) (p : Project) : result config_error Resolved :=
  let? engine := EngineAddressForRegion p (rs_Region r) in
  let stable := EngineAddress p in
  Ok {| r with rs_Engine := engine; rs_StableDomainEngine := if bool_decide (stable = "") then engine else stable |}.

(** [project] is the answer of the control plane for an endpoint, an API address and a token. *)
Definition resolveClientRegion (project : string -> string -> string -> result config_error Project) (r : Resolved) : result config_error Resolved :=
  if bool_decide (rs_Region r = "") then Ok r
  else if HasMTLS r then Err MTLSRegion
  else match rs_Context r with
       | None => Err RegionNeedsProject
       | Some c =>
           if bool_decide (TrimSpace (cx_ProjectEndpoint c) = "") then Err RegionNeedsProject
           else if bool_decide (TrimSpace (rs_Token r) = "") then Err NoToken
           else let? p := project (rs_APIURL r) (rs_Token r) (cx_ProjectEndpoint c) in ResolveProjectRegion r p
       end.

(** [NewClientFromEnvOptionsContext] up to the client itself: the configuration, then the engine of the region. *)
Definition resolveClient (project : string -> string -> string -> result config_error Project) (i : ResolveInput) : result config_error Resolved :=
  let? r := Resolve i in resolveClientRegion project r.
End Resolve.

Arguments Auth : clear implicits.
Arguments Environment : clear implicits.
Arguments Context_ : clear implicits.
Arguments ResolveInput : clear implicits.
Arguments Resolved : clear implicits.

(** ** Where credentials go *)

Section Bound.
Context {Storage Identity pool : Type}.
Context (VN VV : string -> bool) (parse_headers : string -> option (list (string * string))) (read_ca : string -> option pool) (keychain : TokenStorage -> option string).
Context (key_pair key_pair_files : string -> string -> option Identity) (load_storage : Storage -> option Identity) (token_exp : string -> option Z).
Notation Resolve := (Resolve VN VV parse_headers read_ca keychain key_pair key_pair_files load_storage token_exp).
Notation TokenFromAuth := (@TokenFromAuth Storage keychain).
Notation MTLSConfigFromAuth := (MTLSConfigFromAuth key_pair key_pair_files load_storage).

(** An authentication of the selected context, or of the environment the context (or the client, without a context) belongs to. *)
Definition owned (ctx : option (Context_ Storage)) (env : option (Environment Storage)) (auth : option (Auth Storage)) : Prop :=
  (exists c, ctx = Some c /\ auth = cx_Auth c) \/
  (exists e, env = Some e /\ auth = ev_Auth e /\ forall c, ctx = Some c -> NormalizeAPIURL (cx_APIURL c) = NormalizeAPIURL (ev_APIURL e)).

(** The engine is the one of the selected context, or blank: there is no address to dial. *)
Definition own_engine (ctx : option (Context_ Storage)) (engine : string) : Prop :=
  TrimSpace engine = "" \/ exists c, ctx = Some c /\ TrimSpace engine = TrimSpace (cx_Engine c).

Lemma selectedAuth_owned ctx env auth : selectedAuth ctx env = Some auth -> owned ctx env (Some auth).
Proof.
  unfold selectedAuth. intros H. assert (Henv : match env with
     | Some e => match ctx with None => ev_Auth e | Some c => if bool_decide (NormalizeAPIURL (cx_APIURL c) = NormalizeAPIURL (ev_APIURL e)) then ev_Auth e else None end
     | None => None end = Some auth -> owned ctx env (Some auth)).
  { destruct env as [e|]; [|done]. destruct ctx as [c|]; [case_bool_decide; [|done]|]; intros He; right; exists e; (split; [done|]; split; [done|]; by intros ? [= <-]). }
  destruct ctx as [c|]; [|by apply Henv]. destruct (cx_Auth c) as [a|] eqn:Ea; [|by apply Henv].
  destruct (au_Token a), (au_MTLS a); [| | |by apply Henv]; injection H as <-; left; exists c; done.
Qed.

Lemma override_engine engineOverride ctx : engineOverrideUsesStoredToken engineOverride ctx = false ->
  own_engine ctx (if bool_decide (engineOverride = "") then match ctx with Some c => cx_Engine c | None => "" end else engineOverride).
Proof.
  unfold engineOverrideUsesStoredToken, own_engine. case_bool_decide as H1.
  - intros _. case_bool_decide as H2; [|by left]. destruct ctx as [c|]; [right; eauto|by left].
  - destruct ctx as [c|]; [|done]. case_bool_decide; [done|]. case_bool_decide as H3; [|done]. intros _. case_bool_decide; right; eauto.
Qed.

(** What is known of the credential of a configuration. *)
Record credential_ok (i : ResolveInput Storage) (ctx : option (Context_ Storage)) (env : option (Environment Storage)) (engine token : string) (mtls : option Identity) : Prop := {
  co_one : token = "" \/ mtls = None;
  co_token : token <> "" -> firstNonEmpty (ri_Token i) = "" -> own_engine ctx engine /\ exists auth b, owned ctx env auth /\ TokenFromAuth auth = Ok (token, b);
  co_mtls : mtls <> None -> firstNonEmpty (ri_MTLSCert i) = "" -> firstNonEmpty (ri_MTLSKey i) = "" ->
    own_engine ctx engine /\ exists auth, owned ctx env auth /\ MTLSConfigFromAuth auth = Ok mtls;
}.

Lemma resolveToken_owned ctx env token : resolveToken keychain ctx env = Ok token -> token <> "" -> exists auth b, owned ctx env auth /\ TokenFromAuth auth = Ok (token, b).
Proof.
  unfold resolveToken. intros H Hne.
  destruct (match ctx with Some c => TokenFromAuth (cx_Auth c) | None => Ok ("", false) end) as [[t b]|] eqn:E1; [|done]. cbn in H. destruct b.
  - injection H as ->. destruct ctx as [c|]; [|done]. exists (cx_Auth c), true. split; [left; eauto|done].
  - destruct env as [e|]; [|by injection H as <-]. destruct (match ctx with None => true | Some c => _ end) eqn:Ec; [|by injection H as <-].
    destruct (TokenFromAuth (ev_Auth e)) as [[t' b']|] eqn:E2; [|done]. cbn in H. destruct b'; [|by injection H as <-]. injection H as ->.
    exists (ev_Auth e), true. split; [|done]. right. exists e. split; [done|]. split; [done|]. intros c ->. by apply bool_decide_eq_true in Ec.
Qed.

(** No identity without certificates or storage. *)
Lemma no_mtls auth : match auth with Some a => match au_MTLS a with Some m => hasMTLSAlias m || match ml_Storage m with Some _ => true | None => false end | None => false end | None => false end = false ->
  MTLSConfigFromAuth auth = Ok None.
Proof.
  unfold MTLSConfigFromAuth. destruct auth as [a|]; [|done]. destruct (au_MTLS a) as [m|]; [|done]. intros [Ha Hs]%orb_false_iff. destruct (ml_Storage m); [done|]. by rewrite Ha.
Qed.

Lemma authentication_ok i ctx env engineOverride token mtls :
  resolveAuthentication keychain key_pair key_pair_files load_storage i ctx env engineOverride = Ok (token, mtls) ->
  credential_ok i ctx env (if bool_decide (engineOverride = "") then match ctx with Some c => cx_Engine c | None => "" end else engineOverride) token mtls.
Proof.
  unfold resolveAuthentication. set (engine := if bool_decide (engineOverride = "") then _ else _).
  set (override := engineOverrideUsesStoredToken engineOverride ctx). assert (Hov : override = false -> own_engine ctx engine) by apply override_engine.
  destruct (ri_TokenOnly i).
  - destruct (negb _ && _) eqn:E1.
    + destruct (resolveToken keychain ctx env) as [t|] eqn:Et; [|done]. destruct (negb (bool_decide (t = "")) && override) eqn:E2; [done|]. intros [= -> <-].
      constructor; [by right| |done]. intros Hne _. rewrite bool_decide_false in E2 by done. cbn in E2. split; [by apply Hov|]. by apply resolveToken_owned.
    + intros [= <- <-]. constructor; [by right|by intros Hne Hf; rewrite Hf in Hne|done].
  - cbv zeta. set (token0 := firstNonEmpty (ri_Token i)). set (cf := firstNonEmpty (ri_MTLSCert i)). set (kf := firstNonEmpty (ri_MTLSKey i)).
    set (ex := negb (bool_decide (cf = "")) || negb (bool_decide (kf = ""))). set (auth := if ex then _ else selectedAuth ctx env).
    match goal with |- context [if ?m && (_ || ?t) then Err TokenAndMTLS else _] => set (has := m); set (tok := t) end.
    destruct (has && (negb (bool_decide (token0 = "")) || tok)) eqn:E1; [done|]. destruct (has && negb ex && override) eqn:E2; [done|].
    destruct (negb (negb (bool_decide (token0 = ""))) && _ && negb has) eqn:E3.
    + apply andb_true_iff in E3 as [_ Hh%negb_true_iff]. destruct (TokenFromAuth auth) as [[t b]|] eqn:Et; [|done]. cbn [fst].
      destruct (negb (bool_decide (t = "")) && override) eqn:E4; [done|]. pose proof (no_mtls auth Hh) as Hn. rewrite Hn. intros [= -> <-].
      constructor; [by right| |done]. intros Hne _. rewrite bool_decide_false in E4 by done. cbn in E4. split; [by apply Hov|].
      unfold auth in Et. destruct ex; [by injection Et as <- _|]. destruct (selectedAuth ctx env) as [a|] eqn:Ea; [|by injection Et as <- _].
      exists (Some a), b. split; [by apply selectedAuth_owned|done].
    + destruct (MTLSConfigFromAuth auth) as [m|] eqn:Em; [|done]. intros [= <- <-]. constructor.
      * destruct has eqn:Eh; [|right; pose proof (no_mtls auth Eh) as Hn; rewrite Hn in Em; by injection Em].
        cbn in E1. apply orb_false_iff in E1 as [E1%negb_false_iff%bool_decide_eq_true _]. by left.
      * intros Hne Hf. done.
      * intros Hm Hc Hk. assert (Hex : ex = false) by (unfold ex, cf, kf; by rewrite Hc, Hk, !bool_decide_true by done).
        destruct has eqn:Eh; [|pose proof (no_mtls auth Eh) as Hn; rewrite Hn in Em; injection Em as <-; done]. rewrite Hex in E2. cbn in E2. split; [by apply Hov|].
        unfold auth in Em. rewrite Hex in Em. destruct (selectedAuth ctx env) as [a|] eqn:Ea; [|by injection Em as <-]. exists (Some a). split; [by apply selectedAuth_owned|done].
Qed.

Definition identity (r : Resolved Storage Identity pool) : option Identity := match rs_TLSClientConfig r with Some t => tl_Identity t | None => None end.

Lemma identity_HasMTLS r : HasMTLS r = match identity r with Some _ => true | None => false end.
Proof. unfold HasMTLS, identity. by destruct (rs_TLSClientConfig r). Qed.

Lemma merged_identity (mtls : option Identity) cfg (t : option tls_config) : mergeTLSClientConfig read_ca mtls cfg = Ok t -> match t with Some t => tl_Identity t | None => None end = mtls.
Proof.
  unfold mergeTLSClientConfig. destruct (transport_of _) as [e|]; [|done]. by destruct mtls, e; intros [= <-].
Qed.

Lemma find_context_name (i : ResolveInput Storage) name url c : find_context i name url = Ok (Some c) -> cx_Name c = name /\ c ∈ cf_Contexts (ri_Config i).
Proof.
  assert (Hm : forall c l, contextMatches (ri_Config i) name = l -> c ∈ l -> cx_Name c = name /\ c ∈ cf_Contexts (ri_Config i))
    by (intros x l <- Hx; by apply list_elem_of_filter in Hx).
  unfold find_context. case_bool_decide; [done|]. intros H1.
  assert (Hc : exists found, Ok found = (if negb (bool_decide (url = "")) then
        let? ctx := FindContextByNameAndAPIURL (ri_Config i) name url in match ctx with None => FindContextUnlinked (ri_Config i) name | Some _ => Ok ctx end
      else FindContextByName (ri_Config i) name) /\ found = Some c).
  { destruct (if negb (bool_decide (url = "")) then _ else _) as [[d|]|]; [|done|done]. exists (Some d). split; [done|]. destruct (_ && _); [done|]. by injection H1 as ->. }
  destruct Hc as (? & Hc & ->). clear H1. destruct (negb (bool_decide (url = ""))).
  - destruct (FindContextByNameAndAPIURL _ _ _) as [[d|]|] eqn:E; [|unfold FindContextByNameAndAPIURL in E|done].
    + injection Hc as <-. unfold FindContextByNameAndAPIURL in E. destruct (contextMatches _ _) as [|m ms] eqn:Em; [done|].
      destruct (filter _ _) as [|x [|]] eqn:Ef; [done| |done]. injection E as <-. apply (Hm _ _ eq_refl).
      eapply list_elem_of_filter. rewrite Ef. by left.
    + unfold FindContextUnlinked in Hc. destruct (contextMatches _ _) as [|m ms] eqn:Em; [done|]. destruct (filter _ (m :: ms)) as [|? [|]]; done.
  - unfold FindContextByName in Hc. destruct (contextMatches _ _) as [|m [|]] eqn:Em; [done| |done]. injection Hc as ->. apply (Hm _ _ eq_refl). by left.
Qed.

Lemma find_context_url (i : ResolveInput Storage) name url c : find_context i name url = Ok (Some c) ->
  url = "" \/ NormalizeAPIURL (cx_APIURL c) = "" \/ NormalizeAPIURL (cx_APIURL c) = url.
Proof.
  unfold find_context. case_bool_decide; [done|]. destruct (if negb (bool_decide (url = "")) then _ else _) as [[d|]|]; [|done|done].
  destruct (negb _ && negb _ && negb _) eqn:E; [done|]. intros [= <-]. rewrite !andb_false_iff, !negb_false_iff, !bool_decide_eq_true in E. tauto.
Qed.

Lemma FindEnvironment_url (c : Config) url e : @FindEnvironment Storage c url = Some e -> NormalizeAPIURL (ev_APIURL e) = NormalizeAPIURL url.
Proof. unfold FindEnvironment. intros (x & _ & Hx)%find_map_Some. case_bool_decide; [|done]. by injection Hx as <-. Qed.

(** A configuration that resolves, its parts. *)
Record resolution (i : ResolveInput Storage) (r : Resolved Storage Identity pool) : Prop := {
  rn_credential : credential_ok i (rs_Context r) (rs_Environment r) (rs_Engine r) (rs_Token r) (identity r);
  rn_context : forall c, rs_Context r = Some c -> cx_Name c = rs_ContextName r /\ c ∈ cf_Contexts (ri_Config i);
  rn_environment : forall e, rs_Environment r = Some e -> NormalizeAPIURL (ev_APIURL e) = NormalizeAPIURL (rs_APIURL r);
  rn_expired : rs_Token r <> "" -> isTokenExpired token_exp (rs_Token r) (ri_Now i) = false;
  rn_engine : ri_RequireEngine i = true -> rs_Engine r <> "" \/ rs_Region r <> "";
  rn_token : ri_RequireToken i = true -> rs_Token r <> "" \/ HasMTLS r = true;
  rn_region : rs_Region r <> "" -> firstNonEmpty (ri_Engine i) = "" /\ exists c, rs_Context r = Some c /\ TrimSpace (cx_ProjectEndpoint c) <> "";
  rn_api : forall c, rs_Context r = Some c -> NormalizeAPIURL (cx_APIURL c) <> "" -> rs_APIURL r = NormalizeAPIURL (cx_APIURL c);
}.

Lemma resolve_resolution i r : Resolve i = Ok r -> resolution i r.
Proof.
  unfold ConfigResolve.Resolve. set (name := if negb (ri_IgnoreDefaultContext i) && _ then _ else _). cbv zeta.
  destruct (find_context i name _) as [ctx|] eqn:Ec; [|done]. set (url := if bool_decide (match ctx with Some c => _ | None => _ end = "") then _ else _).
  set (env := match ctx with Some c => if bool_decide (NormalizeAPIURL (cx_APIURL c) = "") then None else _ | None => _ end).
  destruct (ResolveControlPlaneHeaders _ _ _ env _) as [headers|]; [|done]. destruct (NormalizeRegion _) as [region|]; [|done].
  destruct (negb (bool_decide (region = "")) && negb _) eqn:E1; [done|].
  destruct (negb (bool_decide (region = "")) && match ctx with None => true | Some c => _ end) eqn:E2; [done|].
  destruct (resolveAuthentication _ _ _ _ i ctx env _) as [[token mtls]|] eqn:Ea; [|done]. cbn [fst snd].
  destruct (negb (bool_decide (token = "")) && isTokenExpired _ _ _) eqn:E3; [done|].
  destruct (ri_RequireEngine i && _ && _) eqn:E4; [done|]. destruct (ri_RequireToken i && _ && _) eqn:E5; [done|].
  destruct (resolve_transport i ctx env) as [tc|]; [|done]. destruct (transport_of _) as [d|]; [|done].
  destruct (mergeTLSClientConfig read_ca mtls tc) as [t|] eqn:Em; [|done]. intros [= <-]. apply merged_identity in Em. apply authentication_ok in Ea.
  constructor; rewrite ?identity_HasMTLS; unfold identity; cbn [rs_Context rs_Environment rs_Engine rs_Token rs_TLSClientConfig rs_ContextName rs_APIURL rs_Region]; rewrite ?Em.
  - done.
  - intros c ->. by apply find_context_name in Ec.
  - intros e He. unfold env in He. destruct ctx as [c|]; [case_bool_decide; [done|]|]; by apply FindEnvironment_url in He.
  - intros Hne. by rewrite bool_decide_false in E3.
  - intros Hq. rewrite Hq in E4. cbn [andb] in E4. apply andb_false_iff in E4 as [E4|E4]; apply bool_decide_eq_false in E4; auto.
  - intros Hq. rewrite Hq in E5. cbn [andb] in E5. apply andb_false_iff in E5 as [E5%bool_decide_eq_false|E5]; [by left|]. destruct mtls; [by right|done].
  - intros Hr. rewrite bool_decide_false in E1, E2 by done. cbn [negb andb] in E1, E2. apply negb_false_iff, bool_decide_eq_true in E1. split; [done|].
    destruct ctx as [c|]; [|done]. apply bool_decide_eq_false in E2. eauto.
  - intros c -> Hne. apply find_context_url in Ec. unfold url. rewrite (bool_decide_false _ Hne). cbn [negb]. rewrite andb_true_r.
    set (given := NormalizeAPIURL (firstNonEmpty (ri_APIURL i))) in *. destruct (decide (given = "")) as [Hx|Hx].
    + rewrite (bool_decide_true _ Hx), (bool_decide_false _ Hne). done.
    + rewrite !(bool_decide_false _ Hx). destruct Ec as [|[|]]; done.
Qed.

(** The configuration of a client whose engine is that of a region. *)
Definition regional (r : Resolved Storage Identity pool) (p : Project) (engine : string) : Resolved Storage Identity pool :=
  {| r with rs_Engine := engine; rs_StableDomainEngine := if bool_decide (EngineAddress p = "") then engine else EngineAddress p |}.

Lemma region_client project r r' : resolveClientRegion project r = Ok r' ->
  rs_Region r = "" /\ r' = r \/
  rs_Region r <> "" /\ identity r = None /\ exists c p engine, rs_Context r = Some c /\
    project (rs_APIURL r) (rs_Token r) (cx_ProjectEndpoint c) = Ok p /\ EngineAddressForRegion p (rs_Region r) = Ok engine /\ r' = regional r p engine.
Proof.
  unfold resolveClientRegion, ResolveProjectRegion. case_bool_decide as Hr; [intros [= ->]; by left|]. destruct (HasMTLS r) eqn:Ei; [done|]. rewrite identity_HasMTLS in Ei. destruct (identity r) as [x|]; [done|].
  destruct (rs_Context r) as [c|] eqn:Ec; [|done]. do 2 (case_bool_decide; [done|]). destruct (project _ _ _) as [p|] eqn:Ep; [|done].
  destruct (EngineAddressForRegion _ _) as [e|] eqn:Ee; [|done]. intros [= <-]. right.
  split; [done|]. split; [done|]. exists c, p, e. unfold regional. by rewrite Ec.
Qed.

(** Where the credential of a configuration goes when no flag or variable supplied it. *)
Definition destination (project : string -> string -> string -> result config_error Project) (i : ResolveInput Storage) (r : Resolved Storage Identity pool) : Prop :=
  rs_Region r = "" /\ own_engine (rs_Context r) (rs_Engine r) \/
  rs_Region r <> "" /\ firstNonEmpty (ri_Engine i) = "" /\ exists c p, rs_Context r = Some c /\
    project (rs_APIURL r) (rs_Token r) (cx_ProjectEndpoint c) = Ok p /\ EngineAddressForRegion p (rs_Region r) = Ok (rs_Engine r).
End Bound.

(** C24: A stored credential only goes where it belongs. When a configuration resolves, with the engine of its region where one is selected, a token and a certificate are never both used, and a token or certificate that no flag or variable supplied is the one of the selected context or of the environment that context belongs to. Without a region it goes to the engine of that context (a blank engine is no address), even when a flag or variable names another. With a region no certificate is used, no flag or variable names an engine, and the token goes to the regional address of the project that the control plane, asked with that token for the project of the context, answers; the control plane asked is the context's own when the context names one. *)
Theorem stored_credentials_bound {Storage Identity pool} (VN VV : string -> bool) parse_headers (read_ca : string -> option pool) keychain
    (key_pair key_pair_files : string -> string -> option Identity) (load_storage : Storage -> option Identity) token_exp project i r
    (Hok : resolveClient VN VV parse_headers read_ca keychain key_pair key_pair_files load_storage token_exp project i = Ok r) :
  (rs_Token r = "" \/ identity r = None) /\
  (rs_Token r <> "" -> firstNonEmpty (ri_Token i) = "" ->
     (exists auth b, owned (rs_Context r) (rs_Environment r) auth /\ TokenFromAuth keychain auth = Ok (rs_Token r, b)) /\
     destination project i r) /\
  (identity r <> None -> firstNonEmpty (ri_MTLSCert i) = "" -> firstNonEmpty (ri_MTLSKey i) = "" ->
     rs_Region r = "" /\ own_engine (rs_Context r) (rs_Engine r) /\
     exists auth, owned (rs_Context r) (rs_Environment r) auth /\
                  MTLSConfigFromAuth key_pair key_pair_files load_storage auth = Ok (identity r)) /\
  (forall c, rs_Context r = Some c -> cx_Name c = rs_ContextName r /\ c ∈ cf_Contexts (ri_Config i) /\
     (NormalizeAPIURL (cx_APIURL c) <> "" -> rs_APIURL r = NormalizeAPIURL (cx_APIURL c))) /\
  (forall e, rs_Environment r = Some e -> NormalizeAPIURL (ev_APIURL e) = NormalizeAPIURL (rs_APIURL r)).
Proof.
  unfold resolveClient in Hok. destruct (Resolve _ _ _ _ _ _ _ _ _ i) as [r0|] eqn:E; [|done].
  apply resolve_resolution in E as [[H1 H2 H3] Hc He _ _ _ Hr Hu].
  assert (Hctx : forall c, rs_Context r0 = Some c -> cx_Name c = rs_ContextName r0 /\ c ∈ cf_Contexts (ri_Config i) /\
     (NormalizeAPIURL (cx_APIURL c) <> "" -> rs_APIURL r0 = NormalizeAPIURL (cx_APIURL c))).
  { intros c Ec. destruct (Hc c Ec). split_and!; auto. }
  apply region_client in Hok as [[Hreg ->]|(Hreg & Hid & c & p & engine & Ec & Hp & Heng & ->)].
  - split_and!; try done.
    + intros Ht Hf. destruct (H2 Ht Hf) as [? ?]. split; [done|]. by left.
    + intros Hm Hf Hk. destruct (H3 Hm Hf Hk). done.
  - change (identity (regional r0 p engine)) with (identity r0). cbn [rs_Token rs_Context rs_Environment rs_Region rs_Engine rs_APIURL rs_ContextName regional].
    split_and!; try done.
    intros Ht Hf. destruct (H2 Ht Hf) as [_ ?]. split; [done|]. right. destruct (Hr Hreg). split; [done|]. split; [done|]. by exists c, p.
Qed.

(** A configuration that resolves has what was required of it: a token that has not expired or a client certificate when authentication is required, an engine or a region when an engine is required, and for a region a context with a project and no engine named besides. *)
Theorem resolve_requirements {Storage Identity pool} (VN VV : string -> bool) parse_headers (read_ca : string -> option pool) keychain
    (key_pair key_pair_files : string -> string -> option Identity) (load_storage : Storage -> option Identity) token_exp i r
    (Hok : Resolve VN VV parse_headers read_ca keychain key_pair key_pair_files load_storage token_exp i = Ok r) :
  (ri_RequireToken i = true -> rs_Token r <> "" \/ HasMTLS r = true) /\
  (rs_Token r <> "" -> isTokenExpired token_exp (rs_Token r) (ri_Now i) = false) /\
  (ri_RequireEngine i = true -> rs_Engine r <> "" \/ rs_Region r <> "") /\
  (rs_Region r <> "" -> firstNonEmpty (ri_Engine i) = "" /\ exists c, rs_Context r = Some c /\ TrimSpace (cx_ProjectEndpoint c) <> "").
Proof. by destruct (resolve_resolution _ _ _ _ _ _ _ _ _ _ _ Hok). Qed.

(** ** A configuration *)

Definition sample_context : Context_ () :=
  MkContext_ "prod" "https://api.example/" "edge" "edge.example:443" "" (Some (MkAuth (Some (Some (MkTokenStorage "inline" "" "secret" "" ""))) None)) None.

Definition sample_input (engine : string) : ResolveInput () :=
  MkInput (MkConfig_ (Some "prod") [] [sample_context]) [] [] [engine] [] [] [] [] [] None "" false true true true false 0.

Definition resolve_sample (engine : string) : result config_error (Resolved () () ()) :=
  Resolve (fun _ => true) (fun _ => true) (fun _ => None) (fun _ => None) (fun _ => None) (fun _ _ => None) (fun _ _ => None) (fun _ => None) (fun _ => None) (sample_input engine).

(** The stored token is refused for another engine. *)
Example other_engine_refused : resolve_sample "evil.example:443" = Err StoredTokenOverride.
Proof. vm_compute. reflexivity. Qed.

(** The control plane of the sample has a project with an endpoint in one region. *)
Definition sample_project (url token endpoint : string) : result config_error Project :=
  if bool_decide (url = "https://api.example") && bool_decide (token = "secret") && bool_decide (endpoint = "edge")
  then Ok (MkProject "edge" "" "example" 443 "global" [MkRegional "eu" "eu.example" 8443]) else Err NoToken.

Definition client_sample (region : string) : result config_error (Resolved () () ()) :=
  resolveClient (fun _ => true) (fun _ => true) (fun _ => None) (fun _ => None) (fun _ => None) (fun _ _ => None) (fun _ _ => None) (fun _ => None) (fun _ => None)
    sample_project {| (sample_input "") with ri_Region := [region] |}.

Lemma stored_credentials_bound_witness :
  (exists r, client_sample "" = Ok r /\ rs_Token r = "secret" /\ own_engine (rs_Context r) (rs_Engine r)) /\
  (exists r, client_sample "eu" = Ok r /\ rs_Token r = "secret" /\ rs_Engine r = "edge.eu.example:8443" /\
     destination sample_project {| (sample_input "") with ri_Region := ["eu"] |} r).
Proof.
  assert (H : forall region r, client_sample region = Ok r -> rs_Token r = "secret" -> destination sample_project {| (sample_input "") with ri_Region := [region] |} r).
  { intros region r Hr Ht.
    destruct (stored_credentials_bound (fun _ => true) (fun _ => true) (fun _ => None) (fun _ => None) (fun _ => None) (fun _ _ => None) (fun _ _ => None) (fun _ => None) (fun _ => None)
      sample_project {| (sample_input "") with ri_Region := [region] |} r Hr) as (_ & H & _).
    apply H; [rewrite Ht; discriminate|reflexivity]. }
  split.
  - destruct (client_sample "") as [r|] eqn:E; [|vm_compute in E; discriminate]. exists r. split; [reflexivity|].
    assert (Ht : rs_Token r = "secret") by (vm_compute in E; by injection E as <-). assert (Hr : rs_Region r = "") by (vm_compute in E; by injection E as <-).
    split; [exact Ht|]. destruct (H "" r E Ht) as [[_ Hd]|[Hn _]]; [exact Hd|by rewrite Hr in Hn].
  - destruct (client_sample "eu") as [r|] eqn:E; [|vm_compute in E; discriminate]. exists r. split; [reflexivity|].
    assert (Ht : rs_Token r = "secret") by (vm_compute in E; by injection E as <-). split; [exact Ht|]. split; [vm_compute in E; by injection E as <-|].
    apply (H "eu" r E Ht).
Defined.

Lemma resolve_requirements_witness : exists r, resolve_sample "edge.example:443" = Ok r /\ rs_Engine r = "edge.example:443" /\ (rs_Token r <> "" \/ HasMTLS r = true).
Proof.
  destruct (resolve_sample "edge.example:443") as [r|] eqn:E; [|vm_compute in E; discriminate]. exists r. split; [reflexivity|]. split; [vm_compute in E; by injection E as <-|].
  destruct (resolve_requirements (fun _ => true) (fun _ => true) (fun _ => None) (fun _ => None) (fun _ => None) (fun _ _ => None) (fun _ _ => None) (fun _ => None) (fun _ => None)
    (sample_input "edge.example:443") r E) as [H _].
  exact (H eq_refl).
Defined.
