(* ===== verification/Domains.v ===== *)
(** * Domains: generated host names and webhook signatures
    ([stable_domains.go], [webhook.go])

    Random bytes, SHA-256 HMAC and the JSON of events are the environment. *)

From S2P Require Import Prelude GoStrings GoURL GoNet TunnelProps.

(** ** Stable domains *)

(** The characters of the label expression. *)
Definition label_alnum (b : byte) : bool := byte_in 97 122 b || byte_in 48 57 b.
Definition label_byte (b : byte) : bool := label_alnum b || byte_eqb b x2d.

(** [stableDomainLabelRe]: one letter or digit, or up to 63 characters that end in one. *)
Definition label_ok (l : list byte) : bool :=
  match l with
  | [] => false
  | b :: r => label_alnum b && match rev r with
                               | [] => true
                               | e :: m => label_alnum e && forallb label_byte m && (length m <=? 61)%nat
                               end
  end.

(** [strings.Trim(value, brackets)]. *)
Fixpoint drop_brackets (s : list byte) : list byte :=
  match s with b :: r => if byte_eqb b x5b || byte_eqb b x5d then drop_brackets r else s | [] => [] end.

Definition engineHostname (engine : string) : string :=
  let value := TrimSpace engine in
  if bool_decide (value = "") then ""
  else
    let value := if Contains value "://" then match url_Parse (s2b value) with Some u => b2s (u_host u) | None => value end else value in
    let value := match SplitHostPort value with Some (host, _) => host | None => value end in
    let value := b2s (rev (drop_brackets (rev (drop_brackets (s2b value))))) in
    let value := ToLowerRunes (TrimSuffix (TrimSpace value) ".") in
    if match ParseIP value with Some _ => true | None => false end || contains_byte x3a (s2b value) then "" else value.

Definition validClusterDomain (domain : list byte) : bool := forallb label_ok (split_byte x2e domain).

(** The slug made of four random bytes. *)
Definition randomStableDomainSlug (random : option (list byte)) : option (list byte) := (fun buf => x72 :: hex_encode buf) <$> random.

(** A host name, none, or the failure of the random source. *)
Inductive generated := Generated (hostname : string) | NotApplicable | RandomFailed.

Definition GenerateStableDomain (engine : string) (random : option (list byte)) : generated :=
  let host := s2b (engineHostname engine) in
  if bool_decide (host = []) then NotApplicable
  else match split_byte x2e host with
       | projectEndpoint :: (_ :: _) as labels =>
           let clusterDomain := join_bytes [x2e] labels in
           if negb (label_ok projectEndpoint) || negb (validClusterDomain clusterDomain) then NotApplicable
           else
             let maxSlugLen := 63 - Z.of_nat (length projectEndpoint) - 1 in
             if maxSlugLen <? 9 then NotApplicable
             else match randomStableDomainSlug random with
                  | None => RandomFailed
                  | Some slug =>
                      let slug := if Z.of_nat (length slug) >? maxSlugLen then take (Z.to_nat maxSlugLen) slug else slug in
                      Generated (b2s (slug ++ [x2d] ++ projectEndpoint ++ [x2e; x74; x2e] ++ clusterDomain))
                  end
       | _ => NotApplicable
       end.

Section Props.
Context {Time : Type}.

(** [MaybeSetGeneratedStableDomain]; [None] when the random source fails. *)
Definition MaybeSetGeneratedStableDomain (p : TunnelProperties Time) (engine : string) (random : option (list byte)) : option (TunnelProperties Time) :=
  if match Hostname p with Some _ => true | None => false end || match Host p with Some _ => true | None => false end then Some p
  else if bool_decide (Publish p = Some false) then Some p
  else if bool_decide (Protocol p = Some ProtocolTCP) then Some p
  else match GenerateStableDomain engine random with
       | Generated h => Some {| p with Hostname := Some h |}
       | NotApplicable => Some p
       | RandomFailed => None
       end.
End Props.

Lemma split_byte_app c a s : forallb (fun b => negb (byte_eqb b c)) a = true -> split_byte c (a ++ c :: s) = a :: split_byte c s.
Proof.
  induction a as [|x a IH]; cbn [app split_byte forallb].
  - by rewrite byte_eqb_refl.
  - intros [Hx Ha]%andb_true_iff. apply negb_true_iff in Hx. rewrite Hx, (IH Ha). done.
Qed.

Lemma split_join c l : Forall (fun a => forallb (fun b => negb (byte_eqb b c)) a = true) l -> l <> [] -> split_byte c (join_bytes [c] l) = l.
Proof.
  induction l as [|a l IH]; [done|]. intros [Ha Hl]%Forall_cons _. destruct l as [|b l].
  - cbn [join_bytes]. clear -Ha. induction a as [|x a IH]; [done|]. cbn in *. apply andb_true_iff in Ha as [Hx Ha]. apply negb_true_iff in Hx. by rewrite Hx, (IH Ha).
  - change (join_bytes [c] (a :: b :: l)) with (a ++ c :: join_bytes [c] (b :: l)). rewrite split_byte_app by done. by rewrite (IH Hl).
Qed.

Lemma split_parts c s : Forall (fun a => forallb (fun b => negb (byte_eqb b c)) a = true) (split_byte c s).
Proof.
  induction s as [|b s IH]; cbn [split_byte]; [by repeat constructor|]. destruct (byte_eqb b c) eqn:E; [by constructor|].
  destruct (split_byte c s) as [|p ps]; [repeat constructor; cbn; by rewrite E|]. apply Forall_cons in IH as [Hp Hps]. constructor; [|done]. cbn. by rewrite E, Hp.
Qed.

Lemma label_alnum_byte b : label_alnum b = true -> label_byte b = true.
Proof. intros H. unfold label_byte. by rewrite H. Qed.

(** Labels: how they begin, what they are made of, how they end. *)
Lemma label_ok_spec l : label_ok l = true <->
  (exists b, head l = Some b /\ label_alnum b = true) /\ (exists e, last l = Some e /\ label_alnum e = true) /\ forallb label_byte l = true /\ (length l <= 63)%nat.
Proof.
  unfold label_ok. destruct l as [|b r]; [split; [done|intros [(? & ? & ?) _]; done]|]. destruct r as [|e m _] using rev_ind.
  - cbn. rewrite andb_true_r. split; [intros H; repeat split; [eauto|eauto| |lia]; rewrite label_alnum_byte by done; done|]. intros [(x & [= ->] & H) _]. done.
  - rewrite rev_unit. replace (b :: m ++ [e]) with ((b :: m) ++ [e]) by done. rewrite last_snoc, forallb_app, length_app. cbn [head app forallb length]. rewrite andb_true_r.
    assert (Hrev : forallb label_byte (rev m) = forallb label_byte m).
    { apply eq_bool_prop_intro. rewrite !Is_true_true, !forallb_forall. split; intros H x Hx; apply H; by apply in_rev; rewrite ?rev_involutive. }
    rewrite Hrev, length_rev, !andb_true_iff, Nat.leb_le. split.
    + intros (Hb & (He & Hm) & Hl). repeat split; [by exists b|by exists e|by apply label_alnum_byte|done|by apply label_alnum_byte|lia].
    + intros ((x & [= <-] & Hb) & (y & [= <-] & He) & ((_ & Hm) & _) & Hl). repeat split; try done. lia.
Qed.

Lemma hex_digit_label n : 0 <= n < 16 -> label_alnum (hex_digit n) = true.
Proof.
  intros H. assert (Hall : forallb (fun n => label_alnum (hex_digit n)) (seqZ 0 16) = true) by (vm_compute; reflexivity).
  rewrite forallb_forall in Hall. apply Hall, list_elem_of_In, elem_of_seqZ. lia.
Qed.

Lemma hex_encode_label l : forallb label_alnum (hex_encode l) = true.
Proof.
  induction l as [|b l IH]; [done|]. unfold hex_encode in *. rewrite fmap_cons. cbn [concat]. rewrite forallb_app, IH. cbn [forallb].
  pose proof (b2z_range b) as Hb. rewrite !hex_digit_label; [done|split; [apply Z.mod_pos_bound; lia|apply Z.mod_pos_bound; lia]|split; [apply Z.div_pos; lia|apply Z.div_lt_upper_bound; lia]].
Qed.

Lemma forallb_weaken {A} (p q : A -> bool) l : (forall x, p x = true -> q x = true) -> forallb p l = true -> forallb q l = true.
Proof. intros H. rewrite !forallb_forall. auto. Qed.

Lemma label_no_dot b : label_byte b = true -> negb (byte_eqb b x2e) = true.
Proof. intros H. apply negb_true_iff. destruct (byte_eqb b x2e) eqn:E; [|done]. apply byte_eqb_eq in E as ->. done. Qed.

Lemma label_ok_no_dot l : label_ok l = true -> forallb (fun b => negb (byte_eqb b x2e)) l = true.
Proof. intros (_ & _ & H & _)%label_ok_spec. eapply forallb_weaken; [|exact H]. apply label_no_dot. Qed.

(** The first label of a generated name. *)
Lemma slug_label buf project : length buf = 4%nat -> label_ok project = true -> (length project <= 53)%nat -> label_ok (x72 :: hex_encode buf ++ [x2d] ++ project) = true.
Proof.
  intros Hb Hp Hl. apply label_ok_spec in Hp as (_ & (e & He & Hae) & Hf & _). apply label_ok_spec. split; [by exists x72|]. split.
  - exists e. split; [|done]. apply last_Some in He as [l' ->].
    replace (x72 :: hex_encode buf ++ [x2d] ++ l' ++ [e]) with ((x72 :: hex_encode buf ++ [x2d] ++ l') ++ [e]) by (cbn [app]; rewrite <-!app_assoc; done).
    by rewrite last_snoc.
  - split; [|cbn; rewrite !length_app, length_hex_encode, Hb; cbn; lia]. cbn [forallb]. rewrite !forallb_app, Hf. cbn.
    rewrite (forallb_weaken label_alnum label_byte); [done|apply label_alnum_byte|apply hex_encode_label].
Qed.

(** A generated stable domain is a well-formed host name: every label is made of at most 63 lower-case letters, digits and dashes and neither begins nor ends with a dash; its first label is the random slug, a dash and the project's label, then come "t" and the labels of the cluster's domain. *)
Theorem stable_domain_valid (engine : string) (buf : list byte) (hostname : string) (Hlen : length buf = 4%nat)
    (Hgen : GenerateStableDomain engine (Some buf) = Generated hostname) :
  Forall (fun l => label_ok l = true) (split_byte x2e (s2b hostname)) /\
  exists project cluster, split_byte x2e (s2b (engineHostname engine)) = project :: cluster /\
    split_byte x2e (s2b hostname) = (x72 :: hex_encode buf ++ [x2d] ++ project) :: [x74] :: cluster.
Proof.
  unfold GenerateStableDomain in Hgen. case_bool_decide; [done|]. pose proof (split_parts x2e (s2b (engineHostname engine))) as Hparts.
  destruct (split_byte x2e _) as [|project [|c cs]]; [done|done|]. destruct (label_ok project) eqn:Ep; [|done]. cbn [negb orb] in Hgen.
  apply Forall_cons in Hparts as [_ Hcl]. unfold validClusterDomain in Hgen. rewrite (split_join x2e (c :: cs)) in Hgen by done.
  destruct (forallb label_ok (c :: cs)) eqn:Ec; [|done]. cbn [negb] in Hgen. destruct (_ <? 9) eqn:Em; [done|]. apply Z.ltb_ge in Em.
  unfold randomStableDomainSlug in Hgen. cbn [fmap option_fmap option_map] in Hgen.
  assert (Hs : length (x72 :: hex_encode buf) = 9%nat) by (cbn; rewrite length_hex_encode; lia). rewrite Hs in Hgen.
  destruct (Z.of_nat 9 >? _) eqn:Eg; [apply Z.gtb_lt in Eg; lia|]. injection Hgen as <-. rewrite s2b_b2s.
  assert (Hslug : label_ok (x72 :: hex_encode buf ++ [x2d] ++ project) = true) by (apply slug_label; [done|done|lia]).
  assert (Hsp : split_byte x2e ((x72 :: hex_encode buf) ++ [x2d] ++ project ++ [x2e; x74; x2e] ++ join_bytes [x2e] (c :: cs)) =
                (x72 :: hex_encode buf ++ [x2d] ++ project) :: [x74] :: c :: cs).
  { replace ((x72 :: hex_encode buf) ++ [x2d] ++ project ++ [x2e; x74; x2e] ++ join_bytes [x2e] (c :: cs))
      with ((x72 :: hex_encode buf ++ [x2d] ++ project) ++ x2e :: ([x74] ++ x2e :: join_bytes [x2e] (c :: cs))) by (cbn [app]; rewrite <-!app_assoc; done).
    rewrite split_byte_app by (by apply label_ok_no_dot). rewrite split_byte_app by done. by rewrite split_join. }
  match goal with |- context [split_byte x2e ?x] => replace (split_byte x2e x) with ((x72 :: hex_encode buf ++ [x2d] ++ project) :: [x74] :: c :: cs) by (symmetry; exact Hsp) end.
  split; [|by exists project, (c :: cs)]. constructor; [done|]. constructor; [done|]. apply Forall_forall. intros x Hx.
  rewrite forallb_forall in Ec. apply Ec. by apply list_elem_of_In.
Qed.

Lemma stable_domain_valid_witness :
  GenerateStableDomain " https://Edge.eu.example.com:443/ " (Some [x01; x02; xab; xff]) = Generated "r0102abff-edge.t.eu.example.com" /\
  Forall (fun l => label_ok l = true) (split_byte x2e (s2b "r0102abff-edge.t.eu.example.com")).
Proof.
  assert (H : GenerateStableDomain " https://Edge.eu.example.com:443/ " (Some [x01; x02; xab; xff]) = Generated "r0102abff-edge.t.eu.example.com") by (vm_compute; reflexivity).
  split; [exact H|]. exact (proj1 (stable_domain_valid _ [x01; x02; xab; xff] _ eq_refl H)).
Defined.

(** ** Webhooks *)

Definition IsWebhookDeliverableEventType (eventType : string) : bool :=
  existsb (fun t => bool_decide (TrimSpace eventType = t)) ["client.created"; "client.deleted"; "tunnel.created"; "tunnel.deleted"].

(** The identity of an event, as far as delivery looks at it. *)
Record Event := MkEvent { ee_ID : string; ee_Type : string; ee_CreatedAt : string }.
Record WebhookEvent := MkWebhookEvent { we_ID : string; we_Type : string; we_CreatedAt : string }.

Inductive webhook_error := NotDeliverable (t : string) | EventIDRequired | EventTypeRequired | WebhookIDRequired | DeliveryIDRequired | SecretRequired.

(** [now] is the creation time in its printed form. *)
Definition EventToWebhookEvent (event : Event) (fallbackID now : string) : result webhook_error WebhookEvent :=
  let eventType := TrimSpace (ee_Type event) in
  if negb (IsWebhookDeliverableEventType eventType) then Err (NotDeliverable (ee_Type event))
  else
    let eventID := TrimSpace (ee_ID event) in
    let eventID := if bool_decide (eventID = "") then TrimSpace fallbackID else eventID in
    if bool_decide (eventID = "") then Err EventIDRequired
    else
      let timestamp := TrimSpace (ee_CreatedAt event) in
      Ok (MkWebhookEvent eventID eventType (if bool_decide (timestamp = "") then now else timestamp)).

Section Webhooks.
Context (hmac : string -> list byte -> list byte).

(** The bytes that are authenticated, for a time in seconds. *)
Definition signed_payload (timestamp : Z) (body : list byte) : list byte := s2b (Itoa timestamp) ++ [x2e] ++ body.

Definition SignWebhookPayload (body : list byte) (secret : string) (timestamp : Z) : result webhook_error string :=
  let secret := TrimSpace secret in
  if bool_decide (secret = "") then Err SecretRequired
  else Ok ("t=" +:+ Itoa timestamp +:+ ",v1=" +:+ b2s (hex_encode (hmac secret (signed_payload timestamp body)))).

Record WebhookHeaderValues := MkHeaderValues { wh_Signature : string; wh_EventID : string; wh_EventType : string; wh_WebhookID : string; wh_DeliveryID : string }.

(** [timestamp] is the zero time when absent; [now] is the clock. *)
Definition BuildWebhookHeaderValues (body : list byte) (event : WebhookEvent) (secret webhookID deliveryID : string) (timestamp : option Z) (now : Z) : result webhook_error WebhookHeaderValues :=
  let eventID := TrimSpace (we_ID event) in
  let eventType := TrimSpace (we_Type event) in
  let webhookID := TrimSpace webhookID in
  let deliveryID := TrimSpace deliveryID in
  if bool_decide (eventID = "") then Err EventIDRequired
  else if bool_decide (eventType = "") then Err EventTypeRequired
  else if bool_decide (webhookID = "") then Err WebhookIDRequired
  else if bool_decide (deliveryID = "") then Err DeliveryIDRequired
  else let? signature := SignWebhookPayload body secret (default now timestamp) in Ok (MkHeaderValues signature eventID eventType webhookID deliveryID).
End Webhooks.

(** *** Decimal numbers *)

Lemma digits_app fuel n acc : digits_fuel fuel n acc = digits_fuel fuel n [] ++ acc.
Proof.
  revert n acc. induction fuel as [|fuel IH]; intros n acc; [done|]. cbn [digits_fuel]. cbv zeta. destruct (n <? 10); [done|]. rewrite IH. rewrite (IH _ [_]). by rewrite <-app_assoc.
Qed.

Lemma digit_value d : 0 <= d < 10 -> b2z (z2b (48 + d)) = 48 + d.
Proof. intros H. rewrite b2z_z2b. apply Z.mod_small. lia. Qed.

Lemma dec_value_snoc a l b : dec_value a (l ++ [b]) = dec_value a l * 10 + (b2z b - 48).
Proof. unfold dec_value. by rewrite fold_left_app. Qed.

Lemma digits_value fuel n : 0 <= n < 10 ^ Z.of_nat fuel -> dec_value 0 (digits_fuel fuel n []) = n.
Proof.
  revert n. induction fuel as [|fuel IH]; intros n Hn; [cbn in *; lia|]. cbn [digits_fuel]. cbv zeta. pose proof (Z.mod_pos_bound n 10 ltac:(lia)) as Hm.
  destruct (n <? 10) eqn:E.
  - apply Z.ltb_lt in E. unfold dec_value. cbn [fold_left]. rewrite digit_value by lia. rewrite Z.mod_small by lia. lia.
  - apply Z.ltb_ge in E. rewrite digits_app, dec_value_snoc, digit_value by lia. rewrite IH; [pose proof (Z.div_mod n 10 ltac:(lia)); lia|].
    rewrite Nat2Z.inj_succ, Z.pow_succ_r in Hn by lia. split; [apply Z.div_pos; lia|apply Z.div_lt_upper_bound; lia].
Qed.

Lemma digits_digits fuel n acc : 0 <= n -> forallb is_digit acc = true -> forallb is_digit (digits_fuel fuel n acc) = true.
Proof.
  revert n acc. induction fuel as [|fuel IH]; intros n acc Hn Ha; [done|]. cbn [digits_fuel]. cbv zeta. pose proof (Z.mod_pos_bound n 10 ltac:(lia)) as Hm.
  assert (Hd : forallb is_digit (z2b (48 + n mod 10) :: acc) = true).
  { cbn [forallb]. rewrite Ha, andb_true_r. unfold is_digit, byte_in. rewrite digit_value by lia. apply andb_true_iff. rewrite !Z.leb_le. lia. }
  destruct (n <? 10); [done|]. apply IH; [apply Z.div_pos; lia|done].
Qed.

(** A 64-bit number as text: no dot, and one text for each number. *)
Lemma Itoa_no_dot n : forallb (fun b => negb (byte_eqb b x2e)) (s2b (Itoa n)) = true.
Proof.
  assert (Hd : forall b, is_digit b = true -> negb (byte_eqb b x2e) = true).
  { intros b H. apply negb_true_iff. destruct (byte_eqb b x2e) eqn:E; [|done]. apply byte_eqb_eq in E as ->. done. }
  unfold Itoa. destruct (n <? 0) eqn:E; rewrite s2b_b2s.
  - cbn [forallb]. apply (forallb_weaken _ _ _ Hd). apply digits_digits; [lia|done].
  - apply (forallb_weaken _ _ _ Hd). apply digits_digits; [lia|done].
Qed.

Lemma cons_tail {A} (x : A) l l' : x :: l = x :: l' -> l = l'.
Proof. by intros [= ->]. Qed.

Lemma Itoa_inj n m : - 2 ^ 63 <= n < 2 ^ 63 -> - 2 ^ 63 <= m < 2 ^ 63 -> s2b (Itoa n) = s2b (Itoa m) -> n = m.
Proof.
  intros Hn Hm. assert (Hb : 2 ^ 63 < 10 ^ Z.of_nat 32) by done.
  assert (Hneg : forall k l, 0 <= k -> x2d :: l = digits_fuel 32 k [] -> False).
  { intros k l Hk Hl. pose proof (digits_digits 32 k [] Hk eq_refl) as Hd. rewrite <-Hl in Hd. cbn [forallb] in Hd. apply andb_true_iff in Hd as [Hd _]. discriminate Hd. }
  unfold Itoa. destruct (n <? 0) eqn:En, (m <? 0) eqn:Em; rewrite !s2b_b2s; intros H.
  - apply cons_tail in H. apply (f_equal (dec_value 0)) in H. rewrite !digits_value in H by lia. lia.
  - destruct (Hneg m (digits_fuel 32 (- n) [])); [lia|done].
  - destruct (Hneg n (digits_fuel 32 (- m) [])); [lia|done].
  - apply (f_equal (dec_value 0)) in H. rewrite !digits_value in H by lia. lia.
Qed.

Lemma split_dot a b s t : forallb (fun c => negb (byte_eqb c x2e)) a = true -> forallb (fun c => negb (byte_eqb c x2e)) b = true -> a ++ x2e :: s = b ++ x2e :: t -> a = b /\ s = t.
Proof.
  revert b. induction a as [|x a IH]; intros [|y b]; cbn [app forallb]; intros Ha Hb H; injection H; intros; subst; try done.
  apply andb_true_iff in Ha as [_ Ha], Hb as [_ Hb]. by destruct (IH b Ha Hb) as [-> ->].
Qed.

(** A webhook signature covers the time and the body of a delivery without ambiguity: the bytes it authenticates determine both, so that a signature cannot be moved to another time or another body by shifting the border between them. *)
Theorem webhook_payload_binds (body body' : list byte) (t t' : Z) (Ht : - 2 ^ 63 <= t < 2 ^ 63) (Ht' : - 2 ^ 63 <= t' < 2 ^ 63)
    (Heq : signed_payload t body = signed_payload t' body') : t = t' /\ body = body'.
Proof.
  unfold signed_payload in Heq. cbn [app] in Heq. apply split_dot in Heq as [H1 H2]; [|apply Itoa_no_dot|apply Itoa_no_dot]. split; [by apply Itoa_inj|done].
Qed.

Lemma webhook_payload_binds_witness : signed_payload 1700000000 (s2b "{}") = s2b "1700000000.{}" /\ (1700000000 = 1700000000 /\ s2b "{}" = s2b "{}").
Proof. split; [vm_compute; reflexivity|]. apply (webhook_payload_binds (s2b "{}") (s2b "{}") 1700000000 1700000000); [lia|lia|reflexivity]. Defined.
