(* ===== verification/AutoTransport.v ===== *)
(** * AutoTransport: the race of QUIC and TLS ([auto_transport.go])

    [AutoTransport.Dial] races a QUIC dial against a TLS dial that starts after a
    delay or when QUIC fails, pins the transport that answers first, and leaves a
    cleanup goroutine to close what the loser still delivers.  [Close] ends a
    generation: it cancels a selection that is running, closes the pinned
    transport and waits for the selection and its cleanup.

    The model interleaves any number of [Dial] and [Close] calls with the dial
    goroutines of the race.  A step is one critical section of [t.mu], one channel
    operation, or one answer of a dialer; contexts may end and the fallback timer
    may fire at any time.  Connections are numbered and carry what became of them:
    open, handed to a caller, closed.  A selection is numbered too; its
    [selectionDone] channel is closed when it is not the running one, and the
    channel of its cleanup when it is not the racing one. *)

From S2P Require Import Prelude.

(** ** Data *)

Inductive mode := QUIC | TLS.

#[export] Instance mode_eq_dec : EqDecision mode.
Proof. solve_decision. Defined.

Inductive conn_state := COpen | CReturned | CClosed.

(** [autoTransportResult]: the connection of a dial that succeeded. *)
Record autoTransportResult := MkResult { ar_mode : mode; ar_conn : option nat }.

Inductive race_phase :=
| RSelecting
| RCleanup (count : nat) (winner : option mode).     (* [cleanupAutoTransportResults] *)

#[export] Instance race_phase_eq_dec : EqDecision race_phase.
Proof. solve_decision. Defined.

(** One call of [selectTransport] with its goroutines, until the last is gone. *)
Record race := MkRace {
  r_dialing : list mode;                  (* goroutines in [transport.Dial] *)
  r_results : list autoTransportResult;   (* the channel of capacity two *)
  r_started : nat;
  r_completed : nat;
  r_tlsStarted : bool;
  r_phase : race_phase;
}.

(** What [selectTransport] returns; [cleanup]: whether [cleanupDone] is not nil. *)
Inductive selection := SelFailed (cleanup : bool) | SelWon (c : nat) (m : mode) (cleanup : bool).

Inductive dial_error := EClosed | ECancelled | EFailed.

Inductive dial_pc :=
| PStart
| PLoop (generation : Z)
| PWaitSelection (generation : Z) (d : nat)
| PWaitCleanup (generation : Z) (d : nat)
| PSelecting (generation : Z) (id : nat)
| PPublish (generation : Z) (id : nat) (o : selection)
| PStale (id : nat)                         (* waits for the cleanup of a stale selection *)
| PDialing (m : mode)                       (* in [selected.Dial] *)
| PReturned (r : result dial_error (option nat)).    (* the race's connection, if it is one *)

(** [Close]: with what it saw under the lock (a selection and a cleanup to wait
    for, the transport to close), waiting for either, returned.  [race] is the
    selection that was racing when it took the lock. *)
Inductive close_pc :=
| KSeen (selected : option mode) (sel cleanup : option nat) (race : option nat)
| KWaitSelection (d : nat) (race : option nat)
| KWaitCleanup (c : option nat) (race : option nat)
| KReturned (race : option nat).

Record auto := MkAuto {
  at_selected : option mode;
  at_selecting : bool;
  at_selectionDone : nat;
  at_waiters : Z;
  at_cleanupDone : option nat;
  at_generation : Z;
  at_race : option (nat * race);
  at_next : nat;
  at_conns : gmap nat conn_state;
  at_dials : gmap nat dial_pc;
  at_closes : gmap nat close_pc;
  at_closed : list mode;                    (* transports closed, newest first *)
}.

Definition new_auto : auto := MkAuto None false 0 0 None 0 None 1 ∅ ∅ ∅ [].

Definition set_dial (k : nat) (p : dial_pc) (s : auto) : auto := {| s with at_dials := <[k := p]> (at_dials s) |}.
Definition set_close (k : nat) (p : close_pc) (s : auto) : auto := {| s with at_closes := <[k := p]> (at_closes s) |}.
Definition set_conn (c : nat) (x : conn_state) (s : auto) : auto := {| s with at_conns := <[c := x]> (at_conns s) |}.

(** [closeAutoTransport]: only the QUIC transport has a [Close]. *)
Definition closeAutoTransport (m : option mode) (s : auto) : auto :=
  match m with Some QUIC => {| s with at_closed := QUIC :: at_closed s |} | _ => s end.

(** ** [Dial] *)

Definition new_race : race := MkRace [QUIC] [] 1 0 false RSelecting.

(** One iteration of the loop of [Dial], under the lock; [g] is the generation
    the call belongs to. *)
Definition dial_iteration (k : nat) (g : Z) (s : auto) : auto :=
  if negb (at_generation s =? g) then set_dial k (PReturned (Err EClosed)) s
  else match at_selected s with
  | Some m => set_dial k (PDialing m) s
  | None =>
      if at_selecting s then
        set_dial k (PWaitSelection g (at_selectionDone s)) {| s with at_waiters := at_waiters s + 1 |}
      else match at_cleanupDone s with
      | Some d => set_dial k (PWaitCleanup g d) s
      | None =>
          let id := at_next s in
          set_dial k (PSelecting g id)
            {| s with at_selecting := true; at_selectionDone := id; at_next := S id; at_race := Some (id, new_race) |}
      end
  end.

Definition selection_closed (d : nat) (s : auto) : bool := negb (at_selecting s && bool_decide (at_selectionDone s = d)).

Definition cleanup_closed (d : nat) (s : auto) : bool :=
  match at_race s with Some (id, _) => negb (bool_decide (id = d)) | None => true end.

(** The steps of [Dial] outside [selectTransport]; [cancelled] is the branch of a
    select on the caller's context, [answer] what the pinned transport answers. *)
Definition Dial (k : nat) (cancelled : bool) (answer : bool) (s : auto) : option auto :=
  match at_dials s !! k with
  | Some PStart => Some (dial_iteration k (at_generation s) s)
  | Some (PLoop g) => Some (dial_iteration k g s)
  | Some (PWaitSelection g d) =>
      let s1 := {| s with at_waiters := at_waiters s - 1 |} in
      if cancelled then Some (set_dial k (PReturned (Err ECancelled)) s1)
      else if selection_closed d s then Some (set_dial k (PLoop g) s1) else None
  | Some (PWaitCleanup g d) =>
      if cancelled then Some (set_dial k (PReturned (Err ECancelled)) s)
      else if cleanup_closed d s then
        let s1 := if bool_decide (at_cleanupDone s = Some d) then {| s with at_cleanupDone := None |} else s in
        Some (set_dial k (PLoop g) s1)
      else None
  | Some (PPublish g id o) =>
      if negb (g =? at_generation s) then
        (* stale: close the connection and the transport, wait for the cleanup *)
        Some (set_dial k (PStale id)
          match o with
          | SelWon c m _ => closeAutoTransport (Some m) (set_conn c CClosed s)
          | SelFailed _ => s
          end)
      else
        let cleanup := match o with SelFailed b | SelWon _ _ b => b end in
        let s1 := {| s with at_cleanupDone := if cleanup then Some id else at_cleanupDone s; at_selecting := false |} in
        match o with
        | SelWon c m _ => Some (set_dial k (PReturned (Ok (Some c))) (set_conn c CReturned {| s1 with at_selected := Some m |}))
        | SelFailed _ => Some (set_dial k (PReturned (Err EFailed)) s1)
        end
  | Some (PStale id) =>
      if cleanup_closed id s
      then Some (set_dial k (PReturned (Err EClosed)) {| s with at_selecting := false |}) else None
  | Some (PDialing m) => Some (set_dial k (PReturned (if answer then Ok None else Err EFailed)) s)
  | _ => None
  end.

Definition Dial_call (k : nat) (s : auto) : option auto :=
  match at_dials s !! k with None => Some (set_dial k PStart s) | Some _ => None end.

(** ** [selectTransport] *)

(** [cleanupAutoTransportResultsAsync]: nothing to clean ends the race. *)
Definition leave_race (id count : nat) (winner : option mode) (r : race) (s : auto) : auto :=
  {| s with at_race := match count with
                       | O => None
                       | S _ => Some (id, {| r with r_phase := RCleanup count winner |})
                       end |}.

Definition startTLS (r : race) : race :=
  if r_tlsStarted r then r
  else {| r with r_tlsStarted := true; r_started := S (r_started r); r_dialing := r_dialing r ++ [TLS] |}.

Inductive sel_event := EvContext | EvTimer | EvResult.

(** One iteration of the select loop by the call [k] that runs the selection. *)
Definition selectTransport (k : nat) (ev : sel_event) (s : auto) : option auto :=
  match at_dials s !! k, at_race s with
  | Some (PSelecting g id), Some (id', r) =>
      if bool_decide (id = id') && bool_decide (r_phase r = RSelecting) then
        match ev with
        | EvContext =>
            let rest := (r_started r - r_completed r)%nat in
            Some (set_dial k (PPublish g id (SelFailed (bool_decide (rest <> O)))) (leave_race id rest None r s))
        | EvTimer => Some {| s with at_race := Some (id, startTLS r) |}
        | EvResult =>
            match r_results r with
            | [] => None
            | x :: results =>
                let r := {| r with r_results := results; r_completed := S (r_completed r) |} in
                match ar_conn x with
                | Some c =>
                    let rest := (r_started r - r_completed r)%nat in
                    Some (set_dial k (PPublish g id (SelWon c (ar_mode x) (bool_decide (rest <> O))))
                           (leave_race id rest (Some (ar_mode x)) r s))
                | None =>
                    let r := match ar_mode x with QUIC => startTLS r | TLS => r end in
                    if bool_decide (r_completed r < r_started r)%nat || negb (r_tlsStarted r)
                    then Some {| s with at_race := Some (id, r) |}
                    else Some (set_dial k (PPublish g id (SelFailed false)) {| s with at_race := None |})
                end
            end
        end
      else None
  | _, _ => None
  end.

(** A dial goroutine gets its answer and sends it to the channel. *)
Definition dial_answer (m : mode) (ok : bool) (s : auto) : option auto :=
  match at_race s with
  | Some (id, r) =>
      if bool_decide (m ∈ r_dialing r) then
        let c := at_next s in
        let '(conn, s1) := if ok then (Some c, set_conn c COpen {| s with at_next := S c |}) else (None, s) in
        Some {| s1 with at_race := Some (id, {| r with r_dialing := filter (fun x => x <> m) (r_dialing r);
                                                      r_results := r_results r ++ [MkResult m conn] |}) |}
      else None
  | None => None
  end.

(** [cleanupAutoTransportResults]: one result; the last one ends the race. *)
Definition cleanupAutoTransportResults (s : auto) : option auto :=
  match at_race s with
  | Some (id, r) =>
      match r_phase r, r_results r with
      | RCleanup (S count) winner, x :: results =>
          let s1 := match ar_conn x with Some c => set_conn c CClosed s | None => s end in
          let s2 := if negb (bool_decide (Some (ar_mode x) = winner)) && bool_decide (ar_mode x = QUIC)
                    then closeAutoTransport (Some (ar_mode x)) s1 else s1 in
          Some {| s2 with at_race := match count with
                                     | O => None
                                     | S _ => Some (id, {| r with r_results := results; r_phase := RCleanup count winner |})
                                     end |}
      | _, _ => None
      end
  | None => None
  end.

(** ** [Close] *)

Definition Close_call (k : nat) (s : auto) : option auto :=
  match at_closes s !! k with
  | Some _ => None
  | None => Some (set_close k (KSeen (at_selected s) (if at_selecting s then Some (at_selectionDone s) else None)
                                 (at_cleanupDone s) (fst <$> at_race s))
              {| s with at_generation := u64 (at_generation s + 1); at_selected := None |})
  end.

Definition Close (k : nat) (s : auto) : option auto :=
  match at_closes s !! k with
  | Some (KSeen selected sel cleanup race) =>
      Some (set_close k (match sel with Some d => KWaitSelection d race | None => KWaitCleanup cleanup race end)
             (closeAutoTransport selected s))
  | Some (KWaitSelection d race) =>
      if selection_closed d s then Some (set_close k (KWaitCleanup (at_cleanupDone s) race) s) else None
  | Some (KWaitCleanup None race) => Some (set_close k (KReturned race) s)
  | Some (KWaitCleanup (Some c) race) =>
      if cleanup_closed c s then
        Some (set_close k (KReturned race)
               (if bool_decide (at_cleanupDone s = Some c) then {| s with at_cleanupDone := None |} else s))
      else None
  | _ => None
  end.

(** ** Interleavings *)

Inductive action :=
| DoDialCall (k : nat)
| DoDial (k : nat) (cancelled answer : bool)
| DoSelect (k : nat) (ev : sel_event)
| DoAnswer (m : mode) (ok : bool)
| DoCleanup
| DoCloseCall (k : nat)
| DoClose (k : nat).

Definition step (a : action) (s : auto) : option auto :=
  match a with
  | DoDialCall k => Dial_call k s
  | DoDial k cancelled answer => Dial k cancelled answer s
  | DoSelect k ev => selectTransport k ev s
  | DoAnswer m ok => dial_answer m ok s
  | DoCleanup => cleanupAutoTransportResults s
  | DoCloseCall k => Close_call k s
  | DoClose k => Close k s
  end.

Definition moves (s s' : auto) : Prop := exists a, step a s = Some s'.
Definition reachable (s : auto) : Prop := rtc moves new_auto s.

(** ** The invariant *)

(** The selection a call runs or publishes. *)
Definition owner_of (p : dial_pc) : option nat :=
  match p with PSelecting _ id | PPublish _ id _ | PStale id => Some id | _ => None end.

(** The connection a call is about to publish. *)
Definition held_by (p : dial_pc) : option nat :=
  match p with PPublish _ _ (SelWon c _ _) => Some c | _ => None end.

Definition in_results (s : auto) (c : nat) : Prop :=
  exists id r, at_race s = Some (id, r) /\ c ∈ omap ar_conn (r_results r).

(** The goroutines and the results of a race add up. *)
Record race_ok (r : race) : Prop := {
  ro_dialing : NoDup (r_dialing r);
  ro_tls : r_tlsStarted r = false -> TLS ∉ r_dialing r ++ (ar_mode <$> r_results r);
  ro_started : r_started r = (if r_tlsStarted r then 2 else 1)%nat;
  ro_count : match r_phase r with
             | RSelecting => (length (r_results r) + length (r_dialing r) + r_completed r = r_started r)%nat /\
                             (r_completed r < r_started r)%nat
             | RCleanup n _ => (length (r_results r) + length (r_dialing r) = n)%nat /\ (0 < n)%nat
             end;
  ro_conns : NoDup (omap ar_conn (r_results r));
}.

Record inv (s : auto) : Prop := {
  a_own : forall k p id, at_dials s !! k = Some p -> owner_of p = Some id ->
            at_selecting s = true /\ at_selectionDone s = id;
  a_unique : forall k k' p p', at_dials s !! k = Some p -> at_dials s !! k' = Some p' ->
            owner_of p <> None -> owner_of p' <> None -> k = k';
  a_owned : at_selecting s = true -> exists k p, at_dials s !! k = Some p /\ owner_of p = Some (at_selectionDone s);
  a_free : at_selecting s = true -> at_selected s = None /\ at_cleanupDone s = None;
  a_race : forall id r, at_race s = Some (id, r) -> race_ok r /\
            match r_phase r with
            | RSelecting => exists k g, at_dials s !! k = Some (PSelecting g id)
            | RCleanup _ _ => (at_selecting s = true /\ at_selectionDone s = id) \/ at_cleanupDone s = Some id
            end;
  a_selecting : forall k g id, at_dials s !! k = Some (PSelecting g id) ->
            exists r, at_race s = Some (id, r) /\ r_phase r = RSelecting;
  a_publish : forall k g id o, at_dials s !! k = Some (PPublish g id o) ->
            match o with SelFailed b | SelWon _ _ b => b = false -> at_race s = None end;
  a_held : forall k p c, at_dials s !! k = Some p -> held_by p = Some c ->
            at_conns s !! c = Some COpen /\ ~ in_results s c;
  a_results : forall c, in_results s c -> at_conns s !! c = Some COpen;
  a_open : forall c, at_conns s !! c = Some COpen ->
            in_results s c \/ exists k p, at_dials s !! k = Some p /\ held_by p = Some c;
  a_returned : forall k c, at_dials s !! k = Some (PReturned (Ok (Some c))) -> at_conns s !! c = Some CReturned;
  a_fresh : (forall c x, at_conns s !! c = Some x -> (c < at_next s)%nat) /\
            (forall id r, at_race s = Some (id, r) -> (id < at_next s)%nat) /\ (at_selectionDone s < at_next s)%nat;
}.

Definition racing (s : auto) (id : nat) : Prop := exists r, at_race s = Some (id, r).

(** What a [Close] still has to wait for. *)
Definition close_ok (s : auto) (p : close_pc) : Prop :=
  match p with
  | KSeen _ (Some d) _ (Some id) | KWaitSelection d (Some id) => (id < at_next s)%nat /\ (racing s id -> d = id)
  | KSeen _ None c (Some id) | KWaitCleanup c (Some id) => (id < at_next s)%nat /\ (racing s id -> c = Some id)
  | KReturned (Some id) => (id < at_next s)%nat /\ ~ racing s id
  | _ => True
  end.

Definition inv_closes (s : auto) : Prop := forall k p, at_closes s !! k = Some p -> close_ok s p.

(** ** Preservation *)

Ltac inv_open H := destruct H as [a_own a_unique a_owned a_free a_race a_selecting a_publish a_held a_results a_open a_returned a_fresh].

(** A call that holds nothing moves to a place where it holds nothing. *)
Definition idle (p : dial_pc) : Prop :=
  owner_of p = None /\ (forall c, p <> PReturned (Ok (Some c))).

Lemma idle_held p : owner_of p = None -> held_by p = None.
Proof. by destruct p. Qed.

Lemma inv_idle s k p p' :
  inv s -> at_dials s !! k = p -> (forall q, p = Some q -> owner_of q = None) -> idle p' -> inv (set_dial k p' s).
Proof.
  intros Hi Hk Hp [Ho Hr]. inv_open Hi.
  assert (Hlk : forall k' q, <[k := p']> (at_dials s) !! k' = Some q -> owner_of q <> None ->
    k' <> k /\ at_dials s !! k' = Some q).
  { intros k' q [[<- <-]|[? ?]]%lookup_insert_Some Hq; [done|]. done. }
  assert (Hkeep : forall k' q, at_dials s !! k' = Some q -> owner_of q <> None -> <[k := p']> (at_dials s) !! k' = Some q).
  { intros k' q Hq Hn. rewrite lookup_insert_ne; [done|]. intros ->. apply Hn, Hp. by rewrite <- Hk. }
  split; cbn; try done.
  - intros k' q id Hq Ho'. destruct (Hlk k' q Hq) as [_ ?]; [by rewrite Ho'|]. eauto.
  - intros k1 k2 q1 q2 H1 H2 N1 N2. destruct (Hlk _ _ H1 N1), (Hlk _ _ H2 N2). eauto.
  - intros Hs. destruct (a_owned Hs) as (k' & q & Hq & Hoq). exists k', q. split; [|done]. apply Hkeep; [done|by rewrite Hoq].
  - intros id r Hr'. destruct (a_race id r Hr') as [? Hph]. split; [done|]. destruct (r_phase r); [|done].
    destruct Hph as (k' & g & Hg). exists k', g. by apply Hkeep.
  - intros k' g id Hq. destruct (Hlk _ _ Hq) as [_ ?]; [done|]. eauto.
  - intros k' g id o Hq. destruct (Hlk _ _ Hq) as [_ Hq']; [done|]. exact (a_publish k' g id o Hq').
  - intros k' q c Hq Hh. destruct (Hlk _ _ Hq) as [_ ?]; [|by eauto]. intros E. by rewrite idle_held in Hh.
  - intros c Hc. destruct (a_open c Hc) as [?|(k' & q & Hq & Hh)]; [by left|]. right. exists k', q. split; [|done].
    apply Hkeep; [done|]. intros E. by rewrite idle_held in Hh.
  - intros k' c [[_ E]|[_ ?]]%lookup_insert_Some; [by apply Hr in E|eauto].
Qed.

(** Fields that no part of the invariant mentions. *)
Lemma inv_waiters s w : inv s -> inv {| s with at_waiters := w |}.
Proof. intros Hi. by inv_open Hi. Qed.

Lemma inv_closed s l : inv s -> inv {| s with at_closed := l |}.
Proof. intros Hi. by inv_open Hi. Qed.

Lemma inv_closeAuto s m : inv s -> inv (closeAutoTransport m s).
Proof. destruct m as [[]|]; [apply inv_closed|done..]. Qed.

Lemma inv_no_cleanup s : inv s -> (forall id r, at_race s = Some (id, r) -> at_cleanupDone s <> Some id) ->
  inv {| s with at_cleanupDone := None |}.
Proof.
  intros Hi Hc. inv_open Hi. split; cbn; try done.
  - intros Hs. by destruct (a_free Hs).
  - intros id r Hr. destruct (a_race id r Hr) as [? Hph]. split; [done|]. destruct (r_phase r); [done|].
    destruct Hph as [?|?]; [by left|]. by destruct (Hc id r Hr).
Qed.

(** A selection begins: nothing is racing. *)
Lemma idle_race s : inv s -> at_selecting s = false -> at_cleanupDone s = None -> at_race s = None.
Proof.
  intros Hi Hs Hc. destruct (at_race s) as [[id r]|] eqn:Hr; [|done]. destruct (a_race s Hi id r Hr) as [_ Hph].
  destruct (r_phase r).
  - destruct Hph as (k & g & Hk). destruct (a_own s Hi k _ id Hk eq_refl). congruence.
  - destruct Hph as [[? _]|?]; congruence.
Qed.

Lemma new_race_ok : race_ok new_race.
Proof.
  split; cbn; try done.
  - apply NoDup_singleton.
  - intros _. by intros ?%list_elem_of_singleton.
  - split; lia.
  - apply NoDup_nil_2.
Qed.

Lemma inv_start s k g p :
  inv s -> at_dials s !! k = Some p -> owner_of p = None -> at_selecting s = false -> at_selected s = None ->
  at_cleanupDone s = None ->
  inv (set_dial k (PSelecting g (at_next s))
        {| s with at_selecting := true; at_selectionDone := at_next s; at_next := S (at_next s);
                  at_race := Some (at_next s, new_race) |}).
Proof.
  intros Hi Hk Hp Hs Hsel Hc. pose proof (idle_race s Hi Hs Hc) as Hr. inv_open Hi.
  assert (Hno : forall k' q, at_dials s !! k' = Some q -> owner_of q = None).
  { intros k' q Hq. destruct (owner_of q) as [id|] eqn:E; [|done]. destruct (a_own k' q id Hq E). congruence. }
  assert (Hlk : forall k' q, <[k := PSelecting g (at_next s)]> (at_dials s) !! k' = Some q -> owner_of q <> None ->
    k' = k /\ q = PSelecting g (at_next s)).
  { intros k' q [[<- <-]|[_ Hq]]%lookup_insert_Some Hn; [done|]. by destruct Hn; eapply Hno. }
  assert (Hnr : forall c, ~ in_results s c) by (intros c (id & r & E & _); congruence).
  assert (Hnr' : forall c, ~ in_results (set_dial k (PSelecting g (at_next s))
        {| s with at_selecting := true; at_selectionDone := at_next s; at_next := S (at_next s);
                  at_race := Some (at_next s, new_race) |}) c).
  { intros c (id & r & E & Hin). cbn in E. injection E as <- <-. by apply elem_of_nil in Hin. }
  split; cbn; try done.
  - intros k' q id Hq Ho. destruct (Hlk k' q Hq) as [-> ->]; [by rewrite Ho|]. by injection Ho as <-.
  - intros k1 k2 q1 q2 H1 H2 N1 N2. destruct (Hlk _ _ H1 N1), (Hlk _ _ H2 N2). congruence.
  - intros _. exists k, (PSelecting g (at_next s)). split; [apply lookup_insert_eq|done].
  - intros id r [= <- <-]. split; [apply new_race_ok|]. exists k, g. apply lookup_insert_eq.
  - intros k' g' id Hq. destruct (Hlk _ _ Hq) as [-> [= -> ->]]; [done|]. by exists new_race.
  - intros k' g' id o Hq. by destruct (Hlk _ _ Hq) as [-> [=]].
  - intros k' q c Hq Hh. destruct (Hlk k' q Hq) as [-> ->]; [|done]. intros E. by rewrite idle_held in Hh.
  - intros c Hc'. by apply Hnr' in Hc'.
  - intros c Ho. destruct (a_open c Ho) as [?%Hnr|(k' & q & Hq & Hh)]; [done|].
    by rewrite idle_held in Hh by by eapply Hno.
  - intros k' c [[_ [=]]|[_ ?]]%lookup_insert_Some; eauto.
  - destruct a_fresh as (F1 & F2 & F3). split_and!; [|intros id r [= <- <-]; lia|lia]. intros c x Hx%F1. lia.
Qed.

Lemma inv_if (b : bool) x y : (b = true -> inv x) -> (b = false -> inv y) -> inv (if b then x else y).
Proof. destruct b; auto. Qed.

Lemma inv_option {A} (o : option A) f x :
  (forall a, o = Some a -> inv (f a)) -> (o = None -> inv x) -> inv (match o with Some a => f a | None => x end).
Proof. destruct o; auto. Qed.

Lemma dial_iteration_ok s k g p :
  inv s -> at_dials s !! k = Some p -> owner_of p = None -> inv (dial_iteration k g s).
Proof.
  intros Hi Hk Hp. assert (Hidle : forall p', idle p' -> inv (set_dial k p' s)).
  { intros p' Hp'. eapply inv_idle; [done|exact Hk| |done]. by intros q [= <-]. }
  unfold dial_iteration. apply inv_if; intros _; [by apply Hidle|].
  apply inv_option; [by intros; apply Hidle|intros Hsel].
  apply inv_if; intros Hs.
  { eapply (inv_idle _ k (Some p)); [by apply inv_waiters|done|by intros q [= <-]|done]. }
  apply inv_option; [by intros; apply Hidle|intros Hc]. by eapply inv_start.
Qed.

(** Only the call that runs the selection owns something. *)
Lemma owner_only s k p p' k' q :
  inv s -> at_dials s !! k = Some p -> owner_of p <> None ->
  <[k := p']> (at_dials s) !! k' = Some q -> owner_of q <> None -> k' = k /\ q = p'.
Proof.
  intros Hi Hk Hp [[<- <-]|[Hne Hq]]%lookup_insert_Some Hn; [done|].
  destruct Hne. by eapply (a_unique s Hi k k').
Qed.

Lemma returned_other (s : auto) k p k' c :
  inv s -> (forall c, p <> PReturned (Ok (Some c))) ->
  <[k := p]> (at_dials s) !! k' = Some (PReturned (Ok (Some c))) -> at_conns s !! c = Some CReturned.
Proof. intros Hi Hp [[_ E]|[_ ?]]%lookup_insert_Some; [by apply Hp in E|by eapply a_returned]. Qed.

(** The selecting call takes its answer: the connection it won leaves the
    results, and the race is over or cleaned up. *)
Lemma inv_leave s k g id o x :
  inv s -> at_dials s !! k = Some (PSelecting g id) ->
  (forall id' r, x = Some (id', r) -> id' = id /\ race_ok r /\ r_phase r <> RSelecting) ->
  (match o with SelFailed b | SelWon _ _ b => b = false -> x = None end) ->
  (forall c, in_results s c <-> in_results {| s with at_race := x |} c \/ held_by (PPublish g id o) = Some c) ->
  (forall c, held_by (PPublish g id o) = Some c -> ~ in_results {| s with at_race := x |} c) ->
  inv (set_dial k (PPublish g id o) {| s with at_race := x |}).
Proof.
  intros Hi Hk Hx Ho Hin Hnot.
  pose proof (fun k' q => owner_only s k _ (PPublish g id o) k' q Hi Hk ltac:(done)) as Hone.
  destruct (a_own s Hi k _ id Hk eq_refl) as [Hs Hd].
  assert (Hres : forall c, in_results (set_dial k (PPublish g id o) {| s with at_race := x |}) c <->
                           in_results {| s with at_race := x |} c) by done.
  destruct (a_selecting s Hi k g id Hk) as (r0 & Hr0 & _).
  split; cbn; try apply Hi.
  - intros k' q id' Hq Hoq. destruct (Hone _ _ Hq) as [-> ->]; [by rewrite Hoq|]. by injection Hoq as <-.
  - intros k1 k2 q1 q2 H1 H2 N1 N2. destruct (Hone _ _ H1 N1), (Hone _ _ H2 N2). congruence.
  - intros _. exists k, (PPublish g id o). split; [apply lookup_insert_eq|by rewrite Hd].
  - intros id' r E. destruct (Hx _ _ E) as (-> & ? & Hph). split; [done|]. destruct (r_phase r); [done|]. by left.
  - intros k' g' id' Hq. by destruct (Hone _ _ Hq) as [-> [=]].
  - intros k' g' id' o' Hq. destruct (Hone _ _ Hq) as [-> [= -> -> ->]]; [done|]. done.
  - intros k' q c Hq Hh. destruct (Hone _ _ Hq) as [-> ->]; [intros E; by rewrite idle_held in Hh|].
    rewrite Hres. split; [|by apply Hnot]. apply (a_results s Hi). apply Hin. by right.
  - intros c Hc%Hres. apply (a_results s Hi). apply Hin. by left.
  - intros c Hc. destruct (a_open s Hi c Hc) as [[?|?]%Hin|(k' & q & Hq & Hh)].
    + by left; apply Hres.
    + right. exists k, (PPublish g id o). split; [apply lookup_insert_eq|done].
    + destruct (decide (k' = k)) as [->|Hne]; [by simplify_eq|].
      destruct Hne. eapply (a_unique s Hi); [done|exact Hk| |done]. intros E. by rewrite idle_held in Hh.
  - intros k' c Hc. eapply returned_other; [done| |exact Hc]. done.
  - destruct (a_fresh s Hi) as (F1 & F2 & F3). split_and!; [done| |done].
    intros id' r E. destruct (Hx _ _ E) as (-> & _). by eapply F2.
Qed.

(** Under a running selection the race moves on. *)
Lemma inv_race s id r r' :
  inv s -> at_race s = Some (id, r) -> race_ok r' -> (r_phase r' = RSelecting <-> r_phase r = RSelecting) ->
  (forall c, c ∈ omap ar_conn (r_results r') <-> c ∈ omap ar_conn (r_results r)) ->
  inv {| s with at_race := Some (id, r') |}.
Proof.
  intros Hi Hr Hok Hph Hc.
  assert (Hin : forall c, in_results {| s with at_race := Some (id, r') |} c <-> in_results s c).
  { intros c. split; intros (id' & x & E & Hx).
    - cbn in E. injection E as <- <-. exists id, r. by rewrite <- Hc.
    - rewrite Hr in E. injection E as <- <-. exists id, r'. by rewrite Hc. }
  destruct (a_race s Hi id r Hr) as [_ Hown]. split; cbn; try apply Hi.
  - intros id' x [= <- <-]. split; [done|]. destruct (r_phase r), (r_phase r'); try done.
    + by pose proof (proj2 Hph eq_refl).
    + by pose proof (proj1 Hph eq_refl).
  - intros k g id' Hk. destruct (a_selecting s Hi k g id' Hk) as (x & Hx & E). simplify_eq.
    exists r'. split; [done|]. by apply Hph.
  - intros k g id' o Hk. pose proof (a_publish s Hi k g id' o Hk). destruct o; intros E; by rewrite H in Hr.
  - intros k q c Hq Hh. rewrite Hin. by eapply (a_held s Hi).
  - intros c. rewrite Hin. apply Hi.
  - intros c. rewrite Hin. apply Hi.
  - destruct (a_fresh s Hi) as (F1 & F2 & F3). split_and!; [done| |done]. intros id' x [= <- <-]. by eapply F2.
Qed.

(** ** The counts of a race *)

Lemma startTLS_ok r : race_ok r -> r_phase r = RSelecting -> race_ok (startTLS r).
Proof.
  intros [Hd Ht Hs Hn Hc] Hp. unfold startTLS. destruct (r_tlsStarted r) eqn:E; [by split; rewrite ?E|].
  rewrite Hp in Hn. split; cbn; try done.
  - apply NoDup_app. split_and!; [done| |apply NoDup_singleton].
    intros m Hm ->%list_elem_of_singleton. apply Ht; [done|]. apply elem_of_app. by left.
  - by rewrite Hs.
  - rewrite Hp, length_app. cbn. lia.
Qed.

Lemma startTLS_same r : r_results (startTLS r) = r_results r /\ r_phase (startTLS r) = r_phase r /\
  r_completed (startTLS r) = r_completed r.
Proof. unfold startTLS. by destruct (r_tlsStarted r). Qed.

(** The count of results a cleanup is started with is what is still to come. *)
Lemma leave_ok r w :
  race_ok r -> r_phase r = RSelecting ->
  let rest := (r_started r - r_completed r)%nat in
  (length (r_results r) + length (r_dialing r) = rest)%nat /\
  (rest <> 0%nat -> race_ok {| r with r_phase := RCleanup rest w |}).
Proof.
  intros [Hd Ht Hs Hn Hc] Hp rest. rewrite Hp in Hn. split; [lia|]. intros Hr. split; cbn; try done. lia.
Qed.

(** A result is taken from the channel. *)
Definition took (results : list autoTransportResult) (r : race) : race :=
  {| r with r_results := results; r_completed := S (r_completed r) |}.

Lemma took_count r x results :
  race_ok r -> r_phase r = RSelecting -> r_results r = x :: results ->
  (length results + length (r_dialing r) + S (r_completed r) = r_started r)%nat.
Proof. intros [_ _ _ Hn _] Hp E. rewrite Hp, E in Hn. cbn in Hn. lia. Qed.

Lemma tls_started r x results :
  race_ok r -> r_results r = x :: results -> ar_mode x = TLS -> r_tlsStarted r = true.
Proof.
  intros [_ Ht _ _ _] E Hm. destruct (r_tlsStarted r); [done|]. destruct Ht; [done|]. rewrite E. cbn.
  apply elem_of_app. right. rewrite Hm. apply elem_of_cons. by left.
Qed.

Lemma took_fields r x results :
  race_ok r -> r_results r = x :: results ->
  (r_tlsStarted r = false -> TLS ∉ r_dialing r ++ (ar_mode <$> results)) /\ NoDup (omap ar_conn results).
Proof.
  intros [_ Ht _ _ Hc] E. rewrite E in *. cbn in *. split.
  - intros Hf Hin. apply (Ht Hf). rewrite elem_of_app, elem_of_cons in *. tauto.
  - destruct (ar_conn x); [by apply NoDup_cons in Hc as [_ ?]|done].
Qed.

(** A result that reports a failure: the selection goes on exactly when a dial is
    still to answer. *)
Lemma failed_ok r x results :
  race_ok r -> r_phase r = RSelecting -> r_results r = x :: results ->
  let r' := match ar_mode x with QUIC => startTLS (took results r) | TLS => took results r end in
  if bool_decide (r_completed r' < r_started r')%nat || negb (r_tlsStarted r')
  then race_ok r' else results = [] /\ r_dialing r' = [].
Proof.
  intros Hr Hp E. pose proof (took_count r x results Hr Hp E) as Hn.
  destruct (took_fields r x results Hr E) as [Ht Hc]. pose proof (tls_started r x results Hr E) as Htls.
  destruct Hr as [Hd _ Hs _ _]. destruct (ar_mode x); cbn.
  - unfold startTLS, took; cbn. destruct (r_tlsStarted r) eqn:Ets; cbn.
    + rewrite orb_false_r. destruct (bool_decide_reflect (S (r_completed r) < r_started r)%nat).
      * split; cbn; rewrite ?Ets, ?Hp; try done.
      * destruct results, (r_dialing r); cbn in *; try lia; done.
    + rewrite bool_decide_eq_true_2 by lia. cbn. split; cbn; try done.
      * apply NoDup_app. split_and!; [done| |apply NoDup_singleton].
        intros m Hm ->%list_elem_of_singleton. apply Ht; [done|]. apply elem_of_app. by left.
      * by rewrite Hs.
      * rewrite Hp, length_app. cbn. lia.
  - rewrite Htls by done. cbn. rewrite orb_false_r. destruct (bool_decide_reflect (S (r_completed r) < r_started r)%nat).
    + split; cbn; rewrite ?Hp; done.
    + destruct results, (r_dialing r); cbn in *; try lia; done.
Qed.

(** ** The steps of a selection *)

Lemma select_context s k g id r :
  inv s -> at_dials s !! k = Some (PSelecting g id) -> at_race s = Some (id, r) -> r_phase r = RSelecting ->
  let rest := (r_started r - r_completed r)%nat in
  inv (set_dial k (PPublish g id (SelFailed (bool_decide (rest <> O)))) (leave_race id rest None r s)).
Proof.
  intros Hi Hk Hr Hp rest. destruct (a_race s Hi id r Hr) as [Hok _]. destruct (leave_ok r None Hok Hp) as [Hn Hrest].
  fold rest in Hn, Hrest. destruct Hok as [_ _ _ Hlt _]. rewrite Hp in Hlt. destruct rest as [|n] eqn:E; [subst rest; lia|].
  apply inv_leave; [done|done| | | |done].
  - intros id' r' [= <- <-]. split_and!; [done|by apply Hrest|done].
  - by rewrite bool_decide_eq_true_2.
  - intros c. split; [|intros [(id' & r' & [= <- <-] & Hc)|[=]]; by exists id, r].
    intros (id' & r' & Hr' & Hc). rewrite Hr in Hr'. injection Hr' as <- <-. left. eexists _, _. by split; [done|].
Qed.

(** A successful result: the connection becomes the caller's. *)
Lemma select_won s k g id r x c results :
  inv s -> at_dials s !! k = Some (PSelecting g id) -> at_race s = Some (id, r) -> r_phase r = RSelecting ->
  r_results r = x :: results -> ar_conn x = Some c ->
  let rest := (r_started r - S (r_completed r))%nat in
  inv (set_dial k (PPublish g id (SelWon c (ar_mode x) (bool_decide (rest <> O))))
        (leave_race id rest (Some (ar_mode x)) (took results r) s)).
Proof.
  intros Hi Hk Hr Hp E Ec rest. destruct (a_race s Hi id r Hr) as [Hok _].
  pose proof (took_count r x results Hok Hp E) as Hn. destruct (took_fields r x results Hok E) as [Ht Hc].
  pose proof (ro_conns r Hok) as Hnd. rewrite E in Hnd. cbn in Hnd. rewrite Ec in Hnd.
  apply NoDup_cons in Hnd as [Hnot _].
  assert (Hres : forall c', in_results s c' <-> c' = c \/ c' ∈ omap ar_conn results).
  { intros c'. rewrite <- elem_of_cons. replace (c :: omap ar_conn results) with (omap ar_conn (r_results r)).
    - split; [|intros ?; by exists id, r]. intros (id' & r' & Hr' & ?). rewrite Hr in Hr'. by injection Hr' as <- <-.
    - rewrite E. cbn. by rewrite Ec. }
  assert (Hnew : forall c', in_results (leave_race id rest (Some (ar_mode x)) (took results r) s) c' <->
                            c' ∈ omap ar_conn results).
  { intros c'. subst rest. unfold leave_race, in_results. cbn. destruct (r_started r - S (r_completed r))%nat eqn:En.
    - assert (results = []) as -> by (destruct results; cbn in *; [done|lia]). split; [|by intros ?%elem_of_nil].
      by intros (? & ? & [=] & _).
    - split; [by intros (id' & r' & [= <- <-] & ?)|]. intros ?. by eexists _, _. }
  apply inv_leave; [done|done| | | |].
  - intros id' r' Hx. destruct rest as [|n] eqn:En; [done|]. injection Hx as <- <-.
    split_and!; [done| |done]. split; cbn; [apply Hok|done|apply Hok|lia|done].
  - destruct rest; [done|]. by rewrite bool_decide_eq_true_2.
  - intros c'. rewrite Hres, Hnew. cbn. naive_solver.
  - intros c' [= <-]. by rewrite Hnew.
Qed.

Lemma select_failed s k g id r x results :
  inv s -> at_dials s !! k = Some (PSelecting g id) -> at_race s = Some (id, r) -> r_phase r = RSelecting ->
  r_results r = x :: results -> ar_conn x = None ->
  let r' := match ar_mode x with QUIC => startTLS (took results r) | TLS => took results r end in
  inv (if bool_decide (r_completed r' < r_started r')%nat || negb (r_tlsStarted r')
       then {| s with at_race := Some (id, r') |}
       else set_dial k (PPublish g id (SelFailed false)) {| s with at_race := None |}).
Proof.
  intros Hi Hk Hr Hp E Ec r'. destruct (a_race s Hi id r Hr) as [Hok _].
  pose proof (failed_ok r x results Hok Hp E) as Hf. cbv zeta in Hf. fold r' in Hf.
  assert (Hsame : r_results r' = results /\ r_phase r' = RSelecting).
  { subst r'. destruct (ar_mode x); [|done]. destruct (startTLS_same (took results r)) as (-> & -> & _). done. }
  destruct Hsame as [Hr1 Hr2].
  assert (Hcs : omap ar_conn (r_results r) = omap ar_conn results) by (rewrite E; cbn; by rewrite Ec).
  destruct (_ || _).
  - eapply inv_race; [done|exact Hr|done|by rewrite Hr2, Hp|]. intros c. by rewrite Hr1, Hcs.
  - destruct Hf as [Hnil _]. rewrite Hnil in Hcs. apply inv_leave; try done. intros c. split.
    + intros (id' & y & Hy & Hc). rewrite Hr in Hy. injection Hy as <- <-. rewrite Hcs in Hc. by apply elem_of_nil in Hc.
    + by intros [(? & ? & [=] & _)|[=]].
Qed.

Lemma selectTransport_ok s s' k ev : inv s -> selectTransport k ev s = Some s' -> inv s'.
Proof.
  intros Hi H. unfold selectTransport in H. destruct (at_dials s !! k) as [[]|] eqn:Hk; try done.
  destruct (at_race s) as [[id' r]|] eqn:Hr; [|done]. case_match eqn:Hb; [|done].
  apply andb_true_iff in Hb as [<-%bool_decide_eq_true Hp%bool_decide_eq_true]. destruct ev.
  - injection H as <-. by apply select_context.
  - injection H as <-. destruct (a_race s Hi _ _ Hr) as [Hok _]. destruct (startTLS_same r) as (E1 & E2 & _).
    eapply inv_race; [done|exact Hr|by apply startTLS_ok|by rewrite E2|by rewrite E1].
  - destruct (r_results r) as [|x results] eqn:E; [done|]. destruct (ar_conn x) eqn:Ec.
    + injection H as <-. by eapply (select_won s k generation id r x).
    + pose proof (select_failed s k generation id r x results Hi Hk Hr Hp E Ec) as Hf. cbv zeta in Hf.
      unfold took in Hf. cbv zeta in H. destruct (_ || _); injection H as <-; exact Hf.
Qed.

(** ** Answers and their cleanup *)

Lemma filter_out_absent (m : mode) (l : list mode) : m ∉ l -> filter (fun x => x <> m) l = l.
Proof.
  induction l as [|a l IH]; [done|]. intros [Ha Hl]%not_elem_of_cons. rewrite filter_cons_True by done. by rewrite IH.
Qed.

Lemma filter_out_length (m : mode) (l : list mode) : NoDup l -> m ∈ l -> length l = S (length (filter (fun x => x <> m) l)).
Proof.
  induction l as [|a l IH]; [by intros _ ?%elem_of_nil|]. intros [Ha Hl]%NoDup_cons [->|Hm]%elem_of_cons.
  - rewrite filter_cons_False by tauto. by rewrite filter_out_absent.
  - rewrite filter_cons_True by (intros ->; done). cbn. by rewrite <- IH.
Qed.

Definition answered (m : mode) (conn : option nat) (r : race) : race :=
  {| r with r_dialing := filter (fun x => x <> m) (r_dialing r); r_results := r_results r ++ [MkResult m conn] |}.

Lemma answered_conns m conn r :
  omap ar_conn (r_results (answered m conn r)) = omap ar_conn (r_results r) ++ option_list conn.
Proof. cbn. rewrite omap_app. by destruct conn. Qed.

Lemma answered_ok m conn r :
  race_ok r -> m ∈ r_dialing r -> (forall c, conn = Some c -> c ∉ omap ar_conn (r_results r)) -> race_ok (answered m conn r).
Proof.
  intros [Hd Ht Hs Hn Hc] Hm Hnew. pose proof (filter_out_length m _ Hd Hm) as Hl. split.
  - by apply NoDup_filter.
  - cbn. intros Hf Hin. apply (Ht Hf). rewrite fmap_app in Hin. cbn in Hin.
    rewrite !elem_of_app, list_elem_of_filter, elem_of_cons in *. destruct Hin as [[_ ?]|[?|[->|?]]]; [by left|by right|by left|set_solver].
  - done.
  - cbn. rewrite length_app. cbn. destruct (r_phase r); lia.
  - rewrite answered_conns. apply NoDup_app. split_and!; [done| |destruct conn; [apply NoDup_singleton|apply NoDup_nil_2]].
    intros c Hin Hc'. destruct conn as [c'|]; [|by apply elem_of_nil in Hc']. apply list_elem_of_singleton in Hc' as ->.
    by eapply Hnew.
Qed.

Lemma answer_open s id r m :
  inv s -> at_race s = Some (id, r) -> m ∈ r_dialing r ->
  inv {| s with at_conns := <[at_next s := COpen]> (at_conns s); at_next := S (at_next s);
                at_race := Some (id, answered m (Some (at_next s)) r) |}.
Proof.
  intros Hi Hr Hm. destruct (a_race s Hi id r Hr) as [Hok Hown]. destruct (a_fresh s Hi) as (F1 & F2 & F3).
  assert (Hfresh : at_conns s !! at_next s = None).
  { apply eq_None_not_Some. intros [y Hy%F1]. lia. }
  set (s' := {| s with at_conns := _; at_next := _; at_race := _ |}).
  assert (Hin : forall c, in_results s' c <-> in_results s c \/ c = at_next s).
  { intros c. split.
    - intros (id' & r' & E & Hc). cbn in E. injection E as <- <-. rewrite answered_conns in Hc. cbn in Hc.
      apply elem_of_app in Hc as [?|?%list_elem_of_singleton]; [|by right]. left. by exists id, r.
    - intros Hc. exists id, (answered m (Some (at_next s)) r). split; [done|]. rewrite answered_conns. cbn.
      rewrite elem_of_app, list_elem_of_singleton. destruct Hc as [(id' & r' & E & ?)|?]; [|by right].
      rewrite Hr in E. injection E as <- <-. by left. }
  assert (Hconn : forall c y, at_conns s !! c = Some y -> at_conns s' !! c = Some y).
  { intros c y Hc. cbn. rewrite lookup_insert_ne; [done|]. intros <-. congruence. }
  split; try apply Hi.
  - cbn. intros id' r' [= <- <-]. split; [|done]. apply answered_ok; [done|done|]. intros c [= <-] Hc.
    assert (Hc' : in_results s (at_next s)) by by exists id, r. apply (a_results s Hi) in Hc'. congruence.
  - cbn. intros k g id' Hk. destruct (a_selecting s Hi k g id' Hk) as (r' & E & Hp). rewrite Hr in E.
    injection E as <- <-. by eexists.
  - cbn. intros k g id' o Hk. pose proof (a_publish s Hi k g id' o Hk). destruct o; intros E; by rewrite H in Hr.
  - intros k p c Hk Hh. destruct (a_held s Hi k p c Hk Hh) as [Ho Hn]. split; [by apply Hconn|].
    rewrite Hin. intros [?| ->]; [done|]. congruence.
  - intros c [Hc| ->]%Hin; [by apply Hconn, (a_results s Hi)|]. apply lookup_insert_eq.
  - cbn. intros c [[<- _]|[_ Hc]]%lookup_insert_Some; [left; apply Hin; by right|].
    destruct (a_open s Hi c Hc) as [?|?]; [|by right]. left. apply Hin. by left.
  - intros k c Hk. apply Hconn. by eapply (a_returned s Hi).
  - cbn. split_and!; [|intros id' r' [= <- <-]; apply F2 in Hr; lia|lia].
    intros c y [[<- _]|[_ Hc%F1]]%lookup_insert_Some; lia.
Qed.

Lemma dial_answer_ok s s' m ok : inv s -> dial_answer m ok s = Some s' -> inv s'.
Proof.
  intros Hi H. unfold dial_answer in H. destruct (at_race s) as [[id r]|] eqn:Hr; [|done].
  destruct (bool_decide_reflect (m ∈ r_dialing r)) as [Hm|]; [|done]. destruct ok; injection H as <-.
  - by apply answer_open.
  - destruct (a_race s Hi id r Hr) as [Hok _].
    eapply inv_race; [done|exact Hr|by apply (answered_ok m None)|done|].
    intros c. cbn. by rewrite omap_app, app_nil_r.
Qed.

(** A result of the losers is taken and closed. *)
Lemma inv_cleaned s id r x results count w y :
  inv s -> at_race s = Some (id, r) -> r_phase r = RCleanup (S count) w -> r_results r = x :: results ->
  y = match count with O => None | S _ => Some (id, {| r with r_results := results; r_phase := RCleanup count w |}) end ->
  inv {| match ar_conn x with Some c => set_conn c CClosed s | None => s end with at_race := y |}.
Proof.
  intros Hi Hr Hp E Hy. destruct (a_race s Hi id r Hr) as [Hok Hown]. rewrite Hp in Hown.
  destruct (took_fields r x results Hok E) as [Ht Hcs]. pose proof (ro_conns r Hok) as Hnd. rewrite E in Hnd.
  pose proof (ro_count r Hok) as Hn. rewrite Hp, E in Hn. cbn in Hn.
  set (s' := {| match ar_conn x with Some _ => _ | None => _ end with at_race := y |}).
  assert (Hin : forall c, in_results s' c <-> c ∈ omap ar_conn results).
  { intros c. assert (Hs' : at_race s' = y) by done. unfold in_results. rewrite Hs', Hy. split.
    - intros (id' & r' & E' & Hc). destruct count; [done|]. by injection E' as <- <-.
    - destruct count; [|by eexists _, _]. destruct results; cbn in *; [by intros ?%elem_of_nil|lia]. }
  assert (Hold : forall c, in_results s c <-> ar_conn x = Some c \/ c ∈ omap ar_conn results).
  { intros c. transitivity (c ∈ omap ar_conn (r_results r)).
    - split; [|intros ?; by exists id, r]. intros (id' & r' & Hr' & ?). rewrite Hr in Hr'. by injection Hr' as <- <-.
    - rewrite E. cbn. destruct (ar_conn x); [rewrite elem_of_cons|]; naive_solver. }
  assert (Hne : forall c, c ∈ omap ar_conn results -> ar_conn x <> Some c).
  { intros c Hc Ex. cbn in Hnd. rewrite Ex in Hnd. by apply NoDup_cons in Hnd as [? _]. }
  assert (Hconn : forall c z, at_conns s' !! c = Some z -> ar_conn x = Some c /\ z = CClosed \/
    at_conns s !! c = Some z /\ ar_conn x <> Some c).
  { intros c z. subst s'. cbn. destruct (ar_conn x); [|by right]. cbn.
    intros [[<- <-]|[? ?]]%lookup_insert_Some; [by left|right]. split; [done|congruence]. }
  assert (Hkeep : forall c z, at_conns s !! c = Some z -> ar_conn x <> Some c -> at_conns s' !! c = Some z).
  { intros c z Hc Hx. subst s'. cbn. destruct (ar_conn x); [|done]. cbn. rewrite lookup_insert_ne; [done|congruence]. }
  assert (Hxo : forall c, ar_conn x = Some c -> at_conns s !! c = Some COpen).
  { intros c Hc. apply (a_results s Hi), Hold. by left. }
  assert (Hd : at_dials s' = at_dials s /\ at_selecting s' = at_selecting s /\ at_selectionDone s' = at_selectionDone s /\
    at_selected s' = at_selected s /\ at_cleanupDone s' = at_cleanupDone s /\ at_next s' = at_next s /\ at_race s' = y).
  { subst s'. by destruct (ar_conn x). }
  clearbody s'. destruct Hd as (D1 & D2 & D3 & D4 & D5 & D6 & D7).
  split; rewrite ?D1, ?D2, ?D3, ?D4, ?D5, ?D6, ?D7; try apply Hi.
  - intros id' r' Hr'. rewrite Hy in Hr'. destruct count as [|n]; [done|]. injection Hr' as <- <-. split; [|done].
    split; cbn; [apply Hok|done|apply Hok|lia|done].
  - intros k g id' Hk. destruct (a_selecting s Hi k g id' Hk) as (r' & E' & Hp'). congruence.
  - intros k g id' o Hk. pose proof (a_publish s Hi k g id' o Hk). destruct o; intros E'; by rewrite H in Hr.
  - intros k p c Hk Hh. destruct (a_held s Hi k p c Hk Hh) as [Ho Hnr]. rewrite Hold in Hnr.
    split; [apply Hkeep; tauto|]. rewrite Hin. tauto.
  - intros c Hc%Hin. apply Hkeep; [|by apply Hne]. apply (a_results s Hi), Hold. by right.
  - intros c Hc. destruct (Hconn c COpen Hc) as [[_ [=]]|[Ho Hx]].
    destruct (a_open s Hi c Ho) as [[?|?]%Hold|?]; [done|left; by apply Hin|by right].
  - intros k c Hk. pose proof (a_returned s Hi k c Hk) as Hc. apply Hkeep; [done|]. intros Hx%Hxo. congruence.
  - destruct (a_fresh s Hi) as (F1 & F2 & F3). split_and!; [| |done].
    + intros c z Hc. destruct (Hconn c z Hc) as [[Hx%Hxo _]|[Hx _]]; by eapply F1.
    + intros id' r' Hr'. rewrite Hy in Hr'. destruct count; [done|]. injection Hr' as <- <-. by eapply F2.
Qed.

Lemma cleanup_ok s s' : inv s -> cleanupAutoTransportResults s = Some s' -> inv s'.
Proof.
  intros Hi H. unfold cleanupAutoTransportResults in H. destruct (at_race s) as [[id r]|] eqn:Hr; [|done].
  destruct (r_phase r) as [|[|count] w] eqn:Hp; try done. destruct (r_results r) as [|x results] eqn:E; [done|].
  pose proof (inv_cleaned s id r x results count w _ Hi Hr Hp E eq_refl) as Hc. injection H as <-.
  destruct (negb _ && bool_decide (ar_mode x = QUIC)) eqn:Hb; [|exact Hc].
  apply andb_true_iff in Hb as [_ Hq%bool_decide_eq_true]. rewrite Hq. cbn.
  apply (inv_closed _ (QUIC :: at_closed s)) in Hc. by destruct (ar_conn x).
Qed.

(** ** The steps of [Dial] after its selection *)

(** The owner lets the selection go and returns. *)
Lemma inv_release s k id p r x y sel :
  inv s -> at_dials s !! k = Some p -> owner_of p = Some id ->
  (forall g, p <> PSelecting g id) ->
  (match held_by p with
   | Some c => exists z, z <> COpen /\ x = <[c := z]> (at_conns s) /\ (r = Ok (Some c) -> z = CReturned)
   | None => x = at_conns s
   end) ->
  (forall c, r = Ok (Some c) -> held_by p = Some c) ->
  (forall id' rc, at_race s = Some (id', rc) -> y = Some id') ->
  inv (set_dial k (PReturned r) {| s with at_conns := x; at_selecting := false; at_cleanupDone := y; at_selected := sel |}).
Proof.
  intros Hi Hk Hp Hns Hx Hr Hy.
  pose proof (fun k' q => owner_only s k p (PReturned r) k' q Hi Hk ltac:(by rewrite Hp)) as Hone.
  assert (Hno : forall k' q, <[k := PReturned r]> (at_dials s) !! k' = Some q -> owner_of q = None).
  { intros k' q Hq. destruct (owner_of q) eqn:E; [|done]. destruct (Hone _ _ Hq) as [-> ->]; [by rewrite E|done]. }
  assert (Hopen : forall c, x !! c = Some COpen -> at_conns s !! c = Some COpen /\ held_by p <> Some c).
  { intros c Hc. destruct (held_by p) as [c'|]; [|by rewrite Hx in Hc]. destruct Hx as (z & Hz & -> & _).
    apply lookup_insert_Some in Hc as [[_ ?]|[? ?]]; [done|]. split; [done|congruence]. }
  assert (Hkeep : forall c z, at_conns s !! c = Some z -> held_by p <> Some c -> x !! c = Some z).
  { intros c z Hc Hh. destruct (held_by p) as [c'|]; [|by rewrite Hx]. destruct Hx as (z' & _ & -> & _).
    rewrite lookup_insert_ne; [done|congruence]. }
  split; cbn; try apply Hi; try done.
  - intros k' q id' Hq Ho. by rewrite (Hno k' q Hq) in Ho.
  - intros k1 k2 q1 q2 H1 H2 N1 N2. destruct (Hone _ _ H1 N1), (Hone _ _ H2 N2). congruence.
  - intros id' rc Hrc. destruct (a_race s Hi id' rc Hrc) as [? Hph]. split; [done|].
    destruct (r_phase rc) eqn:Ep; [|right; by eapply Hy]. destruct Hph as (k' & g & Hk').
    assert (k' = k) as -> by (eapply (a_unique s Hi); [exact Hk'|exact Hk|done|by rewrite Hp]).
    rewrite Hk in Hk'. injection Hk' as ->. injection Hp as ->. by destruct (Hns g).
  - intros k' g id' Hq. by pose proof (Hno _ _ Hq).
  - intros k' g id' o Hq. by pose proof (Hno _ _ Hq).
  - intros k' q c Hq Hh. by rewrite (idle_held q (Hno _ _ Hq)) in Hh.
  - intros c Hc. assert (Hc' : in_results s c) by exact Hc. apply Hkeep; [by apply (a_results s Hi)|].
    intros Hh. by destruct (a_held s Hi k p c Hk Hh).
  - intros c [Ho Hh]%Hopen. destruct (a_open s Hi c Ho) as [?|(k' & q & Hq & Hh')]; [by left|].
    assert (k' = k) as ->; [|congruence].
    eapply (a_unique s Hi); [exact Hq|exact Hk| |by rewrite Hp]. intros E. by rewrite idle_held in Hh'.
  - intros k' c [[<- [= Er]]|[Hne Hq]]%lookup_insert_Some.
    + specialize (Hr c Er). rewrite Hr in Hx. destruct Hx as (z & _ & -> & Hz). rewrite (Hz Er). apply lookup_insert_eq.
    + pose proof (a_returned s Hi k' c Hq) as Hc. apply Hkeep; [done|]. intros Hh.
      destruct (a_held s Hi k p c Hk Hh) as [Ho _]. congruence.
  - destruct (a_fresh s Hi) as (F1 & F2 & F3). split_and!; [|done|done]. intros c z Hc.
    destruct (held_by p) as [c'|] eqn:Hh; [|by rewrite Hx in Hc; eapply F1]. destruct Hx as (z' & _ & -> & _).
    apply lookup_insert_Some in Hc as [[<- _]|[_ ?]]; [|by eapply F1].
    destruct (a_held s Hi k p c' Hk Hh) as [? _]. by eapply F1.
Qed.

(** A stale selection closes the connection it won and keeps the selection until
    its cleanup is done. *)
Lemma inv_stale s k g id o :
  inv s -> at_dials s !! k = Some (PPublish g id o) ->
  inv (set_dial k (PStale id) match o with SelWon c _ _ => set_conn c CClosed s | SelFailed _ => s end).
Proof.
  intros Hi Hk. set (s' := match o with SelWon _ _ _ => _ | SelFailed _ => _ end).
  pose proof (fun k' q => owner_only s k _ (PStale id) k' q Hi Hk ltac:(done)) as Hone.
  destruct (a_own s Hi k _ id Hk eq_refl) as [Hs Hd].
  assert (Hf : at_dials s' = at_dials s /\ at_selecting s' = at_selecting s /\ at_selectionDone s' = at_selectionDone s /\
    at_selected s' = at_selected s /\ at_cleanupDone s' = at_cleanupDone s /\ at_next s' = at_next s /\ at_race s' = at_race s)
    by by subst s'; destruct o.
  assert (Hin : forall c, in_results (set_dial k (PStale id) s') c <-> in_results s c) by by subst s'; destruct o.
  assert (Hkeep : forall c z, at_conns s !! c = Some z -> held_by (PPublish g id o) <> Some c -> at_conns s' !! c = Some z).
  { intros c z Hc Hh. subst s'. destruct o; [done|]. cbn in *. rewrite lookup_insert_ne; [done|congruence]. }
  assert (Hback : forall c z, at_conns s' !! c = Some z ->
    held_by (PPublish g id o) = Some c /\ z = CClosed \/ at_conns s !! c = Some z /\ held_by (PPublish g id o) <> Some c).
  { intros c z. subst s'. destruct o; [by right|]. cbn. intros [[<- <-]|[? ?]]%lookup_insert_Some; [by left|right].
    split; [done|congruence]. }
  clearbody s'. destruct Hf as (D1 & D2 & D3 & D4 & D5 & D6 & D7).
  split; cbn; rewrite ?D1, ?D2, ?D3, ?D4, ?D5, ?D6, ?D7; try apply Hi.
  - intros k' q id' Hq Hoq. destruct (Hone _ _ Hq) as [-> ->]; [by rewrite Hoq|]. by injection Hoq as <-.
  - intros k1 k2 q1 q2 H1 H2 N1 N2. destruct (Hone _ _ H1 N1), (Hone _ _ H2 N2). congruence.
  - intros _. exists k, (PStale id). split; [apply lookup_insert_eq|by rewrite Hd].
  - intros id' r Hr. destruct (a_race s Hi id' r Hr) as [? Hph]. split; [done|]. destruct (r_phase r); [|done].
    destruct Hph as (k' & g' & Hk'). assert (k' = k) as -> by by eapply (a_unique s Hi). congruence.
  - intros k' g' id' Hq. by destruct (Hone _ _ Hq) as [-> [=]].
  - intros k' g' id' o' Hq. by destruct (Hone _ _ Hq) as [-> [=]].
  - intros k' q c Hq Hh. destruct (Hone _ _ Hq) as [-> ->]; [intros E; by rewrite idle_held in Hh|done].
  - intros c Hc%Hin. apply Hkeep; [by apply (a_results s Hi)|]. intros Hh. by destruct (a_held s Hi k _ c Hk Hh).
  - intros c Hc. destruct (Hback _ _ Hc) as [[_ [=]]|[Ho Hh]].
    destruct (a_open s Hi c Ho) as [?|(k' & q & Hq & Hh')]; [left; by apply Hin|].
    assert (k' = k) as ->; [|congruence].
    eapply (a_unique s Hi); [exact Hq|exact Hk| |done]. intros E. by rewrite idle_held in Hh'.
  - intros k' c [[_ [=]]|[_ Hq]]%lookup_insert_Some. pose proof (a_returned s Hi k' c Hq) as Hc. apply Hkeep; [done|].
    intros Hh. destruct (a_held s Hi k _ c Hk Hh) as [Ho _]. congruence.
  - destruct (a_fresh s Hi) as (F1 & F2 & F3). split_and!; [|done|done]. intros c z Hc.
    destruct (Hback _ _ Hc) as [[Hh _]|[? _]]; [|by eapply F1]. destruct (a_held s Hi k _ c Hk Hh). by eapply F1.
Qed.

(** The race a call still publishes is its own. *)
Lemma race_of_owner s k p id id' rc :
  inv s -> at_dials s !! k = Some p -> owner_of p = Some id -> at_race s = Some (id', rc) -> id' = id.
Proof.
  intros Hi Hk Hp Hr. destruct (a_own s Hi k p id Hk Hp) as [Hs Hd]. destruct (a_race s Hi id' rc Hr) as [_ Hph].
  destruct (r_phase rc).
  - destruct Hph as (k' & g & Hk'). destruct (a_own s Hi k' _ id' Hk' eq_refl). congruence.
  - destruct Hph as [[_ ?]|Hc]; [congruence|]. destruct (a_free s Hi Hs). congruence.
Qed.

Lemma cleanup_closed_spec d s : cleanup_closed d s = true <-> ~ racing s d.
Proof.
  unfold cleanup_closed, racing. destruct (at_race s) as [[id r]|]; [|naive_solver].
  rewrite negb_true_iff, bool_decide_eq_false. naive_solver.
Qed.

Lemma publish_ok s k g id o :
  inv s -> at_dials s !! k = Some (PPublish g id o) ->
  let cleanup := match o with SelFailed b | SelWon _ _ b => b end in
  let s1 := {| s with at_cleanupDone := if cleanup then Some id else at_cleanupDone s; at_selecting := false |} in
  inv match o with
      | SelWon c m _ => set_dial k (PReturned (Ok (Some c))) (set_conn c CReturned {| s1 with at_selected := Some m |})
      | SelFailed _ => set_dial k (PReturned (Err EFailed)) s1
      end.
Proof.
  intros Hi Hk cleanup s1. pose proof (a_publish s Hi k g id o Hk) as Hnc.
  assert (Hy : forall id' rc, at_race s = Some (id', rc) -> (if cleanup then Some id else at_cleanupDone s) = Some id').
  { intros id' rc Hr. rewrite (race_of_owner s k _ id id' rc Hi Hk eq_refl Hr). subst cleanup.
    destruct o as [[]|? ? []]; try done; by rewrite Hnc in Hr. }
  destruct o as [b|c m b].
  - eapply (inv_release s k id _ (Err EFailed) _ _ (at_selected s)) in Hi; [exact Hi|exact Hk|done..].
  - eapply (inv_release s k id _ (Ok (Some c)) (<[c := CReturned]> (at_conns s)) _ (Some m)) in Hi;
      [exact Hi|exact Hk|done|done| |by intros c' [= ->]|done].
    cbn. by exists CReturned.
Qed.

Lemma Dial_ok s s' k cancelled answer : inv s -> Dial k cancelled answer s = Some s' -> inv s'.
Proof.
  intros Hi H. unfold Dial in H. destruct (at_dials s !! k) as [p|] eqn:Hk; [|done].
  assert (Hmove : forall s1 p', inv s1 -> at_dials s1 = at_dials s -> owner_of p = None -> idle p' -> inv (set_dial k p' s1)).
  { intros s1 p' Hi1 E Ho Hp'. apply (inv_idle s1 k (Some p)); [done|by rewrite E| |done]. by intros q [= <-]. }
  destruct p as [|g|g d|g d| |g id o|id|m|]; try done.
  - injection H as <-. by eapply dial_iteration_ok.
  - injection H as <-. by eapply dial_iteration_ok.
  - destruct cancelled; [|destruct (selection_closed d s); [|done]]; injection H as <-;
      (apply Hmove; [by apply inv_waiters|done..]).
  - destruct cancelled; [injection H as <-; by apply Hmove|]. destruct (cleanup_closed d s) eqn:Hc; [|done].
    injection H as <-. apply cleanup_closed_spec in Hc.
    destruct (bool_decide_reflect (at_cleanupDone s = Some d)) as [Hd|]; [|by apply Hmove].
    apply Hmove; [|done..]. apply inv_no_cleanup; [done|]. intros id r Hr Hid. apply Hc. exists r. congruence.
  - destruct (negb (g =? at_generation s)%Z).
    + injection H as <-. pose proof (inv_stale s k g id o Hi Hk) as Hs. destruct o as [|c [] b]; [exact Hs| |exact Hs].
      by apply (inv_closed _ (QUIC :: at_closed s)) in Hs.
    + pose proof (publish_ok s k g id o Hi Hk) as Hs. destruct o; injection H as <-; exact Hs.
  - destruct (cleanup_closed id s) eqn:Hc; [|done]. injection H as <-. apply cleanup_closed_spec in Hc.
    eapply (inv_release s k id _ (Err EClosed) _ (at_cleanupDone s) (at_selected s)); [exact Hi|exact Hk|done..|].
    intros id' rc Hr. destruct Hc. rewrite <- (race_of_owner s k _ id id' rc Hi Hk eq_refl Hr). by exists rc.
  - injection H as <-. apply Hmove; [done..|]. by destruct answer.
Qed.

Lemma Close_call_ok s s' k : inv s -> Close_call k s = Some s' -> inv s'.
Proof.
  intros Hi H. unfold Close_call in H. destruct (at_closes s !! k); [done|]. injection H as <-. inv_open Hi. split; try done.
  intros Hs. by destruct (a_free Hs).
Qed.

Lemma inv_set_close s k p : inv s -> inv (set_close k p s).
Proof. intros Hi. by inv_open Hi. Qed.

Lemma Close_ok s s' k : inv s -> Close k s = Some s' -> inv s'.
Proof.
  intros Hi H. unfold Close in H. destruct (at_closes s !! k) as [[selected sel c race|d race|[c|] race|]|]; try done.
  - injection H as <-. by apply inv_set_close, inv_closeAuto.
  - destruct (selection_closed d s); [|done]. injection H as <-. by apply inv_set_close.
  - destruct (cleanup_closed c s) eqn:Hc; [|done]. injection H as <-. apply cleanup_closed_spec in Hc. apply inv_set_close.
    destruct (bool_decide_reflect (at_cleanupDone s = Some c)) as [Hd|]; [|done]. apply inv_no_cleanup; [done|].
    intros id r Hr Hid. apply Hc. exists r. congruence.
  - injection H as <-. by apply inv_set_close.
Qed.

Lemma Dial_call_ok s s' k : inv s -> Dial_call k s = Some s' -> inv s'.
Proof.
  intros Hi H. unfold Dial_call in H. destruct (at_dials s !! k) eqn:Hk; [done|]. injection H as <-.
  by eapply inv_idle.
Qed.

Lemma moves_ok s s' : inv s -> moves s s' -> inv s'.
Proof.
  intros Hi [[] H]; cbn in H; eauto using Dial_call_ok, Dial_ok, selectTransport_ok, dial_answer_ok, cleanup_ok,
    Close_call_ok, Close_ok.
Qed.

Lemma new_auto_ok : inv new_auto.
Proof.
  split; cbn; try done; try by (intros *; rewrite lookup_empty). 
  - intros c (? & ? & [=] & _).
  - split_and!; [|done|lia]. intros c x. by rewrite lookup_empty.
Qed.

Lemma reachable_ok s : reachable s -> inv s.
Proof. apply rtc_ind_r; [apply new_auto_ok|]. intros y z _ Hm Hi. by eapply moves_ok. Qed.

(** ** What a [Close] waits for *)

(** A race that has ended does not come back. *)
Lemma races_shrink a s s' :
  step a s = Some s' ->
  (at_next s <= at_next s')%nat /\ (forall id, (id < at_next s)%nat -> racing s' id -> racing s id).
Proof.
  assert (Hsame : forall s1, at_next s1 = at_next s -> at_race s1 = at_race s ->
    (at_next s <= at_next s1)%nat /\ (forall id, (id < at_next s)%nat -> racing s1 id -> racing s id)).
  { intros s1 En Er. split; [lia|]. intros id _ [r Hr]. exists r. congruence. }
  destruct a as [k|k c b|k ev|m ok| |k|k]; cbn.
  - unfold Dial_call. case_match; [done|]. intros [= <-]. by apply Hsame.
  - unfold Dial. destruct (at_dials s !! k) as [[]|]; try done; unfold dial_iteration; repeat case_match; intros [= <-];
      try by apply Hsame.
    + split; cbn; [lia|]. intros id Hid [r [= <- <-]]. lia.
    + split; cbn; [lia|]. intros id Hid [r [= <- <-]]. lia.
    + match goal with m : mode |- _ => destruct m end; by apply Hsame.
  - unfold selectTransport. destruct (at_dials s !! k) as [[]|]; try done. destruct (at_race s) as [[id' r]|] eqn:Hr; [|done].
    destruct (bool_decide_reflect (id = id')) as [<-|]; [|done].
    assert (Hx : forall s1 x, at_next s1 = at_next s -> at_race s1 = x -> (x = None \/ exists r', x = Some (id, r')) ->
      (at_next s <= at_next s1)%nat /\ (forall i, (i < at_next s)%nat -> racing s1 i -> racing s i)).
    { intros s1 x En Er Hx. split; [lia|]. intros i _ [y Hy]. destruct Hx as [->|[r' ->]]; [congruence|].
      exists r. congruence. }
    repeat case_match; intros [= <-]; (eapply Hx; [done|done|]); cbn; try by eauto.
    all: case_match; eauto.
  - unfold dial_answer. destruct (at_race s) as [[id r]|] eqn:Hr; [|done]. case_match; [|done].
    destruct ok; intros [= <-]; cbn; (split; [lia|]); intros i _ [y Hy]; exists r; cbn in Hy; congruence.
  - unfold cleanupAutoTransportResults. destruct (at_race s) as [[id r]|] eqn:Hr; [|done].
    destruct (r_phase r) as [|[|n] w]; try done. destruct (r_results r) as [|x l]; [done|]. intros [= <-].
    split.
    + destruct (negb _ && _), (ar_mode x), (ar_conn x); cbn; lia.
    + intros i _ [y Hy]. exists r. cbn in Hy. destruct n; [done|]. congruence.
  - unfold Close_call. case_match; [done|]. intros [= <-]. by apply Hsame.
  - unfold Close. destruct (at_closes s !! k) as [[sel ? ? ?|? ?|[]|]|]; try done; repeat case_match; intros [= <-]; try by apply Hsame.
    all: destruct sel as [[]|]; by apply Hsame.
Qed.

Lemma close_ok_mono a s s' p : step a s = Some s' -> close_ok s p -> close_ok s' p.
Proof.
  intros [Hn Hr]%races_shrink. destruct p as [? [] ? []|? []|? []|[]]; cbn; try done; intros [Hid H]; (split; [lia|]); auto.
Qed.

(** The race that runs is the one under selection, or the one in [cleanupDone]. *)
Lemma racing_known s id :
  inv s -> racing s id -> at_selecting s = true /\ at_selectionDone s = id \/ at_selecting s = false /\ at_cleanupDone s = Some id.
Proof.
  intros Hi [r Hr]. destruct (a_race s Hi id r Hr) as [_ Hph]. destruct (r_phase r).
  - destruct Hph as (k & g & Hk). left. by apply (a_own s Hi k _ id Hk).
  - destruct Hph as [?|Hc]; [by left|]. right. split; [|done]. destruct (at_selecting s) eqn:Hs; [|done].
    destruct (a_free s Hi Hs). congruence.
Qed.

Lemma closes_other a s s' k p :
  step a s = Some s' -> at_closes s' !! k = Some p -> at_closes s !! k = Some p \/ a = DoCloseCall k \/ a = DoClose k.
Proof.
  assert (Hset : forall j q, <[j := q]> (at_closes s) !! k = Some p -> at_closes s !! k = Some p \/ j = k).
  { intros j q [[-> _]|[_ ?]]%lookup_insert_Some; auto. }
  destruct a as [j|j c b|j ev|m ok| |j|j]; cbn; intros H Hp.
  - unfold Dial_call in H. case_match; [done|]. injection H as <-. by left.
  - left. unfold Dial, dial_iteration in H. destruct (at_dials s !! j) as [[]|]; try done; repeat case_match; try done;
      injection H as <-; try exact Hp; match goal with m : mode |- _ => destruct m end; exact Hp.
  - left. unfold selectTransport in H. repeat case_match; try done; injection H as <-; exact Hp.
  - left. unfold dial_answer in H. repeat case_match; try done; simplify_eq; exact Hp.
  - left. unfold cleanupAutoTransportResults in H. destruct (at_race s) as [[id r]|]; [|done].
    destruct (r_phase r) as [|[|n] w]; try done. destruct (r_results r) as [|x l]; [done|]. injection H as <-.
    destruct (negb _ && _), (ar_mode x), (ar_conn x); exact Hp.
  - unfold Close_call in H. case_match; [done|]. injection H as <-. cbn in Hp. destruct (Hset _ _ Hp) as [?|<-]; auto.
  - assert (Hc : forall x, at_closes (closeAutoTransport x s) = at_closes s) by by intros [[]|].
    unfold Close in H. destruct (at_closes s !! j) as [[sel ? ? ?|? ?|[]|]|]; try done; repeat case_match; try done;
      injection H as <-; cbn in Hp; rewrite ?Hc in Hp; destruct (Hset _ _ Hp) as [?|<-]; auto.
Qed.

Lemma Close_call_seen s s' k p :
  inv s -> Close_call k s = Some s' -> at_closes s' !! k = Some p -> close_ok s' p.
Proof.
  intros Hi H Hp. unfold Close_call in H. case_match; [done|]. injection H as <-. cbn in Hp.
  rewrite lookup_insert_eq in Hp. injection Hp as <-. destruct (at_race s) as [[id r]|] eqn:Hr; [|by case_match].
  assert (Hid : racing s id) by by exists r. destruct (a_fresh s Hi) as (_ & F & _). pose proof (F id r Hr).
  destruct (racing_known s id Hi Hid) as [[-> <-]|[-> Hc]]; by split.
Qed.

Lemma Close_waited s s' k p :
  inv s -> inv_closes s -> Close k s = Some s' -> at_closes s' !! k = Some p -> close_ok s' p.
Proof.
  intros Hi Hcl H Hp. assert (Hstep : step (DoClose k) s = Some s') by done. unfold Close in H.
  destruct (at_closes s !! k) as [q|] eqn:Hq; [|done]. pose proof (close_ok_mono _ _ _ q Hstep (Hcl k q Hq)) as Hok.
  assert (Hr : forall id, racing s' id -> racing s id).
  { intros id [r Hr]. exists r. destruct q as [[[]|] ? ? ?|? ?|[]|]; repeat case_match; simplify_eq; exact Hr. }
  destruct q as [selected sel c race|d race|[c|] race|]; try done.
  - injection H as <-. cbn in Hp. rewrite lookup_insert_eq in Hp. injection Hp as <-. destruct sel; exact Hok.
  - destruct (selection_closed d s) eqn:Hd; [|done]. injection H as <-. cbn in Hp. rewrite lookup_insert_eq in Hp.
    injection Hp as <-. destruct race as [id|]; [|done]. destruct Hok as [Hid Hdd]. split; [done|]. intros Hrc.
    destruct (racing_known s id Hi (Hr id Hrc)) as [[Hs He]|[_ ?]]; [|done].
    unfold selection_closed in Hd. rewrite Hs, bool_decide_eq_true_2 in Hd; [done|]. rewrite He. by rewrite Hdd.
  - destruct (cleanup_closed c s) eqn:Hc; [|done]. injection H as <-. cbn in Hp. rewrite lookup_insert_eq in Hp.
    injection Hp as <-. destruct race as [id|]; [|done]. destruct Hok as [Hid Hdd]. split; [done|]. intros Hrc.
    apply cleanup_closed_spec in Hc. pose proof (Hdd Hrc) as [= ->]. by apply Hc, Hr.
  - injection H as <-. cbn in Hp. rewrite lookup_insert_eq in Hp. injection Hp as <-. destruct race as [id|]; [|done].
    destruct Hok as [Hid Hdd]. split; [done|]. intros Hrc. by pose proof (Hdd Hrc).
Qed.

Lemma reachable_closes s : reachable s -> inv_closes s.
Proof.
  intros Hr. revert s Hr. apply rtc_ind_r; [by intros k p; cbn; rewrite lookup_empty|].
  intros s s' Hrs [a Ha] Hcl k p Hp. apply reachable_ok in Hrs as Hi.
  destruct (closes_other a s s' k p Ha Hp) as [Hold|[->| ->]].
  - eapply close_ok_mono; [exact Ha|]. by eapply Hcl.
  - by eapply Close_call_seen.
  - by eapply (Close_waited s).
Qed.

(** ** Progress *)

Definition unfinished (s : auto) : Prop :=
  (exists k p, at_dials s !! k = Some p /\ forall r, p <> PReturned r) \/
  (exists k p, at_closes s !! k = Some p /\ forall r, p <> KReturned r).

(** What the goroutines of the transport do by themselves: no new call, no
    cancelled context, no timer. *)
Definition internal (a : action) : bool :=
  match a with
  | DoDial _ false _ | DoSelect _ EvResult | DoAnswer _ _ | DoCleanup | DoClose _ => true
  | _ => false
  end.

Definition enabled (s : auto) : Prop := exists a s', internal a = true /\ step a s = Some s'.

(** A race always has a dial to answer or a result to take. *)
Lemma race_enabled s id r : inv s -> at_race s = Some (id, r) -> enabled s.
Proof.
  intros Hi Hr. destruct (a_race s Hi id r Hr) as [Hok Hown]. pose proof (ro_count r Hok) as Hn.
  destruct (r_dialing r) as [|m l] eqn:Hd.
  - destruct (r_results r) as [|x results] eqn:E; [destruct (r_phase r); cbn in Hn; lia|].
    destruct (r_phase r) as [|[|n] w] eqn:Hp; [|cbn in Hn; lia|].
    + destruct Hown as (k & g & Hk). exists (DoSelect k EvResult). cbn. unfold selectTransport. rewrite Hk, Hr, Hp, E.
      rewrite !bool_decide_eq_true_2 by done. cbn. destruct (ar_conn x); [by eexists|]. case_match; by eexists.
    + exists DoCleanup. cbn. unfold cleanupAutoTransportResults. rewrite Hr, Hp, E. by eexists.
  - exists (DoAnswer m false). cbn. unfold dial_answer. rewrite Hr, bool_decide_eq_true_2; [by eexists|].
    rewrite Hd. apply elem_of_cons. by left.
Qed.

Lemma cleanup_closed_none s d : at_race s = None -> cleanup_closed d s = true.
Proof. unfold cleanup_closed. by intros ->. Qed.

(** Without a race the call that holds the selection can go on. *)
Lemma owner_enabled s : inv s -> at_race s = None -> at_selecting s = true -> enabled s.
Proof.
  intros Hi Hr Hs. destruct (a_owned s Hi Hs) as (k & p & Hk & Ho). exists (DoDial k false false). cbn. unfold Dial.
  rewrite Hk. destruct p; try done.
  - destruct (a_selecting s Hi _ _ _ Hk) as (? & ? & _). congruence.
  - case_match; [by eexists|]. destruct o; by eexists.
  - rewrite (cleanup_closed_none s _ Hr). by eexists.
Qed.

Lemma selection_closed_idle s d : at_selecting s = false -> selection_closed d s = true.
Proof. unfold selection_closed. by intros ->. Qed.

Lemma progress s : inv s -> unfinished s -> enabled s.
Proof.
  intros Hi Hu. destruct (at_race s) as [[id r]|] eqn:Hr; [by eapply race_enabled|].
  destruct (at_selecting s) eqn:Hs; [by apply owner_enabled|].
  destruct Hu as [(k & p & Hk & Hp)|(k & p & Hk & Hp)].
  - exists (DoDial k false false). cbn. unfold Dial. rewrite Hk. destruct p; try by eexists.
    + rewrite (selection_closed_idle s d Hs). by eexists.
    + rewrite (cleanup_closed_none s d Hr). by eexists.
    + destruct (a_selecting s Hi _ _ _ Hk) as (? & ? & _). congruence.
    + case_match; [by eexists|]. destruct o; by eexists.
    + rewrite (cleanup_closed_none s _ Hr). by eexists.
    + by destruct (Hp r).
  - exists (DoClose k). cbn. unfold Close. rewrite Hk. destruct p as [|d race|[c|] race|race]; try by eexists.
    + rewrite (selection_closed_idle s d Hs). by eexists.
    + rewrite (cleanup_closed_none s c Hr). by eexists.
    + by destruct (Hp race).
Qed.

(** A pinned transport is not selected again; only [Close] unpins it. *)
Lemma pinned_idle s m k p : inv s -> at_selected s = Some m -> at_dials s !! k = Some p -> owner_of p = None.
Proof.
  intros Hi Hm Hk. destruct (owner_of p) as [id|] eqn:Ho; [|done]. destruct (a_own s Hi k p id Hk Ho) as [Hs _].
  destruct (a_free s Hi Hs). congruence.
Qed.

Lemma pinned_stays a s s' m :
  inv s -> at_selected s = Some m -> step a s = Some s' -> at_selected s' = Some m \/ exists k, a = DoCloseCall k.
Proof.
  intros Hi Hm H. pose proof (pinned_idle s m) as Hown.
  destruct a as [k|k c b|k ev|x ok| |k|k]; cbn in H; [left..|by right; eexists|left].
  - unfold Dial_call in H. case_match; [done|]. by injection H as <-.
  - unfold Dial, dial_iteration in H. rewrite Hm in H. destruct (at_dials s !! k) as [p|] eqn:Hk; [|done].
    pose proof (Hown k p Hi Hm Hk). destruct p; try done; repeat case_match; try done; injection H as <-; first [exact Hm|reflexivity].
  - unfold selectTransport in H. destruct (at_dials s !! k) as [p|] eqn:Hk; [|done].
    pose proof (Hown k p Hi Hm Hk). by destruct p.
  - unfold dial_answer in H. repeat case_match; try done; simplify_eq; exact Hm.
  - unfold cleanupAutoTransportResults in H. destruct (at_race s) as [[id r]|]; [|done].
    destruct (r_phase r) as [|[|n] w]; try done. destruct (r_results r) as [|y l]; [done|]. injection H as <-.
    destruct (negb _ && _), (ar_mode y), (ar_conn y); exact Hm.
  - unfold Close in H. destruct (at_closes s !! k) as [[sel ? ? ?|? ?|[]|]|]; try done; repeat case_match; try done;
      injection H as <-; try exact Hm; destruct sel as [[]|]; exact Hm.
Qed.

(** ** Runs *)

Fixpoint run (l : list action) (s : auto) : auto :=
  match l with
  | [] => s
  | a :: l => match step a s with Some s' => run l s' | None => s end
  end.

Lemma run_moves l s : rtc moves s (run l s).
Proof.
  revert s. induction l as [|a l IH]; intros s; [done|]. cbn. destruct (step a s) as [s'|] eqn:E; [|done].
  eapply rtc_l; [by exists a|apply IH].
Qed.

Lemma run_reachable l : reachable (run l new_auto).
Proof. apply run_moves. Qed.

(** TLS wins the race while [Close] runs: the selection is stale when it is
    published, and QUIC still delivers a connection. *)
Definition stale_run : list action :=
  [DoDialCall 0; DoDial 0 false false; DoSelect 0 EvTimer; DoAnswer TLS true; DoCloseCall 5; DoClose 5;
   DoSelect 0 EvResult; DoDial 0 false false; DoAnswer QUIC true].

Definition stale_rest : list action :=
  [DoCleanup; DoDial 0 false false; DoClose 5; DoClose 5].

(** QUIC fails and TLS is pinned; a second call is about to dial it. *)
Definition pinned_run : list action :=
  [DoDialCall 0; DoDial 0 false false; DoDialCall 1; DoDial 1 false false; DoAnswer QUIC false; DoSelect 0 EvResult;
   DoAnswer TLS true; DoSelect 0 EvResult; DoDial 0 false false; DoDial 1 false false].

(** ** Properties *)

Definition quiescent (s : auto) : Prop :=
  at_race s = None /\ forall k p, at_dials s !! k = Some p -> exists r, p = PReturned r.

(** C37: No connection of the race is lost.  In every interleaving of [Dial] and
    [Close] calls, dialer answers, cancelled contexts and timers, an open
    connection is either still in the result channel of the race or held by the
    call that publishes it; a connection a [Dial] returned is the caller's and was
    not closed; when all calls have returned and no cleanup runs, every connection
    that was not returned is closed; and a [Close] that has returned left neither
    the selection that ran when it took the lock nor its cleanup running. *)
Theorem auto_transport_no_leak (s : auto) (Hs : reachable s) :
  (forall c, at_conns s !! c = Some COpen ->
     in_results s c \/ exists k p, at_dials s !! k = Some p /\ held_by p = Some c) /\
  (forall k c, at_dials s !! k = Some (PReturned (Ok (Some c))) -> at_conns s !! c = Some CReturned) /\
  (forall k id, at_closes s !! k = Some (KReturned (Some id)) -> ~ racing s id) /\
  (quiescent s -> forall c, at_conns s !! c <> Some COpen).
Proof.
  pose proof (reachable_ok s Hs) as Hi. pose proof (reachable_closes s Hs) as Hc. split_and!.
  - apply Hi.
  - apply Hi.
  - intros k id Hk. by destruct (Hc k _ Hk).
  - intros [Hr Hd] c Ho. destruct (a_open s Hi c Ho) as [(? & ? & ? & _)|(k & p & Hk & Hh)]; [congruence|].
    by destruct (Hd k p Hk) as [r ->].
Qed.

Lemma auto_transport_no_leak_witness :
  at_conns (run stale_run new_auto) !! 3%nat = Some COpen /\ racing (run stale_run new_auto) 1 /\
  ~ racing (run stale_rest (run stale_run new_auto)) 1.
Proof.
  split; [vm_compute; reflexivity|]. split; [eexists; vm_compute; reflexivity|].
  destruct (auto_transport_no_leak (run stale_rest (run stale_run new_auto))) as (_ & _ & H & _).
  - unfold reachable. etrans; [apply run_moves|apply run_moves].
  - apply (H 5%nat). vm_compute. reflexivity.
Defined.

(** At most one call selects at a time, and the selected transport is pinned.
    In every reachable state a single call owns the selection; while a transport is
    pinned no call selects, and no step but a [Close] unpins it. *)
Theorem auto_transport_pinned (a : action) (s s' : auto) (Hs : reachable s) (Ha : step a s = Some s') :
  (forall k k' p p', at_dials s !! k = Some p -> at_dials s !! k' = Some p' ->
     owner_of p <> None -> owner_of p' <> None -> k = k') /\
  (forall m, at_selected s = Some m ->
     (forall k p, at_dials s !! k = Some p -> owner_of p = None) /\
     (at_selected s' = Some m \/ exists k, a = DoCloseCall k)).
Proof.
  pose proof (reachable_ok s Hs) as Hi. split; [apply Hi|]. intros m Hm. split.
  - intros k p. by apply (pinned_idle s m).
  - by eapply pinned_stays.
Qed.

Lemma auto_transport_pinned_witness :
  at_selected (run pinned_run new_auto) = Some TLS /\
  at_selected (run [DoDial 1 false true] (run pinned_run new_auto)) = Some TLS.
Proof.
  assert (Hm : at_selected (run pinned_run new_auto) = Some TLS) by (vm_compute; reflexivity).
  split; [exact Hm|].
  destruct (auto_transport_pinned (DoDial 1 false true) (run pinned_run new_auto)
              (run [DoDial 1 false true] (run pinned_run new_auto))) as [_ H].
  - apply run_reachable.
  - vm_compute. reflexivity.
  - destruct (H TLS Hm) as [_ [E|[k E]]]; [exact E|discriminate E].
Defined.

(** Nobody waits for ever on a lost wakeup.  In every reachable state in which
    some [Dial] or [Close] has not returned, a goroutine of the transport can go on
    without a new call, a cancelled context or the timer: a dial answers, a result
    is taken, a cleanup proceeds, or a waiting call finds its channel closed. *)
Theorem auto_transport_progress (s : auto) (Hs : reachable s) (Hu : unfinished s) : enabled s.
Proof. apply progress; [by apply reachable_ok|done]. Qed.

Lemma auto_transport_progress_witness : enabled (run stale_run new_auto).
Proof.
  apply auto_transport_progress; [apply run_reachable|]. right. exists 5%nat, (KWaitSelection 1 (Some 1%nat)).
  split; [vm_compute; reflexivity|discriminate].
Defined.
