(* ===== verification/Reconciler.v ===== *)
(** * Reconciler: desired and running tunnels of [rstream run]
    ([cmd/rstream/internal/reconciler/reconciler.go], [runmodel/types.go])

    [reconcile] compares the desired tunnels with the active ones and stops,
    restarts and starts tunnels.  It ranges over Go maps, whose order is not
    specified, so that the model takes the two orders as arguments.  What the
    starter and the handles answer in one round is a function of the tunnel's name:
    a round stops and starts each tunnel at most once.

    The goroutine that owns the active tunnels is interleaved with any number of
    [Reconcile] and [Stop] calls.  A step is a rendezvous on the request channel, a
    whole round, a receive, or the end of the context.

    Desired tunnels hold pointers.  [CloneDesired] copies what they point to, except
    for the CORS configuration, which is therefore a location in a shared store. *)

From S2P Require Import Prelude GoStrings TransportConfig.

#[export] Instance bind_eq_dec : EqDecision BindConfig.
Proof. solve_decision. Defined.
#[export] Instance dns_eq_dec : EqDecision DNSConfig.
Proof. solve_decision. Defined.
#[export] Instance tls_eq_dec : EqDecision TLSConfig.
Proof. solve_decision. Defined.
#[export] Instance proxy_tls_eq_dec : EqDecision ProxyTLSConfig.
Proof. solve_decision. Defined.
#[export] Instance proxy_eq_dec : EqDecision ProxyConfig.
Proof. solve_decision. Defined.
#[export] Instance transport_config_eq_dec : EqDecision TransportConfig.
Proof. solve_decision. Defined.

(** ** Desired tunnels ([runmodel]) *)

Record ForwardTarget := MkForward { ft_Host : string; ft_Port : string }.

#[export] Instance forward_eq_dec : EqDecision ForwardTarget.
Proof. solve_decision. Defined.

Inductive forward_error := ForwardEmpty | ForwardInvalid (raw : string).

Definition colon : byte := x3a.

Definition ParseForwardTarget (raw defaultHost : string) : result forward_error ForwardTarget :=
  let clean := TrimSpace raw in
  if bool_decide (clean = "") then Err ForwardEmpty
  else
    let parsed :=
      if contains_byte colon (s2b clean) then
        match SplitHostPort clean with
        | None => None
        | Some (host, port) => Some (TrimSpace host, TrimSpace port)
        end
      else Some (defaultHost, clean) in
    match parsed with
    | None => Err (ForwardInvalid raw)
    | Some (host, port) =>
        if bool_decide (TrimSpace host = "") || bool_decide (TrimSpace port = "") then Err (ForwardInvalid raw)
        else Ok (MkForward host port)
    end.

(** [rstream.TunnelProperties] as [reflect.DeepEqual] sees it: nil and empty slices
    differ.  [P] is what the CORS pointer is: a location, or the value behind it. *)
Record RunProps (Time P : Type) := MkRunProps {
  rp_ID : option string;
  rp_CreationDate : option Time;
  rp_Name : option string;
  rp_Type : option string;
  rp_Publish : option bool;
  rp_Protocol : option string;
  rp_Labels : option (gmap string string);
  rp_GeoIP : option (list string);
  rp_TrustedIPs : option (list string);
  rp_Host : option string;
  rp_Hostname : option string;
  rp_Port : option Z;
  rp_TLSMode : option string;
  rp_TLSALPNs : option (list string);
  rp_TLSMinVersion : option string;
  rp_TLSCiphers : option (list string);
  rp_MTLSAuth : option bool;
  rp_HTTPVersion : option string;
  rp_HTTPCORS : option P;
  rp_HTTPUseTLS : option bool;
  rp_UpstreamTLS : option bool;
  rp_DatagramGuaranteedDelivery : option bool;
  rp_AllowCrossRegionRouting : option bool;
  rp_TokenAuth : option bool;
  rp_RstreamAuth : option bool;
  rp_ChallengeMode : option bool;
}.
Arguments MkRunProps {Time P}.

#[export] Instance run_props_eq_dec {Time P} `{EqDecision Time} `{EqDecision P} : EqDecision (RunProps Time P).
Proof. solve_decision. Defined.

Section Reconciler.
(** Times, CORS configurations, [tls.Config]s and dialers are opaque here. *)
Context {Time Cors Tls Dialer : Type} `{EqDecision Time} `{EqDecision Cors}.

Notation props := (RunProps Time nat).

Record ResolvedContext := MkContext {
  rx_Name : string;
  rx_Engine : string;
  rx_StableDomainEngine : string;
  rx_Token : string;
  rx_Transport : option Dialer;
  rx_TransportConfig : option TransportConfig;
  rx_TLSClientConfig : option Tls;
  rx_CredentialID : string;
}.

Record DesiredTunnel := MkDesired {
  dt_Name : string;
  dt_Forward : ForwardTarget;
  dt_Context : ResolvedContext;
  dt_Props : props;
  dt_Source : string;
}.

(** The CORS configurations of the process, by location. *)
Definition store := gmap nat Cors.

(** What [reflect.DeepEqual] compares of a set of properties. *)
Definition deref_props (st : store) (p : props) : RunProps Time (option Cors) :=
  {| rp_ID := rp_ID _ _ p; rp_CreationDate := rp_CreationDate _ _ p; rp_Name := rp_Name _ _ p; rp_Type := rp_Type _ _ p;
     rp_Publish := rp_Publish _ _ p; rp_Protocol := rp_Protocol _ _ p; rp_Labels := rp_Labels _ _ p;
     rp_GeoIP := rp_GeoIP _ _ p; rp_TrustedIPs := rp_TrustedIPs _ _ p; rp_Host := rp_Host _ _ p;
     rp_Hostname := rp_Hostname _ _ p; rp_Port := rp_Port _ _ p; rp_TLSMode := rp_TLSMode _ _ p;
     rp_TLSALPNs := rp_TLSALPNs _ _ p; rp_TLSMinVersion := rp_TLSMinVersion _ _ p; rp_TLSCiphers := rp_TLSCiphers _ _ p;
     rp_MTLSAuth := rp_MTLSAuth _ _ p; rp_HTTPVersion := rp_HTTPVersion _ _ p;
     rp_HTTPCORS := (fun l => st !! l) <$> rp_HTTPCORS _ _ p;
     rp_HTTPUseTLS := rp_HTTPUseTLS _ _ p; rp_UpstreamTLS := rp_UpstreamTLS _ _ p;
     rp_DatagramGuaranteedDelivery := rp_DatagramGuaranteedDelivery _ _ p;
     rp_AllowCrossRegionRouting := rp_AllowCrossRegionRouting _ _ p; rp_TokenAuth := rp_TokenAuth _ _ p;
     rp_RstreamAuth := rp_RstreamAuth _ _ p; rp_ChallengeMode := rp_ChallengeMode _ _ p |}.

Definition compared (st : store) (d : DesiredTunnel) :=
  (dt_Name d, dt_Forward d,
   (rx_Name (dt_Context d), rx_Engine (dt_Context d), rx_StableDomainEngine (dt_Context d), rx_Token (dt_Context d),
    rx_TransportConfig (dt_Context d), rx_CredentialID (dt_Context d)),
   deref_props st (dt_Props d), dt_Source d).

(** [EqualDesired] ignores the dialer and the TLS configuration. *)
Definition EqualDesired (st : store) (a b : DesiredTunnel) : bool := bool_decide (compared st a = compared st b).

Definition clonePtr {A} (value : option A) : option A := match value with None => None | Some v => Some v end.

Definition cloneMap (value : option (gmap string string)) : option (gmap string string) :=
  match value with None => None | Some m => Some (map_fold (fun k v r => <[k := v]> r) ∅ m) end.

Definition cloneSlice {A} (value : option (list A)) : option (list A) :=
  match value with None => None | Some l => Some ([] ++ l) end.

(** [cloneTunnelProperties] does not mention [HTTPCORS]: the pointer is shared. *)
Definition cloneTunnelProperties (p : props) : props :=
  {| rp_ID := clonePtr (rp_ID _ _ p); rp_CreationDate := clonePtr (rp_CreationDate _ _ p);
     rp_Name := clonePtr (rp_Name _ _ p); rp_Type := clonePtr (rp_Type _ _ p); rp_Publish := clonePtr (rp_Publish _ _ p);
     rp_Protocol := clonePtr (rp_Protocol _ _ p); rp_Labels := cloneMap (rp_Labels _ _ p);
     rp_GeoIP := cloneSlice (rp_GeoIP _ _ p); rp_TrustedIPs := cloneSlice (rp_TrustedIPs _ _ p);
     rp_Host := clonePtr (rp_Host _ _ p); rp_Hostname := clonePtr (rp_Hostname _ _ p); rp_Port := clonePtr (rp_Port _ _ p);
     rp_TLSMode := clonePtr (rp_TLSMode _ _ p); rp_TLSALPNs := cloneSlice (rp_TLSALPNs _ _ p);
     rp_TLSMinVersion := clonePtr (rp_TLSMinVersion _ _ p); rp_TLSCiphers := cloneSlice (rp_TLSCiphers _ _ p);
     rp_MTLSAuth := clonePtr (rp_MTLSAuth _ _ p); rp_HTTPVersion := clonePtr (rp_HTTPVersion _ _ p);
     rp_HTTPCORS := rp_HTTPCORS _ _ p;
     rp_HTTPUseTLS := clonePtr (rp_HTTPUseTLS _ _ p); rp_UpstreamTLS := clonePtr (rp_UpstreamTLS _ _ p);
     rp_DatagramGuaranteedDelivery := clonePtr (rp_DatagramGuaranteedDelivery _ _ p);
     rp_AllowCrossRegionRouting := clonePtr (rp_AllowCrossRegionRouting _ _ p);
     rp_TokenAuth := clonePtr (rp_TokenAuth _ _ p); rp_RstreamAuth := clonePtr (rp_RstreamAuth _ _ p);
     rp_ChallengeMode := clonePtr (rp_ChallengeMode _ _ p) |}.

Definition CloneDesired (d : DesiredTunnel) : DesiredTunnel :=
  {| d with dt_Context := {| (dt_Context d) with rx_TransportConfig := MergeTransport (rx_TransportConfig (dt_Context d)) None |};
            dt_Props := cloneTunnelProperties (dt_Props d) |}.

(** ** One round *)

Record activeTunnel := MkActive { ac_desired : DesiredTunnel; ac_handle : nat }.

(** What happens to the handles: started, or told to stop with its answer. *)
Inductive event := EStart (name : string) (h : nat) | EStop (name : string) (h : nat) (ok : bool).

Inductive recon_error :=
| EStopRemoved (name : string) | EStopUpdated (name : string) | EStartFailed (name : string) | ENilHandle (name : string).

Inductive start_answer := StartFailed | StartNil | Started (h : nat).

(** The answers of [handle.Stop] and [starter.Start] in a round. *)
Record answers := MkAnswers { stop_ok : string -> bool; start_ans : string -> start_answer }.

Record round := MkRound {
  rd_active : gmap string activeTunnel;
  rd_log : list event;
  rd_errs : list recon_error;              (* joined into [reconcileErr] *)
  rd_removed : Z; rd_updated : Z; rd_created : Z; rd_failed : Z;
}.

Definition desired_map (desired : list DesiredTunnel) : gmap string DesiredTunnel :=
  foldl (fun m d => <[dt_Name d := d]> m) ∅ desired.

Definition fail_round (e : recon_error) (s : round) : round :=
  {| s with rd_errs := rd_errs s ++ [e]; rd_failed := rd_failed s + 1 |}.

Definition log_round (e : event) (s : round) : round := {| s with rd_log := rd_log s ++ [e] |}.

(** The body of the loop over [active]. *)
Definition remove_one (env : answers) (wanted : gmap string DesiredTunnel) (s : round) (name : string) : round :=
  match rd_active s !! name, wanted !! name with
  | Some current, None =>
      let ok := stop_ok env name in
      let s := log_round (EStop name (ac_handle current) ok) s in
      if ok then {| s with rd_active := delete name (rd_active s); rd_removed := rd_removed s + 1 |}
      else fail_round (EStopRemoved name) s
  | _, _ => s
  end.

Definition start_one (env : answers) (name : string) (d : DesiredTunnel) (s : round) : round :=
  match start_ans env name with
  | StartFailed => fail_round (EStartFailed name) s
  | StartNil => fail_round (ENilHandle name) s
  | Started h =>
      let s := log_round (EStart name h) s in
      {| s with rd_active := <[name := MkActive d h]> (rd_active s); rd_created := rd_created s + 1 |}
  end.

(** The body of the loop over [desiredMap]. *)
Definition apply_one (env : answers) (st : store) (wanted : gmap string DesiredTunnel) (s : round) (name : string) : round :=
  match wanted !! name with
  | None => s
  | Some d =>
      match rd_active s !! name with
      | None => start_one env name d s
      | Some current =>
          if EqualDesired st (ac_desired current) d then s
          else
            let ok := stop_ok env name in
            let s := log_round (EStop name (ac_handle current) ok) s in
            if ok then start_one env name d {| s with rd_active := delete name (rd_active s); rd_updated := rd_updated s + 1 |}
            else fail_round (EStopUpdated name) s
      end
  end.

(** [reconcile]; [o1] and [o2] are the orders in which the two maps are ranged. *)
Definition reconcile (env : answers) (st : store) (o1 o2 : list string) (active : gmap string activeTunnel)
    (desired : list DesiredTunnel) : round :=
  let wanted := desired_map desired in
  let s := MkRound active [] [] 0 0 0 0 in
  let s := foldl (remove_one env wanted) s o1 in
  foldl (apply_one env st wanted) s o2.

(** [o] is an order in which the keys of [m] can be ranged. *)
Definition ranges {A} (o : list string) (m : gmap string A) : Prop := o ≡ₚ (map_to_list m).*1.

(** ** The reference: one tunnel at a time *)

Definition ev_name (e : event) : string := match e with EStart n _ | EStop n _ _ => n end.
Definition err_name (e : recon_error) : string :=
  match e with EStopRemoved n | EStopUpdated n | EStartFailed n | ENilHandle n => n end.

Definition start_ref (env : answers) (name : string) (d : DesiredTunnel) :
    option activeTunnel * list event * list recon_error :=
  match start_ans env name with
  | StartFailed => (None, [], [EStartFailed name])
  | StartNil => (None, [], [ENilHandle name])
  | Started h => (Some (MkActive d h), [EStart name h], [])
  end.

(** What a round makes of one tunnel, given what is active and what is wanted. *)
Definition reconcile_ref (env : answers) (st : store) (name : string) (current : option activeTunnel)
    (wanted : option DesiredTunnel) : option activeTunnel * list event * list recon_error :=
  match current, wanted with
  | None, None => (None, [], [])
  | None, Some d => start_ref env name d
  | Some c, None =>
      if stop_ok env name then (None, [EStop name (ac_handle c) true], [])
      else (Some c, [EStop name (ac_handle c) false], [EStopRemoved name])
  | Some c, Some d =>
      if EqualDesired st (ac_desired c) d then (Some c, [], [])
      else if stop_ok env name then
        let '(a, l, e) := start_ref env name d in (a, EStop name (ac_handle c) true :: l, e)
      else (Some c, [EStop name (ac_handle c) false], [EStopUpdated name])
  end.

(** What a round shows of one tunnel. *)
Definition view (s : round) (name : string) : option activeTunnel * list event * list recon_error :=
  (rd_active s !! name, filter (fun e => ev_name e = name) (rd_log s), filter (fun e => err_name e = name) (rd_errs s)).

(** ** The goroutine and its callers *)

Inductive reconcile_error := InvalidTunnelName | DuplicateTunnelName | Cancelled | NetClosed | Failed (errs : list recon_error).

(** The loop of [Reconcile] that checks and copies the desired tunnels. *)
Fixpoint check_desired (seen : gset string) (desired : list DesiredTunnel) : result reconcile_error (list DesiredTunnel) :=
  match desired with
  | [] => Ok []
  | d :: l =>
      if bool_decide (dt_Name d = "") then Err InvalidTunnelName
      else if bool_decide (dt_Name d ∈ seen) then Err DuplicateTunnelName
      else let? r := check_desired ({[dt_Name d]} ∪ seen) l in Ok (CloneDesired d :: r)
  end.

Inductive loop_pc := LIdle | LBusy (k : nat) (desired : list DesiredTunnel) | LDeferred | LExited.

(** A [Reconcile] call: sending its request, waiting on [done] (with what is in its
    buffer), returned. *)
Inductive call_pc :=
| CSend (desired : list DesiredTunnel)
| CWait (done : option (list recon_error))
| CReturned (r : option reconcile_error).

Inductive stop_pc := SSend | SWait (done : bool) | SReturned.

Record reconciler := MkReconciler {
  rc_cancelled : bool;                         (* [r.ctx] *)
  rc_loop : loop_pc;
  rc_active : gmap string activeTunnel;
  rc_stopped : bool;
  rc_calls : gmap nat call_pc;
  rc_stops : gmap nat stop_pc;
  rc_log : list event;
  rc_store : store;
}.

Definition New (st : store) : reconciler := MkReconciler false LIdle ∅ false ∅ ∅ [] st.

Definition set_call (k : nat) (c : call_pc) (s : reconciler) : reconciler := {| s with rc_calls := <[k := c]> (rc_calls s) |}.
Definition set_stop (k : nat) (c : stop_pc) (s : reconciler) : reconciler := {| s with rc_stops := <[k := c]> (rc_stops s) |}.

Definition Reconcile (k : nat) (desired : list DesiredTunnel) (s : reconciler) : option reconciler :=
  match rc_calls s !! k with
  | Some _ => None
  | None => Some (set_call k match check_desired ∅ desired with
                             | Ok l => CSend l
                             | Err e => CReturned (Some e)
                             end s)
  end.

Inductive wake := WDone | WContext | WStopped.

(** The two selects of [Reconcile], without the send. *)
Definition Reconcile_leave (k : nat) (w : wake) (s : reconciler) : option reconciler :=
  let ret r := Some (set_call k (CReturned r) s) in
  match rc_calls s !! k, w with
  | Some (CWait (Some errs)), WDone => ret (match errs with [] => None | _ => Some (Failed errs) end)
  | Some (CSend _), WContext | Some (CWait _), WContext => if rc_cancelled s then ret (Some Cancelled) else None
  | Some (CSend _), WStopped | Some (CWait _), WStopped => if rc_stopped s then ret (Some NetClosed) else None
  | _, _ => None
  end.

Definition Stop (k : nat) (s : reconciler) : option reconciler :=
  match rc_stops s !! k with Some _ => None | None => Some (set_stop k SSend s) end.

Definition Stop_leave (k : nat) (w : wake) (s : reconciler) : option reconciler :=
  match rc_stops s !! k, w with
  | Some (SWait true), WDone => Some (set_stop k SReturned s)
  | Some SSend, WStopped | Some (SWait _), WStopped => if rc_stopped s then Some (set_stop k SReturned s) else None
  | _, _ => None
  end.

(** [run]: a request is received. *)
Definition run_receive (k : nat) (s : reconciler) : option reconciler :=
  match rc_loop s, rc_calls s !! k with
  | LIdle, Some (CSend d) => Some (set_call k (CWait None) {| s with rc_loop := LBusy k d |})
  | _, _ => None
  end.

(** A stop request is acknowledged before the deferred function runs. *)
Definition run_receive_stop (k : nat) (s : reconciler) : option reconciler :=
  match rc_loop s, rc_stops s !! k with
  | LIdle, Some SSend => Some (set_stop k (SWait true) {| s with rc_loop := LDeferred |})
  | _, _ => None
  end.

Definition run_cancelled (s : reconciler) : option reconciler :=
  match rc_loop s with
  | LIdle => if rc_cancelled s then Some {| s with rc_loop := LDeferred |} else None
  | _ => None
  end.

(** The round of the request, whose result goes to the buffered [done]. *)
Definition run_reconcile (env : answers) (o1 o2 : list string) (s : reconciler) : option reconciler :=
  match rc_loop s with
  | LBusy k desired =>
      let r := reconcile env (rc_store s) o1 o2 (rc_active s) desired in
      let s := {| s with rc_loop := LIdle; rc_active := rd_active r; rc_log := rc_log s ++ rd_log r |} in
      Some (match rc_calls s !! k with
            | Some (CWait _) => set_call k (CWait (Some (rd_errs r))) s
            | _ => s
            end)
  | _ => None
  end.

(** [stop]: one tunnel after the other; an error is only logged. *)
Definition stop_one (env : answers) (s : gmap string activeTunnel * list event) (name : string) :=
  match fst s !! name with
  | Some current => (delete name (fst s), snd s ++ [EStop name (ac_handle current) (stop_ok env name)])
  | None => s
  end.

Definition stop_all (env : answers) (o : list string) (active : gmap string activeTunnel) := foldl (stop_one env) (active, []) o.

(** The deferred function of [run]. *)
Definition run_deferred (env : answers) (o : list string) (s : reconciler) : option reconciler :=
  match rc_loop s with
  | LDeferred =>
      let '(active, log) := stop_all env o (rc_active s) in
      Some {| s with rc_loop := LExited; rc_active := active; rc_log := rc_log s ++ log; rc_stopped := true |}
  | _ => None
  end.

Inductive action :=
| DoReconcile (k : nat) (desired : list DesiredTunnel)
| DoLeave (k : nat) (w : wake)
| DoStop (k : nat)
| DoStopLeave (k : nat) (w : wake)
| DoReceive (k : nat)
| DoReceiveStop (k : nat)
| DoCancelled
| DoRound (env : answers) (o1 o2 : list string)
| DoDeferred (env : answers) (o : list string)
| DoCancel                                      (* the context ends *)
| DoMutate (l : nat) (c : Cors).                (* someone writes through a CORS pointer *)

Definition step (a : action) (s : reconciler) : option reconciler :=
  match a with
  | DoReconcile k d => Reconcile k d s
  | DoLeave k w => Reconcile_leave k w s
  | DoStop k => Stop k s
  | DoStopLeave k w => Stop_leave k w s
  | DoReceive k => run_receive k s
  | DoReceiveStop k => run_receive_stop k s
  | DoCancelled => run_cancelled s
  | DoRound env o1 o2 => run_reconcile env o1 o2 s
  | DoDeferred env o => run_deferred env o s
  | DoCancel => Some {| s with rc_cancelled := true |}
  | DoMutate l c => Some {| s with rc_store := <[l := c]> (rc_store s) |}
  end.

Definition wanted_of (s : reconciler) : gmap string DesiredTunnel :=
  match rc_loop s with LBusy _ d => desired_map d | _ => ∅ end.

(** The orders are orders of the maps. *)
Definition admissible (a : action) (s : reconciler) : Prop :=
  match a with
  | DoRound env o1 o2 => ranges o1 (rc_active s) /\ ranges o2 (wanted_of s)
  | DoDeferred env o => ranges o (rc_active s)
  | _ => True
  end.

Definition moves (s s' : reconciler) : Prop := exists a, admissible a s /\ step a s = Some s'.
Definition reachable (s : reconciler) : Prop := exists st, rtc moves (New st) s.

(** ** A round against the reference *)

Lemma ranges_NoDup {A} o (m : gmap string A) : ranges o m -> NoDup o.
Proof. intros Hr. unfold ranges in Hr. rewrite Hr. apply NoDup_fst_map_to_list. Qed.

Lemma ranges_elem {A} o (m : gmap string A) n : ranges o m -> n ∈ o <-> is_Some (m !! n).
Proof.
  intros Hr. unfold ranges in Hr. rewrite Hr, list_elem_of_fmap. split.
  - intros ([k x] & -> & Hx%elem_of_map_to_list). by exists x.
  - intros [x Hx]. exists (n, x). split; [done|]. by apply elem_of_map_to_list.
Qed.

(** A loop whose bodies each touch one name. *)
Lemma fold_local (f : round -> string -> round) (g : string -> option activeTunnel * list event * list recon_error ->
                                                   option activeTunnel * list event * list recon_error) :
  (forall s n, view (f s n) n = g n (view s n)) -> (forall s n m, m <> n -> view (f s n) m = view s m) ->
  forall o s n, NoDup o -> view (foldl f s o) n = if bool_decide (n ∈ o) then g n (view s n) else view s n.
Proof.
  intros Hat Hother. induction o as [|m o IH]; intros s n Hnd; cbn [foldl].
  - by rewrite bool_decide_eq_false_2 by by intros ?%elem_of_nil.
  - apply NoDup_cons in Hnd as [Hm Hnd]. rewrite IH by done. destruct (decide (n = m)) as [->|Hne].
    + rewrite (bool_decide_eq_false_2 (m ∈ o)) by done.
      rewrite (bool_decide_eq_true_2 (m ∈ m :: o)) by (apply elem_of_cons; by left). apply Hat.
    + rewrite Hother by done. destruct (bool_decide_reflect (n ∈ o)) as [Hin|Hin].
      * rewrite (bool_decide_eq_true_2 (n ∈ m :: o)); [done|]. apply elem_of_cons. by right.
      * rewrite (bool_decide_eq_false_2 (n ∈ m :: o)); [done|]. intros [?|?]%elem_of_cons; done.
Qed.

Lemma view_fail e s n : view (fail_round e s) n =
  let '(a, l, es) := view s n in (a, l, if bool_decide (err_name e = n) then es ++ [e] else es).
Proof.
  unfold view, fail_round. cbn. rewrite filter_app. destruct (bool_decide_reflect (err_name e = n)).
  - by rewrite filter_cons_True.
  - by rewrite filter_cons_False, app_nil_r.
Qed.

Lemma view_log e s n : view (log_round e s) n =
  let '(a, l, es) := view s n in (a, if bool_decide (ev_name e = n) then l ++ [e] else l, es).
Proof.
  unfold view, log_round. cbn. rewrite filter_app. destruct (bool_decide_reflect (ev_name e = n)).
  - by rewrite filter_cons_True.
  - by rewrite filter_cons_False, app_nil_r.
Qed.

Definition start_view (env : answers) (name : string) (d : DesiredTunnel)
    (v : option activeTunnel * list event * list recon_error) : option activeTunnel * list event * list recon_error :=
  let '(a, l, es) := v in
  match start_ans env name with
  | StartFailed => (a, l, es ++ [EStartFailed name])
  | StartNil => (a, l, es ++ [ENilHandle name])
  | Started h => (Some (MkActive d h), l ++ [EStart name h], es)
  end.

Lemma view_start env n d s : view (start_one env n d s) n = start_view env n d (view s n).
Proof.
  unfold start_one, start_view. destruct (start_ans env n) as [| |h].
  - rewrite view_fail. unfold view. cbn. by rewrite bool_decide_eq_true_2.
  - rewrite view_fail. unfold view. cbn. by rewrite bool_decide_eq_true_2.
  - unfold view. cbn. by rewrite lookup_insert_eq, filter_app, filter_cons_True.
Qed.

Lemma view_start_other env n m d s : m <> n -> view (start_one env n d s) m = view s m.
Proof.
  intros Hne. unfold start_one. destruct (start_ans env n) as [| |h].
  - rewrite view_fail. cbn. by rewrite bool_decide_eq_false_2.
  - rewrite view_fail. cbn. by rewrite bool_decide_eq_false_2.
  - unfold view. cbn. rewrite lookup_insert_ne by done. by rewrite filter_app, filter_cons_False, app_nil_r.
Qed.

(** What the two loop bodies make of the tunnel they look at. *)
Definition remove_view (env : answers) (wanted : gmap string DesiredTunnel) (n : string)
    (v : option activeTunnel * list event * list recon_error) : option activeTunnel * list event * list recon_error :=
  let '(a, l, es) := v in
  match a, wanted !! n with
  | Some c, None =>
      if stop_ok env n then (None, l ++ [EStop n (ac_handle c) true], es)
      else (Some c, l ++ [EStop n (ac_handle c) false], es ++ [EStopRemoved n])
  | _, _ => v
  end.

Definition apply_view (env : answers) (st : store) (wanted : gmap string DesiredTunnel) (n : string)
    (v : option activeTunnel * list event * list recon_error) : option activeTunnel * list event * list recon_error :=
  let '(a, l, es) := v in
  match wanted !! n with
  | None => v
  | Some d =>
      match a with
      | None => start_view env n d v
      | Some c =>
          if EqualDesired st (ac_desired c) d then v
          else if stop_ok env n then start_view env n d (None, l ++ [EStop n (ac_handle c) true], es)
          else (Some c, l ++ [EStop n (ac_handle c) false], es ++ [EStopUpdated n])
      end
  end.

Lemma remove_one_at env wanted s n : view (remove_one env wanted s n) n = remove_view env wanted n (view s n).
Proof.
  unfold remove_one, remove_view, view at 2. destruct (rd_active s !! n) as [c|] eqn:Ha; [|by unfold view; rewrite Ha].
  destruct (wanted !! n); [by unfold view; rewrite Ha|]. destruct (stop_ok env n).
  - unfold view. cbn. by rewrite lookup_delete_eq, filter_app, filter_cons_True.
  - rewrite view_fail, view_log. unfold view. cbn. by rewrite !bool_decide_eq_true_2, Ha by done.
Qed.

Lemma remove_one_other env wanted s n m : m <> n -> view (remove_one env wanted s n) m = view s m.
Proof.
  intros Hne. unfold remove_one. destruct (rd_active s !! n) as [c|]; [|done]. destruct (wanted !! n); [done|].
  destruct (stop_ok env n).
  - unfold view. cbn. by rewrite lookup_delete_ne, filter_app, filter_cons_False, app_nil_r.
  - rewrite view_fail, view_log. unfold view. cbn. by rewrite !bool_decide_eq_false_2.
Qed.

Lemma apply_one_at env st wanted s n : view (apply_one env st wanted s n) n = apply_view env st wanted n (view s n).
Proof.
  unfold apply_one, apply_view, view at 2. destruct (wanted !! n) as [d|]; [|done].
  destruct (rd_active s !! n) as [c|] eqn:Ha; [|by rewrite view_start; unfold view; rewrite Ha].
  destruct (EqualDesired st (ac_desired c) d); [by unfold view; rewrite Ha|]. destruct (stop_ok env n).
  - rewrite view_start. unfold view. cbn. by rewrite lookup_delete_eq, filter_app, filter_cons_True.
  - rewrite view_fail, view_log. unfold view. cbn. by rewrite !bool_decide_eq_true_2, Ha by done.
Qed.

Lemma apply_one_other env st wanted s n m : m <> n -> view (apply_one env st wanted s n) m = view s m.
Proof.
  intros Hne. unfold apply_one. destruct (wanted !! n) as [d|]; [|done].
  destruct (rd_active s !! n) as [c|]; [|by apply view_start_other].
  destruct (EqualDesired st (ac_desired c) d); [done|]. destruct (stop_ok env n).
  - rewrite view_start_other by done. unfold view. cbn. by rewrite lookup_delete_ne, filter_app, filter_cons_False, app_nil_r.
  - rewrite view_fail, view_log. unfold view. cbn. by rewrite !bool_decide_eq_false_2.
Qed.

(** The two loops together are the reference, for every tunnel. *)
Lemma reconcile_view env st o1 o2 active desired n :
  ranges o1 active -> ranges o2 (desired_map desired) ->
  view (reconcile env st o1 o2 active desired) n = reconcile_ref env st n (active !! n) (desired_map desired !! n).
Proof.
  intros H1 H2. unfold reconcile. set (wanted := desired_map desired) in *.
  rewrite (fold_local _ (apply_view env st wanted)); [|intros; apply apply_one_at|intros; by apply apply_one_other|by eapply ranges_NoDup].
  rewrite (fold_local _ (remove_view env wanted)); [|intros; apply remove_one_at|intros; by apply remove_one_other|by eapply ranges_NoDup].
  unfold view at 1 2 3 4. cbn [rd_active rd_log rd_errs]. rewrite !filter_nil.
  pose proof (ranges_elem o1 active n H1) as E1. pose proof (ranges_elem o2 wanted n H2) as E2.
  unfold reconcile_ref, apply_view, remove_view, start_view, start_ref.
  destruct (active !! n) as [c|] eqn:Ha, (wanted !! n) as [d|] eqn:Hw.
  - rewrite !bool_decide_eq_true_2 by naive_solver. destruct (EqualDesired _ _ _); [done|]. destruct (stop_ok env n); [|done].
    by destruct (start_ans env n).
  - rewrite (bool_decide_eq_true_2 (n ∈ o1)) by naive_solver. rewrite (bool_decide_eq_false_2 (n ∈ o2)) by (intros [? [=]]%E2).
    by destruct (stop_ok env n).
  - rewrite (bool_decide_eq_false_2 (n ∈ o1)) by (intros [? [=]]%E1). rewrite (bool_decide_eq_true_2 (n ∈ o2)) by naive_solver.
    by destruct (start_ans env n).
  - rewrite (bool_decide_eq_false_2 (n ∈ o1)) by (intros [? [=]]%E1). rewrite (bool_decide_eq_false_2 (n ∈ o2)) by (intros [? [=]]%E2).
    done.
Qed.

(** ** The life of a tunnel *)

(** The handles of a name that run after a sequence of events. *)
Definition apply_event (n : string) (run : list nat) (e : event) : list nat :=
  match e with
  | EStart m h => if bool_decide (m = n) then run ++ [h] else run
  | EStop m h true => if bool_decide (m = n) then filter (fun x => x <> h) run else run
  | EStop _ _ false => run
  end.

Definition running (n : string) (log : list event) : list nat := foldl (apply_event n) [] log.

Lemma apply_event_other n run e : ev_name e <> n -> apply_event n run e = run.
Proof. intros Hne. destruct e as [m h|m h []]; cbn [ev_name apply_event] in *; [by rewrite bool_decide_eq_false_2..|done]. Qed.

Lemma running_filter n log run :
  foldl (apply_event n) run log = foldl (apply_event n) run (filter (fun e => ev_name e = n) log).
Proof.
  revert run. induction log as [|e log IH]; intros run; [done|]. cbn [foldl].
  destruct (decide (ev_name e = n)) as [He|He].
  - rewrite filter_cons_True by done. cbn [foldl]. apply IH.
  - rewrite filter_cons_False by done. rewrite apply_event_other by done. apply IH.
Qed.

Lemma running_app n a b : running n (a ++ b) = foldl (apply_event n) (running n a) (filter (fun e => ev_name e = n) b).
Proof. unfold running. rewrite foldl_app. apply running_filter. Qed.

Definition handle_of (a : option activeTunnel) : list nat := match a with Some t => [ac_handle t] | None => [] end.

Lemma filter_self (h : nat) : filter (fun x => x <> h) [h] = [].
Proof. by rewrite filter_cons_False by tauto. Qed.

Lemma apply_start n h : apply_event n [] (EStart n h) = [h].
Proof. unfold apply_event. by rewrite bool_decide_eq_true_2. Qed.

Lemma apply_stop n h : apply_event n [h] (EStop n h true) = [].
Proof. unfold apply_event. rewrite bool_decide_eq_true_2 by done. apply filter_self. Qed.

(** A round keeps what runs and what is recorded together. *)
Lemma ref_running env st n cur want a l es :
  reconcile_ref env st n cur want = (a, l, es) -> foldl (apply_event n) (handle_of cur) l = handle_of a.
Proof.
  unfold reconcile_ref, start_ref, handle_of.
  destruct cur as [c|], want as [d|]; repeat case_match; intros; simplify_eq;
    cbn [foldl ac_handle]; rewrite ?apply_stop, ?apply_start; done.
Qed.

Lemma ref_told env st n cur want a l es :
  reconcile_ref env st n cur want = (a, l, es) ->
  (forall m h, EStart m h ∈ l -> m = n /\ handle_of a = [h]) /\
  (forall c, cur = Some c -> (exists ok, EStop n (ac_handle c) ok ∈ l) \/ a = Some c).
Proof.
  unfold reconcile_ref, start_ref, handle_of.
  destruct cur as [c|], want as [d|]; cbn; repeat case_match; intros; simplify_eq; (split; [|set_solver]);
    intros m' h' Hin; rewrite ?elem_of_cons, ?elem_of_nil in Hin; naive_solver.
Qed.

(** ** The invariant *)

Record inv (s : reconciler) : Prop := {
  v_running : rc_loop s <> LExited -> forall n, running n (rc_log s) = handle_of (rc_active s !! n);
  v_told : forall n h, EStart n h ∈ rc_log s -> (exists ok, EStop n h ok ∈ rc_log s) \/ handle_of (rc_active s !! n) = [h];
  v_single : forall n, (length (running n (rc_log s)) <= 1)%nat;
  v_exited : rc_loop s = LExited -> rc_active s = ∅;
  v_stopped : rc_stopped s = true -> rc_loop s = LExited;
}.

Lemma inv_same s s' :
  inv s -> rc_log s' = rc_log s -> rc_active s' = rc_active s -> rc_stopped s' = rc_stopped s ->
  (rc_loop s' = LExited <-> rc_loop s = LExited) -> inv s'.
Proof. intros [] E1 E2 E3 E4. split; rewrite ?E1, ?E2, ?E3; try tauto. Qed.

Lemma handle_of_single a : (length (handle_of a) <= 1)%nat.
Proof. destruct a; cbn; lia. Qed.

Lemma recon_round_ok s env o1 o2 s' :
  inv s -> admissible (DoRound env o1 o2) s -> run_reconcile env o1 o2 s = Some s' -> inv s'.
Proof.
  intros [Hrun Htold Hone Hex Hst] [H1 H2] H. unfold run_reconcile in H. destruct (rc_loop s) as [|k desired| |] eqn:Hl; try done.
  unfold wanted_of in H2. rewrite Hl in H2. set (r := reconcile env (rc_store s) o1 o2 (rc_active s) desired) in *.
  assert (Hview : forall n, exists a l es, reconcile_ref env (rc_store s) n (rc_active s !! n) (desired_map desired !! n) = (a, l, es)
    /\ rd_active r !! n = a /\ filter (fun e => ev_name e = n) (rd_log r) = l).
  { intros n. pose proof (reconcile_view env (rc_store s) o1 o2 (rc_active s) desired n H1 H2) as E. fold r in E.
    unfold view in E. by eexists _, _, _. }
  clearbody r.
  assert (Hinv : inv {| s with rc_loop := LIdle; rc_active := rd_active r; rc_log := rc_log s ++ rd_log r |}).
  { split; cbn [rc_loop rc_active rc_log rc_stopped]; try done.
    - intros _ n. destruct (Hview n) as (a & l & es & E & -> & El). rewrite running_app, El, Hrun by done.
      by eapply ref_running.
    - intros n h. rewrite elem_of_app. destruct (Hview n) as (a & l & es & E & -> & El).
      destruct (ref_told _ _ _ _ _ _ _ _ E) as [Hs Hc]. intros [Hin|Hin].
      + destruct (Htold n h Hin) as [[ok Hok]|Hact]; [left; exists ok; apply elem_of_app; by left|].
        destruct (rc_active s !! n) as [c|] eqn:Ec; [|done]. injection Hact as <-.
        destruct (Hc c eq_refl) as [[ok Hok]| ->]; [|by right]. left. exists ok. apply elem_of_app. right.
        rewrite <- El in Hok. by apply list_elem_of_filter in Hok as [_ ?].
      + right. apply (Hs n h). rewrite <- El. by apply list_elem_of_filter.
    - intros n. destruct (Hview n) as (a & l & es & E & _ & El). rewrite running_app, El, Hrun by done.
      rewrite (ref_running _ _ _ _ _ _ _ _ E). apply handle_of_single.
    - intros Hs. pose proof (Hst Hs). congruence. }
  injection H as <-. cbn. destruct (rc_calls s !! k) as [[]|]; try exact Hinv. by eapply inv_same.
Qed.

(** The final [stop] tells every active tunnel, in any order. *)
Lemma stop_all_spec env o active : ranges o active ->
  fst (stop_all env o active) = ∅ /\
  forall n, filter (fun e => ev_name e = n) (snd (stop_all env o active)) =
            match active !! n with Some t => [EStop n (ac_handle t) (stop_ok env n)] | None => [] end.
Proof.
  intros Hr. assert (Hgen : forall l act log, NoDup l ->
    let r := foldl (stop_one env) (act, log) l in
    (forall n, fst r !! n = if bool_decide (n ∈ l) then None else act !! n) /\
    (forall n, filter (fun e => ev_name e = n) (snd r) = filter (fun e => ev_name e = n) log ++
       match act !! n with
       | Some t => if bool_decide (n ∈ l) then [EStop n (ac_handle t) (stop_ok env n)] else []
       | None => []
       end)).
  { induction l as [|m l IH]; intros act log Hnd; cbn zeta; cbn [foldl].
    { split; intros n; rewrite bool_decide_eq_false_2 by (by intros ?%elem_of_nil); [done|].
      destruct (act !! n); by rewrite app_nil_r. }
    apply NoDup_cons in Hnd as [Hm Hnd]. unfold stop_one at 2 4. cbn [fst snd].
    destruct (act !! m) as [t|] eqn:Hm'.
    - destruct (IH (delete m act) (log ++ [EStop m (ac_handle t) (stop_ok env m)]) Hnd) as [H1 H2]. split; intros n.
      + rewrite H1. destruct (decide (n = m)) as [->|Hne].
        * rewrite lookup_delete_eq, (bool_decide_eq_true_2 (m ∈ m :: l)) by (apply elem_of_cons; by left). by case_match.
        * rewrite lookup_delete_ne by done. by rewrite (bool_decide_ext (n ∈ m :: l) (n ∈ l)) by (rewrite elem_of_cons; tauto).
      + rewrite H2, filter_app. destruct (decide (n = m)) as [->|Hne].
        * rewrite lookup_delete_eq, Hm', filter_cons_True, app_nil_r by done.
          by rewrite (bool_decide_eq_true_2 (m ∈ m :: l)) by (apply elem_of_cons; by left).
        * rewrite lookup_delete_ne, filter_cons_False, app_nil_r by done.
          by rewrite (bool_decide_ext (n ∈ m :: l) (n ∈ l)) by (rewrite elem_of_cons; tauto).
    - destruct (IH act log Hnd) as [H1 H2]. split; intros n; rewrite ?H1, ?H2; (destruct (decide (n = m)) as [->|Hne];
        [rewrite ?Hm'; by repeat case_match|by rewrite (bool_decide_ext (n ∈ m :: l) (n ∈ l)) by (rewrite elem_of_cons; tauto)]). }
  destruct (Hgen o active [] (ranges_NoDup o active Hr)) as [H1 H2]. split.
  - apply map_eq. intros n. rewrite H1, lookup_empty. case_bool_decide as Hn; [done|].
    apply eq_None_not_Some. intros ?. apply Hn. by apply (ranges_elem o active n Hr).
  - intros n. rewrite H2. cbn [filter app]. destruct (active !! n) eqn:Ha; [|done].
    rewrite bool_decide_eq_true_2; [done|]. apply (ranges_elem o active n Hr). by rewrite Ha.
Qed.

Lemma deferred_ok s env o s' : inv s -> ranges o (rc_active s) -> run_deferred env o s = Some s' -> inv s'.
Proof.
  intros [Hrun Htold Hone Hex Hst] Hr H. unfold run_deferred in H. destruct (rc_loop s) eqn:Hl; try done.
  destruct (stop_all_spec env o (rc_active s) Hr) as [Ha Hlog]. destruct (stop_all env o (rc_active s)) as [act log].
  cbn [fst snd] in Ha, Hlog. injection H as <-. split; cbn [rc_loop rc_active rc_log rc_stopped]; try done.
  - intros n h. rewrite elem_of_app. intros [Hin|Hin].
    + left. destruct (Htold n h Hin) as [[ok ?]|Hact]; [exists ok; apply elem_of_app; by left|].
      destruct (rc_active s !! n) as [t|] eqn:Et; [|done]. injection Hact as <-. exists (stop_ok env n). apply elem_of_app. right.
      assert (Hf : EStop n (ac_handle t) (stop_ok env n) ∈ filter (fun e => ev_name e = n) log).
      { rewrite Hlog, Et. apply elem_of_cons. by left. }
      by apply list_elem_of_filter in Hf as [_ ?].
    + exfalso. assert (Hf : EStart n h ∈ filter (fun e => ev_name e = n) log) by by apply list_elem_of_filter.
      rewrite Hlog in Hf. destruct (rc_active s !! n); [|by apply elem_of_nil in Hf]. by apply list_elem_of_singleton in Hf.
  - intros n. rewrite running_app, Hrun, Hlog by done. destruct (rc_active s !! n) as [t|]; cbn [handle_of foldl length]; [|lia].
    destruct (stop_ok env n); [rewrite apply_stop; cbn; lia|cbn; lia].
Qed.

Lemma recon_moves_ok s s' : moves s s' -> inv s -> inv s'.
Proof.
  intros [a [Had H]] Hi. destruct a; cbn in H.
  - unfold Reconcile in H. case_match; [done|]. injection H as <-. by eapply inv_same.
  - unfold Reconcile_leave in H. repeat case_match; try done; injection H as <-; by eapply inv_same.
  - unfold Stop in H. case_match; [done|]. injection H as <-. by eapply inv_same.
  - unfold Stop_leave in H. repeat case_match; try done; injection H as <-; by eapply inv_same.
  - unfold run_receive in H. destruct (rc_loop s) eqn:Hl; try done. repeat case_match; try done. injection H as <-.
    eapply inv_same; [exact Hi|done..|]. cbn. by rewrite Hl.
  - unfold run_receive_stop in H. destruct (rc_loop s) eqn:Hl; try done. repeat case_match; try done. injection H as <-.
    eapply inv_same; [exact Hi|done..|]. cbn. by rewrite Hl.
  - unfold run_cancelled in H. destruct (rc_loop s) eqn:Hl; try done. case_match; [|done]. injection H as <-.
    eapply inv_same; [exact Hi|done..|]. cbn. by rewrite Hl.
  - by eapply recon_round_ok.
  - by eapply deferred_ok.
  - injection H as <-. by eapply inv_same.
  - injection H as <-. by eapply inv_same.
Qed.

Lemma New_ok st : inv (New st).
Proof. split; cbn; try done; [by intros ? ? ?%elem_of_nil|lia]. Qed.

Lemma recon_reachable_ok s : reachable s -> inv s.
Proof. intros [st Hs]. eapply (rtc_invariant moves inv); [exact recon_moves_ok|exact Hs|apply New_ok]. Qed.

(** ** Convergence *)

Lemma EqualDesired_refl st d : EqualDesired st d d = true.
Proof. by apply bool_decide_eq_true_2. Qed.

(** A tunnel is as wanted. *)
Definition settled (st : store) (current : option activeTunnel) (wanted : option DesiredTunnel) : Prop :=
  match current, wanted with
  | Some c, Some d => EqualDesired st (ac_desired c) d = true
  | None, None => True
  | _, _ => False
  end.

Lemma ref_settled env st n cur want a l :
  reconcile_ref env st n cur want = (a, l, []) -> settled st a want.
Proof.
  unfold reconcile_ref, start_ref, settled.
  destruct cur as [c|], want as [d|]; repeat case_match; intros; simplify_eq; try done; apply EqualDesired_refl.
Qed.

Lemma settled_quiet env st n cur want : settled st cur want -> reconcile_ref env st n cur want = (cur, [], []).
Proof. unfold settled, reconcile_ref. destruct cur, want; try done. by intros ->. Qed.

Lemma filter_none {A} (P : A -> string) (l : list A) : (forall n, filter (fun e => P e = n) l = []) -> l = [].
Proof. intros H. destruct l as [|e l]; [done|]. specialize (H (P e)). by rewrite filter_cons_True in H. Qed.

(** ** Properties *)

(** A round is the same as handling the tunnels one at a time.  Whatever the
    order in which the two maps are ranged, what [reconcile] does to each tunnel (the
    entry it leaves, the handles it stops and starts in order, the errors it
    reports) is what the reference does from the tunnel's own entry and wish.  A
    round without errors leaves exactly the desired tunnels, each as desired, and a
    round after it does nothing. *)
Theorem reconcile_per_tunnel env st o1 o2 active desired
    (H1 : ranges o1 active) (H2 : ranges o2 (desired_map desired)) :
  let r := reconcile env st o1 o2 active desired in
  (forall n, view r n = reconcile_ref env st n (active !! n) (desired_map desired !! n)) /\
  (rd_errs r = [] ->
     (forall n, settled st (rd_active r !! n) (desired_map desired !! n)) /\
     forall env' o1', ranges o1' (rd_active r) ->
       let r' := reconcile env' st o1' o2 (rd_active r) desired in
       rd_active r' = rd_active r /\ rd_log r' = [] /\ rd_errs r' = []).
Proof.
  intros r. pose proof (fun n => reconcile_view env st o1 o2 active desired n H1 H2) as Hv. fold r in Hv.
  split; [exact Hv|]. intros He.
  assert (Hs : forall n, settled st (rd_active r !! n) (desired_map desired !! n)).
  { intros n. specialize (Hv n). unfold view in Hv. rewrite He in Hv. symmetry in Hv. by eapply ref_settled. }
  split; [exact Hs|]. intros env' o1' H1' r'.
  pose proof (fun n => reconcile_view env' st o1' o2 (rd_active r) desired n H1' H2) as Hv'. fold r' in Hv'.
  assert (Hq : forall n, view r' n = (rd_active r !! n, [], [])).
  { intros n. rewrite Hv'. by apply settled_quiet. }
  unfold view in Hq. split_and!.
  - apply map_eq. intros n. specialize (Hq n). congruence.
  - apply (filter_none ev_name). intros n. specialize (Hq n). congruence.
  - apply (filter_none err_name). intros n. specialize (Hq n). congruence.
Qed.

(** C38: No tunnel runs twice and none is forgotten.  In every interleaving of
    [Reconcile] and [Stop] calls with the goroutine, whatever the starter and the
    handles answer: at most one handle of a name runs, a new one being started only
    after the old one was stopped; while the goroutine lives the running handles are
    exactly the recorded ones; and when [stopped] is closed nothing is recorded and
    every handle that was ever started was told to stop. *)
Theorem reconciler_lifecycle (s : reconciler) (Hs : reachable s) :
  (forall n, (length (running n (rc_log s)) <= 1)%nat) /\
  (rc_loop s <> LExited -> forall n, running n (rc_log s) = handle_of (rc_active s !! n)) /\
  (rc_stopped s = true -> rc_active s = ∅ /\
     forall n h, EStart n h ∈ rc_log s -> exists ok, EStop n h ok ∈ rc_log s).
Proof.
  destruct (recon_reachable_ok s Hs) as [Hrun Htold Hone Hex Hst]. split_and!; [done|done|].
  intros E. pose proof (Hex (Hst E)) as Ha. split; [done|]. intros n h Hin. destruct (Htold n h Hin) as [?|H]; [done|].
  by rewrite Ha, lookup_empty in H.
Qed.
End Reconciler.

(** ** Runs *)

Section Runs.
Context {Time Cors Tls Dialer : Type} `{EqDecision Time} `{EqDecision Cors}.

Fixpoint run (l : list (@action Time Cors Tls Dialer)) (s : reconciler) : reconciler :=
  match l with
  | [] => s
  | a :: l => match step a s with Some s' => run l s' | None => s end
  end.

Fixpoint run_admissible (l : list (@action Time Cors Tls Dialer)) (s : reconciler) : Prop :=
  match l with
  | [] => True
  | a :: l => admissible a s /\ match step a s with Some s' => run_admissible l s' | None => True end
  end.

Lemma recon_run_moves l s : run_admissible l s -> rtc moves s (run l s).
Proof.
  revert s. induction l as [|a l IH]; intros s; [done|]. cbn. intros [Ha Hl]. destruct (step a s) as [s'|] eqn:E; [|done].
  eapply rtc_l; [by exists a|by apply IH].
Qed.
End Runs.

(** A tunnel with a CORS configuration at location 0. *)
Definition sample_context : @ResolvedContext unit unit := MkContext "" "engine:443" "" "token" None None None "".

Definition sample_desired : @DesiredTunnel Z unit unit :=
  MkDesired "web" (MkForward "localhost" "8080") sample_context
    (MkRunProps None None None None None None None None None None None None None None None None None None (Some 0%nat)
       None None None None None None None) "file".

Definition agree (h : nat) : answers := MkAnswers (fun _ => true) (fun _ => Started h).

Definition reconcile_round (k h : nat) (active : list string) : list (@action Z bool unit unit) :=
  [DoReconcile k [sample_desired]; DoReceive k; DoRound (agree h) active ["web"]; DoLeave k WDone].

Definition sample_new : @reconciler Z bool unit unit := New {[0%nat := false]}.

Definition sample_started := run (reconcile_round 1 7 []) sample_new.
Definition sample_stop := run [DoStop 2; DoReceiveStop 2; DoStopLeave 2 WDone] sample_started.
Definition sample_exited := run [DoDeferred (agree 0) ["web"]] sample_stop.

Lemma sample_started_run : rtc moves sample_new sample_started.
Proof. apply recon_run_moves. vm_compute. repeat split; reflexivity. Qed.

Lemma sample_stop_run : rtc moves sample_started sample_stop.
Proof. apply recon_run_moves. vm_compute. repeat split; reflexivity. Qed.

Lemma sample_exited_run : rtc moves sample_stop sample_exited.
Proof. apply recon_run_moves. vm_compute. repeat split; reflexivity. Qed.

Lemma reconcile_per_tunnel_witness :
  view (reconcile (agree 7) (rc_store sample_new) [] ["web"] ∅ [CloneDesired sample_desired]) "web" =
    (Some (MkActive (CloneDesired sample_desired) 7), [EStart "web" 7], []).
Proof.
  destruct (reconcile_per_tunnel (agree 7) (rc_store sample_new) [] ["web"] ∅ [CloneDesired sample_desired]) as [H _].
  - vm_compute. reflexivity.
  - vm_compute. reflexivity.
  - rewrite (H "web"). vm_compute. reflexivity.
Defined.

Lemma reconciler_lifecycle_witness :
  running "web" (rc_log sample_started) = [7%nat] /\ exists ok, EStop "web" 7 ok ∈ rc_log sample_exited.
Proof.
  split; [vm_compute; reflexivity|].
  destruct (reconciler_lifecycle sample_exited) as (_ & _ & H).
  - exists {[0%nat := false]}. etrans; [exact sample_started_run|]. etrans; [exact sample_stop_run|exact sample_exited_run].
  - destruct H as [_ H]; [vm_compute; reflexivity|]. apply H. vm_compute. left.
Defined.

(** ** Two defects of the code *)

(** [Stop] can return while a tunnel still runs: the goroutine answers the request
    and only then runs the deferred function that stops the tunnels. *)
Theorem stop_returns_early :
  reachable sample_stop /\ rc_stops sample_stop !! 2%nat = Some SReturned /\ running "web" (rc_log sample_stop) = [7%nat].
Proof.
  split; [|split; vm_compute; reflexivity]. exists {[0%nat := false]}. etrans; [exact sample_started_run|exact sample_stop_run].
Qed.

(** A change of the CORS configuration through the caller's pointer is missed: the
    record of the active tunnel shares it, so that the next round sees no change. *)
Definition sample_changed := run (DoMutate 0 true :: reconcile_round 3 8 ["web"]) sample_started.

Lemma cors_change_missed :
  reachable sample_changed /\ rc_calls sample_changed !! 3%nat = Some (CReturned None) /\
  rc_store sample_changed <> rc_store sample_started /\ rc_log sample_changed = rc_log sample_started.
Proof.
  split; [|split_and!; vm_compute; [reflexivity|discriminate|reflexivity]]. exists {[0%nat := false]}.
  etrans; [exact sample_started_run|]. apply recon_run_moves. vm_compute. repeat split; reflexivity.
Qed.
