(* ===== verification/TunnelConfig.v ===== *)
(** * TunnelConfig: validation of tunnel options
    ([cmd/rstream/internal/tunnelconfig/parse.go], [resolve.go])

    [Resolve] is the one place where the options of a tunnel, whatever their source (a
    flag, a YAML file, Docker labels), are normalised and checked against each other.
    The properties are the record of [Reconciler], with the CORS configuration itself
    where the Go code has a pointer it has just allocated. *)

From S2P Require Import Prelude GoStrings GoURL Cors TunnelProps Reconciler.

Inductive option_error :=
| BadTunnelType (val : string) | BadProtocol (val : string) | BadHTTPVersion (val : string) | BadTLSMode (val : string) | BadTLSMinVersion (val : string)
| BothForms | HostEmpty | HTTPSettingsRequireHTTP | CORSRequiresPublishedHTTP | BadCORS (e : cors_error)
| PortRequiresTCP_ | TCPNeedsBytestream | PortOutOfRange | TCPNeedsPublished | TCPWithoutHost | TCPWithoutOptions
| DeliveryNeedsDatagram | PublishedDatagramProtocol.

(** [strings.ToLower(strings.TrimSpace(val))], compared with ASCII constants. *)
Definition fold_option (val : string) : string := ToLowerRunes (TrimSpace val).

Definition one_of (constants : list string) (e : option_error) (val : string) : result option_error string :=
  let v := fold_option val in
  if existsb (fun c => bool_decide (v = c)) constants then Ok v else Err e.

Definition ParseTunnelType (val : string) := one_of [TunnelTypeBytestream; TunnelTypeDatagram] (BadTunnelType val) val.
Definition ParseProtocol (val : string) :=
  one_of [ProtocolHTTP; ProtocolTLS; ProtocolTCP; ProtocolDTLS; ProtocolQUIC; ProtocolWebTTY] (BadProtocol val) val.
Definition ParseHTTPVersion (val : string) := one_of [HTTP1_1; HTTP2; HTTP3] (BadHTTPVersion val) val.
Definition ParseTLSMode (val : string) := one_of [TLSModeTerminated; TLSModePassthrough] (BadTLSMode val) val.
Definition ParseTLSMinVersion (val : string) := one_of ["tls1.2"; "tls1.3"] (BadTLSMinVersion val) val.

(** [Bool] of the positive and the negative form of an option. *)
Definition Bool_option (value inverse : option bool) : result option_error (option bool) :=
  match value, inverse with
  | Some _, Some _ => Err BothForms
  | Some v, None => Ok (Some v)
  | None, Some i => Ok (Some (negb i))
  | None, None => Ok None
  end.

Section Resolve.
Context {Time : Type} (ValidHeaderFieldName : string -> bool).
Notation props := (RunProps Time Config).

(** A pointer whose target, if any, is replaced by its parsed form. *)
Definition parse_ptr (parse : string -> result option_error string) (p : option string) : result option_error (option string) :=
  match p with None => Ok None | Some v => let? w := parse v in Ok (Some w) end.

Definition trim_host (p : option string) : result option_error (option string) :=
  match p with
  | None => Ok None
  | Some h => let v := TrimSpace h in if bool_decide (v = "") then Err HostEmpty else Ok (Some v)
  end.

Definition some_items {A} (l : option (list A)) : bool := match l with Some (_ :: _) => true | _ => false end.

Definition http_settings (p : props) : bool :=
  is_set (rp_HTTPVersion _ _ p) || is_set (rp_HTTPUseTLS _ _ p) || is_set (rp_TokenAuth _ _ p) || is_set (rp_RstreamAuth _ _ p) || is_set (rp_ChallengeMode _ _ p).

Definition tcp_options (p : props) : bool :=
  is_set (rp_TLSMode _ _ p) || some_items (rp_TLSALPNs _ _ p) || is_set (rp_TLSMinVersion _ _ p) || some_items (rp_TLSCiphers _ _ p) ||
  is_set (rp_MTLSAuth _ _ p) || is_set (rp_HTTPVersion _ _ p) || is_set (rp_HTTPUseTLS _ _ p) || is_set (rp_UpstreamTLS _ _ p) ||
  is_set (rp_TokenAuth _ _ p) || is_set (rp_RstreamAuth _ _ p) || is_set (rp_ChallengeMode _ _ p) || is_set (rp_DatagramGuaranteedDelivery _ _ p).

Definition normalizePublishedTCP (p : props) : result option_error props :=
  if negb (opt_is (rp_Protocol _ _ p) ProtocolTCP) then
    if is_set (rp_Port _ _ p) then Err PortRequiresTCP_ else Ok p
  else if opt_differs (rp_Type _ _ p) TunnelTypeBytestream then Err TCPNeedsBytestream
  else if match rp_Port _ _ p with Some n => (n =? 0) || (n >? 65535) | None => false end then Err PortOutOfRange
  else if opt_is (rp_Publish _ _ p) false then Err TCPNeedsPublished
  else if is_set (rp_Hostname _ _ p) then Err TCPWithoutHost
  else if tcp_options p then Err TCPWithoutOptions
  else Ok {| p with rp_Type := Some TunnelTypeBytestream; rp_Publish := Some true |}.

(** The named options, each parsed in place. *)
Definition parse_options (p : props) : result option_error props :=
  let? t := parse_ptr ParseTunnelType (rp_Type _ _ p) in
  let? pr := parse_ptr ParseProtocol (rp_Protocol _ _ p) in
  let? v := parse_ptr ParseHTTPVersion (rp_HTTPVersion _ _ p) in
  let? m := parse_ptr ParseTLSMode (rp_TLSMode _ _ p) in
  let? mv := parse_ptr ParseTLSMinVersion (rp_TLSMinVersion _ _ p) in
  let? h := trim_host (rp_Hostname _ _ p) in
  Ok {| p with rp_Type := t; rp_Protocol := pr; rp_HTTPVersion := v; rp_TLSMode := m; rp_TLSMinVersion := mv; rp_Hostname := h |}.

Definition check_cors (p : props) : result option_error props :=
  match rp_HTTPCORS _ _ p with
  | None => Ok p
  | Some c =>
      if opt_is (rp_Publish _ _ p) false || opt_differs (rp_Protocol _ _ p) ProtocolHTTP then Err CORSRequiresPublishedHTTP
      else match Normalize ValidHeaderFieldName (Some c) with
           | Err e => Err (BadCORS e)
           | Ok c => Ok {| p with rp_HTTPCORS := c |}
           end
  end.

(** Whether the protocol carries datagrams. *)
Definition datagram_protocol (p : props) : bool :=
  opt_is (rp_Protocol _ _ p) ProtocolDTLS || opt_is (rp_Protocol _ _ p) ProtocolQUIC ||
  (opt_is (rp_Protocol _ _ p) ProtocolHTTP && opt_is (rp_HTTPVersion _ _ p) HTTP3).

Definition Resolve (p : props) : result option_error props :=
  let? p := parse_options p in
  if opt_differs (rp_Protocol _ _ p) ProtocolHTTP && http_settings p then Err HTTPSettingsRequireHTTP
  else
    let? p := check_cors p in
    let? p := normalizePublishedTCP p in
    let datagram := opt_is (rp_Type _ _ p) TunnelTypeDatagram in
    if is_set (rp_DatagramGuaranteedDelivery _ _ p) && negb (datagram || negb (is_set (rp_Type _ _ p)) && datagram_protocol p) then Err DeliveryNeedsDatagram
    else if datagram && opt_is (rp_Publish _ _ p) true && negb (datagram_protocol p) && negb (opt_is (rp_Protocol _ _ p) ProtocolWebTTY) then Err PublishedDatagramProtocol
    else Ok p.

(** ** What resolved options satisfy *)

Record resolved (p : props) : Prop := {
  rv_type : forall t, rp_Type _ _ p = Some t -> t ∈ [TunnelTypeBytestream; TunnelTypeDatagram];
  rv_protocol : forall t, rp_Protocol _ _ p = Some t -> t ∈ [ProtocolHTTP; ProtocolTLS; ProtocolTCP; ProtocolDTLS; ProtocolQUIC; ProtocolWebTTY];
  rv_version : forall t, rp_HTTPVersion _ _ p = Some t -> t ∈ [HTTP1_1; HTTP2; HTTP3];
  rv_tls : forall t, rp_TLSMode _ _ p = Some t -> t ∈ [TLSModeTerminated; TLSModePassthrough];
  rv_minimum : forall t, rp_TLSMinVersion _ _ p = Some t -> t ∈ ["tls1.2"; "tls1.3"];
  rv_host : forall h, rp_Hostname _ _ p = Some h -> h <> "" /\ TrimSpace h = h;
  rv_http : http_settings p = true -> rp_Protocol _ _ p = None \/ rp_Protocol _ _ p = Some ProtocolHTTP;
  rv_cors : forall c, rp_HTTPCORS _ _ p = Some c ->
    rp_Publish _ _ p <> Some false /\ (rp_Protocol _ _ p = None \/ rp_Protocol _ _ p = Some ProtocolHTTP) /\ exists c0, normalized c0 c;
  rv_port : forall n, rp_Port _ _ p = Some n -> rp_Protocol _ _ p = Some ProtocolTCP /\ n <> 0 /\ n <= 65535;
  rv_tcp : rp_Protocol _ _ p = Some ProtocolTCP ->
    rp_Type _ _ p = Some TunnelTypeBytestream /\ rp_Publish _ _ p = Some true /\ rp_Hostname _ _ p = None /\ tcp_options p = false /\ rp_HTTPCORS _ _ p = None;
  rv_delivery : is_set (rp_DatagramGuaranteedDelivery _ _ p) = true ->
    rp_Type _ _ p = Some TunnelTypeDatagram \/ rp_Type _ _ p = None /\ datagram_protocol p = true;
  rv_datagram : rp_Type _ _ p = Some TunnelTypeDatagram -> rp_Publish _ _ p = Some true ->
    datagram_protocol p = true \/ rp_Protocol _ _ p = Some ProtocolWebTTY;
}.
End Resolve.

Lemma one_of_in constants e val v : one_of constants e val = Ok v -> v ∈ constants.
Proof.
  unfold one_of. destruct (existsb _ constants) eqn:E; [|done]. intros [= <-]. apply existsb_exists in E as (c & Hin & Hc).
  apply bool_decide_eq_true in Hc as ->. by apply list_elem_of_In.
Qed.

Lemma parse_ptr_in parse p q (constants : list string) : (forall v w, parse v = Ok w -> w ∈ constants) -> parse_ptr parse p = Ok q -> forall t, q = Some t -> t ∈ constants.
Proof. intros Hp. unfold parse_ptr. destruct p as [v|]; [|by intros [= <-]]. destruct (parse v) eqn:E; [|done]. intros [= <-] t [= <-]. by eapply Hp. Qed.

Lemma trim_host_ok p q : trim_host p = Ok q -> forall h, q = Some h -> h <> "" /\ TrimSpace h = h.
Proof.
  unfold trim_host. destruct p as [v|]; [|by intros [= <-]]. case_bool_decide; [done|]. intros [= <-] h [= <-]. split; [done|apply TrimSpace_idem].
Qed.

Lemma opt_is_spec {A} `{EqDecision A} (o : option A) v : opt_is o v = true <-> o = Some v.
Proof. apply bool_decide_eq_true. Qed.

Section Proofs.
Context {Time : Type} (V : string -> bool).
Notation props := (RunProps Time Config).

(** After parsing: every named option has one of its values. *)
Lemma parse_options_ok (p q : props) : parse_options p = Ok q ->
  (forall t, rp_Type _ _ q = Some t -> t ∈ [TunnelTypeBytestream; TunnelTypeDatagram]) /\
  (forall t, rp_Protocol _ _ q = Some t -> t ∈ [ProtocolHTTP; ProtocolTLS; ProtocolTCP; ProtocolDTLS; ProtocolQUIC; ProtocolWebTTY]) /\
  (forall t, rp_HTTPVersion _ _ q = Some t -> t ∈ [HTTP1_1; HTTP2; HTTP3]) /\
  (forall t, rp_TLSMode _ _ q = Some t -> t ∈ [TLSModeTerminated; TLSModePassthrough]) /\
  (forall t, rp_TLSMinVersion _ _ q = Some t -> t ∈ ["tls1.2"; "tls1.3"]) /\
  (forall h, rp_Hostname _ _ q = Some h -> h <> "" /\ TrimSpace h = h).
Proof.
  unfold parse_options. intros H.
  destruct (parse_ptr ParseTunnelType _) as [t|] eqn:Et; [|done]. destruct (parse_ptr ParseProtocol _) as [pr|] eqn:Epr; [|done].
  destruct (parse_ptr ParseHTTPVersion _) as [v|] eqn:Ev; [|done]. destruct (parse_ptr ParseTLSMode _) as [m|] eqn:Em; [|done].
  destruct (parse_ptr ParseTLSMinVersion _) as [mv|] eqn:Emv; [|done]. destruct (trim_host _) as [h|] eqn:Eh; [|done]. injection H as <-.
  cbn [rp_Type rp_Protocol rp_HTTPVersion rp_TLSMode rp_TLSMinVersion rp_Hostname].
  repeat split; eauto using parse_ptr_in, one_of_in; [eapply parse_ptr_in; [|exact Et]|eapply parse_ptr_in; [|exact Epr]|eapply parse_ptr_in; [|exact Ev]
    |eapply parse_ptr_in; [|exact Em]|eapply parse_ptr_in; [|exact Emv]|..]; eauto using one_of_in.
  1-2: eapply trim_host_ok; eauto.
Qed.
Lemma check_cors_ok (p q : props) : check_cors V p = Ok q ->
  q = {| p with rp_HTTPCORS := rp_HTTPCORS _ _ q |} /\ (rp_HTTPCORS _ _ p = None -> rp_HTTPCORS _ _ q = None) /\
  forall c, rp_HTTPCORS _ _ q = Some c ->
    rp_Publish _ _ p <> Some false /\ (rp_Protocol _ _ p = None \/ rp_Protocol _ _ p = Some ProtocolHTTP) /\ exists c0, normalized c0 c.
Proof.
  unfold check_cors. destruct (rp_HTTPCORS _ _ p) as [c|] eqn:Ec.
  2: { intros [= <-]. rewrite Ec. split; [by destruct p; cbn in *; subst|]. split; [done|]. intros c H. congruence. }
  destruct (opt_is (rp_Publish _ _ p) false) eqn:Ep; [done|]. cbn [orb]. destruct (opt_differs (rp_Protocol _ _ p) ProtocolHTTP) eqn:Epr; [done|].
  pose proof (normalize_accepts_bounded V (Some c)) as HN. destruct (Normalize V (Some c)) as [[n|]|]; [|done|done]. intros [= <-].
  destruct HN as (c1 & [= <-] & Hn). split; [done|]. split; [done|]. cbn. intros ? [= <-]. split; [intros Hp; by rewrite Hp in Ep|].
  split; [by apply opt_differs_false|eauto].
Qed.

Lemma normalizeTCP_ok (p q : props) : normalizePublishedTCP p = Ok q ->
  (rp_Protocol _ _ p <> Some ProtocolTCP /\ q = p /\ rp_Port _ _ p = None) \/
  (rp_Protocol _ _ p = Some ProtocolTCP /\ q = {| p with rp_Type := Some TunnelTypeBytestream; rp_Publish := Some true |} /\
   rp_Hostname _ _ p = None /\ tcp_options p = false /\ forall n, rp_Port _ _ p = Some n -> n <> 0 /\ n <= 65535).
Proof.
  unfold normalizePublishedTCP, opt_is. destruct (bool_decide_reflect (rp_Protocol _ _ p = Some ProtocolTCP)) as [Hp|Hp]; cbn [negb].
  - destruct (opt_differs _ _); [done|]. destruct (match rp_Port _ _ p with Some n => _ | None => _ end) eqn:Eport; [done|].
    destruct (bool_decide _); [done|]. destruct (rp_Hostname _ _ p) eqn:Eh; [done|]. cbn [is_set]. destruct (tcp_options p) eqn:Eo; [done|]. intros [= <-]. right.
    split; [done|]. split; [done|]. split; [done|]. split; [done|]. intros n Hn. rewrite Hn in Eport. split; apply orb_false_iff in Eport as [?%Z.eqb_neq Hg]; [done|]. by destruct (Z.gtb_spec n 65535).
  - destruct (rp_Port _ _ p) eqn:Eport; [done|]. intros [= <-]. by left.
Qed.
End Proofs.

(** What [Resolve] accepts is consistent. *)
Lemma resolve_resolved {Time} (V : string -> bool) (p q : RunProps Time Config) (Hok : Resolve V p = Ok q) : resolved q.
Proof.
  unfold Resolve in Hok. destruct (parse_options p) as [p1|] eqn:E1; [|done].
  destruct (opt_differs (rp_Protocol _ _ p1) ProtocolHTTP && http_settings p1) eqn:Eh; [done|].
  destruct (check_cors V p1) as [p2|] eqn:E2; [|done]. destruct (normalizePublishedTCP p2) as [p3|] eqn:E3; [|done]. cbv zeta in Hok.
  destruct (is_set (rp_DatagramGuaranteedDelivery _ _ p3) && _) eqn:Ed; [done|].
  destruct (opt_is (rp_Type _ _ p3) TunnelTypeDatagram && opt_is (rp_Publish _ _ p3) true && _ && _) eqn:Eg; [done|]. injection Hok as <-.
  destruct (parse_options_ok _ _ E1) as (Ht & Hpr & Hv & Hm & Hmv & Hh). destruct (check_cors_ok _ _ _ E2) as (H2 & Hn2 & Hc2).
  assert (Hhttp : http_settings p1 = true -> rp_Protocol _ _ p1 = None \/ rp_Protocol _ _ p1 = Some ProtocolHTTP).
  { intros Hs. rewrite Hs, andb_true_r in Eh. by apply opt_differs_false. }
  assert (Hdel : is_set (rp_DatagramGuaranteedDelivery _ _ p3) = true -> rp_Type _ _ p3 = Some TunnelTypeDatagram \/ rp_Type _ _ p3 = None /\ datagram_protocol p3 = true).
  { intros Hs. rewrite Hs in Ed. cbn [andb] in Ed. apply negb_false_iff, orb_true_iff in Ed as [Ed%opt_is_spec|[Ed1 Ed2]%andb_true_iff]; [by left|right].
    split; [|done]. by destruct (rp_Type _ _ p3). }
  assert (Hdat : rp_Type _ _ p3 = Some TunnelTypeDatagram -> rp_Publish _ _ p3 = Some true -> datagram_protocol p3 = true \/ rp_Protocol _ _ p3 = Some ProtocolWebTTY).
  { intros Hs1%opt_is_spec Hs2%opt_is_spec. rewrite Hs1, Hs2 in Eg. cbn [andb] in Eg. apply andb_false_iff in Eg as [Eg%negb_false_iff|Eg%negb_false_iff]; [by left|right]. by apply opt_is_spec. }
  destruct p1, p2. cbn in *. injection H2 as -> -> -> -> -> -> -> -> -> -> -> -> -> -> -> -> -> -> -> -> -> -> -> -> ->.
  destruct (normalizeTCP_ok _ _ E3) as [(Hne & -> & Hport)|(Htcp & -> & Hhost & Hopt & Hrange)]; cbn in *; constructor; cbn; try done.
  - intros n Hn. congruence.
  - intros t [= <-]. left.
  - intros c Hc. destruct (Hc2 c Hc) as (_ & Hp & _). destruct Hp as [Hp|Hp]; rewrite Htcp in Hp; discriminate.
  - intros n Hn. split; [done|]. by apply Hrange.
  - intros _. repeat split; try done. destruct rp_HTTPCORS0 as [c|]; [|done]. destruct (Hc2 c eq_refl) as (_ & Hp & _). destruct Hp as [Hp|Hp]; rewrite Htcp in Hp; discriminate.
Qed.

(** Options accepted by [Resolve] are consistent: named options have one of their values, HTTP and CORS settings only go with HTTP, a CORS policy is in normal form on a published tunnel, ports only with TCP and in range, TCP tunnels are published byte streams without any TLS, HTTP or datagram option, and datagram options only go with datagram tunnels. *)
Theorem resolve_sound {Time} (V : string -> bool) (p q : RunProps Time Config) (Hok : Resolve V p = Ok q) : resolved q.
Proof. exact (resolve_resolved V p q Hok). Qed.

(** A tunnel of a web server, as Docker labels would describe it. *)
Definition no_props : RunProps Z Config :=
  MkRunProps None None None None None None None None None None None None None None None None None None None None None None None None None None.

Definition sample_web : RunProps Z Config :=
  {| no_props with rp_Publish := Some true; rp_Protocol := Some " HTTP "; rp_HTTPVersion := Some "h2c";
                   rp_HTTPCORS := Some (MkConfig ["https://app.example.com"] [] [] [] false 0) |}.

Lemma resolve_sound_witness : exists q, Resolve (fun _ => true) sample_web = Ok q /\ rp_Protocol _ _ q = Some ProtocolHTTP /\ resolved q.
Proof.
  destruct (Resolve (fun _ => true) sample_web) as [q|] eqn:E; [|vm_compute in E; discriminate].
  exists q. split; [reflexivity|]. split; [vm_compute in E; by injection E as <-|]. exact (resolve_sound (fun _ => true) sample_web q E).
Defined.

(** ** Resolved options are accepted when the tunnel is created *)

Definition items {A} (l : option (list A)) : list A := default [] l.

(** The properties [Client.CreateTunnel] is called with. *)
Definition client_props {Time} (p : RunProps Time Config) : TunnelProperties Time :=
  MkTunnelProperties (rp_ID _ _ p) (rp_CreationDate _ _ p) (rp_Name _ _ p) (rp_Type _ _ p) (rp_Publish _ _ p) (rp_Protocol _ _ p) (rp_Labels _ _ p)
    (items (rp_GeoIP _ _ p)) (items (rp_TrustedIPs _ _ p)) (rp_Host _ _ p) (rp_Hostname _ _ p) (rp_Port _ _ p) (rp_TLSMode _ _ p)
    (items (rp_TLSALPNs _ _ p)) (rp_TLSMinVersion _ _ p) (items (rp_TLSCiphers _ _ p)) (rp_MTLSAuth _ _ p) (rp_HTTPVersion _ _ p) (rp_HTTPCORS _ _ p)
    (rp_HTTPUseTLS _ _ p) (rp_UpstreamTLS _ _ p) (rp_DatagramGuaranteedDelivery _ _ p) (rp_AllowCrossRegionRouting _ _ p) (rp_TokenAuth _ _ p)
    (rp_RstreamAuth _ _ p) (rp_ChallengeMode _ _ p).

Lemma items_empty {A} `{EqDecision A} (l : option (list A)) : some_items l = false -> bool_decide (items l = []) = true.
Proof. destruct l as [[|]|]; done. Qed.

(** Without a CORS policy the properties pass the check of the client unchanged. *)
Lemma resolved_creatable {Time} (V : string -> bool) (q : RunProps Time Config) : resolved q -> rp_HTTPCORS _ _ q = None ->
  normalizeCreateTunnelProperties V (client_props q) = Ok (client_props q).
Proof.
  intros [] Hc. set (t := client_props q). unfold normalizeCreateTunnelProperties, normalize_cors, opt_is.
  assert (H0 : HTTPCORS t = None) by exact Hc. rewrite H0. cbn [is_set].
  change (Protocol t) with (rp_Protocol _ _ q). change (Port t) with (rp_Port _ _ q). change (Type_ t) with (rp_Type _ _ q). change (Publish t) with (rp_Publish _ _ q).
  destruct (bool_decide_reflect (rp_Protocol _ _ q = Some ProtocolTCP)) as [Ht|Ht]; cbn [negb].
  - destruct (rv_tcp0 Ht) as (H1 & H2 & H3 & H4 & _). rewrite andb_false_r.
    assert (Hp : match rp_Port _ _ q with Some n => (n =? 0) || (n >? 65535) | None => false end = false).
    { destruct (rp_Port _ _ q) as [n|]; [|done]. destruct (rv_port0 n eq_refl) as (_ & ? & ?). destruct (Z.eqb_spec n 0), (Z.gtb_spec n 65535); done || lia. }
    rewrite Hp, H1, H2. assert (Hu : has_tcp_unsupported t = false).
    { unfold has_tcp_unsupported, t. cbn. rewrite H3. unfold tcp_options in H4. repeat rewrite orb_false_iff in H4.
      destruct H4 as [[[[[[[[[[[A B] C] D] F] G] I] J] K] L] M] N]. rewrite A, C, F, G, I, J, K, L, M, N, !items_empty by done. done. }
    rewrite Hu. cbn [opt_differs]. rewrite !bool_decide_true by done. cbn [negb]. unfold t, client_props. by rewrite H1, H2.
  - rewrite andb_true_r. destruct (rp_Port _ _ q) as [n|] eqn:En; [by destruct (rv_port0 n eq_refl)|]. done.
Qed.
