(* ===== verification/Runner.v ===== *)
(** * Runner: keeping a desired tunnel alive
    ([cmd/rstream/internal/runengine/runner.go], [netretry/accept.go],
    [sessiongroup/group.go], [engine_error.go])

    A runner connects, creates the tunnel, serves it and starts over after a
    retryable error, with exponential delays.  What the client, the control channel
    and the listener answer is the script of a run.  The accepted connections
    belong to a session group, whose goroutines are interleaved with its callers.
    Durations are [int64] nanoseconds. *)

From S2P Require Import Prelude GoStrings.

Definition millisecond : Z := 1000000.
Definition second : Z := 1000 * millisecond.

(** ** Errors *)

(** What [errors.Is] and [errors.As] find in an error; wrapping keeps it. *)
Inductive sentinel := Canceled | DeadlineExceeded | EINTR | ECONNABORTED | EMFILE | ENFILE | ENOBUFS | ENOMEM.

#[export] Instance sentinel_eq_dec : EqDecision sentinel.
Proof. solve_decision. Defined.

Record EngineError := MkEngineError { ee_Code : Z; ee_Message : string }.

Record go_error := MkError { ge_is : list sentinel; ge_engine : option EngineError }.

Definition plain_error : go_error := MkError [] None.
Definition canceled_error : go_error := MkError [Canceled] None.

Definition errors_Is (e : go_error) (x : sentinel) : bool := bool_decide (x ∈ ge_is e).

Definition EngineErrorCodeInvalidRequest : Z := 2000.
Definition EngineErrorCodeServiceUnavailable : Z := 6000.
Definition EngineErrorCodeCapacityExhausted : Z := 7000.
Definition EngineErrorCodeResourceConflict : Z := 8000.
Definition EngineErrorCodeInternal : Z := 9000.

Definition Retryable (e : EngineError) : bool :=
  (ee_Code e =? EngineErrorCodeServiceUnavailable) || (ee_Code e =? EngineErrorCodeCapacityExhausted)
  || (ee_Code e =? EngineErrorCodeResourceConflict) || (ee_Code e =? EngineErrorCodeInternal).

Definition legacyResourceConflictMessage (message : string) : bool :=
  let m := TrimSpace message in
  bool_decide (m = "Hostname is already in use.") || bool_decide (m = "TCP port is already in use.")
  || bool_decide (m = "Registered WebTTY server is already online.").

Definition retryableTunnelError (err : option go_error) : bool :=
  match err with
  | None => false
  | Some e =>
      if errors_Is e Canceled || errors_Is e DeadlineExceeded then false
      else match ge_engine e with
           | Some ee =>
               if Retryable ee then true
               else (ee_Code ee =? EngineErrorCodeInvalidRequest) && legacyResourceConflictMessage (ee_Message ee)
           | None => true
           end
  end.

(** ** Delays *)

Record backoff := MkBackoff { b_current : Z; b_initial : Z; b_max : Z }.

Definition newBackoff (initial max : Z) : backoff :=
  let initial := if initial <=? 0 then 1 * second else initial in
  let max := if max <=? 0 then 30 * second else max in
  let max := if max <? initial then initial else max in
  MkBackoff initial initial max.

Definition backoff_Next (b : backoff) : Z * backoff :=
  let current := if b_current b <? b_initial b then b_initial b else b_current b in
  (current, {| b with b_current := if current >=? i64 (b_max b - current) then b_max b else i64 (current * 2) |}).

Definition backoff_Reset (b : backoff) : backoff := {| b with b_current := b_initial b |}.

(** [rand.Uint64N(n)], from the random number [r]. *)
Definition Uint64N (n r : Z) : Z := r mod n.

Definition jitterRetry (delay r : Z) : Z :=
  let spread := delay ÷ 5 in
  if spread <=? 0 then delay else i64 (delay - spread + Uint64N (u64 (spread + 1)) r).

Definition initialAcceptDelay : Z := 5 * millisecond.

Definition NextAcceptDelay (err : go_error) (current maximum : Z) : Z * bool :=
  let retry := errors_Is err EINTR || errors_Is err ECONNABORTED || errors_Is err EMFILE || errors_Is err ENFILE
               || errors_Is err ENOBUFS || errors_Is err ENOMEM in
  if negb retry then (0, false)
  else
    let current := if current <=? 0 then initialAcceptDelay else i64 (current * 2) in
    (if (0 <? maximum) && (current >? maximum) then maximum else current, true).

(** ** One attempt *)

Inductive resource := RClient | RControl | RTunnel.
Inductive effect := Open (r : resource) | Close (r : resource).

(** How the serving of a tunnel ends: the context is done first, or the accept loop
    returns (and the context may be done by then). *)
Inductive served := ServeCancelled | ServeReturned (err : option go_error) (cancelled : bool).

Record attempt := MkAttempt {
  a_newClient : option go_error;
  a_connect : option go_error;
  a_createTunnel : option go_error;
  a_properties : option go_error;
  a_forwarding : option go_error;
  a_listener : bool;                       (* the tunnel is one of the two kinds of listener *)
  a_served : served;
}.

Definition serveWithCtx (x : served) : option go_error :=
  match x with
  | ServeCancelled => Some canceled_error
  | ServeReturned err cancelled => if cancelled then Some canceled_error else err
  end.

(** A resource with its deferred [Close] around the rest of the attempt. *)
Definition deferred (r : resource) (x : list effect * bool * option go_error) : list effect * bool * option go_error :=
  let '(l, ready, err) := x in (Open r :: l ++ [Close r], ready, err).

(** [runOnceReady]: what was opened and closed, whether [ready] was called, the error. *)
Definition runOnceReady (a : attempt) : list effect * bool * option go_error :=
  match a_newClient a with
  | Some e => ([], false, Some e)
  | None => deferred RClient
      match a_connect a with
      | Some e => ([], false, Some e)
      | None => deferred RControl
          match a_createTunnel a with
          | Some e => ([], false, Some e)
          | None => deferred RTunnel
              match a_properties a, a_forwarding a with
              | Some e, _ | None, Some e => ([], false, Some e)
              | None, None =>
                  if a_listener a then ([], true, serveWithCtx (a_served a)) else ([], true, Some plain_error)
              end
          end
      end
  end.

(** ** The loop *)

Record Runner := MkRunner { r_retryInitial : Z; r_retryMax : Z }.

Definition default_runner : Runner := MkRunner (1 * second) (30 * second).

(** One iteration: whether the context was done at its start, the attempt, the
    random number of the jitter, whether the wait ran to its end. *)
Record turn := MkTurn { t_cancelled : bool; t_attempt : attempt; t_rand : Z; t_waited : bool }.

Inductive stop_reason := ByContext | Closed | ByCancel | ByError.

Inductive loop_event := LAttempt (l : list effect) | LWait (d : Z).

(** [retryFailureLog]: the attempts that failed since the tunnel was up. *)
Definition failures_Failed (attempts : Z) : Z := u64 (attempts + 1).
Definition failures_Recovered (attempts : Z) : Z := if attempts =? 0 then attempts else 0.

Fixpoint run_loop (b : backoff) (failures : Z) (turns : list turn) : list loop_event * option stop_reason :=
  match turns with
  | [] => ([], None)
  | t :: turns =>
      if t_cancelled t then ([], Some ByContext)
      else
        let '(effects, ready, err) := runOnceReady (t_attempt t) in
        let b := if ready then backoff_Reset b else b in
        let failures := if ready then failures_Recovered failures else failures in
        match err with
        | None => ([LAttempt effects], Some Closed)
        | Some e =>
            if errors_Is e Canceled then ([LAttempt effects], Some ByCancel)
            else if negb (retryableTunnelError err) then ([LAttempt effects], Some ByError)
            else
              let '(next, b) := backoff_Next b in
              let retry := jitterRetry next (t_rand t) in
              let failures := failures_Failed failures in
              if negb (t_waited t) then ([LAttempt effects; LWait retry], Some ByContext)
              else let '(l, stop) := run_loop b failures turns in (LAttempt effects :: LWait retry :: l, stop)
        end
  end.

(** The transport of a run: the caller's, or one it makes and closes. *)
Inductive transport := Given | Made (closer : bool) | NotMade.

Inductive run_event := RLoop (e : loop_event) | RCloseTransport | RCloseSessions.

(** [run] with its deferred functions; [None]: the script has ended and it goes on. *)
Definition run (r : Runner) (x : transport) (turns : list turn) : list run_event * option stop_reason :=
  match x with
  | NotMade => ([RCloseSessions], Some ByError)
  | _ =>
      let '(l, stop) := run_loop (newBackoff (r_retryInitial r) (r_retryMax r)) 0 turns in
      match stop with
      | None => (RLoop <$> l, None)
      | Some _ => ((RLoop <$> l) ++ match x with Made true => [RCloseTransport] | _ => [] end ++ [RCloseSessions], stop)
      end
  end.

(** ** The accept loops *)

Definition acceptRetryMaxDelay : Z := second.

(** An answer of [Accept]: a connection that the session group takes or refuses, or
    an error and whether the wait for its delay, if there is one, ran to its end. *)
Inductive accepted := Accepted (taken : bool) | AcceptFailed (e : go_error) (waited : bool).

(** [serveTCP] and [serveUDP]: the delays waited and the error it returns. *)
Fixpoint serve_loop (acceptRetryDelay : Z) (l : list accepted) : list Z * option go_error :=
  match l with
  | [] => ([], None)
  | AcceptFailed e waited :: l =>
      let '(delay, retry) := NextAcceptDelay e acceptRetryDelay acceptRetryMaxDelay in
      if retry then
        if waited then let '(ds, r) := serve_loop delay l in (delay :: ds, r) else ([delay], Some e)
      else ([], Some e)
  | Accepted taken :: l => if taken then serve_loop 0 l else ([], Some canceled_error)
  end.

(** ** The session group *)

(** A session between [Start] and the end of its goroutine. *)
Inductive session_pc := SRunning | SDeleted | SDone.

#[export] Instance session_pc_eq_dec : EqDecision session_pc.
Proof. solve_decision. Defined.

Inductive group_close := GClosing (rest : list nat) | GWaiting | GReturned.

Record Group := MkGroup {
  g_cancelled : bool;                       (* its context *)
  g_active : gmap Z nat;                    (* [active]: the closers, numbered *)
  g_nextID : Z;
  g_closed : bool;
  g_wg : Z;
  g_sessions : gmap Z (nat * session_pc);   (* the goroutines, with their closers *)
  g_shut : list nat;                        (* closers the group closed *)
  g_refused : list nat;
  g_closes : gmap nat group_close;
}.

Definition new_group : Group := MkGroup false ∅ 0 false 0 ∅ [] [] ∅.

Definition group_Start (closer : nat) (g : Group) : Group * bool :=
  if g_closed g then ({| g with g_shut := closer :: g_shut g; g_refused := closer :: g_refused g |}, false)
  else
    let id := u64 (g_nextID g + 1) in
    ({| g with g_nextID := id; g_active := <[id := closer]> (g_active g); g_wg := g_wg g + 1;
               g_sessions := <[id := (closer, SRunning)]> (g_sessions g) |}, true).

(** [run(g.ctx)] returns, whenever it does. *)
Definition session_delete (id : Z) (g : Group) : option Group :=
  match g_sessions g !! id with
  | Some (c, SRunning) => Some {| g with g_active := delete id (g_active g); g_sessions := <[id := (c, SDeleted)]> (g_sessions g) |}
  | _ => None
  end.

Definition session_done (id : Z) (g : Group) : option Group :=
  match g_sessions g !! id with
  | Some (c, SDeleted) => Some {| g with g_wg := g_wg g - 1; g_sessions := <[id := (c, SDone)]> (g_sessions g) |}
  | _ => None
  end.

Definition group_Close (k : nat) (g : Group) : option Group :=
  match g_closes g !! k with
  | Some _ => None
  | None =>
      if g_closed g then Some {| g with g_closes := <[k := GWaiting]> (g_closes g) |}
      else Some {| g with g_closed := true; g_cancelled := true;
                          g_closes := <[k := GClosing (map_to_list (g_active g)).*2]> (g_closes g) |}
  end.

(** The rest of [Close]: the closers one by one, then [wg.Wait]. *)
Definition group_Close_next (k : nat) (g : Group) : option Group :=
  match g_closes g !! k with
  | Some (GClosing (c :: l)) => Some {| g with g_shut := c :: g_shut g; g_closes := <[k := GClosing l]> (g_closes g) |}
  | Some (GClosing []) => Some {| g with g_closes := <[k := GWaiting]> (g_closes g) |}
  | Some GWaiting => if g_wg g =? 0 then Some {| g with g_closes := <[k := GReturned]> (g_closes g) |} else None
  | _ => None
  end.

Inductive group_action := GStart (closer : nat) | GDelete (id : Z) | GDone (id : Z) | GClose (k : nat) | GCloseNext (k : nat).

Definition group_step (a : group_action) (g : Group) : option Group :=
  match a with
  | GStart c => Some (fst (group_Start c g))
  | GDelete id => session_delete id g
  | GDone id => session_done id g
  | GClose k => group_Close k g
  | GCloseNext k => group_Close_next k g
  end.

(** Fewer than [2^64] sessions are ever started, so that no number is used twice. *)
Definition group_moves (g g' : Group) : Prop := g_nextID g + 1 < 2 ^ 64 /\ exists a, group_step a g = Some g'.
Definition group_reachable (g : Group) : Prop := rtc group_moves new_group g.

(** ** The schedule of the waits *)

(** The wait after [c] failures in a row: doubled each time, up to a maximum. *)
Definition scheduled (initial max : Z) (c : nat) : Z := Z.min (initial * 2 ^ Z.of_nat c) max.

Record backoff_at (initial max : Z) (c : nat) (b : backoff) : Prop := {
  ba_initial : b_initial b = initial;
  ba_max : b_max b = max;
  ba_current : b_current b = scheduled initial max c;
}.

Definition bounds_ok (initial max : Z) : Prop := 0 < initial <= max /\ max < 2 ^ 63.

Lemma scheduled_range initial max c : bounds_ok initial max -> initial <= scheduled initial max c <= max.
Proof.
  intros [[? ?] ?]. unfold scheduled. pose proof (Z.pow_pos_nonneg 2 (Z.of_nat c) ltac:(lia) ltac:(lia)). nia.
Qed.

Lemma scheduled_0 initial max : bounds_ok initial max -> scheduled initial max 0 = initial.
Proof. intros [[? ?] ?]. unfold scheduled. cbn. lia. Qed.

Lemma scheduled_S initial max c : bounds_ok initial max ->
  scheduled initial max (S c) = Z.min (2 * scheduled initial max c) max.
Proof. intros [[? ?] ?]. unfold scheduled. rewrite Nat2Z.inj_succ, Z.pow_succ_r by lia. lia. Qed.

Lemma backoff_Next_at initial max c b : bounds_ok initial max -> backoff_at initial max c b ->
  fst (backoff_Next b) = scheduled initial max c /\ backoff_at initial max (S c) (snd (backoff_Next b)).
Proof.
  intros Hb [H1 H2 H3]. pose proof (scheduled_range initial max c Hb) as Hr. destruct Hb as [[? ?] ?].
  unfold backoff_Next. rewrite H1, H2, H3. cbn. replace (scheduled initial max c <? initial) with false by lia.
  split; [done|]. split; cbn; try done. rewrite scheduled_S by done. rewrite !i64_small by lia.
  destruct (Z.geb_spec (scheduled initial max c) (max - scheduled initial max c)); [lia|]. rewrite i64_small by lia. lia.
Qed.

Lemma newBackoff_at initial max : initial < 2 ^ 63 -> max < 2 ^ 63 ->
  let b := newBackoff initial max in bounds_ok (b_initial b) (b_max b) /\ backoff_at (b_initial b) (b_max b) 0 b.
Proof.
  intros Hi Hm b.
  assert (Hb : bounds_ok (b_initial b) (b_max b)).
  { subst b. unfold newBackoff, bounds_ok, second, millisecond. cbn.
    destruct (Z.leb_spec initial 0), (Z.leb_spec max 0); case_match; lia. }
  split; [done|]. split; [done|done|]. rewrite scheduled_0 by done. done.
Qed.

Lemma jitterRetry_range d r : 0 < d < 2 ^ 63 -> d - d / 5 <= jitterRetry d r <= d.
Proof.
  intros Hd. unfold jitterRetry, Uint64N. rewrite Z.quot_div_nonneg by lia. pose proof (Z.div_mod d 5 ltac:(lia)).
  pose proof (Z.mod_pos_bound d 5 ltac:(lia)). destruct (Z.leb_spec (d / 5) 0); [lia|].
  rewrite u64_small by lia. pose proof (Z.mod_pos_bound r (d / 5 + 1) ltac:(lia)). rewrite i64_small; lia.
Qed.

(** The loop with the number of failures in a row in place of the backoff. *)
Fixpoint loop_ref (initial max : Z) (c : nat) (turns : list turn) : list loop_event * option stop_reason :=
  match turns with
  | [] => ([], None)
  | t :: turns =>
      if t_cancelled t then ([], Some ByContext)
      else
        let '(effects, ready, err) := runOnceReady (t_attempt t) in
        let c := if ready then O else c in
        if retryableTunnelError err then
          let wait := LWait (jitterRetry (scheduled initial max c) (t_rand t)) in
          if t_waited t then let '(l, stop) := loop_ref initial max (S c) turns in (LAttempt effects :: wait :: l, stop)
          else ([LAttempt effects; wait], Some ByContext)
        else ([LAttempt effects],
              Some match err with None => Closed | Some e => if errors_Is e Canceled then ByCancel else ByError end)
  end.

Lemma Reset_at initial max c b : bounds_ok initial max -> backoff_at initial max c b ->
  backoff_at initial max 0 (backoff_Reset b).
Proof. intros Hb [H1 H2 H3]. split; cbn; try done. by rewrite scheduled_0, H1. Qed.

Lemma retryable_not_canceled e : errors_Is e Canceled = true -> retryableTunnelError (Some e) = false.
Proof. intros H. cbn. by rewrite H. Qed.

Lemma run_loop_ref initial max c b failures turns :
  bounds_ok initial max -> backoff_at initial max c b -> run_loop b failures turns = loop_ref initial max c turns.
Proof.
  intros Hb. revert c b failures. induction turns as [|t turns IH]; intros c b failures Hat; [done|].
  cbn [run_loop loop_ref]. destruct (t_cancelled t); [done|].
  destruct (runOnceReady (t_attempt t)) as [[effects ready] err].
  assert (Hat' : backoff_at initial max (if ready then O else c) (if ready then backoff_Reset b else b)).
  { destruct ready; [by eapply Reset_at|done]. }
  destruct err as [e|]; [|done]. destruct (errors_Is e Canceled) eqn:He; [by rewrite retryable_not_canceled|].
  destruct (retryableTunnelError (Some e)); [|done]. cbn [negb].
  destruct (backoff_Next_at _ _ _ _ Hb Hat') as [Hn Hs]. destruct (backoff_Next _) as [next b']. cbn [fst snd] in Hn, Hs.
  rewrite Hn. destruct (t_waited t); [|done]. cbn [negb]. by rewrite (IH _ _ (failures_Failed (if ready then failures_Recovered failures else failures)) Hs).
Qed.

Lemma loop_ref_waits initial max c turns d :
  bounds_ok initial max -> LWait d ∈ fst (loop_ref initial max c turns) -> initial - initial / 5 <= d <= max.
Proof.
  intros Hb. assert (Hw : forall c r, initial - initial / 5 <= jitterRetry (scheduled initial max c) r <= max).
  { intros c' r. pose proof (scheduled_range initial max c' Hb) as Hr. destruct Hb as [[? ?] ?].
    pose proof (jitterRetry_range (scheduled initial max c') r ltac:(lia)) as Hj.
    pose proof (Z.div_mod initial 5 ltac:(lia)). pose proof (Z.mod_pos_bound initial 5 ltac:(lia)).
    pose proof (Z.div_mod (scheduled initial max c') 5 ltac:(lia)).
    pose proof (Z.mod_pos_bound (scheduled initial max c') 5 ltac:(lia)). lia. }
  revert c. induction turns as [|t turns IH]; intros c; cbn [loop_ref]; [by intros ?%elem_of_nil|].
  destruct (t_cancelled t); [by intros ?%elem_of_nil|]. destruct (runOnceReady (t_attempt t)) as [[effects ready] err].
  destruct (retryableTunnelError err); [|by intros ?%list_elem_of_singleton]. destruct (t_waited t).
  - specialize (IH (S (if ready then O else c))). destruct (loop_ref _ _ _ turns) as [l stop]. cbn [fst] in *.
    intros [[=]|[[= ->]|Hin]%elem_of_cons]%elem_of_cons; [apply Hw|by apply IH].
  - cbn [fst]. intros [[=]|[= ->]%list_elem_of_singleton]%elem_of_cons. apply Hw.
Qed.

(** ** Resources *)

(** Everything opened is closed, the last one first. *)
Fixpoint nested (stack : list resource) (l : list effect) : bool :=
  match l with
  | [] => match stack with [] => true | _ => false end
  | Open r :: l => nested (r :: stack) l
  | Close r :: l =>
      match stack with
      | r' :: stack => match r, r' with
                       | RClient, RClient | RControl, RControl | RTunnel, RTunnel => nested stack l
                       | _, _ => false
                       end
      | [] => false
      end
  end.

Lemma runOnceReady_nested a : nested [] (fst (fst (runOnceReady a))) = true.
Proof.
  unfold runOnceReady. destruct (a_newClient a), (a_connect a), (a_createTunnel a), (a_properties a), (a_forwarding a); try done.
  by destruct (a_listener a).
Qed.

Lemma run_loop_attempts b failures turns l :
  LAttempt l ∈ fst (run_loop b failures turns) -> nested [] l = true.
Proof.
  revert b failures. induction turns as [|t turns IH]; intros b failures; cbn [run_loop]; [by intros ?%elem_of_nil|].
  destruct (t_cancelled t); [by intros ?%elem_of_nil|]. pose proof (runOnceReady_nested (t_attempt t)) as Hn.
  destruct (runOnceReady (t_attempt t)) as [[effects ready] [e|]]; cbn [fst] in Hn.
  2: { by intros [= ->]%list_elem_of_singleton. }
  destruct (errors_Is e Canceled); [by intros [= ->]%list_elem_of_singleton|].
  destruct (retryableTunnelError (Some e)); cbn [negb]; [|by intros [= ->]%list_elem_of_singleton].
  destruct (backoff_Next _) as [next b']. destruct (t_waited t); cbn [negb].
  - specialize (IH b' (failures_Failed (if ready then failures_Recovered failures else failures))).
    destruct (run_loop b' _ turns) as [l' stop]. cbn [fst] in *.
    intros [[= ->]|[[=]|Hin]%elem_of_cons]%elem_of_cons; [done|by apply IH].
  - cbn [fst]. by intros [[= ->]|[=]%list_elem_of_singleton]%elem_of_cons.
Qed.

(** ** The accept loop *)

Lemma NextAcceptDelay_range e current d :
  current = 0 \/ initialAcceptDelay <= current <= acceptRetryMaxDelay ->
  NextAcceptDelay e current acceptRetryMaxDelay = (d, true) -> initialAcceptDelay <= d <= acceptRetryMaxDelay.
Proof.
  unfold NextAcceptDelay, initialAcceptDelay, acceptRetryMaxDelay, second, millisecond. intros Hc.
  case_match; [done|]. intros [= <-].
  destruct (Z.leb_spec current 0).
  - case_match; lia.
  - rewrite i64_small by lia. case_match eqn:Hm; lia.
Qed.

Lemma serve_loop_range delay l d :
  delay = 0 \/ initialAcceptDelay <= delay <= acceptRetryMaxDelay ->
  d ∈ fst (serve_loop delay l) -> initialAcceptDelay <= d <= acceptRetryMaxDelay.
Proof.
  revert delay. induction l as [|x l IH]; intros delay Hd; cbn [serve_loop]; [by intros ?%elem_of_nil|].
  destruct x as [taken|e waited].
  - destruct taken; [|by intros ?%elem_of_nil]. apply IH. by left.
  - destruct (NextAcceptDelay e delay acceptRetryMaxDelay) as [d' retry] eqn:E. destruct retry; [|by intros ?%elem_of_nil].
    pose proof (NextAcceptDelay_range e delay d' Hd E) as Hd'. destruct waited.
    + specialize (IH d' (or_intror Hd')). destruct (serve_loop d' l) as [ds r]. cbn [fst] in *.
      intros [->|Hin]%elem_of_cons; [done|by apply IH].
    + cbn [fst]. by intros ->%list_elem_of_singleton.
Qed.

(** ** The session group's invariant *)

Definition unfinished (x : Z * (nat * session_pc)) : Prop := snd (snd x) <> SDone.

#[export] Instance unfinished_dec x : Decision (unfinished x).
Proof. destruct x as [? [? []]]; cbv; (right; tauto) || (left; discriminate). Defined.

Definition unfinished_count (m : gmap Z (nat * session_pc)) : Z := Z.of_nat (size (filter unfinished m)).

Record group_inv (g : Group) : Prop := {
  gi_wg : g_wg g = unfinished_count (g_sessions g);
  gi_active : forall id, g_active g !! id = match g_sessions g !! id with Some (c, SRunning) => Some c | _ => None end;
  gi_fresh : 0 <= g_nextID g < 2 ^ 64 /\ forall id x, g_sessions g !! id = Some x -> id <= g_nextID g;
  gi_closed : forall k p, g_closes g !! k = Some p -> g_closed g = true;
  gi_cancelled : g_closed g = true -> g_cancelled g = true;
  gi_returned : forall k, g_closes g !! k = Some GReturned -> g_wg g = 0;
  gi_refused : forall c, c ∈ g_refused g -> c ∈ g_shut g;
  gi_shut : forall id c, g_closed g = true -> g_active g !! id = Some c ->
    c ∈ g_shut g \/ exists k l, g_closes g !! k = Some (GClosing l) /\ c ∈ l;
}.

Lemma unfinished_insert_new m id c : m !! id = None -> unfinished_count (<[id := (c, SRunning)]> m) = unfinished_count m + 1.
Proof.
  intros Hn. unfold unfinished_count. rewrite map_filter_insert_True by (cbv; discriminate).
  rewrite map_size_insert_None; [lia|]. apply map_lookup_filter_None. by left.
Qed.

Lemma unfinished_update m id c p p' : m !! id = Some (c, p) -> p <> SDone ->
  unfinished_count (<[id := (c, p')]> m) = unfinished_count m - (if bool_decide (p' = SDone) then 1 else 0).
Proof.
  intros Hm Hp. unfold unfinished_count.
  assert (Hf : filter unfinished m !! id = Some (c, p)) by by apply map_lookup_filter_Some.
  assert (Hs : (size (filter unfinished m) <> 0)%nat).
  { intros E%map_size_empty_inv. by rewrite E, lookup_empty in Hf. }
  case_bool_decide as Hd.
  - subst p'. rewrite map_filter_insert_False by (cbv; tauto). rewrite map_filter_delete, map_size_delete_Some by done. lia.
  - rewrite map_filter_insert_True by done. rewrite map_size_insert_Some by done. lia.
Qed.

Lemma unfinished_zero m id c p : unfinished_count m = 0 -> m !! id = Some (c, p) -> p = SDone.
Proof.
  unfold unfinished_count. intros H Hm. destruct (decide (p = SDone)) as [|Hp]; [done|].
  assert (Hf : filter unfinished m !! id = Some (c, p)) by by apply map_lookup_filter_Some.
  assert (E : filter unfinished m = ∅) by (apply map_size_empty_inv; lia). by rewrite E, lookup_empty in Hf.
Qed.

Lemma group_Start_ok c g : group_inv g -> g_nextID g + 1 < 2 ^ 64 -> group_inv (fst (group_Start c g)).
Proof.
  intros [] Hn. unfold group_Start. destruct (g_closed g) eqn:Hc; cbn [fst].
  - split; cbn; try done; try (intros; eauto; fail).
    + intros x [->|Hx]%elem_of_cons; apply elem_of_cons; [by left|right; by apply gi_refused0].
    + intros id x _ Hx. destruct (gi_shut0 id x eq_refl Hx) as [?|?]; [left; apply elem_of_cons; by right|by right].
  - destruct gi_fresh0 as [Hr Hf]. rewrite u64_small by lia.
    assert (Hnew : g_sessions g !! (g_nextID g + 1) = None).
    { destruct (g_sessions g !! (g_nextID g + 1)) eqn:E; [apply Hf in E; lia|done]. }
    split; cbn; try done.
    + by rewrite unfinished_insert_new, gi_wg0.
    + intros id. destruct (decide (id = g_nextID g + 1)) as [->|Hne]; [by rewrite !lookup_insert_eq|].
      by rewrite !lookup_insert_ne.
    + split; [lia|]. intros id x [[<- _]|[_ Hx]]%lookup_insert_Some; [lia|]. apply Hf in Hx. lia.
    + intros k Hk. apply gi_closed0 in Hk. congruence.
Qed.

Lemma session_delete_ok id g g' : group_inv g -> session_delete id g = Some g' -> group_inv g'.
Proof.
  intros [] H. unfold session_delete in H. destruct (g_sessions g !! id) as [[c []]|] eqn:Hs; try done. injection H as <-.
  split; cbn; try done.
  - rewrite (unfinished_update _ id c SRunning SDeleted) by done. rewrite bool_decide_eq_false_2 by done. lia.
  - intros i. destruct (decide (i = id)) as [->|Hne]; [by rewrite lookup_delete_eq, lookup_insert_eq|].
    by rewrite lookup_delete_ne, lookup_insert_ne.
  - destruct gi_fresh0 as [Hr Hf]. split; [done|]. intros i x [[<- _]|[_ Hx]]%lookup_insert_Some; eauto.
  - intros i x Hc [_ Hx]%lookup_delete_Some. by eapply gi_shut0.
Qed.

Lemma session_done_ok id g g' : group_inv g -> session_done id g = Some g' -> group_inv g'.
Proof.
  intros [] H. unfold session_done in H. destruct (g_sessions g !! id) as [[c []]|] eqn:Hs; try done. injection H as <-.
  assert (Hw : unfinished_count (g_sessions g) <> 0) by (intros E; by pose proof (unfinished_zero _ _ _ _ E Hs)).
  split; cbn; try done.
  - rewrite (unfinished_update _ id c SDeleted SDone) by done. rewrite bool_decide_eq_true_2 by done. lia.
  - intros i. destruct (decide (i = id)) as [->|Hne]; [by rewrite gi_active0, lookup_insert_eq, Hs|].
    by rewrite gi_active0, lookup_insert_ne.
  - destruct gi_fresh0 as [Hr Hf]. split; [done|]. intros i x [[<- _]|[_ Hx]]%lookup_insert_Some; eauto.
  - intros k Hk. apply gi_returned0 in Hk. congruence.
Qed.

Lemma group_Close_ok k g g' : group_inv g -> group_Close k g = Some g' -> group_inv g'.
Proof.
  intros [] H. unfold group_Close in H. destruct (g_closes g !! k) eqn:Hk; [done|]. destruct (g_closed g) eqn:Hc; injection H as <-.
  - split; cbn; try done.
    + intros k' [[_ [=]]|[_ Hp]]%lookup_insert_Some. eauto.
    + intros id c _ Ha. destruct (gi_shut0 id c eq_refl Ha) as [?|(k' & l & Hl & ?)]; [by left|right]. exists k', l.
      rewrite lookup_insert_ne; [done|congruence].
  - split; cbn; try done.
    + intros k' [[_ [=]]|[_ Hp]]%lookup_insert_Some. eauto.
    + intros id c _ Ha. right. eexists k, _. rewrite lookup_insert_eq. split; [done|].
      apply list_elem_of_fmap. exists (id, c). split; [done|]. by apply elem_of_map_to_list.
Qed.

Lemma group_Close_next_ok k g g' : group_inv g -> group_Close_next k g = Some g' -> group_inv g'.
Proof.
  intros [] H. unfold group_Close_next in H. destruct (g_closes g !! k) as [[[|c l]| |]|] eqn:Hk; try done.
  - injection H as <-. split; cbn; try done.
    + intros k' p [[<- _]|[_ Hp]]%lookup_insert_Some; eauto.
    + intros k' [[_ [=]]|[_ Hp]]%lookup_insert_Some. eauto.
    + intros id x Hc Ha. destruct (gi_shut0 id x Hc Ha) as [?|(k' & l & Hl & Hx)]; [by left|right].
      exists k', l. rewrite lookup_insert_ne; [done|]. intros <-. rewrite Hk in Hl. injection Hl as <-. by apply elem_of_nil in Hx.
  - injection H as <-. split; cbn; try done.
    + intros k' p [[<- _]|[_ Hp]]%lookup_insert_Some; eauto.
    + intros k' [[_ [=]]|[_ Hp]]%lookup_insert_Some. eauto.
    + intros x Hx. apply elem_of_cons. right. by apply gi_refused0.
    + intros id x Hc Ha. destruct (gi_shut0 id x Hc Ha) as [?|(k' & l' & Hl & Hx)]; [left; apply elem_of_cons; by right|].
      destruct (decide (k' = k)) as [->|Hne].
      * rewrite Hk in Hl. injection Hl as <-. apply elem_of_cons in Hx as [->|Hx]; [left; apply elem_of_cons; by left|].
        right. exists k, l. by rewrite lookup_insert_eq.
      * right. exists k', l'. by rewrite lookup_insert_ne.
  - destruct (Z.eqb_spec (g_wg g) 0) as [Hz|]; [|done]. injection H as <-. split; cbn; try done.
    + intros k' p [[<- _]|[_ Hp]]%lookup_insert_Some; eauto.
    + intros id x Hc Ha. destruct (gi_shut0 id x Hc Ha) as [?|(k' & l & Hl & Hx)]; [by left|right].
      exists k', l. rewrite lookup_insert_ne; [done|congruence].
Qed.

Lemma group_moves_ok g g' : group_moves g g' -> group_inv g -> group_inv g'.
Proof.
  intros [Hn [[] H]] Hi; cbn in H; [|eauto using session_delete_ok, session_done_ok, group_Close_ok, group_Close_next_ok..].
  injection H as <-. by apply group_Start_ok.
Qed.

Lemma new_group_ok : group_inv new_group.
Proof.
  split; cbn; try done; try by (intros *; rewrite lookup_empty). 
Qed.

Lemma group_reachable_ok g : group_reachable g -> group_inv g.
Proof. intros Hg. eapply (rtc_invariant group_moves group_inv); [exact group_moves_ok|exact Hg|exact new_group_ok]. Qed.

(** ** Properties *)

(** C39: The runner retries on schedule.  Whatever the attempts answer, the loop is
    the reference loop: it ends when the context is done, when an attempt ends well,
    is cancelled or fails for good; otherwise it waits, jittered, the initial delay
    doubled for every failure since the tunnel was last up and capped at the maximum.
    Every wait is between four fifths of the initial delay and the maximum, without
    overflow; and the delays between failed accepts stay between five milliseconds
    and one second. *)
Theorem runner_schedule r x turns
    (Hi : r_retryInitial r < 2 ^ 63) (Hm : r_retryMax r < 2 ^ 63) (Hx : x <> NotMade) :
  let b := newBackoff (r_retryInitial r) (r_retryMax r) in
  let ref := loop_ref (b_initial b) (b_max b) 0 turns in
  snd (run r x turns) = snd ref /\
  (exists rest, fst (run r x turns) = (RLoop <$> fst ref) ++ rest) /\
  (forall d, RLoop (LWait d) ∈ fst (run r x turns) -> b_initial b - b_initial b / 5 <= d <= b_max b) /\
  (forall l d, d ∈ fst (serve_loop 0 l) -> initialAcceptDelay <= d <= acceptRetryMaxDelay).
Proof.
  intros b ref. destruct (newBackoff_at (r_retryInitial r) (r_retryMax r) Hi Hm) as [Hb Hat].
  pose proof (run_loop_ref _ _ 0 _ 0 turns Hb Hat) as Hl. fold b in Hb, Hl. fold ref in Hl.
  assert (Hf : exists rest, fst (run r x turns) = (RLoop <$> fst ref) ++ rest /\ (forall e, RLoop e ∉ rest) /\ snd (run r x turns) = snd ref).
  { unfold run. fold b. rewrite Hl. destruct ref as [l stop]. destruct x; [| |done].
    all: destruct stop; [|exists []; rewrite app_nil_r; split_and!; [done|by intros ? ?%elem_of_nil|done]].
    all: eexists; split_and!; [reflexivity| |done]; intros e He; repeat case_match; set_solver. }
  destruct Hf as (rest & Hf & Hrest & Hs). split_and!; [done|by exists rest| |].
  - intros d. rewrite Hf, elem_of_app. intros [Hin|Hin]; [|by apply Hrest in Hin].
    apply list_elem_of_fmap in Hin as (e & [= <-] & Hin). by eapply loop_ref_waits.
  - intros l d. apply serve_loop_range. by left.
Qed.

(** Two failures, then a session that the engine ends for good. *)
Definition refused_attempt : attempt := MkAttempt None (Some plain_error) None None None true ServeCancelled.
Definition ended_attempt : attempt :=
  MkAttempt None None None None None true (ServeReturned (Some (MkError [] (Some (MkEngineError 1000 "denied")))) false).
Definition sample_turns : list turn :=
  [MkTurn false refused_attempt 0 true; MkTurn false refused_attempt 0 true; MkTurn false ended_attempt 0 true].

Lemma runner_schedule_witness :
  snd (run default_runner (Made true) sample_turns) = Some ByError /\
  forall d, RLoop (LWait d) ∈ fst (run default_runner (Made true) sample_turns) -> 800 * millisecond <= d <= 30 * second.
Proof.
  assert (Hi : r_retryInitial default_runner < 2 ^ 63) by (vm_compute; reflexivity).
  assert (Hm : r_retryMax default_runner < 2 ^ 63) by (vm_compute; reflexivity).
  destruct (runner_schedule default_runner (Made true) sample_turns Hi Hm ltac:(discriminate)) as (H1 & _ & H2 & _).
  split; [rewrite H1; vm_compute; reflexivity|exact H2].
Defined.

(** A runner gives back what it takes.  In every attempt, however far it gets,
    the client, the control channel and the tunnel that were opened are closed, in
    the opposite order; and a run that ends closes the transport it made, once, and
    then the session group. *)
Theorem runner_releases r x turns :
  (forall l, RLoop (LAttempt l) ∈ fst (run r x turns) -> nested [] l = true) /\
  (snd (run r x turns) <> None -> exists l, fst (run r x turns) =
     (RLoop <$> l) ++ match x with Made true => [RCloseTransport] | _ => [] end ++ [RCloseSessions]).
Proof.
  unfold run. pose proof (run_loop_attempts (newBackoff (r_retryInitial r) (r_retryMax r)) 0 turns) as Ha.
  destruct (run_loop _ _ turns) as [l stop]. cbn [fst] in Ha. split.
  - intros e. assert (Hin : RLoop (LAttempt e) ∈ RLoop <$> l -> nested [] e = true).
    { intros (y & [= <-] & Hy)%list_elem_of_fmap. by apply Ha. }
    destruct x as [|[]|], stop; cbn [fst]; rewrite ?elem_of_app, ?elem_of_cons, ?elem_of_nil; naive_solver.
  - destruct x as [| |]; [destruct stop; [by eexists|done]..|]. intros _. by exists [].
Qed.

(** Closing a session group waits for its sessions.  In every interleaving, when
    a [Close] has returned every session's goroutine has ended and nothing is
    active; from the first [Close] on the context is cancelled and a connection
    offered to [Start] is refused and closed; and once the closing calls have gone
    through their lists every session that still runs has had its connection closed. *)
Theorem session_group_close_waits (g : Group) (Hg : group_reachable g) :
  (forall k, g_closes g !! k = Some GReturned ->
     (forall id c p, g_sessions g !! id = Some (c, p) -> p = SDone) /\ g_active g = ∅) /\
  (g_closed g = true -> g_cancelled g = true /\
     (forall c, snd (group_Start c g) = false /\ c ∈ g_shut (fst (group_Start c g))) /\
     ((forall k l, g_closes g !! k <> Some (GClosing l)) ->
        forall id c, g_sessions g !! id = Some (c, SRunning) -> c ∈ g_shut g)).
Proof.
  destruct (group_reachable_ok g Hg). split.
  - intros k Hk. assert (Hz : unfinished_count (g_sessions g) = 0) by (rewrite <- gi_wg0; by eapply gi_returned0). split.
    + intros id c p. by apply unfinished_zero.
    + apply map_eq. intros id. rewrite gi_active0, lookup_empty. destruct (g_sessions g !! id) as [[c p]|] eqn:E; [|done].
      by rewrite (unfinished_zero _ _ _ _ Hz E).
  - intros Hc. split_and!; [by apply gi_cancelled0| |].
    + intros c. unfold group_Start. rewrite Hc. split; [done|]. apply elem_of_cons. by left.
    + intros Hno id c Hs. destruct (gi_shut0 id c Hc) as [?|(k & l & Hl & _)]; [by rewrite gi_active0, Hs|done|].
      by destruct (Hno k l).
Qed.

Fixpoint group_run (l : list group_action) (g : Group) : Group :=
  match l with
  | [] => g
  | a :: l => match group_step a g with Some g' => group_run l g' | None => g end
  end.

Fixpoint few_sessions (l : list group_action) (g : Group) : bool :=
  match l with
  | [] => true
  | a :: l => (g_nextID g + 1 <? 2 ^ 64) && match group_step a g with Some g' => few_sessions l g' | None => true end
  end.

Lemma group_run_moves l g : few_sessions l g = true -> rtc group_moves g (group_run l g).
Proof.
  revert g. induction l as [|a l IH]; intros g; [done|]. cbn [few_sessions group_run]. intros [Hn Hl]%andb_true_iff.
  destruct (group_step a g) as [g'|] eqn:E; [|done]. eapply rtc_l; [split; [lia|by exists a]|by apply IH].
Qed.

(** Two sessions, one of which ends before the group is closed. *)
Definition sample_group : Group :=
  group_run [GStart 10; GStart 11; GDelete 1; GDone 1; GClose 0; GCloseNext 0; GCloseNext 0; GDelete 2; GDone 2; GCloseNext 0]
    new_group.

Lemma session_group_close_waits_witness :
  g_closes sample_group !! 0%nat = Some GReturned /\ g_active sample_group = ∅ /\ g_shut sample_group = [11%nat].
Proof.
  assert (Hr : g_closes sample_group !! 0%nat = Some GReturned) by (vm_compute; reflexivity).
  split; [exact Hr|]. split; [|vm_compute; reflexivity].
  destruct (session_group_close_waits sample_group) as [H _].
  - apply group_run_moves. vm_compute. reflexivity.
  - apply (H 0%nat Hr).
Defined.
