(* ===== verification/Uploads.v ===== *)
(** * Uploads: durable uploads of the file system service
    ([filesystem/preconditions.go], [receipts.go], [atomic_upload.go])

    A PUT with an [Upload-Id] runs under the mutation lock of the export.  It writes a
    pending record to the journal, streams the body to a temporary file, records that
    it is prepared, renames the file over the target and publishes a terminal receipt.
    Whoever takes the lock next first recovers what a crash left behind.

    The model has one lock holder at a time, whose program counter says which operation
    on the disk is next.  Each operation is one step of the world and may fail, with or
    without having taken effect; the process may crash between any two, which loses its
    memory, releases the lock and keeps the files; other processes may change public
    files at any time.  Journal files hold records, since [writeJournalFile] replaces
    them atomically.  [w_effects] is a ghost list of the renames of uploads over their
    targets, with the data.  An operation that has returned is durable: the loss of
    directory entries that were not synced is not modelled, nor are the time stamps of
    receipts.  SHA-256, the digest of a request and the path policy are parameters. *)

From S2P Require Import Prelude GoStrings.

(** ** Conditions on revisions *)

Definition dquote : byte := x22.

(** The loop of [matchRevision]; every round consumes a tag. *)
Fixpoint match_loop (fuel : nat) (value revision : list byte) (exists_ weakAllowed matched : bool) : bool * bool :=
  match fuel with
  | O => (false, false)
  | S fuel =>
      if bool_decide (value = []) then (false, false)
      else
        let weak := has_prefix (s2b "W/") value in
        let value := if weak then drop 2 value else value in
        if (length value <? 2)%nat || negb (has_prefix [dquote] value) then (false, false)
        else match index_byte dquote (drop 1 value) with
             | None => (false, false)
             | Some i =>
                 let end_ := (i + 1)%nat in
                 if existsb (fun c => (b2z c <? 33) || (b2z c =? 127)) (take i (drop 1 value)) then (false, false)
                 else
                   let matched := matched || exists_ && (negb weak || weakAllowed) && bool_decide (take (end_ + 1) value = revision) in
                   let value := trim_space (drop (end_ + 1) value) in
                   match value with
                   | [] => (matched, true)
                   | c :: value =>
                       if negb (byte_eqb c x2c) then (false, false)
                       else
                         let value := trim_space value in
                         if bool_decide (value = []) then (false, false)
                         else match_loop fuel value revision exists_ weakAllowed matched
                   end
             end
  end.

Definition matchRevision (value revision : string) (exists_ weakAllowed : bool) : bool * bool :=
  let v := trim_space (s2b value) in
  if bool_decide (v = s2b "*") then (exists_, true)
  else match_loop (S (length v)) v (s2b revision) exists_ weakAllowed false.

Definition StatusBadRequest : Z := 400.
Definition StatusForbidden : Z := 403.
Definition StatusRequestTimeout : Z := 408.
Definition StatusPreconditionFailed : Z := 412.
Definition StatusInternalServerError : Z := 500.
Definition StatusServiceUnavailable : Z := 503.
Definition StatusCreated : Z := 201.
Definition StatusNotFound : Z := 404.
Definition StatusConflict : Z := 409.
Definition StatusRequestEntityTooLarge : Z := 413.
Definition StatusUnprocessableEntity : Z := 422.

(** [loadRevision] is the revision of the existing file, or an error. *)
Definition checkRevisionConditions (exists_ : bool) (match_ none : string) (loadRevision : option string) : Z :=
  let invalid c := negb (bool_decide (c = "")) && negb (snd (matchRevision c "" exists_ true)) in
  let needs c := negb (bool_decide (c = "")) && negb (bool_decide (TrimSpace c = "*")) in
  if invalid match_ || invalid none then StatusBadRequest
  else
    let revision := if exists_ && (needs match_ || needs none) then loadRevision else Some "" in
    match revision with
    | None => StatusServiceUnavailable
    | Some revision =>
        let '(matched, valid) := matchRevision match_ revision exists_ false in
        if negb (bool_decide (match_ = "")) && negb valid then StatusBadRequest
        else if negb (bool_decide (match_ = "")) && negb matched then StatusPreconditionFailed
        else
          let '(matched, valid) := matchRevision none revision exists_ true in
          if negb (bool_decide (none = "")) && negb valid then StatusBadRequest
          else if negb (bool_decide (none = "")) && matched then StatusPreconditionFailed
          else 0
    end.

(** [checkConditions]: [stat] is whether the target exists, [None] when that fails. *)
Definition checkConditions (match_ none : string) (stat : option bool) (loadRevision : option string) : Z :=
  if bool_decide (match_ = "") && bool_decide (none = "") then 0
  else match stat with
       | None => StatusForbidden
       | Some exists_ => checkRevisionConditions exists_ match_ none loadRevision
       end.

Example condition_star : matchRevision " * " "" false false = (false, true).
Proof. reflexivity. Qed.

(** ** Lists of entity tags *)

Definition quoted (b : list byte) : list byte := dquote :: b ++ [dquote].

(** A tag, weak or not, and a header that lists tags. *)
Definition render_tag (t : bool * list byte) : list byte := (if t.1 then s2b "W/" else []) ++ quoted t.2.

Definition tags_header (l : list (bool * list byte)) : list byte := join_bytes (s2b ", ") (render_tag <$> l).

Definition tag_byte (c : byte) : bool := negb ((b2z c <? 33) || (b2z c =? 127)) && negb (byte_eqb c dquote).

Definition tag_ok (t : bool * list byte) : Prop := forallb tag_byte t.2 = true.

Definition tag_matches (rev : list byte) (weakAllowed : bool) (t : bool * list byte) : bool :=
  (negb t.1 || weakAllowed) && bool_decide (quoted t.2 = rev).

Lemma trim_space_closed c r p :
  c = dquote \/ c = x57 \/ c = x2c -> c :: r = p ++ [dquote] -> trim_space (c :: r) = c :: r.
Proof.
  intros Hc Hp. unfold trim_space, trim_right, trim_left.
  rewrite trim_with_noop; [|destruct Hc as [->|[->| ->]]; done..].
  rewrite Hp, rev_app_distr. cbn [rev app]. rewrite trim_with_noop.
  - cbn [rev]. by rewrite rev_involutive.
  - done.
  - intros b1 r2 _. unfold space2. by rewrite andb_false_r.
  - intros b1 b2 r3 _. unfold space3. cbn. by rewrite !andb_false_r.
Qed.

Lemma tags_header_cons t t' l : tags_header (t :: t' :: l) = render_tag t ++ x2c :: x20 :: tags_header (t' :: l).
Proof. reflexivity. Qed.

Lemma render_tag_end t : exists p, render_tag t = p ++ [dquote].
Proof. exists ((if t.1 then s2b "W/" else []) ++ dquote :: t.2). unfold render_tag, quoted. by rewrite <- app_assoc. Qed.

Lemma tags_header_end t l : exists p, tags_header (t :: l) = p ++ [dquote].
Proof.
  revert t. induction l as [|t' l IH]; intros t; [apply render_tag_end|]. destruct (IH t') as [p Hp].
  exists (render_tag t ++ x2c :: x20 :: p). by rewrite tags_header_cons, Hp, <- app_assoc.
Qed.

Lemma render_tag_start t rest : exists c r, render_tag t ++ rest = c :: r /\ (c = dquote \/ c = x57).
Proof. unfold render_tag. destruct t as [[] b]; cbn [fst app]; [exists x57|exists dquote]; eexists; (split; [reflexivity|auto]). Qed.

Lemma trim_tags_header t l : trim_space (tags_header (t :: l)) = tags_header (t :: l).
Proof.
  destruct (tags_header_end t l) as [p Hp].
  assert (Hs : exists c r, tags_header (t :: l) = c :: r /\ (c = dquote \/ c = x57)).
  { destruct l; [|apply render_tag_start]. destruct (render_tag_start t []) as (c & r & He & Hc).
    rewrite app_nil_r in He. by exists c, r. }
  destruct Hs as (c & r & He & Hc). rewrite He in *. apply (trim_space_closed c r p); [|done]. by destruct Hc; auto.
Qed.

Lemma trim_more_tags t l : trim_space (x2c :: x20 :: tags_header (t :: l)) = x2c :: x20 :: tags_header (t :: l).
Proof.
  destruct (tags_header_end t l) as [p Hp]. apply (trim_space_closed _ _ (x2c :: x20 :: p)); [auto|]. by rewrite Hp.
Qed.

Lemma index_quote b rest : forallb tag_byte b = true -> index_byte dquote (b ++ dquote :: rest) = Some (length b).
Proof.
  induction b as [|c b IH]; [done|]. intros [Hc Hb]%andb_prop. apply andb_prop in Hc as [_ Hc%negb_true_iff].
  cbn. by rewrite Hc, (IH Hb).
Qed.

Lemma tag_bytes_clean b : forallb tag_byte b = true -> existsb (fun c => (b2z c <? 33) || (b2z c =? 127)) b = false.
Proof.
  induction b as [|c b IH]; [done|]. intros [Hc Hb]%andb_prop. apply andb_prop in Hc as [Hc%negb_true_iff _].
  cbn. by rewrite Hc, (IH Hb).
Qed.

(** One round of the loop reads one tag. *)
Lemma match_loop_tag fuel t rest rev ex weak m :
  tag_ok t ->
  match_loop (S fuel) (render_tag t ++ rest) rev ex weak m =
    let m := m || ex && tag_matches rev weak t in
    match trim_space rest with
    | [] => (m, true)
    | c :: value =>
        if negb (byte_eqb c x2c) then (false, false)
        else let value := trim_space value in
             if bool_decide (value = []) then (false, false) else match_loop fuel value rev ex weak m
    end.
Proof.
  intros Hok. destruct t as [wk b]. unfold tag_ok in Hok. cbn [snd] in Hok.
  assert (Hlen : (length b + 1 + 1)%nat = S (length (b ++ [dquote]))) by (rewrite length_app; cbn; lia).
  assert (Hbody : forall v, v = dquote :: b ++ dquote :: rest ->
    (length v <? 2)%nat || negb (has_prefix [dquote] v) = false /\ index_byte dquote (drop 1 v) = Some (length b) /\
    take (length b) (drop 1 v) = b /\ take (length b + 1 + 1) v = quoted b /\ drop (length b + 1 + 1) v = rest).
  { intros v ->. split_and!.
    - cbn. rewrite length_app. cbn. destruct (length b + S (length rest))%nat eqn:E; [lia|done].
    - by apply index_quote.
    - change (take (length b) (b ++ dquote :: rest) = b). apply take_app_length.
    - rewrite Hlen. change (dquote :: take (length (b ++ [dquote])) (b ++ [dquote] ++ rest) = quoted b).
      by rewrite app_assoc, take_app_length.
    - rewrite Hlen. change (drop (length (b ++ [dquote])) (b ++ [dquote] ++ rest) = rest). by rewrite app_assoc, drop_app_length. }
  assert (Hq : quoted b ++ rest = dquote :: b ++ dquote :: rest) by (unfold quoted; cbn; by rewrite <- app_assoc).
  destruct (Hbody _ eq_refl) as (H1 & H2 & H3 & H4 & H5). unfold render_tag, tag_matches. cbn [fst snd].
  rewrite <- app_assoc, Hq. cbn [match_loop]. destruct wk; cbn [app].
  - rewrite bool_decide_eq_false_2 by done.
    change (has_prefix (s2b "W/") (s2b "W/" ++ dquote :: b ++ dquote :: rest)) with true. cbv iota zeta.
    change (drop 2 (s2b "W/" ++ dquote :: b ++ dquote :: rest)) with (dquote :: b ++ dquote :: rest).
    rewrite H1, H2, H3, (tag_bytes_clean b Hok), H4, H5. cbn [negb orb]. by rewrite andb_assoc.
  - rewrite bool_decide_eq_false_2 by done.
    change (has_prefix (s2b "W/") (dquote :: b ++ dquote :: rest)) with false. cbv iota zeta.
    rewrite H1, H2, H3, (tag_bytes_clean b Hok), H4, H5. cbn [negb orb]. by rewrite andb_assoc.
Qed.

Lemma match_loop_tags fuel l rev ex weak m :
  l <> [] -> (length l <= fuel)%nat -> Forall tag_ok l ->
  match_loop fuel (tags_header l) rev ex weak m = (m || ex && existsb (tag_matches rev weak) l, true).
Proof.
  revert fuel m. induction l as [|t l IH]; intros fuel m Hne Hf Hok; [done|].
  apply Forall_cons in Hok as [Ht Hl]. destruct fuel as [|fuel]; [cbn in Hf; lia|]. destruct l as [|t' l].
  - change (tags_header [t]) with (render_tag t). rewrite <- (app_nil_r (render_tag t)), match_loop_tag by done.
    cbn. by rewrite orb_false_r.
  - rewrite tags_header_cons, match_loop_tag by done. rewrite trim_more_tags. cbv zeta.
    change (negb (byte_eqb x2c x2c)) with false. cbv iota.
    change (trim_space (x20 :: tags_header (t' :: l))) with (trim_space (tags_header (t' :: l))). rewrite trim_tags_header.
    rewrite bool_decide_eq_false_2 by (destruct (tags_header_end t' l) as [p ->]; by destruct p).
    rewrite IH by (done || (cbn in Hf |- *; lia)). cbn [existsb]. by rewrite <- orb_assoc, <- andb_orb_distrib_r.
Qed.

Lemma tags_header_length l : (length l <= length (tags_header l))%nat.
Proof.
  induction l as [|t l IH]; [cbn; lia|]. destruct (render_tag_end t) as [p Hp].
  destruct l as [|t' l]; [change (tags_header [t]) with (render_tag t)|rewrite tags_header_cons]; rewrite Hp, !length_app; cbn in *; lia.
Qed.

(** A condition that lists entity tags, separated by commas, is valid, and holds of an
    existing file exactly when one of the tags it lists is its revision, a weak tag only
    where weak comparison is allowed; [*] holds of any existing file. *)
Theorem revision_conditions l revision ex weak :
  (l <> [] -> Forall tag_ok l ->
   matchRevision (b2s (tags_header l)) revision ex weak = (ex && existsb (tag_matches (s2b revision) weak) l, true)) /\
  matchRevision "*" revision ex weak = (ex, true).
Proof.
  split; [|done]. intros Hne Hok. unfold matchRevision. rewrite s2b_b2s.
  assert (Ht : trim_space (tags_header l) = tags_header l) by (destruct l; [done|apply trim_tags_header]).
  rewrite Ht, bool_decide_eq_false_2.
  - rewrite match_loop_tags; [done..| |done]. pose proof (tags_header_length l). lia.
  - destruct l as [|t l]; [done|]. destruct (tags_header_end t l) as [p Hp]. rewrite Hp.
    destruct p as [|x [|y p]]; done.
Qed.

Lemma revision_conditions_witness :
  let header := tags_header [(true, s2b "a"); (false, s2b "sha256-b")] in
  matchRevision (b2s header) (b2s (quoted (s2b "sha256-b"))) true false = (true, true) /\
  matchRevision (b2s header) (b2s (quoted (s2b "a"))) true false = (false, true).
Proof.
  split; rewrite (proj1 (revision_conditions [(true, s2b "a"); (false, s2b "sha256-b")] _ _ _)); try done; repeat constructor.
Defined.

(** ** Names *)

Definition uploadPrefix : string := ".rstream-upload-".

Definition privateUploadPath (name : string) : bool :=
  existsb (fun part => HasPrefix (ToLower part) uploadPrefix) (Split name x2f).

(** [filepath.Base] of a clean path starts with [uploadPrefix]. *)
Definition staged (name : string) : bool :=
  match last (Split name x2f) with Some base => HasPrefix base uploadPrefix | None => false end.

Definition id_byte (c : byte) : bool :=
  byte_in 97 122 c || byte_in 65 90 c || byte_in 48 57 c || byte_eqb c x2d || byte_eqb c x5f.

Definition validUploadID (id : string) : bool :=
  (16 <=? slen id) && (slen id <=? 128) && forallb id_byte (s2b id).

(** ** The journal and the files *)

Record file := MkFile { f_data : list byte; f_ino : nat }.

Inductive receipt_state := Receiving | Prepared | Committed | Rejected | Interrupted | Uncertain.

Record receiptRecord := MkReceipt {
  rr_ID : string;
  rr_Path : string;
  rr_State : receipt_state;
  rr_Status : Z;
  rr_Size : string;
  rr_SHA256 : string;
  rr_Revision : string;
  rr_Fingerprint : string;
  rr_Target : string;
  rr_Temporary : string;                  (* empty: none *)
  rr_FileIdentity : option nat;
}.

(** What a PUT carries; [up_Digest] is the decoded [Content-Digest], if it is valid. *)
Record upload := MkUpload {
  up_ID : string;
  up_Length : string;
  up_ContentLength : Z;
  up_Digest : option (list byte);
  up_Name : string;
  up_IfMatch : string;
  up_IfNoneMatch : string;
}.

Inductive reply := RReceipt (r : receiptRecord) | RError (status : Z).

(** The lock holder, before the operation named; [n] is [expectedSize]. *)
Inductive pc :=
| PRecover (q : upload)                                             (* read [pendingReceipt] *)
| PResolve (q : upload) (r : receiptRecord) (st : receipt_state)    (* write the receipt of a recovery *)
| PForget (q : upload)                                              (* remove [pendingReceipt] after it *)
| PReady (q : upload)                                               (* recovered; look for a prior receipt *)
| PBegin (q : upload) (r : receiptRecord) (n : Z)
| PCheck (q : upload) (r : receiptRecord) (n : Z)
| POpen (q : upload) (r : receiptRecord) (n : Z)
| PRecord (q : upload) (r : receiptRecord) (n : Z) (target tmp : string)
| PStream (q : upload) (r : receiptRecord) (n : Z) (target tmp : string)
| PPrepare (q : upload) (r : receiptRecord) (target tmp : string)
| PRename (q : upload) (r : receiptRecord) (target tmp : string)
| PSync (q : upload) (r : receiptRecord)                            (* sync the directory of the target *)
| PAbort (q : upload) (r : receiptRecord) (tmp : string) (status : Z)   (* remove the temporary file *)
| PComplete (q : upload) (r : receiptRecord) (st : receipt_state) (status : Z)
| PClear (q : upload) (r : receiptRecord).                          (* remove [pendingReceipt], reply *)

Record world := MkWorld {
  w_files : gmap string file;
  w_pending : option receiptRecord;
  w_receipts : gmap string receiptRecord;
  w_inode : nat;
  w_writer : option pc;
  w_effects : list (string * list byte);
  w_replies : list (string * reply);
}.

Definition set_pc (p : pc) (w : world) : world := {| w with w_writer := Some p |}.
Definition set_pending (r : receiptRecord) (w : world) : world := {| w with w_pending := Some r |}.
Definition remove_file (name : string) (w : world) : world := {| w with w_files := delete name (w_files w) |}.

(** The request is answered and the lock released. *)
Definition answer (q : upload) (a : reply) (w : world) : world :=
  {| w with w_writer := None; w_replies := (up_ID q, a) :: w_replies w |}.

(** How the body ended, as [uploadBody] recorded it. *)
Inductive body_end := BodyComplete | BodyCut | BodyError | BodyTooLarge | BodyCancelled.

(** What the environment decides for one operation: whether it fails, and whether it
    took effect all the same; the status the WebDAV handler or [journalError] gives an
    error; a chunk of the body and whether more follows; how the body ended, whether a
    write failed; the random name; the resolved target; whether the target could be
    examined and its revision. *)
Record answers := MkAnswers {
  an_fails : bool; an_lands : bool; an_status : Z;
  an_chunk : list byte; an_more : bool; an_end : body_end; an_write_err : bool;
  an_name : string; an_target : string; an_stat : bool; an_revision : option string;
}.

Section Uploads.
Context (digest : list byte -> list byte).
Context (fingerprint : list string -> string).
Context (lexical : string -> option string).

Definition hex (l : list byte) : string := b2s (hex_encode l).
Definition revision_of (sha : string) : string := b2s ([dquote] ++ s2b "sha256-" ++ s2b sha ++ [dquote]).
Definition digestRevision (d : list byte) : string := revision_of (hex d).

(** [newReceipt], with [expectedSize]. *)
Definition newReceipt (q : upload) : option (receiptRecord * Z) :=
  match up_Digest q with
  | None => None
  | Some hash =>
      if negb (validUploadID (up_ID q)) then None
      else match Atoi (up_Length q) with
           | None => None
           | Some n =>
               if (n <? 0) || negb (bool_decide (Itoa n = up_Length q)) || (up_ContentLength q >=? 0) && negb (n =? up_ContentLength q)
               then None
               else match lexical (up_Name q) with
                    | None => None
                    | Some relative =>
                        let identity := ["PUT"; relative; up_Length q; hex hash; up_IfMatch q; up_IfNoneMatch q] in
                        Some (MkReceipt (up_ID q) relative Receiving 0 (up_Length q) (hex hash) "" (fingerprint identity) "" "" None, n)
                    end
           end
  end.

(** ** Recovery *)

(** Whether the target holds what the record prepared. *)
Definition target_matches (r : receiptRecord) (w : world) : bool :=
  match w_files w !! rr_Target r with
  | None => false
  | Some f => bool_decide (rr_FileIdentity r = Some (f_ino f)) &&
              bool_decide (digestRevision (digest (f_data f)) = revision_of (rr_SHA256 r)) &&
              bool_decide (Itoa (Z.of_nat (length (f_data f))) = rr_Size r)
  end.

(** [recoverReceipt] up to the terminal receipt. *)
Definition recoverReceipt (q : upload) (w : world) : world :=
  let refuse := answer q (RError StatusServiceUnavailable) w in
  match w_pending w with
  | None => set_pc (PReady q) w
  | Some r =>
      match w_receipts w !! rr_ID r with
      | Some t => if bool_decide (rr_Fingerprint t = rr_Fingerprint r) then set_pc (PForget q) w else refuse
      | None =>
          if negb (bool_decide (rr_Temporary r = "")) && negb (staged (rr_Temporary r)) then refuse
          else match rr_State r with
               | Receiving =>
                   set_pc (PResolve q r Interrupted)
                     (if bool_decide (rr_Temporary r = "") then w else remove_file (rr_Temporary r) w)
               | Prepared =>
                   if negb (staged (rr_Temporary r)) then refuse
                   else match w_files w !! rr_Temporary r with
                        | Some _ => set_pc (PResolve q r Interrupted) (remove_file (rr_Temporary r) w)
                        | None => set_pc (PResolve q r (if target_matches r w then Committed else Uncertain)) w
                        end
               | _ => refuse
               end
      end
  end.

Definition recovery_status (st : receipt_state) : Z :=
  match st with Committed => StatusCreated | Uncertain => StatusServiceUnavailable | _ => StatusRequestTimeout end.

(** [completeReceipt]: the record, and its first half, which writes it. *)
Definition terminal (r : receiptRecord) (st : receipt_state) (status : Z) : receiptRecord :=
  {| r with rr_State := st; rr_Status := status;
            rr_Revision := match st with Committed => revision_of (rr_SHA256 r) | _ => rr_Revision r end |}.

Definition write_terminal (r : receiptRecord) (w : world) : world :=
  {| w with w_receipts := <[rr_ID r := r]> (w_receipts w) |}.

(** The second half: the pending record is removed. *)
Definition clear_pending (w : world) : world := {| w with w_pending := None |}.

(** ** The request *)

(** The prior receipt answers a request that repeats an identity. *)
Definition find_prior (q : upload) (w : world) : world :=
  match newReceipt q with
  | None => answer q (RError StatusBadRequest) w
  | Some (r, n) =>
      match w_receipts w !! rr_ID r with
      | Some prior =>
          match lexical (rr_Target prior) with
          | None => answer q (RError StatusNotFound) w
          | Some _ =>
              if bool_decide (rr_Fingerprint prior = rr_Fingerprint r) then answer q (RReceipt prior) w
              else answer q (RError StatusConflict) w
          end
      | None => set_pc (PBegin q r n) w
      end
  end.

Definition beginReceipt (a : answers) (q : upload) (r : receiptRecord) (n : Z) (w : world) : world :=
  let r := {| r with rr_Target := an_target a |} in
  if an_fails a then answer q (RError (an_status a)) (if an_lands a then set_pending r w else w)
  else set_pc (PCheck q r n) (set_pending r w).

Definition check_request (a : answers) (q : upload) (r : receiptRecord) (n : Z) (w : world) : world :=
  let stat := if an_stat a then Some (bool_decide (is_Some (w_files w !! an_target a))) else None in
  let status := checkConditions (up_IfMatch q) (up_IfNoneMatch q) stat (an_revision a) in
  if status =? 0 then set_pc (POpen q r n) w else set_pc (PComplete q r Rejected status) w.

(** The status of the response that was captured. *)
Definition captured_status (status : Z) : Z := if status =? 0 then StatusInternalServerError else status.

(** [OpenFile]: the temporary file must be new.  It fails before it is created, or after
    (the mode), when it is removed. *)
Definition open_temporary (a : answers) (q : upload) (r : receiptRecord) (n : Z) (w : world) : world :=
  let created := {| w with w_files := <[an_name a := MkFile [] (w_inode w)]> (w_files w); w_inode := S (w_inode w) |} in
  match w_files w !! an_name a with
  | Some _ => set_pc (PComplete q r Rejected (captured_status (an_status a))) w
  | None =>
      if negb (an_fails a) then set_pc (PRecord q r n (an_target a) (an_name a)) created
      else if an_lands a then set_pc (PAbort q r (an_name a) (captured_status (an_status a))) created
      else set_pc (PComplete q r Rejected (captured_status (an_status a))) w
  end.

Definition record_temporary (a : answers) (q : upload) (r : receiptRecord) (n : Z) (target tmp : string) (w : world) : world :=
  let r := {| r with rr_Temporary := tmp |} in
  if an_fails a then set_pc (PAbort q r tmp StatusServiceUnavailable) (if an_lands a then set_pending r w else w)
  else set_pc (PStream q r n target tmp) (set_pending r w).

(** [validate]: the status of the refusal.  [expected] is the hash of the request. *)
Definition validate (e : body_end) (n : Z) (expected : option (list byte)) (data : list byte) : option Z :=
  match e with
  | BodyCancelled => Some StatusRequestTimeout
  | BodyTooLarge => Some StatusRequestEntityTooLarge
  | BodyError => Some StatusBadRequest
  | BodyCut => Some StatusBadRequest
  | BodyComplete =>
      if (n >=? 0) && negb (Z.of_nat (length data) =? n) then Some StatusBadRequest
      else match expected with
           | Some hash => if bool_decide (hash = digest data) then None else Some StatusUnprocessableEntity
           | None => None
           end
  end.

(** A write of the body; after the last, [Close] up to the prepared record. *)
Definition stream (a : answers) (q : upload) (r : receiptRecord) (n : Z) (target tmp : string) (w : world) : world :=
  match w_files w !! tmp with
  | None => set_pc (PAbort q r tmp StatusInternalServerError) w
  | Some f =>
      let f := {| f with f_data := f_data f ++ an_chunk a |} in
      let w := {| w with w_files := <[tmp := f]> (w_files w) |} in
      if an_write_err a then set_pc (PAbort q r tmp StatusInternalServerError) w
      else if an_more a then set_pc (PStream q r n target tmp) w
      else match validate (an_end a) n (up_Digest q) (f_data f) with
           | Some status => set_pc (PAbort q r tmp status) w
           | None =>
               if an_fails a then set_pc (PAbort q r tmp (an_status a)) w
               else set_pc (PPrepare q {| r with rr_FileIdentity := Some (f_ino f) |} target tmp) w
           end
  end.

Definition prepare (a : answers) (q : upload) (r : receiptRecord) (target tmp : string) (w : world) : world :=
  let r := {| r with rr_State := Prepared; rr_Target := target; rr_Temporary := tmp |} in
  if an_fails a then set_pc (PAbort q r tmp StatusServiceUnavailable) (if an_lands a then set_pending r w else w)
  else set_pc (PRename q r target tmp) (set_pending r w).

Definition rename (a : answers) (q : upload) (r : receiptRecord) (target tmp : string) (w : world) : world :=
  match w_files w !! tmp with
  | None => set_pc (PAbort q r tmp StatusInternalServerError) w
  | Some f =>
      if an_fails a then set_pc (PAbort q r tmp StatusInternalServerError) w
      else set_pc (PSync q r)
             {| w with w_files := <[target := f]> (delete tmp (w_files w)); w_effects := (up_ID q, f_data f) :: w_effects w |}
  end.

(** A failed removal leaves the temporary file behind. *)
Definition abort_upload (a : answers) (q : upload) (r : receiptRecord) (tmp : string) (status : Z) (w : world) : world :=
  set_pc (PComplete q r Rejected status) (if an_fails a then w else remove_file tmp w).

Definition completeReceipt (a : answers) (q : upload) (r : receiptRecord) (st : receipt_state) (status : Z) (w : world) : world :=
  let r := terminal r st status in
  if an_fails a then answer q (RError StatusServiceUnavailable) (if an_lands a then write_terminal r w else w)
  else set_pc (PClear q r) (write_terminal r w).

Definition clear_receipt (a : answers) (q : upload) (r : receiptRecord) (w : world) : world :=
  if an_fails a then answer q (RError StatusServiceUnavailable) (if an_lands a then clear_pending w else w)
  else answer q (RReceipt r) (clear_pending w).

(** One operation of the lock holder. *)
Definition advance (a : answers) (w : world) : option world :=
  match w_writer w with
  | None => None
  | Some p => Some
      match p with
      | PRecover q => if an_fails a then answer q (RError StatusServiceUnavailable) w else recoverReceipt q w
      | PResolve q r st =>
          let t := terminal r st (recovery_status st) in
          if an_fails a then answer q (RError StatusServiceUnavailable) (if an_lands a then write_terminal t w else w)
          else set_pc (PForget q) (write_terminal t w)
      | PForget q =>
          if an_fails a then answer q (RError StatusServiceUnavailable) (if an_lands a then clear_pending w else w)
          else set_pc (PReady q) (clear_pending w)
      | PReady q => if an_fails a then answer q (RError StatusServiceUnavailable) w else find_prior q w
      | PBegin q r n => beginReceipt a q r n w
      | PCheck q r n => check_request a q r n w
      | POpen q r n => open_temporary a q r n w
      | PRecord q r n target tmp => record_temporary a q r n target tmp w
      | PStream q r n target tmp => stream a q r n target tmp w
      | PPrepare q r target tmp => prepare a q r target tmp w
      | PRename q r target tmp => rename a q r target tmp w
      | PSync q r =>
          if an_fails a then answer q (RError StatusServiceUnavailable) w else set_pc (PComplete q r Committed StatusCreated) w
      | PAbort q r tmp status => abort_upload a q r tmp status w
      | PComplete q r st status => completeReceipt a q r st status w
      | PClear q r => clear_receipt a q r w
      end
  end.

(** [serveReceipt] without the lock: the receipt, else the pending record, else the
    receipt again, each read in the world of its time. *)
Definition find_receipt (id : string) (w1 w2 w3 : world) : option receiptRecord :=
  match w_receipts w1 !! id with
  | Some r => Some r
  | None =>
      match w_pending w2 with
      | Some r => if bool_decide (rr_ID r = id) then Some r else w_receipts w3 !! id
      | None => w_receipts w3 !! id
      end
  end.

Definition serveReceipt (id name : string) (w1 w2 w3 : world) : reply :=
  if negb (validUploadID id) then RError StatusBadRequest
  else match lexical name with
       | None => RError StatusNotFound
       | Some relative =>
           match find_receipt id w1 w2 w3 with
           | None => RError StatusNotFound
           | Some r =>
               if bool_decide (rr_Path r = relative) && bool_decide (is_Some (lexical (rr_Path r))) && bool_decide (is_Some (lexical (rr_Target r)))
               then RReceipt r else RError StatusNotFound
           end
       end.

(** ** Interleavings, crashes and other processes *)

Inductive action :=
| DoPut (q : upload)                                    (* take the lock *)
| DoAdvance (a : answers)
| DoMutate (files : gmap string file) (inode : nat)     (* another request, after its recovery *)
| DoOutside (files : gmap string file) (inode : nat)    (* another process *)
| DoCrash.

Definition step (a : action) (w : world) : option world :=
  match a with
  | DoPut q => match w_writer w with None => Some (set_pc (PRecover q) w) | Some _ => None end
  | DoAdvance a => advance a w
  | DoMutate files inode =>
      match w_writer w with
      | Some (PReady _) => Some {| w with w_files := files; w_inode := inode; w_writer := None |}
      | _ => None
      end
  | DoOutside files inode => Some {| w with w_files := files; w_inode := inode |}
  | DoCrash => Some {| w with w_writer := None |}
  end.

(** A temporary file has one name. *)
Definition inodes_ok (files : gmap string file) (n : nat) : Prop :=
  (forall p f, files !! p = Some f -> (f_ino f < n)%nat) /\
  (forall p p' f f', staged p = true -> files !! p = Some f -> files !! p' = Some f' -> f_ino f = f_ino f' -> p = p').

(** Other processes leave temporary files alone, and do not give them public names. *)
Definition outside_ok (w : world) (files : gmap string file) : Prop :=
  (forall p, staged p = true -> files !! p = w_files w !! p) /\
  (forall p f, staged p = false -> files !! p = Some f ->
     (w_inode w <= f_ino f)%nat \/ exists p' f', staged p' = false /\ w_files w !! p' = Some f' /\ f_ino f' = f_ino f).

(** [resolve] gives public names ([allowed]), and temporary names are private. *)
Definition admissible (a : action) (w : world) : Prop :=
  match a with
  | DoAdvance a => staged (an_name a) = true /\ privateUploadPath (an_target a) = false
  | DoMutate files inode => inodes_ok files inode /\ (w_inode w <= inode)%nat
  | DoOutside files inode => inodes_ok files inode /\ (w_inode w <= inode)%nat /\ outside_ok w files
  | DoPut _ | DoCrash => True
  end.

Definition moves (w w' : world) : Prop := exists a, admissible a w /\ step a w = Some w'.

Definition new_world (files : gmap string file) (inode : nat) : world := MkWorld files None ∅ inode None [] [].

Definition reachable (w : world) : Prop :=
  exists files inode, inodes_ok files inode /\ rtc moves (new_world files inode) w.

(** ** The invariant *)

Definition happened (w : world) (id : string) : Prop := id ∈ (w_effects w).*1.

(** Data as a record declares it. *)
Definition declared (r : receiptRecord) (data : list byte) : Prop :=
  hex (digest data) = rr_SHA256 r /\ Itoa (Z.of_nat (length data)) = rr_Size r.

Definition effect_of (w : world) (r : receiptRecord) : Prop :=
  exists data, (rr_ID r, data) ∈ w_effects w /\ declared r data.

(** A terminal receipt tells the truth. *)
Definition truth (w : world) (r : receiptRecord) : Prop :=
  match rr_State r with
  | Committed => effect_of w r
  | Rejected | Interrupted => ~ happened w (rr_ID r)
  | Uncertain => True
  | Receiving | Prepared => False
  end.

(** What a pending record says of the files. *)
Definition pend_ok (w : world) (r : receiptRecord) : Prop :=
  match rr_State r with
  | Receiving => ~ happened w (rr_ID r) /\ (rr_Temporary r = "" \/ staged (rr_Temporary r) = true)
  | Prepared =>
      staged (rr_Temporary r) = true /\ staged (rr_Target r) = false /\
      exists i, rr_FileIdentity r = Some i /\ (i < w_inode w)%nat /\
        ((~ happened w (rr_ID r) /\ forall p f, staged p = false -> w_files w !! p = Some f -> f_ino f <> i) \/
         (w_files w !! rr_Temporary r = None /\ effect_of w r))
  | _ => False
  end.

Definition linked (r r0 : receiptRecord) : Prop := rr_ID r = rr_ID r0 /\ rr_Fingerprint r = rr_Fingerprint r0.

(** The pending record is that of the lock holder, who has not published a receipt. *)
Definition owns (w : world) (q : upload) (r : receiptRecord) : Prop :=
  rr_ID r = up_ID q /\ w_receipts w !! rr_ID r = None /\ exists r0, w_pending w = Some r0 /\ linked r r0.

Definition early (w : world) : Prop := exists r0, w_pending w = Some r0 /\ rr_State r0 = Receiving.

Definition running (w : world) (q : upload) (r : receiptRecord) : Prop := owns w q r /\ ~ happened w (rr_ID r).

Definition declares (q : upload) (r : receiptRecord) (n : Z) : Prop :=
  (exists hash, up_Digest q = Some hash /\ hex hash = rr_SHA256 r) /\ 0 <= n /\ Itoa n = rr_Size r.

Definition fresh (q : upload) (r : receiptRecord) (n : Z) : Prop :=
  declares q r n /\ rr_State r = Receiving /\ rr_Temporary r = "".

(** The temporary file is what the record describes. *)
Definition holds (w : world) (r : receiptRecord) (tmp : string) : Prop :=
  exists f, w_files w !! tmp = Some f /\ rr_FileIdentity r = Some (f_ino f) /\ declared r (f_data f).

Definition names_ok (target tmp : string) : Prop := staged target = false /\ staged tmp = true.

Definition pc_ok (w : world) (p : pc) : Prop :=
  match p with
  | PRecover q => True
  | PResolve q r st =>
      w_pending w = Some r /\ w_receipts w !! rr_ID r = None /\ truth w (terminal r st (recovery_status st))
  | PForget q => exists r, w_pending w = Some r /\ is_Some (w_receipts w !! rr_ID r)
  | PReady q => w_pending w = None
  | PBegin q r n => w_pending w = None /\ w_receipts w !! rr_ID r = None /\ rr_ID r = up_ID q /\ fresh q r n
  | PCheck q r n | POpen q r n => running w q r /\ early w /\ fresh q r n
  | PRecord q r n target tmp => running w q r /\ early w /\ fresh q r n /\ names_ok target tmp
  | PStream q r n target tmp => running w q r /\ early w /\ declares q r n /\ names_ok target tmp
  | PPrepare q r target tmp => running w q r /\ early w /\ names_ok target tmp /\ holds w r tmp
  | PRename q r target tmp =>
      running w q r /\ names_ok target tmp /\ holds w r tmp /\
      w_pending w = Some r /\ rr_State r = Prepared /\ rr_Temporary r = tmp /\ rr_Target r = target
  | PSync q r => owns w q r /\ effect_of w r
  | PAbort q r tmp _ => running w q r /\ staged tmp = true
  | PComplete q r st status => owns w q r /\ truth w (terminal r st status)
  | PClear q r =>
      rr_ID r = up_ID q /\ w_receipts w !! rr_ID r = Some r /\ exists r0, w_pending w = Some r0 /\ linked r r0
  end.

Record core (w : world) : Prop := {
  i_once : NoDup (w_effects w).*1;
  i_truth : forall id t, w_receipts w !! id = Some t -> rr_ID t = id /\ truth w t;
  i_known : forall id, happened w id ->
    is_Some (w_receipts w !! id) \/ exists r, w_pending w = Some r /\ rr_ID r = id;
  i_pending : forall r, w_pending w = Some r -> w_receipts w !! rr_ID r = None -> pend_ok w r;
  i_same : forall r t, w_pending w = Some r -> w_receipts w !! rr_ID r = Some t -> rr_Fingerprint t = rr_Fingerprint r;
  i_inodes : inodes_ok (w_files w) (w_inode w);
  i_replies : forall id r, (id, RReceipt r) ∈ w_replies w -> w_receipts w !! id = Some r;
}.

Definition inv (w : world) : Prop := core w /\ forall p, w_writer w = Some p -> pc_ok w p.

(** ** What one change of the world keeps *)

Lemma public_unstaged name : privateUploadPath name = false -> staged name = false.
Proof.
  intros Hp. destruct (staged name) eqn:Hs; [|done]. rewrite <- Hp. symmetry. revert Hs.
  unfold staged, privateUploadPath. destruct (last (Split name x2f)) as [base|] eqn:Hb; [|done]. intros Hpre.
  apply existsb_exists. exists base. split; [by apply list_elem_of_In, list_elem_of_lookup_2 with (length (Split name x2f) - 1)%nat;
    rewrite last_lookup in Hb; rewrite <- Hb; f_equal; lia|].
  unfold HasPrefix, ToLower in *. apply has_prefix_spec in Hpre as (r & Hr). rewrite s2b_b2s, Hr, fmap_app.
  apply has_prefix_spec. exists (lower_byte <$> r). f_equal.
Qed.

Lemma inv_set w p : core w -> pc_ok w p -> inv (set_pc p w).
Proof. intros Hc Hp. split; [by destruct Hc; split|]. by intros p' [= <-]. Qed.

Lemma inv_answer w q a :
  core w -> (forall r, a = RReceipt r -> w_receipts w !! up_ID q = Some r) -> inv (answer q a w).
Proof.
  intros [] Ha. split; [|done]. split; try done. intros id r [[= -> <-]|Hin]%elem_of_cons; [by apply Ha|by apply i_replies0].
Qed.

Lemma inv_error w q st : core w -> inv (answer q (RError st) w).
Proof. intros. by apply inv_answer. Qed.

(** The record that was pending, if any, is now [r]. *)
Lemma core_pending w r :
  core w -> w_receipts w !! rr_ID r = None -> pend_ok w r ->
  (forall r0, w_pending w = Some r0 -> rr_ID r0 = rr_ID r) -> core (set_pending r w).
Proof.
  intros [] Hn Hr Hsame. split; cbn; try done.
  - intros id Hid. destruct (i_known0 id Hid) as [?|(r0 & H0 & <-)]; [by left|right]. exists r. split; [done|].
    symmetry. by apply Hsame.
  - by intros r' [= <-] _.
  - intros r' t [= <-] Ht. congruence.
Qed.

(** The pending record is removed: its receipt is there. *)
Lemma core_clear w :
  core w -> (forall r, w_pending w = Some r -> is_Some (w_receipts w !! rr_ID r)) -> core (clear_pending w).
Proof.
  intros [] Hr. split; cbn; try done.
  intros id Hid. destruct (i_known0 id Hid) as [?|(r & Hr' & <-)]; [by left|left; by apply Hr].
Qed.

(** A receipt is published. *)
Lemma core_terminal w t r0 :
  core w -> w_receipts w !! rr_ID t = None -> truth w t -> w_pending w = Some r0 -> linked t r0 ->
  core (write_terminal t w).
Proof.
  intros [] Hn Ht Hp [Hid Hf]. split; cbn; try done.
  - intros id t' [[<- <-]|[Hne Ht']]%lookup_insert_Some; [done|by apply i_truth0].
  - intros id Hh. destruct (decide (id = rr_ID t)) as [->|Hne]; [left; by rewrite lookup_insert_eq|].
    rewrite lookup_insert_ne by done. by apply i_known0.
  - intros r Hr. destruct (decide (rr_ID r = rr_ID t)) as [He|Hne]; [by rewrite He, lookup_insert_eq|].
    rewrite lookup_insert_ne by done. by apply i_pending0.
  - intros r t' Hr. rewrite Hp in Hr. injection Hr as <-. rewrite <- Hid, lookup_insert_eq. by intros [= <-].
  - intros id r Hin. apply i_replies0 in Hin. rewrite lookup_insert_ne; [done|]. intros <-. congruence.
Qed.

(** Files change; what the pending record says of them stays true. *)
Lemma core_files w files inode :
  core w -> inodes_ok files inode ->
  (forall r, w_pending w = Some r -> pend_ok w r -> pend_ok {| w with w_files := files; w_inode := inode |} r) ->
  core {| w with w_files := files; w_inode := inode |}.
Proof. intros [] Hi Hp. split; cbn; try done. intros r Hr Hn. apply Hp; [done|]. by apply i_pending0. Qed.

Lemma inodes_delete files n name : inodes_ok files n -> inodes_ok (delete name files) n.
Proof.
  intros [Hb Hs]. split.
  - by intros p f [_ Hf]%lookup_delete_Some; apply (Hb p).
  - intros p p' f f' Hp [_ Hf]%lookup_delete_Some [_ Hf']%lookup_delete_Some. by apply (Hs p p' f f').
Qed.

Lemma core_remove w name : core w -> core (remove_file name w).
Proof.
  intros Hc. pose proof (i_inodes w Hc) as Hi.
  apply (core_files w (delete name (w_files w)) (w_inode w)); [done|by apply inodes_delete|].
  intros r _. unfold pend_ok. cbn [w_files w_inode]. destruct (rr_State r); try done.
  intros (Ht & Htg & i & Hid & Hlt & H). split_and!; [done..|]. exists i. split_and!; [done..|]. destruct H as [[Hh Hp]|[Hn He]].
  - left. split; [done|]. intros p f Hps [_ Hf]%lookup_delete_Some. by apply (Hp p).
  - right. split; [|done]. apply lookup_delete_None. by right.
Qed.

Lemma core_files_early w files inode :
  core w -> early w -> inodes_ok files inode -> core {| w with w_files := files; w_inode := inode |}.
Proof.
  intros Hc (r0 & Hr0 & Hst) Hi. apply core_files; [done..|]. intros r. rewrite Hr0. intros [= <-].
  unfold pend_ok. by rewrite Hst.
Qed.

Lemma inodes_create files n name : inodes_ok files n -> inodes_ok (<[name := MkFile [] n]> files) (S n).
Proof.
  intros [Hb Hs]. split.
  - intros p f [[_ <-]|[_ Hf]]%lookup_insert_Some; cbn; [lia|]. apply Hb in Hf. lia.
  - intros p p' f f' Hp [[<- <-]|[_ Hf]]%lookup_insert_Some [[<- <-]|[_ Hf']]%lookup_insert_Some; cbn; try done.
    + apply Hb in Hf'. lia.
    + apply Hb in Hf. lia.
    + by apply (Hs p p').
Qed.

Lemma inodes_write files n name f f' :
  inodes_ok files n -> staged name = true -> files !! name = Some f -> f_ino f' = f_ino f -> inodes_ok (<[name := f']> files) n.
Proof.
  intros [Hb Hs] Hname Hf He. split.
  - intros p g [[<- <-]|[_ Hg]]%lookup_insert_Some; [rewrite He|]; by eapply Hb.
  - intros p p' g g' Hp [[<- <-]|[_ Hg]]%lookup_insert_Some [[<- <-]|[_ Hg']]%lookup_insert_Some; try done.
    + rewrite He. by eapply Hs.
    + rewrite He. by eapply Hs.
    + by eapply Hs.
Qed.

Lemma inodes_rename files n target tmp f :
  inodes_ok files n -> names_ok target tmp -> files !! tmp = Some f -> inodes_ok (<[target := f]> (delete tmp files)) n.
Proof.
  intros [Hb Hs] [Htg Htmp] Hf. split.
  - intros p g [[_ <-]|[_ [_ Hg]%lookup_delete_Some]]%lookup_insert_Some; by eapply Hb.
  - intros p p' g g' Hp [[<- _]|[_ [Hn Hg]%lookup_delete_Some]]%lookup_insert_Some; [congruence|].
    intros [[<- <-]|[_ [Hn' Hg']%lookup_delete_Some]]%lookup_insert_Some He; [|by apply (Hs p p' g g')].
    destruct Hn. symmetry. by apply (Hs p tmp g f).
Qed.

(** The file is renamed over the target: the upload takes effect. *)
Lemma core_rename w q r f :
  core w -> owns w q r -> ~ happened w (rr_ID r) -> w_pending w = Some r -> rr_State r = Prepared ->
  names_ok (rr_Target r) (rr_Temporary r) ->
  w_files w !! rr_Temporary r = Some f -> rr_FileIdentity r = Some (f_ino f) -> declared r (f_data f) ->
  core {| w with w_files := <[rr_Target r := f]> (delete (rr_Temporary r) (w_files w));
                 w_effects := (rr_ID r, f_data f) :: w_effects w |}.
Proof.
  intros [] (Hid & Hn & _) Hh Hp Hst Hnames Hf Hino Hd.
  assert (Hown : forall id, id <> rr_ID r -> forall l, id ∈ ((rr_ID r, l) :: w_effects w).*1 -> happened w id).
  { intros id Hne l [->|?]%elem_of_cons; done. }
  split; cbn [w_files w_effects w_pending w_receipts w_inode w_replies].
  - by apply NoDup_cons.
  - intros id t Ht. destruct (i_truth0 id t Ht) as [<- Htr]. split; [done|].
    assert (Hne : rr_ID t <> rr_ID r) by congruence. revert Htr. unfold truth. destruct (rr_State t); try done.
    + intros (data & Hin & Hdata). exists data. split; [|done]. by apply elem_of_cons; right.
    + intros Hnh Hin. apply Hnh. by apply (Hown _ Hne (f_data f)).
    + intros Hnh Hin. apply Hnh. by apply (Hown _ Hne (f_data f)).
  - intros id [->|Hin]%elem_of_cons; [right; eauto|by apply i_known0].
  - intros r' Hr' _. rewrite Hp in Hr'. injection Hr' as <-. unfold pend_ok. rewrite Hst. destruct Hnames as [Htg Htmp].
    split_and!; [done..|]. exists (f_ino f). cbn [w_files w_inode]. split_and!; [done|by apply (proj1 i_inodes0 (rr_Temporary r))|]. right. split.
    + rewrite lookup_insert_ne by congruence. apply lookup_delete_None. by left.
    + exists (f_data f). split; [|done]. apply elem_of_cons. by left.
  - intros r' t Hr' Ht. by apply i_same0.
  - by apply inodes_rename.
  - done.
Qed.

(** ** Preservation, one operation at a time *)

(** A prepared upload whose temporary file is gone and whose target is the file that was
    prepared has taken effect. *)
Lemma target_matches_effect w r :
  core w -> w_pending w = Some r -> w_receipts w !! rr_ID r = None -> rr_State r = Prepared ->
  target_matches r w = true -> effect_of w r.
Proof.
  intros Hc Hr Hn Hst. pose proof (i_pending w Hc r Hr Hn) as Hp. unfold pend_ok in Hp. rewrite Hst in Hp.
  destruct Hp as (_ & Htg & i & Hi & _ & [[_ Hpub]|[_ He]]); [|done]. unfold target_matches.
  destruct (w_files w !! rr_Target r) as [f|] eqn:Hf; [|done]. intros [[Hino%bool_decide_eq_true _]%andb_prop _]%andb_prop.
  destruct (Hpub _ f Htg Hf). congruence.
Qed.

Lemma recoverReceipt_inv w q : core w -> inv (recoverReceipt q w).
Proof.
  intros Hc. unfold recoverReceipt. destruct (w_pending w) as [r|] eqn:Hr; [|by apply inv_set].
  destruct (w_receipts w !! rr_ID r) as [t|] eqn:Ht.
  { case_bool_decide; [apply inv_set; [done|by exists r; rewrite Ht]|by apply inv_error]. }
  pose proof (i_pending w Hc r Hr Ht) as Hp. unfold pend_ok in Hp.
  destruct (_ && _); [by apply inv_error|]. destruct (rr_State r) eqn:Hst; try done.
  - destruct Hp as [Hh _]. case_bool_decide; apply inv_set; [done| |by apply core_remove|]; done.
  - destruct Hp as (Htmp & Htg & i & Hi & Hlt & Hor). rewrite Htmp. cbn [negb].
    destruct (w_files w !! rr_Temporary r) as [f|] eqn:Hf.
    + destruct Hor as [[Hh _]|[? _]]; [|done]. apply inv_set; [by apply core_remove|done].
    + apply inv_set; [done|]. split_and!; [done..|]. destruct (target_matches r w) eqn:Hm; [|done].
      apply (target_matches_effect w r) in Hm; done.
Qed.

Lemma resolve_core w q r st :
  core w -> pc_ok w (PResolve q r st) -> core (write_terminal (terminal r st (recovery_status st)) w).
Proof. intros Hc (Hp & Hn & Ht). by apply (core_terminal w _ r). Qed.

Lemma find_prior_inv w q : core w -> w_pending w = None -> inv (find_prior q w).
Proof.
  intros Hc Hp. unfold find_prior. destruct (newReceipt q) as [[r n]|] eqn:Hq; [|by apply inv_error].
  assert (Hr : rr_ID r = up_ID q /\ fresh q r n).
  { revert Hq. unfold newReceipt. destruct (up_Digest q) as [hash|] eqn:Hd; [|done].
    destruct (validUploadID _); [|done]. cbn [negb]. destruct (Atoi _) as [m|]; [|done].
    destruct (_ || _) eqn:Hb; [done|]. destruct (lexical _); [|done]. intros [= <- <-].
    apply orb_false_elim in Hb as [[Hb Hi]%orb_false_elim _]. apply negb_false_iff, bool_decide_eq_true in Hi.
    split; [done|]. split; [|done]. split; [by exists hash|]. split; [lia|done]. }
  destruct Hr as [Hid Hf]. destruct (w_receipts w !! rr_ID r) as [prior|] eqn:Ht.
  - destruct (lexical _); [|by apply inv_error]. case_bool_decide; [|by apply inv_error].
    apply inv_answer; [done|]. intros r' [= <-]. by rewrite <- Hid.
  - by apply inv_set.
Qed.

Lemma beginReceipt_inv a w q r n : core w -> pc_ok w (PBegin q r n) -> inv (beginReceipt a q r n w).
Proof.
  intros Hc (Hp & Hn & Hid & Hf). set (r' := {| r with rr_Target := an_target a |}). destruct Hf as (Hd & Hst & Htmp).
  assert (Hh : ~ happened w (rr_ID r)).
  { intros Hh. destruct (i_known w Hc _ Hh) as [[t Ht]|(r0 & Hr0 & _)]; congruence. }
  assert (Hc' : core (set_pending r' w)).
  { apply core_pending; [done|done| |congruence]. unfold pend_ok. cbn. rewrite Hst, Htmp. split; [done|by left]. }
  unfold beginReceipt. fold r'. destruct (an_fails a); [apply inv_error; by destruct (an_lands a)|].
  apply inv_set; [done|]. split_and!; [|by exists r'|done].
  split; [|done]. split_and!; [done..|]. by exists r'.
Qed.

Lemma check_request_inv a w q r n : core w -> pc_ok w (PCheck q r n) -> inv (check_request a q r n w).
Proof.
  intros Hc H. unfold check_request. cbv zeta. destruct (_ =? 0); apply inv_set; [done..|]. by destruct H as ([Ho Hh] & _).
Qed.

Lemma open_temporary_inv a w q r n :
  core w -> pc_ok w (POpen q r n) -> staged (an_name a) = true -> staged (an_target a) = false ->
  inv (open_temporary a q r n w).
Proof.
  intros Hc ([Ho Hh] & He & Hf) Hname Htarget. unfold open_temporary.
  destruct (w_files w !! an_name a); [by apply inv_set|].
  assert (Hc' : core {| w with w_files := <[an_name a := MkFile [] (w_inode w)]> (w_files w); w_inode := S (w_inode w) |}).
  { apply core_files_early; [done..|]. by apply inodes_create, i_inodes. }
  destruct (an_fails a); [destruct (an_lands a)|]; by apply inv_set.
Qed.

Lemma record_temporary_inv a w q r n target tmp :
  core w -> pc_ok w (PRecord q r n target tmp) -> inv (record_temporary a q r n target tmp w).
Proof.
  intros Hc ([(Hid & Hn & r0 & Hr0 & Hl) Hh] & He & (Hd & Hst & _) & [Htg Htmp]).
  set (r' := {| r with rr_Temporary := tmp |}).
  assert (Hc' : core (set_pending r' w)).
  { apply core_pending; [done|done| |]. - unfold pend_ok. cbn. rewrite Hst. split; [done|by right].
    - rewrite Hr0. intros ? [= <-]. symmetry. apply Hl. }
  unfold record_temporary. fold r'. destruct (an_fails a); [destruct (an_lands a)|]; apply inv_set; try done.
  - split; [|done]. split; [|done]. split_and!; [done..|]. by exists r'.
  - split; [|done]. split; [|done]. split_and!; [done..|]. by exists r0.
  - split_and!; [|by exists r'|done|done]. split; [|done]. split_and!; [done..|]. by exists r'.
Qed.

Lemma validate_ok e n hash data :
  0 <= n -> validate e n (Some hash) data = None -> Z.of_nat (length data) = n /\ hash = digest data.
Proof.
  intros Hn. unfold validate. destruct e; try done. destruct (_ && _) eqn:Hb; [done|].
  case_bool_decide; [|done]. intros _. split; [|done]. destruct (Z.of_nat (length data) =? n) eqn:He; lia.
Qed.

Lemma stream_inv a w q r n target tmp :
  core w -> pc_ok w (PStream q r n target tmp) -> inv (stream a q r n target tmp w).
Proof.
  intros Hc (Hrun & He & Hd & [Htg Htmp]). unfold stream. destruct (w_files w !! tmp) as [f|] eqn:Hf; [|by apply inv_set].
  set (f' := {| f with f_data := f_data f ++ an_chunk a |}). cbv zeta.
  assert (Hc' : core {| w with w_files := <[tmp := f']> (w_files w) |}).
  { apply (core_files_early w _ (w_inode w)); [done..|]. apply (inodes_write _ _ tmp f f'); [by apply i_inodes|done..]. }
  destruct (an_write_err a); [by apply inv_set|]. destruct (an_more a); [by apply inv_set|].
  destruct Hd as ((hash & Hq & Hhex) & Hn & Hsize). rewrite Hq.
  destruct (validate _ _ _ _) as [status|] eqn:Hv; [by apply inv_set|].
  destruct (validate_ok _ _ _ _ Hn Hv) as [Hlen Hhash].
  destruct (an_fails a); apply inv_set; try done. split_and!; try done. exists f'.
  cbn [w_files]. rewrite lookup_insert_eq. split_and!; [done..|]. unfold declared. cbn [rr_SHA256 rr_Size]. split; congruence.
Qed.

Lemma prepare_inv a w q r target tmp :
  core w -> pc_ok w (PPrepare q r target tmp) -> inv (prepare a q r target tmp w).
Proof.
  intros Hc ([(Hid & Hn & r0 & Hr0 & Hl) Hh] & He & [Htg Htmp] & (f & Hf & Hino & Hd)).
  set (r' := {| r with rr_State := Prepared; rr_Target := target; rr_Temporary := tmp |}).
  assert (Hc' : core (set_pending r' w)).
  { apply core_pending; [done|done| |rewrite Hr0; intros ? [= <-]; symmetry; apply Hl].
    unfold pend_ok. cbn [rr_State r']. pose proof (i_inodes w Hc) as [Hb Hs].
    split_and!; [done..|]. exists (f_ino f). split_and!; [done|by eapply Hb|]. left. split; [done|].
    intros p g Hp Hg Heq. assert (tmp = p) by (by apply (Hs tmp p f g)). congruence. }
  unfold prepare. fold r'. destruct (an_fails a); [destruct (an_lands a)|]; apply inv_set; try done.
  - split; [|done]. split; [|done]. split_and!; [done..|]. by exists r'.
  - split; [|done]. split; [|done]. split_and!; [done..|]. by exists r0.
  - split_and!; try done; [|by exists f]. split; [|done]. split_and!; [done..|]. by exists r'.
Qed.

Lemma rename_inv a w q r target tmp :
  core w -> pc_ok w (PRename q r target tmp) -> inv (rename a q r target tmp w).
Proof.
  intros Hc (Hrun & [Htg Htmp] & (f & Hf & Hino & Hd) & Hp & Hst & <- & <-). unfold rename. rewrite Hf.
  destruct (an_fails a); [by apply inv_set|]. destruct Hrun as [Ho Hh]. pose proof Ho as [Hid _]. rewrite <- Hid.
  apply inv_set; [by apply (core_rename w q r f)|]. destruct Ho as (_ & Hn & Hr0). split; [by split_and!|].
  exists (f_data f). split; [|done]. apply elem_of_cons. by left.
Qed.

Lemma abort_upload_inv a w q r tmp status :
  core w -> pc_ok w (PAbort q r tmp status) -> inv (abort_upload a q r tmp status w).
Proof.
  intros Hc ([Ho Hh] & Htmp). unfold abort_upload. destruct (an_fails a); apply inv_set; try done. by apply core_remove.
Qed.

Lemma completeReceipt_inv a w q r st status :
  core w -> pc_ok w (PComplete q r st status) -> inv (completeReceipt a q r st status w).
Proof.
  intros Hc ((Hid & Hn & r0 & Hr0 & Hl) & Ht). set (r' := terminal r st status).
  assert (Hc' : core (write_terminal r' w)) by (by apply (core_terminal w r' r0)).
  unfold completeReceipt. fold r'. destruct (an_fails a); [apply inv_error; by destruct (an_lands a)|].
  apply inv_set; [done|]. split_and!; [done| |by exists r0]. cbn [w_receipts write_terminal]. by rewrite lookup_insert_eq.
Qed.

Lemma clear_receipt_inv a w q r : core w -> pc_ok w (PClear q r) -> inv (clear_receipt a q r w).
Proof.
  intros Hc (Hid & Ht & r0 & Hr0 & [Hl _]).
  assert (Hc' : core (clear_pending w)).
  { apply core_clear; [done|]. rewrite Hr0. intros ? [= <-]. rewrite <- Hl, Ht. by eexists. }
  unfold clear_receipt. destruct (an_fails a); [apply inv_error; by destruct (an_lands a)|].
  apply inv_answer; [done|]. intros r' [= <-]. by rewrite <- Hid.
Qed.

Lemma advance_inv a w w' :
  inv w -> staged (an_name a) = true -> staged (an_target a) = false -> advance a w = Some w' -> inv w'.
Proof.
  intros [Hc Hp] Hname Htarget. unfold advance. destruct (w_writer w) as [p|] eqn:Hw; [|done]. intros [= <-].
  specialize (Hp p eq_refl). destruct p.
  - destruct (an_fails a); [by apply inv_error|by apply recoverReceipt_inv].
  - apply resolve_core in Hp as Hc'; [|done]. destruct (an_fails a); [apply inv_error; by destruct (an_lands a)|].
    apply inv_set; [done|]. exists r. destruct Hp as (Hr & _ & _). split; [done|].
    cbn [w_receipts write_terminal]. rewrite lookup_insert_eq. by eexists.
  - assert (Hc' : core (clear_pending w)).
    { destruct Hp as (r & Hr & Ht). apply core_clear; [done|]. rewrite Hr. by intros ? [= <-]. }
    destruct (an_fails a); [apply inv_error; by destruct (an_lands a)|by apply inv_set].
  - destruct (an_fails a); [by apply inv_error|by apply find_prior_inv].
  - by apply beginReceipt_inv.
  - by apply check_request_inv.
  - by apply open_temporary_inv.
  - by apply record_temporary_inv.
  - by apply stream_inv.
  - by apply prepare_inv.
  - by apply rename_inv.
  - destruct (an_fails a); [by apply inv_error|by apply inv_set].
  - by apply abort_upload_inv.
  - by apply completeReceipt_inv.
  - by apply clear_receipt_inv.
Qed.

(** ** Other processes *)

Lemma outside_pending w r files inode :
  outside_ok w files -> (w_inode w <= inode)%nat -> pend_ok w r -> pend_ok {| w with w_files := files; w_inode := inode |} r.
Proof.
  intros [Hpriv Hpub] Hle. unfold pend_ok. destruct (rr_State r); try done.
  intros (Ht & Htg & i & Hid & Hlt & H). split_and!; [done..|]. exists i. split_and!; [done|cbn; lia|].
  destruct H as [[Hh Hp]|[Hn He]]; [left|right; by rewrite <- (Hpriv _ Ht) in Hn].
  split; [done|]. intros p f Hps Hf. destruct (Hpub p f Hps Hf) as [Hge|(p' & f' & Hp' & Hf' & <-)]; [lia|by apply (Hp p')].
Qed.

Lemma outside_pc w p files inode : outside_ok w files -> pc_ok w p -> pc_ok {| w with w_files := files; w_inode := inode |} p.
Proof.
  intros [Hpriv _]. assert (Hh : forall r tmp, staged tmp = true -> holds w r tmp ->
    holds {| w with w_files := files; w_inode := inode |} r tmp).
  { intros r tmp Ht (f & Hf & Hrest). exists f. cbn [w_files]. by rewrite (Hpriv tmp Ht). }
  destruct p; try done.
  - intros (Hr & He & Hnames & Hhold). pose proof Hnames as [_ Ht]. exact (conj Hr (conj He (conj Hnames (Hh _ _ Ht Hhold)))).
  - intros (Hr & Hnames & Hhold & Hrest). pose proof Hnames as [_ Ht]. exact (conj Hr (conj Hnames (conj (Hh _ _ Ht Hhold) Hrest))).
Qed.

Lemma moves_inv w w' : moves w w' -> inv w -> inv w'.
Proof.
  intros (a & Ha & Hs) Hi. destruct a as [q|a|files inode|files inode|]; cbn in *.
  - destruct (w_writer w); [done|]. injection Hs as <-. apply inv_set; [apply Hi|done].
  - destruct Ha as [Hn Ht%public_unstaged]. by eapply advance_inv.
  - destruct (w_writer w) as [[]|] eqn:Hw; try done. injection Hs as <-. destruct Hi as [Hc Hp].
    specialize (Hp _ Hw). cbn in Hp. split; [|done]. destruct Ha as [Hi _]. destruct Hc; split; try done; cbn; congruence.
  - injection Hs as <-. destruct Ha as (Hin & Hle & Hout). destruct Hi as [Hc Hp]. split.
    + apply core_files; [done..|]. intros r _. by apply outside_pending.
    + intros p Hw. apply outside_pc; [done|by apply Hp].
  - injection Hs as <-. split; [|done]. by destruct Hi as [[] _].
Qed.

Lemma reachable_upload_inv w : reachable w -> inv w.
Proof.
  intros (files & inode & Hin & Hr). apply (rtc_invariant moves inv moves_inv _ _ Hr).
  split; [|done]. split; [by apply NoDup_nil_2|done|..]; cbn; try done.
  - by intros id ?%elem_of_nil.
  - by intros id r ?%elem_of_nil.
Qed.

(** ** What is published stays published *)

Definition known (w : world) (id : string) : Prop :=
  is_Some (w_receipts w !! id) \/ exists r, w_pending w = Some r /\ rr_ID r = id.

Definition grows (w w' : world) : Prop :=
  (forall id t, w_receipts w !! id = Some t -> w_receipts w' !! id = Some t) /\ (forall id, known w id -> known w' id).

Lemma grows_same w w' : w_receipts w' = w_receipts w -> w_pending w' = w_pending w -> grows w w'.
Proof. intros He Hp. split; unfold known; [by rewrite He|by rewrite He, Hp]. Qed.

Lemma grows_pending w w' r :
  w_receipts w' = w_receipts w -> w_pending w' = Some r -> (forall r0, w_pending w = Some r0 -> rr_ID r0 = rr_ID r) -> grows w w'.
Proof.
  intros He Hp Hsame. split; [by rewrite He|]. intros id [Hr|(r0 & Hr0 & <-)]; [left; by rewrite He|right].
  exists r. split; [done|]. symmetry. by apply Hsame.
Qed.

Lemma grows_clear w w' :
  w_receipts w' = w_receipts w -> (forall r, w_pending w = Some r -> is_Some (w_receipts w !! rr_ID r)) -> grows w w'.
Proof.
  intros He Hr. split; [by rewrite He|]. intros id [?|(r0 & Hr0 & <-)]; left; rewrite He; [done|by apply Hr].
Qed.

Lemma grows_terminal w w' t :
  w_receipts w !! rr_ID t = None -> w_receipts w' = <[rr_ID t := t]> (w_receipts w) -> w_pending w' = w_pending w -> grows w w'.
Proof.
  intros Hn He Hp. assert (Hkeep : forall id t', w_receipts w !! id = Some t' -> w_receipts w' !! id = Some t').
  { intros id t' Ht. rewrite He, lookup_insert_ne; [done|]. congruence. }
  split; [done|]. intros id [[t' Ht]|Hr]; [left; exists t'; by apply Hkeep|right; by rewrite Hp].
Qed.

(** Cases on what an operation decides. *)
Ltac op_cases :=
  repeat match goal with
  | |- context [if ?b then _ else _] => lazymatch b with context [if _ then _ else _] => fail | _ => destruct b eqn:? end
  | |- context [match ?x with _ => _ end] => lazymatch x with context [match _ with _ => _ end] => fail | _ => destruct x eqn:? end
  end.

Lemma advance_grows a w w' : inv w -> advance a w = Some w' -> grows w w'.
Proof.
  intros [Hc Hp]. unfold advance. destruct (w_writer w) as [p|] eqn:Hw; [|done]. intros [= <-].
  specialize (Hp p eq_refl). destruct p; cbn in Hp.
  - unfold recoverReceipt. op_cases; by apply grows_same.
  - destruct Hp as (Hr & Hn & _). op_cases; try (by apply grows_same); by eapply (grows_terminal w _ (terminal r st _)).
  - destruct Hp as (r & Hr & Ht). op_cases; try (by apply grows_same); apply grows_clear; try done; intros r'; rewrite Hr; by intros [= <-].
  - unfold find_prior. op_cases; by apply grows_same.
  - destruct Hp as (Hr & _). unfold beginReceipt. cbv zeta. op_cases; try (by apply grows_same); eapply grows_pending; try done; congruence.
  - unfold check_request. cbv zeta. destruct (_ =? 0); by apply grows_same.
  - unfold open_temporary. op_cases; by apply grows_same.
  - destruct Hp as ([(_ & _ & r0 & Hr0 & [Hl _]) _] & _). unfold record_temporary. cbv zeta.
    op_cases; try (by apply grows_same); eapply grows_pending; try done; rewrite Hr0; intros ? [= <-]; done.
  - unfold stream. cbv zeta. op_cases; by apply grows_same.
  - destruct Hp as ([(_ & _ & r0 & Hr0 & [Hl _]) _] & _). unfold prepare. cbv zeta.
    op_cases; try (by apply grows_same); eapply grows_pending; try done; rewrite Hr0; intros ? [= <-]; done.
  - unfold rename. op_cases; by apply grows_same.
  - op_cases; by apply grows_same.
  - unfold abort_upload. op_cases; by apply grows_same.
  - destruct Hp as ((_ & Hn & _) & _). unfold completeReceipt. cbv zeta.
    op_cases; try (by apply grows_same); by eapply (grows_terminal w _ (terminal r st status)).
  - destruct Hp as (_ & Ht & r0 & Hr0 & [Hl _]). unfold clear_receipt.
    op_cases; try (by apply grows_same); apply grows_clear; try done; rewrite Hr0; intros ? [= <-]; rewrite <- Hl, Ht; by eexists.
Qed.

Lemma grows_trans w1 w2 w3 : grows w1 w2 -> grows w2 w3 -> grows w1 w3.
Proof. intros [] []. split; eauto. Qed.

Lemma moves_grow w w' : inv w -> moves w w' -> grows w w'.
Proof.
  intros Hi (a & Ha & Hs). destruct a as [q|a|files inode|files inode|]; cbn in Hs.
  - destruct (w_writer w); [done|]. injection Hs as <-. by apply grows_same.
  - by eapply advance_grows.
  - destruct (w_writer w) as [[]|]; try done. injection Hs as <-. by apply grows_same.
  - injection Hs as <-. by apply grows_same.
  - injection Hs as <-. by apply grows_same.
Qed.

Lemma runs_grow w w' : inv w -> rtc moves w w' -> grows w w' /\ inv w'.
Proof.
  intros Hi Hr. induction Hr as [w|w1 w2 w3 Hm _ IH]; [by split; [apply grows_same|]|].
  destruct (IH (moves_inv _ _ Hm Hi)) as [Hg ?]. split; [|done]. by eapply grows_trans; [apply moves_grow|].
Qed.

Lemma NoDup_fst_agree {A B} (l : list (A * B)) a b b' : NoDup l.*1 -> (a, b) ∈ l -> (a, b') ∈ l -> b = b'.
Proof.
  induction l as [|[a0 b0] l IH]; [by intros _ ?%elem_of_nil|]. intros [Hn Hd]%NoDup_cons.
  assert (Hno : forall c, (a0, c) ∈ l -> False) by (intros c Hc; apply Hn, list_elem_of_fmap; by exists (a0, c)).
  intros [He|H]%elem_of_cons [He'|H']%elem_of_cons; [congruence| | |by apply IH].
  - injection He as -> ->. by destruct (Hno b').
  - injection He' as -> ->. by destruct (Hno b).
Qed.

(** ** The lock holder makes progress *)

Definition holder (p : pc) : upload :=
  match p with
  | PRecover q | PResolve q _ _ | PForget q | PReady q | PBegin q _ _ | PCheck q _ _ | POpen q _ _
  | PRecord q _ _ _ _ | PStream q _ _ _ _ | PPrepare q _ _ _ | PRename q _ _ _ | PSync q _
  | PAbort q _ _ _ | PComplete q _ _ _ | PClear q _ => q
  end.

Definition rank (p : pc) : nat :=
  match p with
  | PRecover _ => 14 | PResolve _ _ _ => 13 | PForget _ => 12 | PReady _ => 11 | PBegin _ _ _ => 10 | PCheck _ _ _ => 9
  | POpen _ _ _ => 8 | PRecord _ _ _ _ _ => 7 | PStream _ _ _ _ _ => 6 | PPrepare _ _ _ _ => 5 | PRename _ _ _ _ => 4
  | PSync _ _ => 3 | PAbort _ _ _ _ => 3 | PComplete _ _ _ _ => 2 | PClear _ _ => 1
  end%nat.

(** The lock holder left alone with the answers [l]. *)
Definition serve (l : list answers) (w : world) : world := fold_left (fun w a => default w (advance a w)) l w.

Definition answered (q : upload) (w w' : world) : Prop :=
  w_writer w' = None /\ exists a, w_replies w' = (up_ID q, a) :: w_replies w.

Definition closer (p : pc) (w w' : world) : Prop :=
  exists p', w_writer w' = Some p' /\ holder p' = holder p /\ (rank p' < rank p)%nat /\ w_replies w' = w_replies w.

Lemma advance_progress a w w' p :
  w_writer w = Some p -> an_more a = false -> advance a w = Some w' -> answered (holder p) w w' \/ closer p w w'.
Proof.
  intros Hw Hm. unfold advance. rewrite Hw. intros [= <-].
  destruct p; cbn [holder]; unfold recoverReceipt, find_prior, beginReceipt, check_request, open_temporary, record_temporary,
    stream, prepare, rename, abort_upload, completeReceipt, clear_receipt; cbv zeta; try rewrite Hm; op_cases;
    first [left; split; [reflexivity|eexists; reflexivity]|right; eexists; split_and!; [reflexivity|done|cbn; lia|done]].
Qed.

Lemma serve_idle l w : w_writer w = None -> serve l w = w.
Proof. intros Hw. induction l as [|a l IH]; [done|]. cbn. unfold advance at 2. by rewrite Hw. Qed.

Lemma serve_next n a w w' : advance a w = Some w' -> serve (replicate (S n) a) w = serve (replicate n a) w'.
Proof. intros H. unfold serve. cbn [replicate fold_left]. by rewrite H. Qed.

Lemma serve_app l1 l2 w : serve (l1 ++ l2) w = serve l2 (serve l1 w).
Proof. apply fold_left_app. Qed.

(** A run of operations that succeed, one at a time. *)
Ltac op_ok f Hf := erewrite serve_next; [|unfold advance; cbn [w_writer set_pc]; unfold f; rewrite ?Hf; reflexivity].

Lemma admitted_run w q r n a :
  w_writer w = Some (PReady q) -> newReceipt q = Some (r, n) -> w_receipts w !! rr_ID r = None -> an_fails a = false ->
  checkConditions (up_IfMatch q) (up_IfNoneMatch q)
    (if an_stat a then Some (bool_decide (is_Some (w_files w !! an_target a))) else None) (an_revision a) = 0 ->
  let r1 := {| r with rr_Target := an_target a |} in
  serve (replicate 3 a) w = {| w with w_writer := Some (POpen q r1 n); w_pending := Some r1 |}.
Proof.
  intros Hw Hq Hn Hf Hcond r1.
  erewrite serve_next; [|unfold advance; rewrite Hw, Hf; unfold find_prior; rewrite Hq, Hn; reflexivity].
  op_ok beginReceipt Hf. erewrite serve_next; [done|]. unfold advance. cbn [w_writer set_pc]. unfold check_request. cbv zeta.
  cbn [w_files set_pc set_pending]. by rewrite Hcond.
Qed.

Lemma staged_run w q r n a hash :
  w_writer w = Some (POpen q r n) -> an_fails a = false -> an_write_err a = false -> an_more a = false ->
  up_Digest q = Some hash -> validate (an_end a) n (Some hash) (an_chunk a) = None -> w_files w !! an_name a = None ->
  let r' := {| r with rr_FileIdentity := Some (w_inode w); rr_State := Prepared; rr_Target := an_target a; rr_Temporary := an_name a |} in
  serve (replicate 4 a) w =
    {| w with w_writer := Some (PRename q r' (an_target a) (an_name a)); w_pending := Some r';
              w_files := <[an_name a := MkFile (an_chunk a) (w_inode w)]> (w_files w); w_inode := S (w_inode w) |}.
Proof.
  intros Hw Hf Hwe Hm Hd Hv Htmp r'.
  erewrite serve_next; [|unfold advance; rewrite Hw; unfold open_temporary; rewrite Htmp, Hf; cbn [negb]; reflexivity].
  op_ok record_temporary Hf. erewrite serve_next.
  2: { unfold advance. cbn [w_writer set_pc]. unfold stream. cbn [w_files set_pc set_pending]. rewrite lookup_insert_eq, Hwe, Hm, Hd, Hf.
       cbn [app f_data]. rewrite Hv, insert_insert_eq. reflexivity. }
  by op_ok prepare Hf.
Qed.

Lemma published_run w q r a target tmp f :
  w_writer w = Some (PRename q r target tmp) -> an_fails a = false -> w_files w !! tmp = Some f ->
  let t := terminal r Committed StatusCreated in
  serve (replicate 4 a) w =
    {| w with w_writer := None; w_pending := None; w_receipts := <[rr_ID r := t]> (w_receipts w);
              w_files := <[target := f]> (delete tmp (w_files w)); w_effects := (up_ID q, f_data f) :: w_effects w;
              w_replies := (up_ID q, RReceipt t) :: w_replies w |}.
Proof.
  intros Hw Hf Hfile t. erewrite serve_next; [|unfold advance; rewrite Hw; unfold rename; rewrite Hfile, Hf; reflexivity].
  op_ok answer Hf. op_ok completeReceipt Hf. by op_ok clear_receipt Hf.
Qed.

(** Actions one after another; one that is not enabled is skipped. *)
Definition play (l : list action) (w : world) : world := fold_left (fun w a => default w (step a w)) l w.

Definition plain (a : action) : bool :=
  match a with
  | DoPut _ | DoCrash => true
  | DoAdvance a => staged (an_name a) && negb (privateUploadPath (an_target a))
  | DoMutate _ _ | DoOutside _ _ => false
  end.

Lemma play_moves l w : forallb plain l = true -> rtc moves w (play l w).
Proof.
  revert w. induction l as [|a l IH]; intros w; [done|]. intros [Ha Hl]%andb_prop. cbn. fold (play l (default w (step a w))).
  destruct (step a w) as [w'|] eqn:Hs; [|by apply IH]. eapply rtc_l; [|by apply IH]. exists a. split; [|done].
  destruct a; try done. cbn in *. apply andb_prop in Ha as [? ?%negb_true_iff]. done.
Qed.

Lemma play_reachable l : forallb plain l = true -> reachable (play l (new_world ∅ 0)).
Proof. intros Hl. exists ∅, 0%nat. split; [done|by apply play_moves]. Qed.

(** ** Properties *)

(** C31: An upload takes effect at most once, whatever fails or crashes: no identity is
    renamed over its target twice, every receipt tells the truth (committed: a file of the
    declared digest and length replaced the target; rejected or interrupted: none did),
    and an effect is never forgotten: it is pending, or its receipt is committed and
    declares its data, or says that the result is uncertain. *)
Theorem uploads_at_most_once w :
  reachable w ->
  NoDup (w_effects w).*1 /\
  (forall id t, w_receipts w !! id = Some t -> rr_ID t = id /\ truth w t) /\
  (forall id data, (id, data) ∈ w_effects w ->
     known w id /\ forall t, w_receipts w !! id = Some t -> rr_State t = Uncertain \/ rr_State t = Committed /\ declared t data).
Proof.
  intros [Hc _]%reachable_upload_inv. split_and!; [by apply i_once|by apply i_truth|].
  intros id data Hin. assert (Hh : happened w id) by (apply list_elem_of_fmap; by exists (id, data)).
  split; [by apply i_known|]. intros t Ht. destruct (i_truth w Hc id t Ht) as [<- Htr]. unfold truth in Htr.
  destruct (rr_State t); try done; [right|by left]. split; [done|]. destruct Htr as (data' & Hin' & Hd).
  by rewrite (NoDup_fst_agree (w_effects w) (rr_ID t) data data' (i_once w Hc) Hin Hin').
Qed.

(** A receipt that was published or sent to a client is what every later reader of the
    journal finds, and an upload reported as rejected or interrupted never takes effect
    afterwards. *)
Theorem receipts_durable w w' :
  reachable w -> rtc moves w w' ->
  (forall id t, w_receipts w !! id = Some t ->
     w_receipts w' !! id = Some t /\ (rr_State t = Rejected \/ rr_State t = Interrupted -> ~ happened w' id)) /\
  (forall id t, (id, RReceipt t) ∈ w_replies w -> w_receipts w' !! id = Some t).
Proof.
  intros Hi%reachable_upload_inv Hr. destruct (runs_grow w w' Hi Hr) as [[Hg _] [Hc' _]]. split.
  - intros id t Ht%Hg. split; [done|]. intros Hst. destruct (i_truth w' Hc' id t Ht) as [<- Htr].
    unfold truth in Htr. by destruct Hst as [Hst|Hst]; rewrite Hst in Htr.
  - intros id t Hin. apply Hg. by apply (i_replies w (proj1 Hi)).
Qed.

(** A reader of a receipt, which takes no lock and reads three times while others move
    on, finds every upload that had begun, and finds nothing else. *)
Theorem receipt_reader_finds w1 w2 w3 id :
  reachable w1 -> rtc moves w1 w2 -> rtc moves w2 w3 ->
  (known w1 id -> is_Some (find_receipt id w1 w2 w3)) /\
  (forall r, find_receipt id w1 w2 w3 = Some r -> rr_ID r = id /\ known w3 id).
Proof.
  intros Hi%reachable_upload_inv H12 H23. destruct (runs_grow w1 w2 Hi H12) as [[Hr12 Hk12] Hi2].
  destruct (runs_grow w2 w3 Hi2 H23) as [[Hr23 Hk23] Hi3]. unfold find_receipt.
  destruct (w_receipts w1 !! id) as [t|] eqn:Ht.
  { split; [by eexists|]. intros r [= <-]. split; [by apply (i_truth w1 (proj1 Hi))|]. left. eexists. by apply Hr23, Hr12. }
  assert (Hlast : forall r, w_receipts w3 !! id = Some r -> rr_ID r = id /\ known w3 id).
  { intros r Hr. split; [by apply (i_truth w3 (proj1 Hi3))|left; by eexists]. }
  assert (Hsome : known w2 id -> ~ (exists r, w_pending w2 = Some r /\ rr_ID r = id) -> is_Some (w_receipts w3 !! id)).
  { intros [[t2 Ht2]|?] Hno; [|done]. eexists. by apply Hr23. }
  destruct (w_pending w2) as [r2|] eqn:Hp2.
  - case_bool_decide as Hid.
    + split; [by eexists|]. intros r [= <-]. split; [done|]. apply Hk23. right. by eexists.
    + split; [|done]. intros Hk%Hk12. apply Hsome; [done|]. intros (r & [= <-] & ?). done.
  - split; [|done]. intros Hk%Hk12. apply Hsome; [done|]. by intros (r & ? & _).
Qed.

(** Left alone, the lock holder answers its request, exactly once, after at most
    fourteen operations and the writes of the body, whichever of them fail. *)
Theorem upload_answered_once l w p :
  w_writer w = Some p -> Forall (fun a => an_more a = false) l -> (rank p <= length l)%nat ->
  answered (holder p) w (serve l w).
Proof.
  revert w p. induction l as [|a l IH]; intros w p Hw Hl Hlen; [destruct p; cbn in Hlen; lia|].
  apply Forall_cons in Hl as [Ha Hl].
  destruct (advance a w) as [w'|] eqn:Hs; [|unfold advance in Hs; by rewrite Hw in Hs].
  destruct (advance_progress a w w' p Hw Ha Hs) as [Hd|Hc].
  - cbn. rewrite Hs. cbn. fold (serve l w'). rewrite (serve_idle l w'); [done|apply Hd].
  - destruct Hc as (p' & Hp' & Hh & Hr & He). cbn. rewrite Hs. cbn. fold (serve l w').
    destruct (IH w' p' Hp' Hl ltac:(cbn in Hlen; lia)) as [Hn [a' Ha']]. split; [done|]. exists a'. by rewrite Ha', He, Hh.
Qed.


(** A durable upload whose operations succeed replaces its target, and nothing else,
    with its body, publishes the committed receipt and sends it. *)
Theorem upload_commits w q r n a data :
  w_writer w = Some (PReady q) -> newReceipt q = Some (r, n) -> w_receipts w !! rr_ID r = None ->
  an_fails a = false -> an_write_err a = false -> an_more a = false -> an_end a = BodyComplete -> an_chunk a = data ->
  up_Digest q = Some (digest data) -> Z.of_nat (length data) = n ->
  w_files w !! an_name a = None -> an_name a <> an_target a ->
  checkConditions (up_IfMatch q) (up_IfNoneMatch q)
    (if an_stat a then Some (bool_decide (is_Some (w_files w !! an_target a))) else None) (an_revision a) = 0 ->
  exists t, let w' := serve (replicate 11 a) w in
    w_writer w' = None /\ w_pending w' = None /\ w_replies w' = (up_ID q, RReceipt t) :: w_replies w /\
    w_receipts w' = <[rr_ID r := t]> (w_receipts w) /\
    w_files w' = <[an_target a := MkFile data (w_inode w)]> (w_files w) /\
    w_effects w' = (up_ID q, data) :: w_effects w /\
    rr_State t = Committed /\ rr_Status t = StatusCreated /\ linked t r /\ rr_Revision t = digestRevision (digest data).
Proof.
  intros Hw Hq Hn Hf Hwe Hm He <- Hd Hlen Htmp Hne Hcond.
  assert (Hsha : rr_SHA256 r = hex (digest (an_chunk a))).
  { revert Hq. unfold newReceipt. rewrite Hd. op_cases; try done. by intros [= <- _]. }
  assert (Hv : validate (an_end a) n (Some (digest (an_chunk a))) (an_chunk a) = None).
  { rewrite He. unfold validate. rewrite Hlen, Z.eqb_refl, andb_false_r. by rewrite bool_decide_eq_true_2. }
  eexists. change (replicate 11 a) with (replicate 3 a ++ replicate 4 a ++ replicate 4 a). cbv zeta. rewrite !serve_app.
  rewrite (admitted_run w q r n a) by done.
  match goal with |- context [serve _ (serve (replicate 4 a) ?w3)] => erewrite (staged_run w3 q _ n a) by done end.
  erewrite (published_run _ q _ a) by (done || apply lookup_insert_eq). split_and!; try reflexivity.
  - cbn [w_files w_inode]. by rewrite delete_insert_id.
  - by split.
  - exact (f_equal revision_of Hsha).
Qed.
End Uploads.

(** ** Witnesses *)

Definition demo_lexical (name : string) : option string := if privateUploadPath name then None else Some name.
Definition demo_reachable := reachable (fun d => d) (fun l => Join l " ") demo_lexical.
Definition demo_play := play (fun d => d) (fun l => Join l " ") demo_lexical.

Definition demo_put : upload := MkUpload "0123456789abcdef" "2" 2 (Some [x68; x69]) "docs/a.txt" "" "*".

Definition demo_answer : answers :=
  MkAnswers false false 0 [x68; x69] false BodyComplete false "docs/.rstream-upload-x" "docs/a.txt" true None.

Definition demo_fault : answers := {| demo_answer with an_fails := true |}.

(** The process dies right after the rename; the client sends its request again. *)
Definition demo_crash : list action :=
  [DoPut demo_put] ++ replicate 9 (DoAdvance demo_answer) ++ [DoCrash].

Definition demo_retry : list action := demo_crash ++ [DoPut demo_put] ++ replicate 4 (DoAdvance demo_answer).

Definition demo_world (l : list action) : world := demo_play l (new_world ∅ 0).

Lemma demo_ok l : forallb plain l = true -> demo_reachable (demo_world l).
Proof. apply play_reachable. Defined.

Lemma uploads_at_most_once_witness :
  NoDup (w_effects (demo_world demo_retry)).*1 /\
  (w_effects (demo_world demo_crash)).*1 = ["0123456789abcdef"] /\ w_receipts (demo_world demo_crash) = ∅ /\
  rr_State <$> w_receipts (demo_world demo_retry) !! "0123456789abcdef" = Some Committed /\
  (w_effects (demo_world demo_retry)).*1 = ["0123456789abcdef"].
Proof.
  split; [|vm_compute; split_and!; reflexivity].
  apply (uploads_at_most_once (fun d => d) (fun l => Join l " ") demo_lexical). apply demo_ok. vm_compute. reflexivity.
Defined.

Lemma receipts_durable_witness :
  w_receipts (demo_world (demo_retry ++ [DoCrash])) !! "0123456789abcdef" = w_receipts (demo_world demo_retry) !! "0123456789abcdef" /\
  rr_State <$> w_receipts (demo_world demo_retry) !! "0123456789abcdef" = Some Committed.
Proof.
  destruct (w_receipts (demo_world demo_retry) !! "0123456789abcdef") as [t|] eqn:Ht; [|by vm_compute in Ht].
  split; [|rewrite <- Ht; vm_compute; reflexivity].
  destruct (receipts_durable (fun d => d) (fun l => Join l " ") demo_lexical (demo_world demo_retry)
    (demo_world (demo_retry ++ [DoCrash]))) as [Hd _]; [| |exact (proj1 (Hd _ _ Ht))].
  - apply demo_ok. vm_compute. reflexivity.
  - unfold demo_world, demo_play, play. rewrite (fold_left_app _ demo_retry).
    apply (play_moves (fun d => d) (fun l => Join l " ") demo_lexical [DoCrash]). reflexivity.
Defined.

Lemma receipt_reader_finds_witness :
  let w1 := demo_world demo_crash in
  let w2 := demo_play ([DoPut demo_put] ++ replicate 4 (DoAdvance demo_answer)) w1 in
  w_receipts w1 !! "0123456789abcdef" = None /\ is_Some (find_receipt "0123456789abcdef" w1 w2 w2).
Proof.
  split; [vm_compute; reflexivity|].
  apply (receipt_reader_finds (fun d => d) (fun l => Join l " ") demo_lexical).
  - apply demo_ok. vm_compute. reflexivity.
  - apply (play_moves (fun d => d) (fun l => Join l " ") demo_lexical). vm_compute. reflexivity.
  - apply rtc_refl.
  - right. eexists. vm_compute. split; reflexivity.
Defined.

Lemma upload_answered_once_witness :
  let w := demo_world [DoPut demo_put] in
  answered demo_put w (serve (fun d => d) (fun l => Join l " ") demo_lexical (replicate 8 demo_answer ++ replicate 6 demo_fault) w).
Proof.
  apply (upload_answered_once _ _ _ _ _ (PRecover demo_put)); [vm_compute; reflexivity| |vm_compute; lia].
  repeat constructor.
Defined.


Lemma upload_commits_witness :
  f_data <$> w_files (serve (fun d => d) (fun l => Join l " ") demo_lexical (replicate 11 demo_answer)
    (set_pc (PReady demo_put) (new_world ∅ 0))) !! "docs/a.txt" = Some [x68; x69].
Proof.
  destruct (newReceipt (fun l => Join l " ") demo_lexical demo_put) as [[r n]|] eqn:Hq; [|by vm_compute in Hq].
  destruct (upload_commits (fun d => d) (fun l => Join l " ") demo_lexical (set_pc (PReady demo_put) (new_world ∅ 0))
    demo_put r n demo_answer [x68; x69]) as (t & _ & _ & _ & _ & Hf & _);
    [reflexivity|exact Hq|reflexivity..|vm_compute in Hq; by injection Hq as _ <-|reflexivity|discriminate|reflexivity|by rewrite Hf].
Defined.
