(* ===== verification/FilePolicy.v ===== *)
(** * FilePolicy: the export of a directory ([filesystem/filesystem.go], [atomic_upload.go], part of
    [journal.go])

    A [Local] serves a directory of the file system to clients it does not trust.  A name
    of a client is checked as text ([lexical]), resolved through symbolic links, checked
    again against the policy ([resolve]), and the operation then runs through [os.Root].

    The disk is a map from absolute paths, lists of components, to nodes; a relative path
    is a list of components too, the empty list being ".".  [filepath.EvalSymlinks] and
    the path walk of [os.Root] are written out on it (Unix).  A request is resolved and
    performed on one disk (mutations hold a lock; what other processes change in between
    is left to [os.Root]).  A [PUT] goes through [atomic_upload.go]: its file is written
    under a private name and then renamed, with any requests in between.
    Disk errors other than a missing or unsuitable node are not modelled: they end a
    request like the errors here.  [Match] is [path.Match] on lower-cased arguments,
    [names] the order in which a directory lists its entries, [cancelled n] whether the
    context of the request has ended when [n] more entries may be visited. *)

From S2P Require Import Prelude GoStrings Uploads.

(** ** Paths ([path/filepath], Unix) *)

Abbreviation path := (list string).

Definition clean_part (rooted : bool) (acc : path) (part : string) : path :=
  if bool_decide (part = "") || bool_decide (part = ".") then acc
  else if bool_decide (part = "..") then
    match acc with
    | top :: r => if bool_decide (top = "..") then ".." :: acc else r
    | [] => if rooted then [] else [".."]
    end
  else part :: acc.

(** [filepath.Clean] of these components. *)
Definition clean (rooted : bool) (parts : path) : path := rev (foldl (clean_part rooted) [] parts).

Definition slash_parts (s : string) : path := Split s x2f.

Definition local_parts (p : path) : bool := negb (bool_decide (head p = Some "..")).

Definition IsAbs (s : string) : bool := HasPrefix s "/".

Definition IsLocal (s : string) : bool :=
  if bool_decide (s = "") || IsAbs s then false else local_parts (clean false (slash_parts s)).

(** [filepath.Rel] of clean absolute paths. *)
Fixpoint Rel (base target : path) : path :=
  match base, target with
  | [], _ => target
  | b :: base', t :: target' => if bool_decide (b = t) then Rel base' target' else replicate (length base) ".." ++ target
  | _ :: _, [] => replicate (length base) ".."
  end.

Definition Dir (p : path) : path := removelast p.
Definition with_base (dir target : path) : path := match last target with Some b => dir ++ [b] | None => dir end.

(** ** The disk *)

Inductive node := NDir | NFile (data : list byte) | NLink (target : string) | NOther.

#[export] Instance node_eq_dec : EqDecision node.
Proof. solve_decision. Defined.

Abbreviation disk := (gmap path node).

Definition lstat (w : disk) (p : path) : option node := if bool_decide (p = []) then Some NDir else w !! p.

Inductive fs_error := ErrNotExist | ErrPermission | ErrListingLimit | ErrCancelled | ErrExist | ErrSystem.

(** [filepath.EvalSymlinks] from a directory without links, with so many links allowed. *)
Fixpoint eval_links (links : nat) (w : disk) : path -> path -> result fs_error path :=
  fix go (dest rest : path) {struct rest} : result fs_error path :=
    match rest with
    | [] => Ok dest
    | part :: rest =>
        if bool_decide (part = "") || bool_decide (part = ".") then go dest rest
        else if bool_decide (part = "..") then go (Dir dest) rest
        else match lstat w (dest ++ [part]) with
             | None => Err ErrNotExist
             | Some (NLink target) =>
                 match links with
                 | O => Err ErrSystem
                 | S links => eval_links links w (if IsAbs target then [] else dest) (slash_parts target ++ rest)
                 end
             | Some NDir => go (dest ++ [part]) rest
             | Some _ => if bool_decide (rest = []) then Ok (dest ++ [part]) else Err ErrSystem
             end
    end.

Definition EvalSymlinks (w : disk) (p : path) : result fs_error path := eval_links 255 w [] p.

(** The walk of [os.Root] below [base]: links are followed, the last one only when
    [follow]; absolute links and steps above the root are refused; the last
    component may be missing. *)
Fixpoint walk_links (links : nat) (w : disk) (base : path) (follow : bool) : path -> path -> result fs_error path :=
  fix go (dest rest : path) {struct rest} : result fs_error path :=
    match rest with
    | [] => Ok dest
    | part :: rest =>
        if bool_decide (part = "") || bool_decide (part = ".") then go dest rest
        else if bool_decide (part = "..") then (if bool_decide (dest = []) then Err ErrSystem else go (Dir dest) rest)
        else match lstat w (base ++ dest ++ [part]) with
             | Some (NLink target) =>
                 if bool_decide (rest = []) && negb follow then Ok (dest ++ [part])
                 else if IsAbs target then Err ErrSystem
                 else match links with
                      | O => Err ErrSystem
                      | S links => walk_links links w base follow dest (slash_parts target ++ rest)
                      end
             | Some NDir => go (dest ++ [part]) rest
             | Some _ => if bool_decide (rest = []) then Ok (dest ++ [part]) else Err ErrSystem
             | None => if bool_decide (rest = []) then Ok (dest ++ [part]) else Err ErrNotExist
             end
    end.

Definition root_walk (w : disk) (base : path) (follow : bool) (p : path) : result fs_error path :=
  let? r := walk_links 8 w base follow [] p in Ok (base ++ r).

Definition below (p q : path) : bool := bool_decide (p `prefix_of` q).

(** The names in a directory. *)
Definition children (w : disk) (p : path) : list string :=
  omap (fun q => if bool_decide (q <> [] /\ Dir q = p) then last q else None) (map_to_list w).*1.

(** ** The policy *)

Record Policy := MkPolicy { po_ReadOnly : bool; po_HideHidden : bool; po_Exclude : list string; po_MaxEntries : Z }.
Record Local := MkLocal { lo_path : path; lo_file : string; lo_policy : Policy }.

(** The path and its ancestors, without ".". *)
Fixpoint ancestors (fuel : nat) (p : path) : list path :=
  match fuel, p with
  | S fuel, _ :: _ => p :: ancestors fuel (Dir p)
  | _, _ => []
  end.

Section Policies.
Context (Match : string -> string -> bool) (names : list string -> list string) (cancelled : Z -> bool) (f : Local).

Definition excluded (pattern : string) (current : path) : bool :=
  let candidate := if contains_byte x2f (s2b pattern) then Join current "/" else default "" (last current) in
  Match pattern candidate.

Definition private_part (part : string) : bool := HasPrefix (ToLower part) uploadPrefix.

Definition allowed (name : path) : bool :=
  if negb (bool_decide (lo_file f = "")) && bool_decide (name = []) then true
  else if negb (bool_decide (lo_file f = "")) && negb (bool_decide (Join name "/" = lo_file f)) then false
  else if existsb (fun part => private_part part || (bool_decide (lo_file f = "") && po_HideHidden (lo_policy f) && negb (bool_decide (part = ".")) && HasPrefix part ".")) name then false
  else negb (existsb (fun pattern => existsb (excluded pattern) (ancestors (length name) name)) (po_Exclude (lo_policy f))).

Definition lexical (name : string) : result fs_error path :=
  if contains_byte x5c (s2b name) || contains_byte x00 (s2b name) then Err ErrNotExist
  else
    let relative := if HasPrefix name "/" then b2s (drop 1 (s2b name)) else name in
    let relative := if bool_decide (relative = "") then "." else relative in
    if negb (IsLocal relative) then Err ErrPermission
    else if existsb (fun part => bool_decide (part = "..")) (slash_parts relative) then Err ErrPermission
    else
      let relative := clean false (slash_parts relative) in
      if negb (allowed relative) then Err ErrNotExist else Ok relative.

Definition resolve (w : disk) (name : string) (parent : bool) : result fs_error path :=
  let? relative := lexical name in
  let target := lo_path f ++ relative in
  let? resolved := EvalSymlinks w (if parent then Dir target else target) in
  let resolved := if parent then with_base resolved target else resolved in
  let result := Rel (lo_path f) resolved in
  if negb (local_parts result) then Err ErrPermission
  else if negb (allowed result) then Err ErrNotExist
  else Ok result.

Definition writeAllowed : result fs_error () :=
  if cancelled 10000 then Err ErrCancelled else if po_ReadOnly (lo_policy f) then Err ErrPermission else Ok ().

(** [visit] of [checkMutationTree]: what remains of the budget, or the error. *)
Fixpoint visit (fuel : nat) (w : disk) (source destination : path) (depth remaining : Z) : result fs_error Z :=
  if cancelled remaining then Err ErrCancelled
  else
    let remaining := remaining - 1 in
    if (remaining <? 0) || (depth >? 64) then Err ErrListingLimit
    else if negb (allowed source) || negb (allowed destination) then Err ErrPermission
    else match lstat w (lo_path f ++ source) with
         | None => Err ErrNotExist
         | Some NDir =>
             match fuel with
             | O => Err ErrListingLimit
             | S fuel =>
                 foldl (fun acc entry => let? remaining := acc in visit fuel w (source ++ [entry]) (destination ++ [entry]) (depth + 1) remaining)
                   (Ok remaining) (names (children w (lo_path f ++ source)))
             end
         | Some _ => Ok remaining
         end.

Definition checkMutationTree (w : disk) (source destination : path) : result fs_error () :=
  let? _ := visit 65 w source destination 0 10000 in Ok ().

(** ** Requests *)

Record flags := MkFlags { fl_write : bool; fl_create : bool; fl_trunc : bool; fl_append : bool; fl_excl : bool }.

(** What is asked of [os.Root] once a request has been resolved. *)
Inductive root_op :=
| OpOpen (p : path) (fl : flags)
| OpStat (p : path)
| OpMkdir (p : path)
| OpRemoveAll (p : path)
| OpRename (p q : path).

Definition prepare_open (w : disk) (name : string) (fl : flags) : result fs_error root_op :=
  if cancelled 10000 then Err ErrCancelled
  else if po_ReadOnly (lo_policy f) && (fl_write fl || fl_create fl || fl_trunc fl || fl_append fl) then Err ErrPermission
  else
    let? relative :=
      match resolve w name false with
      | Err ErrNotExist =>
          if fl_create fl then
            let? relative := resolve w name true in
            match lstat w (lo_path f ++ relative) with Some _ => Err ErrNotExist | None => Ok relative end
          else Err ErrNotExist
      | r => r
      end in
    Ok (OpOpen relative fl).

Definition prepare_stat (w : disk) (name : string) : result fs_error root_op :=
  if cancelled 10000 then Err ErrCancelled else let? relative := resolve w name false in Ok (OpStat relative).

Definition prepare_mkdir (w : disk) (name : string) : result fs_error root_op :=
  let? _ := writeAllowed in
  let? relative := resolve w name true in
  Ok (OpMkdir relative).

Definition prepare_remove (w : disk) (name : string) : result fs_error root_op :=
  let? _ := writeAllowed in
  let? relative := resolve w name true in
  if bool_decide (relative = []) then Err ErrPermission
  else let? _ := checkMutationTree w relative relative in Ok (OpRemoveAll relative).

Definition prepare_rename (w : disk) (oldName newName : string) : result fs_error root_op :=
  let? _ := writeAllowed in
  let? oldPath := resolve w oldName true in
  let? newPath := resolve w newName true in
  if bool_decide (oldPath = []) || bool_decide (newPath = []) then Err ErrPermission
  else let? _ := checkMutationTree w oldPath newPath in Ok (OpRename oldPath newPath).
End Policies.

(** ** Operations of [os.Root] on the disk *)

Inductive response := RsFile (p : path) (data : list byte) | RsDir (p : path) | RsDone.

Definition remove_tree (p : path) (w : disk) : disk := filter (fun kv => ~ p `prefix_of` kv.1) w.

(** The subtree at [p], with its paths moved below [q]. *)
Definition moved (p q : path) (w : disk) : disk :=
  list_to_map ((fun kv => (q ++ drop (length p) kv.1, kv.2)) <$> filter (fun kv => p `prefix_of` kv.1) (map_to_list w)).

Definition open_at (p : path) (fl : flags) (w : disk) : result fs_error response * disk :=
  match lstat w p with
  | None => if fl_create fl then (Ok (RsFile p []), <[p := NFile []]> w) else (Err ErrNotExist, w)
  | Some n =>
      if fl_create fl && fl_excl fl then (Err ErrExist, w)
      else match n with
           | NDir => if fl_write fl || fl_create fl || fl_trunc fl then (Err ErrSystem, w) else (Ok (RsDir p), w)
           | NFile data => if fl_trunc fl then (Ok (RsFile p []), <[p := NFile []]> w) else (Ok (RsFile p data), w)
           | NLink _ => (Err ErrSystem, w)
           | NOther => (Err ErrPermission, w)
           end
  end.

Definition rename_at (p q : path) (w : disk) : result fs_error response * disk :=
  match lstat w p with
  | None => (Err ErrNotExist, w)
  | Some n =>
      if bool_decide (p = q) then (Ok RsDone, w)
      else if below p q then (Err ErrSystem, w)
      else if negb (bool_decide (lstat w (Dir q) = Some NDir)) then (Err ErrSystem, w)
      else
        let replace := (Ok RsDone, moved p q w ∪ delete q (remove_tree p w)) in
        match lstat w q with
        | None => replace
        | Some NDir => if bool_decide (n = NDir) && bool_decide (children w q = []) then replace else (Err ErrSystem, w)
        | Some _ => if bool_decide (n = NDir) then (Err ErrSystem, w) else replace
        end
  end.

Definition perform (base : path) (op : root_op) (w : disk) : result fs_error response * disk :=
  let at_ p follow k := match root_walk w base follow p with Err e => (Err e, w) | Ok p => k p end in
  match op with
  | OpOpen p fl => at_ p (negb (fl_create fl && fl_excl fl)) (fun p => open_at p fl w)
  | OpStat p => at_ p true (fun p => match lstat w p with
                                     | Some NDir => (Ok (RsDir p), w)
                                     | Some (NFile data) => (Ok (RsFile p data), w)
                                     | Some _ => (Err ErrPermission, w)
                                     | None => (Err ErrNotExist, w)
                                     end)
  | OpMkdir p => at_ p false (fun p => match lstat w p with Some _ => (Err ErrExist, w) | None => (Ok RsDone, <[p := NDir]> w) end)
  | OpRemoveAll p => at_ p false (fun p => (Ok RsDone, remove_tree p w))
  | OpRename p q => at_ p false (fun p => at_ q false (fun q => rename_at p q w))
  end.

(** Data written through a file that was opened for writing. *)
Definition write_file (p : path) (data : list byte) (w : disk) : disk :=
  match lstat w p with Some (NFile _) => <[p := NFile data]> w | _ => w end.

(** ** Serving a request *)

Inductive request := QOpen (name : string) (fl : flags) | QStat (name : string) | QMkdir (name : string) | QRemoveAll (name : string) | QRename (oldName newName : string).

Section Serve.
Context (Match : string -> string -> bool) (names : list string -> list string) (cancelled : Z -> bool) (f : Local).

Definition prepare (w : disk) (rq : request) : result fs_error root_op :=
  match rq with
  | QOpen name fl => prepare_open Match cancelled f w name fl
  | QStat name => prepare_stat Match cancelled f w name
  | QMkdir name => prepare_mkdir Match cancelled f w name
  | QRemoveAll name => prepare_remove Match names cancelled f w name
  | QRename a b => prepare_rename Match names cancelled f w a b
  end.

Definition serve (w : disk) (rq : request) : result fs_error response * disk :=
  match prepare w rq with Err e => (Err e, w) | Ok op => perform (lo_path f) op w end.

(** *** Uploads ([atomic_upload.go])

    The [PUT] of a client is opened by [atomicWebDAV.OpenFile]: the body goes to a
    new file with a private name beside the target, which takes the target's place
    when the body is complete and valid, or is removed. *)

Record atomicUpload := MkUpload { up_target : path; up_temporary : path }.

(** [os.Root.Lstat], a missing node being an answer. *)
Definition root_lstat (w : disk) (p : path) : result fs_error (option node) :=
  match root_walk w (lo_path f) false p with
  | Ok p => Ok (lstat w p)
  | Err ErrNotExist => Ok None
  | Err e => Err e
  end.

Definition openUpload (w : disk) (name text : string) : result fs_error atomicUpload * disk :=
  let checked :=
    let? _ := writeAllowed cancelled f in
    let? target := match resolve Match f w name false with Err ErrNotExist => resolve Match f w name true | r => r end in
    let? info := root_lstat w target in
    match info with
    | Some (NFile _) | None => Ok target
    | Some _ => Err ErrPermission
    end in
  match checked with
  | Err e => (Err e, w)
  | Ok target =>
      let temporary := Dir target ++ [(uploadPrefix +:+ text)%string] in
      match perform (lo_path f) (OpOpen temporary (MkFlags true true false false true)) w with
      | (Ok _, w') => (Ok (MkUpload target temporary), w')
      | (Err e, w') => (Err e, w')
      end
  end.

(** [os.Root.Remove]. *)
Definition remove_at (w : disk) (p : path) : result fs_error () * disk :=
  match root_walk w (lo_path f) false p with
  | Err e => (Err e, w)
  | Ok p =>
      match lstat w p with
      | None => (Err ErrNotExist, w)
      | Some NDir => if bool_decide (children w p = []) then (Ok (), delete p w) else (Err ErrSystem, w)
      | Some _ => (Ok (), delete p w)
      end
  end.

(** [Close]: the body was [valid], and took the target's place, or was not. *)
Definition closeUpload (w : disk) (u : atomicUpload) (valid : bool) : result fs_error () * disk :=
  if valid then
    match perform (lo_path f) (OpRename (up_temporary u) (up_target u)) w with
    | (Ok _, w') => (Ok (), w')
    | (Err e, w') => (Err e, (remove_at w' (up_temporary u)).2)
    end
  else (Err ErrSystem, (remove_at w (up_temporary u)).2).

(** ** Listing a directory *)

(** An open directory: its name, the entries it has still to list, how many were counted. *)
Record localFile := MkLocalFile { lf_name : path; lf_rest : list string; lf_seen : Z }.

Definition stat_ok (w : disk) (name : path) : bool :=
  match (serve w (QStat (Join name "/"))).1 with Ok _ => true | Err _ => false end.

Inductive listing := Listed (l : list string) | AtEnd | Failed (e : fs_error).

(** The loop of [Readdir]; [n] entries are in the result. *)
Fixpoint readdir_loop (w : disk) (count : Z) (name : path) (rest result : list string) (seen : Z) : listing * localFile :=
  if (count <=? 0) || (Z.of_nat (length result) <? count) then
    if cancelled 10000 then (Failed ErrCancelled, MkLocalFile name rest seen)
    else match rest with
         | [] => ((if (count >? 0) && bool_decide (result = []) then AtEnd else Listed result), MkLocalFile name [] seen)
         | item :: rest =>
             if HasPrefix item uploadPrefix then readdir_loop w count name rest result seen
             else
               let seen := seen + 1 in
               if (po_MaxEntries (lo_policy f) >? 0) && (seen >? po_MaxEntries (lo_policy f)) then (Failed ErrListingLimit, MkLocalFile name rest seen)
               else if negb (allowed Match f (name ++ [item])) then readdir_loop w count name rest result seen
               else if stat_ok w (name ++ [item]) then readdir_loop w count name rest (result ++ [item]) seen
               else readdir_loop w count name rest result seen
         end
  else (Listed result, MkLocalFile name rest seen).

Definition Readdir (w : disk) (count : Z) (d : localFile) : listing * localFile :=
  if negb (bool_decide (lo_file f = "")) && bool_decide (lf_name d = []) then
    if lf_seen d >? 0 then ((if count >? 0 then AtEnd else Listed []), d)
    else
      let d := {| d with lf_seen := lf_seen d + 1 |} in
      match (serve w (QStat (lo_file f))).1 with Err e => (Failed e, d) | Ok _ => (Listed [lo_file f], d) end
  else readdir_loop w count (lf_name d) (lf_rest d) [] (lf_seen d).

Fixpoint count_entries (l : list string) (n : Z) : Z :=
  match l with [] => n | e :: l => count_entries l (if HasPrefix e uploadPrefix then n else n + 1) end.

(** The loop of [checkDirectoryLimit] over the batches of [Readdirnames(128)]. *)
Fixpoint limit_batches (batches : list (list string)) (n : Z) : result fs_error () :=
  match batches with
  | [] => if cancelled 10000 then Err ErrCancelled else Ok ()
  | b :: batches =>
      if cancelled 10000 then Err ErrCancelled
      else
        let n := count_entries b n in
        if n >? po_MaxEntries (lo_policy f) then Err ErrListingLimit else limit_batches batches n
  end.

Definition checkDirectoryLimit (w : disk) (name : string) (batches : path -> list (list string)) : result fs_error () :=
  if (po_MaxEntries (lo_policy f) <=? 0) || negb (bool_decide (lo_file f = "")) then Ok ()
  else match (serve w (QOpen name (MkFlags false false false false false))).1 with
       | Err e => Err e
       | Ok (RsDir p) => limit_batches (batches p) 0
       | Ok _ => Ok ()
       end.
End Serve.

(** ** Containment *)

Definition plain (c : string) : Prop := c <> "" /\ c <> "." /\ c <> "..".
Definition not_link (n : option node) : Prop := forall t, n <> Some (NLink t).
Definition no_links (w : disk) (p : path) : Prop := forall q, q `prefix_of` p -> not_link (lstat w q).

(** Directories hold the nodes below them. *)
Definition disk_ok (w : disk) : Prop := forall p c n, w !! (p ++ [c]) = Some n -> lstat w p = Some NDir.

(** Outside of the export, or hidden by its policy. *)
Definition protected Match (f : Local) (p : path) : Prop := forall r, p = lo_path f ++ r -> allowed Match f r = false.

Lemma prefix_snoc_cases {A} (q p : list A) (c : A) : q `prefix_of` p ++ [c] -> q `prefix_of` p \/ q = p ++ [c].
Proof.
  intros [r Hr]. destruct (decide (r = [])) as [-> |Hn]; [right; by rewrite app_nil_r in Hr|]. left.
  destruct (exists_last Hn) as (r' & x & ->). rewrite app_assoc in Hr. apply app_inj_tail in Hr as [-> _]. by exists r'.
Qed.

Lemma no_links_snoc w p c : no_links w p -> not_link (lstat w (p ++ [c])) -> no_links w (p ++ [c]).
Proof. intros Hp Hc q [Hq| ->]%prefix_snoc_cases; [by apply Hp|done]. Qed.

Lemma no_links_Dir w p : no_links w p -> no_links w (Dir p).
Proof.
  intros H q Hq. apply H. etransitivity; [exact Hq|]. destruct (decide (p = [])) as [-> |Hn]; [done|].
  destruct (exists_last Hn) as (r & x & ->). unfold Dir. rewrite removelast_last. by exists [x].
Qed.

Lemma Forall_Dir {A} (P : A -> Prop) (p : list A) : Forall P p -> Forall P (removelast p).
Proof.
  intros H. destruct (decide (p = [])) as [-> |Hn]; [done|]. destruct (exists_last Hn) as (r & x & ->). rewrite removelast_last. by apply Forall_app in H as [? _].
Qed.

Lemma plain_part c : bool_decide (c = "") || bool_decide (c = ".") = false -> bool_decide (c = "..") = false -> plain c.
Proof. intros [?%bool_decide_eq_false ?%bool_decide_eq_false]%orb_false_iff ?%bool_decide_eq_false. done. Qed.

(** What [EvalSymlinks] returns goes through no link. *)
Lemma eval_links_real links w : forall rest dest o, eval_links links w dest rest = Ok o -> no_links w dest -> Forall plain dest -> no_links w o /\ Forall plain o.
Proof.
  induction links as [|links IHl]; intros rest; induction rest as [|part rest IH]; intros dest o; cbn [eval_links]; try (by intros [= <-]).
  all: destruct (bool_decide (part = "") || bool_decide (part = ".")) eqn:Es; [apply IH|]; destruct (bool_decide (part = "..")) eqn:Ed;
    [intros H Hn Hp; eapply IH; [exact H|by apply no_links_Dir|by apply Forall_Dir]|].
  all: pose proof (plain_part _ Es Ed) as Hpl.
  all: destruct (lstat w (dest ++ [part])) as [[| |t|]|] eqn:El; try done.
  all: try (intros H Hn Hp; eapply IH; [exact H|apply no_links_snoc; [done|rewrite El; done]|apply Forall_app; split; [done|by constructor]]).
  all: try (destruct (bool_decide (rest = [])); [|done]; intros [= <-] Hn Hp; split; [apply no_links_snoc; [done|rewrite El; done]|apply Forall_app; split; [done|by constructor]]).
  intros H Hn Hp. eapply IHl; [exact H| |]; destruct (IsAbs t); try done.
  intros q Hq. apply prefix_nil_inv in Hq as ->. done.
Qed.

(** A path without links below the root is walked as it is. *)
Lemma walk_direct links w base follow : forall rest dest o, walk_links links w base follow dest rest = Ok o -> Forall plain rest ->
  (forall q c r, rest = q ++ c :: r -> r <> [] \/ follow = true -> not_link (lstat w (base ++ dest ++ q ++ [c]))) -> o = dest ++ rest.
Proof.
  intros rest. induction rest as [|part rest IH]; intros dest o.
  { destruct links; cbn; intros [= <-]; by rewrite app_nil_r. }
  intros H [(H1 & H2 & H3) Hp]%Forall_cons Hl. specialize (IH (dest ++ [part])).
  assert (Hnext : walk_links links w base follow (dest ++ [part]) rest = Ok o -> o = dest ++ part :: rest).
  { intros Hn. rewrite (IH o Hn Hp); [by rewrite <-app_assoc|]. intros q c r -> Hr. specialize (Hl (part :: q) c r eq_refl Hr). by rewrite <-!app_assoc. }
  assert (Hlink : forall t, lstat w (base ++ dest ++ [part]) = Some (NLink t) -> rest = [] /\ follow = false).
  { intros t Ht. destruct rest as [|c rest]; [|by destruct (Hl [] part (c :: rest) eq_refl ltac:(by left) t)]. split; [done|].
    destruct follow; [|done]. by destruct (Hl [] part [] eq_refl ltac:(by right) t). }
  assert (Hend : bool_decide (rest = []) = true -> dest ++ [part] = dest ++ part :: rest) by (intros ->%bool_decide_eq_true; done).
  destruct links; cbn in H; rewrite !(bool_decide_false (part = _)) in H by done; cbn [orb] in H.
  all: destruct (lstat w (base ++ dest ++ [part])) as [[| |t|]|] eqn:El; cbv beta iota in H; [by apply Hnext| | | |].
  all: try (destruct (Hlink t eq_refl) as [-> ->]; cbn in H; by injection H as <-).
  all: destruct (bool_decide (rest = [])) eqn:Hb; [|done]; injection H as <-; by apply Hend.
Qed.

Lemma Rel_local base target : local_parts (Rel base target) = true -> target = base ++ Rel base target.
Proof.
  revert target. induction base as [|b base IH]; intros target; [done|]. destruct target as [|t target]; cbn [Rel]; [done|].
  case_bool_decide as Hb; [|done]. subst t. intros H. cbn. f_equal. by apply IH.
Qed.

Lemma clean_parts_plain parts acc : existsb (fun part => bool_decide (part = "..")) parts = false -> Forall plain acc ->
  Forall plain (foldl (clean_part false) acc parts).
Proof.
  revert acc. induction parts as [|part parts IH]; intros acc; cbn [foldl existsb]; [done|]. intros [Hd Hr]%orb_false_iff Ha. apply IH; [done|].
  unfold clean_part. destruct (bool_decide (part = "") || bool_decide (part = ".")) eqn:Es; [done|]. rewrite Hd. constructor; [by apply plain_part|done].
Qed.

Lemma app_nonempty {A} (p x : list A) : p <> [] -> p ++ x <> [].
Proof. by destruct p. Qed.

Section Contained.
Context (Match : string -> string -> bool) (names : list string -> list string) (cancelled : Z -> bool) (f : Local).
Context (Hnames : forall l, names l ≡ₚ l) (Hroot : Forall plain (lo_path f)).
Notation base := (lo_path f).
Notation allowed := (allowed Match f).
Notation protected := (protected Match f).

Lemma lexical_plain name r : lexical Match f name = Ok r -> Forall plain r /\ allowed r = true.
Proof.
  unfold lexical. destruct (_ || _); [done|]. cbv zeta. set (rel := if bool_decide _ then _ else _). destruct (negb (IsLocal rel)); [done|].
  destruct (existsb _ _) eqn:Ee; [done|]. destruct (allowed _) eqn:Ea; [|done]. cbn. intros [= <-]. split; [|done].
  unfold clean. apply Forall_rev. by apply clean_parts_plain.
Qed.

(** A resolved name is visible and reaches its node without links; the last component may be one when only the parent was resolved. *)
Record direct (w : disk) (parent : bool) (r : path) : Prop := {
  di_allowed : allowed r = true;
  di_plain : Forall plain r;
  di_links : forall q c s, r = q ++ c :: s -> s <> [] \/ parent = false -> not_link (lstat w (base ++ q ++ [c]));
}.

Lemma no_links_parts w p q c s : no_links w (p ++ q ++ c :: s) -> not_link (lstat w (p ++ q ++ [c])).
Proof. intros H. apply H. exists s. by rewrite <-!app_assoc. Qed.

Lemma resolve_direct w name parent r : resolve Match f w name parent = Ok r -> direct w parent r.
Proof.
  unfold resolve. destruct (lexical _ _ name) as [rel|] eqn:El; [|done]. apply lexical_plain in El as [Hpl _]. cbv zeta.
  destruct (EvalSymlinks _ _) as [o|] eqn:Ee; [|done]. apply eval_links_real in Ee as [Hl Ho]; [|intros q Hq; apply prefix_nil_inv in Hq as ->; done|done].
  set (rs := if parent then with_base o (base ++ rel) else o). destruct (local_parts (Rel base rs)) eqn:Er; [|done]. cbn [negb].
  destruct (allowed (Rel base rs)) eqn:Ea; [|done]. cbn. intros [= <-]. apply Rel_local in Er. set (x := Rel base rs) in *.
  assert (Hrs : Forall plain rs).
  { unfold rs. destruct parent; [|done]. unfold with_base. destruct (last (base ++ rel)) as [b|] eqn:Eb; [|done]. apply Forall_app. split; [done|].
    constructor; [|done]. apply last_Some in Eb as [l' Hl']. assert (Hall : Forall plain (base ++ rel)) by (by apply Forall_app). rewrite Hl' in Hall.
    apply Forall_app in Hall as [_ Hall]. by apply Forall_cons in Hall as [? _]. }
  constructor; [done| |].
  - rewrite Er in Hrs. by apply Forall_app in Hrs as [_ ?].
  - intros q c s Hx Hs. rewrite Hx in Er. subst rs. destruct parent.
    + destruct Hs as [Hs|Hs]; [|done]. destruct (exists_last Hs) as (s' & z & ->). unfold with_base in Er. destruct (last (base ++ rel)) as [b|].
      * rewrite app_comm_cons, !app_assoc in Er. apply app_inj_tail in Er as [-> _]. rewrite <-app_assoc in Hl. by eapply no_links_parts.
      * subst o. by eapply no_links_parts.
    + subst o. by eapply no_links_parts.
Qed.

Lemma direct_walk w parent follow r p : direct w parent r -> (parent = false \/ follow = false \/ not_link (lstat w (base ++ r))) ->
  root_walk w base follow r = Ok p -> p = base ++ r.
Proof.
  intros [_ Hp Hl] Hf. unfold root_walk. destruct (walk_links _ _ _ _ _ _) as [o|] eqn:Ew; [|done]. intros [= <-]. f_equal.
  eapply walk_direct in Ew; [exact Ew|done|]. intros q c s Hr Hs. cbn [app]. destruct Hf as [Hf|[Hf|Hf]].
  - apply (Hl q c s Hr). by right.
  - apply (Hl q c s Hr). destruct Hs; [by left|congruence].
  - destruct (decide (s = [])) as [-> |Hn]; [by rewrite Hr in Hf|]. apply (Hl q c s Hr). by left.
Qed.

(** *** Trees *)

Lemma children_elem w p c n : w !! (p ++ [c]) = Some n -> c ∈ children w p.
Proof.
  intros H. unfold children. apply list_elem_of_omap. exists (p ++ [c]). split.
  - apply list_elem_of_fmap. exists (p ++ [c], n). split; [done|]. by apply elem_of_map_to_list.
  - rewrite bool_decide_true; [by rewrite last_snoc|]. split; [by destruct p|]. unfold Dir. by rewrite removelast_last.
Qed.

Lemma fold_error {A} (g : Z -> A -> result fs_error Z) l e : foldl (fun acc x => let? r := acc in g r x) (Err e) l = Err e.
Proof. induction l; [done|]. cbn. done. Qed.

Lemma fold_elem {A} (g : Z -> A -> result fs_error Z) l n m x : foldl (fun acc x => let? r := acc in g r x) (Ok n) l = Ok m -> x ∈ l -> exists a b, g a x = Ok b.
Proof.
  revert n. induction l as [|y l IH]; intros n; cbn [foldl]; [intros _ Hx; inversion Hx|]. intros H Hx.
  destruct (g n y) as [k|e] eqn:Eg; [|by rewrite fold_error in H]. apply elem_of_cons in Hx as [-> |Hx]; [eauto|by eapply IH].
Qed.

Lemma disk_ok_dir w p c x k : disk_ok w -> lstat w (p ++ c :: x) = Some k -> lstat w p = Some NDir /\ exists n, w !! (p ++ [c]) = Some n.
Proof.
  intros Hw. revert k. induction x as [|y x IH] using rev_ind; intros k Hx; unfold lstat in Hx; rewrite bool_decide_false in Hx by (by destruct p).
  - split; [by eapply Hw|eauto].
  - rewrite app_comm_cons, app_assoc in Hx. by apply Hw, IH in Hx.
Qed.

(** A tree that was visited has nothing hidden, where it is and where it goes. *)
Lemma visit_visible w : disk_ok w -> forall fuel s d depth n m, visit Match names cancelled f fuel w s d depth n = Ok m ->
  forall x k, lstat w (base ++ s ++ x) = Some k -> allowed (s ++ x) = true /\ allowed (d ++ x) = true.
Proof.
  intros Hw. induction fuel as [|fuel IH]; intros s d depth n m; cbn [visit].
  all: destruct (cancelled n); [done|]; cbv zeta; destruct (_ || _); [done|]; destruct (allowed s) eqn:Es; [|done]; destruct (allowed d) eqn:Ed; [|done]; cbn [negb orb].
  all: intros H x k Hx; destruct x as [|c x]; [by rewrite !app_nil_r|]; rewrite app_assoc in Hx; destruct (disk_ok_dir _ _ _ _ _ Hw Hx) as [Hdir [nc Hc]]; rewrite Hdir in H.
  { done. }
  apply children_elem in Hc. assert (Hin : c ∈ names (children w (base ++ s))) by (by rewrite Hnames).
  eapply (fold_elem (fun r entry => visit Match names cancelled f fuel w (s ++ [entry]) (d ++ [entry]) (depth + 1) r)) in H as (a & b & Hv); [|exact Hin].
  destruct (IH _ _ _ _ _ Hv x k) as [H1 H2]; [by rewrite <-!app_assoc; rewrite <-app_assoc in Hx|]. by rewrite <-!app_assoc in H1, H2.
Qed.

Lemma tree_visible w s d : disk_ok w -> checkMutationTree Match names cancelled f w s d = Ok () ->
  forall x k, w !! (base ++ s ++ x) = Some k -> allowed (s ++ x) = true /\ allowed (d ++ x) = true.
Proof.
  intros Hw. unfold checkMutationTree. destruct (visit _ _ _ _ _ _ _ _ _ _) as [m|] eqn:Ev; [|done]. intros _ x k Hx.
  assert (Hl : exists k', lstat w (base ++ s ++ x) = Some k') by (unfold lstat; case_bool_decide; eauto).
  destruct Hl as [k' Hl]. by eapply visit_visible.
Qed.

(** *** Effects *)

Lemma lookup_remove_tree p w k : ~ p `prefix_of` k -> remove_tree p w !! k = w !! k.
Proof. intros H. unfold remove_tree. destruct (w !! k) as [n|] eqn:E; [by apply map_lookup_filter_Some|]. apply map_lookup_filter_None. by left. Qed.

Lemma lookup_moved p q w k n : moved p q w !! k = Some n -> exists x, k = q ++ x /\ w !! (p ++ x) = Some n.
Proof.
  unfold moved. intros H%elem_of_list_to_map_2. apply list_elem_of_fmap in H as ([k' n'] & Hk & [[x Hx] Hin%elem_of_map_to_list]%list_elem_of_filter).
  cbn [fst snd] in *. injection Hk as -> ->. subst k'. exists x. by rewrite drop_app_length.
Qed.

Lemma protected_not r p : allowed r = true -> protected p -> p <> base ++ r.
Proof. intros Ha Hp ->. rewrite (Hp r eq_refl) in Ha. done. Qed.

Lemma open_at_other p fl w k : k <> p -> (open_at p fl w).2 !! k = w !! k.
Proof.
  intros Hk. unfold open_at. destruct (lstat w p) as [n|].
  - destruct (_ && _); [done|]. destruct n as [| data| |]; [by destruct (_ || _)| |done|done]. destruct (fl_trunc fl); [by apply lookup_insert_ne|done].
  - destruct (fl_create fl); [by apply lookup_insert_ne|done].
Qed.

(** The disk after a rename, away from the replaced node and both trees. *)
Lemma rename_at_other p q w k : k <> q -> ~ (exists x n, k = q ++ x /\ w !! (p ++ x) = Some n) -> (p `prefix_of` k -> w !! k = None) -> (rename_at p q w).2 !! k = w !! k.
Proof.
  intros Hq Hm Hp. assert (Hr : (moved p q w ∪ delete q (remove_tree p w)) !! k = w !! k).
  { rewrite lookup_union_r; [|destruct (moved p q w !! k) as [n|] eqn:E; [|done]; apply lookup_moved in E as (x & -> & Hx); destruct Hm; eauto].
    rewrite lookup_delete_ne by done. destruct (decide (p `prefix_of` k)) as [Hb|Hb]; [|by apply lookup_remove_tree].
    rewrite (Hp Hb). apply map_lookup_filter_None. left. by apply Hp. }
  unfold rename_at. destruct (lstat w p) as [n|]; [|done]. case_bool_decide; [done|]. destruct (below p q); [done|]. destruct (negb _); [done|]. cbv zeta.
  destruct (lstat w q) as [[]|]; cbn [snd]; try done; destruct (bool_decide (n = NDir)); cbn [andb]; try done; destruct (bool_decide (children w q = [])); done.
Qed.

(** What is reached by a path that was resolved on the same disk. *)
Lemma perform_direct (w : disk) (r : path) (follow parent : bool) (k : path -> result fs_error response * disk) (p : path) : direct w parent r ->
  (parent = false \/ follow = false \/ not_link (lstat w (base ++ r))) -> (k (base ++ r)).2 !! p = w !! p ->
  (match root_walk w base follow r with Err e => (Err e, w) | Ok p => k p end).2 !! p = w !! p.
Proof. intros Hd Hf Hk. destruct (root_walk w base follow r) as [o|] eqn:E; [|done]. by rewrite (direct_walk _ _ _ _ _ Hd Hf E). Qed.

(** What an operation does on the disk it was resolved on: protected nodes stay, and what is returned is visible. *)
Definition visible_response (x : result fs_error response) : Prop :=
  match x with Ok (RsFile p _) | Ok (RsDir p) => exists r, p = base ++ r /\ allowed r = true | _ => True end.

Lemma open_response p fl w : match (open_at p fl w).1 with Ok (RsFile q _) | Ok (RsDir q) => q = p | _ => True end.
Proof. unfold open_at. destruct (lstat w p) as [[]|]; destruct fl as [[] [] [] ? []]; cbn; done. Qed.

Lemma perform_response (w : disk) (r : path) (follow parent : bool) (k : path -> result fs_error response * disk) : direct w parent r ->
  (parent = false \/ follow = false \/ not_link (lstat w (base ++ r))) -> visible_response (k (base ++ r)).1 ->
  visible_response (match root_walk w base follow r with Err e => (Err e, w) | Ok p => k p end).1.
Proof. intros Hd Hf Hk. destruct (root_walk w base follow r) as [o|] eqn:E; [|done]. by rewrite (direct_walk _ _ _ _ _ Hd Hf E). Qed.

Lemma prepare_open_direct w name fl op : prepare_open Match cancelled f w name fl = Ok op -> exists r parent, op = OpOpen r fl /\ direct w parent r /\
  (parent = false \/ not_link (lstat w (base ++ r))) /\ (po_ReadOnly (lo_policy f) = true -> fl_create fl || fl_trunc fl = false).
Proof.
  unfold prepare_open. destruct (cancelled 10000); [done|]. destruct (po_ReadOnly (lo_policy f) && _) eqn:Er; [done|].
  assert (Hro : po_ReadOnly (lo_policy f) = true -> fl_create fl || fl_trunc fl = false) by (intros Hr; rewrite Hr in Er; destruct fl as [[] [] [] [] ?]; done).
  destruct (resolve _ f w name false) as [r|[]] eqn:E1; cbv beta iota; try done.
  - intros [= <-]. exists r, false. repeat split; auto; by apply resolve_direct in E1 as [].
  - destruct (fl_create fl); [|done]. destruct (resolve _ f w name true) as [r|] eqn:E2; [|done]. destruct (lstat w (base ++ r)) eqn:El; [done|].
    intros [= <-]. exists r, true. split; [done|]. split; [by eapply resolve_direct|]. split; [right; intros t; rewrite El; done|done].
Qed.

Lemma write_checked (A : result fs_error root_op) op : (let? _ := writeAllowed cancelled f in A) = Ok op -> po_ReadOnly (lo_policy f) = false /\ A = Ok op.
Proof. unfold writeAllowed. destruct (cancelled 10000); [done|]. by destruct (po_ReadOnly _). Qed.

(** The root stays as well. *)
Definition kept (p : path) : Prop := protected p \/ p = base.

Lemma kept_not r p : allowed r = true -> r <> [] -> kept p -> p <> base ++ r.
Proof. intros Ha Hr [Hp| ->]; [by apply protected_not|]. intros H. apply Hr. by apply (app_inv_head base); rewrite app_nil_r. Qed.

Lemma serve_kept w rq p : disk_ok w -> lstat w base = Some NDir -> kept p -> (serve Match names cancelled f w rq).2 !! p = w !! p.
Proof.
  intros Hw Hb Hp. unfold serve. destruct (prepare _ _ _ _ w rq) as [op|] eqn:E; [|done]. destruct rq as [name fl|name|name|name|a b]; cbn [prepare] in E.
  - apply prepare_open_direct in E as (r & parent & -> & Hd & Hl & _). cbn [perform]. eapply perform_direct; [done|destruct Hl; auto|]. destruct (decide (r = [])) as [-> |Hr].
    { unfold open_at. rewrite app_nil_r, Hb. by destruct fl as [[] [] [] ? []]. }
    apply open_at_other. eapply kept_not; [apply Hd|done|done].
  - unfold prepare_stat in E. destruct (cancelled 10000); [done|]. destruct (resolve _ _ _ _ _) as [r|] eqn:Er; [|done]. injection E as <-. apply resolve_direct in Er.
    cbn [perform]. eapply perform_direct; [done|by left|]. cbv beta. by destruct (lstat w (base ++ r)) as [[]|].
  - apply write_checked in E as [_ E]. destruct (resolve _ _ _ _ _) as [r|] eqn:Er; [|done]. injection E as <-. apply resolve_direct in Er. cbn [perform].
    eapply perform_direct; [done|by right; left|]. destruct (decide (r = [])) as [-> |Hr]; [by rewrite app_nil_r, Hb|]. cbv beta. destruct (lstat w (base ++ r)); [done|]. cbn [snd].
    apply lookup_insert_ne, not_eq_sym. eapply kept_not; [apply Er|done|done].
  - apply write_checked in E as [_ E]. destruct (resolve _ _ _ _ _) as [r|] eqn:Er; [|done]. case_bool_decide as Hr; [done|].
    destruct (checkMutationTree _ _ _ _ _ _ _) as [[]|] eqn:Et; [|done]. injection E as <-. apply resolve_direct in Er. cbn [perform].
    eapply perform_direct; [done|by right; left|]. cbn [snd]. destruct (decide (base ++ r `prefix_of` p)) as [[x ->]|Hn]; [|by apply lookup_remove_tree].
    destruct (w !! ((base ++ r) ++ x)) as [k|] eqn:Ek; [|apply map_lookup_filter_None; by left]. rewrite <-app_assoc in Ek.
    destruct (tree_visible _ _ _ Hw Et x k Ek) as [Ha _]. destruct (kept_not _ _ Ha (app_nonempty _ _ Hr) Hp). by rewrite <-app_assoc.
  - apply write_checked in E as [_ E]. destruct (resolve _ _ _ a _) as [r|] eqn:Er; [|done]. destruct (resolve _ _ _ b _) as [q|] eqn:Eq; [|done].
    destruct (_ || _) eqn:Ee; [done|]. apply orb_false_iff in Ee as [Hr%bool_decide_eq_false Hq%bool_decide_eq_false]. destruct (checkMutationTree _ _ _ _ _ _ _) as [[]|] eqn:Et; [|done]. injection E as <-. apply resolve_direct in Er, Eq. cbn [perform].
    eapply perform_direct; [done|by right; left|]. eapply perform_direct; [done|by right; left|]. apply rename_at_other.
    + eapply kept_not; [apply Eq|done|done].
    + intros (x & n & -> & Hx). rewrite <-app_assoc in Hx. destruct (tree_visible _ _ _ Hw Et x n Hx) as [_ Ha]. destruct (kept_not _ _ Ha (app_nonempty _ _ Hq) Hp). by rewrite <-app_assoc.
    + intros [x ->]. destruct (w !! ((base ++ r) ++ x)) as [k|] eqn:Ek; [|done]. rewrite <-app_assoc in Ek.
      destruct (tree_visible _ _ _ Hw Et x k Ek) as [Ha _]. destruct (kept_not _ _ Ha (app_nonempty _ _ Hr) Hp). by rewrite <-app_assoc.
Qed.

Lemma serve_visible w rq : visible_response (serve Match names cancelled f w rq).1.
Proof.
  unfold serve. destruct (prepare _ _ _ _ w rq) as [op|] eqn:E; [|done]. destruct rq as [name fl|name|name|name|a b]; cbn [prepare] in E.
  - apply prepare_open_direct in E as (r & parent & -> & Hd & Hl & _). cbn [perform]. eapply perform_response; [done|destruct Hl; auto|].
    pose proof (open_response (base ++ r) fl w) as Ho. unfold visible_response. destruct (open_at _ fl w).1 as [[q ?|q|]|]; [| |done|done]; subst q; exists r; split; [done|apply Hd|done|apply Hd].
  - unfold prepare_stat in E. destruct (cancelled 10000); [done|]. destruct (resolve _ _ _ _ _) as [r|] eqn:Er; [|done]. injection E as <-. apply resolve_direct in Er.
    cbn [perform]. eapply perform_response; [done|by left|]. destruct (lstat w _) as [[]|]; try done; exists r; split; [done|apply Er|done|apply Er].
  - apply write_checked in E as [_ E]. destruct (resolve _ _ _ _ _) as [r|]; [|done]. injection E as <-. cbn [perform]. destruct (root_walk _ _ _ _); [|done]. by destruct (lstat w _).
  - apply write_checked in E as [_ E]. destruct (resolve _ _ _ _ _) as [r|]; [|done]. case_bool_decide; [done|]. destruct (checkMutationTree _ _ _ _ _ _ _) as [[]|]; [|done].
    injection E as <-. cbn [perform]. by destruct (root_walk _ _ _ _).
  - apply write_checked in E as [_ E]. destruct (resolve _ _ _ a _) as [r|]; [|done]. destruct (resolve _ _ _ b _) as [q|]; [|done].
    destruct (_ || _); [done|]. destruct (checkMutationTree _ _ _ _ _ _ _) as [[]|]; [|done]. injection E as <-. cbn [perform].
    destruct (root_walk _ _ _ r) as [p1|]; [|done]. destruct (root_walk _ _ _ q) as [q1|]; [|done]. unfold rename_at. destruct (lstat w p1); [|done].
    repeat (case_match; try done).
Qed.
End Contained.

(** ** The disk stays a tree *)

Lemma lstat_cons w p c : lstat w (p ++ [c]) = w !! (p ++ [c]).
Proof. unfold lstat. by rewrite bool_decide_false by (by destruct p). Qed.

Lemma lstat_nonempty w p : p <> [] -> lstat w p = w !! p.
Proof. intros H. unfold lstat. by rewrite bool_decide_false. Qed.

Lemma disk_ok_parent w p c n : disk_ok w -> lstat w (p ++ [c]) = Some n -> lstat w p = Some NDir.
Proof. rewrite lstat_cons. intros Hw. apply Hw. Qed.

(** What the walk reaches has a directory above it. *)
Lemma walk_parent links w base follow : disk_ok w -> forall rest dest o, walk_links links w base follow dest rest = Ok o -> lstat w (base ++ dest) = Some NDir ->
  lstat w (base ++ o) = Some NDir \/ exists d c, o = d ++ [c] /\ lstat w (base ++ d) = Some NDir.
Proof.
  intros Hw. induction links as [|links IHl]; intros rest; induction rest as [|part rest IH]; intros dest o; cbn [walk_links]; try (intros [= <-] ?; by left).
  all: destruct (bool_decide (part = "") || _); [apply IH|]; destruct (bool_decide (part = "..")).
  1,3: destruct (bool_decide (dest = [])) eqn:Ed; [done|]; apply bool_decide_eq_false in Ed; intros H Hd; eapply IH; [exact H|];
    destruct (exists_last Ed) as (r & x & ->); unfold Dir; rewrite removelast_last; rewrite app_assoc in Hd; by apply disk_ok_parent in Hd.
  all: destruct (lstat w (base ++ dest ++ [part])) as [[| |t|]|] eqn:El; [intros H _; by eapply IH| | | |]; try (destruct (bool_decide (rest = [])) eqn:Er; cbn [andb]; try done).
  all: try (intros [= <-] Hd; right; by exists dest, part).
  all: destruct (negb follow); try (intros [= <-] Hd; right; by exists dest, part).
  all: destruct (IsAbs t); try done; intros H Hd; by eapply IHl.
Qed.

Lemma root_walk_parent w base follow r p : disk_ok w -> lstat w base = Some NDir -> root_walk w base follow r = Ok p -> lstat w p = None ->
  exists d c, p = d ++ [c] /\ lstat w d = Some NDir.
Proof.
  intros Hw Hb. unfold root_walk. destruct (walk_links _ _ _ _ _ _) as [o|] eqn:E; [|done]. intros [= <-] Hn.
  apply walk_parent in E as [E|(d & c & -> & Hd)]; [congruence| |done|by rewrite app_nil_r]. exists (base ++ d), c. by rewrite app_assoc.
Qed.

Lemma insert_disk_ok w d c n : disk_ok w -> lstat w d = Some NDir -> (forall m, w !! (d ++ [c]) = Some m -> m <> NDir) -> disk_ok (<[d ++ [c] := n]> w).
Proof.
  intros Hw Hd Hl p x m H. assert (Hp : lstat w p = Some NDir).
  { apply lookup_insert_Some in H as [[Heq _]|[_ H]]; [apply app_inj_tail in Heq as [-> _]; done|by eapply Hw]. }
  unfold lstat in *. case_bool_decide; [done|]. rewrite lookup_insert_ne; [done|]. intros <-. by apply Hl in Hp.
Qed.

Lemma remove_disk_ok w p : disk_ok w -> disk_ok (remove_tree p w).
Proof.
  intros Hw q c n [H Hn]%map_lookup_filter_Some. apply Hw in H. unfold lstat in *. case_bool_decide; [done|]. apply map_lookup_filter_Some. split; [done|].
  cbn in *. intros [x ->]. apply Hn. exists (x ++ [c]). by rewrite app_assoc.
Qed.

Lemma moved_lookup p q w x : moved p q w !! (q ++ x) = w !! (p ++ x).
Proof.
  destruct (w !! (p ++ x)) as [n|] eqn:E.
  - destruct (moved p q w !! (q ++ x)) as [m|] eqn:Em.
    + apply lookup_moved in Em as (y & Hy & Hm). apply app_inv_head in Hy as ->. congruence.
    + unfold moved in Em. apply not_elem_of_list_to_map_2 in Em. destruct Em. apply list_elem_of_fmap. exists (q ++ x, n). split; [done|].
      apply list_elem_of_fmap. exists (p ++ x, n). cbn [fst snd]. rewrite drop_app_length. split; [done|]. apply list_elem_of_filter. split; [by exists x|]. by apply elem_of_map_to_list.
  - destruct (moved p q w !! (q ++ x)) as [m|] eqn:Em; [|done]. apply lookup_moved in Em as (y & Hy & Hm). apply app_inv_head in Hy as ->. congruence.
Qed.

Lemma moved_outside p q w k : ~ q `prefix_of` k -> moved p q w !! k = None.
Proof. intros H. destruct (moved p q w !! k) eqn:E; [|done]. apply lookup_moved in E as (x & -> & _). destruct H. by exists x. Qed.

Lemma no_children w q : disk_ok w -> (lstat w q <> Some NDir \/ children w q = []) -> forall c x, lstat w (q ++ c :: x) = None.
Proof.
  intros Hw Hq c x. destruct (lstat w (q ++ c :: x)) as [n|] eqn:E; [|done]. apply disk_ok_dir in E as [Hd [m Hm]]; [|done].
  destruct Hq as [Hq|Hq]; [done|]. apply children_elem in Hm. rewrite Hq in Hm. inversion Hm.
Qed.

(** The disk with the tree at [p] moved to [q], which was absent, a leaf or an empty directory. *)
Lemma rename_disk_ok w p q : disk_ok w -> ~ p `prefix_of` q -> lstat w (Dir q) = Some NDir -> q <> [] -> (forall c x, lstat w (q ++ c :: x) = None) ->
  disk_ok (moved p q w ∪ delete q (remove_tree p w)).
Proof.
  intros Hw Hpq Hd Hq Hc k c n H. apply lookup_union_Some_raw in H as [H|[_ H]].
  - apply lookup_moved in H as (x & Hk & Hx). destruct (decide (x = [])) as [-> |Hn].
    + rewrite app_nil_r in Hk. subst q. unfold Dir in Hd. rewrite removelast_last in Hd. unfold lstat in *. case_bool_decide; [done|].
      assert (Hout : ~ (k ++ [c]) `prefix_of` k) by (intros [y Hy]; apply (f_equal length) in Hy; rewrite !length_app in Hy; cbn in Hy; lia).
      rewrite lookup_union_r by (by apply moved_outside). rewrite lookup_delete_ne by (intros Heq; apply Hout; by rewrite Heq).
      rewrite lookup_remove_tree; [done|]. intros Hp. apply Hpq. etransitivity; [exact Hp|]. by exists [c].
    + destruct (exists_last Hn) as (y & z & ->). rewrite app_assoc in Hk. apply app_inj_tail in Hk as [-> ->]. rewrite app_assoc in Hx. apply Hw in Hx.
      rewrite lstat_nonempty by (by destruct q). rewrite lstat_nonempty in Hx by (destruct p; [by destruct Hpq; exists q|done]).
      erewrite lookup_union_Some_l; [done|]. by rewrite moved_lookup.
  - apply lookup_delete_Some in H as [Hkq [H Hnp]%map_lookup_filter_Some]. cbn in Hnp. apply Hw in H as Hk.
    assert (Hkq' : ~ q `prefix_of` k).
    { intros [x ->]. rewrite <-lstat_cons, <-app_assoc in H. destruct x as [|y x]; cbn in H; by rewrite Hc in H. }
    unfold lstat in *. case_bool_decide; [done|]. rewrite lookup_union_r by (by apply moved_outside). rewrite lookup_delete_ne by (by intros ->).
    rewrite lookup_remove_tree; [done|]. intros [x ->]. apply Hnp. exists (x ++ [c]). by rewrite app_assoc.
Qed.

Lemma perform_disk_ok base op w : disk_ok w -> lstat w base = Some NDir -> disk_ok (perform base op w).2.
Proof.
  intros Hw Hb. destruct op as [r fl|r|r|r|r q]; cbn [perform]; (destruct (root_walk w base _ r) as [p|] eqn:E; [|done]).
  - unfold open_at. destruct (lstat w p) as [n|] eqn:El.
    + destruct (_ && _); [done|]. destruct n as [| data| |]; [by destruct (_ || _)| |done|done]. destruct (fl_trunc fl); [|done]. cbn [snd].
      destruct (decide (p = [])) as [-> |Hn]; [done|]. destruct (exists_last Hn) as (d & c & ->). rewrite lstat_cons in El.
      apply insert_disk_ok; [done|by eapply Hw|]. intros m Hm. congruence.
    + destruct (fl_create fl); [|done]. destruct (root_walk_parent _ _ _ _ _ Hw Hb E El) as (d & c & -> & Hd). rewrite lstat_cons in El.
      apply insert_disk_ok; [done|done|]. intros m Hm. congruence.
  - by destruct (lstat w p) as [[]|].
  - destruct (lstat w p) eqn:El; [done|]. destruct (root_walk_parent _ _ _ _ _ Hw Hb E El) as (d & c & -> & Hd). rewrite lstat_cons in El.
    apply insert_disk_ok; [done|done|]. intros m Hm. congruence.
  - by apply remove_disk_ok.
  - destruct (root_walk w base _ q) as [q'|]; [|done]. unfold rename_at. destruct (lstat w p) as [n|] eqn:Ep; [|done]. case_bool_decide; [done|].
    destruct (below p q') eqn:Eb; [done|]. apply bool_decide_eq_false in Eb. destruct (negb _) eqn:Ed; [done|]. apply negb_false_iff, bool_decide_eq_true in Ed.
    assert (Hr : (lstat w q' <> Some NDir \/ children w q' = []) -> disk_ok (moved p q' w ∪ delete q' (remove_tree p w))).
    { intros Hc. pose proof (no_children w q' Hw Hc) as Hn. destruct (decide (q' = [])) as [-> |Hq]; [|by apply rename_disk_ok].
      destruct p as [|c p]; [by destruct Eb|]. specialize (Hn c p). cbn [app] in Hn. congruence. }
    destruct (lstat w q') as [[]|]; cbv zeta; destruct (bool_decide (n = NDir)); cbn [andb snd]; try done; try (apply Hr; by left).
    destruct (bool_decide (children w q' = [])) eqn:Ec; [|done]. apply bool_decide_eq_true in Ec. apply Hr. by right.
Qed.

(** ** Any number of requests *)

(** On a read-only export a request that passed the checks changes nothing, on whatever disk it is performed. *)
Lemma prepared_read_only Match names cancelled f w w2 rq op : Forall plain (lo_path f) -> prepare Match names cancelled f w rq = Ok op -> po_ReadOnly (lo_policy f) = true ->
  (perform (lo_path f) op w2).2 = w2.
Proof.
  intros Hroot H Hro. destruct rq as [name fl|name|name|name|a b]; cbn [prepare] in H.
  - apply prepare_open_direct in H as (r & _ & -> & _ & _ & Hf); [|done]. specialize (Hf Hro). apply orb_false_iff in Hf as [Hc Ht]. cbn [perform].
    destruct (root_walk _ _ _ _) as [p|]; [|done]. unfold open_at. rewrite Hc, Ht. cbn [andb]. destruct (lstat w2 p) as [[]|]; try done. by destruct (_ || _).
  - unfold prepare_stat in H. destruct (cancelled 10000); [done|]. destruct (resolve _ _ _ _ _) as [r|]; [|done]. injection H as <-. cbn [perform].
    destruct (root_walk _ _ _ _) as [p|]; [|done]. by destruct (lstat w2 p) as [[]|].
  - apply write_checked in H as [H _]. congruence.
  - apply write_checked in H as [H _]. congruence.
  - apply write_checked in H as [H _]. congruence.
Qed.

(** The private state of uploads: it has such a component in its path, wherever it is kept. *)
Definition upload_state (p : path) : Prop := existsb private_part p = true.

Lemma upload_state_hidden Match f r : upload_state r -> allowed Match f r = false.
Proof.
  intros Hr. unfold allowed. assert (Hne : r <> []) by (by intros ->). rewrite (bool_decide_false (r = [])) by done. rewrite andb_false_r.
  destruct (_ && negb _); [done|].
  assert (He : forall g, existsb (fun part => private_part part || g part) r = true).
  { intros g. unfold upload_state in Hr. apply existsb_exists in Hr as (x & Hx & Hp). apply existsb_exists. exists x. by rewrite Hp. }
  by rewrite He.
Qed.

Lemma temporary_private text : private_part (uploadPrefix +:+ text)%string = true /\ plain (uploadPrefix +:+ text)%string.
Proof. split; [reflexivity|]. split_and!; discriminate. Qed.

Lemma temporary_state d text : upload_state (d ++ [(uploadPrefix +:+ text)%string]).
Proof.
  unfold upload_state. rewrite existsb_app. apply orb_true_iff. right. cbn [existsb]. by rewrite (proj1 (temporary_private text)).
Qed.

Lemma upload_state_app p q : upload_state q -> upload_state (p ++ q).
Proof. unfold upload_state. rewrite existsb_app. intros ->. apply orb_true_r. Qed.

Lemma upload_state_prefix p q : upload_state p -> p `prefix_of` q -> upload_state q.
Proof. intros H [r ->]. unfold upload_state in *. by rewrite existsb_app, H. Qed.

Section Runs.
Context (Match : string -> string -> bool) (names : list string -> list string) (cancelled : nat -> Z -> bool) (f : Local).
Notation base := (lo_path f).

(** An export in use: the disk, and the uploads in progress. *)
Abbreviation export := (disk * list atomicUpload)%type.

Definition temporary_at (u : atomicUpload) : path := base ++ up_temporary u.

(** A request, a write through a file a request opened for writing, the steps of an
    upload, a change of the private state uploads keep (their journal and receipts,
    stale temporary files), or a crash. *)
Inductive served : export -> export -> Prop :=
| served_request i w us rq : served (w, us) ((serve Match names (cancelled i) f w rq).2, us)
| served_write i w us name fl p old data :
    (serve Match names (cancelled i) f w (QOpen name fl)).1 = Ok (RsFile p old) -> fl_write fl = true ->
    served (w, us) (write_file p data (serve Match names (cancelled i) f w (QOpen name fl)).2, us)
| served_refused i w us name text e w' :
    openUpload Match (cancelled i) f w name text = (Err e, w') -> served (w, us) (w', us)
| served_upload i w us name text u w' :
    openUpload Match (cancelled i) f w name text = (Ok u, w') -> served (w, us) (w', u :: us)
| served_data w us u data : u ∈ us -> served (w, us) (write_file (temporary_at u) data w, us)
| served_close w us1 u us2 valid : served (w, us1 ++ u :: us2) ((closeUpload f w u valid).2, us1 ++ us2)
| served_state w us w' :
    (forall p, ~ upload_state p -> w' !! p = w !! p) -> disk_ok w' -> lstat w' base = Some NDir ->
    (forall u, u ∈ us -> w' !! temporary_at u = w !! temporary_at u) -> served (w, us) (w', us)
| served_crash w us : served (w, us) (w, []).

Context (Hnames : forall l, names l ≡ₚ l) (Hroot : Forall plain base).

Lemma write_disk_ok w p data : disk_ok w -> disk_ok (write_file p data w).
Proof.
  intros Hw. unfold write_file. destruct (lstat w p) as [[]|] eqn:E; try done. destruct (decide (p = [])) as [-> |Hn]; [done|].
  destruct (exists_last Hn) as (d & c & ->). rewrite lstat_cons in E. apply insert_disk_ok; [done|by eapply Hw|]. intros m Hm. congruence.
Qed.

Lemma write_file_other p data w k : k <> p -> write_file p data w !! k = w !! k.
Proof. intros H. unfold write_file. destruct (lstat w p) as [[]|]; try done. by apply lookup_insert_ne. Qed.

(** An upload in progress: a visible target, and its file beside it, under a private name. *)
Record in_progress (w : disk) (u : atomicUpload) : Prop := {
  ip_target : allowed Match f (up_target u) = true /\ up_target u <> [] /\ Forall plain (up_target u);
  ip_temporary : exists text, up_temporary u = Dir (up_target u) ++ [(uploadPrefix +:+ text)%string];
  ip_file : exists data, w !! temporary_at u = Some (NFile data);
}.

Lemma in_progress_state w u : in_progress w u -> upload_state (up_temporary u).
Proof. intros [_ [text ->] _]. apply temporary_state. Qed.

Lemma temporary_protected w u : in_progress w u -> protected Match f (temporary_at u).
Proof. intros H r Hr. apply app_inv_head in Hr as <-. by eapply upload_state_hidden, in_progress_state. Qed.

Lemma temporary_nonempty w u : in_progress w u -> temporary_at u <> [].
Proof. intros [_ [text Ht] _]. unfold temporary_at. rewrite Ht. by destruct base, (Dir (up_target u)). Qed.

(** Below a tree of directories a path is walked as it is. *)
Lemma walk_plain w d c follow p : disk_ok w -> Forall plain (d ++ [c]) -> follow = false \/ not_link (lstat w (base ++ d ++ [c])) ->
  (forall q x s, d = q ++ x :: s -> not_link (lstat w (base ++ q ++ [x]))) -> root_walk w base follow (d ++ [c]) = Ok p -> p = base ++ d ++ [c].
Proof.
  intros Hw Hp Hf Hd. unfold root_walk. destruct (walk_links _ _ _ _ _ _) as [o|] eqn:E; [|done]. intros [= <-]. f_equal.
  eapply walk_direct in E; [exact E|done|]. intros q x s Hs Hr. cbn [app]. destruct (decide (s = [])) as [-> |Hn].
  - apply app_inj_tail in Hs as [<- <-]. destruct Hr as [|Hr], Hf as [Hf|Hf]; congruence || done.
  - destruct (exists_last Hn) as (s' & y & ->). rewrite app_comm_cons, app_assoc in Hs. apply app_inj_tail in Hs as [-> _]. by eapply Hd.
Qed.

(** The directories above a node are directories. *)
Lemma dirs_above w d c n q x s : disk_ok w -> w !! (base ++ d ++ [c]) = Some n -> d = q ++ x :: s -> lstat w (base ++ q ++ [x]) = Some NDir.
Proof.
  intros Hw H ->. assert (E : base ++ (q ++ x :: s) ++ [c] = (base ++ q ++ [x]) ++ s ++ [c]) by (by rewrite <-!app_assoc).
  rewrite E in H. destruct (s ++ [c]) as [|y r] eqn:Es; [by destruct s|].
  eapply (disk_ok_dir w (base ++ q ++ [x]) y r n Hw). unfold lstat. rewrite bool_decide_false by (by destruct base, q). exact H.
Qed.
Lemma temporary_walk w u p : disk_ok w -> in_progress w u -> root_walk w base false (up_temporary u) = Ok p -> p = temporary_at u.
Proof.
  intros Hw [(_ & Hne & Hp) [text Ht] [data Hf]] H. unfold temporary_at in *. rewrite Ht in *. eapply walk_plain in H; [exact H|done| |by left|].
  - apply Forall_app. split; [by apply Forall_Dir|]. constructor; [apply (temporary_private text)|done].
  - intros q x s Hs. rewrite (dirs_above _ _ _ _ _ _ _ Hw Hf Hs). done.
Qed.

Lemma target_walk w u p : disk_ok w -> in_progress w u -> root_walk w base false (up_target u) = Ok p -> p = base ++ up_target u.
Proof.
  intros Hw [(_ & Hne & Hp) [text Ht] [data Hf]] H. unfold temporary_at in *. rewrite Ht in *. destruct (exists_last Hne) as (d & c & Hd).
  rewrite Hd in *. unfold Dir in Hf. rewrite removelast_last in Hf. eapply walk_plain in H; [exact H|done|done|by left|].
  intros q x s Hs. rewrite (dirs_above _ _ _ _ _ _ _ Hw Hf Hs). done.
Qed.

Lemma in_progress_same w w' u : w' !! temporary_at u = w !! temporary_at u -> in_progress w u -> in_progress w' u.
Proof. intros H [? ? Hf]. constructor; [done|done|]. by rewrite H. Qed.

Lemma perform_err op w e w' : perform base op w = (Err e, w') -> w' = w.
Proof.
  destruct op as [r fl|r|r|r|r q]; cbn [perform]; (destruct (root_walk w base _ r) as [x|]; [|by intros [= _ <-]]).
  - unfold open_at. destruct (lstat w x) as [[]|]; repeat (case_match; try (by intros [= _ <-])); done.
  - by destruct (lstat w x) as [[]|]; intros [= _ <-] || done.
  - destruct (lstat w x); [by intros [= _ <-]|done].
  - done.
  - destruct (root_walk w base _ q) as [y|]; [|by intros [= _ <-]]. unfold rename_at. cbv zeta. repeat (case_match; try (by intros [= _ <-])); done.
Qed.

(** Opening an upload only adds its file; a refused one changes nothing. *)
Lemma openUpload_refused i w name text e w' : openUpload Match (cancelled i) f w name text = (Err e, w') -> w' = w.
Proof.
  unfold openUpload. destruct (let? _ := writeAllowed _ _ in _) as [target|]; [|by intros [= _ <-]].
  destruct (perform _ _ w) as [[]] eqn:E; [done|]. intros [= _ <-]. by eapply perform_err.
Qed.

Lemma openUpload_opened i w name text u w' : openUpload Match (cancelled i) f w name text = (Ok u, w') -> disk_ok w -> lstat w base = Some NDir ->
  po_ReadOnly (lo_policy f) = false /\ in_progress w' u /\ w !! temporary_at u = None /\ (forall k, k <> temporary_at u -> w' !! k = w !! k) /\ disk_ok w'.
Proof.
  intros H Hw Hb. unfold openUpload, writeAllowed in H. destruct (cancelled i 10000); [done|]. destruct (po_ReadOnly _); [done|]. split; [done|].
  destruct (match resolve Match f w name false with Err ErrNotExist => _ | r => r end) as [target|] eqn:Er; [|done].
  assert (Hd : exists parent, direct Match f w parent target).
  { destruct (resolve Match f w name false) as [r|[]] eqn:E; try done; [injection Er as <-|]; eexists; by eapply resolve_direct. }
  destruct Hd as [parent [Ha Hp Hl]]. destruct (root_lstat f w target) as [info|] eqn:Ei; [|done].
  assert (Hne : target <> []).
  { intros ->. unfold root_lstat in Ei. cbn in Ei. rewrite app_nil_r, Hb in Ei. injection Ei as <-. done. }
  assert (Hc : exists u', u' = MkUpload target (Dir target ++ [(uploadPrefix +:+ text)%string]) /\
     match perform base (OpOpen (up_temporary u') (MkFlags true true false false true)) w with (Ok _, w') => (Ok u', w') | (Err e, w') => (Err e, w') end = (Ok u, w')).
  { eexists; split; [reflexivity|]. destruct info as [[]|]; done. }
  clear H. destruct Hc as (u' & Hu & H). pose proof (perform_disk_ok base (OpOpen (up_temporary u') (MkFlags true true false false true)) w Hw Hb) as Hok.
  destruct (perform _ _ w) as [[x|] v] eqn:Ep; [|done]. injection H as <- <-. cbn [snd] in Hok. cbn [perform fl_create fl_excl andb negb] in Ep.
  destruct (root_walk w base false (up_temporary u')) as [q|] eqn:Ew; [|done].
  assert (Hq : q = temporary_at u').
  { subst u'. unfold temporary_at. cbn [up_temporary] in *. eapply walk_plain in Ew; [exact Ew|done| |by left|].
    - apply Forall_app. split; [by apply Forall_Dir|]. constructor; [apply (temporary_private text)|done].
    - destruct (exists_last Hne) as (d & c & Hdc). intros y z s Hs. apply (Hl y z (s ++ [c])); [|left; by destruct s].
      rewrite Hdc in Hs |- *. unfold Dir in Hs. rewrite removelast_last in Hs. by rewrite Hs, <-app_assoc. }
  subst q. unfold open_at in Ep. destruct (lstat w (temporary_at u')) as [n|] eqn:El; [done|]. cbn [fl_create] in Ep. injection Ep as _ <-.
  split_and!; [| |intros k Hk; by apply lookup_insert_ne|done].
  - constructor; [by rewrite Hu|exists text; by rewrite Hu|]. exists []. by rewrite lookup_insert_eq.
  - unfold lstat in El. case_bool_decide; done.
Qed.

(** Removing the file of an upload. *)
Lemma remove_temporary w u : disk_ok w -> in_progress w u ->
  disk_ok (remove_at f w (up_temporary u)).2 /\ forall k, k <> temporary_at u -> (remove_at f w (up_temporary u)).2 !! k = w !! k.
Proof.
  intros Hw Hu. unfold remove_at. destruct (root_walk w base false _) as [p|] eqn:E; [|done]. apply temporary_walk in E as ->; [|done|done].
  destruct (ip_file _ _ Hu) as [data Hf]. rewrite lstat_nonempty, Hf by (by eapply temporary_nonempty). cbn [snd]. split; [|intros k Hk; by apply lookup_delete_ne]. intros q c n [_ H]%lookup_delete_Some. apply Hw in H. unfold lstat in *.
  case_bool_decide; [done|]. rewrite lookup_delete_ne; [done|]. intros <-. congruence.
Qed.

(** Closing an upload changes its file and its target, nothing else. *)
Lemma closeUpload_only w u valid : disk_ok w -> lstat w base = Some NDir -> in_progress w u ->
  disk_ok (closeUpload f w u valid).2 /\
  forall k, k <> temporary_at u -> k <> base ++ up_target u -> (closeUpload f w u valid).2 !! k = w !! k.
Proof.
  intros Hw Hb Hu. destruct (remove_temporary w u Hw Hu) as [Hr1 Hr2]. unfold closeUpload. destruct valid; [|cbn [snd]; split; [done|]; intros k Hk _; by apply Hr2].
  pose proof (perform_disk_ok base (OpRename (up_temporary u) (up_target u)) w Hw Hb) as Hok.
  destruct (perform _ _ w) as [[x|e] v] eqn:Ep; cbn [snd] in *.
  2:{ apply perform_err in Ep as ->. split; [done|]. intros k Hk _. by apply Hr2. }
  split; [done|]. intros k Hk Hk2. cbn [perform] in Ep. destruct (root_walk w base false (up_temporary u)) as [p|] eqn:E1; [|done].
  destruct (root_walk w base false (up_target u)) as [q|] eqn:E2; [|done]. apply temporary_walk in E1 as ->; [|done|done]. apply target_walk in E2 as ->; [|done|done].
  assert (Hleaf : forall c y n, w !! (temporary_at u ++ c :: y) = Some n -> False).
  { intros c y n Hn. rewrite <-lstat_nonempty in Hn by (by destruct (temporary_at u)). apply disk_ok_dir in Hn as [Hd _]; [|done].
    destruct (ip_file _ _ Hu) as [data Hf]. rewrite lstat_nonempty, Hf in Hd by (by eapply temporary_nonempty). done. }
  pose proof (rename_at_other (temporary_at u) (base ++ up_target u) w k Hk2) as Ho. rewrite Ep in Ho. cbn [snd] in Ho. apply Ho.
  - intros ([|c y] & n & -> & Hn); [by rewrite app_nil_r in Hk2|by eapply Hleaf].
  - intros [[|c y] ->]; [by rewrite app_nil_r in Hk|]. destruct (w !! _) as [n|] eqn:En; [|done]. by destruct (Hleaf _ _ _ En).
Qed.

(** What holds of an export in use. *)
Record export_ok (e : export) : Prop := {
  eo_disk : disk_ok e.1;
  eo_root : lstat e.1 base = Some NDir;
  eo_uploads : Forall (in_progress e.1) e.2;
  eo_apart : NoDup (temporary_at <$> e.2);
  eo_writable : po_ReadOnly (lo_policy f) = true -> e.2 = [];
}.

Lemma lstat_same (w w' : disk) p : w' !! p = w !! p -> lstat w p = Some NDir -> lstat w' p = Some NDir.
Proof. intros H. unfold lstat. case_bool_decide; [done|congruence]. Qed.

(** A change that leaves the root and the files of uploads keeps an export right. *)
Lemma export_same w w' us : export_ok (w, us) -> disk_ok w' -> w' !! base = w !! base \/ lstat w' base = Some NDir ->
  (forall u, u ∈ us -> in_progress w u -> w' !! temporary_at u = w !! temporary_at u) -> export_ok (w', us).
Proof.
  intros [H1 H2 H3 H4 H5] Hw Hb Hu. cbn [fst snd] in *. constructor; cbn [fst snd]; [done| | |done|done].
  - destruct Hb as [Hb|]; [by eapply lstat_same|done].
  - rewrite Forall_forall in H3 |- *. intros u Hin. eapply in_progress_same; [by apply Hu; [|apply H3]|by apply H3].
Qed.

Lemma serve_request_kept i w rq : disk_ok w -> lstat w base = Some NDir -> disk_ok (serve Match names (cancelled i) f w rq).2 /\
  (forall p, kept Match f p -> (serve Match names (cancelled i) f w rq).2 !! p = w !! p) /\
  (po_ReadOnly (lo_policy f) = true -> (serve Match names (cancelled i) f w rq).2 = w).
Proof.
  intros Hw Hb. split_and!.
  - unfold serve. destruct (prepare _ _ _ _ w rq); [by apply perform_disk_ok|done].
  - intros p. by apply serve_kept.
  - intros Hro. unfold serve. destruct (prepare _ _ _ _ w rq) as [op|] eqn:E; [|done]. by eapply prepared_read_only.
Qed.

(** Data is written to a visible file of a writable export. *)
Lemma served_file i w name fl p old : (serve Match names (cancelled i) f w (QOpen name fl)).1 = Ok (RsFile p old) -> fl_write fl = true ->
  po_ReadOnly (lo_policy f) = false /\ exists r, p = base ++ r /\ allowed Match f r = true.
Proof.
  intros H Hf. pose proof (serve_visible Match names (cancelled i) f Hroot w (QOpen name fl)) as Hv. rewrite H in Hv. split; [|exact Hv].
  unfold serve in H. cbn [prepare] in H. unfold prepare_open in H. destruct (cancelled i 10000); [done|]. rewrite Hf in H. destruct (po_ReadOnly _); done.
Qed.

(** What a step leaves as it was: what the policy protects, the private state of uploads apart. *)
Definition untouched (w w' : disk) : Prop :=
  forall p, ~ upload_state p -> protected Match f p \/ po_ReadOnly (lo_policy f) = true -> w' !! p = w !! p.

Lemma untouched_trans w1 w2 w3 : untouched w1 w2 -> untouched w2 w3 -> untouched w1 w3.
Proof. intros H1 H2 p Hs Hp. rewrite H2 by done. by apply H1. Qed.

Lemma served_inv e e' : served e e' -> export_ok e -> export_ok e' /\ untouched e.1 e'.1.
Proof.
  intros H Hok. pose proof Hok as [Hw Hb Hu Hn Hr]. destruct H as [i w us rq|i w us name fl p old data H Hf|i w us name text er w' H|i w us name text u w' H|w us u data Hin|w us1 u us2 valid|w us w' Hs Hd Hl Ht|w us]; cbn [fst snd] in *.
  - destruct (serve_request_kept i w rq) as (H1 & H2 & H3); [done|done|]. split.
    + eapply export_same; [done|done|left; apply H2; by right|]. intros u _ Hp. apply H2. left. by eapply temporary_protected.
    + intros p _ [Hp|Hro]; [apply H2; by left|by rewrite H3].
  - destruct (serve_request_kept i w (QOpen name fl)) as (H1 & H2 & H3); [done|done|]. destruct (served_file _ _ _ _ _ _ H Hf) as (Hro & r & -> & Ha).
    set (w1 := (serve _ _ _ _ w _).2) in *. assert (Hb1 : lstat w1 base = Some NDir) by (eapply lstat_same; [|done]; apply H2; by right).
    assert (Hk : forall k, kept Match f k -> write_file (base ++ r) data w1 !! k = w !! k).
    { intros k Hkk. rewrite <- (H2 k Hkk). unfold write_file. destruct (lstat w1 (base ++ r)) as [[]|] eqn:E; try done. apply lookup_insert_ne, not_eq_sym.
      eapply kept_not; [exact Ha| |exact Hkk]. intros ->. rewrite app_nil_r in E. congruence. }
    split.
    + eapply export_same; [done|by apply write_disk_ok|left; apply Hk; by right|]. intros u _ Hp. apply Hk. left. by eapply temporary_protected.
    + intros p _ [Hp|Hro']; [apply Hk; by left|congruence].
  - apply openUpload_refused in H as ->. split; [done|]. by intros p.
  - apply openUpload_opened in H as (Hro & Hp & Hfree & Ho & Hd); [|done|done]. split.
    + constructor; cbn [fst snd]; [done| | | |congruence].
      * eapply lstat_same; [|done]. apply Ho. intros E. pose proof (ip_file _ _ Hp) as [d Hfile]. rewrite <-E in Hfree. unfold lstat in Hb.
        case_bool_decide as En; [by eapply temporary_nonempty; [|rewrite <-E]|congruence].
      * constructor; [done|]. rewrite Forall_forall in Hu |- *. intros v Hv. eapply in_progress_same; [|by apply Hu]. apply Ho.
        intros E. destruct (ip_file _ _ (Hu v Hv)) as [d Hfile]. rewrite E in Hfile. congruence.
      * rewrite fmap_cons. constructor; [|done]. intros (v & E & Hv)%list_elem_of_fmap. rewrite Forall_forall in Hu. destruct (ip_file _ _ (Hu v Hv)) as [d Hfile].
        rewrite <-E in Hfile. congruence.
    + intros p Hs _. apply Ho. intros ->. apply Hs, upload_state_app. by eapply in_progress_state.
  - rewrite Forall_forall in Hu. pose proof (Hu u Hin) as Hp. destruct (ip_file _ _ Hp) as [old Hfile]. split.
    + constructor; cbn [fst snd]; [by apply write_disk_ok| | |done|done].
      * eapply lstat_same; [|done]. apply write_file_other. intros E. unfold lstat in Hb. rewrite <-E in Hfile. case_bool_decide as En; [by eapply temporary_nonempty; [|rewrite <-E]|congruence].
      * rewrite Forall_forall. intros v Hv. destruct (decide (temporary_at v = temporary_at u)) as [E|E]; [|eapply in_progress_same; [by apply write_file_other|by apply Hu]].
        destruct (Hu v Hv). constructor; [done|done|]. exists data. rewrite E. unfold write_file. rewrite lstat_nonempty, Hfile by (by eapply temporary_nonempty). apply lookup_insert_eq.
    + intros p Hs _. apply write_file_other. intros ->. apply Hs, upload_state_app. by eapply in_progress_state.
  - apply Forall_app in Hu as [Hu1 [Hp Hu2]%Forall_cons]. destruct (closeUpload_only w u valid Hw Hb Hp) as [Hd Ho]. pose proof (ip_target _ _ Hp) as (Ha & Hne & _).
    assert (Hro : po_ReadOnly (lo_policy f) = false) by (destruct (po_ReadOnly _); [|done]; specialize (Hr eq_refl); by destruct us1).
    rewrite fmap_app, fmap_cons in Hn. split.
    + constructor; cbn [fst snd]; [done| | | |congruence].
      * eapply lstat_same; [|done]. apply Ho.
        -- intros E. destruct (ip_file _ _ Hp) as [old Hfile]. unfold lstat in Hb. rewrite <-E in Hfile. case_bool_decide as En; [by eapply temporary_nonempty; [|rewrite <-E]|congruence].
        -- intros E. apply Hne. by apply (app_inv_head base); rewrite app_nil_r.
      * assert (Hv : forall v, v ∈ us1 ++ us2 -> in_progress w v -> in_progress (closeUpload f w u valid).2 v).
        { intros v Hv Hpv. eapply in_progress_same; [|done]. apply Ho.
          - intros E. apply NoDup_app in Hn as (_ & Hx & [Hy _]%NoDup_cons). apply elem_of_app in Hv as [Hv|Hv].
            + apply (Hx (temporary_at v)); [by apply list_elem_of_fmap_2|]. rewrite E. by left.
            + apply Hy. rewrite <-E. by apply list_elem_of_fmap_2.
          - eapply protected_not; [exact Ha|]. by eapply temporary_protected. }
        rewrite Forall_forall. intros v Hin. apply Hv; [done|]. rewrite Forall_forall in Hu1, Hu2. apply elem_of_app in Hin as [|]; auto.
      * rewrite fmap_app. apply NoDup_app in Hn as (Hx & Hy & [_ Hz]%NoDup_cons). apply NoDup_app. split_and!; [done| |done]. intros x Hx1 Hx2. apply (Hy x Hx1). by right.
    + intros p Hs Hpp. apply Ho; [intros ->; apply Hs, upload_state_app; by eapply in_progress_state|]. destruct Hpp as [Hpp|]; [|congruence]. by eapply protected_not.
  - split; [|intros p Hp _; by apply Hs]. eapply export_same; [done|done|by right|]. intros u Hin _. by apply Ht.
  - split; [|by intros p]. constructor; cbn [fst snd]; try done; constructor.
Qed.

Lemma run_inv e e' : rtc served e e' -> export_ok e -> export_ok e' /\ untouched e.1 e'.1.
Proof.
  induction 1 as [e|e1 e2 e3 Hs _ IH]; [by intros; split; [|intros p]|]. intros Hok. destruct (served_inv _ _ Hs Hok) as [H1 H2]. destruct (IH H1) as [H3 H4].
  split; [done|]. by eapply untouched_trans.
Qed.
End Runs.


(** ** Listings *)

(** What a listing shows of a directory's entries. *)
Definition shown Match names cancelled f w (name : path) (item : string) : bool :=
  negb (HasPrefix item uploadPrefix) && allowed Match f (name ++ [item]) && stat_ok Match names cancelled f w (name ++ [item]).

Definition over (limit n : Z) : bool := (limit >? 0) && (n >? limit).

Lemma count_entries_le l n : n <= count_entries l n.
Proof. revert n. induction l as [|e l IH]; intros n; cbn [count_entries]; [lia|]. destruct (HasPrefix e uploadPrefix); [apply IH|]. specialize (IH (n + 1)). lia. Qed.

Lemma readdir_loop_exact Match names cancelled f w name : cancelled 10000 = false -> forall rest result seen,
  over (po_MaxEntries (lo_policy f)) seen = false ->
  (readdir_loop Match names cancelled f w 0 name rest result seen).1 =
  if over (po_MaxEntries (lo_policy f)) (count_entries rest seen) then Failed ErrListingLimit else Listed (result ++ filter (fun i => shown Match names cancelled f w name i = true) rest).
Proof.
  intros Hc rest. induction rest as [|item rest IH]; intros result seen Ho; cbn [readdir_loop count_entries]; rewrite Hc; cbn [Z.leb Z.compare orb Z.gtb andb].
  { by rewrite Ho, app_nil_r. }
  assert (Hf : filter (fun i => shown Match names cancelled f w name i = true) (item :: rest) =
    (if shown Match names cancelled f w name item then [item] else []) ++ filter (fun i => shown Match names cancelled f w name i = true) rest).
  { rewrite filter_cons. destruct (shown Match names cancelled f w name item); [by rewrite decide_True by done|by rewrite decide_False by done]. }
  rewrite Hf. clear Hf. unfold shown at 1. destruct (HasPrefix item uploadPrefix) eqn:Ep; cbn [negb andb]; [by apply IH|].
  cbv zeta. change ((po_MaxEntries (lo_policy f) >? 0) && (seen + 1 >? po_MaxEntries (lo_policy f))) with (over (po_MaxEntries (lo_policy f)) (seen + 1)).
  destruct (over (po_MaxEntries (lo_policy f)) (seen + 1)) eqn:E1.
  - pose proof (count_entries_le rest (seen + 1)) as Hle. unfold over in *. apply andb_true_iff in E1 as [-> E1%Z.gtb_lt].
    rewrite (proj2 (Z.gtb_lt _ _)) by lia. done.
  - destruct (allowed Match f (name ++ [item])); cbn [negb andb]; [|by apply IH].
    destruct (stat_ok Match names cancelled f w (name ++ [item])); [|by apply IH]. rewrite IH by done. by rewrite <-app_assoc.
Qed.


(** ** An export *)

Definition sample_disk : disk := list_to_map [
  (["etc"], NDir); (["etc"; "passwd"], NFile [x41]); (["srv"], NDir); (["srv"; "a"], NDir); (["srv"; "a"; "x"], NFile [x42]);
  (["srv"; "out"], NLink "/etc"); (["srv"; "d"], NDir); (["srv"; "d"; ".git"], NFile [])].

Definition sample_export (ro : bool) : Local := MkLocal ["srv"] "" (MkPolicy ro true [] 100).

Definition sample_serve (w : disk) (rq : request) := serve (fun _ _ => false) id (fun _ => false) (sample_export false) w rq.

Lemma sample_disk_ok : disk_ok sample_disk.
Proof.
  assert (H : map_Forall (fun p (_ : node) => lstat sample_disk (Dir p) = Some NDir) sample_disk)
    by (refine (bool_decide_unpack _ _); vm_compute; exact I).
  intros p c n Hp. specialize (H _ _ Hp). unfold Dir in H. by rewrite removelast_last in H.
Qed.

(** A link that leaves the export, and a directory that holds something hidden. *)
Example link_refused : (sample_serve sample_disk (QStat "/out/passwd")).1 = Err ErrPermission.
Proof. vm_compute. reflexivity. Qed.

Example hidden_below_refused : (sample_serve sample_disk (QRemoveAll "/d")).1 = Err ErrPermission.
Proof. vm_compute. reflexivity. Qed.

(** A file is uploaded over another while a client renames the directory beside it. *)
Definition sample_upload : atomicUpload := MkUpload ["a"; "x"] ["a"; ".rstream-upload-T"].
Definition after_open : disk := (openUpload (fun _ _ => false) (fun _ => false) (sample_export false) sample_disk "/a/x" "T").2.
Definition after_rename : disk := (sample_serve after_open (QRename "a" "b")).2.
Definition after_close : disk := (closeUpload (sample_export false) (write_file (temporary_at (sample_export false) sample_upload) [x43] after_rename) sample_upload true).2.

(** The directory of an upload in progress stays where it is. *)
Example rename_during_upload_refused : (sample_serve after_open (QRename "a" "b")).1 = Err ErrPermission.
Proof. vm_compute. reflexivity. Qed.

Lemma after_close_run : rtc (served (fun _ _ => false) id (fun _ _ => false) (sample_export false)) (sample_disk, []) (after_close, []).
Proof.
  eapply rtc_l; [apply (served_upload _ _ _ _ 0%nat _ _ "/a/x" "T" sample_upload after_open); vm_compute; reflexivity|].
  eapply rtc_l; [apply (served_request _ _ _ _ 0%nat _ _ (QRename "a" "b"))|].
  eapply rtc_l; [apply (served_data _ _ _ _ _ _ sample_upload [x43]); by left|].
  apply rtc_once, (served_close _ _ _ _ _ [] sample_upload [] true).
Defined.


