(* ===== verification/RtcTransfer.v ===== *)
(** * RtcTransfer: responses of the file system over a WebRTC data channel
    ([filesystem/rtc/client.go], [server.go], [protocol.go])

    A response travels as messages of an ordered and reliable data channel: a header,
    chunks of the body and a final message.  The server sends a chunk only against a
    credit; it starts with [Window] of them and the client returns one for each chunk the
    reader has consumed.  The state has both ends and the messages between them; the
    handler of the server, the reader of the client and failures are events.  [t_accepted]
    and [t_read] are ghosts: what the handler's writes were given and what reads returned.
    The pause while too much is buffered only delays [SSend].  Negotiation, leases and
    ICE belong to the environment; a failure of either is [CCancel]. *)

From S2P Require Import Prelude GoStrings.

Definition ChunkSize : nat := Z.to_nat (32 * 1024).
Definition Window : nat := 32.

Lemma ChunkSize_pos : (0 < ChunkSize)%nat.
Proof. unfold ChunkSize. lia. Qed.

Definition rtc_ReadOnly (method : string) : bool := existsb (fun m => bool_decide (method = m)) ["GET"; "HEAD"; "PROPFIND"].

(** Messages to the client: a header with its content length, if any, a chunk, the end, an error. *)
Inductive down_message := MHeader (status : Z) (length : string) | MData (chunk : list byte) | MDone | MError.
Inductive up_message := UCredit | UDone.

Inductive rtc_error := InvalidFrame | ExceedsLength | WindowExceeded | TransferError | InvalidCompletion | UnexpectedEOF | InvalidHeaders | InvalidLength | Canceled.

Record transfer := MkTransfer {
  (** the server *)
  t_wrote : bool;              (** [responseWriter.wrote] *)
  t_buffer : list byte;        (** what the write in progress has still to send *)
  t_returned : bool;           (** the handler has returned or failed *)
  t_credits : nat;             (** [session.credits] *)
  t_finished : bool;           (** [session.finished] *)
  t_stopped : bool;            (** the session was cancelled for a breach of the protocol *)
  (** the channel *)
  t_down : list down_message;
  t_up : list up_message;
  (** the client *)
  t_head : bool;
  t_hasHeader : bool;
  t_complete : bool;
  t_expected : Z;
  t_received : Z;
  t_packets : list (list byte);
  t_current : list byte;
  t_ended : bool;              (** [ended] is closed *)
  t_error : option rtc_error;  (** the cause of the client's context *)
  t_eof : bool;                (** a read has returned the end *)
  (** ghosts *)
  t_accepted : list byte;
  t_read : list byte;
}.

Definition new_transfer (head : bool) : transfer :=
  MkTransfer false [] false Window false false [] [] head false false (-1) 0 [] [] false None false [] [].

(** [b.cancel(err)]: the first cause stays. *)
Definition cancel (e : rtc_error) (t : transfer) : transfer :=
  match t_error t with Some _ => t | None => {| t with t_error := Some e |} end.

(** ** The client *)

Definition data_frame (chunk : list byte) (t : transfer) : transfer :=
  if (ChunkSize <? length chunk)%nat || negb (t_hasHeader t) || t_complete t then cancel InvalidFrame t
  else
    let t := {| t with t_received := t_received t + Z.of_nat (length chunk) |} in
    if (t_expected t >=? 0) && (t_received t >? t_expected t) then cancel ExceedsLength t
    else if (length (t_packets t) <? Window)%nat then {| t with t_packets := t_packets t ++ [chunk] |}
    else cancel WindowExceeded t.

Definition done_frame (t : transfer) : transfer :=
  if negb (t_hasHeader t) || t_complete t then cancel InvalidCompletion t
  else
    let t := {| t with t_complete := true |} in
    if (t_expected t >=? 0) && negb (t_received t =? t_expected t) then cancel UnexpectedEOF t
    else {| t with t_ended := true |}.

Definition header_frame (status : Z) (len : string) (t : transfer) : transfer :=
  if (status <? 200) || (status >? 599) || t_hasHeader t then cancel InvalidHeaders t
  else
    let t := {| t with t_hasHeader := true |} in
    match (if bool_decide (len = "") then Some (t_expected t) else match Atoi len with Some n => if n <? 0 then None else Some n | None => None end) with
    | None => cancel InvalidLength t
    | Some n => {| t with t_expected := if t_head t || (status =? 204) || (status =? 304) then 0 else n |}
    end.

(** [responseBody.message]. *)
Definition message (m : down_message) (t : transfer) : transfer :=
  match m with
  | MData chunk => data_frame chunk t
  | MDone => done_frame t
  | MHeader status len => header_frame status len t
  | MError => cancel TransferError t
  end.

(** [Read] of at most [n] bytes from what is current. *)
Definition read_current (n : nat) (t : transfer) : transfer :=
  let t := {| t with t_read := t_read t ++ take n (t_current t); t_current := drop n (t_current t) |} in
  if bool_decide (t_current t = []) then {| t with t_up := t_up t ++ [UCredit] |} else t.

(** [Read] with room for [n] bytes, when it does not block. *)
Definition Read (n : nat) (t : transfer) : option transfer :=
  match t_error t with
  | Some _ => None
  | None =>
      if bool_decide (n = 0%nat) then None
      else if negb (bool_decide (t_current t = [])) then Some (read_current n t)
      else match t_packets t with
           | chunk :: rest => Some (read_current n {| t with t_packets := rest; t_current := chunk |})
           | [] => if t_ended t && negb (t_eof t) then Some {| t with t_up := t_up t ++ [UDone]; t_eof := true |} else None
           end
  end.

(** ** The server *)

Definition send (m : down_message) (t : transfer) : transfer := {| t with t_down := t_down t ++ [m] |}.

Definition WriteHeader (status : Z) (len : string) (t : transfer) : transfer :=
  if t_wrote t then t else send (MHeader status len) {| t with t_wrote := true |}.

(** One round of the loop of [Write], with a credit. *)
Definition send_chunk (t : transfer) : option transfer :=
  if bool_decide (t_buffer t = []) then None
  else match t_credits t with
       | O => None
       | S c => Some (send (MData (take ChunkSize (t_buffer t))) {| t with t_credits := c; t_buffer := drop ChunkSize (t_buffer t) |})
       end.

(** The handler of the data channel on the server. *)
Definition server_message (m : up_message) (t : transfer) : transfer :=
  match m with
  | UCredit => if (t_credits t <? Window)%nat then {| t with t_credits := S (t_credits t) |} else {| t with t_stopped := true |}
  | UDone => {| t with t_finished := true |}
  end.

(** ** Events *)

Inductive event :=
| HHeader (status : Z) (len : string)    (** the handler writes its header *)
| HWrite (data : list byte)              (** the handler writes *)
| HReturn                                (** the handler returns *)
| HPanic                                 (** the handler fails *)
| SSend                                  (** the loop of [Write] goes on *)
| SRecv                                  (** a message reaches the server *)
| CRecv                                  (** a message reaches the client *)
| CRead (n : nat)                        (** the reader reads *)
| CCancel.                               (** the client or its connection gives up *)

(** The handler runs while its last write has been sent. *)
Definition handler_turn (t : transfer) : bool := negb (t_returned t) && bool_decide (t_buffer t = []).

(** What [serve] does when the handler has returned. *)
Definition serve_end (len : string) (t : transfer) : transfer := {| (send MDone (WriteHeader 200 len t)) with t_returned := true |}.

Definition step (e : event) (t : transfer) : option transfer :=
  match e with
  | HHeader status len => if handler_turn t && (200 <=? status) && (status <=? 599) then Some (WriteHeader status len t) else None
  | HWrite data => if handler_turn t then let t := WriteHeader 200 "" t in Some {| t with t_buffer := data; t_accepted := t_accepted t ++ data |} else None
  | HReturn => if handler_turn t then Some (serve_end "" t) else None
  | HPanic => if handler_turn t then Some {| (send MError t) with t_returned := true |} else None
  | SSend => send_chunk t
  | SRecv => match t_up t with [] => None | m :: r => Some (server_message m {| t with t_up := r |}) end
  | CRecv => match t_down t with [] => None | m :: r => Some (message m {| t with t_down := r |}) end
  | CRead n => Read n t
  | CCancel => Some (cancel Canceled t)
  end.

Inductive reachable : transfer -> Prop :=
| reachable_new head : reachable (new_transfer head)
| reachable_step t e t' : reachable t -> step e t = Some t' -> reachable t'.

Fixpoint run (es : list event) (t : transfer) : option transfer :=
  match es with [] => Some t | e :: es => match step e t with Some t' => run es t' | None => None end end.

(** ** Invariant *)

Definition is_data (m : down_message) : bool := match m with MData _ => true | _ => false end.
Definition is_credit (m : up_message) : bool := match m with UCredit => true | UDone => false end.
Definition count {A} (p : A -> bool) (l : list A) : nat := length (List.filter p l).
Arguments count : simpl never.
Definition chunk_of (m : down_message) : list byte := match m with MData c => c | _ => [] end.
Definition in_flight (t : transfer) : list byte := concat (chunk_of <$> t_down t).
Definition busy (t : transfer) : nat := if bool_decide (t_current t = []) then 0 else 1.

(** Credits the server has, and those that are on their way as chunks or as credits. *)
Definition outstanding (t : transfer) : nat := t_credits t + count is_data (t_down t) + length (t_packets t) + busy t + count is_credit (t_up t).

Definition chunk_ok (c : list byte) : Prop := c <> [] /\ (length c <= ChunkSize)%nat.

(** The messages that follow a header. *)
Definition body (returned : bool) (b : list down_message) : Prop :=
  exists cs, Forall chunk_ok cs /\ (if returned then b = (MData <$> cs) ++ [MDone] \/ b = (MData <$> cs) ++ [MError] else b = MData <$> cs).

Inductive shape (t : transfer) : Prop :=
| shape_before : t_hasHeader t = false -> t_complete t = false -> t_wrote t = false -> t_down t = (if t_returned t then [MError] else []) -> t_buffer t = [] -> shape t
| shape_header status len b : t_hasHeader t = false -> t_complete t = false -> t_wrote t = true -> t_down t = MHeader status len :: b -> 200 <= status <= 599 -> body (t_returned t) b -> shape t
| shape_body : t_hasHeader t = true -> t_complete t = false -> t_wrote t = true -> body (t_returned t) (t_down t) -> shape t
| shape_complete : t_hasHeader t = true -> t_complete t = true -> t_wrote t = true -> t_down t = [] -> t_returned t = true -> shape t.

Definition benign (e : rtc_error) : Prop :=
  match e with ExceedsLength | UnexpectedEOF | InvalidLength | TransferError | Canceled => True | _ => False end.

(** While the client has not failed. *)
Record live (t : transfer) : Prop := {
  lv_credits : outstanding t = Window;
  lv_data : t_read t ++ t_current t ++ concat (t_packets t) ++ in_flight t ++ t_buffer t = t_accepted t;
  lv_shape : shape t;
  lv_ended : t_ended t = t_complete t;
  lv_packets : Forall (fun c => c <> []) (t_packets t);
}.

Record inv (t : transfer) : Prop := {
  iv_live : t_error t = None -> live t;
  iv_credits : (outstanding t <= Window)%nat;
  iv_prefix : t_read t `prefix_of` t_accepted t;
  iv_buffer : t_returned t = true -> t_buffer t = [];
  iv_eof : t_eof t = true -> t_read t = t_accepted t /\ t_returned t = true;
  iv_stopped : t_stopped t = false;
  iv_error : forall e, t_error t = Some e -> benign e;
}.

Ltac tsimpl := cbn [send t_wrote t_buffer t_returned t_credits t_finished t_stopped t_down t_up t_head t_hasHeader t_complete t_expected t_received t_packets t_current t_ended t_error t_eof t_accepted t_read].
Ltac tsimpl_in H := cbn [send t_wrote t_buffer t_returned t_credits t_finished t_stopped t_down t_up t_head t_hasHeader t_complete t_expected t_received t_packets t_current t_ended t_error t_eof t_accepted t_read] in H.

Lemma rtc_count_app {A} (p : A -> bool) l k : count p (l ++ k) = (count p l + count p k)%nat.
Proof. unfold count. by rewrite List.filter_app, length_app. Qed.

Lemma count_one {A} (p : A -> bool) x : count p [x] = if p x then 1%nat else 0%nat.
Proof. unfold count. cbn. by destruct (p x). Qed.

Lemma count_cons {A} (p : A -> bool) x l : count p (x :: l) = ((if p x then 1 else 0) + count p l)%nat.
Proof. unfold count. cbn. by destruct (p x). Qed.

Lemma rtc_inv_new head : inv (new_transfer head).
Proof. constructor; try done. intros _. constructor; try done. by apply shape_before. Qed.

Lemma body_snoc b m : body false b -> chunk_ok m -> body false (b ++ [MData m]).
Proof. intros (cs & Hcs & ->) Hm. exists (cs ++ [m]). split; [apply Forall_app; split; [done|by constructor]|]. by rewrite fmap_app. Qed.

Lemma body_end b : body false b -> body true (b ++ [MDone]) /\ body true (b ++ [MError]).
Proof. intros (cs & Hcs & ->). split; exists cs; split; auto. Qed.

(** The front of a body. *)
Lemma body_cons returned m b : body returned (m :: b) ->
  (exists c, m = MData c /\ chunk_ok c /\ body returned b) \/ (returned = true /\ b = [] /\ (m = MDone \/ m = MError)).
Proof.
  intros (cs & Hcs & Hb). destruct cs as [|c cs]; cbn in Hb.
  - destruct returned; [|done]. right. split; [done|]. destruct Hb as [[= -> ->]|[= -> ->]]; auto.
  - apply Forall_cons in Hcs as [Hc Hcs]. left. exists c. destruct returned.
    + destruct Hb as [[= -> ->]|[= -> ->]]; (split; [done|]; split; [done|]; exists cs; split; [done|]); auto.
    + injection Hb as -> ->. split; [done|]. split; [done|]. by exists cs.
Qed.

Lemma prefix_app_mono {A} (a b c : list A) : a `prefix_of` b -> a `prefix_of` b ++ c.
Proof. intros [k ->]. exists (k ++ c). by rewrite app_assoc. Qed.

(** A header is queued at most once, before everything else. *)
Lemma shape_wrote t status len : shape t -> t_error t = None -> t_returned t = false -> 200 <= status <= 599 ->
  let t' := WriteHeader status len t in shape t' /\ t_wrote t' = true /\ in_flight t' = in_flight t /\ outstanding t' = outstanding t.
Proof.
  intros Hs He Hr Hst. unfold WriteHeader. destruct (t_wrote t) eqn:Ew; [done|]. cbv zeta. unfold send, in_flight, outstanding, busy. cbn.
  destruct Hs as [H1 H2 _ H4 _|? ? ? ? ? ?|? ? ?|? ? ?]; [|congruence..]. rewrite Hr in H4. rewrite H4. cbn. split; [|done].
  eapply shape_header; cbn; try done. rewrite Hr. exists []. done.
Qed.

Lemma rtc_WriteHeader_same status len t : let t' := WriteHeader status len t in
  t_buffer t' = t_buffer t /\ t_returned t' = t_returned t /\ t_error t' = t_error t /\ t_read t' = t_read t /\ t_accepted t' = t_accepted t /\ t_eof t' = t_eof t /\
  t_stopped t' = t_stopped t /\ t_current t' = t_current t /\ t_packets t' = t_packets t /\ t_ended t' = t_ended t /\ t_complete t' = t_complete t /\ outstanding t' = outstanding t.
Proof.
  unfold WriteHeader. destruct (t_wrote t); [done|]. cbn. unfold outstanding, busy, send. cbn. rewrite rtc_count_app, count_one. cbn. repeat split. lia.
Qed.

Lemma WriteHeader_inv status len t : inv t -> handler_turn t = true -> 200 <= status <= 599 -> inv (WriteHeader status len t).
Proof.
  intros [Hl Hc Hp Hb Hf Hs He] Ht Hst. destruct (rtc_WriteHeader_same status len t) as (E1 & E2 & E3 & E4 & E5 & E6 & E7 & E8 & E9 & E10 & E11 & E12).
  constructor; rewrite ?E1, ?E2, ?E3, ?E4, ?E5, ?E6, ?E7, ?E12; try done. intros Hn. destruct (Hl Hn) as [L1 L2 L3 L4 L5].
  unfold handler_turn in Ht. apply andb_true_iff in Ht as [Hr%negb_true_iff _].
  destruct (shape_wrote t status len L3 Hn Hr Hst) as (S1 & _ & S2 & _). constructor; rewrite ?E1, ?E4, ?E5, ?E8, ?E9, ?E10, ?E11, ?E12, ?S2; done.
Qed.

Lemma handler_idle t : handler_turn t = true -> t_returned t = false /\ t_buffer t = [].
Proof. intros [H1%negb_true_iff H2%bool_decide_eq_true]%andb_true_iff. done. Qed.

Lemma WriteHeader_turn status len t : handler_turn (WriteHeader status len t) = handler_turn t.
Proof. unfold handler_turn. by destruct (rtc_WriteHeader_same status len t) as (-> & -> & _). Qed.

Lemma write_inv t data : inv t -> handler_turn t = true -> t_wrote t = true -> inv {| t with t_buffer := data; t_accepted := t_accepted t ++ data |}.
Proof.
  intros [Hl Hc Hp Hb Hf Hs He] [Hr Hbuf]%handler_idle Hw. constructor; cbn; try done.
  - intros Hn. destruct (Hl Hn) as [L1 L2 L3 L4 L5]. constructor; cbn; try done.
    + unfold in_flight in *. cbn. rewrite <-L2, Hbuf, app_nil_r. by rewrite <-!app_assoc.
    + by destruct L3; [congruence|eapply shape_header|apply shape_body|apply shape_complete].
  - by apply prefix_app_mono.
  - congruence.
  - intros H. apply Hf in H as [_ ?]. congruence.
Qed.

(** The handler ends with a last message. *)
Lemma last_inv t m : inv t -> handler_turn t = true -> m = MError \/ m = MDone /\ t_wrote t = true -> inv {| (send m t) with t_returned := true |}.
Proof.
  intros [Hl Hc Hp Hb Hf Hs He] [Hr Hbuf]%handler_idle Hm. assert (Hk : is_data m = false) by (destruct Hm as [-> |[-> _]]; done).
  assert (Ho : outstanding {| (send m t) with t_returned := true |} = outstanding t).
  { unfold outstanding, busy, send. cbn. rewrite rtc_count_app, count_one, Hk. lia. }
  pose proof Ho as Ho'. tsimpl_in Ho'. constructor; rewrite ?Ho; tsimpl; try done.
  - intros Hn. destruct (Hl Hn) as [L1 L2 L3 L4 L5]. constructor; rewrite ?Ho'; tsimpl; try done.
    + assert (Hd : chunk_of m = []) by (destruct Hm as [-> |[-> _]]; done).
      unfold in_flight in *. cbn [send t_down]. rewrite fmap_app, concat_app. cbn [fmap list_fmap concat]. rewrite Hd. cbn [app]. by rewrite app_nil_r.
    + destruct L3 as [H1 H2 H3 H4 H0|status len b H1 H2 H3 H4 H5 H6|H1 H2 H3 H4|H1 H2 H3 H4 H5].
      * destruct Hm as [-> |[_ Hw]]; [|congruence]. rewrite Hr in H4. apply shape_before; cbn; try done. by rewrite H4.
      * rewrite Hr in H6. apply (shape_header _ status len (b ++ [m])); cbn; try done; [by rewrite H4|]. apply body_end in H6 as [? ?]. by destruct Hm as [-> |[-> _]].
      * rewrite Hr in H4. apply shape_body; cbn; try done. apply body_end in H4 as [? ?]. by destruct Hm as [-> |[-> _]].
      * congruence.
  - intros H. apply Hf in H as [? ?]. congruence.
Qed.

Lemma send_chunk_inv t t' : inv t -> send_chunk t = Some t' -> inv t'.
Proof.
  intros [Hl Hc Hp Hb Hf Hs He] H. unfold send_chunk in H. case_bool_decide as Hn0; [done|]. destruct (t_credits t) as [|c] eqn:Ec; [done|]. injection H as <-.
  assert (Hr : t_returned t = false) by (destruct (t_returned t); [by rewrite Hb in Hn0|done]).
  assert (Hk : chunk_ok (take ChunkSize (t_buffer t))) by (split; [by destruct (t_buffer t)|rewrite length_take; lia]).
  match goal with |- inv ?x => assert (Ho : outstanding x = outstanding t) end.
  { unfold outstanding, busy, send. cbn. rewrite rtc_count_app, count_one, Ec. cbn. lia. }
  pose proof Ho as Ho'. tsimpl_in Ho'. constructor; rewrite ?Ho; tsimpl; try done; [|congruence].
  intros Hn. destruct (Hl Hn) as [L1 L2 L3 L4 L5]. constructor; rewrite ?Ho'; tsimpl; try done.
  - unfold in_flight in *. cbn [send t_down]. rewrite fmap_app, concat_app, <-L2. cbn [fmap list_fmap concat chunk_of]. by rewrite app_nil_r, <-(app_assoc (concat _)), take_drop.
  - destruct L3 as [H1 H2 H3 H4 H0|status len b H1 H2 H3 H4 H5 H6|H1 H2 H3 H4|H1 H2 H3 H4 H5].
    + congruence.
    + rewrite Hr in H6. apply (shape_header _ status len (b ++ [MData (take ChunkSize (t_buffer t))])); cbn; try done; [by rewrite H4|]. rewrite Hr. by apply body_snoc.
    + rewrite Hr in H4. apply shape_body; cbn; try done. rewrite Hr. by apply body_snoc.
    + congruence.
Qed.

(** What does not depend on the client being well. *)
Record weak (t : transfer) : Prop := {
  wk_credits : (outstanding t <= Window)%nat;
  wk_prefix : t_read t `prefix_of` t_accepted t;
  wk_buffer : t_returned t = true -> t_buffer t = [];
  wk_eof : t_eof t = true -> t_read t = t_accepted t /\ t_returned t = true;
  wk_stopped : t_stopped t = false;
}.

Lemma inv_weak t : inv t -> weak t.
Proof. by intros []. Qed.

Lemma weak_cancel_inv e t : weak t -> benign e -> (forall e', t_error t = Some e' -> benign e') -> inv (cancel e t).
Proof.
  intros [W1 W2 W3 W4 W5] He Ht. unfold cancel. destruct (t_error t) as [e'|] eqn:Ee.
  - constructor; try done; [congruence|]. intros e0 H0. apply Ht. congruence.
  - constructor; tsimpl; try done. by intros ? [= <-].
Qed.

Lemma dead_inv t e : weak t -> t_error t = Some e -> benign e -> inv t.
Proof. intros [W1 W2 W3 W4 W5] He Hb. constructor; try done; [congruence|]. intros e0 H0. congruence. Qed.

(** Taking a message off the channel, and nothing else of it. *)
Lemma weak_drop t m r : weak t -> t_down t = m :: r -> weak {| t with t_down := r |}.
Proof.
  intros [W1 W2 W3 W4 W5] Hd. constructor; tsimpl; try done. unfold outstanding, busy in *. tsimpl. rewrite Hd, count_cons in W1. lia.
Qed.

Lemma cancel_error e t : t_error t <> None -> cancel e t = t.
Proof. unfold cancel. by destruct (t_error t). Qed.

Lemma message_dead t m r e : weak t -> t_down t = m :: r -> t_error t = Some e -> let t' := message m {| t with t_down := r |} in weak t' /\ t_error t' = Some e.
Proof.
  intros Hw Hd He. pose proof (weak_drop t m r Hw Hd) as Hw'. cbv zeta. destruct m as [status len|c| |]; cbn [message].
  - unfold header_frame. destruct (_ || _ || _); [by rewrite cancel_error; tsimpl; [|congruence]|]. cbv zeta. destruct (if bool_decide (len = "") then _ else _).
    + split; [|done]. by destruct Hw'.
    + rewrite cancel_error; tsimpl; [|congruence]. split; [|done]. by destruct Hw'.
  - unfold data_frame. destruct (_ || _ || _); [by rewrite cancel_error; tsimpl; [|congruence]|]. cbv zeta.
    destruct (_ && _); [rewrite cancel_error; tsimpl; [|congruence]; split; [|done]; by destruct Hw'|].
    destruct (_ <? _)%nat; [|rewrite cancel_error; tsimpl; [|congruence]; split; [|done]; by destruct Hw'].
    split; [|done]. destruct Hw as [W1 W2 W3 W4 W5]. constructor; tsimpl; try done. unfold outstanding, busy in *. tsimpl. rewrite Hd, count_cons in W1. cbn [is_data] in W1.
    rewrite length_app. cbn. lia.
  - unfold done_frame. destruct (_ || _); [by rewrite cancel_error; tsimpl; [|congruence]|]. cbv zeta.
    destruct (_ && _); [rewrite cancel_error; tsimpl; [|congruence]|]; (split; [|done]; by destruct Hw').
  - by rewrite cancel_error; tsimpl; [|congruence].
Qed.

Lemma no_error_benign t : t_error t = None -> forall e, t_error t = Some e -> benign e.
Proof. congruence. Qed.

Lemma data_frame_inv t c r : inv t -> t_error t = None -> t_down t = MData c :: r -> t_hasHeader t = true -> t_complete t = false -> t_wrote t = true ->
  body (t_returned t) r -> chunk_ok c -> inv (data_frame c {| t with t_down := r |}).
Proof.
  intros Hi Hn Hd Hh Hc Hw Hb [Hc1 Hc2]. pose proof (weak_drop t _ _ (inv_weak _ Hi) Hd) as Hwd. destruct Hi as [Hl Hcr Hp Hbf Hf Hs He]. destruct (Hl Hn) as [L1 L2 L3 L4 L5].
  unfold data_frame. tsimpl. rewrite Hh, Hc, (proj2 (Nat.ltb_ge _ _) Hc2). cbn [negb orb]. cbv zeta.
  destruct (_ && _).
  { apply weak_cancel_inv; [by destruct Hwd|done|tsimpl; congruence]. }
  assert (Hroom : (length (t_packets t) < Window)%nat) by (unfold outstanding in Hcr; rewrite Hd, count_cons in Hcr; cbn in Hcr; lia).
  tsimpl. rewrite (proj2 (Nat.ltb_lt _ _) Hroom).
  match goal with |- inv ?x => assert (Ho : outstanding x = outstanding t) end.
  { unfold outstanding, busy. tsimpl. rewrite Hd, count_cons, length_app. cbn. lia. }
  constructor; rewrite ?Ho; tsimpl; try done. intros _. pose proof Ho as Ho'. constructor; rewrite ?Ho'; tsimpl; try done.
  - rewrite <-L2. unfold in_flight. tsimpl. rewrite Hd. rewrite concat_app. cbn [concat fmap list_fmap chunk_of]. rewrite app_nil_r. by rewrite <-!app_assoc.
  - apply shape_body; tsimpl; done.
  - congruence.
  - apply Forall_app. split; [done|by constructor].
Qed.

Lemma message_live t m r : inv t -> t_error t = None -> t_down t = m :: r -> inv (message m {| t with t_down := r |}).
Proof.
  intros Hi Hn Hd. pose proof (weak_drop t _ _ (inv_weak _ Hi) Hd) as Hwd. pose proof Hi as [Hl Hcr Hp Hbf Hf Hs He]. destruct (Hl Hn) as [L1 L2 L3 L4 L5].
  destruct L3 as [H1 H2 H3 H4 H5|status len b H1 H2 H3 H4 H5 H6|H1 H2 H3 H4|H1 H2 H3 H4 H5].
  - rewrite Hd in H4. destruct (t_returned t); [|done]. injection H4 as -> ->. cbn [message]. apply weak_cancel_inv; [done|done|tsimpl; congruence].
  - rewrite Hd in H4. injection H4 as -> ->. cbn [message]. unfold header_frame. tsimpl. rewrite H1, (proj2 (Z.ltb_ge _ _)) by lia. cbn [orb].
    destruct (status >? 599) eqn:Eg; [lia|]. cbn [orb]. cbv zeta. tsimpl. destruct (if bool_decide (len = "") then _ else _).
    + match goal with |- inv ?x => assert (Ho : outstanding x = outstanding t) by (unfold outstanding, busy; tsimpl; rewrite Hd, count_cons; done) end.
      constructor; rewrite ?Ho; tsimpl; try done. intros _. constructor; rewrite ?Ho; tsimpl; try done.
      * rewrite <-L2. unfold in_flight. tsimpl. by rewrite Hd.
      * apply shape_body; tsimpl; done.
    + apply weak_cancel_inv; [by destruct Hwd|done|tsimpl; congruence].
  - rewrite Hd in H4. destruct (body_cons _ _ _ H4) as [(c & -> & Hc & Hb)|(Hr & -> & [-> | ->])].
    + cbn [message]. by apply (data_frame_inv t c r).
    + cbn [message]. unfold done_frame. tsimpl. rewrite H1, H2. cbn [negb orb]. cbv zeta. tsimpl. destruct (_ && _).
      { apply weak_cancel_inv; [by destruct Hwd|done|tsimpl; congruence]. }
      match goal with |- inv ?x => assert (Ho : outstanding x = outstanding t) by (unfold outstanding, busy; tsimpl; rewrite Hd, count_cons; done) end.
      constructor; rewrite ?Ho; tsimpl; try done. intros _. constructor; rewrite ?Ho; tsimpl; try done.
      * rewrite <-L2. unfold in_flight. tsimpl. by rewrite Hd.
      * apply shape_complete; tsimpl; done.
    + cbn [message]. apply weak_cancel_inv; [done|done|tsimpl; congruence].
  - congruence.
Qed.

Lemma read_current_inv n t : inv t -> t_error t = None -> n <> 0%nat -> t_current t <> [] -> inv (read_current n t).
Proof.
  intros [Hl Hcr Hp Hbf Hf Hs He] Hn Hz Hc. destruct (Hl Hn) as [L1 L2 L3 L4 L5]. unfold read_current. cbv zeta.
  set (u := {| t with t_read := t_read t ++ take n (t_current t); t_current := drop n (t_current t) |}).
  assert (Hne : t_eof t = false).
  { destruct (t_eof t) eqn:E; [|done]. destruct (Hf eq_refl) as [Hr _]. rewrite <-Hr in L2. symmetry in L2. rewrite <-(app_nil_r (t_read t)) in L2 at 1.
    apply app_inv_head in L2. by destruct (t_current t). }
  assert (Hdata : t_read u ++ t_current u ++ concat (t_packets u) ++ in_flight u ++ t_buffer u = t_accepted u).
  { subst u. unfold in_flight in *. tsimpl. rewrite <-L2, <-app_assoc. f_equal. by rewrite app_assoc, take_drop. }
  assert (Hpre : t_read u `prefix_of` t_accepted u) by (by eexists).
  assert (Hsh : forall up, shape {| u with t_up := up |}) by (intros up; subst u; destruct L3; [apply shape_before|eapply shape_header|apply shape_body|apply shape_complete]; tsimpl; done).
  case_bool_decide as Hd.
  - match goal with |- inv ?x => assert (Ho : outstanding x = outstanding t) end.
    { unfold outstanding, busy. subst u. tsimpl. tsimpl_in Hd. rewrite Hd, rtc_count_app, count_one. rewrite bool_decide_true by done. rewrite bool_decide_false by done. cbn. lia. }
    constructor; rewrite ?Ho; try done; [|subst u; tsimpl; congruence]. intros _. constructor; rewrite ?Ho; try done.
  - match goal with |- inv ?x => assert (Ho : outstanding x = outstanding t) end.
    { unfold outstanding, busy. subst u. tsimpl. tsimpl_in Hd. by rewrite !bool_decide_false by done. }
    constructor; rewrite ?Ho; try done; [|subst u; tsimpl; congruence]. intros _. constructor; rewrite ?Ho; try done. apply (Hsh (t_up t)).
Qed.

Lemma Read_inv n t t' : inv t -> Read n t = Some t' -> inv t'.
Proof.
  intros Hi H. unfold Read in H. destruct (t_error t) eqn:Hn; [done|]. destruct (bool_decide (n = 0%nat)) eqn:Ez; [done|]. apply bool_decide_eq_false in Ez.
  destruct (bool_decide (t_current t = [])) eqn:Ec; cbn [negb] in H.
  - apply bool_decide_eq_true in Ec. pose proof Hi as [Hl Hcr Hp Hbf Hf Hs He]. destruct (Hl Hn) as [L1 L2 L3 L4 L5]. destruct (t_packets t) as [|c r] eqn:Epk.
    + destruct (t_ended t) eqn:Ee; [|done]. destruct (t_eof t) eqn:Ef; [done|]. injection H as <-.
      assert (Hret : t_down t = [] /\ t_returned t = true) by (destruct L3; [congruence|congruence|congruence|done]). destruct Hret as [Hdn Hret].
      rewrite Ec, (Hbf Hret) in L2. unfold in_flight in L2. rewrite Hdn in L2. cbn in L2. rewrite app_nil_r in L2.
      match goal with |- inv ?x => assert (Ho : outstanding x = outstanding t) by (unfold outstanding, busy; tsimpl; rewrite rtc_count_app, count_one, Epk; cbn; lia) end.
      constructor; rewrite ?Ho; tsimpl; try done. intros _. constructor; rewrite ?Ho; tsimpl; try done.
      * unfold in_flight. tsimpl. rewrite Hdn, Ec, (Hbf Hret). cbn. by rewrite app_nil_r.
      * destruct L3; [congruence|congruence|congruence|]. apply shape_complete; tsimpl; done.
    + injection H as <-. apply Forall_cons in L5 as [Hc0 L5]. apply read_current_inv; [|done|done|done].
      match goal with |- inv ?x => assert (Ho : outstanding x = outstanding t) by (unfold outstanding, busy; tsimpl; rewrite Epk, Ec, bool_decide_false by done; cbn; lia) end.
      constructor; rewrite ?Ho; tsimpl; try done. intros _. constructor; rewrite ?Ho; tsimpl; try done.
      * rewrite <-L2, Ec. unfold in_flight. tsimpl. cbn [concat app]. by rewrite <-!app_assoc.
      * destruct L3; [apply shape_before|eapply shape_header|apply shape_body|apply shape_complete]; tsimpl; done.
  - apply bool_decide_eq_false in Ec. injection H as <-. by apply read_current_inv.
Qed.

Lemma server_message_inv t m r : inv t -> t_up t = m :: r -> inv (server_message m {| t with t_up := r |}).
Proof.
  intros [Hl Hcr Hp Hbf Hf Hs He] Hu.
  assert (Hsh : shape t -> forall c fin st, shape {| t with t_up := r; t_credits := c; t_finished := fin; t_stopped := st |})
    by (intros L3 c fin st; destruct L3; [apply shape_before|eapply shape_header|apply shape_body|apply shape_complete]; tsimpl; done).
  destruct m; cbn [server_message]; tsimpl.
  - assert (Hlt : (t_credits t < Window)%nat) by (unfold outstanding in Hcr; rewrite Hu, count_cons in Hcr; cbn in Hcr; lia).
    rewrite (proj2 (Nat.ltb_lt _ _) Hlt).
    match goal with |- inv ?x => assert (Ho : outstanding x = outstanding t) by (unfold outstanding, busy; tsimpl; rewrite Hu, count_cons; cbn [is_credit]; lia) end.
    constructor; rewrite ?Ho; tsimpl; try done. intros Hn. destruct (Hl Hn) as [L1 L2 L3 L4 L5]. constructor; rewrite ?Ho; tsimpl; try done. by apply (Hsh L3).
  - match goal with |- inv ?x => assert (Ho : outstanding x = outstanding t) by (unfold outstanding, busy; tsimpl; rewrite Hu, count_cons; done) end.
    constructor; rewrite ?Ho; tsimpl; try done. intros Hn. destruct (Hl Hn) as [L1 L2 L3 L4 L5]. constructor; rewrite ?Ho; tsimpl; try done. by apply (Hsh L3).
Qed.

Lemma step_inv e t t' : inv t -> step e t = Some t' -> inv t'.
Proof.
  intros Hi H. destruct e as [status len|data| | | | | |n|]; cbn [step] in H.
  - destruct (handler_turn t) eqn:Ht; [|done]. cbn [andb] in H. destruct (200 <=? status) eqn:E1; [|done]. destruct (status <=? 599) eqn:E2; [|done]. injection H as <-.
    apply WriteHeader_inv; [done|done|lia].
  - destruct (handler_turn t) eqn:Ht; [|done]. injection H as <-. apply write_inv; [apply WriteHeader_inv; [done|done|lia]|by rewrite WriteHeader_turn|].
    unfold WriteHeader. by destruct (t_wrote t) eqn:E.
  - destruct (handler_turn t) eqn:Ht; [|done]. injection H as <-. unfold serve_end. apply last_inv; [apply WriteHeader_inv; [done|done|lia]|by rewrite WriteHeader_turn|].
    right. split; [done|]. unfold WriteHeader. by destruct (t_wrote t) eqn:E.
  - destruct (handler_turn t) eqn:Ht; [|done]. injection H as <-. apply last_inv; [done|done|by left].
  - by eapply send_chunk_inv.
  - destruct (t_up t) as [|m r] eqn:E; [done|]. injection H as <-. by apply server_message_inv.
  - destruct (t_down t) as [|m r] eqn:E; [done|]. injection H as <-. destruct (decide (t_error t = None)) as [Ee|Ee]; [by apply message_live|].
    assert (Hex : exists er, t_error t = Some er) by (destruct (t_error t); [eauto|done]). clear Ee. destruct Hex as [er Ee].
    destruct (message_dead t m r er (inv_weak _ Hi) E Ee) as [Hw He]. eapply dead_inv; [done|exact He|by apply Hi].
  - by eapply Read_inv.
  - injection H as <-. apply weak_cancel_inv; [by apply inv_weak|done|apply Hi].
Qed.

Lemma rtc_reachable_inv t : reachable t -> inv t.
Proof. induction 1 as [head|t e t' _ IH H]; [apply rtc_inv_new|by eapply step_inv]. Qed.


(** ** Progress *)

(** The steps of the protocol itself. *)
Definition transport (e : event) : bool := match e with SSend | SRecv | CRecv => true | CRead n => negb (bool_decide (n = 0%nat)) | _ => false end.

Definition message_weight (m : down_message) : nat := (3 * length (chunk_of m) + 1)%nat.

(** What is left to do, in steps at most. *)
Definition work (t : transfer) : nat :=
  (5 * length (t_buffer t) + sum_list_with message_weight (t_down t) + 2 * sum_list_with length (t_packets t) + 2 * length (t_current t) + length (t_up t) + if t_eof t then 0 else 2)%nat.

Lemma read_current_work n t : n <> 0%nat -> t_current t <> [] -> (work (read_current n t) < work t)%nat.
Proof.
  intros Hn Hc. assert (Hl : (length (drop n (t_current t)) < length (t_current t))%nat) by (rewrite length_drop; destruct (t_current t); [done|cbn; lia]).
  unfold read_current, work. cbv zeta. case_bool_decide; tsimpl; rewrite ?length_app; cbn; lia.
Qed.

Lemma message_work m r t : t_down t = m :: r -> (work (message m {| t with t_down := r |}) < work t)%nat.
Proof.
  intros Hd. assert (Hc : forall e u, work (cancel e u) = work u) by (intros e u; unfold cancel; by destruct (t_error u)).
  unfold work at 2. rewrite Hd. cbn [sum_list_with]. destruct m as [status len|c| |]; cbn [message message_weight chunk_of].
  - unfold header_frame. destruct (_ || _ || _); [rewrite Hc; unfold work; tsimpl; cbn; lia|]. cbv zeta. destruct (if bool_decide (len = "") then _ else _); rewrite ?Hc; unfold work; tsimpl; cbn; lia.
  - unfold data_frame. destruct (_ || _ || _); [rewrite Hc; unfold work; tsimpl; cbn; lia|]. cbv zeta. destruct (_ && _); [rewrite Hc; unfold work; tsimpl; cbn; lia|].
    destruct (_ <? _)%nat; [|rewrite Hc; unfold work; tsimpl; cbn; lia]. unfold work. tsimpl. rewrite sum_list_with_app. cbn. lia.
  - unfold done_frame. destruct (_ || _); [rewrite Hc; unfold work; tsimpl; cbn; lia|]. cbv zeta. destruct (_ && _); rewrite ?Hc; unfold work; tsimpl; cbn; lia.
  - rewrite Hc. unfold work. tsimpl. cbn. lia.
Qed.

Lemma transport_work e t t' : inv t -> transport e = true -> step e t = Some t' -> (work t' < work t)%nat.
Proof.
  intros Hi He H. destruct e as [| | | | | | |n|]; try done; cbn [step] in H.
  - unfold send_chunk in H. case_bool_decide as Hb; [done|]. destruct (t_credits t); [done|]. injection H as <-. unfold work. tsimpl.
    rewrite sum_list_with_app. cbn [sum_list_with]. unfold message_weight at 2. cbn [chunk_of]. rewrite length_take, length_drop.
    assert (0 < length (t_buffer t))%nat by (destruct (t_buffer t); [done|cbn; lia]). pose proof ChunkSize_pos. lia.
  - destruct (t_up t) as [|m r] eqn:E; [done|]. injection H as <-. unfold work. rewrite E. destruct m; cbn [server_message]; tsimpl; [destruct (_ <? _)%nat; tsimpl|]; cbn [length]; lia.
  - destruct (t_down t) as [|m r] eqn:E; [done|]. injection H as <-. by apply message_work.
  - unfold Read in H. destruct (t_error t) eqn:Hn; [done|]. destruct (bool_decide (n = 0%nat)) eqn:Ez; [done|]. apply bool_decide_eq_false in Ez.
    destruct (bool_decide (t_current t = [])) eqn:Ec; cbn [negb] in H.
    + apply bool_decide_eq_true in Ec. pose proof (lv_packets _ (iv_live _ Hi Hn)) as Hp. destruct (t_packets t) as [|c r] eqn:Ep.
      * destruct (t_ended t); [|done]. destruct (t_eof t) eqn:Ef; [done|]. injection H as <-. unfold work. tsimpl. rewrite Ef, length_app. cbn. lia.
      * injection H as <-. apply Forall_cons in Hp as [Hc _]. eapply Nat.lt_le_trans; [by apply read_current_work|]. unfold work. tsimpl. rewrite Ep, Ec. cbn [sum_list_with length]. lia.
    + apply bool_decide_eq_false in Ec. injection H as <-. by apply read_current_work.
Qed.

(** Without a step of the protocol left, it is over or the handler's turn. *)
Lemma stuck_done t : inv t -> t_error t = None -> handler_turn t = false -> (forall e, transport e = true -> step e t = None) -> t_eof t = true.
Proof.
  intros [Hl Hcr Hp Hbf Hf Hs He] Hn Ht Hstuck. destruct (Hl Hn) as [L1 L2 L3 L4 L5].
  assert (Hup : t_up t = []) by (specialize (Hstuck SRecv eq_refl); cbn in Hstuck; by destruct (t_up t)).
  assert (Hdn : t_down t = []) by (specialize (Hstuck CRecv eq_refl); cbn in Hstuck; by destruct (t_down t)).
  pose proof (Hstuck (CRead 1) eq_refl) as Hr. cbn [step] in Hr. unfold Read in Hr. rewrite Hn in Hr. rewrite bool_decide_false in Hr by done.
  destruct (bool_decide (t_current t = [])) eqn:Ec; [|done]. cbn [negb] in Hr. destruct (t_packets t) eqn:Ep; [|done].
  assert (Hcred : t_credits t = Window) by (unfold outstanding, busy in L1; rewrite Ec, Ep, Hup, Hdn in L1; unfold count in L1; cbn in L1; lia).
  assert (Hb : t_buffer t = []).
  { specialize (Hstuck SSend eq_refl). cbn [step] in Hstuck. unfold send_chunk in Hstuck. rewrite Hcred in Hstuck. destruct (bool_decide (t_buffer t = [])) eqn:Eb; [by apply bool_decide_eq_true in Eb|]. discriminate Hstuck. }
  unfold handler_turn in Ht. rewrite Hb, bool_decide_true, andb_true_r in Ht by done. apply negb_false_iff in Ht.
  destruct L3 as [_ _ _ H4 _|? ? ? _ _ _ H4 _ _|_ _ _ H4|_ H2 _ _ _].
  - rewrite Hdn, Ht in H4. done.
  - rewrite Hdn in H4. done.
  - rewrite Hdn, Ht in H4. destruct H4 as (cs & _ & [H|H]); by destruct cs.
  - rewrite L4, H2 in Hr. by destruct (t_eof t).
Qed.


(** ** Transfers *)

Lemma rtc_run_reachable es t t' : reachable t -> run es t = Some t' -> reachable t'.
Proof. revert t. induction es as [|e es IH]; intros t Ht; cbn [run]; [by intros [= <-]|]. destruct (step e t) as [u|] eqn:E; [|done]. intros H. eapply IH; [|exact H]. by econstructor. Qed.

(** A file of three bytes, read in two reads. *)
Definition sample_events : list event :=
  [HHeader 200 "3"; HWrite [x61; x62; x63]; SSend; HReturn; CRecv; CRecv; CRead 2; CRead 2; CRecv; CRead 2; SRecv; SRecv].

Definition sample_end : transfer := default (new_transfer false) (run sample_events (new_transfer false)).

Lemma sample_reachable : reachable sample_end.
Proof. eapply (rtc_run_reachable sample_events); [apply (reachable_new false)|]. vm_compute. reflexivity. Qed.



(** The answer to HEAD fails over the data channel when its handler writes a body, as error answers do: the server sends that body, which no HTTP server does for HEAD, and the client takes its first byte for more than the announced length and cancels the transfer. *)
Example rtc_head_error_fails : exists t, run [HHeader 404 ""; HWrite (s2b "Not Found"); SSend; HReturn; CRecv; CRecv] (new_transfer true) = Some t /\
  t_error t = Some ExceedsLength /\ t_read t = [].
Proof. eexists. split; [vm_compute; reflexivity|]. split; reflexivity. Qed.
