(* ===== verification/Transcript.v ===== *)
(** * Transcript: canonical encodings of WebTTY
    ([webtty/auth_proof.go], [e2e_crypto.go], [server_admission.go])

    What WebTTY signs, hashes or authenticates is a list of fields appended to a byte
    string: numbers as four big-endian bytes, byte strings behind their length.  Here are
    these encodings and the proof that none of them is ambiguous: the bytes determine the
    fields (text up to the surrounding white space, which is trimmed before it is
    written), and the transcripts of different kinds never coincide.

    An encoding is built from [field]s, encoders whose output can be read back from the
    front of any byte string; the class [Field] states this law, and instances for the
    sequence of two fields and for lists give it for whole transcripts. *)

From stdpp Require Import sorting.
From S2P Require Import Prelude GoStrings.

(** ** Appending fields *)

Definition appendUint32 (dst : list byte) (value : Z) : list byte := dst ++ be_put 4 (u32 value).

Definition appendLengthPrefixed (dst value : list byte) : list byte :=
  appendUint32 dst (Z.of_nat (length value)) ++ value.

Definition appendLengthPrefixedString (dst : list byte) (value : string) : list byte :=
  appendLengthPrefixed dst (s2b (TrimSpace value)).

(** [appendPayloadSuites], [appendKeyEnvelopeSuites] and [appendSignatureSuites]. *)
Definition appendSuites (dst : list byte) (values : list Z) : list byte :=
  fold_left appendUint32 values (appendUint32 dst (Z.of_nat (length values))).

(** ** Fields *)

(** [enc] is unambiguous at the front of a byte string, for values that are [ok]. *)
Class Field {A} (enc : A -> list byte) (ok : A -> Prop) : Prop :=
  field_cancel : forall a b r s, ok a -> ok b -> enc a ++ r = enc b ++ s -> a = b /\ r = s.

Lemma field_inj {A} (enc : A -> list byte) ok `{!Field enc ok} a b : ok a -> ok b -> enc a = enc b -> a = b.
Proof.
  intros Ha Hb He. destruct (field_cancel a b [] [] Ha Hb) as [? _]; [|done]. by rewrite !app_nil_r.
Qed.

Definition enc_u32 (z : Z) : list byte := appendUint32 [] z.
Definition enc_bytes (b : list byte) : list byte := appendLengthPrefixed [] b.
Definition enc_suites (l : list Z) : list byte := appendSuites [] l.

(** The enumerations of the protocol are 32-bit integers; lengths are 32-bit too. *)
Definition int32 (z : Z) : Prop := - 2 ^ 31 <= z < 2 ^ 31.
Definition short {A} (l : list A) : Prop := Z.of_nat (length l) < 2 ^ 32.

Lemma u32_inj_int32 a b : int32 a -> int32 b -> u32 a = u32 b -> a = b.
Proof. unfold int32, u32. intros Ha Hb H. pose proof (Z.div_mod a (2 ^ 32)). pose proof (Z.div_mod b (2 ^ 32)). nia. Qed.

Lemma u32_range z : 0 <= u32 z < 2 ^ 32.
Proof. unfold u32. apply Z.mod_pos_bound. lia. Qed.

Lemma be4_cancel a b r s : 0 <= a < 2 ^ 32 -> 0 <= b < 2 ^ 32 -> be_put 4 a ++ r = be_put 4 b ++ s -> a = b /\ r = s.
Proof.
  intros Ha Hb H. apply app_inj_length in H as [H ->]; [|by rewrite !length_be_put]. split; [|done].
  by apply (be_put_inj 4).
Qed.

#[export] Instance Field_u32 : Field enc_u32 int32.
Proof.
  intros a b r s Ha Hb. unfold enc_u32, appendUint32. cbn [app]. intros H.
  apply be4_cancel in H as [H ->]; [|apply u32_range..]. split; [by apply u32_inj_int32|done].
Qed.

#[export] Instance Field_bytes : Field enc_bytes short.
Proof.
  intros a b r s Ha Hb. unfold enc_bytes, appendLengthPrefixed, appendUint32, short in *. cbn [app].
  rewrite !u32_small by lia. rewrite <- !app_assoc. intros H. apply be4_cancel in H as [Hl H]; [|lia..].
  apply app_inj_length in H as [-> ->]; [done|lia].
Qed.

(** A field after another. *)
Definition enc_seq {A B} (ea : A -> list byte) (eb : B -> list byte) (p : A * B) : list byte := ea p.1 ++ eb p.2.

#[export] Instance Field_seq {A B} ea eb (oka : A -> Prop) (okb : B -> Prop) :
  Field ea oka -> Field eb okb -> Field (enc_seq ea eb) (fun p => oka p.1 /\ okb p.2).
Proof.
  intros Fa Fb [a b] [a' b'] r s [Ha Hb] [Ha' Hb']. unfold enc_seq. cbn in *. rewrite <- !app_assoc. intros H.
  apply Fa in H as [-> H]; [|done..]. by apply Fb in H as [-> ->].
Qed.

(** Fields of a list whose length is known. *)
Lemma field_concat {A} (enc : A -> list byte) ok `{F : !Field enc ok} l l' r s :
  Forall ok l -> Forall ok l' -> length l = length l' ->
  concat (enc <$> l) ++ r = concat (enc <$> l') ++ s -> l = l' /\ r = s.
Proof.
  revert l'. induction l as [|a l IH]; intros [|a' l'] Hl Hl' Hlen; cbn; try done.
  apply Forall_cons in Hl as [Ha Hl], Hl' as [Ha' Hl']. rewrite <- !app_assoc. intros H.
  apply F in H as [-> H]; [|done..]. apply IH in H as [-> ->]; [done..|]. cbn in Hlen. lia.
Qed.

Lemma fold_appendUint32 l dst : fold_left appendUint32 l dst = dst ++ concat (enc_u32 <$> l).
Proof.
  revert dst. induction l as [|z l IH]; intros dst; cbn; [by rewrite app_nil_r|]. rewrite IH. unfold enc_u32, appendUint32.
  by rewrite <- app_assoc.
Qed.

#[export] Instance Field_suites : Field enc_suites (fun l => short l /\ Forall int32 l).
Proof.
  intros a b r s [Ha Fa] [Hb Fb]. unfold enc_suites, appendSuites. rewrite !fold_appendUint32. unfold appendUint32 at 1 2. cbn [app].
  unfold short in *. rewrite !u32_small by lia. rewrite <- !app_assoc. intros H. apply be4_cancel in H as [Hl H]; [|lia..].
  apply (field_concat enc_u32 int32) in H; [done..|lia].
Qed.

(** Appending a field is appending its encoding. *)
Lemma append_u32 dst z : appendUint32 dst z = dst ++ enc_u32 z.
Proof. done. Qed.

Lemma append_bytes dst b : appendLengthPrefixed dst b = dst ++ enc_bytes b.
Proof. unfold appendLengthPrefixed, enc_bytes, appendLengthPrefixed, appendUint32. by rewrite <- app_assoc. Qed.

Lemma append_suites dst l : appendSuites dst l = dst ++ enc_suites l.
Proof. unfold enc_suites, appendSuites. rewrite !fold_appendUint32. unfold appendUint32. by rewrite <- app_assoc. Qed.

Create HintDb fields.
#[export] Hint Rewrite append_u32 append_bytes append_suites app_nil_l : fields.
#[export] Hint Rewrite <- app_assoc : fields.

(** Cancels the fields at the front of an equation, one after another. *)
Ltac cancel_fields H :=
  repeat match type of H with
  | enc_u32 _ ++ _ = enc_u32 _ ++ _ => apply Field_u32 in H as [? H]; [|first [done|vm_compute; done]..]
  | enc_bytes _ ++ _ = enc_bytes _ ++ _ => apply Field_bytes in H as [? H]; [|first [done|vm_compute; done]..]
  | enc_suites _ ++ _ = enc_suites _ ++ _ => apply Field_suites in H as [? H]; [|first [done|vm_compute; done]..]
  end.

(** ** Proof transcripts *)

Definition WebTTYClientAuthTranscriptDomain : string := "rstream-webtty-client-auth-v1".
Definition WebTTYServerAuthTranscriptDomain : string := "rstream-webtty-server-auth-v1".

Record ClientProofTranscript := MkClientTranscript {
  ct_ProtocolVersion : Z;
  ct_Transport : string;
  ct_WorkspaceID : string;
  ct_ProjectID : string;
  ct_ServerID : string;
  ct_SessionID : string;
  ct_ServerSigningKeyID : list byte;
  ct_ServerEncryptionKeyID : list byte;
  ct_ServerNonce : list byte;
  ct_AuthRequirement : Z;
  ct_PayloadSuite : Z;
  ct_KeyEnvelopeSuite : Z;
  ct_SessionKeyGrantHash : list byte;
  ct_CommandConfigHash : list byte;
  ct_AttachGrantHash : list byte;
  ct_RequestedRole : string;
  ct_ClientPrincipalID : string;
  ct_ClientSigningKeyID : list byte;
  ct_ClientCredentialHash : list byte;
  ct_IssuedAt : string;
  ct_ExpiresAt : string;
}.

Definition client_CanonicalBytes (t : ClientProofTranscript) : list byte :=
  let out := [] in
  let out := appendLengthPrefixed out (s2b WebTTYClientAuthTranscriptDomain) in
  let out := appendUint32 out (ct_ProtocolVersion t) in
  let out := appendLengthPrefixedString out (ct_Transport t) in
  let out := appendLengthPrefixedString out (ct_WorkspaceID t) in
  let out := appendLengthPrefixedString out (ct_ProjectID t) in
  let out := appendLengthPrefixedString out (ct_ServerID t) in
  let out := appendLengthPrefixedString out (ct_SessionID t) in
  let out := appendLengthPrefixed out (ct_ServerSigningKeyID t) in
  let out := appendLengthPrefixed out (ct_ServerEncryptionKeyID t) in
  let out := appendLengthPrefixed out (ct_ServerNonce t) in
  let out := appendUint32 out (ct_AuthRequirement t) in
  let out := appendUint32 out (ct_PayloadSuite t) in
  let out := appendUint32 out (ct_KeyEnvelopeSuite t) in
  let out := appendLengthPrefixed out (ct_SessionKeyGrantHash t) in
  let out := appendLengthPrefixed out (ct_CommandConfigHash t) in
  let out := appendLengthPrefixed out (ct_AttachGrantHash t) in
  let out := appendLengthPrefixedString out (ct_RequestedRole t) in
  let out := appendLengthPrefixedString out (ct_ClientPrincipalID t) in
  let out := appendLengthPrefixed out (ct_ClientSigningKeyID t) in
  let out := appendLengthPrefixed out (ct_ClientCredentialHash t) in
  let out := appendLengthPrefixedString out (ct_IssuedAt t) in
  let out := appendLengthPrefixedString out (ct_ExpiresAt t) in
  out.

Record ServerProofTranscript := MkServerTranscript {
  st_ProtocolVersion : Z;
  st_Transport : string;
  st_WorkspaceID : string;
  st_ProjectID : string;
  st_ServerID : string;
  st_SessionID : string;
  st_ServerSigningKeyID : list byte;
  st_ServerEncryptionKeyID : list byte;
  st_ServerNonce : list byte;
  st_AuthRequirement : Z;
  st_PayloadSuites : list Z;
  st_KeyEnvelopeSuites : list Z;
  st_SignatureSuites : list Z;
}.

Definition server_CanonicalBytes (t : ServerProofTranscript) : list byte :=
  let out := [] in
  let out := appendLengthPrefixed out (s2b WebTTYServerAuthTranscriptDomain) in
  let out := appendUint32 out (st_ProtocolVersion t) in
  let out := appendLengthPrefixedString out (st_Transport t) in
  let out := appendLengthPrefixedString out (st_WorkspaceID t) in
  let out := appendLengthPrefixedString out (st_ProjectID t) in
  let out := appendLengthPrefixedString out (st_ServerID t) in
  let out := appendLengthPrefixedString out (st_SessionID t) in
  let out := appendLengthPrefixed out (st_ServerSigningKeyID t) in
  let out := appendLengthPrefixed out (st_ServerEncryptionKeyID t) in
  let out := appendLengthPrefixed out (st_ServerNonce t) in
  let out := appendUint32 out (st_AuthRequirement t) in
  let out := appendSuites out (st_PayloadSuites t) in
  let out := appendSuites out (st_KeyEnvelopeSuites t) in
  let out := appendSuites out (st_SignatureSuites t) in
  out.

(** A transcript as its bytes tell it: the text is trimmed. *)
Definition client_trimmed (t : ClientProofTranscript) : ClientProofTranscript :=
  {| t with ct_Transport := TrimSpace (ct_Transport t); ct_WorkspaceID := TrimSpace (ct_WorkspaceID t);
            ct_ProjectID := TrimSpace (ct_ProjectID t); ct_ServerID := TrimSpace (ct_ServerID t);
            ct_SessionID := TrimSpace (ct_SessionID t); ct_RequestedRole := TrimSpace (ct_RequestedRole t);
            ct_ClientPrincipalID := TrimSpace (ct_ClientPrincipalID t); ct_IssuedAt := TrimSpace (ct_IssuedAt t);
            ct_ExpiresAt := TrimSpace (ct_ExpiresAt t) |}.

Definition server_trimmed (t : ServerProofTranscript) : ServerProofTranscript :=
  {| t with st_Transport := TrimSpace (st_Transport t); st_WorkspaceID := TrimSpace (st_WorkspaceID t);
            st_ProjectID := TrimSpace (st_ProjectID t); st_ServerID := TrimSpace (st_ServerID t);
            st_SessionID := TrimSpace (st_SessionID t) |}.

(** Text whose trimmed form fits a length prefix. *)
Definition short_text (s : string) : Prop := short (s2b (TrimSpace s)).

Definition client_fits (t : ClientProofTranscript) : Prop :=
  Forall int32 [ct_ProtocolVersion t; ct_AuthRequirement t; ct_PayloadSuite t; ct_KeyEnvelopeSuite t] /\
  Forall short_text [ct_Transport t; ct_WorkspaceID t; ct_ProjectID t; ct_ServerID t; ct_SessionID t; ct_RequestedRole t;
                     ct_ClientPrincipalID t; ct_IssuedAt t; ct_ExpiresAt t] /\
  Forall short [ct_ServerSigningKeyID t; ct_ServerEncryptionKeyID t; ct_ServerNonce t; ct_SessionKeyGrantHash t;
                ct_CommandConfigHash t; ct_AttachGrantHash t; ct_ClientSigningKeyID t; ct_ClientCredentialHash t].

Definition server_fits (t : ServerProofTranscript) : Prop :=
  Forall int32 [st_ProtocolVersion t; st_AuthRequirement t] /\
  Forall short_text [st_Transport t; st_WorkspaceID t; st_ProjectID t; st_ServerID t; st_SessionID t] /\
  Forall short [st_ServerSigningKeyID t; st_ServerEncryptionKeyID t; st_ServerNonce t] /\
  Forall (fun l => short l /\ Forall int32 l) [st_PayloadSuites t; st_KeyEnvelopeSuites t; st_SignatureSuites t].

Lemma s2b_inj a b : s2b a = s2b b -> a = b.
Proof. intros H. by rewrite <- (b2s_s2b a), <- (b2s_s2b b), H. Qed.

(** Turns the [Forall]s of a concrete list into hypotheses. *)
Ltac split_foralls :=
  repeat match goal with
  | H : Forall _ (_ :: _) |- _ => apply Forall_cons in H as [? H]
  | H : _ /\ _ |- _ => destruct H
  end; unfold short_text in *.

Ltac text_eqs :=
  repeat match goal with
  | H : s2b ?a = s2b ?b |- _ => apply s2b_inj in H
  end.

Lemma client_bytes_inj t t' :
  client_fits t -> client_fits t' -> client_CanonicalBytes t = client_CanonicalBytes t' -> client_trimmed t = client_trimmed t'.
Proof.
  intros Ht Ht' H. unfold client_fits in *. split_foralls.
  unfold client_CanonicalBytes, appendLengthPrefixedString in H. autorewrite with fields in H.
  apply (f_equal (fun l => l ++ [])) in H. rewrite <- !app_assoc in H.
  cancel_fields H. text_eqs. unfold client_trimmed. f_equal; done.
Qed.

Lemma server_bytes_inj t t' :
  server_fits t -> server_fits t' -> server_CanonicalBytes t = server_CanonicalBytes t' -> server_trimmed t = server_trimmed t'.
Proof.
  intros Ht Ht' H. unfold server_fits in *. split_foralls.
  unfold server_CanonicalBytes, appendLengthPrefixedString in H. autorewrite with fields in H.
  apply (f_equal (fun l => l ++ [])) in H. rewrite <- !app_assoc in H.
  cancel_fields H. text_eqs. unfold server_trimmed. f_equal; done.
Qed.

(** The bytes only depend on the trimmed transcript. *)
Lemma client_bytes_trimmed t t' : client_trimmed t = client_trimmed t' -> client_CanonicalBytes t = client_CanonicalBytes t'.
Proof.
  destruct t, t'. unfold client_trimmed, client_CanonicalBytes, appendLengthPrefixedString. cbn. intros H. injection H as.
  by repeat match goal with H : _ = _ |- _ => rewrite H; clear H end.
Qed.

Lemma server_bytes_trimmed t t' : server_trimmed t = server_trimmed t' -> server_CanonicalBytes t = server_CanonicalBytes t'.
Proof.
  destruct t, t'. unfold server_trimmed, server_CanonicalBytes, appendLengthPrefixedString. cbn. intros H. injection H as.
  by repeat match goal with H : _ = _ |- _ => rewrite H; clear H end.
Qed.

(** ** Server admission *)

Definition WebTTYServerAdmissionDomain : string := "rstream-webtty-server-admission-v1".
Definition webTTYServerAdmissionLabelsDomain : string := "rstream-webtty-server-admission-labels-v1".
Definition WebTTYServerAdmissionLabelKey : string := "rstream.webtty.server_admission".

Record WebTTYServerAdmissionProof := MkAdmission {
  ap_Version : Z;
  ap_Suite : string;
  ap_WorkspaceID : string;
  ap_ProjectID : string;
  ap_ServerID : string;
  ap_TunnelProtocol : string;
  ap_TunnelType : string;
  ap_LabelsSHA256 : string;
  ap_SigningKeyID : string;
  ap_IssuedAt : string;
  ap_ExpiresAt : string;
  ap_Nonce : string;
  ap_Signature : string;
}.

Definition appendWebTTYServerAdmissionString (dst : list byte) (value : string) : list byte :=
  appendLengthPrefixed dst (s2b value).

Definition WebTTYServerAdmissionTranscript (p : WebTTYServerAdmissionProof) : list byte :=
  let out := s2b WebTTYServerAdmissionDomain in
  let out := appendUint32 out (ap_Version p) in
  let out := appendWebTTYServerAdmissionString out (ap_Suite p) in
  let out := appendWebTTYServerAdmissionString out (ap_WorkspaceID p) in
  let out := appendWebTTYServerAdmissionString out (ap_ProjectID p) in
  let out := appendWebTTYServerAdmissionString out (ap_ServerID p) in
  let out := appendWebTTYServerAdmissionString out (ap_TunnelProtocol p) in
  let out := appendWebTTYServerAdmissionString out (ap_TunnelType p) in
  let out := appendWebTTYServerAdmissionString out (ap_LabelsSHA256 p) in
  let out := appendWebTTYServerAdmissionString out (ap_SigningKeyID p) in
  let out := appendWebTTYServerAdmissionString out (ap_IssuedAt p) in
  let out := appendWebTTYServerAdmissionString out (ap_ExpiresAt p) in
  let out := appendWebTTYServerAdmissionString out (ap_Nonce p) in
  out.

Definition admission_fits (p : WebTTYServerAdmissionProof) : Prop :=
  int32 (ap_Version p) /\
  Forall (fun s => short (s2b s)) [ap_Suite p; ap_WorkspaceID p; ap_ProjectID p; ap_ServerID p; ap_TunnelProtocol p; ap_TunnelType p;
    ap_LabelsSHA256 p; ap_SigningKeyID p; ap_IssuedAt p; ap_ExpiresAt p; ap_Nonce p].

(** The transcript is of the whole proof but its signature. *)
Lemma admission_bytes_inj p p' :
  admission_fits p -> admission_fits p' -> WebTTYServerAdmissionTranscript p = WebTTYServerAdmissionTranscript p' ->
  {| p with ap_Signature := "" |} = {| p' with ap_Signature := "" |}.
Proof.
  intros Hp Hp' H. unfold admission_fits in *. split_foralls.
  unfold WebTTYServerAdmissionTranscript, appendWebTTYServerAdmissionString in H. autorewrite with fields in H.
  apply app_inv_head in H. apply (f_equal (fun l => l ++ [])) in H. rewrite <- !app_assoc in H.
  cancel_fields H. text_eqs. f_equal; done.
Qed.

(** *** The labels, in the order of their keys *)

Fixpoint bytes_le (a b : list byte) : bool :=
  match a, b with
  | [], _ => true
  | _ :: _, [] => false
  | x :: a, y :: b => (b2z x <? b2z y) || (b2z x =? b2z y) && bytes_le a b
  end.

Definition string_le (a b : string) : Prop := bytes_le (s2b a) (s2b b) = true.

#[export] Instance string_le_dec : RelDecision string_le.
Proof. intros a b. unfold string_le. apply _. Defined.

Lemma bytes_le_cons x y a b :
  bytes_le (x :: a) (y :: b) = true <-> b2z x < b2z y \/ b2z x = b2z y /\ bytes_le a b = true.
Proof. cbn. by rewrite orb_true_iff, andb_true_iff, Z.ltb_lt, Z.eqb_eq. Qed.

Lemma bytes_le_total a b : bytes_le a b = true \/ bytes_le b a = true.
Proof.
  revert b. induction a as [|x a IH]; intros [|y b]; [by left|by left|by right|]. rewrite !bytes_le_cons.
  destruct (IH b), (Z.lt_trichotomy (b2z x) (b2z y)) as [?|[?|?]]; intuition.
Qed.

Lemma bytes_le_antisym a b : bytes_le a b = true -> bytes_le b a = true -> a = b.
Proof.
  revert b. induction a as [|x a IH]; intros [|y b]; try done. rewrite !bytes_le_cons. intros H1 H2.
  assert (b2z x = b2z y) as Hxy by lia. f_equal; [by apply b2z_inj|apply IH; intuition lia].
Qed.

Lemma bytes_le_trans a b c : bytes_le a b = true -> bytes_le b c = true -> bytes_le a c = true.
Proof.
  revert b c. induction a as [|x a IH]; intros [|y b] [|z c]; try done. rewrite !bytes_le_cons.
  intros [?|[? Hab]] [?|[? Hbc]]; [left; lia|left; lia|left; lia|right]. split; [lia|by apply (IH b)].
Qed.

#[export] Instance string_le_total : Total string_le.
Proof. intros a b. apply bytes_le_total. Qed.
#[export] Instance string_le_trans : Transitive string_le.
Proof. intros a b c. apply bytes_le_trans. Qed.
#[export] Instance string_le_antisymm : AntiSymm (=) string_le.
Proof. intros a b H1 H2. by apply s2b_inj, bytes_le_antisym. Qed.

(** What [WebTTYServerAdmissionLabelsHash] hashes, when the map is iterated over in the
    order [keys]. *)
Definition admission_labels (labels : gmap string string) (keys : list string) : list byte :=
  let keys := merge_sort string_le (filter (fun k => k <> WebTTYServerAdmissionLabelKey) keys) in
  let out := s2b webTTYServerAdmissionLabelsDomain in
  let out := appendUint32 out (Z.of_nat (length keys)) in
  fold_left (fun out key => appendWebTTYServerAdmissionString (appendWebTTYServerAdmissionString out key) (default "" (labels !! key)))
    keys out.

Definition sorted_keys (keys : list string) : list string :=
  merge_sort string_le (filter (fun k => k <> WebTTYServerAdmissionLabelKey) keys).

Definition label_of (labels : gmap string string) (key : string) : list byte * list byte :=
  (s2b key, s2b (default "" (labels !! key))).

(** The keys of a map, in some order, and what fits the length prefixes. *)
Definition keys_of (labels : gmap string string) (keys : list string) : Prop :=
  NoDup keys /\ forall k, k ∈ keys <-> is_Some (labels !! k).

Definition labels_fit (labels : gmap string string) (keys : list string) : Prop :=
  Z.of_nat (length keys) < 2 ^ 31 /\ Forall (fun k => short (label_of labels k).1 /\ short (label_of labels k).2) keys.

Lemma admission_labels_fields labels keys :
  admission_labels labels keys =
    s2b webTTYServerAdmissionLabelsDomain ++ enc_u32 (Z.of_nat (length (sorted_keys keys))) ++
    concat (enc_seq enc_bytes enc_bytes <$> (label_of labels <$> sorted_keys keys)).
Proof.
  unfold admission_labels. fold (sorted_keys keys). cbv zeta. rewrite append_u32.
  assert (Hf : forall l out, fold_left (fun out key => appendWebTTYServerAdmissionString (appendWebTTYServerAdmissionString out key)
    (default "" (labels !! key))) l out = out ++ concat (enc_seq enc_bytes enc_bytes <$> (label_of labels <$> l))).
  { induction l as [|k l IH]; intros out; cbn [fold_left fmap list_fmap concat]; [by rewrite app_nil_r|]. rewrite IH.
    unfold appendWebTTYServerAdmissionString, enc_seq, label_of. cbn [fst snd]. rewrite !append_bytes. by rewrite <- !app_assoc. }
  by rewrite Hf, <- app_assoc.
Qed.

Lemma elem_of_sorted_keys k keys : k ∈ sorted_keys keys <-> k ∈ keys /\ k <> WebTTYServerAdmissionLabelKey.
Proof. unfold sorted_keys. rewrite merge_sort_Permutation, list_elem_of_filter. tauto. Qed.

Lemma length_sorted_keys keys : (length (sorted_keys keys) <= length keys)%nat.
Proof. unfold sorted_keys. rewrite merge_sort_Permutation. apply length_filter. Qed.

(** The order of iteration does not matter. *)
Lemma sorted_keys_perm keys keys' : keys ≡ₚ keys' -> sorted_keys keys = sorted_keys keys'.
Proof.
  intros Hp. apply (StronglySorted_unique string_le); [apply StronglySorted_merge_sort; apply _..|].
  unfold sorted_keys. by rewrite !merge_sort_Permutation, Hp.
Qed.

(** The hashed bytes tell the labels, but for the admission label itself. *)
Lemma admission_labels_inj m keys m' keys' :
  keys_of m keys -> keys_of m' keys' -> labels_fit m keys -> labels_fit m' keys' ->
  admission_labels m keys = admission_labels m' keys' ->
  delete WebTTYServerAdmissionLabelKey m = delete WebTTYServerAdmissionLabelKey m'.
Proof.
  intros [_ Hk] [_ Hk'] [Hl Hf] [Hl' Hf']. rewrite !admission_labels_fields. intros H. apply app_inv_head in H.
  pose proof (length_sorted_keys keys). pose proof (length_sorted_keys keys').
  apply Field_u32 in H as [Hlen H]; [|unfold int32; lia..]. apply (f_equal (fun l => l ++ [])) in H.
  assert (Hok : forall m keys, Forall (fun k => short (label_of m k).1 /\ short (label_of m k).2) keys ->
    Forall (fun p => short p.1 /\ short p.2) (label_of m <$> sorted_keys keys)).
  { intros m0 keys0 HF. apply Forall_fmap, Forall_forall. intros k [Hin _]%elem_of_sorted_keys.
    rewrite Forall_forall in HF. by apply (HF k). }
  apply (field_concat (enc_seq enc_bytes enc_bytes) (fun p => short p.1 /\ short p.2)) in H as [H _];
    [|by apply Hok..|rewrite !length_fmap; lia].
  assert (Hkeys : sorted_keys keys = sorted_keys keys').
  { apply (f_equal (fmap (fun p : list byte * list byte => b2s p.1))) in H. rewrite <- !list_fmap_compose in H.
    assert (Hid : forall m (l : list string), (fun p : list byte * list byte => b2s p.1) ∘ label_of m <$> l = l).
    { intros m0 l. induction l as [|k l IH]; [done|]. rewrite fmap_cons, IH. f_equal. exact (b2s_s2b k). }
    by rewrite !Hid in H. }
  rewrite <- Hkeys in H. apply map_eq. intros k. destruct (decide (k = WebTTYServerAdmissionLabelKey)) as [->|Hne].
  { by rewrite !lookup_delete_eq. }
  rewrite !lookup_delete_ne by done.
  assert (Hdom : is_Some (m !! k) <-> is_Some (m' !! k)).
  { rewrite <- Hk, <- Hk'. pose proof (elem_of_sorted_keys k keys). pose proof (elem_of_sorted_keys k keys'). rewrite Hkeys in *. tauto. }
  destruct (m !! k) as [v|] eqn:Hv, (m' !! k) as [v'|] eqn:Hv'; [|by destruct (proj1 Hdom (mk_is_Some _ v eq_refl))|by destruct (proj2 Hdom (mk_is_Some _ v' eq_refl))|done].
  assert (Hin : k ∈ sorted_keys keys) by (apply elem_of_sorted_keys; rewrite Hk, Hv; eauto).
  apply list_elem_of_lookup in Hin as [i Hi]. apply (f_equal (fun l => l !! i)) in H.
  rewrite !list_lookup_fmap, Hi in H. cbn in H. unfold label_of in H. rewrite Hv, Hv' in H. cbn in H. injection H as H.
  by rewrite (s2b_inj _ _ H).
Qed.

(** ** Additional data of the end-to-end encryption *)

Definition e2eHPKEInfoDomain : string := "rstream-webtty-e2e-key/v1".
Definition e2ePayloadAADDomain : string := "rstream-webtty-e2e-payload/v1".

Definition e2eHPKEInfo (payloadSuite : Z) (payloadKeyID keyContext : list byte) (suite : Z) : list byte :=
  let out := [] in
  let out := appendLengthPrefixed out (s2b e2eHPKEInfoDomain) in
  let out := appendUint32 out payloadSuite in
  let out := appendUint32 out suite in
  let out := appendLengthPrefixed out payloadKeyID in
  let out := appendLengthPrefixed out keyContext in
  out.

Definition e2eHPKEAAD (recipientKeyID : list byte) (payloadSuite : Z) (payloadKeyID keyContext : list byte) (suite : Z) : list byte :=
  let out := [] in
  let out := appendLengthPrefixed out (s2b "key-wrap") in
  let out := appendUint32 out payloadSuite in
  let out := appendUint32 out suite in
  let out := appendLengthPrefixed out recipientKeyID in
  let out := appendLengthPrefixed out payloadKeyID in
  let out := appendLengthPrefixed out keyContext in
  out.

Definition e2ePayloadAAD (stream : string) (suite : Z) (payloadKeyID keyContext nonce : list byte) (plaintextLength : Z) : list byte :=
  let out := [] in
  let out := appendLengthPrefixed out (s2b e2ePayloadAADDomain) in
  let out := appendLengthPrefixed out (s2b stream) in
  let out := appendUint32 out suite in
  let out := appendLengthPrefixed out payloadKeyID in
  let out := appendLengthPrefixed out keyContext in
  let out := appendLengthPrefixed out nonce in
  let out := appendUint32 out plaintextLength in
  out.

Lemma e2ePayloadAAD_inj st su id ctx no len st' su' id' ctx' no' len' :
  Forall short [s2b st; id; ctx; no; s2b st'; id'; ctx'; no'] -> Forall int32 [su; su'] ->
  0 <= len < 2 ^ 32 -> 0 <= len' < 2 ^ 32 ->
  e2ePayloadAAD st su id ctx no len = e2ePayloadAAD st' su' id' ctx' no' len' ->
  (st, su, id, ctx, no, len) = (st', su', id', ctx', no', len').
Proof.
  intros Hs Hi Hl Hl' H. split_foralls. unfold e2ePayloadAAD in H. autorewrite with fields in H.
  cancel_fields H. unfold enc_u32, appendUint32 in H. cbn [app] in H. rewrite !u32_small in H by lia.
  apply (be_put_inj 4) in H; [|done..]. text_eqs. by subst.
Qed.

Lemma e2eHPKEAAD_inj rk ps id ctx su rk' ps' id' ctx' su' :
  Forall short [rk; id; ctx; rk'; id'; ctx'] -> Forall int32 [ps; su; ps'; su'] ->
  e2eHPKEAAD rk ps id ctx su = e2eHPKEAAD rk' ps' id' ctx' su' -> (rk, ps, id, ctx, su) = (rk', ps', id', ctx', su').
Proof.
  intros Hs Hi H. split_foralls. unfold e2eHPKEAAD in H. autorewrite with fields in H.
  apply (f_equal (fun l => l ++ [])) in H. rewrite <- !app_assoc in H. cancel_fields H. by subst.
Qed.

(** ** No encoding is ambiguous *)

Lemma client_server_disjoint c s : client_CanonicalBytes c <> server_CanonicalBytes s.
Proof.
  unfold client_CanonicalBytes, server_CanonicalBytes, appendLengthPrefixedString. intros H. autorewrite with fields in H.
  apply Field_bytes in H as [H _]; [by vm_compute in H|by vm_compute..].
Qed.

(** What is signed, by kind. *)
Inductive signed :=
| SignedClient (t : ClientProofTranscript)
| SignedServer (t : ServerProofTranscript)
| SignedAdmission (p : WebTTYServerAdmissionProof).

Definition signed_bytes (x : signed) : list byte :=
  match x with
  | SignedClient t => client_CanonicalBytes t
  | SignedServer t => server_CanonicalBytes t
  | SignedAdmission p => WebTTYServerAdmissionTranscript p
  end.

Definition signed_fits (x : signed) : Prop :=
  match x with SignedClient t => client_fits t | SignedServer t => server_fits t | SignedAdmission p => admission_fits p end.

(** The meaning of a signature: text up to white space, a proof up to its signature. *)
Definition signed_same (x y : signed) : Prop :=
  match x, y with
  | SignedClient t, SignedClient t' => client_trimmed t = client_trimmed t'
  | SignedServer t, SignedServer t' => server_trimmed t = server_trimmed t'
  | SignedAdmission p, SignedAdmission p' => {| p with ap_Signature := "" |} = {| p' with ap_Signature := "" |}
  | _, _ => False
  end.

Lemma admission_disjoint p x : (forall p', x <> SignedAdmission p') -> WebTTYServerAdmissionTranscript p <> signed_bytes x.
Proof.
  intros Hx H. unfold WebTTYServerAdmissionTranscript, appendWebTTYServerAdmissionString in H. autorewrite with fields in H.
  destruct x as [t|t|p']; [| |by eapply Hx].
  - cbn [signed_bytes] in H. unfold client_CanonicalBytes, appendLengthPrefixedString in H. autorewrite with fields in H. discriminate H.
  - cbn [signed_bytes] in H. unfold server_CanonicalBytes, appendLengthPrefixedString in H. autorewrite with fields in H. discriminate H.
Qed.

Lemma signed_bytes_inj x y : signed_fits x -> signed_fits y -> signed_bytes x = signed_bytes y -> signed_same x y.
Proof.
  destruct x as [t|t|p], y as [t'|t'|p']; cbn [signed_fits signed_bytes signed_same]; intros Hx Hy Heq.
  - by apply client_bytes_inj.
  - by apply client_server_disjoint in Heq.
  - symmetry in Heq. by apply (admission_disjoint p' (SignedClient t)) in Heq.
  - symmetry in Heq. by apply client_server_disjoint in Heq.
  - by apply server_bytes_inj.
  - symmetry in Heq. by apply (admission_disjoint p' (SignedServer t)) in Heq.
  - by apply (admission_disjoint p (SignedClient t')) in Heq.
  - by apply (admission_disjoint p (SignedServer t')) in Heq.
  - by apply admission_bytes_inj.
Qed.

Lemma signed_same_bytes x y : signed_same x y -> signed_bytes x = signed_bytes y.
Proof.
  destruct x as [t|t|p], y as [t'|t'|p']; cbn [signed_bytes signed_same]; try done.
  - apply client_bytes_trimmed.
  - apply server_bytes_trimmed.
  - destruct p, p'. cbn. intros Heq. injection Heq as. unfold WebTTYServerAdmissionTranscript. cbn.
    by repeat match goal with Hf : _ = _ |- _ => rewrite Hf; clear Hf end.
Qed.

(** C14: A signature key of WebTTY signs client proofs, server proofs and admission proofs;
    the signed bytes tell which, and tell every field (text up to surrounding white
    space, an admission proof up to its own signature): two signed objects with the same
    bytes are the same, and conversely. *)
Theorem signed_bytes_unambiguous x y :
  signed_fits x -> signed_fits y -> (signed_bytes x = signed_bytes y <-> signed_same x y).
Proof. intros Hx Hy. split; [by apply signed_bytes_inj|apply signed_same_bytes]. Qed.

Definition demo_client : ClientProofTranscript :=
  MkClientTranscript 1 "websocket" " ws " "p" "srv" "0011" [x01] [x02] [x03] 2 1 1 [x04] [x05] [] "" "alice" [x06] [x07] "t0" "t1".

Definition demo_server : ServerProofTranscript :=
  MkServerTranscript 1 "websocket" "ws" "p" "srv" "0011" [x01] [x02] [x03] 2 [1] [1] [1].

Lemma signed_bytes_unambiguous_witness :
  signed_bytes (SignedClient demo_client) = signed_bytes (SignedClient {| demo_client with ct_WorkspaceID := "ws" |}) /\
  signed_bytes (SignedClient demo_client) <> signed_bytes (SignedClient {| demo_client with ct_ServerNonce := [x03; x00] |}) /\
  signed_bytes (SignedClient demo_client) <> signed_bytes (SignedServer demo_server).
Proof.
  assert (Hc : forall w n, w = " ws " \/ w = "ws" -> n = [x03] \/ n = [x03; x00] ->
    signed_fits (SignedClient {| demo_client with ct_WorkspaceID := w; ct_ServerNonce := n |})).
  { intros w n [-> | ->] [-> | ->]; repeat constructor; vm_compute; congruence. }
  assert (Hs : signed_fits (SignedServer demo_server)) by (repeat constructor; vm_compute; congruence).
  split_and!.
  - apply (signed_bytes_unambiguous (SignedClient demo_client)); [apply (Hc " ws " [x03]); auto|apply (Hc "ws" [x03]); auto|].
    vm_compute. reflexivity.
  - intros H. apply (signed_bytes_unambiguous (SignedClient demo_client)) in H;
      [by vm_compute in H|apply (Hc " ws " [x03]); auto|apply (Hc " ws " [x03; x00]); auto].
  - intros H. apply (signed_bytes_unambiguous (SignedClient demo_client)) in H; [done|apply (Hc " ws " [x03]); auto|done].
Defined.

(** The labels a server admits are exactly told by what it hashes, in whichever order
    its map is iterated over. *)
Theorem admission_labels_exact m m' keys keys' :
  keys_of m keys -> keys_of m' keys' -> labels_fit m keys -> labels_fit m' keys' ->
  (admission_labels m keys = admission_labels m' keys' <->
   delete WebTTYServerAdmissionLabelKey m = delete WebTTYServerAdmissionLabelKey m').
Proof.
  intros Hk Hk' Hf Hf'. split; [by apply admission_labels_inj|]. intros Hd. rewrite !admission_labels_fields.
  assert (Hkeys : sorted_keys keys = sorted_keys keys').
  { apply (StronglySorted_unique string_le); [apply StronglySorted_merge_sort; apply _..|].
    unfold sorted_keys. rewrite !merge_sort_Permutation. destruct Hk as [Hn Hk], Hk' as [Hn' Hk'].
    apply NoDup_Permutation; [by apply NoDup_filter..|]. intros k. rewrite !list_elem_of_filter, Hk, Hk'.
    destruct (decide (k = WebTTYServerAdmissionLabelKey)) as [->|Hne]; [tauto|].
    apply (f_equal (fun m : gmap string string => m !! k)) in Hd. rewrite !lookup_delete_ne in Hd by done. by rewrite Hd. }
  rewrite Hkeys. do 4 f_equal. apply list_fmap_ext. intros i k Hi. unfold label_of. do 3 f_equal.
  assert (Hne : k <> WebTTYServerAdmissionLabelKey) by (apply (elem_of_sorted_keys k keys'); by eapply list_elem_of_lookup_2).
  apply (f_equal (fun m : gmap string string => m !! k)) in Hd. by rewrite !lookup_delete_ne in Hd by done.
Qed.
