(* ===== verification/DockerSource.v ===== *)
(** * DockerSource: tunnels described by the labels of Docker containers
    ([cmd/rstream/internal/rundocker/parser.go], [source.go], part of [runmodel/types.go])

    A container describes tunnels with labels [rstream.tunnel.<name>.<option>].  Go
    ranges over maps in an unspecified order: labels, networks and groups are lists in
    the order of iteration.  Containers come from the Docker API, which is the
    environment.  [unicode.IsLetter] and [unicode.ToLower] beyond ASCII are the
    parameter [wide]: what a run of non-ASCII bytes becomes in a sanitised name. *)

From stdpp Require Import sorting.
From S2P Require Import Prelude GoStrings GoURL Cors TunnelProps TransportConfig Transcript Reconciler TunnelConfig.

(** ** Names and labels ([runmodel]) *)

Definition ManagedByLabel := "rstream.managed-by".
Definition SourceLabel := "rstream.source".

Definition ApplyManagedLabels {Time P} (source : string) (p : RunProps Time P) : RunProps Time P :=
  let labels := <[ManagedByLabel := "run"]> (default ∅ (rp_Labels _ _ p)) in
  {| p with rp_Labels := Some (if bool_decide (TrimSpace source = "") then labels else <[SourceLabel := source]> labels) |}.

Section Sanitize.
Context (wide : list byte -> list byte).

Definition ascii (b : byte) : bool := b2z b <? 128.

(** The longest prefix of non-ASCII bytes and the rest. *)
Fixpoint span_wide (s : list byte) : list byte * list byte :=
  match s with
  | b :: r => if ascii b then ([], s) else let '(w, r) := span_wide r in (b :: w, r)
  | [] => ([], [])
  end.

Definition sanitize_byte (b : byte) : byte :=
  if is_alnum b then lower_byte b
  else if byte_eqb b x2d || byte_eqb b x5f || byte_eqb b x2e then b
  else x2d.

Fixpoint sanitize (fuel : nat) (s : list byte) : list byte :=
  match fuel with
  | O => []
  | S fuel =>
      match s with
      | [] => []
      | b :: r => if ascii b then sanitize_byte b :: sanitize fuel r else let '(w, rest) := span_wide s in wide w ++ sanitize fuel rest
      end
  end.

Definition SanitizeName (name : string) : string :=
  let clean := TrimSpace name in
  if bool_decide (clean = "") then "" else b2s (sanitize (S (length (s2b clean))) (s2b clean)).
End Sanitize.

(** ** Options *)

Inductive docker_error :=
| UnknownLabel (key : string) | LabelKeyEmpty | BadBoolean (val : string) | BadPort (val : string) | BadMaxAge
| OptionError (e : option_error) | MissingForward | ForwardError (e : forward_error) | EmptyForward | NoContainerHost | ForwardOutside (host : string)
| ContextLabelsDisabled | NoLookup | LookupError | NoDefaultContext.

Definition splitCSV (val : string) : option (list string) :=
  match filter (fun p => p <> "") (TrimSpace <$> Split val x2c) with [] => None | l => Some l end.

Definition parseBool (val : string) : result docker_error bool :=
  let v := fold_option val in
  if existsb (fun c => bool_decide (v = c)) ["1"; "t"; "true"; "yes"; "y"] then Ok true
  else if existsb (fun c => bool_decide (v = c)) ["0"; "f"; "false"; "no"; "n"] then Ok false
  else Err (BadBoolean val).

(** [strconv.ParseUint(strings.TrimSpace(value), 10, 16)], then not zero. *)
Definition parsePort (value : string) : result docker_error Z :=
  let ds := s2b (TrimSpace value) in
  if bool_decide (ds = []) || negb (forallb is_digit ds) then Err (BadPort value)
  else let n := dec_value 0 ds in
       if (n >? 65535) || (n =? 0) then Err (BadPort value) else Ok n.

Section Labels.
Context {Time : Type}.
Notation props := (RunProps Time Config).

Record labelSpec := MkLabelSpec { ls_forward : string; ls_props : props }.

Definition opt {A} (r : result option_error A) : result docker_error A := match r with Ok a => Ok a | Err e => Err (OptionError e) end.

Definition TrimPrefix (s p : string) : string := if HasPrefix s p then b2s (drop (length (s2b p)) (s2b s)) else s.

Definition empty_cors : Config := MkConfig [] [] [] [] false 0.

(** A slice stored in a [Config], where nil and empty are not told apart. *)
Definition cors_list (val : string) : list string := default [] (splitCSV val).

Definition applyHTTPCORS (key value : string) (l : labelSpec) : result docker_error labelSpec :=
  let p := ls_props l in
  let config := default empty_cors (rp_HTTPCORS _ _ p) in
  let put c := Ok (MkLabelSpec (ls_forward l) {| p with rp_HTTPCORS := Some c |}) in
  if bool_decide (key = "allowedOrigins") then put {| config with AllowedOrigins := cors_list value |}
  else if bool_decide (key = "allowedMethods") then put {| config with AllowedMethods := cors_list value |}
  else if bool_decide (key = "allowedHeaders") then put {| config with AllowedHeaders := cors_list value |}
  else if bool_decide (key = "exposedHeaders") then put {| config with ExposedHeaders := cors_list value |}
  else if bool_decide (key = "allowCredentials") then let? b := parseBool value in put {| config with AllowCredentials := b |}
  else if bool_decide (key = "maxAge") then match Atoi value with Some n => put {| config with MaxAge := n |} | None => Err BadMaxAge end
  else Err (UnknownLabel key).

Definition applyHTTPAuth (key value : string) (l : labelSpec) : result docker_error labelSpec :=
  let p := ls_props l in
  if bool_decide (key = "token") then let? v := parseBool value in Ok (MkLabelSpec (ls_forward l) {| p with rp_TokenAuth := Some v |})
  else if bool_decide (key = "rstream") then let? v := parseBool value in Ok (MkLabelSpec (ls_forward l) {| p with rp_RstreamAuth := Some v |})
  else Err (UnknownLabel key).

Definition applyHTTPGate (key value : string) (l : labelSpec) : result docker_error labelSpec :=
  let p := ls_props l in
  if bool_decide (key = "challenge") then let? v := parseBool value in Ok (MkLabelSpec (ls_forward l) {| p with rp_ChallengeMode := Some v |})
  else Err (UnknownLabel key).

Definition applyHTTP (key value : string) (l : labelSpec) : result docker_error labelSpec :=
  let p := ls_props l in
  if bool_decide (key = "version") then let? v := opt (ParseHTTPVersion value) in Ok (MkLabelSpec (ls_forward l) {| p with rp_HTTPVersion := Some v |})
  else if HasPrefix key "cors." then applyHTTPCORS (TrimPrefix key "cors.") value l
  else if HasPrefix key "auth." then applyHTTPAuth (TrimPrefix key "auth.") value l
  else if HasPrefix key "gate." then applyHTTPGate (TrimPrefix key "gate.") value l
  else Err (UnknownLabel key).

Definition applyTLS (key value : string) (l : labelSpec) : result docker_error labelSpec :=
  let p := ls_props l in
  let put p := Ok (MkLabelSpec (ls_forward l) p) in
  if bool_decide (key = "mode") then let? v := opt (ParseTLSMode value) in put {| p with rp_TLSMode := Some v |}
  else if bool_decide (key = "minVersion") then let? v := opt (ParseTLSMinVersion value) in put {| p with rp_TLSMinVersion := Some v |}
  else if bool_decide (key = "ciphers") then put {| p with rp_TLSCiphers := splitCSV value |}
  else if bool_decide (key = "alpns") then put {| p with rp_TLSALPNs := splitCSV value |}
  else if bool_decide (key = "mtls") then let? v := parseBool value in put {| p with rp_MTLSAuth := Some v |}
  else Err (UnknownLabel key).

Definition apply_label (key value : string) (l : labelSpec) : result docker_error labelSpec :=
  let p := ls_props l in
  let put p := Ok (MkLabelSpec (ls_forward l) p) in
  if bool_decide (key = "forward") then Ok (MkLabelSpec (TrimSpace value) p)
  else if bool_decide (key = "publish") then let? v := parseBool value in put {| p with rp_Publish := Some v |}
  else if bool_decide (key = "protocol") then let? v := opt (ParseProtocol value) in put {| p with rp_Protocol := Some v |}
  else if bool_decide (key = "type") then let? v := opt (ParseTunnelType value) in put {| p with rp_Type := Some v |}
  else if bool_decide (key = "host") then put {| p with rp_Hostname := Some (TrimSpace value) |}
  else if bool_decide (key = "port") then let? v := parsePort value in put {| p with rp_Port := Some v |}
  else if bool_decide (key = "allow-cross-region-routing") then let? v := parseBool value in put {| p with rp_AllowCrossRegionRouting := Some v |}
  else if bool_decide (key = "upstream-tls") then let? v := parseBool value in put {| p with rp_UpstreamTLS := Some v |}
  else if bool_decide (key = "datagram-guaranteed-delivery") then let? v := parseBool value in put {| p with rp_DatagramGuaranteedDelivery := Some v |}
  else if bool_decide (key = "trusted-ips") then put {| p with rp_TrustedIPs := splitCSV value |}
  else if bool_decide (key = "geoip") then put {| p with rp_GeoIP := splitCSV value |}
  else if HasPrefix key "label." then
    let labelKey := TrimPrefix key "label." in
    if bool_decide (TrimSpace labelKey = "") then Err LabelKeyEmpty
    else put {| p with rp_Labels := Some (<[labelKey := value]> (default ∅ (rp_Labels _ _ p))) |}
  else if HasPrefix key "http." then applyHTTP (TrimPrefix key "http.") value l
  else if HasPrefix key "tls." then applyTLS (TrimPrefix key "tls.") value l
  else Err (UnknownLabel key).

Definition no_options : props :=
  MkRunProps None None None None None None None None None None None None None None None None None None None None None None None None None None.

(** [strings.SplitN(s, ".", 2)] when it has two parts. *)
Definition cut_dot (s : string) : option (string * string) :=
  match index_byte x2e (s2b s) with
  | None => None
  | Some i => Some (b2s (take i (s2b s)), b2s (drop (i + 1) (s2b s)))
  end.

(** The tunnel and the option a label is about. *)
Definition label_target (key : string) : option (string * string) :=
  if negb (HasPrefix key "rstream.tunnel.") then None
  else match cut_dot (TrimPrefix key "rstream.tunnel.") with
       | None => None
       | Some (name, option) => let name := TrimSpace name in if bool_decide (name = "") then None else Some (name, option)
       end.

(** The first loop: the options by tunnel. *)
Fixpoint group_labels (labels : list (string * string)) (groups : gmap string labelSpec) : result docker_error (gmap string labelSpec) :=
  match labels with
  | [] => Ok groups
  | (key, val) :: r =>
      match label_target key with
      | None => group_labels r groups
      | Some (name, option) =>
          let spec := default (MkLabelSpec "" no_options) (groups !! name) in
          let? spec := apply_label option val spec in
          group_labels r (<[name := spec]> groups)
      end
  end.

(** ** Forwarding *)

Record ContainerInfo := MkContainer {
  ci_ID : string; ci_Name : string;
  ci_Labels : list (string * string);  (** in the order of iteration *)
  ci_Networks : gmap string string;
}.

Definition FirstIP (c : ContainerInfo) : string :=
  let keys := merge_sort string_le (map_to_list (ci_Networks c)).*1 in
  default "" (find_map (fun k => let ip := TrimSpace (default "" (ci_Networks c !! k)) in if bool_decide (ip = "") then None else Some ip) keys).

Definition resolveContainerHost (info : ContainerInfo) (network : string) : string :=
  if negb (bool_decide (network = "")) then
    let ip := TrimSpace (default "" (ci_Networks info !! network)) in
    if negb (bool_decide (ip = "")) then ip else FirstIP info
  else FirstIP info.

(** [strings.Trim(s, "[]")]. *)
Fixpoint trim_brackets_left (s : list byte) : list byte :=
  match s with b :: r => if byte_eqb b x5b || byte_eqb b x5d then trim_brackets_left r else s | [] => [] end.
Definition trim_brackets (s : string) : string := b2s (rev (trim_brackets_left (rev (trim_brackets_left (s2b s))))).

Definition bare_host (s : string) : string := trim_brackets (TrimSpace s).

Definition dockerForwardHostAllowed (host : string) (info : ContainerInfo) (network : string) : bool :=
  let host := bare_host host in
  if bool_decide (host = "") then false
  else
    let addAllowed value (allowed : gset string) := let value := bare_host value in if bool_decide (value = "") then allowed else {[value]} ∪ allowed in
    let allowed := addAllowed (resolveContainerHost info network) ∅ in
    let allowed := foldl (fun a ip => addAllowed ip a) allowed (map_to_list (ci_Networks info)).*2 in
    bool_decide (host ∈ allowed).

Definition isBarePort (value : string) : bool := forallb is_digit (s2b value) && negb (bool_decide (value = "")).

Definition fwd (r : result forward_error ForwardTarget) : result docker_error ForwardTarget := match r with Ok t => Ok t | Err e => Err (ForwardError e) end.

Definition resolveForward (raw : string) (info : ContainerInfo) (network : string) : result docker_error ForwardTarget :=
  let value := TrimSpace raw in
  if bool_decide (value = "") then Err EmptyForward
  else if isBarePort value then
    let host := resolveContainerHost info network in
    if bool_decide (host = "") then Err NoContainerHost else fwd (ParseForwardTarget value host)
  else
    let? target := fwd (ParseForwardTarget value "") in
    if negb (dockerForwardHostAllowed (ft_Host target) info network) then Err (ForwardOutside (ft_Host target)) else Ok target.
End Labels.
Arguments labelSpec : clear implicits.

(** ** Desired tunnels *)

Section Source.
Context {Time Tls Dialer : Type} (ValidHeaderFieldName : string -> bool) (wide : list byte -> list byte) (has_mtls : Tls -> bool).
Notation context := (@ResolvedContext Tls Dialer).

(** A desired tunnel with its CORS configuration; [place] puts it in the store of the process. *)
Record sourced := MkSourced { sd_Name : string; sd_Forward : ForwardTarget; sd_Context : context; sd_Props : RunProps Time Config; sd_Source : string }.

(** The name of the tunnel [name] of a container. *)
Definition full_name (info : ContainerInfo) (name : string) : string :=
  let fullName := SanitizeName wide (ci_Name info +:+ "-" +:+ name) in
  if bool_decide (fullName = "") then SanitizeName wide (ci_ID info +:+ "-" +:+ name) else fullName.

(** What the second loop makes of a group. *)
Definition parse_group (info : ContainerInfo) (network : string) (ctx : context) (name : string) (spec : labelSpec Time) : result docker_error sourced :=
  if bool_decide (TrimSpace (ls_forward spec) = "") then Err MissingForward
  else
    let props := ls_props spec in
    let props := match rp_Publish _ _ props with None => {| props with rp_Publish := Some true |} | Some _ => props end in
    let props := match rp_Protocol _ _ props with None => {| props with rp_Protocol := Some ProtocolHTTP |} | Some _ => props end in
    let? props := opt (Resolve ValidHeaderFieldName props) in
    let? forward := resolveForward (ls_forward spec) info network in
    let fullName := full_name info name in
    let props := ApplyManagedLabels "docker" {| props with rp_Name := Some fullName |} in
    Ok (MkSourced fullName forward ctx props "docker").

Fixpoint parse_groups (info : ContainerInfo) (network : string) (ctx : context) (groups : list (string * labelSpec Time)) : result docker_error (list sourced) :=
  match groups with
  | [] => Ok []
  | (name, spec) :: r =>
      let? d := parse_group info network ctx name spec in
      let? out := parse_groups info network ctx r in
      Ok (d :: out)
  end.

Definition name_le (a b : sourced) : Prop := string_le (sd_Name a) (sd_Name b).

#[export] Instance name_le_dec : RelDecision name_le.
Proof. intros a b. unfold name_le. apply _. Defined.
#[export] Instance name_le_total : Total name_le.
Proof. intros a b. apply (total string_le). Qed.
#[export] Instance name_le_trans : Transitive name_le.
Proof. intros a b c. apply (transitivity (R := string_le)). Qed.

(** [order] is the order in which Go ranges over the groups. *)
Definition ParseDesiredTunnels (order : gmap string (labelSpec Time) -> list (string * labelSpec Time)) (info : ContainerInfo) (network : string) (ctx : context) :
    result docker_error (list sourced) :=
  let? groups := group_labels (ci_Labels info) ∅ in
  if bool_decide (size groups = 0%nat) then Ok []
  else let? out := parse_groups info network ctx (order groups) in Ok (merge_sort name_le out).

Definition HasAuthentication (c : context) : bool :=
  negb (bool_decide (rx_Token c = "")) || match rx_TLSClientConfig c with Some t => has_mtls t | None => false end.

Record source := MkSource { so_fallback : context; so_lookup : option (string -> option context); so_network : string; so_allowContextLabels : bool }.

(** The value of a label, empty when it is absent. *)
Definition label_value (key : string) (labels : list (string * string)) : string :=
  default "" (find_map (fun kv => if bool_decide (kv.1 = key) then Some kv.2 else None) labels).

Definition container_context (s : source) (info : ContainerInfo) : result docker_error context :=
  let labelCtx := TrimSpace (label_value "rstream.context" (ci_Labels info)) in
  if negb (bool_decide (labelCtx = "")) then
    if negb (so_allowContextLabels s) then Err ContextLabelsDisabled
    else match so_lookup s with
         | None => Err NoLookup
         | Some lookup => match lookup labelCtx with Some c => Ok c | None => Err LookupError end
         end
  else if bool_decide (TrimSpace (rx_Engine (so_fallback s)) = "") || negb (HasAuthentication (so_fallback s)) then Err NoDefaultContext
  else Ok (so_fallback s).

(** [Source.List] over the containers the Docker API lists. *)
Fixpoint List_ (order : gmap string (labelSpec Time) -> list (string * labelSpec Time)) (s : source) (containers : list ContainerInfo) : result docker_error (list sourced) :=
  match containers with
  | [] => Ok []
  | info :: r =>
      let? ctx := container_context s info in
      let? desired := ParseDesiredTunnels order info (so_network s) ctx in
      let? out := List_ order s r in
      Ok (desired ++ out)
  end.

(** [containerName] of a container with these names and this identifier. *)
Definition containerName (names : list string) (id : string) : string :=
  let name := match names with n :: _ => TrimPrefix n "/" | [] => "" end in
  if negb (bool_decide (name = "")) then name
  else if negb (bool_decide (id = "")) then (if slen id >? 12 then b2s (take 12 (s2b id)) else id)
  else "unknown".

Definition shouldTriggerDockerEvent (type action : string) : bool :=
  if negb (bool_decide (type = "container")) then false
  else existsb (fun a => bool_decide (action = a))
         ["start"; "stop"; "die"; "destroy"; "rename"; "update"; "create"; "connect"; "disconnect"; "pause"; "unpause"].

(** A tunnel handed to the reconciler, its CORS configuration at a location of the store. *)
Definition place (loc : nat) (d : sourced) : @DesiredTunnel Time Tls Dialer :=
  let p := sd_Props d in
  MkDesired (sd_Name d) (sd_Forward d) (sd_Context d)
    (MkRunProps (rp_ID _ _ p) (rp_CreationDate _ _ p) (rp_Name _ _ p) (rp_Type _ _ p) (rp_Publish _ _ p) (rp_Protocol _ _ p) (rp_Labels _ _ p)
       (rp_GeoIP _ _ p) (rp_TrustedIPs _ _ p) (rp_Host _ _ p) (rp_Hostname _ _ p) (rp_Port _ _ p) (rp_TLSMode _ _ p) (rp_TLSALPNs _ _ p) (rp_TLSMinVersion _ _ p)
       (rp_TLSCiphers _ _ p) (rp_MTLSAuth _ _ p) (rp_HTTPVersion _ _ p) ((fun _ => loc) <$> rp_HTTPCORS _ _ p) (rp_HTTPUseTLS _ _ p) (rp_UpstreamTLS _ _ p)
       (rp_DatagramGuaranteedDelivery _ _ p) (rp_AllowCrossRegionRouting _ _ p) (rp_TokenAuth _ _ p) (rp_RstreamAuth _ _ p) (rp_ChallengeMode _ _ p))
    (sd_Source d).

(** ** Containment *)

(** The addresses of a container. *)
Definition container_hosts (info : ContainerInfo) : list string := bare_host <$> (map_to_list (ci_Networks info)).*2.
End Source.

Lemma bare_host_trim ip : bare_host (TrimSpace ip) = bare_host ip.
Proof. unfold bare_host. by rewrite TrimSpace_idem. Qed.

Lemma FirstIP_network info : FirstIP info <> "" -> exists ip, ip ∈ (map_to_list (ci_Networks info)).*2 /\ FirstIP info = TrimSpace ip.
Proof.
  unfold FirstIP. destruct (find_map _ _) as [ip|] eqn:E; [|done]. intros _. apply find_map_Some in E as (k & _ & Hk).
  destruct (ci_Networks info !! k) as [v|] eqn:Ev; cbn in Hk; [|done]. case_bool_decide; [done|]. injection Hk as <-.
  exists v. split; [|done]. apply list_elem_of_fmap. exists (k, v). split; [done|]. by apply elem_of_map_to_list.
Qed.

Lemma container_host_network info network : resolveContainerHost info network <> "" ->
  exists ip, ip ∈ (map_to_list (ci_Networks info)).*2 /\ resolveContainerHost info network = TrimSpace ip.
Proof.
  unfold resolveContainerHost. destruct (negb (bool_decide (network = ""))); [|apply FirstIP_network].
  destruct (ci_Networks info !! network) as [v|] eqn:Ev; cbn [default]; [|apply FirstIP_network]. case_bool_decide; [apply FirstIP_network|]. intros _.
  exists v. split; [|done]. apply list_elem_of_fmap. exists (network, v). split; [done|]. by apply elem_of_map_to_list.
Qed.

Lemma allowed_fold (l : list string) (a : gset string) (h : string) :
  h ∈ foldl (fun a ip => let value := bare_host ip in if bool_decide (value = "") then a else {[value]} ∪ a) a l -> h ∈ a \/ h ∈ bare_host <$> l.
Proof.
  revert a. induction l as [|ip l IH]; intros a; cbn [foldl]; [auto|]. intros [H|H]%IH.
  - cbv zeta in H. case_bool_decide; [by left|]. apply elem_of_union in H as [->%elem_of_singleton|]; [right; left|by left].
  - right. by right.
Qed.

Lemma allowed_contained host info network : dockerForwardHostAllowed host info network = true -> bare_host host <> "" /\ bare_host host ∈ container_hosts info.
Proof.
  unfold dockerForwardHostAllowed. case_bool_decide as Hn; [done|]. intros H%bool_decide_eq_true. split; [done|].
  apply (allowed_fold _ _ (bare_host host)) in H as [H|H]; [|done]. cbv zeta in H. case_bool_decide as Hb; [by apply elem_of_empty in H|].
  apply elem_of_union in H as [H%elem_of_singleton|H%elem_of_empty]; [|done]. assert (Hne : resolveContainerHost info network <> "") by (intros He; rewrite He in Hb; done).
  apply container_host_network in Hne as (ip & Hin & Hip). rewrite H, Hip, bare_host_trim. by apply list_elem_of_fmap_2.
Qed.

Lemma contains_byte_digits s : forallb is_digit s = true -> contains_byte colon s = false.
Proof.
  intros H. unfold contains_byte. assert (Hi : index_byte colon s = None); [|by rewrite Hi]. induction s as [|b s IH]; [done|]. cbn in *.
  apply andb_true_iff in H as [Hb Hs]. rewrite IH by done. destruct (byte_eqb b colon) eqn:E; [|done]. apply byte_eqb_eq in E as ->. done.
Qed.

Lemma resolveForward_contained raw info network target : resolveForward raw info network = Ok target ->
  bare_host (ft_Host target) ∈ container_hosts info.
Proof.
  unfold resolveForward. case_bool_decide as Hv; [done|]. destruct (isBarePort (TrimSpace raw)) eqn:Eb.
  - case_bool_decide as Hh; [done|]. unfold ParseForwardTarget. rewrite TrimSpace_idem, (bool_decide_false _ Hv).
    unfold isBarePort in Eb. apply andb_true_iff in Eb as [Hd _]. rewrite contains_byte_digits by done.
    destruct (_ || _); [done|]. intros [= <-]. cbn [ft_Host]. apply container_host_network in Hh as (ip & Hin & ->). rewrite bare_host_trim.
    by apply list_elem_of_fmap_2.
  - destruct (fwd _) as [t|]; [|done]. destruct (dockerForwardHostAllowed (ft_Host t) info network) eqn:Ea; [|done]. intros [= <-]. apply allowed_contained in Ea as [_ Ea]. exact Ea.
Qed.

Lemma resolved_relabel {Time} (p : RunProps Time Config) n l : resolved p -> resolved {| p with rp_Name := n; rp_Labels := l |}.
Proof. intros []. destruct p. constructor; cbn in *; assumption. Qed.

Lemma managed_labels {Time P} src (p : RunProps Time P) : TrimSpace src <> "" -> exists labels,
  rp_Labels _ _ (ApplyManagedLabels src p) = Some labels /\ labels !! ManagedByLabel = Some "run" /\ labels !! SourceLabel = Some src.
Proof.
  intros Hs. eexists. split; [done|]. rewrite bool_decide_false by done. split; [by rewrite lookup_insert_ne, lookup_insert_eq by done|by rewrite lookup_insert_eq].
Qed.

Lemma parse_groups_elem {Time Tls Dialer} V wide (info : ContainerInfo) network (ctx : @ResolvedContext Tls Dialer) (groups : list (string * labelSpec Time)) out d :
  parse_groups V wide info network ctx groups = Ok out -> d ∈ out -> exists name spec, (name, spec) ∈ groups /\ parse_group V wide info network ctx name spec = Ok d.
Proof.
  revert out. induction groups as [|[name spec] groups IH]; intros out; cbn [parse_groups]; [intros [= <-] Hin; inversion Hin|].
  destruct (parse_group _ _ _ _ _ name spec) as [x|] eqn:E; [|done]. destruct (parse_groups _ _ _ _ _ groups) as [r|]; [|done]. intros [= <-] [-> |Hin]%elem_of_cons.
  - exists name, spec. split; [by left|done].
  - destruct (IH r eq_refl Hin) as (n & s & Hg & Hp). exists n, s. split; [by right|done].
Qed.

(** A label of a container that gives an option of one of its tunnels. *)
Definition described (info : ContainerInfo) (name option value : string) : Prop :=
  exists key, (key, value) ∈ ci_Labels info /\ label_target key = Some (name, option).

Lemma apply_label_forward {Time} key value (l l' : labelSpec Time) : apply_label key value l = Ok l' ->
  key = "forward" /\ ls_forward l' = TrimSpace value \/ ls_forward l' = ls_forward l.
Proof.
  unfold apply_label, applyHTTP, applyHTTPCORS, applyHTTPAuth, applyHTTPGate, applyTLS. cbv zeta. case_bool_decide; [intros [= <-]; by left|].
  intros H0. right.
  repeat match goal with
  | H : (if ?b then _ else _) = Ok _ |- _ => destruct b
  | H : match ?e with Ok _ => _ | Err _ => _ end = Ok _ |- _ => destruct e
  | H : match ?e with Some _ => _ | None => _ end = Ok _ |- _ => destruct e
  | H : Err _ = Ok _ |- _ => discriminate H
  | H : Ok _ = Ok _ |- _ => injection H as <-
  end; done.
Qed.

Lemma Forall2_impl_in {A B} (P Q : A -> B -> Prop) l k : Forall2 P l k -> (forall x y, x ∈ l -> P x y -> Q x y) -> Forall2 Q l k.
Proof.
  induction 1 as [|x y l k Hxy _ IH]; intros H; constructor; [by apply H; [left|]|]. apply IH. intros a b Ha. apply H. by right.
Qed.

(** The groups are the tunnels the labels name, and the target of each is one of its own labels. *)
Lemma group_labels_described {Time} labels (g g' : gmap string (labelSpec Time)) : group_labels labels g = Ok g' ->
  (forall n, is_Some (g' !! n) <-> is_Some (g !! n) \/ exists key val option, (key, val) ∈ labels /\ label_target key = Some (n, option)) /\
  (forall n spec, g' !! n = Some spec ->
     (exists spec0, g !! n = Some spec0 /\ ls_forward spec = ls_forward spec0) \/ ls_forward spec = "" \/
     exists key val, (key, val) ∈ labels /\ label_target key = Some (n, "forward") /\ ls_forward spec = TrimSpace val).
Proof.
  revert g. induction labels as [|[key val] labels IH]; intros g; cbn [group_labels].
  { intros [= <-]. split; [|intros n spec Hs; left; by exists spec]. intros n. split; [by left|]. intros [H|(? & ? & ? & H & _)]; [done|]. by apply not_elem_of_nil in H. }
  destruct (label_target key) as [[name option]|] eqn:El.
  - destruct (apply_label option val _) as [spec1|] eqn:Ea; [|done]. intros [H1 H2]%IH. split.
    + intros n. rewrite H1, lookup_insert_is_Some'. split.
      * intros [[-> |?]|(k & v & o & ? & ?)]; [right; exists key, val, option; split; [by left|done]|by left|right; exists k, v, o; split; [by right|done]].
      * intros [?|(k & v & o & [[= -> ->]|?]%elem_of_cons & Hl)]; [by left; right|left; left; congruence|right; by exists k, v, o].
    + intros n spec Hs. destruct (H2 n spec Hs) as [(spec0 & H0 & He)|[He|(k & v & ? & ? & ?)]]; [|by right; left|right; right; exists k, v; split; [by right|done]].
      rewrite lookup_insert in H0. case_decide as E; [|by left; exists spec0]. injection H0 as <-. subst n.
      apply apply_label_forward in Ea as [[-> Hf]|Hf].
      * right; right. exists key, val. split; [by left|]. by rewrite He, Hf.
      * rewrite Hf in He. destruct (g !! name) as [s0|]; cbn [default] in He; [left; by exists s0|by right; left].
  - intros [H1 H2]%IH. split.
    + intros n. rewrite H1. split; (intros [?|(k & v & o & Hin & Hl)]; [by left|right; exists k, v, o; split; [|done]]); [by right|].
      by apply elem_of_cons in Hin as [[= -> ->]|]; [congruence|].
    + intros n spec Hs. destruct (H2 n spec Hs) as [?|[?|(k & v & ? & ?)]]; [by left|by right; left|right; right; exists k, v; split; [by right|done]].
Qed.

(** The tunnel a container describes under a name. *)
Record tunnel_of {Time Tls Dialer} (wide : list byte -> list byte) (s : @source Tls Dialer) (info : ContainerInfo) (name : string) (d : @sourced Time Tls Dialer) : Prop := {
  to_name : sd_Name d = full_name wide info name /\ rp_Name _ _ (sd_Props d) = Some (sd_Name d);
  to_forward : exists raw, described info name "forward" raw /\ resolveForward (TrimSpace raw) info (so_network s) = Ok (sd_Forward d);
  to_host : bare_host (ft_Host (sd_Forward d)) ∈ container_hosts info;
  to_props : resolved (sd_Props d);
  to_managed : exists labels, rp_Labels _ _ (sd_Props d) = Some labels /\ labels !! ManagedByLabel = Some "run" /\ labels !! SourceLabel = Some "docker";
  to_context : let label := TrimSpace (label_value "rstream.context" (ci_Labels info)) in
    if bool_decide (label = "") then sd_Context d = so_fallback s
    else so_allowContextLabels s = true /\ exists lookup, so_lookup s = Some lookup /\ lookup label = Some (sd_Context d);
}.

Lemma parse_group_tunnel {Time Tls Dialer} V wide has_mtls (s : @source Tls Dialer) info ctx groups name (spec : labelSpec Time) (d : @sourced Time Tls Dialer) :
  group_labels (ci_Labels info) ∅ = Ok groups -> groups !! name = Some spec ->
  container_context has_mtls s info = Ok ctx -> parse_group V wide info (so_network s) ctx name spec = Ok d -> tunnel_of wide s info name d.
Proof.
  intros Hg Hs Hctx. unfold parse_group. case_bool_decide as Hf; [done|]. cbv zeta.
  destruct (Resolve V _) as [props|] eqn:Er; cbn [opt]; [|done]. destruct (resolveForward _ info (so_network s)) as [f|] eqn:Ef; [|done]. intros [= <-].
  constructor; cbn [sd_Forward sd_Props sd_Name sd_Context].
  - done.
  - destruct (proj2 (group_labels_described _ _ _ Hg) name spec Hs) as [(? & H0 & _)|[He|(k & raw & Hin & Hl & He)]]; [done|by rewrite He in Hf|].
    exists raw. split; [by exists k|]. by rewrite <- He.
  - by eapply resolveForward_contained.
  - apply resolve_resolved in Er. destruct props. exact (resolved_relabel _ _ _ Er).
  - apply managed_labels. vm_compute. discriminate.
  - unfold container_context in Hctx. cbv zeta. case_bool_decide; cbn [negb] in Hctx; [destruct (_ || _); [done|]; by injection Hctx|].
    destruct (so_allowContextLabels s); [|done]. cbn in Hctx. destruct (so_lookup s) as [lookup|]; [|done]. split; [done|]. exists lookup.
    destruct (lookup _); [|done]. injection Hctx as ->. done.
Qed.

Lemma parse_groups_forall {Time Tls Dialer} V wide (info : ContainerInfo) network (ctx : @ResolvedContext Tls Dialer) (groups : list (string * labelSpec Time)) out :
  parse_groups V wide info network ctx groups = Ok out -> Forall2 (fun g d => parse_group V wide info network ctx g.1 g.2 = Ok d) groups out.
Proof.
  revert out. induction groups as [|[name spec] groups IH]; intros out; cbn [parse_groups]; [intros [= <-]; constructor|].
  destruct (parse_group _ _ _ _ _ name spec) as [x|] eqn:E; [|done]. destruct (parse_groups _ _ _ _ _ groups) as [r|]; [|done]. intros [= <-].
  constructor; [done|]. by apply IH.
Qed.

(** The tunnels of a container: one for each name its labels give, sorted by name. *)
Definition tunnels_of {Time Tls Dialer} wide (s : @source Tls Dialer) (info : ContainerInfo) (desired : list (@sourced Time Tls Dialer)) : Prop :=
  StronglySorted name_le desired /\
  exists names desired', NoDup names /\ (forall n, n ∈ names <-> exists option value, described info n option value) /\
    desired ≡ₚ desired' /\ Forall2 (tunnel_of wide s info) names desired'.

Lemma ParseDesiredTunnels_tunnels {Time Tls Dialer} V wide has_mtls (order : gmap string (labelSpec Time) -> list (string * labelSpec Time))
    (s : @source Tls Dialer) info ctx (desired : list (@sourced Time Tls Dialer)) :
  (forall g, order g ≡ₚ map_to_list g) -> container_context has_mtls s info = Ok ctx ->
  ParseDesiredTunnels V wide order info (so_network s) ctx = Ok desired -> tunnels_of wide s info desired.
Proof.
  intros Horder Hctx. unfold ParseDesiredTunnels. destruct (group_labels _ _) as [groups|] eqn:Eg; [|done].
  assert (Hn : forall n, n ∈ (order groups).*1 <-> exists option value, described info n option value).
  { intros n. rewrite Horder. transitivity (is_Some (groups !! n)).
    - rewrite list_elem_of_fmap. split; [intros ([k v] & -> & H%elem_of_map_to_list); by exists v|]. intros [v Hv]. exists (n, v). split; [done|]. by apply elem_of_map_to_list.
    - rewrite (proj1 (group_labels_described _ _ _ Eg)), lookup_empty. split.
      + intros [[? [=]]|(k & v & o & ? & ?)]. exists o, v, k. done.
      + intros (o & v & k & ? & ?). right. by exists k, v, o. }
  assert (Hd : NoDup (order groups).*1) by (rewrite Horder; apply NoDup_fst_map_to_list).
  case_bool_decide as Hsz.
  - intros [= <-]. split; [constructor|]. apply map_size_empty_inv in Hsz. subst groups. exists [], []. split_and!; [constructor| |done|constructor].
    intros n. rewrite <- Hn, Horder, map_to_list_empty. done.
  - destruct (parse_groups _ _ _ _ _ _) as [out|] eqn:Ep; [|done]. intros [= <-]. split.
    { apply (StronglySorted_merge_sort name_le). }
    exists (order groups).*1, out. split_and!; [done|done|apply merge_sort_Permutation|]. apply parse_groups_forall in Ep.
    apply Forall2_fmap_l. eapply Forall2_impl_in; [exact Ep|]. intros [name spec] d Hin Hp.
    eapply parse_group_tunnel; [done| |done|exact Hp]. apply elem_of_map_to_list. rewrite <- Horder. exact Hin.
Qed.

(** C27: The tunnels Docker labels describe are those of the containers, container by container in the order listed: one for each name the labels of the container give, named after that container, forwarding to what its own forward label says and only to an address of that very container, never to the host, another container or the internal network.  Their options are consistent, they are marked as managed by the run command, and they use the context the container's own label names, which must be enabled and exist, or else the default one. *)
Theorem docker_tunnels_contained {Time Tls Dialer} V wide has_mtls
    (order : gmap string (labelSpec Time) -> list (string * labelSpec Time)) (Horder : forall g, order g ≡ₚ map_to_list g)
    (s : @source Tls Dialer) (containers : list ContainerInfo) (out : list sourced)
    (Hok : List_ V wide has_mtls order s containers = Ok out) :
  exists outs, out = concat outs /\ Forall2 (tunnels_of wide s) containers outs.
Proof.
  revert out Hok. induction containers as [|info containers IH]; intros out; cbn [List_]; [intros [= <-]; by exists []|].
  destruct (container_context has_mtls s info) as [ctx|] eqn:Ec; [|done].
  destruct (ParseDesiredTunnels _ _ _ _ _ ctx) as [desired|] eqn:Ep; [|done]. destruct (List_ _ _ _ _ s containers) as [r|] eqn:El; [|done].
  intros [= <-]. destruct (IH r eq_refl) as (outs & -> & H). exists (desired :: outs). split; [done|]. constructor; [|done].
  by eapply ParseDesiredTunnels_tunnels.
Qed.

(** ** Containers *)

Definition sample_context : @ResolvedContext () () := MkContext "default" "engine.example:443" "" "secret" None None None "".
Definition sample_source : @source () () := MkSource sample_context None "" false.
Definition sample_order : gmap string (labelSpec Z) -> list (string * labelSpec Z) := map_to_list.
Definition list_containers (l : list ContainerInfo) : result docker_error (list (@sourced Z () ())) :=
  List_ (fun _ => true) (fun _ => [x2d]) (fun _ => false) sample_order sample_source l.

(** A container on one network whose tunnel forwards to that address. *)
Definition container (name tunnel ip forward : string) : ContainerInfo :=
  MkContainer "0123456789abcdef" name [("rstream.tunnel." +:+ tunnel +:+ ".forward", forward)] {["bridge" := ip]}.

Definition two_containers : list ContainerInfo := [container "Web App" "http" "172.17.0.2" "8080"; container "db" "sql" "172.17.0.3" "172.17.0.3:5432"].

Lemma docker_tunnels_contained_witness : exists out, list_containers two_containers = Ok out /\
  (sd_Name <$> out) = ["web-app-http"; "db-sql"] /\ (sd_Forward <$> out) = [MkForward "172.17.0.2" "8080"; MkForward "172.17.0.3" "5432"] /\
  exists outs, out = concat outs /\ Forall2 (tunnels_of (fun _ => [x2d]) sample_source) two_containers outs.
Proof.
  destruct (list_containers two_containers) as [out|] eqn:E; [|vm_compute in E; discriminate].
  exists out. split; [reflexivity|]. split; [vm_compute in E; by injection E as <-|]. split; [vm_compute in E; by injection E as <-|].
  exact (docker_tunnels_contained (fun _ => true) (fun _ => [x2d]) (fun _ => false) sample_order (fun g => reflexivity _) sample_source _ out E).
Defined.

(** A target of another container is refused. *)
Example other_container_refused :
  list_containers [container "web" "http" "172.17.0.2" "172.17.0.3:80"; container "db" "sql" "172.17.0.3" "5432"] = Err (ForwardOutside "172.17.0.3").
Proof. vm_compute. reflexivity. Qed.

(** The metadata service of a cloud, the host or another container is refused. *)
Example forward_outside_refused : list_containers [container "web" "http" "172.17.0.2" "169.254.169.254:80"] = Err (ForwardOutside "169.254.169.254").
Proof. vm_compute. reflexivity. Qed.

(** Names of tunnels from Docker join the container's name and the tunnel's with a dash, which either may contain: two containers with different names and tunnels get the same name, and the reconciler then refuses the whole list. *)
Example docker_names_collide : exists out,
  list_containers [container "web" "a-b" "172.17.0.2" "80"; container "web-a" "b" "172.17.0.3" "80"] = Ok out /\
  (sd_Name <$> out) = ["web-a-b"; "web-a-b"] /\ check_desired ∅ (place 0 <$> out) = Err DuplicateTunnelName.
Proof. eexists. split; [vm_compute; reflexivity|]. split; vm_compute; reflexivity. Qed.
