(* ===== verification/ApplySource.v ===== *)
(** * ApplySource: tunnels described by a configuration file
    ([cmd/rstream/internal/runapply/config.go], [watch.go])

    Decoding the YAML document and expanding its environment variables is a library's
    work: a document is its decoded [FileConfig] or nothing.  Contexts are a list in the
    order Go ranges over the map; closing the transport that validated a context is the
    parameter [close]. *)

From S2P Require Import Prelude GoStrings GoURL Cors TunnelProps TransportConfig Reconciler TunnelConfig DockerSource.

(** ** Documents *)

Record HTTPAuthSpec := MkHTTPAuth { ha_Token : option bool; ha_Rstream : option bool }.
Record HTTPSpec := MkHTTPSpec { hs_CORS : option Config; hs_Version : option string; hs_Auth : option HTTPAuthSpec; hs_Challenge : option (option bool) }.
Record TLSSpec := MkTLSSpec {
  lx_Mode : option string; lx_MinVersion : option string; lx_ALPNs : option (list string); lx_Ciphers : option (list string); lx_MTLS : option bool }.

Record TunnelSpec := MkTunnelSpec {
  sp_Publish : option bool; sp_Labels : option (gmap string string); sp_Protocol : option string; sp_Type : option string;
  sp_Host : option string; sp_Port : option Z; sp_AllowCrossRegionRouting : option bool; sp_UpstreamTLS : option bool;
  sp_DatagramGuaranteedDelivery : option bool; sp_TrustedIPs : option (list string); sp_GeoIP : option (list string);
  sp_HTTP : option HTTPSpec; sp_TLS : option TLSSpec }.

Record ContextEntry := MkContextEntry {
  ce_External : bool; ce_Name : string; ce_Engine : string; ce_Token : string; ce_Transport : option TransportConfig }.
Record InlineContext := MkInline { ic_Engine : string; ic_Token : string; ic_Transport : option TransportConfig }.
Record ContextRef := MkRef { cr_Name : string; cr_Inline : option InlineContext }.

Record TunnelEntry := MkEntry { te_Name : string; te_Forward : string; te_Context : option ContextRef; te_Tunnel : option TunnelSpec }.
Record FileConfig := MkFile { fc_Version : Z; fc_Tunnels : option (list TunnelEntry); fc_Contexts : list (string * ContextEntry) }.

Inductive apply_error :=
| InvalidYAML | UnsupportedVersion (n : Z) | TunnelsRequired | NameRequired (i : nat) | ForwardRequired (i : nat) | SpecRequired (i : nat)
| DuplicateName (name : string) | FallbackNotConfigured | EmptyReference | ContextNotFound (name : string) | ContextNameRequired | NeedsLookup (name : string)
| ContextLookup (name : string) | EngineRequired | TokenRequired | BadTransport (e : transport_error) | ProbeClose | ApplyForward (e : forward_error) | ApplyOption (e : option_error).

(** ** Loading *)

Fixpoint check_entries (i : nat) (l : list TunnelEntry) : result apply_error () :=
  match l with
  | [] => Ok ()
  | t :: l =>
      if bool_decide (TrimSpace (te_Name t) = "") then Err (NameRequired i)
      else if bool_decide (TrimSpace (te_Forward t) = "") then Err (ForwardRequired i)
      else match te_Tunnel t with None => Err (SpecRequired i) | Some _ => check_entries (S i) l end
  end.

Definition LoadConfig (document : option FileConfig) : result apply_error FileConfig :=
  match document with
  | None => Err InvalidYAML
  | Some cfg =>
      if negb (fc_Version cfg =? 1) then Err (UnsupportedVersion (fc_Version cfg))
      else match fc_Tunnels cfg with
           | None => Err TunnelsRequired
           | Some l => let? _ := check_entries 0 l in Ok cfg
           end
  end.

Section Apply.
Context {Time Tls Dialer pool : Type} (ValidHeaderFieldName : string -> bool) (has_mtls : Tls -> bool) (read_ca : string -> option pool) (close : dialer pool -> bool).
Notation context := (@ResolvedContext Tls Dialer).
Notation props := (RunProps Time Config).

(** ** Contexts *)

Definition resolveInlineContext (engine token : string) (transport : option TransportConfig) : result apply_error context :=
  let engine := TrimSpace engine in
  let token := TrimSpace token in
  if bool_decide (engine = "") then Err EngineRequired
  else if bool_decide (token = "") then Err TokenRequired
  else match FlattenTransportWithError pool read_ca transport with
       | Err e => Err (BadTransport e)
       | Ok probe =>
           if negb (close probe) then Err ProbeClose
           else Ok (MkContext "" engine "" token None (MergeTransport None transport) None "")
       end.

Fixpoint resolve_contexts (lookup : option (string -> option context)) (contexts : list (string * ContextEntry)) (out : gmap string context) :
    result apply_error (gmap string context) :=
  match contexts with
  | [] => Ok out
  | (key, ctx) :: r =>
      let name := TrimSpace key in
      if bool_decide (name = "") then Err ContextNameRequired
      else if ce_External ctx then
        let lookupName := TrimSpace (ce_Name ctx) in
        let lookupName := if bool_decide (lookupName = "") then name else lookupName in
        match lookup with
        | None => Err (NeedsLookup name)
        | Some lookup_ =>
            match lookup_ lookupName with
            | None => Err (ContextLookup name)
            | Some resolved => resolve_contexts lookup r (<[name := {| resolved with rx_Name := lookupName |}]> out)
            end
        end
      else
        let? resolved := resolveInlineContext (ce_Engine ctx) (ce_Token ctx) (ce_Transport ctx) in
        resolve_contexts lookup r (<[name := {| resolved with rx_Name := name |}]> out)
  end.

(** [resolveNamedContexts]: nil when there is none. *)
Definition resolveNamedContexts (contexts : list (string * ContextEntry)) (lookup : option (string -> option context)) : result apply_error (option (gmap string context)) :=
  if bool_decide (length contexts = 0%nat) then Ok None else let? out := resolve_contexts lookup contexts ∅ in Ok (Some out).

Definition resolveTunnelContext (ref : option ContextRef) (named : option (gmap string context)) (fallback : context) : result apply_error context :=
  match ref with
  | None => if bool_decide (rx_Engine fallback = "") || negb (HasAuthentication has_mtls fallback) then Err FallbackNotConfigured else Ok fallback
  | Some ref =>
      match cr_Inline ref with
      | Some i => let? resolved := resolveInlineContext (ic_Engine i) (ic_Token i) (ic_Transport i) in Ok {| resolved with rx_Name := "inline" |}
      | None =>
          if bool_decide (TrimSpace (cr_Name ref) = "") then Err EmptyReference
          else match named with
               | None => Err (ContextNotFound (cr_Name ref))
               | Some named => match named !! cr_Name ref with Some ctx => Ok ctx | None => Err (ContextNotFound (cr_Name ref)) end
               end
      end
  end.

(** ** Options *)

Definition opt_ {A} (r : result option_error A) : result apply_error A := match r with Ok a => Ok a | Err e => Err (ApplyOption e) end.

Definition nonempty_slice {A} (l : option (list A)) : option (list A) := match l with Some (_ :: _) => l | _ => None end.

Definition spec_http (h : HTTPSpec) (p : props) : result apply_error props :=
  let p := {| p with rp_HTTPCORS := Clone (hs_CORS h) |} in
  let? v := opt_ (parse_ptr ParseHTTPVersion (hs_Version h)) in
  let p := {| p with rp_HTTPVersion := v |} in
  let p := match hs_Auth h with Some a => {| p with rp_TokenAuth := ha_Token a; rp_RstreamAuth := ha_Rstream a |} | None => p end in
  Ok match hs_Challenge h with Some (Some c) => {| p with rp_ChallengeMode := Some c |} | _ => p end.

Definition spec_tls (t : TLSSpec) (p : props) : result apply_error props :=
  let? m := opt_ (parse_ptr ParseTLSMode (lx_Mode t)) in
  let? mv := opt_ (parse_ptr ParseTLSMinVersion (lx_MinVersion t)) in
  Ok {| p with rp_TLSMode := m; rp_TLSMinVersion := mv; rp_TLSALPNs := nonempty_slice (lx_ALPNs t); rp_TLSCiphers := lx_Ciphers t; rp_MTLSAuth := lx_MTLS t |}.

(** The options before they are checked; [spec] is not nil after [LoadConfig]. *)
Definition spec_props (spec : TunnelSpec) : result apply_error props :=
  let? t := opt_ (parse_ptr ParseTunnelType (sp_Type spec)) in
  let? pr := opt_ (parse_ptr ParseProtocol (sp_Protocol spec)) in
  let labels := match sp_Labels spec with Some l => if bool_decide (size l = 0%nat) then None else Some l | None => None end in
  let p : props := no_options in
  let p := {| p with rp_Publish := sp_Publish spec; rp_Type := t; rp_Protocol := pr; rp_Labels := labels; rp_GeoIP := nonempty_slice (sp_GeoIP spec);
              rp_TrustedIPs := nonempty_slice (sp_TrustedIPs spec); rp_Hostname := sp_Host spec; rp_Port := sp_Port spec;
              rp_AllowCrossRegionRouting := sp_AllowCrossRegionRouting spec; rp_UpstreamTLS := sp_UpstreamTLS spec;
              rp_DatagramGuaranteedDelivery := sp_DatagramGuaranteedDelivery spec |} in
  let? p := match sp_HTTP spec with Some h => spec_http h p | None => Ok p end in
  match sp_TLS spec with Some t => spec_tls t p | None => Ok p end.

Definition tunnelPropertiesFromSpec (spec : TunnelSpec) : result apply_error props :=
  let? p := spec_props spec in
  opt_ (Resolve ValidHeaderFieldName p).

(** ** Desired tunnels *)

Fixpoint desired_entries (named : option (gmap string context)) (fallback : context) (seen : gset string) (l : list TunnelEntry) :
    result apply_error (list (@sourced Time Tls Dialer)) :=
  match l with
  | [] => Ok []
  | t :: l =>
      let name := TrimSpace (te_Name t) in
      if bool_decide (name ∈ seen) then Err (DuplicateName name)
      else
        let? ctx := resolveTunnelContext (te_Context t) named fallback in
        let? forward := match ParseForwardTarget (te_Forward t) "localhost" with Ok f => Ok f | Err e => Err (ApplyForward e) end in
        let? p := match te_Tunnel t with Some spec => tunnelPropertiesFromSpec spec | None => Err (SpecRequired 0) end in
        let p := ApplyManagedLabels "apply" {| p with rp_Name := Some name |} in
        let? out := desired_entries named fallback ({[name]} ∪ seen) l in
        Ok (MkSourced name forward ctx p "apply" :: out)
  end.

Definition DesiredTunnels (document : option FileConfig) (fallback : context) (lookup : option (string -> option context)) :
    result apply_error (list (@sourced Time Tls Dialer)) :=
  let? cfg := LoadConfig document in
  let? named := resolveNamedContexts (fc_Contexts cfg) lookup in
  desired_entries named fallback ∅ (default [] (fc_Tunnels cfg)).
End Apply.

(** ** What the reconciler is given *)

Lemma check_desired_unique {Time Tls Dialer} (l : list (@DesiredTunnel Time Tls Dialer)) (seen : gset string) :
  NoDup (dt_Name <$> l) -> (forall d, d ∈ l -> dt_Name d <> "" /\ dt_Name d ∉ seen) -> check_desired seen l = Ok (CloneDesired <$> l).
Proof.
  revert seen. induction l as [|d l IH]; intros seen; cbn [fmap list_fmap check_desired]; [done|]. intros [Hn Hnd]%NoDup_cons Hall.
  destruct (Hall d) as [H1 H2]; [by left|]. rewrite !bool_decide_false by done. rewrite IH; [done|done|].
  intros e He. destruct (Hall e) as [H3 H4]; [by right|]. split; [done|]. intros [Hs%elem_of_singleton|Hs]%elem_of_union; [|done].
  apply Hn. rewrite <-Hs. by apply list_elem_of_fmap_2.
Qed.

(** A context a tunnel of the file may use: the default one, one of the file with its own engine and token, or one the lookup knows. *)
Inductive usable {Tls Dialer} (has_mtls : Tls -> bool) (fallback : @ResolvedContext Tls Dialer) (lookup : option (string -> option (@ResolvedContext Tls Dialer))) :
    @ResolvedContext Tls Dialer -> Prop :=
| usable_fallback : rx_Engine fallback <> "" -> HasAuthentication has_mtls fallback = true -> usable has_mtls fallback lookup fallback
| usable_file c : rx_Engine c <> "" -> rx_Token c <> "" -> rx_Transport c = None -> rx_TLSClientConfig c = None -> rx_CredentialID c = "" -> usable has_mtls fallback lookup c
| usable_external f name c : lookup = Some f -> f name = Some c -> usable has_mtls fallback lookup {| c with rx_Name := name |}.

(** What a tunnel described by an entry of the file satisfies. *)
Record described {Time Tls Dialer} (has_mtls : Tls -> bool) fallback lookup (d : @sourced Time Tls Dialer) : Prop := {
  de_name : sd_Name d <> "" /\ TrimSpace (sd_Name d) = sd_Name d /\ rp_Name _ _ (sd_Props d) = Some (sd_Name d);
  de_forward : TrimSpace (ft_Host (sd_Forward d)) <> "" /\ TrimSpace (ft_Port (sd_Forward d)) <> "";
  de_props : resolved (sd_Props d);
  de_managed : exists labels, rp_Labels _ _ (sd_Props d) = Some labels /\ labels !! ManagedByLabel = Some "run" /\ labels !! SourceLabel = Some "apply";
  de_context : usable has_mtls fallback lookup (sd_Context d);
}.

Section Described.
Context {Time Tls Dialer pool : Type} (V : string -> bool) (has_mtls : Tls -> bool) (read_ca : string -> option pool) (close : dialer pool -> bool).
Context (fallback : @ResolvedContext Tls Dialer) (lookup : option (string -> option (@ResolvedContext Tls Dialer))).
Notation usable := (usable has_mtls fallback lookup).

Lemma inline_usable engine token transport c name : resolveInlineContext read_ca close engine token transport = Ok c -> usable {| c with rx_Name := name |}.
Proof.
  unfold resolveInlineContext. do 2 (case_bool_decide; [done|]). destruct (FlattenTransportWithError _ _ _); [|done]. destruct (negb _); [done|].
  intros [= <-]. by apply usable_file.
Qed.

Lemma contexts_usable contexts out named : resolve_contexts read_ca close lookup contexts out = Ok named ->
  (forall n c, out !! n = Some c -> usable c) -> forall n c, named !! n = Some c -> usable c.
Proof.
  revert out. induction contexts as [|[key ctx] r IH]; intros out; cbn [resolve_contexts]; [by intros [= <-]|].
  case_bool_decide; [done|]. destruct (ce_External ctx).
  - destruct lookup as [f|] eqn:El; [|done]. cbv zeta. set (ln := if bool_decide _ then _ else _). destruct (f ln) as [c0|] eqn:Ef; [|done]. intros Hr Hout.
    eapply IH; [exact Hr|]. intros n c [[<- <-]|[_ Hc]]%lookup_insert_Some; [|by eapply Hout]. by eapply (usable_external _ _ _ f ln).
  - destruct (resolveInlineContext _ _ _ _ _) as [c0|] eqn:Ei; [|done]. intros Hr Hout.
    eapply IH; [exact Hr|]. intros n c [[<- <-]|[_ Hc]]%lookup_insert_Some; [|by eapply Hout]. by eapply inline_usable.
Qed.

Lemma tunnel_context_usable ref named c : resolveTunnelContext has_mtls read_ca close ref named fallback = Ok c ->
  (forall m n c, named = Some m -> m !! n = Some c -> usable c) -> usable c.
Proof.
  unfold resolveTunnelContext. intros H Hn. destruct ref as [ref|].
  - destruct (cr_Inline ref) as [i|].
    + destruct (resolveInlineContext _ _ _ _ _) as [c0|] eqn:Ei; [|done]. injection H as <-. by eapply inline_usable.
    + case_bool_decide; [done|]. destruct named as [m|]; [|done]. destruct (m !! _) eqn:Em; [|done]. injection H as <-. by eapply Hn.
  - case_bool_decide as He; [done|]. cbn in H. destruct (HasAuthentication _ _) eqn:Ea; [|done]. injection H as <-. by apply usable_fallback.
Qed.

Lemma forward_parts raw host f : ParseForwardTarget raw host = Ok f -> TrimSpace (ft_Host f) <> "" /\ TrimSpace (ft_Port f) <> "".
Proof.
  unfold ParseForwardTarget. intros H.
  repeat match goal with
  | H : context [if ?c then _ else _] |- _ => destruct c eqn:?; try discriminate
  | H : context [match ?c with _ => _ end] |- _ => destruct c eqn:?; try discriminate
  end; injection H as <-; cbn [ft_Host ft_Port];
  repeat match goal with H : _ || _ = false |- _ => apply orb_false_iff in H as [?%bool_decide_eq_false ?%bool_decide_eq_false] end; done.
Qed.

Lemma entries_described named l : forall seen out, desired_entries V has_mtls read_ca close named fallback seen l = Ok out ->
  (forall t, t ∈ l -> TrimSpace (te_Name t) <> "") -> (forall m n c, named = Some m -> m !! n = Some c -> usable c) ->
  NoDup (@sd_Name Time Tls Dialer <$> out) /\ forall d, d ∈ out -> described has_mtls fallback lookup d /\ sd_Name d ∉ seen.
Proof.
  induction l as [|t l IH]; intros seen out; cbn [desired_entries].
  { intros [= <-] _ _. split; [constructor|]. intros d Hd. inversion Hd. }
  case_bool_decide as Hs; [done|]. destruct (resolveTunnelContext _ _ _ _ _ _) as [ctx|] eqn:Ec; [|done].
  destruct (ParseForwardTarget _ _) as [f|] eqn:Ef; [|done]. destruct (te_Tunnel t) as [spec|]; [|done].
  destruct (tunnelPropertiesFromSpec _ _) as [p|] eqn:Ep; [|done]. destruct (desired_entries _ _ _ _ _ _ _ l) as [r|] eqn:El; [|done].
  intros [= <-] Hne Hn. destruct (IH _ _ El) as [Hnd Hall]; [intros; apply Hne; by right|done|]. split.
  - cbn [fmap list_fmap sd_Name]. constructor; [|done]. intros (d & Hd & Hin)%list_elem_of_fmap. apply Hall in Hin as [_ Hin]. apply Hin. rewrite <-Hd. set_solver.
  - intros d [-> |Hd]%elem_of_cons; [|apply Hall in Hd as [? ?]; split; [done|set_solver]]. split; [|done].
    constructor; cbn [sd_Name sd_Forward sd_Props sd_Context].
    + split; [apply Hne; by left|]. split; [by rewrite TrimSpace_idem|done].
    + by eapply forward_parts.
    + unfold tunnelPropertiesFromSpec in Ep. destruct (spec_props spec) as [p0|]; [|done]. destruct (Resolve V p0) as [p1|] eqn:Er; [|done]. injection Ep as <-.
      apply resolve_resolved in Er. destruct p1. exact (resolved_relabel _ _ _ Er).
    + apply managed_labels. vm_compute. discriminate.
    + by eapply tunnel_context_usable.
Qed.

Lemma check_entries_names i l : check_entries i l = Ok () -> forall t, t ∈ l -> TrimSpace (te_Name t) <> "".
Proof.
  revert i. induction l as [|t l IH]; intros i; cbn [check_entries]; [intros _ x Hx; inversion Hx|]. case_bool_decide; [done|]. case_bool_decide; [done|].
  destruct (te_Tunnel t); [|done]. intros Hc x [-> |Hx]%elem_of_cons; [done|by eapply IH].
Qed.
End Described.

Lemma place_names {Time Tls Dialer} (loc : nat) (l : list (@sourced Time Tls Dialer)) : dt_Name <$> (place loc <$> l) = sd_Name <$> l.
Proof. rewrite <-list_fmap_compose. by apply list_fmap_ext. Qed.

(** C28: A configuration file that loads describes tunnels the reconciler accepts as they are: names are distinct and not empty, forward targets have a host and a port, options are consistent, tunnels are marked as managed, and each uses the default context, a context of the file with its own engine and token, or a context the lookup knows. *)
Theorem apply_reconcilable {Time Tls Dialer pool} (V : string -> bool) (has_mtls : Tls -> bool) (read_ca : string -> option pool) (close : dialer pool -> bool)
    (document : option FileConfig) fallback lookup (out : list (@sourced Time Tls Dialer)) (loc : nat)
    (Hok : DesiredTunnels V has_mtls read_ca close document fallback lookup = Ok out) :
  check_desired ∅ (place loc <$> out) = Ok (CloneDesired <$> (place loc <$> out)) /\ forall d, d ∈ out -> described has_mtls fallback lookup d.
Proof.
  unfold DesiredTunnels, LoadConfig in Hok. destruct document as [cfg|]; [|done]. destruct (negb _); [done|].
  destruct (fc_Tunnels cfg) as [l|] eqn:El; [|done]. destruct (check_entries 0 l) as [[]|] eqn:Ec; [|done].
  destruct (resolveNamedContexts _ _ _ _) as [named|] eqn:En; [|done]. rewrite El in Hok. cbn [default] in Hok.
  assert (Hn : forall m n c, named = Some m -> m !! n = Some c -> usable has_mtls fallback lookup c).
  { unfold resolveNamedContexts in En. case_bool_decide; [injection En as <-; done|]. destruct (resolve_contexts _ _ _ _ _) as [m|] eqn:Em; [|done]. injection En as <-.
    intros m' n c [= <-]. eapply contexts_usable; [exact Em|]. intros k x Hx. by rewrite lookup_empty in Hx. }
  destruct (entries_described V has_mtls read_ca close fallback lookup named l ∅ out Hok) as [Hnd Hall]; [by eapply check_entries_names|done|].
  split; [|intros d Hd; by apply Hall]. apply check_desired_unique; [by rewrite place_names|]. intros d (x & -> & Hx)%list_elem_of_fmap.
  apply Hall in Hx as [Hx Hs]. split; [|done]. by destruct Hx as [(Hx & _ & _)].
Qed.

(** ** A file *)

Definition no_spec : TunnelSpec := MkTunnelSpec None None None None None None None None None None None None None.

Definition sample_file : FileConfig := MkFile 1 (Some [
    MkEntry " web " "8080" None (Some {| no_spec with sp_Protocol := Some "HTTP"; sp_Publish := Some true |});
    MkEntry "ssh" "192.0.2.7:22" (Some (MkRef "staging" None)) (Some {| no_spec with sp_Protocol := Some "tcp"; sp_Port := Some 2222 |})])
  [("staging", MkContextEntry false "" "staging.example:443" "token" None)].

Definition desired_of (f : FileConfig) : result apply_error (list (@sourced Z () ())) :=
  DesiredTunnels (fun _ => true) (fun _ => false) (fun _ => @None ()) (fun _ => true) (Some f) sample_context None.

Lemma apply_reconcilable_witness : exists out, desired_of sample_file = Ok out /\ (sd_Name <$> out) = ["web"; "ssh"] /\
  check_desired ∅ (place 0 <$> out) = Ok (CloneDesired <$> (place 0 <$> out)) /\ forall d, d ∈ out -> described (fun _ => false) sample_context None d.
Proof.
  destruct (desired_of sample_file) as [out|] eqn:E; [|vm_compute in E; discriminate].
  exists out. split; [reflexivity|]. split; [vm_compute in E; by injection E as <-|].
  exact (apply_reconcilable (fun _ => true) (fun _ => false) (fun _ => @None ()) (fun _ => true) (Some sample_file) sample_context None out 0%nat E).
Defined.
