(* ===== verification/WebttyCrypto.v ===== *)
(** * WebttyCrypto: end-to-end encryption of WebTTY payloads ([webtty/e2e_crypto.go])

    A client makes a payload key, wraps it for every recipient (a key envelope each) and
    sends the envelopes in a session key grant; a server finds its own envelope, unwraps
    the key, and both encrypt stdin, stdout and stderr under it.

    AES-GCM, HPKE, ECDH, HKDF and SHA-256 are the operations of the class [Crypto]; what
    is used of them is the class [CryptoLaws].  Random bytes are taken from an explicit
    stream ([random]), the randomness inside the library calls is an argument.  Build
    profiles are the parameter [fips].  Go's [nil] and empty byte slices are both the
    empty list. *)

From S2P Require Import Prelude GoStrings Transcript.

(** ** Primitives *)

Class Crypto := {
  sha256 : list byte -> list byte;
  gcm_seal : list byte -> list byte -> list byte -> list byte -> list byte;            (* key, nonce, plaintext, data *)
  gcm_open : list byte -> list byte -> list byte -> list byte -> option (list byte);
  gcmr_seal : list byte -> list byte -> list byte -> list byte -> list byte;           (* key, randomness, plaintext, data *)
  gcmr_open : list byte -> list byte -> list byte -> option (list byte);
  hkdf : list byte -> list byte -> list byte;                                          (* secret, info *)
  NewPublicKey : Z -> list byte -> bool;
  NewPrivateKey : Z -> list byte -> bool;
  PublicKey : Z -> list byte -> list byte;
  ecdh : list byte -> list byte -> option (list byte);                                 (* P-256 *)
  ephemeral : list byte -> list byte;                                                  (* P-256 key from randomness *)
  hpke_seal : list byte -> list byte -> list byte -> list byte -> list byte -> option (list byte * list byte);
  hpke_open : list byte -> list byte -> list byte -> list byte -> list byte -> option (list byte);
}.

Definition PayloadCipherSuiteAES256GCM : Z := 1.
Definition PayloadCipherSuiteAES256GCMRandomNonce : Z := 3.
Definition KeyEnvelopeSuiteHPKEX25519 : Z := 1.
Definition KeyEnvelopeSuiteP256 : Z := 3.

(** Opening what was sealed gives it back; keys are of their sizes; a key exchange is
    symmetric. *)
Class CryptoLaws `{Crypto} : Prop := {
  law_sha256 : forall b, length (sha256 b) = 32%nat;
  law_gcm : forall k n p a, gcm_open k n (gcm_seal k n p a) a = Some p;
  law_gcmr : forall k r p a, gcmr_open k (gcmr_seal k r p a) a = Some p;
  law_public : forall s k, NewPrivateKey s k = true -> NewPublicKey s (PublicKey s k) = true;
  law_ephemeral : forall r, NewPrivateKey KeyEnvelopeSuiteP256 (ephemeral r) = true;
  law_ecdh : forall a b, NewPrivateKey KeyEnvelopeSuiteP256 a = true -> NewPrivateKey KeyEnvelopeSuiteP256 b = true ->
    ecdh a (PublicKey KeyEnvelopeSuiteP256 b) = ecdh b (PublicKey KeyEnvelopeSuiteP256 a);
  law_hpke : forall k r i a p e c, NewPrivateKey KeyEnvelopeSuiteHPKEX25519 k = true ->
    hpke_seal (PublicKey KeyEnvelopeSuiteHPKEX25519 k) r i a p = Some (e, c) ->
    hpke_open k e i a c = Some p;
}.

(** Ideal authenticated encryption: only what was sealed opens, and a ciphertext is of
    one nonce, plaintext and additional data. *)
Class IdealAEAD `{Crypto} : Prop := {
  ideal_gcm_open : forall k n c a p, gcm_open k n c a = Some p -> c = gcm_seal k n p a;
  ideal_gcm_bind : forall k n p a n' p' a', gcm_seal k n p a = gcm_seal k n' p' a' -> n = n' /\ p = p' /\ a = a';
  ideal_gcmr_open : forall k c a p, gcmr_open k c a = Some p -> exists r, c = gcmr_seal k r p a;
  ideal_gcmr_bind : forall k r p a r' p' a', gcmr_seal k r p a = gcmr_seal k r' p' a' -> p = p' /\ a = a';
}.

(** ** Suites *)


Definition E2EX25519PublicKeySize : Z := 32.
Definition E2EX25519PrivateKeySize : Z := 32.
Definition E2EP256PublicKeySize : Z := 65.
Definition E2EP256PrivateKeySize : Z := 32.
Definition E2EPayloadKeySize : Z := 32.
Definition E2EPayloadKeyIDSize : Z := 16.
Definition e2eAESGCMNonceSize : Z := 12.

Inductive e2e_error :=
| UnsupportedSuite (suite : Z)
| SuiteMismatch
| KeySize
| KeyIDSize
| ParseKey
| NoRandom (e : io_error)
| NoRecipients
| BadRecipient
| MultipleSuites
| Wrap
| Unwrap
| MissingGrant
| NoEnvelope
| PayloadTooLarge
| MissingPayload
| UnexpectedEnvelope
| NonceSize
| Decrypt
| LengthMismatch.

Section WebttyCrypto.
Context `{Crypto} (fips : bool).

Definition blen (l : list byte) : Z := Z.of_nat (length l).

Definition validateProfileKeyEnvelopeSuite (suite : Z) : result e2e_error unit :=
  if fips then (if suite =? KeyEnvelopeSuiteP256 then Ok tt else Err (UnsupportedSuite suite))
  else if (suite =? KeyEnvelopeSuiteHPKEX25519) || (suite =? KeyEnvelopeSuiteP256) then Ok tt else Err (UnsupportedSuite suite).

Definition defaultE2EKeyEnvelopeSuite : Z := if fips then KeyEnvelopeSuiteP256 else KeyEnvelopeSuiteHPKEX25519.

Definition e2eCurveParameters (suite : Z) : result e2e_error (Z * Z) :=
  let? _ := validateProfileKeyEnvelopeSuite suite in
  if suite =? KeyEnvelopeSuiteHPKEX25519 then Ok (E2EX25519PublicKeySize, E2EX25519PrivateKeySize)
  else if suite =? KeyEnvelopeSuiteP256 then Ok (E2EP256PublicKeySize, E2EP256PrivateKeySize)
  else Err (UnsupportedSuite suite).

Definition e2ePayloadSuiteForKeyEnvelopeSuite (suite : Z) : result e2e_error Z :=
  let? _ := validateProfileKeyEnvelopeSuite suite in
  if suite =? KeyEnvelopeSuiteHPKEX25519 then Ok PayloadCipherSuiteAES256GCM
  else if suite =? KeyEnvelopeSuiteP256 then Ok PayloadCipherSuiteAES256GCMRandomNonce
  else Err (UnsupportedSuite suite).

Definition validateE2ESuites (payloadSuite keyEnvelopeSuite : Z) : result e2e_error unit :=
  let? _ := validateProfileKeyEnvelopeSuite keyEnvelopeSuite in
  let? expected := e2ePayloadSuiteForKeyEnvelopeSuite keyEnvelopeSuite in
  if payloadSuite =? expected then Ok tt else Err SuiteMismatch.

Definition inferE2EKeyEnvelopeSuite (publicKey : list byte) : result e2e_error Z :=
  let? suite := (if blen publicKey =? E2EX25519PublicKeySize then Ok KeyEnvelopeSuiteHPKEX25519
                 else if blen publicKey =? E2EP256PublicKeySize then Ok KeyEnvelopeSuiteP256
                 else Err KeySize) in
  let? _ := validateProfileKeyEnvelopeSuite suite in
  Ok suite.

(** ** Identities and recipients *)

Record E2EIdentity := MkIdentity {
  id_KeyEnvelopeSuite : Z; id_KeyID : list byte; id_PublicKey : list byte; id_PrivateKey : list byte }.

Record E2ERecipient := MkRecipient {
  rc_ID : string; rc_Kind : string; rc_KeyEnvelopeSuite : Z; rc_KeyID : list byte; rc_PublicKey : list byte }.

Record KeyEnvelope := MkEnvelope { ke_RecipientKeyID : list byte; ke_EncapsulatedKey : list byte; ke_WrappedKey : list byte }.

Record SessionKeyGrant := MkGrant {
  sg_PayloadSuite : Z; sg_PayloadKeyID : list byte; sg_KeyEnvelopes : list KeyEnvelope; sg_KeyContext : list byte;
  sg_KeyEnvelopeSuite : Z }.

Definition e2eKeyIDDomain : string := "rstream-webtty-e2e-key-id/v1".

Definition E2EKeyID (publicKey : list byte) : list byte := take 16 (sha256 (s2b e2eKeyIDDomain ++ publicKey)).

(** The loop of [inferE2ERecipientSuite]. *)
Fixpoint infer_suites (recipients : list E2ERecipient) (selected : Z) : result e2e_error Z :=
  match recipients with
  | [] => Ok selected
  | r :: rest =>
      let? suite := (if rc_KeyEnvelopeSuite r =? 0 then inferE2EKeyEnvelopeSuite (rc_PublicKey r) else Ok (rc_KeyEnvelopeSuite r)) in
      let? _ := validateProfileKeyEnvelopeSuite suite in
      if selected =? 0 then infer_suites rest suite
      else if selected =? suite then infer_suites rest selected
      else Err MultipleSuites
  end.

Definition inferE2ERecipientSuite (recipients : list E2ERecipient) : result e2e_error Z := infer_suites recipients 0.

Definition e2eIdentityPrivateKey (identity : E2EIdentity) (suite : Z) : result e2e_error (list byte * list byte) :=
  let identitySuite := if id_KeyEnvelopeSuite identity =? 0 then defaultE2EKeyEnvelopeSuite else id_KeyEnvelopeSuite identity in
  if negb (identitySuite =? suite) then Err SuiteMismatch
  else
    let? (publicKeySize, privateKeySize) := e2eCurveParameters suite in
    if negb (blen (id_PrivateKey identity) =? privateKeySize) then Err KeySize
    else if negb (NewPrivateKey suite (id_PrivateKey identity)) then Err ParseKey
    else
      let? keyID :=
        (if blen (id_KeyID identity) =? 0 then
           let publicKey := if blen (id_PublicKey identity) =? 0 then PublicKey suite (id_PrivateKey identity) else id_PublicKey identity in
           if negb (blen publicKey =? publicKeySize) then Err KeySize else Ok (E2EKeyID publicKey)
         else Ok (id_KeyID identity)) in
      if negb (blen keyID =? E2EPayloadKeyIDSize) then Err KeyIDSize
      else Ok (keyID, id_PrivateKey identity).

(** ** Key envelopes *)

Definition sealE2EKeyEnvelope (rnd publicKey : list byte) (suite : Z) (info aad payloadKey : list byte)
  : result e2e_error (list byte * list byte) :=
  if suite =? KeyEnvelopeSuiteHPKEX25519 then
    match hpke_seal publicKey rnd info aad payloadKey with Some x => Ok x | None => Err Wrap end
  else if suite =? KeyEnvelopeSuiteP256 then
    let eph := ephemeral rnd in
    match ecdh eph publicKey with
    | None => Err Wrap
    | Some sharedSecret => Ok (PublicKey KeyEnvelopeSuiteP256 eph, gcmr_seal (hkdf sharedSecret info) rnd payloadKey aad)
    end
  else Err (UnsupportedSuite suite).

Definition openE2EKeyEnvelope (privateKey : list byte) (suite : Z) (encapsulatedKey wrappedKey info aad : list byte)
  : result e2e_error (list byte) :=
  if suite =? KeyEnvelopeSuiteHPKEX25519 then
    match hpke_open privateKey encapsulatedKey info aad wrappedKey with Some k => Ok k | None => Err Unwrap end
  else if suite =? KeyEnvelopeSuiteP256 then
    if negb (NewPublicKey KeyEnvelopeSuiteP256 encapsulatedKey) then Err Unwrap
    else match ecdh privateKey encapsulatedKey with
         | None => Err Unwrap
         | Some sharedSecret =>
             match gcmr_open (hkdf sharedSecret info) wrappedKey aad with Some k => Ok k | None => Err Unwrap end
         end
  else Err (UnsupportedSuite suite).

Definition wrapE2EPayloadKey (rnd payloadKey : list byte) (payloadSuite : Z) (payloadKeyID keyContext : list byte) (suite : Z)
  (recipient : E2ERecipient) : result e2e_error KeyEnvelope :=
  let? (publicKeySize, _) := e2eCurveParameters suite in
  let? recipientSuite := (if rc_KeyEnvelopeSuite recipient =? 0 then inferE2EKeyEnvelopeSuite (rc_PublicKey recipient)
                          else Ok (rc_KeyEnvelopeSuite recipient)) in
  if negb (recipientSuite =? suite) then Err SuiteMismatch
  else if negb (blen (rc_PublicKey recipient) =? publicKeySize) then Err KeySize
  else
    let keyID := if blen (rc_KeyID recipient) =? 0 then E2EKeyID (rc_PublicKey recipient) else rc_KeyID recipient in
    if negb (blen keyID =? E2EPayloadKeyIDSize) then Err KeyIDSize
    else if negb (NewPublicKey suite (rc_PublicKey recipient)) then Err ParseKey
    else
      let? (enc, wrappedKey) :=
        sealE2EKeyEnvelope rnd (rc_PublicKey recipient) suite (e2eHPKEInfo payloadSuite payloadKeyID keyContext suite)
          (e2eHPKEAAD keyID payloadSuite payloadKeyID keyContext suite) payloadKey in
      Ok (MkEnvelope keyID enc wrappedKey).

Definition unwrapE2EPayloadKey (envelope : KeyEnvelope) (payloadSuite : Z) (payloadKeyID keyContext : list byte) (suite : Z)
  (privateKey : list byte) : result e2e_error (list byte) :=
  let? payloadKey :=
    openE2EKeyEnvelope privateKey suite (ke_EncapsulatedKey envelope) (ke_WrappedKey envelope)
      (e2eHPKEInfo payloadSuite payloadKeyID keyContext suite)
      (e2eHPKEAAD (ke_RecipientKeyID envelope) payloadSuite payloadKeyID keyContext suite) in
  if negb (blen payloadKey =? E2EPayloadKeySize) then Err KeySize else Ok payloadKey.

(** ** The key context *)

Definition E2ERecipientKinds : list string := ["public_key"; "user"; "workspace_device"; "workspace_keyset"; "server"].

Definition isKnownE2ERecipientKind (kind : string) : bool := bool_decide (kind ∈ E2ERecipientKinds).

Record E2EPayloadCryptoConfig := MkConfig {
  pc_WorkspaceID : string; pc_ProjectID : string; pc_ServerID : string; pc_PayloadSuite : Z; pc_PayloadKey : list byte;
  pc_PayloadKeyID : list byte; pc_KeyContext : list byte; pc_KeyEnvelopeSuite : Z; pc_Recipients : list E2ERecipient }.

(** A recipient as the context names it: key, kind and identity.  [encode] is
    [EncodeE2EKeyMaterial]. *)
Definition context_recipient (encode : list byte -> string) (r : E2ERecipient) : result e2e_error (string * string * string) :=
  let kind := TrimSpace (rc_Kind r) in
  let id := TrimSpace (rc_ID r) in
  let keyID := if blen (rc_KeyID r) =? 0 then E2EKeyID (rc_PublicKey r) else rc_KeyID r in
  if negb (blen keyID =? E2EPayloadKeyIDSize) then Err KeyIDSize
  else
    let anonymous := bool_decide (kind = "") && bool_decide (id = "") in
    let kind := if anonymous then "public_key" else kind in
    let id := if anonymous then encode keyID else id in
    if bool_decide (kind = "") || bool_decide (id = "") then Err BadRecipient
    else if negb (isKnownE2ERecipientKind kind) then Err BadRecipient
    else Ok (encode keyID, kind, id).

Fixpoint map_results {A B} (f : A -> result e2e_error B) (l : list A) : result e2e_error (list B) :=
  match l with
  | [] => Ok []
  | x :: l => let? y := f x in let? ys := map_results f l in Ok (y :: ys)
  end.

(** [json] is the encoding of the context: workspace, project, server, recipients. *)
Definition implicitE2EKeyContextFromRecipients (encode : list byte -> string)
  (json : string -> string -> string -> list (string * string * string) -> list byte) (cfg : E2EPayloadCryptoConfig)
  : result e2e_error (list byte) :=
  let? recipients := map_results (context_recipient encode) (pc_Recipients cfg) in
  Ok (json (TrimSpace (pc_WorkspaceID cfg)) (TrimSpace (pc_ProjectID cfg)) (TrimSpace (pc_ServerID cfg)) recipients).

(** ** Ciphers *)

Record e2ePayloadCipher := MkCipher {
  c_payloadSuite : Z; c_payloadKey : list byte; c_payloadKeyID : list byte; c_keyContext : list byte; c_keyEnvelopeSuite : Z;
  c_keyEnvelopes : list KeyEnvelope; c_random : list byte }.

(** [io.ReadFull] on the random stream, when nothing was configured. *)
Definition or_random (configured : list byte) (size : nat) (random : list byte) : result e2e_error (list byte * list byte) :=
  if blen configured =? 0 then
    match read_full size random with Ok x => Ok x | Err e => Err (NoRandom e) end
  else Ok (configured, random).

(** Every recipient's envelope, with the randomness of its call. *)
Fixpoint wrap_all (wrap : list byte -> E2ERecipient -> result e2e_error KeyEnvelope) (rnds : list (list byte))
  (recipients : list E2ERecipient) : result e2e_error (list KeyEnvelope) :=
  match recipients with
  | [] => Ok []
  | r :: rest =>
      let? envelope := wrap (hd [] rnds) r in
      let? envelopes := wrap_all wrap (tl rnds) rest in
      Ok (envelope :: envelopes)
  end.

Definition newE2EClientPayloadCipher (encode : list byte -> string)
  (json : string -> string -> string -> list (string * string * string) -> list byte)
  (random : list byte) (rnds : list (list byte)) (cfg : E2EPayloadCryptoConfig) : result e2e_error e2ePayloadCipher :=
  let? keyEnvelopeSuite :=
    (if pc_KeyEnvelopeSuite cfg =? 0 then
       let? suite := inferE2ERecipientSuite (pc_Recipients cfg) in
       Ok (if suite =? 0 then defaultE2EKeyEnvelopeSuite else suite)
     else Ok (pc_KeyEnvelopeSuite cfg)) in
  let? payloadSuite :=
    (if pc_PayloadSuite cfg =? 0 then e2ePayloadSuiteForKeyEnvelopeSuite keyEnvelopeSuite else Ok (pc_PayloadSuite cfg)) in
  let? _ := validateE2ESuites payloadSuite keyEnvelopeSuite in
  let? (payloadKey, random) := or_random (pc_PayloadKey cfg) 32 random in
  if negb (blen payloadKey =? E2EPayloadKeySize) then Err KeySize
  else
    let? (payloadKeyID, random) := or_random (pc_PayloadKeyID cfg) 16 random in
    if negb (blen payloadKeyID =? E2EPayloadKeyIDSize) then Err KeyIDSize
    else if bool_decide (pc_Recipients cfg = []) then Err NoRecipients
    else
      let? keyContext :=
        (if blen (pc_KeyContext cfg) =? 0 then implicitE2EKeyContextFromRecipients encode json cfg else Ok (pc_KeyContext cfg)) in
      let? keyEnvelopes :=
        wrap_all (fun rnd r => wrapE2EPayloadKey rnd payloadKey payloadSuite payloadKeyID keyContext keyEnvelopeSuite r) rnds
          (pc_Recipients cfg) in
      Ok (MkCipher payloadSuite payloadKey payloadKeyID keyContext keyEnvelopeSuite keyEnvelopes random).

Definition sessionKeyGrant (c : e2ePayloadCipher) : SessionKeyGrant :=
  MkGrant (c_payloadSuite c) (c_payloadKeyID c) (c_keyEnvelopes c) (c_keyContext c) (c_keyEnvelopeSuite c).

(** The envelope of a recipient: the first one with its key. *)
Definition find_envelope (recipientKeyID : list byte) (l : list KeyEnvelope) : option KeyEnvelope :=
  find (fun e => bool_decide (ke_RecipientKeyID e = recipientKeyID)) l.

(** The random stream of a server is [rand.Reader]. *)
Definition newE2EServerPayloadCipher (random : list byte) (sessionKeyGrant : option SessionKeyGrant) (identity : E2EIdentity)
  : result e2e_error e2ePayloadCipher :=
  match sessionKeyGrant with
  | None => Err MissingGrant
  | Some g =>
      let? _ := validateE2ESuites (sg_PayloadSuite g) (sg_KeyEnvelopeSuite g) in
      if negb (blen (sg_PayloadKeyID g) =? E2EPayloadKeyIDSize) then Err KeyIDSize
      else
        let? (recipientKeyID, privateKey) := e2eIdentityPrivateKey identity (sg_KeyEnvelopeSuite g) in
        match find_envelope recipientKeyID (sg_KeyEnvelopes g) with
        | None => Err NoEnvelope
        | Some matched =>
            let? payloadKey := unwrapE2EPayloadKey matched (sg_PayloadSuite g) (sg_PayloadKeyID g) (sg_KeyContext g)
                                 (sg_KeyEnvelopeSuite g) privateKey in
            Ok (MkCipher (sg_PayloadSuite g) payloadKey (sg_PayloadKeyID g) (sg_KeyContext g) (sg_KeyEnvelopeSuite g) [] random)
        end
  end.

(** ** Payloads *)

Record PayloadCryptoMetadata := MkMetadata {
  md_PayloadSuite : Z; md_PayloadKeyID : list byte; md_Nonce : list byte; md_AADContext : list byte }.

Record EncryptedPayload := MkPayload {
  ep_Ciphertext : list byte; ep_PlaintextLength : Z; ep_PayloadCrypto : option PayloadCryptoMetadata }.

Definition e2ePayloadNonceSize (suite : Z) : result e2e_error Z :=
  if suite =? PayloadCipherSuiteAES256GCM then Ok e2eAESGCMNonceSize
  else if suite =? PayloadCipherSuiteAES256GCMRandomNonce then Ok 0
  else Err (UnsupportedSuite suite).

Definition newE2EPayloadNonce (suite : Z) (random : list byte) : result e2e_error (list byte * list byte) :=
  if suite =? PayloadCipherSuiteAES256GCM then
    match read_full 12 random with Ok x => Ok x | Err e => Err (NoRandom e) end
  else if suite =? PayloadCipherSuiteAES256GCMRandomNonce then Ok ([], random)
  else Err (UnsupportedSuite suite).

(** [payloadAEAD] refuses keys that are not AES keys and unknown suites. *)
Definition payloadAEAD (c : e2ePayloadCipher) : result e2e_error unit :=
  if negb ((blen (c_payloadKey c) =? 16) || (blen (c_payloadKey c) =? 24) || (blen (c_payloadKey c) =? 32)) then Err KeySize
  else if (c_payloadSuite c =? PayloadCipherSuiteAES256GCM) || (c_payloadSuite c =? PayloadCipherSuiteAES256GCMRandomNonce) then Ok tt
  else Err (UnsupportedSuite (c_payloadSuite c)).

Definition sealE2EPayload (rnd key : list byte) (suite : Z) (nonce plaintext aad : list byte) : result e2e_error (list byte) :=
  if suite =? PayloadCipherSuiteAES256GCM then Ok (gcm_seal key nonce plaintext aad)
  else if suite =? PayloadCipherSuiteAES256GCMRandomNonce then Ok (gcmr_seal key rnd plaintext aad)
  else Err (UnsupportedSuite suite).

Definition openE2EPayload (key : list byte) (suite : Z) (nonce ciphertext aad : list byte) : result e2e_error (list byte) :=
  let opened x := match x with Some p => Ok p | None => Err Decrypt end in
  if suite =? PayloadCipherSuiteAES256GCM then opened (gcm_open key nonce ciphertext aad)
  else if suite =? PayloadCipherSuiteAES256GCMRandomNonce then
    if negb (blen nonce =? 0) then Err NonceSize else opened (gcmr_open key ciphertext aad)
  else Err (UnsupportedSuite suite).

(** [encryptFunc]: the payload, and the cipher with the rest of its random stream. *)
Definition encrypt (c : e2ePayloadCipher) (stream : string) (rnd payload : list byte)
  : result e2e_error (EncryptedPayload * e2ePayloadCipher) :=
  if blen payload >? 2 ^ 32 - 1 then Err PayloadTooLarge
  else
    let? _ := payloadAEAD c in
    let plainLen := u32 (blen payload) in
    let? (nonce, random) := newE2EPayloadNonce (c_payloadSuite c) (c_random c) in
    let md := MkMetadata (c_payloadSuite c) (c_payloadKeyID c) nonce (c_keyContext c) in
    let aad := e2ePayloadAAD stream (md_PayloadSuite md) (md_PayloadKeyID md) (md_AADContext md) (md_Nonce md) plainLen in
    let? ciphertext := sealE2EPayload rnd (c_payloadKey c) (c_payloadSuite c) (md_Nonce md) payload aad in
    Ok (MkPayload ciphertext plainLen (Some md), {| c with c_random := random |}).

Definition validatePayloadEnvelope (c : e2ePayloadCipher) (md : PayloadCryptoMetadata) : result e2e_error unit :=
  if negb (md_PayloadSuite md =? c_payloadSuite c) then Err UnexpectedEnvelope
  else if negb (bool_decide (md_PayloadKeyID md = c_payloadKeyID c)) then Err UnexpectedEnvelope
  else if negb (bool_decide (md_AADContext md = c_keyContext c)) then Err UnexpectedEnvelope
  else
    let? size := e2ePayloadNonceSize (c_payloadSuite c) in
    if negb (blen (md_Nonce md) =? size) then Err NonceSize else Ok tt.

Definition decrypt (c : e2ePayloadCipher) (stream : string) (payload : option EncryptedPayload) : result e2e_error (list byte) :=
  match payload with
  | None => Err MissingPayload
  | Some p =>
      match ep_PayloadCrypto p with
      | None => Err MissingPayload
      | Some md =>
          let? _ := validatePayloadEnvelope c md in
          let? _ := payloadAEAD c in
          let aad := e2ePayloadAAD stream (md_PayloadSuite md) (md_PayloadKeyID md) (md_AADContext md) (md_Nonce md) (ep_PlaintextLength p) in
          let? plaintext := openE2EPayload (c_payloadKey c) (c_payloadSuite c) (md_Nonce md) (ep_Ciphertext p) aad in
          if negb (u32 (blen plaintext) =? ep_PlaintextLength p) then Err LengthMismatch else Ok plaintext
      end
  end.

(** ** The two ends of a channel *)

(** Splits a chain of results that ends well. *)
Ltac oks :=
  repeat match goal with
  | H : match ?x with Ok _ => _ | Err _ => Err _ end = Ok _ |- _ => destruct x eqn:?; [|discriminate H]
  | H : (let (_, _) := ?x in _) = Ok _ |- _ => destruct x eqn:?
  | H : (if negb ?b then Err _ else _) = Ok _ |- _ => destruct b eqn:?; cbn [negb] in H; [|discriminate H]
  | H : (if ?b then Err _ else _) = Ok _ |- _ => destruct b eqn:?; [discriminate H|]
  | H : Ok _ = Ok _ |- _ => injection H as H
  | x : unit |- _ => destruct x
  end.

(** A usable cipher: a known suite and a full key. *)
Definition cipher_ok (c : e2ePayloadCipher) : Prop :=
  (c_payloadSuite c = PayloadCipherSuiteAES256GCM \/ c_payloadSuite c = PayloadCipherSuiteAES256GCMRandomNonce) /\
  blen (c_payloadKey c) = E2EPayloadKeySize.

(** Two ciphers of one session. *)
Definition paired (c s : e2ePayloadCipher) : Prop :=
  c_payloadSuite c = c_payloadSuite s /\ c_payloadKey c = c_payloadKey s /\ c_payloadKeyID c = c_payloadKeyID s /\
  c_keyContext c = c_keyContext s.

Lemma paired_sym c s : paired c s -> paired s c.
Proof. intros (? & ? & ? & ?). by split_and!. Qed.

Lemma payloadAEAD_ok c : cipher_ok c -> payloadAEAD c = Ok tt.
Proof. intros [[H1|H1] H2]; unfold payloadAEAD; rewrite H1, H2; done. Qed.

Lemma read_full_enough n s : (n <= length s)%nat -> exists a r, read_full n s = Ok (a, r) /\ length a = n.
Proof.
  intros Hn. unfold read_full. rewrite decide_True by done. exists (take n s), (drop n s). split; [done|].
  rewrite length_take. lia.
Qed.

(** What one end encrypts, the other end decrypts, on the same stream. *)
Lemma channel_roundtrip `{!CryptoLaws} c s stream rnd p :
  cipher_ok c -> paired c s -> blen p < 2 ^ 32 -> (c_payloadSuite c = PayloadCipherSuiteAES256GCM -> (12 <= length (c_random c))%nat) ->
  exists e c', encrypt c stream rnd p = Ok (e, c') /\ decrypt s stream (Some e) = Ok p.
Proof.
  intros Hc Hp Hlen Hrnd. pose proof Hp as (Hsuite & Hkey & Hid & Hctx).
  assert (Hs : payloadAEAD s = Ok tt) by (apply payloadAEAD_ok; destruct Hc as [Hc1 Hc2]; split; rewrite <- ?Hsuite, <- ?Hkey; done).
  assert (Hb : blen p >? 2 ^ 32 - 1 = false) by lia. assert (Hu : u32 (blen p) = blen p) by (apply u32_small; unfold blen in *; lia).
  unfold encrypt. rewrite Hb, (payloadAEAD_ok c Hc), Hu.
  unfold newE2EPayloadNonce, decrypt, validatePayloadEnvelope, e2ePayloadNonceSize, sealE2EPayload, openE2EPayload.
  rewrite <- Hsuite, <- Hkey, <- Hid, <- Hctx, Hs.
  destruct Hc as [[Hc|Hc] _].
  1: destruct (read_full_enough 12 (c_random c) (Hrnd Hc)) as (nonce & rest & Hread & Hnl); rewrite Hc, Hread.
  2: rewrite Hc.
  all: do 2 eexists; (split; [reflexivity|]);
    cbn [md_PayloadSuite md_PayloadKeyID md_AADContext md_Nonce ep_PayloadCrypto ep_PlaintextLength ep_Ciphertext].
  - rewrite Z.eqb_refl, !bool_decide_eq_true_2 by done. cbn [negb].
    change (PayloadCipherSuiteAES256GCM =? PayloadCipherSuiteAES256GCM) with true. cbv iota. unfold blen at 1. rewrite Hnl.
    change (Z.of_nat 12 =? e2eAESGCMNonceSize) with true. cbn [negb]. rewrite law_gcm, Hu, Z.eqb_refl. done.
  - rewrite Z.eqb_refl, !bool_decide_eq_true_2 by done. cbn -[u32 blen]. change (blen [] =? 0) with true. cbn -[u32 blen].
    rewrite law_gcmr. cbn -[u32 blen]. by rewrite Hu, Z.eqb_refl.
Qed.

(** Whatever was encrypted is decrypted. *)
Lemma encrypt_decrypt `{!CryptoLaws} c s stream rnd p e c' :
  cipher_ok c -> paired c s -> encrypt c stream rnd p = Ok (e, c') -> decrypt s stream (Some e) = Ok p.
Proof.
  intros Hc Hp He. assert (Hlen : blen p < 2 ^ 32) by (unfold encrypt in He; destruct (blen p >? 2 ^ 32 - 1) eqn:?; [done|lia]).
  destruct (channel_roundtrip c s stream rnd p Hc Hp Hlen) as (e' & c1 & He' & Hd); [|congruence].
  intros Hs. unfold encrypt in He. oks. match goal with Hn : newE2EPayloadNonce _ _ = Ok _ |- _ => rename Hn into Hnonce end.
  unfold newE2EPayloadNonce in Hnonce. rewrite Hs in Hnonce. change (PayloadCipherSuiteAES256GCM =? PayloadCipherSuiteAES256GCM) with true in Hnonce. cbv iota in Hnonce.
  unfold read_full in Hnonce. destruct (decide (12 <= length (c_random c))%nat) as [|Hno]; [done|]. by repeat case_match.
Qed.

(** ** The grant *)

Definition recipient_key (r : E2ERecipient) : list byte :=
  if blen (rc_KeyID r) =? 0 then E2EKeyID (rc_PublicKey r) else rc_KeyID r.

Lemma wrap_all_split wrap rnds pre r post l :
  (forall rnd r e, wrap rnd r = Ok e -> ke_RecipientKeyID e = recipient_key r) ->
  wrap_all wrap rnds (pre ++ r :: post) = Ok l ->
  exists l1 e l2 rnd, l = l1 ++ e :: l2 /\ wrap rnd r = Ok e /\ ke_RecipientKeyID <$> l1 = recipient_key <$> pre.
Proof.
  intros Hkey. revert rnds l. induction pre as [|r0 pre IH]; intros rnds l; cbn [app wrap_all]; intros Hl.
  - oks. subst l. by exists [], a, a0, (hd [] rnds).
  - oks. subst l. match goal with Hw : wrap_all _ _ _ = Ok _ |- _ => destruct (IH _ _ Hw) as [l1 Hx] end.
    destruct Hx as (e & l2 & rnd & -> & He & Hl1). exists (a :: l1), e, l2, rnd.
    split_and!; [done..|]. rewrite !fmap_cons, Hl1. f_equal. by eapply Hkey.
Qed.

Lemma wrap_key rnd k ps id ctx su r e :
  wrapE2EPayloadKey rnd k ps id ctx su r = Ok e -> ke_RecipientKeyID e = recipient_key r.
Proof. unfold wrapE2EPayloadKey, recipient_key. intros H0. oks. by subst e. Qed.

Lemma find_envelope_app id l1 e l2 :
  id ∉ ke_RecipientKeyID <$> l1 -> ke_RecipientKeyID e = id -> find_envelope id (l1 ++ e :: l2) = Some e.
Proof.
  intros Hn He. unfold find_envelope. induction l1 as [|x l1 IH]; cbn [app find].
  - by rewrite bool_decide_eq_true_2.
  - rewrite fmap_cons, not_elem_of_cons in Hn. destruct Hn as [Hne Hn]. rewrite bool_decide_eq_false_2 by congruence. by apply IH.
Qed.

(** An envelope for a key opens with that key. *)
Lemma unwrap_wrap `{!CryptoLaws} rnd k ps id ctx su r e priv :
  (su = KeyEnvelopeSuiteHPKEX25519 \/ su = KeyEnvelopeSuiteP256) -> NewPrivateKey su priv = true ->
  rc_PublicKey r = PublicKey su priv -> blen k = E2EPayloadKeySize ->
  wrapE2EPayloadKey rnd k ps id ctx su r = Ok e -> unwrapE2EPayloadKey e ps id ctx su priv = Ok k.
Proof.
  intros Hsu Hpriv Hpub Hk Hw. pose proof (wrap_key _ _ _ _ _ _ _ _ Hw) as Hkey. unfold wrapE2EPayloadKey in Hw.
  fold (recipient_key r) in Hw. oks. subst e. unfold unwrapE2EPayloadKey. cbn [ke_EncapsulatedKey ke_WrappedKey ke_RecipientKeyID].
  match goal with Hs : sealE2EKeyEnvelope _ _ _ _ _ _ = Ok (?enc, ?key) |- _ => rename Hs into Hseal; rename enc into enc0; rename key into key0 end.
  assert (Ho : openE2EKeyEnvelope priv su enc0 key0 (e2eHPKEInfo ps id ctx su) (e2eHPKEAAD (recipient_key r) ps id ctx su) = Ok k).
  { unfold sealE2EKeyEnvelope in Hseal. unfold openE2EKeyEnvelope. rewrite Hpub in Hseal.
    destruct Hsu as [-> | ->].
    - change (KeyEnvelopeSuiteHPKEX25519 =? KeyEnvelopeSuiteHPKEX25519) with true in *. cbv iota in *.
      destruct (hpke_seal _ _ _ _ _) as [[]|] eqn:Hh; [|done]. injection Hseal as <- <-. by erewrite law_hpke.
    - change (KeyEnvelopeSuiteP256 =? KeyEnvelopeSuiteHPKEX25519) with false in *.
      change (KeyEnvelopeSuiteP256 =? KeyEnvelopeSuiteP256) with true in *. cbv iota zeta in *.
      destruct (ecdh _ _) as [secret|] eqn:Hx; [|done]. injection Hseal as <- <-.
      pose proof (law_ephemeral rnd) as Heph. rewrite (law_public _ _ Heph). cbn [negb].
      rewrite law_ecdh in Hx by done. by rewrite Hx, law_gcmr. }
  rewrite Ho, Hk. done.
Qed.

Lemma suites_ok ps su : validateE2ESuites ps su = Ok tt ->
  (su = KeyEnvelopeSuiteHPKEX25519 \/ su = KeyEnvelopeSuiteP256) /\
  (ps = PayloadCipherSuiteAES256GCM \/ ps = PayloadCipherSuiteAES256GCMRandomNonce).
Proof.
  unfold validateE2ESuites, e2ePayloadSuiteForKeyEnvelopeSuite, validateProfileKeyEnvelopeSuite,
    KeyEnvelopeSuiteHPKEX25519, KeyEnvelopeSuiteP256, PayloadCipherSuiteAES256GCM, PayloadCipherSuiteAES256GCMRandomNonce.
  intros Hv. destruct fips, (su =? 1) eqn:H1, (su =? 3) eqn:H3; cbn in Hv; rewrite ?H1, ?H3 in Hv; cbn in Hv;
    try discriminate; destruct (ps =? _) eqn:Hp in Hv; try discriminate; lia.
Qed.

(** What a client's cipher is made of. *)
Lemma client_cipher_ok encode json random rnds cfg c :
  newE2EClientPayloadCipher encode json random rnds cfg = Ok c ->
  validateE2ESuites (c_payloadSuite c) (c_keyEnvelopeSuite c) = Ok tt /\ blen (c_payloadKey c) = E2EPayloadKeySize /\
  blen (c_payloadKeyID c) = E2EPayloadKeyIDSize /\
  wrap_all (fun rnd r => wrapE2EPayloadKey rnd (c_payloadKey c) (c_payloadSuite c) (c_payloadKeyID c) (c_keyContext c)
    (c_keyEnvelopeSuite c) r) rnds (pc_Recipients cfg) = Ok (c_keyEnvelopes c).
Proof.
  unfold newE2EClientPayloadCipher. intros Hc. oks. subst c. cbn. repeat match goal with Hb : (_ =? _) = true |- _ => apply Z.eqb_eq in Hb end.
  by split_and!.
Qed.

(** The server's cipher of a grant is the client's. *)
Lemma server_cipher `{!CryptoLaws} encode json random rnds cfg c identity keyID priv pre r post random' :
  newE2EClientPayloadCipher encode json random rnds cfg = Ok c ->
  pc_Recipients cfg = pre ++ r :: post ->
  e2eIdentityPrivateKey identity (c_keyEnvelopeSuite c) = Ok (keyID, priv) ->
  rc_PublicKey r = PublicKey (c_keyEnvelopeSuite c) priv -> recipient_key r = keyID -> keyID ∉ recipient_key <$> pre ->
  exists s, newE2EServerPayloadCipher random' (Some (sessionKeyGrant c)) identity = Ok s /\ cipher_ok c /\ cipher_ok s /\ paired c s /\ c_random s = random'.
Proof.
  intros Hc Hrec Hid Hpub Hkey Hpre. destruct (client_cipher_ok _ _ _ _ _ _ Hc) as (Hsuites & Hk & Hkid & Hw).
  rewrite Hrec in Hw. apply wrap_all_split in Hw as (l1 & e & l2 & rnd0 & Henv & He & Hl1); [|intros *; apply wrap_key].
  destruct (suites_ok _ _ Hsuites) as [Hsu Hps].
  assert (Hpriv : NewPrivateKey (c_keyEnvelopeSuite c) priv = true).
  { unfold e2eIdentityPrivateKey in Hid. oks. congruence. }
  pose proof (unwrap_wrap _ _ _ _ _ _ _ _ _ Hsu Hpriv Hpub Hk He) as Hun.
  exists (MkCipher (c_payloadSuite c) (c_payloadKey c) (c_payloadKeyID c) (c_keyContext c) (c_keyEnvelopeSuite c) [] random').
  split; [|split_and!; done]. unfold newE2EServerPayloadCipher, sessionKeyGrant.
  cbn [sg_PayloadSuite sg_KeyEnvelopeSuite sg_PayloadKeyID sg_KeyEnvelopes sg_KeyContext].
  rewrite Hsuites, Hkid, Z.eqb_refl. cbn [negb]. rewrite Hid, Henv.
  rewrite (find_envelope_app keyID l1 e l2); [by rewrite Hun|by rewrite Hl1|]. rewrite <- Hkey. by eapply wrap_key.
Qed.

(** C13: a server whose key is among the recipients of a grant (and under a key identifier
    that no recipient before it uses) recovers the client's payload key from the grant,
    and from then on each end decrypts what the other encrypts, on every stream: stdin
    towards the server, stdout and stderr towards the client. *)
Theorem e2e_channel `{!CryptoLaws} encode json random rnds cfg c identity keyID priv pre r post random' :
  newE2EClientPayloadCipher encode json random rnds cfg = Ok c ->
  pc_Recipients cfg = pre ++ r :: post ->
  e2eIdentityPrivateKey identity (c_keyEnvelopeSuite c) = Ok (keyID, priv) ->
  rc_PublicKey r = PublicKey (c_keyEnvelopeSuite c) priv -> recipient_key r = keyID -> keyID ∉ recipient_key <$> pre ->
  exists s, newE2EServerPayloadCipher random' (Some (sessionKeyGrant c)) identity = Ok s /\
    forall stream rnd p, blen p < 2 ^ 32 ->
      ((12 <= length (c_random c))%nat ->
         exists e c', encrypt c stream rnd p = Ok (e, c') /\ decrypt s stream (Some e) = Ok p) /\
      ((12 <= length random')%nat ->
         exists e s', encrypt s stream rnd p = Ok (e, s') /\ decrypt c stream (Some e) = Ok p).
Proof.
  intros Hc Hrec Hid Hpub Hkey Hpre.
  destruct (server_cipher _ _ _ _ _ _ _ _ _ _ _ _ random' Hc Hrec Hid Hpub Hkey Hpre) as (s & Hs & Hcc & Hcs & Hpair & Hr). exists s. split; [done|].
  intros stream rnd p Hlen. split; intros Hrnd; apply channel_roundtrip; try done; [by apply paired_sym|by rewrite Hr].
Qed.

Lemma encrypt_inv c stream rnd p e c' :
  encrypt c stream rnd p = Ok (e, c') ->
  exists nonce, ep_PayloadCrypto e = Some (MkMetadata (c_payloadSuite c) (c_payloadKeyID c) nonce (c_keyContext c)) /\
    ep_PlaintextLength e = blen p /\ 0 <= blen p < 2 ^ 32 /\
    (length nonce <= 12)%nat /\
    let aad := e2ePayloadAAD stream (c_payloadSuite c) (c_payloadKeyID c) (c_keyContext c) nonce (blen p) in
    (c_payloadSuite c = PayloadCipherSuiteAES256GCM /\ ep_Ciphertext e = gcm_seal (c_payloadKey c) nonce p aad \/
     c_payloadSuite c = PayloadCipherSuiteAES256GCMRandomNonce /\ nonce = [] /\ ep_Ciphertext e = gcmr_seal (c_payloadKey c) rnd p aad).
Proof.
  unfold encrypt. intros He. assert (Hpos : 0 <= blen p) by (unfold blen; lia). destruct (blen p >? 2 ^ 32 - 1) eqn:Hb; [done|].
  rewrite (u32_small (blen p)) in He by lia. oks. subst e. cbn [ep_PayloadCrypto ep_PlaintextLength ep_Ciphertext].
  match goal with Hn : newE2EPayloadNonce _ _ = Ok (?n, _) |- _ => rename n into nonce; rename Hn into Hnonce end.
  match goal with Hs : sealE2EPayload _ _ _ _ _ _ = Ok _ |- _ => rename Hs into Hseal end.
  exists nonce. unfold newE2EPayloadNonce in Hnonce. unfold sealE2EPayload in Hseal.
  destruct (c_payloadSuite c =? PayloadCipherSuiteAES256GCM) eqn:H1.
  - destruct (read_full 12 (c_random c)) as [[]|] eqn:Hread; [|done]. injection Hnonce as -> ->. injection Hseal as <-.
    apply read_full_ok in Hread as [_ Hl]. split_and!; [done..|lia|lia|lia|]. left. by split; [lia|].
  - destruct (c_payloadSuite c =? PayloadCipherSuiteAES256GCMRandomNonce) eqn:H3; [|done]. injection Hnonce as <- <-.
    injection Hseal as <-. split_and!; [done..|lia|lia|cbn; lia|]. right. by split; [lia|].
Qed.

Lemma decrypt_inv s stream e p :
  decrypt s stream (Some e) = Ok p ->
  exists nonce, ep_PayloadCrypto e = Some (MkMetadata (c_payloadSuite s) (c_payloadKeyID s) nonce (c_keyContext s)) /\
    (length nonce <= 12)%nat /\
    let aad := e2ePayloadAAD stream (c_payloadSuite s) (c_payloadKeyID s) (c_keyContext s) nonce (ep_PlaintextLength e) in
    (c_payloadSuite s = PayloadCipherSuiteAES256GCM /\ gcm_open (c_payloadKey s) nonce (ep_Ciphertext e) aad = Some p \/
     c_payloadSuite s = PayloadCipherSuiteAES256GCMRandomNonce /\ nonce = [] /\ gcmr_open (c_payloadKey s) (ep_Ciphertext e) aad = Some p).
Proof.
  unfold decrypt. destruct (ep_PayloadCrypto e) as [[suite id nonce ctx]|] eqn:Hmd; [|done]. intros Hd. oks. subst p.
  match goal with Hv : validatePayloadEnvelope _ _ = Ok _ |- _ => unfold validatePayloadEnvelope in Hv; oks; rename Hv into Hnonce end.
  cbn [md_PayloadSuite md_PayloadKeyID md_AADContext md_Nonce] in *. repeat match goal with
    | Hb : (_ =? _) = true |- _ => apply Z.eqb_eq in Hb | Hb : bool_decide _ = true |- _ => apply bool_decide_eq_true in Hb end.
  subst suite id ctx. exists nonce. split; [done|].
  match goal with Ho : openE2EPayload _ _ _ _ _ = Ok _ |- _ => rename Ho into Hopen; unfold openE2EPayload in Hopen end.
  match goal with Hs : e2ePayloadNonceSize _ = Ok ?z |- _ => rename Hs into Hsize; unfold e2ePayloadNonceSize in Hsize end.
  match goal with Hl : blen nonce = _ |- _ => rename Hl into Hl0 end. unfold blen in Hl0.
  destruct (c_payloadSuite s =? PayloadCipherSuiteAES256GCM) eqn:H1.
  - injection Hsize as <-. unfold e2eAESGCMNonceSize in Hl0. split; [lia|]. left. split; [lia|].
    destruct (gcm_open _ _ _ _); [|done]. by injection Hopen as ->.
  - destruct (c_payloadSuite s =? PayloadCipherSuiteAES256GCMRandomNonce) eqn:H3; [|done]. injection Hsize as <-.
    assert (nonce = []) as -> by (destruct nonce; [done|cbn in Hl0; lia]). split; [cbn; lia|]. right. split_and!; [lia|done|].
    cbn in Hopen. destruct (gcmr_open _ _ _); [|done]. by injection Hopen as ->.
Qed.

(** A ciphertext is bound to what it was made for: if an end accepts a ciphertext of
    the other end, whatever stream it arrives on and whatever metadata comes with it, then
    it is the stream, the metadata and the plaintext it was encrypted with. *)
Theorem e2e_binding `{!IdealAEAD} c s stream stream' rnd p p' e e' c' :
  paired c s -> Forall short [s2b stream; s2b stream'; c_payloadKeyID c; c_keyContext c] ->
  encrypt c stream rnd p = Ok (e, c') -> 0 <= ep_PlaintextLength e' < 2 ^ 32 ->
  ep_Ciphertext e' = ep_Ciphertext e -> decrypt s stream' (Some e') = Ok p' ->
  stream' = stream /\ p' = p /\ e' = e.
Proof.
  intros (Hsuite & Hkey & Hid & Hctx) Hshort He Hlen Hct Hd. split_foralls.
  destruct (encrypt_inv _ _ _ _ _ _ He) as (n & Hmd & Hpl & Hp & Hn & Hseal).
  destruct (decrypt_inv _ _ _ _ Hd) as (n' & Hmd' & Hn' & Hopen). rewrite <- Hsuite, <- Hkey, <- Hid, <- Hctx in *.
  assert (Hfin : n' = n -> p' = p ->
    e2ePayloadAAD stream' (c_payloadSuite c) (c_payloadKeyID c) (c_keyContext c) n' (ep_PlaintextLength e') =
    e2ePayloadAAD stream (c_payloadSuite c) (c_payloadKeyID c) (c_keyContext c) n (blen p) -> stream' = stream /\ p' = p /\ e' = e).
  { intros -> -> Haad. apply e2ePayloadAAD_inj in Haad; [|repeat constructor; try done; unfold short; lia| |done..].
    - injection Haad as -> Hl. split_and!; [done..|]. destruct e, e'. cbn in *. congruence.
    - destruct Hseal as [[-> _]|[-> _]]; repeat constructor; vm_compute; congruence. }
  cbv zeta in *. destruct Hseal as [[Hs Hseal]|(Hs & -> & Hseal)], Hopen as [[Hs' Hopen]|(Hs' & -> & Hopen)];
    try (by rewrite Hs in Hs'; vm_compute in Hs').
  - apply ideal_gcm_open in Hopen. rewrite Hct, Hseal in Hopen. apply ideal_gcm_bind in Hopen as (-> & -> & Ha). by apply Hfin.
  - apply ideal_gcmr_open in Hopen as [r Hopen]. rewrite Hct, Hseal in Hopen. apply ideal_gcmr_bind in Hopen as (-> & Ha). by apply Hfin.
Qed.
End WebttyCrypto.

(** ** The laws can hold: a model of the primitives, and witnesses *)

Fixpoint tenc (l : list byte) : list byte := match l with [] => [x00] | b :: l => x01 :: b :: tenc l end.

Fixpoint tdec (s : list byte) : option (list byte * list byte) :=
  match s with
  | x00 :: r => Some ([], r)
  | x01 :: b :: r => match tdec r with Some (l, r) => Some (b :: l, r) | None => None end
  | _ => None
  end.

Definition seal4 (k n p a : list byte) : list byte := tenc k ++ tenc n ++ tenc p ++ tenc a.

Definition parse4 (c : list byte) : option (list byte * list byte * list byte * list byte) :=
  match tdec c with
  | Some (k, c) =>
      match tdec c with
      | Some (n, c) =>
          match tdec c with
          | Some (p, c) => match tdec c with Some (a, []) => Some (k, n, p, a) | _ => None end
          | None => None
          end
      | None => None
      end
  | None => None
  end.

Definition open4 (k : list byte) (n : option (list byte)) (c a : list byte) : option (list byte) :=
  match parse4 c with
  | Some (k', n', p, a') =>
      if bool_decide (k' = k) && bool_decide (a' = a) && match n with Some n => bool_decide (n' = n) | None => true end then Some p else None
  | None => None
  end.

#[local] Instance toy_crypto : Crypto := {
  sha256 b := be_put 32 (be_get b);
  gcm_seal := seal4;
  gcm_open k n c a := open4 k (Some n) c a;
  gcmr_seal := seal4;
  gcmr_open k c a := open4 k None c a;
  hkdf s _ := s;
  NewPublicKey _ _ := true;
  NewPrivateKey _ k := Z.of_nat (length k) =? 32;
  PublicKey s k := if s =? KeyEnvelopeSuiteP256 then x04 :: k ++ k else k;
  ecdh a b := Some (be_put 32 (be_get a + be_get (take 32 (drop 1 b))));
  ephemeral r := be_put 32 (be_get r);
  hpke_seal k r i a p := Some (r, seal4 k i p a);
  hpke_open k _ i a c := open4 k (Some i) c a;
}.

Lemma tdec_tenc l r : tdec (tenc l ++ r) = Some (l, r).
Proof. induction l as [|b l IH]; cbn; [done|]. by rewrite IH. Qed.

Lemma tdec_inv s l r : tdec s = Some (l, r) -> s = tenc l ++ r.
Proof.
  revert l r. induction s as [s IH] using (induction_ltof1 _ (@length byte)). unfold ltof in IH.
  intros l r. destruct s as [|[] s]; cbn; try done; [by intros [= <- <-]|]. destruct s as [|b s]; [done|].
  destruct (tdec s) as [[l' r']|] eqn:Hs; [|done]. intros [= <- <-]. cbn. do 2 f_equal. apply IH; [cbn; lia|done].
Qed.

Lemma parse4_seal4 k n p a : parse4 (seal4 k n p a) = Some (k, n, p, a).
Proof.
  unfold parse4, seal4. rewrite !tdec_tenc. rewrite <- (app_nil_r (tenc a)), tdec_tenc. done.
Qed.

Lemma parse4_inv c k n p a : parse4 c = Some (k, n, p, a) -> c = seal4 k n p a.
Proof.
  unfold parse4, seal4. repeat (match goal with |- context [tdec ?s] => destruct (tdec s) as [[? ?]|] eqn:?; [|done] end).
  repeat match goal with Hd : tdec _ = Some _ |- _ => apply tdec_inv in Hd end. subst.
  match goal with |- match ?l with _ => _ end = _ -> _ => destruct l; [|done] end. intros [= <- <- <- <-]. by rewrite app_nil_r.
Qed.

Lemma seal4_inj k n p a k' n' p' a' : seal4 k n p a = seal4 k' n' p' a' -> (k, n, p, a) = (k', n', p', a').
Proof. intros Hs. apply (f_equal parse4) in Hs. rewrite !parse4_seal4 in Hs. by injection Hs as -> -> -> ->. Qed.

Lemma open4_seal4 k n no p a : no = Some n \/ no = None -> open4 k no (seal4 k n p a) a = Some p.
Proof. intros Hn. unfold open4. rewrite parse4_seal4. destruct Hn as [-> | ->]; by rewrite !bool_decide_eq_true_2. Qed.

Lemma open4_inv k no c a p : open4 k no c a = Some p -> exists n, (no = None \/ no = Some n) /\ c = seal4 k n p a.
Proof.
  unfold open4. destruct (parse4 c) as [[[[k' n'] p'] a']|] eqn:Hc; [|done]. apply parse4_inv in Hc as ->.
  destruct (bool_decide (k' = k)) eqn:H1, (bool_decide (a' = a)) eqn:H2; try done. apply bool_decide_eq_true in H1, H2. subst.
  destruct no as [n|]; cbn; [case_bool_decide as Hn; [|done]; subst|]; intros [= <-]; eauto.
Qed.

#[local] Instance toy_laws : CryptoLaws.
Proof.
  assert (Hx : forall a b : list byte, length b = 32%nat -> ecdh a (PublicKey KeyEnvelopeSuiteP256 b) = Some (be_put 32 (be_get a + be_get b))).
  { intros a b Hb. change (Some (be_put 32 (be_get a + be_get (take 32 (b ++ b)))) = Some (be_put 32 (be_get a + be_get b))).
    by rewrite take_app_length' by lia. }
  split.
  - intros b. apply length_be_put.
  - intros k n p a. apply open4_seal4. by left.
  - intros k r p a. apply open4_seal4. by right.
  - done.
  - intros r. cbn. by rewrite length_be_put.
  - intros a b Ha%Z.eqb_eq Hb%Z.eqb_eq. rewrite !Hx by lia. do 2 f_equal. lia.
  - intros k r i a p e c _ [= <- <-]. apply open4_seal4. by left.
Qed.

#[local] Instance toy_ideal : IdealAEAD.
Proof.
  split; cbn.
  - intros k n c a p (n' & [Hn|Hn] & ->)%open4_inv; [done|]. by injection Hn as ->.
  - intros k n p a n' p' a' He%seal4_inj. by injection He as -> -> ->.
  - intros k c a p (n & _ & ->)%open4_inv. by exists n.
  - intros k r p a r' p' a' He%seal4_inj. by injection He as _ -> ->.
Qed.

Definition demo_key (b : byte) : list byte := replicate 32 b.
Definition demo_identity : E2EIdentity := MkIdentity 0 [] [] (demo_key x07).
Definition demo_recipient (b : byte) : E2ERecipient := MkRecipient "" "" 0 [] (demo_key b).
Definition demo_config : E2EPayloadCryptoConfig := MkConfig "ws" "p" "s" 0 [] [] [x01] 0 [demo_recipient x05; demo_recipient x07].
Definition demo_client_cipher :=
  newE2EClientPayloadCipher false (fun _ => "id") (fun _ _ _ _ => []) (replicate 100 x09) [] demo_config.

Lemma e2e_channel_witness :
  exists c s e c', demo_client_cipher = Ok c /\
    newE2EServerPayloadCipher false (replicate 20 x01) (Some (sessionKeyGrant c)) demo_identity = Ok s /\
    encrypt c "stdin" [] (s2b "ls") = Ok (e, c') /\ decrypt s "stdin" (Some e) = Ok (s2b "ls").
Proof.
  destruct demo_client_cipher as [c|] eqn:Hc; [|by vm_compute in Hc].
  destruct (e2e_channel false (fun _ => "id") (fun _ _ _ _ => []) (replicate 100 x09) [] demo_config c demo_identity
    (E2EKeyID (demo_key x07)) (demo_key x07) [demo_recipient x05] (demo_recipient x07) [] (replicate 20 x01) Hc) as (s & Hs & Hrt).
  - reflexivity.
  - vm_compute in Hc. injection Hc as <-. vm_compute. reflexivity.
  - vm_compute in Hc. injection Hc as <-. vm_compute. reflexivity.
  - vm_compute. reflexivity.
  - apply (bool_decide_unpack _). vm_compute. exact I.
  - destruct (Hrt "stdin" [] (s2b "ls")) as [Hrt1 _]; [vm_compute; reflexivity|].
    destruct Hrt1 as (e & c' & He & Hd); [vm_compute in Hc; injection Hc as <-; cbn; lia|]. by exists c, s, e, c'.
Defined.

Lemma e2e_binding_witness :
  exists c e c', demo_client_cipher = Ok c /\ encrypt c "stdin" [] (s2b "ls") = Ok (e, c') /\
    ~ exists p', decrypt c "stdout" (Some e) = Ok p'.
Proof.
  destruct demo_client_cipher as [c|] eqn:Hc; [|by vm_compute in Hc].
  destruct (encrypt c "stdin" [] (s2b "ls")) as [[e c']|] eqn:He; [|vm_compute in Hc; injection Hc as <-; by vm_compute in He].
  exists c, e, c'. split_and!; [done..|]. intros [p' Hp'].
  destruct (e2e_binding c c "stdin" "stdout" [] (s2b "ls") p' e e c') as (Hst & _); [by split_and!| |exact He| |done|exact Hp'|done].
  - vm_compute in Hc. injection Hc as <-. repeat constructor; vm_compute; reflexivity.
  - vm_compute in Hc. injection Hc as <-. vm_compute in He. injection He as <- <-. cbn. lia.
Defined.
