(* ===== verification/WebttyAuth.v ===== *)
(** * WebttyAuth: the authenticated handshake of WebTTY
    ([webtty/auth_handshake.go], [auth_proof.go], [endpoint_identity.go])

    A server with an endpoint identity opens with a signed hello that carries a fresh
    nonce; a client checks it against the identity it expects and answers with a proof, a
    signed transcript of the session, the nonce, the command and the session keys it asks
    for; the server checks the proof and that its key is authorised.

    ECDSA, its key formats, RFC 3339 times and the protobuf encodings are the operations
    of [Signing]; SHA-256 is that of [Crypto].  A signature is verified against a key and a
    hash; [history] is what the holders of honest keys signed. *)

From S2P Require Import Prelude GoStrings Transcript WebttyCrypto.

(** ** Primitives *)

Class Signing := {
  Config : Type;                                                         (* [pb.Config] *)
  sign : list byte -> list byte -> list byte -> option (list byte);      (* private key, randomness, hash *)
  verify : list byte -> list byte -> list byte -> bool;                  (* public key, hash, signature *)
  parse_private : list byte -> bool;
  parse_public : list byte -> bool;
  signing_public : list byte -> list byte;
  marshal_config : option Config -> option (list byte);
  marshal_grant : option SessionKeyGrant -> option (list byte);
  parse_time : string -> option Z;                                       (* nanoseconds *)
  format_time : Z -> string;
}.

Definition second : Z := 1000000000.

(** The seconds RFC 3339 writes: the years 1970 to 9999. *)
Definition rfc3339_seconds : Z := 253402300800.

Class SigningLaws `{Signing} : Prop := {
  law_sign : forall k r h, parse_private k = true -> is_Some (sign k r h);
  law_verify : forall k r h s, parse_private k = true -> sign k r h = Some s -> verify (signing_public k) h s = true;
  law_signing_public : forall k, parse_private k = true -> parse_public (signing_public k) = true;
  law_public_empty : parse_public [] = false;
  law_time : forall n, 0 <= n < rfc3339_seconds -> parse_time (format_time (n * second)) = Some (n * second);
}.

(** ** Identities *)

Record WebTTYSigningIdentity := MkSigning { si_KeyID : list byte; si_PublicKey : list byte; si_PrivateKey : list byte }.
Record WebTTYEndpointIdentity := MkEndpoint { ei_Encryption : E2EIdentity; ei_Signing : WebTTYSigningIdentity }.

Record WebTTYEndpointIdentityPublic := MkEndpointPublic {
  ep_KeyEnvelopeSuite : Z; ep_EncryptionKeyID : list byte; ep_EncryptionPublicKey : list byte;
  ep_SigningKeyID : list byte; ep_SigningPublicKey : list byte }.

(** [pb.EndpointIdentity]. *)
Record EndpointIdentityPb := MkEndpointPb {
  pe_SigningKeyId : list byte; pe_SigningPublicKey : list byte; pe_SignatureSuite : Z;
  pe_EncryptionKeyId : list byte; pe_EncryptionPublicKey : list byte; pe_KeyEnvelopeSuite : Z }.

Record ServerProof := MkServerProof {
  sp_SignatureSuite : Z; sp_SigningKeyId : list byte; sp_TranscriptHash : list byte; sp_Signature : list byte }.

Record ServerHello := MkHello {
  sh_ProtocolVersion : Z; sh_SessionNonce : list byte; sh_ServerIdentity : option EndpointIdentityPb;
  sh_PayloadSuites : list Z; sh_KeyEnvelopeSuites : list Z; sh_SignatureSuites : list Z; sh_AuthRequirement : Z;
  sh_WorkspaceId : option string; sh_ProjectId : option string; sh_ServerId : option string; sh_SessionId : string;
  sh_ServerProof : option ServerProof }.

Record ClientProof := MkClientProof {
  cp_PrincipalId : option string; cp_SigningKeyId : list byte; cp_SigningPublicKey : list byte; cp_SignatureSuite : Z;
  cp_TranscriptHash : list byte; cp_Signature : list byte; cp_IssuedAt : string; cp_ExpiresAt : string;
  cp_DeviceId : option string; cp_BrowserId : option string; cp_Credential : option (list byte) }.

Definition ProtocolVersionWebTTY1 : Z := 1.
Definition SignatureSuiteECDSAP256SHA256 : Z := 1.
Definition AuthRequirementNone : Z := 1.
Definition AuthRequirementClientProof : Z := 2.
Definition WebTTYSigningKeyIDSize : Z := 32.
Definition webTTYSigningKeyIDDomain : string := "rstream-webtty-signing-key-id-v1".
Definition webTTYProofTTL : Z := 30 * second.

Inductive proof_reason :=
| RSignatureSuite | RSuites (e : e2e_error) | RKeyID | RKeyMismatch | RTime | RExpired | RNotYet | RLifetime | RMarshal
| RTranscript | RSignature | RAuthorizedKey.

Inductive auth_error :=
| ProofRequired                       (* errWebTTYClientProofRequired *)
| ProofInvalid (r : proof_reason)     (* errWebTTYClientProofInvalid *)
| ProofUnauthorized                   (* errWebTTYClientProofUnauthorized *)
| IdentityRequired
| AuthorizerFailed
| SessionClosed
| HelloRequired | HelloIdentity | HelloVersion | HelloSuite | HelloMismatch | HelloProof
| SuiteError (e : e2e_error)
| KeyError
| MarshalError
| NoClientIdentity | NoExpectedIdentity | NoAttachConfig | NoAttachMessage.

(** ** Small conversions *)

Definition webTTYStringValue (value : string) : option string :=
  let value := TrimSpace value in if bool_decide (value = "") then None else Some value.

Definition webTTYStringValueText (value : option string) : string := default "" value.

Definition webTTYBytesValue (value : list byte) : option (list byte) := if blen value =? 0 then None else Some value.

Definition webTTYBytesValueBytes (value : option (list byte)) : list byte := default [] value.

(** [base64.RawURLEncoding]. *)
Definition base64_char (z : Z) : byte :=
  if z <? 26 then z2b (65 + z) else if z <? 52 then z2b (71 + z) else if z <? 62 then z2b (z - 4) else if z =? 62 then x2d else x5f.

Fixpoint base64_groups (l : list byte) : list byte :=
  match l with
  | a :: b :: c :: r =>
      let n := b2z a * 65536 + b2z b * 256 + b2z c in
      base64_char (n / 262144) :: base64_char (n / 4096 mod 64) :: base64_char (n / 64 mod 64) :: base64_char (n mod 64) :: base64_groups r
  | [a; b] => let n := b2z a * 1024 + b2z b * 4 in [base64_char (n / 4096); base64_char (n / 64 mod 64); base64_char (n mod 64)]
  | [a] => let n := b2z a * 16 in [base64_char (n / 64); base64_char (n mod 64)]
  | [] => []
  end.

Definition EncodeE2EKeyMaterial (value : list byte) : string := b2s (base64_groups value).

Example base64_hello : EncodeE2EKeyMaterial (s2b "hello?>") = "aGVsbG8_Pg".
Proof. reflexivity. Qed.

Section WebttyAuth.
Context `{Crypto} `{Signing} (fips : bool).

Definition WebTTYSigningKeyID (publicKeyDER : list byte) : list byte := sha256 (s2b webTTYSigningKeyIDDomain ++ publicKeyDER).

Definition Public (identity : WebTTYEndpointIdentity) : WebTTYEndpointIdentityPublic :=
  let e := ei_Encryption identity in
  let suite := if id_KeyEnvelopeSuite e =? 0 then defaultE2EKeyEnvelopeSuite fips else id_KeyEnvelopeSuite e in
  MkEndpointPublic suite (id_KeyID e) (id_PublicKey e) (si_KeyID (ei_Signing identity)) (si_PublicKey (ei_Signing identity)).

Definition endpointIdentityPublicToProto (identity : WebTTYEndpointIdentityPublic) : EndpointIdentityPb :=
  let suite := if ep_KeyEnvelopeSuite identity =? 0
               then match inferE2EKeyEnvelopeSuite fips (ep_EncryptionPublicKey identity) with Ok s => s | Err _ => 0 end
               else ep_KeyEnvelopeSuite identity in
  MkEndpointPb (ep_SigningKeyID identity) (ep_SigningPublicKey identity) SignatureSuiteECDSAP256SHA256
    (ep_EncryptionKeyID identity) (ep_EncryptionPublicKey identity) suite.

Definition webTTYPublicIdentityKeyEnvelopeSuite (identity : WebTTYEndpointIdentityPublic) : result e2e_error Z :=
  let? suite := (if ep_KeyEnvelopeSuite identity =? 0 then inferE2EKeyEnvelopeSuite fips (ep_EncryptionPublicKey identity)
                 else Ok (ep_KeyEnvelopeSuite identity)) in
  let? _ := validateProfileKeyEnvelopeSuite fips suite in
  Ok suite.

(** The payload and key envelope suites of a proof. *)
Definition webTTYProofSuites (grant : option SessionKeyGrant) (fallback : Z) : result e2e_error (Z * Z) :=
  let? payloadSuite := e2ePayloadSuiteForKeyEnvelopeSuite fips fallback in
  match grant with
  | None => Ok (payloadSuite, fallback)
  | Some g =>
      let? _ := validateE2ESuites fips (sg_PayloadSuite g) (sg_KeyEnvelopeSuite g) in
      Ok (sg_PayloadSuite g, sg_KeyEnvelopeSuite g)
  end.

(** ** Hashes, signatures *)

Definition client_hash (t : ClientProofTranscript) : list byte := sha256 (client_CanonicalBytes t).
Definition server_hash (t : ServerProofTranscript) : list byte := sha256 (server_CanonicalBytes t).

Definition HashWebTTYConfig (config : option Config) : option (list byte) := sha256 <$> marshal_config config.
Definition HashWebTTYSessionKeyGrant (grant : option SessionKeyGrant) : option (list byte) := sha256 <$> marshal_grant grant.
Definition HashWebTTYClientCredential (credential : list byte) : list byte := sha256 credential.

(** [ParseWebTTYSigningPrivateKey] and [signWebTTYProofTranscript]. *)
Definition signWebTTYProofTranscript (rnd privateKey hash : list byte) : result auth_error (list byte * list byte) :=
  if negb (parse_private privateKey) then Err KeyError
  else if negb (blen hash =? 32) then Err KeyError
  else match sign privateKey rnd hash with Some s => Ok (hash, s) | None => Err KeyError end.

Definition verifyWebTTYProofTranscript (publicKeyDER hash signature : list byte) : bool :=
  (blen hash =? 32) && parse_public publicKeyDER && verify publicKeyDER hash signature.

(** ** The server *)

(** What of [ServerConfig] the handshake uses. *)
Record ServerConfig := MkServerConfig {
  sc_EndpointIdentity : option WebTTYEndpointIdentity;
  sc_RequireClientProof : option bool;
  sc_AuthorizedClientSigningKeys : gmap string (list byte);
  sc_AuthorizedClientSigningKey : option (list byte -> option (list byte));              (* [None]: an error *)
  sc_ClientProofVerifier : option (ClientProof -> list byte -> ClientProofTranscript -> option (list byte));
  sc_WorkspaceID : string; sc_ProjectID : string; sc_ServerID : string;
}.

(** What of [session] it uses. *)
Record auth_session := MkAuthSession {
  as_sessionID : string; as_transport : string; as_closed : bool; as_serverNonce : list byte; as_serverKeyID : string;
  as_clientKeyID : string; as_clientPrincipal : string; as_clientDeviceID : string; as_clientBrowserID : string;
}.

Definition proofRequired (cfg : ServerConfig) : bool := default false (sc_RequireClientProof cfg).

Definition webTTYAuthRequirement (cfg : ServerConfig) : Z :=
  if proofRequired cfg then AuthRequirementClientProof else AuthRequirementNone.

Definition server_transcript (s : auth_session) (cfg : ServerConfig) (identity : WebTTYEndpointIdentityPublic) (nonce : list byte)
  (payloadSuite keyEnvelopeSuite : Z) : ServerProofTranscript :=
  MkServerTranscript ProtocolVersionWebTTY1 (as_transport s) (TrimSpace (sc_WorkspaceID cfg)) (TrimSpace (sc_ProjectID cfg))
    (TrimSpace (sc_ServerID cfg)) (as_sessionID s) (ep_SigningKeyID identity) (ep_EncryptionKeyID identity) nonce
    (webTTYAuthRequirement cfg) [payloadSuite] [keyEnvelopeSuite] [SignatureSuiteECDSAP256SHA256].

(** [sendServerHelloIfConfigured] up to its signature: the session, the suites, and the
    transcript; [nonce] are the random bytes. *)
Definition hello_signs (nonce : list byte) (cfg : ServerConfig) (s : auth_session)
  : result auth_error (option (WebTTYEndpointIdentity * auth_session * (Z * Z) * ServerProofTranscript)) :=
  match sc_EndpointIdentity cfg with
  | None => Ok None
  | Some endpoint =>
      let identity := Public endpoint in
      match webTTYPublicIdentityKeyEnvelopeSuite identity with
      | Err e => Err (SuiteError e)
      | Ok keyEnvelopeSuite =>
          match e2ePayloadSuiteForKeyEnvelopeSuite fips keyEnvelopeSuite with
          | Err e => Err (SuiteError e)
          | Ok payloadSuite =>
              if as_closed s then Err SessionClosed
              else
                let s := {| s with as_serverNonce := nonce; as_serverKeyID := EncodeE2EKeyMaterial (ep_SigningKeyID identity) |} in
                Ok (Some (endpoint, s, (payloadSuite, keyEnvelopeSuite),
                          server_transcript s cfg identity nonce payloadSuite keyEnvelopeSuite))
          end
      end
  end.

Definition hello_message (nonce : list byte) (cfg : ServerConfig) (s : auth_session) (identity : WebTTYEndpointIdentityPublic)
  (payloadSuite keyEnvelopeSuite : Z) (hash signature : list byte) : ServerHello :=
  MkHello ProtocolVersionWebTTY1 nonce (Some (endpointIdentityPublicToProto identity)) [payloadSuite] [keyEnvelopeSuite]
    [SignatureSuiteECDSAP256SHA256] (webTTYAuthRequirement cfg) (webTTYStringValue (TrimSpace (sc_WorkspaceID cfg)))
    (webTTYStringValue (TrimSpace (sc_ProjectID cfg))) (webTTYStringValue (TrimSpace (sc_ServerID cfg))) (as_sessionID s)
    (Some (MkServerProof SignatureSuiteECDSAP256SHA256 (ep_SigningKeyID identity) hash signature)).

(** [sendServerHelloIfConfigured] up to the write: the session and the hello. *)
Definition sendServerHello (rnd nonce : list byte) (cfg : ServerConfig) (s : auth_session)
  : result auth_error (auth_session * option ServerHello) :=
  let? signs := hello_signs nonce cfg s in
  match signs with
  | None => Ok (s, None)
  | Some (endpoint, s, (payloadSuite, keyEnvelopeSuite), transcript) =>
      let identity := Public endpoint in
      let? (hash, signature) :=
        signWebTTYProofTranscript rnd (si_PrivateKey (ei_Signing endpoint)) (server_hash transcript) in
      Ok (s, Some (hello_message nonce cfg s identity payloadSuite keyEnvelopeSuite hash signature))
  end.

(** What an [Open] message carries. *)
Record Open := MkOpen { op_Config : option Config; op_SessionKeyGrant : option SessionKeyGrant; op_ClientProof : option ClientProof }.

Definition validateClientProofTimeWindow (proof : ClientProof) (now : Z) : result proof_reason unit :=
  match parse_time (cp_IssuedAt proof) with
  | None => Err RTime
  | Some issuedAt =>
      match parse_time (cp_ExpiresAt proof) with
      | None => Err RTime
      | Some expiresAt =>
          if expiresAt <? now then Err RExpired
          else if issuedAt >? now + 5 * second then Err RNotYet
          else if expiresAt - issuedAt >? webTTYProofTTL then Err RLifetime
          else Ok tt
      end
  end.

(** The key the server trusts under the identifier of a proof. *)
Definition authorized_key (cfg : ServerConfig) (proof : ClientProof) (credential : list byte) (t : ClientProofTranscript)
  : result auth_error (list byte) :=
  match sc_ClientProofVerifier cfg with
  | Some verifier => match verifier proof credential t with Some k => Ok k | None => Err AuthorizerFailed end
  | None =>
      let key := default [] (sc_AuthorizedClientSigningKeys cfg !! b2s (cp_SigningKeyId proof)) in
      if blen key =? 0 then
        match sc_AuthorizedClientSigningKey cfg with
        | Some resolve => match resolve (cp_SigningKeyId proof) with Some k => Ok k | None => Err AuthorizerFailed end
        | None => Ok key
        end
      else Ok key
  end.

(** The transcript the server expects the client to have signed. *)
Definition expected_transcript (cfg : ServerConfig) (s : auth_session) (identity : WebTTYEndpointIdentityPublic) (proof : ClientProof)
  (payloadSuite keyEnvelopeSuite : Z) (grantHash configHash : list byte) : ClientProofTranscript :=
  MkClientTranscript ProtocolVersionWebTTY1 (as_transport s) (sc_WorkspaceID cfg) (sc_ProjectID cfg) (sc_ServerID cfg) (as_sessionID s)
    (ep_SigningKeyID identity) (ep_EncryptionKeyID identity) (as_serverNonce s) AuthRequirementClientProof payloadSuite keyEnvelopeSuite
    grantHash configHash [] "" (webTTYStringValueText (cp_PrincipalId proof)) (cp_SigningKeyId proof)
    (HashWebTTYClientCredential (webTTYBytesValueBytes (cp_Credential proof))) (cp_IssuedAt proof) (cp_ExpiresAt proof).

Definition verifyClientProof (now : Z) (cfg : ServerConfig) (openCfg : option Open) (s : auth_session) : result auth_error auth_session :=
  if negb (proofRequired cfg) then Ok s
  else match match openCfg with Some o => match op_ClientProof o with Some p => Some (o, p) | None => None end | None => None end with
  | None => Err ProofRequired
  | Some (openCfg, proof) =>
      match sc_EndpointIdentity cfg with
      | None => Err IdentityRequired
      | Some endpoint =>
          let serverIdentity := Public endpoint in
          if negb (cp_SignatureSuite proof =? SignatureSuiteECDSAP256SHA256) then Err (ProofInvalid RSignatureSuite)
          else match webTTYPublicIdentityKeyEnvelopeSuite serverIdentity with
          | Err e => Err (ProofInvalid (RSuites e))
          | Ok serverSuite =>
              match webTTYProofSuites (op_SessionKeyGrant openCfg) serverSuite with
              | Err e => Err (ProofInvalid (RSuites e))
              | Ok (payloadSuite, keyEnvelopeSuite) =>
                  if negb (blen (cp_SigningKeyId proof) =? WebTTYSigningKeyIDSize) then Err (ProofInvalid RKeyID)
                  else if negb (bool_decide (cp_SigningKeyId proof = WebTTYSigningKeyID (cp_SigningPublicKey proof))) then Err (ProofInvalid RKeyMismatch)
                  else match validateClientProofTimeWindow proof now with
                  | Err r => Err (ProofInvalid r)
                  | Ok _ =>
                      match HashWebTTYSessionKeyGrant (op_SessionKeyGrant openCfg), HashWebTTYConfig (op_Config openCfg) with
                      | Some grantHash, Some configHash =>
                          let transcript := expected_transcript cfg s serverIdentity proof payloadSuite keyEnvelopeSuite grantHash configHash in
                          if negb (bool_decide (cp_TranscriptHash proof = client_hash transcript)) then Err (ProofInvalid RTranscript)
                          else if negb (verifyWebTTYProofTranscript (cp_SigningPublicKey proof) (client_hash transcript) (cp_Signature proof))
                          then Err (ProofInvalid RSignature)
                          else
                            let? key := authorized_key cfg proof (webTTYBytesValueBytes (cp_Credential proof)) transcript in
                            if blen key =? 0 then Err ProofUnauthorized
                            else if negb (bool_decide (key = cp_SigningPublicKey proof)) then Err (ProofInvalid RAuthorizedKey)
                            else if as_closed s then Err SessionClosed
                            else Ok {| s with as_clientKeyID := EncodeE2EKeyMaterial (cp_SigningKeyId proof);
                                              as_clientPrincipal := TrimSpace (webTTYStringValueText (cp_PrincipalId proof));
                                              as_clientDeviceID := TrimSpace (webTTYStringValueText (cp_DeviceId proof));
                                              as_clientBrowserID := TrimSpace (webTTYStringValueText (cp_BrowserId proof)) |}
                      | _, _ => Err (ProofInvalid RMarshal)
                      end
                  end
              end
          end
      end
  end.

(** ** The client *)

(** What of [AttachConfig] it uses. *)
Record AttachConfig := MkAttachConfig { ac_WorkspaceID : string; ac_ProjectID : string; ac_ServerID : string }.

Record ClientConfig := MkClientConfig {
  cc_ExpectedServerIdentity : option WebTTYEndpointIdentityPublic;
  cc_EndpointIdentity : option WebTTYEndpointIdentity;
  cc_ClientPrincipalID : string; cc_ClientDeviceID : string; cc_ClientBrowserID : string; cc_ClientCredential : list byte;
  cc_Attach : option AttachConfig;
}.

Definition webTTYAuthRequirementFromProto (value : Z) : Z :=
  if value =? AuthRequirementClientProof then AuthRequirementClientProof else AuthRequirementNone.

Definition validateWebTTYServerHelloCrypto (hello : ServerHello) : result auth_error unit :=
  if negb (sh_ProtocolVersion hello =? ProtocolVersionWebTTY1) then Err HelloVersion
  else match sh_ServerIdentity hello with
  | None => Err HelloIdentity
  | Some identity =>
      let suite := pe_KeyEnvelopeSuite identity in
      match validateProfileKeyEnvelopeSuite fips suite with
      | Err _ => Err HelloSuite
      | Ok _ =>
          match e2ePayloadSuiteForKeyEnvelopeSuite fips suite with
          | Err e => Err (SuiteError e)
          | Ok payloadSuite =>
              if negb (bool_decide (sh_PayloadSuites hello = [payloadSuite])) then Err HelloSuite
              else if negb (bool_decide (sh_KeyEnvelopeSuites hello = [suite])) then Err HelloSuite
              else if negb (bool_decide (sh_SignatureSuites hello = [SignatureSuiteECDSAP256SHA256])) then Err HelloSuite
              else match sh_ServerProof hello with
                   | None => Err HelloProof
                   | Some p => if sp_SignatureSuite p =? SignatureSuiteECDSAP256SHA256 then Ok tt else Err HelloProof
                   end
          end
      end
  end.

Definition hello_transcript (hello : ServerHello) (actual : EndpointIdentityPb) (transport : string) : ServerProofTranscript :=
  MkServerTranscript ProtocolVersionWebTTY1 transport (webTTYStringValueText (sh_WorkspaceId hello))
    (webTTYStringValueText (sh_ProjectId hello)) (webTTYStringValueText (sh_ServerId hello)) (sh_SessionId hello)
    (pe_SigningKeyId actual) (pe_EncryptionKeyId actual) (sh_SessionNonce hello)
    (webTTYAuthRequirementFromProto (sh_AuthRequirement hello)) (sh_PayloadSuites hello) (sh_KeyEnvelopeSuites hello) (sh_SignatureSuites hello).

Definition verifyServerHello (cfg : ClientConfig) (hello : option ServerHello) (transport : string) : result auth_error unit :=
  match cc_ExpectedServerIdentity cfg with
  | None => Ok tt
  | Some expected =>
      match hello with
      | None => Err HelloRequired
      | Some hello =>
          match sh_ServerIdentity hello with
          | None => Err HelloIdentity
          | Some actual =>
              let? _ := validateWebTTYServerHelloCrypto hello in
              match webTTYPublicIdentityKeyEnvelopeSuite expected with
              | Err e => Err (SuiteError e)
              | Ok expectedSuite =>
                  if negb (bool_decide (pe_SigningKeyId actual = ep_SigningKeyID expected)) ||
                     negb (bool_decide (pe_SigningPublicKey actual = ep_SigningPublicKey expected)) ||
                     negb (bool_decide (pe_EncryptionKeyId actual = ep_EncryptionKeyID expected)) ||
                     negb (bool_decide (pe_EncryptionPublicKey actual = ep_EncryptionPublicKey expected)) then Err HelloMismatch
                  else if negb (pe_KeyEnvelopeSuite actual =? expectedSuite) then Err HelloMismatch
                  else match sh_ServerProof hello with
                  | None => Err HelloProof
                  | Some proof =>
                      let transcript := hello_transcript hello actual transport in
                      if negb (bool_decide (sp_TranscriptHash proof = server_hash transcript)) then Err HelloProof
                      else if negb (verifyWebTTYProofTranscript (pe_SigningPublicKey actual) (server_hash transcript) (sp_Signature proof))
                      then Err HelloProof else Ok tt
                  end
              end
          end
      end
  end.

Definition open_transcript (cfg : ClientConfig) (hello : ServerHello) (identity : EndpointIdentityPb) (endpoint : WebTTYEndpointIdentity)
  (transport : string) (payloadSuite keyEnvelopeSuite : Z) (grantHash configHash : list byte) (issuedAt expiresAt : Z) : ClientProofTranscript :=
  MkClientTranscript ProtocolVersionWebTTY1 transport (webTTYStringValueText (sh_WorkspaceId hello))
    (webTTYStringValueText (sh_ProjectId hello)) (webTTYStringValueText (sh_ServerId hello)) (sh_SessionId hello)
    (pe_SigningKeyId identity) (pe_EncryptionKeyId identity) (sh_SessionNonce hello) AuthRequirementClientProof payloadSuite keyEnvelopeSuite
    grantHash configHash [] "" (TrimSpace (cc_ClientPrincipalID cfg)) (si_KeyID (ei_Signing endpoint))
    (HashWebTTYClientCredential (cc_ClientCredential cfg)) (format_time issuedAt) (format_time expiresAt).

(** A signed proof, the end of [clientProofForOpen] and of [clientProofForAttach]. *)
Definition client_proof (rnd : list byte) (cfg : ClientConfig) (endpoint : WebTTYEndpointIdentity) (transcript : ClientProofTranscript)
  : result auth_error (option ClientProof) :=
  let? (hash, signature) := signWebTTYProofTranscript rnd (si_PrivateKey (ei_Signing endpoint)) (client_hash transcript) in
  Ok (Some (MkClientProof (webTTYStringValue (TrimSpace (cc_ClientPrincipalID cfg))) (si_KeyID (ei_Signing endpoint))
              (si_PublicKey (ei_Signing endpoint)) SignatureSuiteECDSAP256SHA256 hash signature
              (ct_IssuedAt transcript) (ct_ExpiresAt transcript) (webTTYStringValue (cc_ClientDeviceID cfg))
              (webTTYStringValue (cc_ClientBrowserID cfg)) (webTTYBytesValue (cc_ClientCredential cfg)))).

(** [clientProofForOpen] up to its signature; [issuedAt] is the current time in whole
    seconds. *)
Definition open_signs (issuedAt : Z) (cfg : ClientConfig) (openCfg : Open) (hello : option ServerHello) (transport : string)
  : result auth_error (option (WebTTYEndpointIdentity * ClientProofTranscript)) :=
  match hello with
  | None => Ok None
  | Some hello =>
      if negb (sh_AuthRequirement hello =? AuthRequirementClientProof) then Ok None
      else match cc_EndpointIdentity cfg with
      | None => Err NoClientIdentity
      | Some endpoint =>
          match cc_ExpectedServerIdentity cfg with
          | None => Err NoExpectedIdentity
          | Some _ =>
              match sh_ServerIdentity hello with
              | None => Err HelloIdentity
              | Some identity =>
                  match webTTYProofSuites (op_SessionKeyGrant openCfg) (pe_KeyEnvelopeSuite identity) with
                  | Err e => Err (SuiteError e)
                  | Ok (payloadSuite, keyEnvelopeSuite) =>
                      match HashWebTTYSessionKeyGrant (op_SessionKeyGrant openCfg), HashWebTTYConfig (op_Config openCfg) with
                      | Some grantHash, Some configHash =>
                          Ok (Some (endpoint, open_transcript cfg hello identity endpoint transport payloadSuite keyEnvelopeSuite
                                                grantHash configHash issuedAt (issuedAt + webTTYProofTTL)))
                      | _, _ => Err MarshalError
                      end
                  end
              end
          end
      end
  end.

Definition clientProofForOpen (rnd : list byte) (issuedAt : Z) (cfg : ClientConfig) (openCfg : Open) (hello : option ServerHello)
  (transport : string) : result auth_error (option ClientProof) :=
  let? signs := open_signs issuedAt cfg openCfg hello transport in
  match signs with None => Ok None | Some (endpoint, transcript) => client_proof rnd cfg endpoint transcript end.

(** *** Attaching to a session *)

(** What of a [pb.Attach] message the proof uses. *)
Record Attach := MkAttach { at_SessionId : string; at_AttachGrant : list byte; at_RequestedRole : Z }.

(** [AttachRole_ATTACH_ROLE_UNSPECIFIED], [_SPECTATOR] and [_CONTROLLER] are 0, 1 and 2; an
    unknown value prints as its number. *)
Definition attachRoleTranscriptValue (role : Z) : string :=
  if role =? 2 then "controller" else if (role =? 1) || (role =? 0) then "spectator" else TrimSpace (Itoa role).

Definition HashWebTTYAttachGrant (grant : list byte) : list byte := sha256 grant.

Definition attach_transcript (cfg : ClientConfig) (attach : AttachConfig) (a : Attach) (endpoint : WebTTYEndpointIdentity)
  (transport : string) (payloadSuite keyEnvelopeSuite issuedAt expiresAt : Z) : ClientProofTranscript :=
  MkClientTranscript ProtocolVersionWebTTY1 transport (TrimSpace (ac_WorkspaceID attach)) (TrimSpace (ac_ProjectID attach))
    (TrimSpace (ac_ServerID attach)) (TrimSpace (at_SessionId a)) [] [] [] AuthRequirementClientProof payloadSuite keyEnvelopeSuite
    [] [] (HashWebTTYAttachGrant (at_AttachGrant a)) (attachRoleTranscriptValue (at_RequestedRole a))
    (TrimSpace (cc_ClientPrincipalID cfg)) (si_KeyID (ei_Signing endpoint))
    (HashWebTTYClientCredential (cc_ClientCredential cfg)) (format_time issuedAt) (format_time expiresAt).

(** [clientProofForAttach] up to its signature. *)
Definition attach_signs (issuedAt : Z) (cfg : ClientConfig) (attachCfg : option Attach) (transport : string)
  : result auth_error (option (WebTTYEndpointIdentity * ClientProofTranscript)) :=
  match cc_EndpointIdentity cfg with
  | None => if 0 <? blen (cc_ClientCredential cfg) then Err NoClientIdentity else Ok None
  | Some endpoint =>
      match cc_Attach cfg with
      | None => Err NoAttachConfig
      | Some attach =>
          match attachCfg with
          | None => Err NoAttachMessage
          | Some a =>
              let suite := id_KeyEnvelopeSuite (ei_Encryption endpoint) in
              let keyEnvelopeSuite := if suite =? 0 then defaultE2EKeyEnvelopeSuite fips else suite in
              match e2ePayloadSuiteForKeyEnvelopeSuite fips keyEnvelopeSuite with
              | Err e => Err (SuiteError e)
              | Ok payloadSuite =>
                  Ok (Some (endpoint, attach_transcript cfg attach a endpoint transport payloadSuite keyEnvelopeSuite
                                        issuedAt (issuedAt + webTTYProofTTL)))
              end
          end
      end
  end.

Definition clientProofForAttach (rnd : list byte) (issuedAt : Z) (cfg : ClientConfig) (attachCfg : option Attach) (transport : string)
  : result auth_error (option ClientProof) :=
  let? signs := attach_signs issuedAt cfg attachCfg transport in
  match signs with None => Ok None | Some (endpoint, transcript) => client_proof rnd cfg endpoint transcript end.
End WebttyAuth.

(** ** An honest handshake completes *)

Section Completeness.
Context `{Crypto} `{Signing} `{!CryptoLaws} `{!SigningLaws} (fips : bool).

(** An identity as [validateWebTTYSigningIdentity] accepts it. *)
Definition signing_valid (i : WebTTYSigningIdentity) : Prop :=
  parse_private (si_PrivateKey i) = true /\ si_PublicKey i = signing_public (si_PrivateKey i) /\
  si_KeyID i = WebTTYSigningKeyID (si_PublicKey i).

Lemma blen_sha256 b : blen (sha256 b) = 32.
Proof. unfold blen. by rewrite law_sha256. Qed.

Lemma sign_total rnd k b : parse_private k = true -> exists s, signWebTTYProofTranscript rnd k (sha256 b) = Ok (sha256 b, s) /\
  verifyWebTTYProofTranscript (signing_public k) (sha256 b) s = true.
Proof.
  intros Hk. destruct (law_sign k rnd (sha256 b) Hk) as [s Hs]. exists s. unfold signWebTTYProofTranscript, verifyWebTTYProofTranscript.
  rewrite Hk, blen_sha256, Hs, (law_signing_public k Hk), (law_verify k rnd _ s Hk Hs). done.
Qed.

Lemma string_value_text v : TrimSpace (webTTYStringValueText (webTTYStringValue v)) = TrimSpace v.
Proof. unfold webTTYStringValue. case_bool_decide as He; cbn; [by rewrite He|apply TrimSpace_idem]. Qed.

Lemma bytes_value_bytes b : webTTYBytesValueBytes (webTTYBytesValue b) = b.
Proof. unfold webTTYBytesValue, blen. destruct (Z.eqb_spec (Z.of_nat (length b)) 0) as [Hb|Hb]; [|done]. destruct b; [done|cbn in Hb; lia]. Qed.

Lemma payload_suite_ok suite : validateProfileKeyEnvelopeSuite fips suite = Ok tt ->
  exists p, e2ePayloadSuiteForKeyEnvelopeSuite fips suite = Ok p /\ int32 p /\ int32 suite /\ suite <> 0.
Proof.
  unfold e2ePayloadSuiteForKeyEnvelopeSuite, validateProfileKeyEnvelopeSuite, KeyEnvelopeSuiteHPKEX25519, KeyEnvelopeSuiteP256.
  destruct fips; [|destruct (Z.eqb_spec suite 1) as [->|]; [intros _; exists 1; by vm_compute|]];
    (destruct (Z.eqb_spec suite 3) as [->|]; [intros _; exists 3; by vm_compute|done]).
Qed.

Lemma identity_suite_valid i suite : webTTYPublicIdentityKeyEnvelopeSuite fips i = Ok suite -> validateProfileKeyEnvelopeSuite fips suite = Ok tt.
Proof.
  unfold webTTYPublicIdentityKeyEnvelopeSuite. intros Hw. destruct (if _ =? 0 then _ else _) as [s|]; [|done]. cbn in Hw.
  destruct (validateProfileKeyEnvelopeSuite fips s) as [[]|] eqn:Hv; [|done]. cbn in Hw. by injection Hw as <-.
Qed.

Lemma identity_suite_proto i suite : webTTYPublicIdentityKeyEnvelopeSuite fips i = Ok suite ->
  pe_KeyEnvelopeSuite (endpointIdentityPublicToProto fips i) = suite.
Proof.
  unfold webTTYPublicIdentityKeyEnvelopeSuite, endpointIdentityPublicToProto. cbn [pe_KeyEnvelopeSuite]. intros Hw.
  destruct (ep_KeyEnvelopeSuite i =? 0); [destruct (inferE2EKeyEnvelopeSuite fips _) as [s|]; [|done]|]; cbn in Hw;
    (destruct (validateProfileKeyEnvelopeSuite _ _) as [[]|]; [|done]); cbn in Hw; by injection Hw as <-.
Qed.

(** The hello of a server, and that its client accepts it. *)
Lemma hello_accepted rnd nonce cfg s endpoint suite transport ccfg :
  sc_EndpointIdentity cfg = Some endpoint -> signing_valid (ei_Signing endpoint) ->
  webTTYPublicIdentityKeyEnvelopeSuite fips (Public fips endpoint) = Ok suite -> as_closed s = false ->
  cc_ExpectedServerIdentity ccfg = Some (Public fips endpoint) -> transport = as_transport s ->
  exists payload s1 hash sg, let hello := hello_message fips nonce cfg s1 (Public fips endpoint) payload suite hash sg in
    e2ePayloadSuiteForKeyEnvelopeSuite fips suite = Ok payload /\
    s1 = {| s with as_serverNonce := nonce; as_serverKeyID := EncodeE2EKeyMaterial (ep_SigningKeyID (Public fips endpoint)) |} /\
    hello_signs fips nonce cfg s = Ok (Some (endpoint, s1, (payload, suite), server_transcript s1 cfg (Public fips endpoint) nonce payload suite)) /\
    sendServerHello fips rnd nonce cfg s = Ok (s1, Some hello) /\ verifyServerHello fips ccfg (Some hello) transport = Ok tt.
Proof.
  intros Hid (Hpriv & Hpub & Hkid) Hsuite Hcl Hexp ->. pose proof (identity_suite_valid _ _ Hsuite) as Hval.
  destruct (payload_suite_ok suite Hval) as (payload & Hp & _).
  set (s1 := {| s with as_serverNonce := nonce; as_serverKeyID := EncodeE2EKeyMaterial (ep_SigningKeyID (Public fips endpoint)) |}).
  set (t := server_transcript s1 cfg (Public fips endpoint) nonce payload suite).
  assert (Hsigns : hello_signs fips nonce cfg s = Ok (Some (endpoint, s1, (payload, suite), t))).
  { unfold hello_signs. rewrite Hid. cbv zeta. rewrite Hsuite, Hp. rewrite Hcl at 1. reflexivity. }
  destruct (sign_total rnd (si_PrivateKey (ei_Signing endpoint)) (server_CanonicalBytes t) Hpriv) as (sg & Hs & Hv).
  set (actual := endpointIdentityPublicToProto fips (Public fips endpoint)).
  set (hello := hello_message fips nonce cfg s1 (Public fips endpoint) payload suite (sha256 (server_CanonicalBytes t)) sg).
  assert (Hh : server_hash (hello_transcript hello actual (as_transport s)) = sha256 (server_CanonicalBytes t)).
  { unfold server_hash. f_equal. apply server_bytes_trimmed. unfold server_trimmed, t, server_transcript, hello_transcript, hello, hello_message. cbn -[webTTYStringValueText webTTYStringValue TrimSpace webTTYAuthRequirement webTTYAuthRequirementFromProto].
    rewrite !string_value_text, !TrimSpace_idem. unfold webTTYAuthRequirement. by destruct (proofRequired cfg). }
  exists payload, s1, (sha256 (server_CanonicalBytes t)), sg. fold hello. cbv zeta. split_and!; [done..| |].
  { unfold sendServerHello. rewrite Hsigns. unfold server_hash. rewrite Hs. reflexivity. }
  unfold verifyServerHello. rewrite Hexp. change (sh_ServerIdentity hello) with (Some actual). cbv beta iota.
  assert (Hact : pe_KeyEnvelopeSuite actual = suite) by (by apply identity_suite_proto).
  assert (Hc : validateWebTTYServerHelloCrypto fips hello = Ok tt).
  { unfold validateWebTTYServerHelloCrypto. change (sh_ServerIdentity hello) with (Some actual). cbv beta iota zeta.
    rewrite Hact, Hval, Hp, !bool_decide_eq_true_2 by done. done. }
  rewrite Hc, Hsuite, Hact, Z.eqb_refl, !bool_decide_eq_true_2 by done.
  cbn [negb orb sh_ServerProof hello hello_message]. cbv zeta. rewrite Hh, bool_decide_eq_true_2 by done.
  change (pe_SigningPublicKey actual) with (si_PublicKey (ei_Signing endpoint)). rewrite Hpub. cbn [sp_Signature negb]. by rewrite Hv.
Qed.

(** The session keys of an [Open] are of a suite of the profile, and it can be encoded. *)
Definition open_valid (o : Open) (serverSuite : Z) : Prop :=
  is_Some (marshal_grant (op_SessionKeyGrant o)) /\ is_Some (marshal_config (op_Config o)) /\
  exists suites, webTTYProofSuites fips (op_SessionKeyGrant o) serverSuite = Ok suites.

Lemma time_window_ok proof n now :
  cp_IssuedAt proof = format_time (n * second) -> cp_ExpiresAt proof = format_time (n * second + webTTYProofTTL) ->
  0 <= n -> n + 30 < rfc3339_seconds ->
  (n * second - 5 * second <= now <= n * second + webTTYProofTTL -> validateClientProofTimeWindow proof now = Ok tt) /\
  (now < n * second - 5 * second \/ n * second + webTTYProofTTL < now -> exists r, validateClientProofTimeWindow proof now = Err r).
Proof.
  intros Hi He Hn Hm. unfold validateClientProofTimeWindow. rewrite Hi, He, law_time by lia.
  replace (n * second + webTTYProofTTL) with ((n + 30) * second) by (unfold webTTYProofTTL; lia). rewrite law_time by lia.
  destruct (Z.ltb_spec ((n + 30) * second) now); [split; [lia|eauto]|].
  destruct (Z.gtb_spec (n * second) (now + 5 * second)); [split; [lia|eauto]|].
  destruct (Z.gtb_spec ((n + 30) * second - n * second) webTTYProofTTL) as [Hbad|]; [unfold webTTYProofTTL in Hbad; lia|]. split; [done|lia].
Qed.

Lemma open_hashes o serverSuite : open_valid o serverSuite -> exists gh ch ps ks,
  HashWebTTYSessionKeyGrant (op_SessionKeyGrant o) = Some gh /\ HashWebTTYConfig (op_Config o) = Some ch /\
  webTTYProofSuites fips (op_SessionKeyGrant o) serverSuite = Ok (ps, ks).
Proof.
  intros ([g Hg] & [c Hc] & [[ps ks] Hs]). exists (sha256 g), (sha256 c), ps, ks.
  unfold HashWebTTYSessionKeyGrant, HashWebTTYConfig. by rewrite Hg, Hc.
Qed.

Lemma public_nonempty k : parse_private k = true -> blen (signing_public k) <> 0.
Proof.
  intros Hk%law_signing_public. unfold blen. destruct (signing_public k); [by rewrite law_public_empty in Hk|cbn; lia].
Qed.

(** What a server answers to a proof whose key, hash and signature match. *)
Lemma verify_accepts now cfg s o proof endpoint suite ps ks gh ch :
  let t := expected_transcript cfg s (Public fips endpoint) proof ps ks gh ch in
  op_ClientProof o = Some proof -> proofRequired cfg = true -> sc_EndpointIdentity cfg = Some endpoint ->
  webTTYPublicIdentityKeyEnvelopeSuite fips (Public fips endpoint) = Ok suite ->
  webTTYProofSuites fips (op_SessionKeyGrant o) suite = Ok (ps, ks) ->
  HashWebTTYSessionKeyGrant (op_SessionKeyGrant o) = Some gh -> HashWebTTYConfig (op_Config o) = Some ch ->
  cp_SignatureSuite proof = SignatureSuiteECDSAP256SHA256 -> cp_SigningKeyId proof = WebTTYSigningKeyID (cp_SigningPublicKey proof) ->
  cp_TranscriptHash proof = client_hash t ->
  verifyWebTTYProofTranscript (cp_SigningPublicKey proof) (client_hash t) (cp_Signature proof) = true ->
  authorized_key cfg proof (webTTYBytesValueBytes (cp_Credential proof)) t = Ok (cp_SigningPublicKey proof) ->
  blen (cp_SigningPublicKey proof) <> 0 -> as_closed s = false ->
  verifyClientProof fips now cfg (Some o) s =
    match validateClientProofTimeWindow proof now with
    | Err r => Err (ProofInvalid r)
    | Ok _ => Ok {| s with as_clientKeyID := EncodeE2EKeyMaterial (cp_SigningKeyId proof);
                           as_clientPrincipal := TrimSpace (webTTYStringValueText (cp_PrincipalId proof));
                           as_clientDeviceID := TrimSpace (webTTYStringValueText (cp_DeviceId proof));
                           as_clientBrowserID := TrimSpace (webTTYStringValueText (cp_BrowserId proof)) |}
    end.
Proof.
  intros t Hop Hreq Hid Hsuite Hps Hgh Hch Hss Hkid Hth Hv Hauth Hne Hcl. unfold verifyClientProof.
  rewrite Hreq, Hop, Hid. cbv zeta. rewrite Hss, Hsuite, Hps. cbn [negb Z.eqb].
  rewrite (bool_decide_eq_true_2 (cp_SigningKeyId proof = _)) by done.
  replace (blen (cp_SigningKeyId proof)) with 32 by (rewrite Hkid; symmetry; apply blen_sha256).
  destruct (validateClientProofTimeWindow proof now); [|done]. rewrite Hgh, Hch. fold t.
  rewrite (bool_decide_eq_true_2 (cp_TranscriptHash proof = _)), Hv, Hauth by done. cbn [negb].
  rewrite (proj2 (Z.eqb_neq _ _) Hne), bool_decide_eq_true_2 by done. cbn [negb]. by rewrite Hcl.
Qed.

(** C12: a handshake between a server and a client that know each other goes through:
    the server's hello is accepted by the client that expects this server, the client
    makes a proof, and the server accepts the proof of an authorised key exactly when it
    checks it no earlier than five seconds before and no later than thirty seconds after
    the proof was made; the session then carries the client's key, principal, device and
    browser. *)
Theorem handshake_completes rnd rnd' nonce scfg s ccfg o endpoint client suite n now :
  sc_EndpointIdentity scfg = Some endpoint -> signing_valid (ei_Signing endpoint) ->
  webTTYPublicIdentityKeyEnvelopeSuite fips (Public fips endpoint) = Ok suite ->
  cc_EndpointIdentity ccfg = Some client -> signing_valid (ei_Signing client) ->
  cc_ExpectedServerIdentity ccfg = Some (Public fips endpoint) ->
  proofRequired scfg = true -> sc_ClientProofVerifier scfg = None ->
  sc_AuthorizedClientSigningKeys scfg !! b2s (si_KeyID (ei_Signing client)) = Some (si_PublicKey (ei_Signing client)) ->
  open_valid o suite -> as_closed s = false -> 0 <= n -> n + 30 < rfc3339_seconds ->
  exists s1 hello proof,
    sendServerHello fips rnd nonce scfg s = Ok (s1, Some hello) /\
    verifyServerHello fips ccfg (Some hello) (as_transport s) = Ok tt /\
    clientProofForOpen fips rnd' (n * second) ccfg o (Some hello) (as_transport s) = Ok (Some proof) /\
    let verdict := verifyClientProof fips now scfg (Some {| o with op_ClientProof := Some proof |}) s1 in
    (n * second - 5 * second <= now <= n * second + webTTYProofTTL ->
      verdict = Ok {| s1 with as_clientKeyID := EncodeE2EKeyMaterial (si_KeyID (ei_Signing client));
                              as_clientPrincipal := TrimSpace (cc_ClientPrincipalID ccfg);
                              as_clientDeviceID := TrimSpace (cc_ClientDeviceID ccfg);
                              as_clientBrowserID := TrimSpace (cc_ClientBrowserID ccfg) |}) /\
    (now < n * second - 5 * second \/ n * second + webTTYProofTTL < now -> exists r, verdict = Err (ProofInvalid r)).
Proof.
  intros Hid Hsv Hsuite Hcid (Hpriv & Hpub & Hkid) Hexp Hreq Hver Hauth Ho Hcl Hn Hm.
  destruct (hello_accepted rnd nonce scfg s endpoint suite (as_transport s) ccfg) as (payload & s1 & hash & sg & Hp & Hs1 & _ & Hsend & Hacc);
    [done..|]. set (hello := hello_message _ _ _ _ _ _ _ _ _) in *.
  destruct (open_hashes o suite Ho) as (gh & ch & ps & ks & Hgh & Hch & Hps).
  set (actual := endpointIdentityPublicToProto fips (Public fips endpoint)).
  assert (Hact : pe_KeyEnvelopeSuite actual = suite) by (by apply identity_suite_proto).
  set (t := open_transcript ccfg hello actual client (as_transport s) ps ks gh ch (n * second) (n * second + webTTYProofTTL)).
  assert (Hos : open_signs fips (n * second) ccfg o (Some hello) (as_transport s) = Ok (Some (client, t))).
  { unfold open_signs. change (sh_ServerIdentity hello) with (Some actual). change (sh_AuthRequirement hello) with (webTTYAuthRequirement scfg).
    unfold webTTYAuthRequirement. rewrite Hreq, Z.eqb_refl, Hcid, Hexp, Hact, Hps, Hgh, Hch. reflexivity. }
  destruct (sign_total rnd' (si_PrivateKey (ei_Signing client)) (client_CanonicalBytes t) Hpriv) as (csg & Hcs & Hcv).
  set (proof := MkClientProof (webTTYStringValue (TrimSpace (cc_ClientPrincipalID ccfg))) (si_KeyID (ei_Signing client))
    (si_PublicKey (ei_Signing client)) SignatureSuiteECDSAP256SHA256 (sha256 (client_CanonicalBytes t)) csg
    (ct_IssuedAt t) (ct_ExpiresAt t) (webTTYStringValue (cc_ClientDeviceID ccfg)) (webTTYStringValue (cc_ClientBrowserID ccfg))
    (webTTYBytesValue (cc_ClientCredential ccfg))).
  exists s1, hello, proof. split_and!; [done|done| |].
  { unfold clientProofForOpen. rewrite Hos. unfold client_proof, client_hash. rewrite Hcs. reflexivity. }
  assert (Hne : blen (si_PublicKey (ei_Signing client)) <> 0).
  { rewrite Hpub. by apply public_nonempty. }
  destruct (time_window_ok proof n now eq_refl eq_refl Hn Hm) as [Hin Hout].
  assert (Hh : client_hash (expected_transcript scfg s1 (Public fips endpoint) proof ps ks gh ch) = sha256 (client_CanonicalBytes t)).
  { unfold client_hash. f_equal. apply client_bytes_trimmed. unfold client_trimmed, t, expected_transcript, open_transcript, hello, hello_message.
    cbn -[webTTYStringValueText webTTYStringValue TrimSpace webTTYBytesValueBytes webTTYBytesValue].
    rewrite Hs1. cbn -[TrimSpace webTTYStringValueText webTTYStringValue webTTYBytesValueBytes webTTYBytesValue].
    by rewrite !string_value_text, !TrimSpace_idem, bytes_value_bytes. }
  assert (Hpre : verifyClientProof fips now scfg (Some {| o with op_ClientProof := Some proof |}) s1 =
    match validateClientProofTimeWindow proof now with
    | Err r => Err (ProofInvalid r)
    | Ok _ => Ok {| s1 with as_clientKeyID := EncodeE2EKeyMaterial (si_KeyID (ei_Signing client));
                            as_clientPrincipal := TrimSpace (cc_ClientPrincipalID ccfg);
                            as_clientDeviceID := TrimSpace (cc_ClientDeviceID ccfg);
                            as_clientBrowserID := TrimSpace (cc_ClientBrowserID ccfg) |}
    end).
  { rewrite (verify_accepts now scfg s1 _ proof endpoint suite ps ks gh ch); cbn [op_ClientProof op_SessionKeyGrant op_Config]; try done.
    - destruct (validateClientProofTimeWindow proof now); [|done]. do 2 f_equal;
        cbn -[webTTYStringValueText webTTYStringValue TrimSpace]; by rewrite ?string_value_text, ?TrimSpace_idem.
    - change (cp_SigningPublicKey proof) with (si_PublicKey (ei_Signing client)). by rewrite Hh, Hpub.
    - unfold authorized_key. rewrite Hver. change (cp_SigningKeyId proof) with (si_KeyID (ei_Signing client)). rewrite Hauth.
      change (default [] (Some ?x)) with x. cbv zeta. by rewrite (proj2 (Z.eqb_neq _ _) Hne).
    - by rewrite Hs1. }
  cbv zeta. rewrite Hpre. split; [intros Hw; by rewrite (Hin Hw)|intros Hw; destruct (Hout Hw) as [r ->]; eauto].
Qed.
End Completeness.

(** ** What is accepted was meant *)

Section Agreement.
Context `{Crypto} `{Signing} `{!CryptoLaws} (fips : bool).

(** What the holders of keys run: each run signs at most one object under one key. *)
Inductive run :=
| RunHello (nonce : list byte) (cfg : ServerConfig) (s : auth_session)
| RunOpen (issuedAt : Z) (cfg : ClientConfig) (o : Open) (hello : ServerHello) (transport : string)
| RunAttach (issuedAt : Z) (cfg : ClientConfig) (a : option Attach) (transport : string)
| RunAdmission (privateKey : list byte) (p : WebTTYServerAdmissionProof).

Definition run_signs (r : run) : option (list byte * signed) :=
  match r with
  | RunHello nonce cfg s =>
      match hello_signs fips nonce cfg s with
      | Ok (Some (endpoint, _, _, t)) => Some (si_PrivateKey (ei_Signing endpoint), SignedServer t)
      | _ => None
      end
  | RunOpen issuedAt cfg o hello transport =>
      match open_signs fips issuedAt cfg o (Some hello) transport with
      | Ok (Some (endpoint, t)) => Some (si_PrivateKey (ei_Signing endpoint), SignedClient t)
      | _ => None
      end
  | RunAttach issuedAt cfg a transport =>
      match attach_signs fips issuedAt cfg a transport with
      | Ok (Some (endpoint, t)) => Some (si_PrivateKey (ei_Signing endpoint), SignedClient t)
      | _ => None
      end
  | RunAdmission k p => Some (k, SignedAdmission p)
  end.

(** What SHA-256 is applied to, besides public keys. *)
Definition open_hashed (o : Open) (credential : list byte) : list (list byte) :=
  option_list (marshal_grant (op_SessionKeyGrant o)) ++ option_list (marshal_config (op_Config o)) ++ [credential].

Definition run_hashed (r : run) : list (list byte) :=
  option_list (signed_bytes ∘ snd <$> run_signs r) ++
  match r with RunOpen _ cfg o _ _ => open_hashed o (cc_ClientCredential cfg) | _ => [] end.

Definition collision_free (l : list (list byte)) : Prop := forall a b, a ∈ l -> b ∈ l -> sha256 a = sha256 b -> a = b.

(** Signatures under [publicKey] come from the runs. *)
Definition unforgeable (runs : list run) (publicKey : list byte) : Prop :=
  forall hash signature, verify publicKey hash signature = true ->
  exists r k x, r ∈ runs /\ run_signs r = Some (k, x) /\ signing_public k = publicKey /\ hash = sha256 (signed_bytes x).

Definition runs_fit (runs : list run) : Prop := Forall (fun r => match run_signs r with Some (_, x) => signed_fits x | None => True end) runs.

Definition exchange_fits (cfg : ServerConfig) (s : auth_session) (endpoint : WebTTYEndpointIdentity) (proof : ClientProof) : Prop :=
  Forall short_text [as_transport s; sc_WorkspaceID cfg; sc_ProjectID cfg; sc_ServerID cfg; as_sessionID s;
                     webTTYStringValueText (cp_PrincipalId proof); cp_IssuedAt proof; cp_ExpiresAt proof] /\
  Forall short [si_KeyID (ei_Signing endpoint); id_KeyID (ei_Encryption endpoint); as_serverNonce s].

(** The transcript a server compares a proof with. *)
Definition server_expects (cfg : ServerConfig) (s : auth_session) (o : Open) (proof : ClientProof) : option ClientProofTranscript :=
  match sc_EndpointIdentity cfg with
  | Some endpoint =>
      match webTTYPublicIdentityKeyEnvelopeSuite fips (Public fips endpoint) with
      | Ok suite =>
          match webTTYProofSuites fips (op_SessionKeyGrant o) suite with
          | Ok (ps, ks) =>
              match HashWebTTYSessionKeyGrant (op_SessionKeyGrant o), HashWebTTYConfig (op_Config o) with
              | Some gh, Some ch => Some (expected_transcript cfg s (Public fips endpoint) proof ps ks gh ch)
              | _, _ => None
              end
          | Err _ => None
          end
      | Err _ => None
      end
  | None => None
  end.

Definition server_hashed (cfg : ServerConfig) (s : auth_session) (o : Open) (proof : ClientProof) : list (list byte) :=
  option_list (client_CanonicalBytes <$> server_expects cfg s o proof) ++ open_hashed o (webTTYBytesValueBytes (cp_Credential proof)).

(** The client run [RunOpen] was meant for the session [s] and the message [o]. *)
Record meant_for (s : auth_session) (endpoint : WebTTYEndpointIdentity) (o : Open) (proof : ClientProof)
  (issuedAt : Z) (ccfg : ClientConfig) (o' : Open) (hello : ServerHello) (transport : string) : Prop := {
  meant_session : TrimSpace (sh_SessionId hello) = TrimSpace (as_sessionID s);
  meant_nonce : sh_SessionNonce hello = as_serverNonce s;
  meant_transport : TrimSpace transport = TrimSpace (as_transport s);
  meant_server : exists i, sh_ServerIdentity hello = Some i /\ pe_SigningKeyId i = si_KeyID (ei_Signing endpoint) /\
                           pe_EncryptionKeyId i = id_KeyID (ei_Encryption endpoint);
  meant_command : marshal_config (op_Config o') = marshal_config (op_Config o);
  meant_keys : marshal_grant (op_SessionKeyGrant o') = marshal_grant (op_SessionKeyGrant o);
  meant_principal : TrimSpace (cc_ClientPrincipalID ccfg) = TrimSpace (webTTYStringValueText (cp_PrincipalId proof));
  meant_credential : cc_ClientCredential ccfg = webTTYBytesValueBytes (cp_Credential proof);
  meant_issued : TrimSpace (format_time issuedAt) = TrimSpace (cp_IssuedAt proof);
}.

(** What acceptance tells. *)
Lemma verify_inv now cfg s o s' proof :
  verifyClientProof fips now cfg (Some o) s = Ok s' -> proofRequired cfg = true -> op_ClientProof o = Some proof ->
  exists endpoint t, sc_EndpointIdentity cfg = Some endpoint /\ server_expects cfg s o proof = Some t /\
    cp_SigningKeyId proof = WebTTYSigningKeyID (cp_SigningPublicKey proof) /\
    validateClientProofTimeWindow proof now = Ok tt /\ cp_TranscriptHash proof = client_hash t /\
    verify (cp_SigningPublicKey proof) (client_hash t) (cp_Signature proof) = true /\
    authorized_key cfg proof (webTTYBytesValueBytes (cp_Credential proof)) t = Ok (cp_SigningPublicKey proof) /\
    cp_SigningPublicKey proof <> [] /\ as_clientKeyID s' = EncodeE2EKeyMaterial (cp_SigningKeyId proof) /\
    as_clientPrincipal s' = TrimSpace (webTTYStringValueText (cp_PrincipalId proof)).
Proof.
  unfold verifyClientProof, server_expects. intros Hv Hreq Hop. rewrite Hreq, Hop in Hv. cbn [negb] in Hv.
  destruct (sc_EndpointIdentity cfg) as [endpoint|]; [|done]. cbv zeta in Hv.
  destruct (cp_SignatureSuite proof =? _); [|done]. cbn [negb] in Hv.
  destruct (webTTYPublicIdentityKeyEnvelopeSuite _ _) as [suite|]; [|done].
  destruct (webTTYProofSuites _ _ _) as [[ps ks]|]; [|done].
  destruct (blen (cp_SigningKeyId proof) =? _); [|done]. cbn [negb] in Hv.
  case_bool_decide as Hkid; [|done]. cbn [negb] in Hv.
  destruct (validateClientProofTimeWindow proof now) as [[]|]; [|done].
  destruct (HashWebTTYSessionKeyGrant _) as [gh|]; [|done]. destruct (HashWebTTYConfig _) as [ch|]; [|done].
  case_bool_decide as Hth; [|done]. cbn [negb] in Hv.
  destruct (verifyWebTTYProofTranscript _ _ _) eqn:Hsig; [|done]. cbn [negb] in Hv.
  unfold verifyWebTTYProofTranscript in Hsig. apply andb_true_iff in Hsig as [_ Hsig].
  destruct (authorized_key _ _ _ _) as [key|] eqn:Hauth; [|done]. destruct (Z.eqb_spec (blen key) 0) as [|Hne]; [done|].
  case_bool_decide as Hkey; [|done]. subst key. cbn [negb] in Hv. destruct (as_closed s); [done|]. injection Hv as <-.
  eexists endpoint, _. split_and!; try done. intros Hnil. by rewrite Hnil in Hne.
Qed.

Lemma run_hashed_in b r runs : b ∈ run_hashed r -> r ∈ runs -> b ∈ concat (run_hashed <$> runs).
Proof. intros Hb. induction 1; cbn; apply elem_of_app; auto. Qed.

Lemma proof_suites_int32 g suite ps ks : webTTYProofSuites fips g suite = Ok (ps, ks) -> int32 ps /\ int32 ks.
Proof.
  unfold webTTYProofSuites. destruct (e2ePayloadSuiteForKeyEnvelopeSuite fips suite) as [p|] eqn:Hp; [|done].
  assert (Hany : forall k q, e2ePayloadSuiteForKeyEnvelopeSuite fips k = Ok q -> int32 q /\ int32 k).
  { intros k q Hq. destruct (validateProfileKeyEnvelopeSuite fips k) as [[]|] eqn:Hval;
      [|unfold e2ePayloadSuiteForKeyEnvelopeSuite in Hq; by rewrite Hval in Hq].
    destruct (payload_suite_ok fips k Hval) as (q' & Hq' & ? & ? & _). rewrite Hq in Hq'. by injection Hq' as ->. }
  destruct g as [g|]; [|intros [= <- <-]; by apply Hany].
  unfold validateE2ESuites. destruct (validateProfileKeyEnvelopeSuite fips _) as [[]|]; [|done].
  destruct (e2ePayloadSuiteForKeyEnvelopeSuite fips (sg_KeyEnvelopeSuite g)) as [q|] eqn:Hq; [|done].
  destruct (Z.eqb_spec (sg_PayloadSuite g) q) as [->|]; [|done]. intros [= <- <-]. by apply Hany.
Qed.

Lemma sha256_short b : short (sha256 b).
Proof. unfold short. rewrite law_sha256. done. Qed.

Lemma expects_fits cfg s o proof endpoint t :
  sc_EndpointIdentity cfg = Some endpoint -> server_expects cfg s o proof = Some t -> exchange_fits cfg s endpoint proof ->
  cp_SigningKeyId proof = WebTTYSigningKeyID (cp_SigningPublicKey proof) -> client_fits t.
Proof.
  unfold server_expects. intros Hid Ht [Htxt Hb] Hkid. rewrite Hid in Ht.
  destruct (webTTYPublicIdentityKeyEnvelopeSuite _ _) as [suite|]; [|done].
  destruct (webTTYProofSuites _ _ _) as [[ps ks]|] eqn:Hps; [|done]. apply proof_suites_int32 in Hps as [Hps Hks].
  unfold HashWebTTYSessionKeyGrant, HashWebTTYConfig in Ht.
  destruct (marshal_grant _); [|done]. destruct (marshal_config _); [|done]. injection Ht as <-.
  repeat match goal with Hf : Forall _ (_ :: _) |- _ => apply Forall_cons in Hf as [? Hf] end.
  unfold client_fits, expected_transcript. cbn. split_and!; repeat (apply Forall_cons; split); try done; try apply sha256_short.
  rewrite Hkid. apply sha256_short.
Qed.

(** What a key verifies, its holder signed. *)
Lemma accepted_signed runs publicKey signature y l :
  unforgeable runs publicKey -> collision_free (signed_bytes y :: l ++ concat (run_hashed <$> runs)) ->
  runs_fit runs -> signed_fits y -> verify publicKey (sha256 (signed_bytes y)) signature = true ->
  exists r k x, r ∈ runs /\ run_signs r = Some (k, x) /\ signing_public k = publicKey /\ signed_same x y.
Proof.
  intros Hunf Hcf Hrf Hft Hv. destruct (Hunf _ _ Hv) as (r & k & x & Hr & Hsig & Hk & Hh). exists r, k, x. split_and!; try done.
  unfold runs_fit in Hrf. rewrite Forall_forall in Hrf. specialize (Hrf r Hr). rewrite Hsig in Hrf. apply signed_bytes_inj; [done..|].
  symmetry. apply Hcf; [by apply list_elem_of_here| |done]. apply list_elem_of_further, elem_of_app. right.
  apply (run_hashed_in _ r); [|done]. apply elem_of_app. left. rewrite Hsig. by apply list_elem_of_singleton.
Qed.

Lemma attach_not_open issuedAt cfg a transport endpoint t cfg' s o proof t' :
  attach_signs fips issuedAt cfg a transport = Ok (Some (endpoint, t)) -> server_expects cfg' s o proof = Some t' ->
  client_trimmed t <> client_trimmed t'.
Proof.
  unfold attach_signs, server_expects. intros Ha Ht Heq. destruct (cc_EndpointIdentity cfg); [|by destruct (0 <? _)].
  destruct (cc_Attach cfg); [|done]. destruct a as [a|]; [|done]. cbv zeta in Ha.
  destruct (e2ePayloadSuiteForKeyEnvelopeSuite _ _); [|done]. injection Ha as <- <-.
  destruct (sc_EndpointIdentity cfg'); [|done]. destruct (webTTYPublicIdentityKeyEnvelopeSuite _ _); [|done].
  destruct (webTTYProofSuites _ _ _) as [[ps ks]|]; [|done]. destruct (HashWebTTYSessionKeyGrant _); [|done].
  destruct (HashWebTTYConfig _); [|done]. injection Ht as <-.
  apply (f_equal (fun t => length (ct_AttachGrantHash t))) in Heq. cbn in Heq. unfold HashWebTTYAttachGrant in Heq. by rewrite law_sha256 in Heq.
Qed.

Lemma open_meant issuedAt ccfg o' hello transport client t' cfg s o proof endpoint t l :
  open_signs fips issuedAt ccfg o' (Some hello) transport = Ok (Some (client, t')) ->
  sc_EndpointIdentity cfg = Some endpoint -> server_expects cfg s o proof = Some t -> client_trimmed t' = client_trimmed t ->
  collision_free l -> (forall b, b ∈ open_hashed o (webTTYBytesValueBytes (cp_Credential proof)) -> b ∈ l) ->
  (forall b, b ∈ open_hashed o' (cc_ClientCredential ccfg) -> b ∈ l) ->
  meant_for s endpoint o proof issuedAt ccfg o' hello transport.
Proof.
  unfold open_signs, server_expects, HashWebTTYSessionKeyGrant, HashWebTTYConfig. intros Ho Hid Ht Heq Hcf Hl Hl'. rewrite Hid in Ht.
  destruct (_ =? _); [|done]. cbn [negb] in Ho. destruct (cc_EndpointIdentity ccfg); [|done].
  destruct (cc_ExpectedServerIdentity ccfg); [|done]. destruct (sh_ServerIdentity hello) as [i|] eqn:Hi; [|done].
  destruct (webTTYProofSuites fips (op_SessionKeyGrant o') _) as [[ps' ks']|]; [|done].
  destruct (webTTYPublicIdentityKeyEnvelopeSuite _ _); [|done]. destruct (webTTYProofSuites _ _ _) as [[ps ks]|]; [|done].
  unfold open_hashed in Hl, Hl'.
  destruct (marshal_grant (op_SessionKeyGrant o')) as [g'|] eqn:Hg'; [|done]. destruct (marshal_config (op_Config o')) as [c'|] eqn:Hc'; [|done].
  destruct (marshal_grant (op_SessionKeyGrant o)) as [g|] eqn:Hg; [|done]. destruct (marshal_config (op_Config o)) as [c|] eqn:Hc; [|done].
  cbn in Ho, Ht. injection Ho as -> <-. injection Ht as <-. unfold client_trimmed, open_transcript, expected_transcript in Heq. cbn -[TrimSpace webTTYStringValueText webTTYBytesValueBytes] in Heq.
  injection Heq as Htr Hws Hpr Hsv Hse Hsk Hek Hno Hps Hks Hgh Hch Hpi Hck Hcr His Hex.
  assert (Hin : g ∈ l /\ c ∈ l /\ webTTYBytesValueBytes (cp_Credential proof) ∈ l) by (split_and!; apply Hl; set_solver).
  assert (Hin' : g' ∈ l /\ c' ∈ l /\ cc_ClientCredential ccfg ∈ l) by (split_and!; apply Hl'; set_solver).
  destruct Hin as (? & ? & ?), Hin' as (? & ? & ?).
  split; try done.
  - by exists i.
  - rewrite Hc, Hc'. f_equal. by apply Hcf.
  - rewrite Hg, Hg'. f_equal. by apply Hcf.
  - by rewrite TrimSpace_idem in Hpi.
  - by apply Hcf.
Qed.


(** *** The server's hello *)

Definition hello_fits (hello : ServerHello) (transport : string) : Prop :=
  match sh_ServerIdentity hello with
  | Some actual => server_fits (hello_transcript hello actual transport)
  | None => False
  end.

Definition hello_hashed (hello : ServerHello) (transport : string) : list (list byte) :=
  match sh_ServerIdentity hello with
  | Some actual => [server_CanonicalBytes (hello_transcript hello actual transport)]
  | None => []
  end.

Lemma hello_inv ccfg hello transport expected :
  verifyServerHello fips ccfg (Some hello) transport = Ok tt -> cc_ExpectedServerIdentity ccfg = Some expected ->
  exists actual sg, sh_ServerIdentity hello = Some actual /\ pe_SigningKeyId actual = ep_SigningKeyID expected /\
    pe_SigningPublicKey actual = ep_SigningPublicKey expected /\ pe_EncryptionKeyId actual = ep_EncryptionKeyID expected /\
    pe_EncryptionPublicKey actual = ep_EncryptionPublicKey expected /\
    verify (ep_SigningPublicKey expected) (server_hash (hello_transcript hello actual transport)) sg = true.
Proof.
  unfold verifyServerHello. intros Hv Hexp. rewrite Hexp in Hv. destruct (sh_ServerIdentity hello) as [actual|]; [|done].
  destruct (validateWebTTYServerHelloCrypto fips hello); [|done]. destruct (webTTYPublicIdentityKeyEnvelopeSuite _ _); [|done].
  do 4 (case_bool_decide; [|by rewrite ?orb_true_r in Hv]). cbn [negb orb] in Hv. destruct (_ =? _); [|done]. cbn [negb] in Hv.
  destruct (sh_ServerProof hello) as [p|]; [|done]. case_bool_decide; [|done]. cbn [negb] in Hv.
  destruct (verifyWebTTYProofTranscript _ _ _) eqn:Hsig; [|done]. apply andb_true_iff in Hsig as [_ Hsig].
  exists actual, (sp_Signature p). split_and!; try done. congruence.
Qed.

(** C11: what a client accepts, the server said.  When a client accepts a hello from the
    server it expects, the holder of that server's key made a hello itself for a session
    with this identifier, this nonce, this transport, these workspace, project and server
    names, these suites and this demand for a proof: a hello cannot be moved to another
    session, nor its demand for a proof be dropped on the way. *)
Theorem server_hello_agreement ccfg hello transport expected runs :
  verifyServerHello fips ccfg (Some hello) transport = Ok tt -> cc_ExpectedServerIdentity ccfg = Some expected ->
  unforgeable runs (ep_SigningPublicKey expected) -> collision_free (hello_hashed hello transport ++ concat (run_hashed <$> runs)) ->
  runs_fit runs -> hello_fits hello transport ->
  exists nonce cfg s endpoint, RunHello nonce cfg s ∈ runs /\ sc_EndpointIdentity cfg = Some endpoint /\
    signing_public (si_PrivateKey (ei_Signing endpoint)) = ep_SigningPublicKey expected /\
    si_KeyID (ei_Signing endpoint) = ep_SigningKeyID expected /\ id_KeyID (ei_Encryption endpoint) = ep_EncryptionKeyID expected /\
    nonce = sh_SessionNonce hello /\ TrimSpace (as_sessionID s) = TrimSpace (sh_SessionId hello) /\
    TrimSpace (as_transport s) = TrimSpace transport /\
    TrimSpace (sc_WorkspaceID cfg) = TrimSpace (webTTYStringValueText (sh_WorkspaceId hello)) /\
    TrimSpace (sc_ProjectID cfg) = TrimSpace (webTTYStringValueText (sh_ProjectId hello)) /\
    TrimSpace (sc_ServerID cfg) = TrimSpace (webTTYStringValueText (sh_ServerId hello)) /\
    (proofRequired cfg = true <-> sh_AuthRequirement hello = AuthRequirementClientProof) /\
    exists payload suite, sh_PayloadSuites hello = [payload] /\ sh_KeyEnvelopeSuites hello = [suite] /\
      webTTYPublicIdentityKeyEnvelopeSuite fips (Public fips endpoint) = Ok suite.
Proof.
  intros Hv Hexp Hunf Hcf Hrf Hfit. destruct (hello_inv _ _ _ _ Hv Hexp) as (actual & sg & Hact & Hk1 & Hk2 & Hk3 & _ & Hsig).
  unfold hello_fits, hello_hashed in Hfit, Hcf. rewrite Hact in Hfit, Hcf. set (t := hello_transcript hello actual transport) in *.
  destruct (accepted_signed runs _ sg (SignedServer t) [] Hunf Hcf Hrf Hfit Hsig) as (r & k & x & Hr & Hrs & Hk & Heq).
  destruct r as [nonce cfg s|issuedAt c o' h tr|issuedAt c a tr|k' p]; cbn [run_signs] in Hrs.
  2: by destruct (open_signs _ _ _ _ _ _) as [[[? ?]|]|]; [|done..]; injection Hrs as <- <-.
  2: by destruct (attach_signs _ _ _ _ _) as [[[? ?]|]|]; [|done..]; injection Hrs as <- <-.
  2: by injection Hrs as <- <-.
  destruct (hello_signs _ _ _ _) as [[[[[endpoint s1] suites] t']|]|] eqn:Hhs; [|done..]. injection Hrs as <- <-. cbn in Heq.
  unfold hello_signs in Hhs. destruct (sc_EndpointIdentity cfg) as [e|] eqn:Hid; [|done]. cbv zeta in Hhs.
  destruct (webTTYPublicIdentityKeyEnvelopeSuite _ _) as [suite|] eqn:Hsuite; [|done].
  destruct (e2ePayloadSuiteForKeyEnvelopeSuite _ _) as [payload|]; [|done]. destruct (as_closed s); [done|].
  injection Hhs as <- <- <- <-. unfold server_trimmed, t, server_transcript, hello_transcript in Heq.
  cbn -[TrimSpace webTTYStringValueText webTTYAuthRequirement webTTYAuthRequirementFromProto] in Heq.
  injection Heq as Htr Hws Hpr Hsv Hse Hsk Hek Hno Hreq Hps Hks _. rewrite TrimSpace_idem in Hws, Hpr, Hsv.
  exists nonce, cfg, s, e. split_and!; try done; [congruence..| |by exists payload, suite].
  unfold webTTYAuthRequirement, webTTYAuthRequirementFromProto in Hreq.
  destruct (Z.eqb_spec (sh_AuthRequirement hello) AuthRequirementClientProof); by destruct (proofRequired cfg).
Qed.
End Agreement.

(** ** A concrete exchange *)

(** Signatures that repeat the key and the hash, for the keys and hashes that are [allowed]. *)
#[local] Existing Instance toy_crypto.
#[local] Existing Instance toy_laws.

Definition toy_signing (allowed : list byte -> list byte -> bool) : Signing := {|
  Config := list byte;
  sign k _ h := Some (k ++ h);
  verify k h s := bool_decide (s = k ++ h) && allowed k h;
  parse_private k := Nat.eqb (length k) 32;
  parse_public k := Nat.eqb (length k) 32;
  signing_public k := k;
  marshal_config c := Some (default [] c);
  marshal_grant g := Some (match g with Some _ => [x01] | None => [] end);
  parse_time s := match s2b s with x54 :: r => if Nat.eqb (length r) 8 then Some (be_get r * second) else None | _ => None end;
  format_time t := b2s (x54 :: be_put 8 (t / second));
|}.

Definition any_hash (_ _ : list byte) : bool := true.

Lemma toy_signing_laws : @SigningLaws (toy_signing any_hash).
Proof.
  split; cbn -[second rfc3339_seconds s2b b2s be_put be_get].
  - eauto.
  - intros k r h s _ [= <-]. by rewrite bool_decide_eq_true_2, andb_true_r.
  - done.
  - done.
  - intros n Hn. rewrite Z.div_mul by done. rewrite s2b_b2s. cbv beta iota. rewrite length_be_put, be_get_put_small; [done|].
    unfold rfc3339_seconds in Hn. lia.
Qed.

Definition demo_signing (b : byte) : WebTTYSigningIdentity :=
  MkSigning (WebTTYSigningKeyID (replicate 32 b)) (replicate 32 b) (replicate 32 b).
Definition demo_endpoint (b : byte) : WebTTYEndpointIdentity := MkEndpoint (MkIdentity 1 [b] (replicate 32 b) (replicate 32 b)) (demo_signing b).

Definition demo_server_config : ServerConfig :=
  MkServerConfig (Some (demo_endpoint x41)) (Some true)
    {[ b2s (si_KeyID (demo_signing x42)) := replicate 32 x42 ]} None None " ws" "p" "srv".

Definition demo_session : auth_session := MkAuthSession "0011" "websocket" false [] "" "" "" "" "".

Definition demo_client_config : ClientConfig :=
  MkClientConfig (Some (Public false (demo_endpoint x41))) (Some (demo_endpoint x42)) " alice " "dev" "" [] None.

Definition demo_open (allowed : list byte -> list byte -> bool) : @Open (toy_signing allowed) := @MkOpen (toy_signing allowed) (Some (s2b "ls")) None None.

Definition demo_opens (allowed : list byte -> list byte -> bool) (proof : ClientProof) : @Open (toy_signing allowed) :=
  @MkOpen (toy_signing allowed) (Some (s2b "ls")) None (Some proof).

Definition demo_time : Z := 1700000000.

Lemma handshake_completes_witness :
  exists s1 hello proof s2, let S := toy_signing any_hash in
    sendServerHello false [] (s2b "nonce") demo_server_config demo_session = Ok (s1, Some hello) /\
    clientProofForOpen false [] (demo_time * second) demo_client_config (demo_open any_hash) (Some hello) "websocket" = Ok (Some proof) /\
    verifyClientProof false (demo_time * second + 1) demo_server_config (Some (demo_opens any_hash proof)) s1 = Ok s2 /\
    as_clientPrincipal s2 = "alice".
Proof.
  pose (S := toy_signing any_hash). pose proof toy_signing_laws as HL.
  destruct (handshake_completes false [] [] (s2b "nonce") demo_server_config demo_session demo_client_config (demo_open any_hash)
    (demo_endpoint x41) (demo_endpoint x42) 1 demo_time (demo_time * second + 1)) as (s1 & hello & proof & Hs & _ & Hp & Hok & _);
    [by vm_compute|split_and!; by vm_compute|by vm_compute|by vm_compute|split_and!; by vm_compute|by vm_compute|by vm_compute|by vm_compute
    |by vm_compute|(split; [exists []; reflexivity|split; [exists (s2b "ls"); reflexivity|exists (1, 1); by vm_compute]])|by vm_compute|by vm_compute|by vm_compute|].
  eexists s1, hello, proof, _. split_and!; [exact Hs|exact Hp|apply Hok; by vm_compute|by vm_compute].
Defined.

Definition demo_exchange : option (auth_session * ServerHello * ClientProof) := Eval vm_compute in
  let S := toy_signing any_hash in
  match sendServerHello false [] (s2b "nonce") demo_server_config demo_session with
  | Ok (s1, Some hello) =>
      match clientProofForOpen false [] (demo_time * second) demo_client_config (demo_open any_hash) (Some hello) "websocket" with
      | Ok (Some proof) => Some (s1, hello, proof)
      | _ => None
      end
  | _ => None
  end.

(** Only what was signed in the exchange verifies. *)
Definition demo_allowed (k h : list byte) : bool :=
  match demo_exchange with
  | Some (_, hello, proof) =>
      (bool_decide (k = replicate 32 x42) && bool_decide (h = cp_TranscriptHash proof)) ||
      (bool_decide (k = replicate 32 x41) && bool_decide (Some h = sp_TranscriptHash <$> sh_ServerProof hello))
  | None => false
  end.

Definition demo_runs (hello : ServerHello) : list (@run (toy_signing demo_allowed)) :=
  [@RunHello (toy_signing demo_allowed) (s2b "nonce") demo_server_config demo_session;
   @RunOpen (toy_signing demo_allowed) (demo_time * second) demo_client_config (demo_open demo_allowed) hello "websocket"].

Definition collision_check (l : list (list byte)) : bool :=
  let hs := (fun a => (a, sha256 a)) <$> l in
  forallb (fun a => forallb (fun b => negb (bool_decide (a.2 = b.2)) || bool_decide (a.1 = b.1)) hs) hs.

Lemma collision_check_sound l : collision_check l = true -> collision_free l.
Proof.
  intros Hl%Is_true_eq_left a b Ha Hb Heq. unfold collision_check in Hl. cbv zeta in Hl. rewrite forallb_True, Forall_forall in Hl.
  specialize (Hl (a, sha256 a) (list_elem_of_fmap_2 (fun a => (a, sha256 a)) l a Ha)). cbn -[sha256] in Hl. rewrite forallb_True, Forall_forall in Hl.
  specialize (Hl (b, sha256 b) (list_elem_of_fmap_2 (fun a => (a, sha256 a)) l b Hb)). cbn -[sha256] in Hl. rewrite Heq in Hl.
  rewrite bool_decide_eq_true_2 in Hl by done. by apply bool_decide_unpack in Hl.
Qed.

Lemma demo_unforgeable s1 hello proof k : demo_exchange = Some (s1, hello, proof) -> k = replicate 32 x41 \/ k = replicate 32 x42 ->
  @unforgeable toy_crypto (toy_signing demo_allowed) false (demo_runs hello) k.
Proof.
  intros Hx Hk h sg Hv. vm_compute in Hx. injection Hx as <- <- <-.
  assert (Ha : demo_allowed k h = true) by (apply andb_true_iff in Hv; tauto). clear Hv.
  unfold demo_allowed, demo_exchange in Ha. apply orb_true_iff in Ha as [[Hk1 Hh1]%andb_true_iff|[Hk1 Hh1]%andb_true_iff];
    apply bool_decide_eq_true in Hk1, Hh1; clear Hk; subst k.
  - subst h. eexists _, _, _. split; [apply list_elem_of_further, list_elem_of_here|]. split; [vm_compute; reflexivity|]. split; by vm_compute.
  - injection Hh1 as ->. eexists _, _, _. split; [apply list_elem_of_here|]. split; [vm_compute; reflexivity|]. split; by vm_compute.
Qed.


Lemma server_hello_agreement_witness :
  exists s1 hello proof nonce cfg s, demo_exchange = Some (s1, hello, proof) /\
    @verifyServerHello toy_crypto (toy_signing demo_allowed) false demo_client_config (Some hello) "websocket" = Ok tt /\
    nonce = sh_SessionNonce hello /\ TrimSpace (as_sessionID s) = TrimSpace (sh_SessionId hello) /\ proofRequired cfg = true.
Proof.
  destruct demo_exchange as [[[s1 hello] proof]|] eqn:Hx; [|by vm_compute in Hx].
  assert (Hv : @verifyServerHello toy_crypto (toy_signing demo_allowed) false demo_client_config (Some hello) "websocket" = Ok tt)
    by (vm_compute in Hx; injection Hx as <- <- <-; by vm_compute).
  destruct (server_hello_agreement (H0 := toy_signing demo_allowed) false demo_client_config hello "websocket"
    (Public false (demo_endpoint x41)) (demo_runs hello) Hv) as (nonce & cfg & s & e & _ & _ & _ & _ & _ & Hn & Hs & _ & _ & _ & _ & Hreq & _).
  - reflexivity.
  - apply (demo_unforgeable s1 hello proof); [done|left]. reflexivity.
  - apply collision_check_sound. vm_compute in Hx. injection Hx as <- <- <-. vm_compute. reflexivity.
  - vm_compute in Hx. injection Hx as <- <- <-. repeat constructor; vm_compute; congruence.
  - vm_compute in Hx. injection Hx as <- <- <-. repeat constructor; vm_compute; congruence.
  - exists s1, hello, proof, nonce, cfg, s. split_and!; [done..|]. apply Hreq. vm_compute in Hx. by injection Hx as <- <- <-.
Defined.
