(* ===== verification/WebttySession.v ===== *)
(** * WebttySession: a WebTTY session of the server ([webtty/session.go], [termination.go])

    A session is a [session] object shared by many goroutines: [run], the read loop, one
    copy loop per output stream, the loop that waits for the child, the heartbeat loop,
    the termination of the child, the timers, the callers of [shutdown], and the cleanup.

    A goroutine is a stack of [frame]s, the calls it has in progress, and a register that
    holds the error the last call returned.  [exec] runs the top frame up to the next
    point at which goroutines interleave: a section under [s.mu], a read or write, a wait.
    A [choice] says how the outside answers (what is read, whether a write fails); [None]
    is a frame that waits.  [move] is what the outside does by itself: the child writes,
    closes its output or ends, timers fire, the handler asks for a shutdown.

    Encrypted payloads and their hooks are the parameter [EP]; the checks of
    [prepareOpen] (proof, user, executable, starting the process) are answers of the
    choice. *)

From S2P Require Import Prelude.

(** ** Data *)

Inductive stream := Stdout | Stderr.
#[export] Instance stream_eq : EqDecision stream := ltac:(solve_decision).

Inductive serr :=
| EClosed                (* session is closed *)
| EMarshal | EWrite | ERead | EBadType | EGarbage
| EAlreadyStarted | EMissingMessage | EUnexpectedPayload | EClient | EAttach
| EMissingConfig | EProof | EIdentity | EGrantRequired | ENoResolver | EGrant | EExecutable | ECredential | EStart
| EMissingData | EDataType | ENoDecrypt | EDecrypt | EStdin | ENoStdin
| EMissingSize | ENoPTY | ESize | EMissingParameter | EParameter
| ETerminate | ETerminationUnsupported | EForceTerminate | ETerminationTimeout
| EStream | EEncrypt | EWaitGroupExit | EChild
| EStillRunning | EStillActive
| ETimeout | EConfig | EHello.

Inductive child_state := NoChild | Alive | Dead (code : Z) | Reaped (code : Z).
#[export] Instance child_state_eq : EqDecision child_state := ltac:(solve_decision).

Section WebttySession.
Context {EP : Type}.

(** [PayloadCrypto]: hooks that may be missing; encryption draws random bytes. *)
Record PayloadCrypto := MkHooks {
  EncryptStdout : option (list byte -> list byte -> option EP);
  EncryptStderr : option (list byte -> list byte -> option EP);
  DecryptStdin : option (EP -> option (list byte));
}.

Inductive payload := PPlain (b : list byte) | PEnc (e : EP).

(** What the server writes. *)
Inductive msg :=
| MHello | MAck (terminate : bool) | MError (e : serr) | MHeartbeat
| MData (t : stream) (p : payload) | MEos (t : stream) | MClose (code : Z).

(** What the client sends. *)
Record open_msg := MkOpenMsg { om_config : bool; om_grant : bool; om_tty : bool }.

Inductive in_data := DEos | DData (b : list byte) | DEncrypted (e : EP) | DOther.

Inductive inmsg :=
| INone | IOpen (o : open_msg) | IAttach | IData (stdin : bool) (d : in_data) | IDataNil | ITerminate | IClientError | IHeartbeat
| IClientHello | IResize (size : bool) | IParameterNil | IParameterOther | IOther.

Inductive read_result := RdMessage (m : inmsg) | RdBadType | RdGarbage | RdExpected | RdError.

(** What [prepareOpen] asks outside of the session. *)
Record open_answers := MkAnswers {
  oa_verify : option serr;                        (* verifyClientProof *)
  oa_identity : option serr;                      (* resolveExecutionIdentity *)
  oa_resolver : option PayloadCrypto;             (* PayloadCryptoResolver; [None]: an error *)
  oa_executable : option serr;                    (* resolveExecutable *)
  oa_credential : option serr;                    (* SetupCredential *)
  oa_start : option serr;                         (* the pipes or the PTY, and starting the process *)
}.

Record config := MkSessionConfig {
  c_heartbeats : bool;              (* HeartbeatInterval > 0 *)
  c_openDeadline : bool;
  c_closeDeadline : bool;
  c_groups : bool;                  (* processGroupSupported *)
  c_fips : option serr;             (* the FIPS checks of the transport and the configuration *)
  c_identity : bool;                (* EndpointIdentity != nil *)
  c_requireProof : bool;
  c_webtransport : bool;
  c_crypto : option PayloadCrypto;
  c_resolver : bool;                (* PayloadCryptoResolver != nil *)
  c_requireGrant : bool;
}.

(** The resources of an open: [sessionOpenResources]. *)
Record resources := MkResources { r_tty : bool; r_crypto : option PayloadCrypto }.

Record session := MkSession {
  closed : bool; opening : bool; shutdownReq : bool;
  cmd : bool; processGroup : bool; ptyFile : bool; stdinPipe : bool; stdinClosed : bool;
  openTimer : bool; closeTimer : bool;                    (* armed *)
  streamsActive : Z;
  streamsEnding : option (stream -> bool);                (* a nil map, or its keys *)
  streamsOpen : option (stream -> bool);
  childDone : bool; childExitCode : Z; terminationReq : bool; opened : bool; disconnecting : bool;
  closeErr : option serr; payloadCrypto : option PayloadCrypto; authenticated : bool;
  (* how many times the channels were closed; the WaitGroups; the write mutex *)
  childExited : Z; doneCh : Z; lifecycleWG : Z; copyWG : Z; writeMu : bool;
  (* the connection, the process and its pipes *)
  connClosed : bool; wire : list msg;
  child : child_state; killed : bool; released : bool; pipesClosed : bool;
  pipe : stream -> list byte; produced : stream -> list byte; pipeEOF : stream -> bool;
  stdin : list byte;
  signals : list child_state;                             (* the child's state when it was signalled *)
}.

(** ** Goroutines *)

Inductive stream_read := SData (b : list byte) | SEos | SError.

Record cleanup := MkCleanup { cl_cmd : bool; cl_group : bool; cl_tty : bool; cl_childDone : bool }.

Inductive frame :=
(* run *)
| FRun | FInitial | FHello (initial : option inmsg) | FAfterHello (initial : option inmsg) | FStart (initial : option inmsg) | FWaitDone
(* the read loop *)
| FReadInit (initial : option inmsg) | FAfterInit | FRead | FIncoming (r : read_result) | FAfterHandle | FHandle (m : inmsg) | FDispatch (m : inmsg)
| FReturn (r : option serr)
(* handleOpen, prepareOpen *)
| FOpen (o : open_msg) | FPrepare (o : open_msg) | FVerified (o : open_msg) | FPrepFail (e : serr) | FAfterSendError | FPublish (r : resources)
| FAfterAck (r : resources) (shutdownReq : bool)
| FResKill (r : resources) | FResWait
(* stdin *)
| FStdinClose | FStdinWrite (tty pipe : bool) (b : list byte) | FStdinGone
| FResize
(* output *)
| FSpawnCopies | FCopy (t : stream) | FOnRead (t : stream) (r : stream_read) | FAfterData (t : stream) | FAfterEOS (t : stream)
| FDoClose | FAfterClose | FAfterDoClose
| FHandshake | FControl
(* the child *)
| FWaitOwned | FGroupClose | FWaitCopies | FWaitProc | FOnExit (r : Z + serr)
| FTermRequest | FTermWait1 | FTermKill | FTermWait2
(* heartbeats *)
| FBeat | FDoBeat | FAfterBeat
(* errors, closing *)
| FError (e : serr) | FClose | FCleanup (c : cleanup) | FCleanupFiles (c : cleanup) | FCleanupConn | FFinish
| FOpenTimeout | FCloseTimeout
(* shutdown *)
| FShutdown | FShutRequest | FShutWait | FShutKill | FKill (group tty : bool) | FWaitCleanup | FWaitCleanup2
(* writeMessage *)
| FSendError (e : serr) | FWrite (m : msg) | FWriting (m : msg)
(* the end of a loop *)
| FDone | FCopyDone.

Inductive choice :=
| Go | Fails | GoneErr
| Reads (r : read_result) | Bytes (b : list byte) | Eof | FileClosed
| Answers (a : open_answers) | Random (r : list byte) | Tick | Expires.

(** A goroutine: the error the last call returned, and the calls in progress. *)
Definition thread : Type := option serr * list frame.

(** The new state, the register, the frames in place of the top one, new goroutines. *)
Definition outcome : Type := option (session * option serr * list frame * list (list frame)).

Definition next (s : session) (fs : list frame) : outcome := Some (s, None, fs, []).
Definition returns (s : session) (r : option serr) : outcome := Some (s, r, [], []).
Definition waits : outcome := None.

Context (cfg : config).

(** [newSession] *)
Definition newSession : session :=
  MkSession false false false false false false false false (c_openDeadline cfg) false 0 None None false 0 false false false None
    (c_crypto cfg) false 0 0 0 0 false false [] NoChild false false false (fun _ => []) (fun _ => []) (fun _ => false) [] [].

(** ** The process *)

(** A signal reaches the process group. *)
Definition signal (kill : bool) (s : session) : session :=
  {| s with signals := child s :: signals s; killed := killed s || kill |}.

(** [unixChildProcessGroup.signal], and without a group [signalOwnedChild]: a session
    leader is signalled through its group, another process is not once it is reaped. *)
Definition signalOwned (kill group tty : bool) (s : session) : session :=
  if group then (if released s then s else signal kill s)
  else if tty then signal kill s
  else match child s with Reaped _ => s | _ => signal kill s end.

(** [unixChildProcessGroup.close] *)
Definition group_close (s : session) : session :=
  if released s then s else {| (signal true s) with released := true |}.

(** ** Streams *)

Definition set_key (f : stream -> bool) (t : stream) (b : bool) : stream -> bool := fun u => if decide (u = t) then b else f u.

Definition map_len (f : stream -> bool) : Z := (if f Stdout then 1 else 0) + (if f Stderr then 1 else 0).

Definition streams_of (tty : bool) (t : stream) : bool := match t with Stdout => true | Stderr => negb tty end.

(** [dataMessage] *)
Definition dataMessage (s : session) (t : stream) (chunk rnd : list byte) : option msg :=
  let encrypt := match payloadCrypto s with
                 | Some p => match t with Stdout => EncryptStdout p | Stderr => EncryptStderr p end
                 | None => None
                 end in
  match encrypt with
  | None => Some (MData t (PPlain chunk))
  | Some enc => MData t ∘ PEnc <$> enc rnd chunk
  end.

(** [onReadStream], up to what it writes *)
Definition onReadStream (t : stream) (r : stream_read) (ch : choice) (s : session) : outcome :=
  if closed s then returns s None
  else match r with
  | SEos =>
      match streamsOpen s, streamsEnding s with
      | Some o, Some e =>
          if negb (o t) || e t then returns s None
          else next {| s with streamsEnding := Some (set_key e t true) |} [FWrite (MEos t); FAfterEOS t]
      | _, _ => next s [FWrite (MEos t); FAfterEOS t]
      end
  | SData b =>
      match ch with
      | Random rnd => match dataMessage s t b rnd with
                      | Some m => next s [FWrite m; FAfterData t]
                      | None => next s [FError EEncrypt]
                      end
      | _ => waits
      end
  | SError => next s [FError EStream]
  end.

(** [onReadStream], after the end of the stream was sent *)
Definition afterEOS (t : stream) (r : option serr) (s : session) : outcome :=
  match r with
  | Some e => next s [FError e]
  | None =>
      let s := match streamsOpen s, streamsEnding s with
               | Some o, Some e =>
                   let o := set_key o t false in
                   {| s with streamsOpen := Some o; streamsEnding := Some (set_key e t false); streamsActive := map_len o |}
               | _, _ => if 0 <? streamsActive s then {| s with streamsActive := streamsActive s - 1 |} else s
               end in
      if (streamsActive s =? 0) && childDone s then next s [FDoClose; FAfterDoClose] else returns s None
  end.

(** [copyStreamLoop]: a read of the pipe or of the PTY *)
Definition copyStream (t : stream) (ch : choice) (s : session) : outcome :=
  match ch with
  | Bytes b =>
      if (0 <? Z.of_nat (length b)) && (Z.of_nat (length b) <=? 4096) && bool_decide (take (length b) (pipe s t) = b) && negb (pipesClosed s)
      then next {| s with pipe := fun u => if decide (u = t) then drop (length b) (pipe s t) else pipe s u |} [FOnRead t (SData b)]
      else waits
  | Eof => if bool_decide (pipe s t = []) && pipeEOF s t then next s [FOnRead t SEos] else waits
  | FileClosed => if pipesClosed s then next s [FOnRead t SEos] else waits
  | Fails => next s [FOnRead t SError]
  | _ => waits
  end.

(** ** Closing *)

(** [detachCleanupLocked] *)
Definition detachCleanupLocked (s : session) : option (session * cleanup) :=
  if closed s then None
  else Some ({| s with closed := true; openTimer := false; closeTimer := false |}, MkCleanup (cmd s) (processGroup s) (ptyFile s) (childDone s)).

Definition close (s : session) : outcome :=
  match detachCleanupLocked s with
  | None => returns s None
  | Some (s, c) => next s [FCleanup c]
  end.

(** [session.error] *)
Definition error (e : serr) (s : session) : outcome :=
  if closed s then returns s None
  else next {| s with closeErr := Some (default e (closeErr s)) |} [FClose].

(** [sessionCleanup.run]: the child, its files, the connection *)
Definition cleanup_child (c : cleanup) (s : session) : session :=
  let s := if cl_cmd c && negb (cl_childDone c) then signalOwned true (cl_group c) (cl_tty c) s else s in
  if cl_group c then group_close s else s.

Definition onOpenTimeout (s : session) : outcome :=
  if closed s || opened s then returns s None
  else next {| s with closeErr := Some (default ETimeout (closeErr s)) |} [FClose].

Definition onCloseTimeout (s : session) : outcome :=
  if closed s then returns s None
  else next {| s with closeErr := Some (default ETimeout (closeErr s)) |} [FClose].

Definition startCloseHandshake (s : session) : outcome :=
  if closed s || disconnecting s then returns s None
  else next {| s with disconnecting := true; closeTimer := c_closeDeadline cfg |} [FControl].

Definition doClose (s : session) : outcome :=
  if closed s then returns s (Some EClosed)
  else if negb (childDone s) then returns s (Some EStillRunning)
  else if 0 <? streamsActive s then returns s (Some EStillActive)
  else next s [FWrite (MClose (childExitCode s)); FAfterClose].

Definition onChildExit (r : Z + serr) (s : session) : outcome :=
  if closed s then returns s None
  else match r with
  | inl code =>
      let s := {| s with childExited := if childDone s then childExited s else childExited s + 1; childDone := true; childExitCode := code |} in
      if streamsActive s =? 0 then next s [FDoClose; FAfterDoClose] else returns s None
  | inr e => next s [FError e]
  end.

(** ** Messages *)

Definition validateE2EConfig : option serr :=
  match c_fips cfg with
  | Some e => Some e
  | None => if negb (c_resolver cfg) then None else if negb (c_identity cfg) then Some EConfig
            else if negb (c_requireProof cfg) then Some EConfig else None
  end.

(** [prepareOpen] after the proof: the resources, or an error; the process is started
    last. *)
Definition prepareOpen (o : open_msg) (a : open_answers) : result serr resources :=
  match oa_identity a with
  | Some e => Err e
  | None =>
      if negb (om_grant o) && c_requireGrant cfg then Err EGrantRequired
      else if om_grant o && negb (c_resolver cfg) then Err ENoResolver
      else
        let? crypto := (if om_grant o then match oa_resolver a with Some p => Ok (Some p) | None => Err EGrant end else Ok (c_crypto cfg)) in
        match oa_executable a, oa_credential a, oa_start a with
        | Some e, _, _ => Err e
        | _, Some e, _ => Err e
        | _, _, Some e => Err e
        | None, None, None => Ok (MkResources (om_tty o) crypto)
        end
  end.

(** [handleOpen] *)
Definition handleOpen (o : open_msg) (s : session) : outcome :=
  if closed s then returns s (Some EClosed)
  else if cmd s || opening s then returns s (Some EAlreadyStarted)
  else next {| s with opening := true |} [FPrepare o].

(** [verifyClientProof] stores the client under [s.mu]. *)
Definition prepare_verify (o : open_msg) (ch : choice) (s : session) : outcome :=
  if negb (om_config o) then next s [FPrepFail EMissingConfig]
  else match ch with
  | Answers a => match oa_verify a with
                 | Some e => next s [FPrepFail e]
                 | None => if c_requireProof cfg && closed s then next s [FPrepFail EClosed]
                           else next {| s with authenticated := true |} [FVerified o]
                 end
  | _ => waits
  end.

Definition prepare_start (o : open_msg) (ch : choice) (s : session) : outcome :=
  match ch with
  | Answers a => match prepareOpen o a with
                 | Err e => next s [FPrepFail e]
                 | Ok r => next {| s with child := Alive |} [FPublish r]
                 end
  | _ => waits
  end.

Definition open_failed (e : serr) (s : session) : outcome :=
  let s := {| s with opening := false |} in
  if closed s then returns s (Some e) else next s [FSendError e; FAfterSendError].

Definition publish (r : resources) (s : session) : outcome :=
  let s := {| s with opening := false |} in
  if closed s then next s [FResKill r; FResWait; FReturn (Some EClosed)]
  else
    let s := {| s with payloadCrypto := r_crypto r; ptyFile := r_tty r; stdinPipe := negb (r_tty r); cmd := true;
                       processGroup := c_groups cfg; streamsActive := map_len (streams_of (r_tty r));
                       streamsEnding := Some (fun _ => false); streamsOpen := Some (streams_of (r_tty r));
                       opened := true; openTimer := false |} in
    next s [FWrite (MAck (c_groups cfg)); FAfterAck r (shutdownReq s)].

Definition loops (r : resources) : list (list frame) :=
  (if r_tty r then [[FWaitOwned; FWaitProc; FDone]; [FCopy Stdout; FDone]]
   else [[FSpawnCopies; FWaitOwned; FWaitCopies; FWaitProc; FDone]]) ++
  (if c_heartbeats cfg then [[FBeat; FDone]] else []).

Definition afterAck (r : resources) (shutdownReq : bool) (e : option serr) (s : session) : outcome :=
  match e with
  | Some e => returns s (Some e)
  | None =>
      if closed s then next s [FResKill r; FResWait; FReturn (Some EClosed)]
      else Some ({| s with lifecycleWG := lifecycleWG s + Z.of_nat (length (loops r)) |}, None,
                 (if shutdownReq then [FShutRequest] else []) ++ [FReturn None], loops r)
  end.

(** [sessionOpenResources.close]: kill, wait, close the files. *)
Definition res_kill (r : resources) (s : session) : session :=
  if c_groups cfg then group_close s else signalOwned true false (r_tty r) s.

Definition reap (s : session) : session := match child s with Dead c => {| s with child := Reaped c |} | _ => s end.

Definition handleTerminate (s : session) : outcome :=
  if closed s || negb (opened s) || negb (cmd s) then returns s (Some ETerminate)
  else if childDone s || terminationReq s then returns s None
  else if negb (processGroup s) then returns s (Some ETerminationUnsupported)
  else Some ({| s with terminationReq := true; lifecycleWG := lifecycleWG s + 1 |}, None, [FReturn None], [[FTermRequest; FDone]]).

Definition handleData (is_stdin : bool) (d : in_data) (s : session) : outcome :=
  if negb is_stdin then returns s (Some EDataType)
  else if closed s then returns s (Some EClosed)
  else
    match d with
    | DEos =>
        if ptyFile s then returns s None
        else if stdinClosed s then returns s None
        else if stdinPipe s then next {| s with stdinClosed := true; stdinPipe := false |} [FStdinClose]
        else returns s (Some ENoStdin)
    | DData b => if stdinClosed s then returns s None else next s [FStdinWrite (ptyFile s) (stdinPipe s) b]
    | DEncrypted e =>
        if stdinClosed s then returns s None
        else match match payloadCrypto s with Some p => DecryptStdin p | None => None end with
             | None => returns s (Some ENoDecrypt)
             | Some dec => match dec e with
                           | None => returns s (Some EDecrypt)
                           | Some b => next s [FStdinWrite (ptyFile s) (stdinPipe s) b]
                           end
             end
    | DOther => returns s (Some EUnexpectedPayload)
    end.

Definition writeStdinPayload (tty hasPipe : bool) (b : list byte) (ch : choice) (s : session) : outcome :=
  if tty || hasPipe then
    match ch with
    | Go => if pipesClosed s then waits else returns {| s with stdin := stdin s ++ b |} None
    | Fails => returns s (Some EStdin)
    | GoneErr => if tty then waits else next {| s with stdinClosed := true; stdinPipe := false |} [FStdinGone]
    | _ => waits
    end
  else returns s (Some ENoStdin).

(** [doResize], before the terminal is resized *)
Definition doResize (size : bool) (s : session) : outcome :=
  if closed s then returns s (Some EClosed)
  else if negb size then returns s (Some EMissingSize)
  else if negb (ptyFile s) then returns s (Some ENoPTY)
  else next s [FResize].

(** [handleMessage]: the check of [closed], then the message *)
Definition handleMessage (m : inmsg) (s : session) : outcome :=
  if closed s then returns s (Some EClosed) else next s [FDispatch m].

Definition dispatch (m : inmsg) (s : session) : outcome :=
  match m with
  | INone => returns s (Some EMissingMessage)
  | IOpen o => next s [FOpen o]
  | IAttach => next s [FSendError EAttach; FReturn (Some EAttach)]
  | IDataNil => returns s (Some EMissingData)
  | IData i d => handleData i d s
  | ITerminate => handleTerminate s
  | IClientError => returns s (Some EClient)
  | IHeartbeat | IClientHello => returns s None
  | IParameterNil => returns s (Some EMissingParameter)
  | IResize size => doResize size s
  | IParameterOther => returns s (Some EParameter)
  | IOther => returns s (Some EUnexpectedPayload)
  end.

(** [onIncomingMessage], up to [handleMessage] *)
Definition onIncomingMessage (r : read_result) (s : session) : outcome :=
  if closed s then returns s None
  else match r with
  | RdExpected => next s [FClose]
  | RdError => if disconnecting s || shutdownReq s then next s [FClose] else next s [FError ERead]
  | RdBadType => next s [FError EBadType]
  | RdGarbage => next s [FError EGarbage]
  | RdMessage m => next s [FHandle m; FAfterHandle]
  end.

(** A read of the connection: messages come while it is open. *)
Definition readMessage (ch : choice) (s : session) (k : read_result -> outcome) : outcome :=
  match ch with
  | Reads r => match r with
               | RdExpected | RdError => k r
               | _ => if connClosed s then waits else k r
               end
  | _ => waits
  end.

(** [readWebTransportInitialMessageIfNeeded] *)
Definition readInitial (ch : choice) (s : session) : outcome :=
  if negb (c_webtransport cfg && c_identity cfg) then next s [FHello None]
  else readMessage ch s (fun r =>
    match r with
    | RdMessage IClientHello => next s [FHello None]
    | RdMessage m => next s [FHello (Some m)]
    | RdBadType => next s [FError EBadType]
    | RdGarbage => next s [FError EGarbage]
    | RdExpected | RdError => next s [FError ERead]
    end).

(** [sendServerHelloIfConfigured], up to the write *)
Definition sendHello (initial : option inmsg) (ch : choice) (s : session) : outcome :=
  if negb (c_identity cfg) then next s [FStart initial]
  else match ch with
  | Fails => next s [FError EHello]
  | Go => if closed s then next s [FError EClosed] else next s [FWrite MHello; FAfterHello initial]
  | _ => waits
  end.

Definition startRead (initial : option inmsg) (s : session) : outcome :=
  if closed s then next s [FWaitDone]
  else Some ({| s with lifecycleWG := lifecycleWG s + 1 |}, None, [FWaitDone], [[FReadInit initial; FDone]]).

(** ** The child *)

Definition waitOwnedProcessExit (s : session) : outcome :=
  if negb (processGroup s) then returns s None
  else match child s with
  | Dead _ => next s [FGroupClose]
  | Reaped _ => next {| s with released := true |} [FError EWaitGroupExit]
  | _ => waits
  end.

Definition waitProcess (ch : choice) (s : session) : outcome :=
  match child s, ch with
  | Dead c, Go => next (reap s) [FOnExit (inl c)]
  | Dead c, Fails => next (reap s) [FOnExit (inr EChild)]
  | Reaped _, _ => next s [FOnExit (inr EChild)]
  | _, _ => waits
  end.

(** [terminateProcess] *)
Definition termRequest (ch : choice) (s : session) : outcome :=
  match ch with
  | Go => next (signalOwned false true (ptyFile s) s) [FTermWait1]
  | GoneErr => next (signalOwned true true (ptyFile s) s) [FTermWait1]
  | Fails => next s [FError EForceTerminate]
  | _ => waits
  end.

Definition termWait (k : outcome) (ch : choice) (s : session) : outcome :=
  match ch with
  | Go => if (0 <? childExited s) || closed s then returns s None else waits
  | Expires => k
  | _ => waits
  end.

(** ** Shutdown *)

Definition shutdown (s : session) : outcome :=
  if closed s then next s [FWaitCleanup]
  else
    let s := {| s with shutdownReq := true |} in
    if negb (cmd s) then next s [FClose]
    else next s ((if childDone s then [] else [FShutRequest]) ++ [FShutWait]).

(** [requestChildShutdown] *)
Definition requestChildShutdown (s : session) : session := signalOwned false (processGroup s) (ptyFile s) s.

Definition shutWait (ch : choice) (s : session) : outcome :=
  match ch with
  | Go => if 0 <? doneCh s then returns s None else waits
  | Expires => next s [FShutKill; FClose; FWaitCleanup]
  | _ => waits
  end.

Definition shutKill (s : session) : outcome :=
  next s (if cmd s && negb (childDone s) then [FKill (processGroup s) (ptyFile s)] else []).

(** [waitForCleanup] *)
Definition waitForCleanup (ch : choice) (s : session) : outcome :=
  match ch with
  | Go => if 0 <? doneCh s then returns s None else waits
  | Expires => next {| s with connClosed := true |} [FWaitCleanup2]
  | _ => waits
  end.

(** ** Writing *)

Definition writeMessage (m : msg) (ch : choice) (s : session) : outcome :=
  match ch with
  | Fails => returns s (Some EMarshal)
  | Go => if writeMu s then waits
          else if closed s then returns s (Some EClosed)
          else next {| s with writeMu := true |} [FWriting m]
  | _ => waits
  end.

(** [WriteMessage] of the transport; [wire] lists the messages written whole: a write that
    fails may leave the head of a frame behind, which is no message for the peer. *)
Definition writing (m : msg) (ch : choice) (s : session) : outcome :=
  match ch with
  | Go => if connClosed s then waits else returns {| s with writeMu := false; wire := wire s ++ [m] |} None
  | Fails => returns {| s with writeMu := false |} (Some EWrite)
  | _ => waits
  end.

(** ** A step of a goroutine *)

Definition after (r : option serr) (s : session) (k : outcome) : outcome :=
  match r with Some e => next s [FError e] | None => k end.

(** [run], the check of the configuration *)
Definition run (s : session) : outcome :=
  match validateE2EConfig with Some e => next s [FError e] | None => next s [FInitial] end.

Definition readLoop (initial : option inmsg) (s : session) : outcome :=
  match initial with Some m => next s [FHandle m; FAfterInit] | None => next s [FRead] end.

(** [heartbeatLoop]: the end of the session, or a tick *)
Definition heartbeatLoop (ch : choice) (s : session) : outcome :=
  match ch with
  | Go => if closed s then returns s None else waits
  | Tick => next s [FDoBeat]
  | _ => waits
  end.

Definition doSendHeartbeat (s : session) : outcome :=
  if closed s then returns s None else next s [FWrite MHeartbeat; FAfterBeat].

(** [waitPipedProcessLoop], the copies of the pipes *)
Definition spawnCopies (s : session) : outcome :=
  Some ({| s with copyWG := copyWG s + 2 |}, None, [], [[FCopy Stdout; FCopyDone]; [FCopy Stderr; FCopyDone]]).

(** [terminateProcess], when the grace has passed *)
Definition termKill (ch : choice) (s : session) : outcome :=
  match ch with
  | Go => next (signalOwned true true (ptyFile s) s) [FTermWait2]
  | Fails => next s [FError EForceTerminate]
  | _ => waits
  end.

(** [sessionCleanup.run]: the files, then the connection *)
Definition cleanup_files (c : cleanup) (s : session) : outcome :=
  next {| s with pipesClosed := pipesClosed s || cl_cmd c |} [FCleanupConn].

Definition cleanup_conn (s : session) : outcome := Some ({| s with connClosed := true |}, None, [], [[FFinish]]).

(** [sessionCleanup.finish] *)
Definition finish (s : session) : outcome :=
  if lifecycleWG s =? 0 then returns {| s with doneCh := doneCh s + 1 |} None else waits.

Definition exec (f : frame) (r : option serr) (ch : choice) (s : session) : outcome :=
  match f with
  | FRun => run s
  | FInitial => readInitial ch s
  | FHello initial => sendHello initial ch s
  | FAfterHello initial => after r s (next s [FStart initial])
  | FStart initial => startRead initial s
  | FWaitDone => if 0 <? doneCh s then returns s None else waits
  | FReadInit initial => readLoop initial s
  | FAfterInit => after r s (if closed s then returns s None else next s [FRead])
  | FRead => readMessage ch s (fun x => next s [FIncoming x])
  | FIncoming x => onIncomingMessage x s
  | FAfterHandle => after r s (next s [FRead])
  | FHandle m => handleMessage m s
  | FDispatch m => dispatch m s
  | FReturn r => returns s r
  | FOpen o => handleOpen o s
  | FPrepare o => prepare_verify o ch s
  | FVerified o => prepare_start o ch s
  | FPrepFail e => open_failed e s
  | FAfterSendError => match r with Some e => returns s (Some e) | None => next s [FHandshake; FReturn None] end
  | FPublish res => publish res s
  | FAfterAck res sd => afterAck res sd r s
  | FResKill res => next (res_kill res s) []
  | FResWait => match child s with Dead _ | Reaped _ => next (reap s) [] | _ => waits end
  | FStdinClose => match ch with Go => returns s None | Fails => returns s (Some EStdin) | _ => waits end
  | FStdinWrite tty p b => writeStdinPayload tty p b ch s
  | FStdinGone => match ch with Go => returns s None | Fails => returns s (Some EStdin) | _ => waits end
  | FResize => match ch with Go => returns s None | Fails => returns s (Some ESize) | _ => waits end
  | FSpawnCopies => spawnCopies s
  | FCopy t => copyStream t ch s
  | FOnRead t x => onReadStream t x ch s
  | FAfterData t => after r s (next s [FCopy t])
  | FAfterEOS t => afterEOS t r s
  | FDoClose => doClose s
  | FAfterClose => match r with Some e => returns s (Some e) | None => next s [FHandshake; FReturn None] end
  | FAfterDoClose => after r s (returns s None)
  | FHandshake => startCloseHandshake s
  | FControl => match ch with Go => returns s None | Fails => next s [FClose] | _ => waits end
  | FWaitOwned => waitOwnedProcessExit s
  | FGroupClose => returns (group_close s) None
  | FWaitCopies => if copyWG s =? 0 then returns s None else waits
  | FWaitProc => waitProcess ch s
  | FOnExit x => onChildExit x s
  | FTermRequest => termRequest ch s
  | FTermWait1 => termWait (next s [FTermKill]) ch s
  | FTermKill => termKill ch s
  | FTermWait2 => termWait (next s [FError ETerminationTimeout]) ch s
  | FBeat => heartbeatLoop ch s
  | FDoBeat => doSendHeartbeat s
  | FAfterBeat => after r s (next s [FBeat])
  | FError e => error e s
  | FClose => close s
  | FCleanup c => next (cleanup_child c s) [FCleanupFiles c]
  | FCleanupFiles c => cleanup_files c s
  | FCleanupConn => cleanup_conn s
  | FFinish => finish s
  | FOpenTimeout => onOpenTimeout s
  | FCloseTimeout => onCloseTimeout s
  | FShutdown => shutdown s
  | FShutRequest => next (requestChildShutdown s) []
  | FShutWait => shutWait ch s
  | FShutKill => shutKill s
  | FKill group tty => next (signalOwned true group tty s) []
  | FWaitCleanup => waitForCleanup ch s
  | FWaitCleanup2 => match ch with Go => if 0 <? doneCh s then returns s None else waits | Expires => returns s None | _ => waits end
  | FSendError e => next s [FWrite (MError e)]
  | FWrite m => writeMessage m ch s
  | FWriting m => writing m ch s
  | FDone => returns {| s with lifecycleWG := lifecycleWG s - 1 |} None
  | FCopyDone => returns {| s with copyWG := copyWG s - 1 |} None
  end.

(** ** The outside *)

Inductive move :=
| Output (t : stream) (b : list byte) | CloseOutput (t : stream) | Exit (code : Z) | Killed
| OpenTimerFires | CloseTimerFires | ShutdownAsked.

Definition run_move (m : move) (s : session) : option (session * list (list frame)) :=
  match m with
  | Output t b =>
      if bool_decide (child s <> NoChild) && negb (pipeEOF s t)
      then Some ({| s with pipe := fun u => if decide (u = t) then pipe s t ++ b else pipe s u;
                           produced := fun u => if decide (u = t) then produced s t ++ b else produced s u |}, [])
      else None
  | CloseOutput t =>
      if bool_decide (child s <> NoChild) then Some ({| s with pipeEOF := set_key (pipeEOF s) t true |}, []) else None
  | Exit code => match child s with Alive => Some ({| s with child := Dead code |}, []) | _ => None end
  | Killed => match child s with Alive => if killed s then Some ({| s with child := Dead (-1) |}, []) else None | _ => None end
  | OpenTimerFires => if openTimer s then Some ({| s with openTimer := false |}, [[FOpenTimeout]]) else None
  | CloseTimerFires => if closeTimer s then Some ({| s with closeTimer := false |}, [[FCloseTimeout]]) else None
  | ShutdownAsked => Some (s, [[FShutdown]])
  end.

(** ** Runs *)

Definition state : Type := session * list thread.

Definition start (fs : list frame) : thread := (None, fs).

Definition step_thread (i : nat) (ch : choice) (σ : state) : option state :=
  match σ.2 !! i with
  | Some (r, f :: k) =>
      match exec f r ch σ.1 with
      | Some (s, r', fs, new) => Some (s, <[i := (r', fs ++ k)]> σ.2 ++ (start <$> new))
      | None => None
      end
  | _ => None
  end.

Inductive event := Thread (i : nat) (ch : choice) | Move (m : move).

Definition step (e : event) (σ : state) : option state :=
  match e with
  | Thread i ch => step_thread i ch σ
  | Move m => match run_move m σ.1 with Some (s, new) => Some (s, σ.2 ++ (start <$> new)) | None => None end
  end.

Fixpoint runs (es : list event) (σ : state) : option state :=
  match es with
  | [] => Some σ
  | e :: es => match step e σ with Some σ => runs es σ | None => None end
  end.

(** A session is run, or closed at once when the handler is draining. *)
Inductive initial : state -> Prop :=
| initial_run : initial (newSession, [start [FRun]])
| initial_rejected : initial (newSession, [start [FClose]]).

Inductive reachable : state -> Prop :=
| reach_init σ : initial σ -> reachable σ
| reach_step σ e σ' : reachable σ -> step e σ = Some σ' -> reachable σ'.
End WebttySession.
