(* ===== verification/WebttySessionInv.v ===== *)
(** * WebttySessionInv: counting the goroutines of a session

    Which goroutines are at which point of [WebttySession] is counted by tokens: a weight
    per frame, summed over the stacks of all goroutines.  The counts tell which parts of
    the code run at most once, and are related to the fields of the session. *)

From S2P Require Import Prelude WebttySession.

Section Counting.
Context {EP : Type} (cfg : @config EP).
Implicit Types (f : @frame EP) (s : @session EP) (p : list (@thread EP)).

(** ** Sums *)

Fixpoint toks (T : @frame EP -> Z) (fs : list (@frame EP)) : Z := match fs with [] => 0 | f :: fs => T f + toks T fs end.
Fixpoint total (T : @frame EP -> Z) (p : list (@thread EP)) : Z := match p with [] => 0 | th :: p => toks T th.2 + total T p end.

Lemma toks_app T a b : toks T (a ++ b) = toks T a + toks T b.
Proof. induction a as [|f a IH]; cbn; [done|]. rewrite IH. lia. Qed.

Lemma tokens_app T p q : total T (p ++ q) = total T p + total T q.
Proof. induction p as [|th p IH]; cbn; [done|]. rewrite IH. lia. Qed.

Lemma tokens_insert T p i th th' : p !! i = Some th -> total T (<[i := th']> p) = total T p - toks T th.2 + toks T th'.2.
Proof.
  revert i. induction p as [|x p IH]; intros [|i] Hi; try done.
  - injection Hi as ->. change (<[0%nat := th']> (th :: p)) with (th' :: p). cbn [total]. lia.
  - change (<[Datatypes.S i := th']> (x :: p)) with (x :: <[i := th']> p). cbn [total]. rewrite (IH i Hi). lia.
Qed.

Lemma toks_nonneg T fs : (forall f, 0 <= T f) -> 0 <= toks T fs.
Proof. intros HT. induction fs as [|f fs IH]; cbn; [done|]. specialize (HT f). lia. Qed.

Lemma tokens_nonneg T p : (forall f, 0 <= T f) -> 0 <= total T p.
Proof.
  intros HT. induction p as [|th p IH]; cbn; [done|]. pose proof (toks_nonneg T th.2 HT). lia.
Qed.

Lemma total_lookup T p i th : (forall f, 0 <= T f) -> p !! i = Some th -> toks T th.2 <= total T p.
Proof.
  intros HT. revert i. induction p as [|x p IH]; intros [|i]; cbn; try done.
  - intros [= ->]. pose proof (tokens_nonneg T p HT). lia.
  - intros Hi. pose proof (toks_nonneg T x.2 HT). specialize (IH i Hi). lia.
Qed.

(** What a step of a goroutine adds. *)
Lemma total_step T p i r f k r' fs new : p !! i = Some (r, f :: k) ->
  total T (<[i := (r', fs ++ k)]> p ++ (start <$> new)) = total T p + (toks T fs + total T (start <$> new) - T f).
Proof.
  intros Hi. rewrite tokens_app, (tokens_insert T p i _ _ Hi). cbn [snd]. rewrite toks_app. cbn [toks]. lia.
Qed.

(** ** Tokens *)

Definition tDone f : Z := match f with FDone => 1 | _ => 0 end.
Definition tCopyDone f : Z := match f with FCopyDone => 1 | _ => 0 end.
Definition tClosing f : Z := match f with FCleanup _ | FCleanupFiles _ | FCleanupConn | FFinish => 1 | _ => 0 end.
Definition tOpening f : Z := match f with FPrepare _ | FVerified _ | FPrepFail _ | FPublish _ => 1 | _ => 0 end.
Definition tAfterAck f : Z := match f with FAfterAck _ _ => 1 | _ => 0 end.
Definition tAckW f : Z := match f with FWrite (MAck _) | FWriting (MAck _) => 1 | _ => 0 end.
Definition tLoop f : Z :=
  match f with
  | FSpawnCopies | FCopy _ | FOnRead _ _ | FAfterData _ | FAfterEOS _ | FDoClose | FWaitOwned | FGroupClose | FWaitCopies | FWaitProc | FOnExit _
  | FCopyDone | FBeat | FDoBeat | FAfterBeat => 1
  | FWrite m | FWriting m => match m with MData _ _ | MEos _ | MClose _ | MHeartbeat => 1 | _ => 0 end
  | _ => 0
  end.
Definition tPre (t : stream) f : Z :=
  match f with
  | FSpawnCopies => 1
  | FCopy u | FOnRead u _ | FAfterData u => if decide (u = t) then 1 else 0
  | FWrite (MEos u) | FWriting (MEos u) => if decide (u = t) then 1 else 0
  | _ => 0
  end.
Definition tAfterEOS (t : stream) f : Z := match f with FAfterEOS u => if decide (u = t) then 1 else 0 | _ => 0 end.
Definition tWait f : Z := match f with FWaitProc | FOnExit _ => 1 | _ => 0 end.
Definition tDoClose f : Z := match f with FDoClose => 1 | FWrite (MClose _) | FWriting (MClose _) => 1 | _ => 0 end.
Definition tOwner f : Z := match f with FPublish _ | FAfterAck _ _ | FResWait | FWaitProc => 1 | _ => 0 end.

(** [run] before it starts the read loop; before its hello is written; the goroutines that
    talk to the client. *)
Definition tPrefix f : Z :=
  match f with
  | FRun | FInitial | FHello _ | FAfterHello _ | FStart _ => 1
  | _ => 0
  end.
Definition tHello f : Z :=
  match f with FRun | FInitial | FHello _ => 1 | FWrite MHello | FWriting MHello => 1 | _ => 0 end.
Definition tReader f : Z :=
  match f with
  | FReadInit _ | FAfterInit | FRead | FIncoming _ | FAfterHandle | FHandle _ | FDispatch _ | FOpen _ | FPrepare _ | FVerified _ | FPrepFail _
  | FAfterSendError | FPublish _ | FAfterAck _ _ | FResKill _ | FResWait | FStdinClose | FStdinWrite _ _ _ | FStdinGone | FResize
  | FTermRequest | FTermWait1 | FTermKill | FTermWait2 | FAfterClose | FAfterDoClose | FSendError _ | FDone => 1
  | FWrite m | FWriting m => match m with MHello => 0 | _ => 1 end
  | _ => tLoop f
  end.

(** ** The wire *)

Definition bz (b : bool) : Z := if b then 1 else 0.

Fixpoint count (W : @msg EP -> bool) (w : list (@msg EP)) : Z := match w with [] => 0 | m :: w => bz (W m) + count W w end.

Definition is_hello (m : @msg EP) : bool := match m with MHello => true | _ => false end.
Definition is_ack (m : @msg EP) : bool := match m with MAck _ => true | _ => false end.
Definition is_eos (t : stream) (m : @msg EP) : bool := match m with MEos u => bool_decide (u = t) | _ => false end.
Definition is_close (m : @msg EP) : bool := match m with MClose _ => true | _ => false end.
Definition is_loop (m : @msg EP) : bool := match m with MData _ _ | MEos _ | MClose _ | MHeartbeat => true | _ => false end.

Lemma count_app W a b : count W (a ++ b) = count W a + count W b.
Proof. induction a as [|m a IH]; cbn; [done|]. rewrite IH. lia. Qed.

Lemma count_snoc W a m : count W (a ++ [m]) = count W a + bz (W m).
Proof. rewrite count_app. cbn. lia. Qed.

Lemma count_nonneg W w : 0 <= count W w.
Proof. induction w as [|m w IH]; cbn; [done|]. unfold bz. destruct (W m); lia. Qed.

Lemma count_le W V w : (forall m, W m = true -> V m = true) -> count W w <= count V w.
Proof.
  intros H. induction w as [|m w IH]; cbn; [done|]. specialize (H m). unfold bz. destruct (W m); [rewrite H by done; lia|destruct (V m); lia].
Qed.

Lemma count_elem W w : 0 < count W w <-> exists m, m ∈ w /\ W m = true.
Proof.
  split.
  - induction w as [|m w IH]; cbn; [lia|]. unfold bz. destruct (W m) eqn:Hm; [intros _; exists m; split; [left|done]|].
    intros Hc. destruct IH as (x & Hx & HW); [lia|]. exists x. split; [by right|done].
  - intros (m & Hm & HW). induction Hm as [m w|m x w Hm IH]; cbn; unfold bz.
    + rewrite HW. pose proof (count_nonneg W w). lia.
    + specialize (IH HW). destruct (W x); lia.
Qed.

(** ** Cases of a step *)

Lemma dataMessage_is s t b rnd m : dataMessage s t b rnd = Some m -> exists x, m = MData t x.
Proof.
  unfold dataMessage. destruct (match payloadCrypto s with Some _ => _ | None => _ end) as [enc|]; [|intros [= <-]; eauto].
  destruct (enc rnd b); [|done]. intros [= <-]. eauto.
Qed.

(** The helpers that change the process change nothing else. *)
Definition process_only s s' : Prop :=
  exists c kl rl sg, s' = {| s with child := c; killed := kl; released := rl; signals := sg |}.

Lemma process_id s : process_only s s.
Proof. exists (child s), (killed s), (released s), (signals s). by destruct s. Qed.

Lemma process_trans s s1 s2 : process_only s s1 -> process_only s1 s2 -> process_only s s2.
Proof. intros (c & kl & rl & sg & ->) (c' & kl' & rl' & sg' & ->). by exists c', kl', rl', sg'. Qed.

Lemma process_signal k s : process_only s (signal k s).
Proof. eexists _, _, _, _. reflexivity. Qed.

Lemma process_signalOwned k g t s : process_only s (signalOwned k g t s).
Proof.
  unfold signalOwned. destruct g; [destruct (released s)|destruct t; [|destruct (child s)]]; first [apply process_id|apply process_signal].
Qed.

Lemma process_group_close s : process_only s (group_close s).
Proof. unfold group_close. destruct (released s); [apply process_id|eexists _, _, _, _; reflexivity]. Qed.

Lemma process_cleanup c s : process_only s (cleanup_child c s).
Proof.
  unfold cleanup_child. apply (process_trans _ (if cl_cmd c && negb (cl_childDone c) then signalOwned true (cl_group c) (cl_tty c) s else s)).
  - destruct (_ && _); [apply process_signalOwned|apply process_id].
  - destruct (cl_group c); [apply process_group_close|apply process_id].
Qed.

Lemma process_res_kill r s : process_only s (res_kill cfg r s).
Proof. unfold res_kill. destruct (c_groups cfg); [apply process_group_close|apply process_signalOwned]. Qed.

Lemma process_reap s : process_only s (reap s).
Proof. unfold reap. destruct (child s); first [apply process_id|eexists _, _, _, _; reflexivity]. Qed.

End Counting.

(** ** Tactics *)

(** Splits [H : exec ... = Some ...] into its branches. *)
Ltac exec_cases H :=
  match type of H with exec _ ?f _ _ _ = _ => try (is_var f; destruct f) end;
  cbv beta iota zeta delta [exec run readLoop heartbeatLoop doSendHeartbeat spawnCopies termKill cleanup_files cleanup_conn finish after readMessage readInitial sendHello startRead onIncomingMessage handleMessage dispatch handleData handleTerminate
    doResize handleOpen prepare_verify prepare_start open_failed publish afterAck writeStdinPayload copyStream onReadStream afterEOS
    doClose startCloseHandshake waitOwnedProcessExit waitProcess onChildExit termRequest termWait error close detachCleanupLocked
    onOpenTimeout onCloseTimeout shutdown shutWait shutKill waitForCleanup writeMessage writing next returns waits] in H;
  repeat match type of H with
  | (match (match ?x with _ => _ end) with _ => _ end) = _ => destruct x eqn:?; try discriminate H
  | (match ?x with _ => _ end) = _ => destruct x eqn:?; try discriminate H
  end;
  try discriminate H; injection H as <- <- <- <-;
  repeat match goal with
  | Hb : _ = true |- _ => progress cbn in Hb
  | Hb : _ = false |- _ => progress cbn in Hb
  | Hb : _ || _ = false |- _ => apply orb_false_iff in Hb as [? ?]
  | Hb : _ && _ = true |- _ => apply andb_true_iff in Hb as [? ?]
  | Hb : negb _ = true |- _ => apply negb_true_iff in Hb
  | Hb : negb _ = false |- _ => apply negb_false_iff in Hb
  | Hd : dataMessage _ _ _ _ = Some ?m |- _ => is_var m; destruct (dataMessage_is _ _ _ _ _ Hd) as [? ->]
  end.

Ltac abstract_process :=
  unfold requestChildShutdown;
  repeat match goal with
  | |- context [cleanup_child ?c ?s] => destruct (process_cleanup c s) as (? & ? & ? & ? & ->)
  | |- context [res_kill ?g ?r ?s] => destruct (process_res_kill g r s) as (? & ? & ? & ? & ->)
  | |- context [signalOwned ?k ?g ?t ?s] => destruct (process_signalOwned k g t s) as (? & ? & ? & ? & ->)
  | |- context [group_close ?s] => destruct (process_group_close s) as (? & ? & ? & ? & ->)
  | |- context [reap ?s] => destruct (process_reap s) as (? & ? & ? & ? & ->)
  end.

Ltac tokens := cbn [toks total tDone tCopyDone tClosing tOpening tAfterAck tAckW tLoop tPre tAfterEOS tWait tDoClose tOwner tPrefix tHello tReader
  start fmap list_fmap fst snd app bz length].

(** Splits what is left in a goal after the cases. *)
Ltac split_goal := unfold loops; repeat match goal with |- context [match ?x with _ => _ end] => destruct x eqn:?; cbn end.

(** Closes a count after [exec_cases]. *)
Ltac use_bools := repeat match goal with Hb : _ = true |- _ => rewrite Hb | Hb : _ = false |- _ => rewrite Hb end.
Ltac counted := first [solve [tokens; cbn; use_bools; tokens; lia] | abstract_process; split_goal; tokens; cbn; use_bools; tokens; lia | congruence].

Ltac kept := first [done | abstract_process; split_goal; done].


(** Messages a write adds. *)
Ltac written := match goal with m : @msg _ |- _ => destruct m end.
Ltac wire_counted :=
  first [counted | cbn; try written; cbn; rewrite ?count_snoc; cbn; repeat case_bool_decide; repeat case_decide; simplify_eq; cbn; lia].

(** ** Steps *)

Section Steps.
Context {EP : Type} (cfg : @config EP).
Implicit Types (f : @frame EP) (s : @session EP) (p : list (@thread EP)).

Lemma wg_exec f r ch s s' r' fs new : exec cfg f r ch s = Some (s', r', fs, new) ->
  lifecycleWG s' = lifecycleWG s + (toks tDone fs + total tDone (start <$> new) - tDone f) /\
  copyWG s' = copyWG s + (toks tCopyDone fs + total tCopyDone (start <$> new) - tCopyDone f).
Proof. intros H. exec_cases H; counted. Qed.

Lemma closing_exec f r ch s s' r' fs new : exec cfg f r ch s = Some (s', r', fs, new) ->
  (toks tClosing fs + total tClosing (start <$> new) - tClosing f) + doneCh s' - doneCh s = bz (closed s') - bz (closed s).
Proof. intros H. exec_cases H; counted. Qed.

Lemma opening_exec f r ch s s' r' fs new : exec cfg f r ch s = Some (s', r', fs, new) -> tOpening f <= bz (opening s) ->
  toks tOpening fs + total tOpening (start <$> new) - tOpening f = bz (opening s') - bz (opening s).
Proof.
  intros H Hf. destruct (opening s) eqn:Ho; exec_cases H; cbn in Hf; first [counted | lia].
Qed.

(** Only [publish] changes these. *)
Definition keeps_open s s' : Prop :=
  cmd s' = cmd s /\ opened s' = opened s /\ processGroup s' = processGroup s /\ ptyFile s' = ptyFile s /\ payloadCrypto s' = payloadCrypto s.

Lemma keeps_exec f r ch s s' r' fs new : exec cfg f r ch s = Some (s', r', fs, new) -> (forall x, f <> FPublish x) -> keeps_open s s'.
Proof. intros H Hf. unfold keeps_open. exec_cases H; try (by destruct (Hf _ eq_refl)); kept. Qed.

Lemma publish_exec x r ch s s' r' fs new : exec cfg (FPublish x) r ch s = Some (s', r', fs, new) ->
  (closed s = true /\ keeps_open s s' /\ wire s' = wire s /\ fs = [FResKill x; FResWait; FReturn (Some EClosed)] /\ new = []) \/
  (closed s = false /\ cmd s' = true /\ opened s' = true /\ processGroup s' = c_groups cfg /\ ptyFile s' = r_tty x /\ wire s' = wire s /\
   childDone s' = childDone s /\ streamsActive s' = map_len (streams_of (r_tty x)) /\ streamsOpen s' = Some (streams_of (r_tty x)) /\
   streamsEnding s' = Some (fun _ => false) /\ fs = [FWrite (MAck (c_groups cfg)); FAfterAck x (shutdownReq s)] /\ new = []).
Proof. intros H. unfold keeps_open. exec_cases H; [left|right]; by split_and!. Qed.

Lemma prefix_exec f r ch s s' r' fs new : exec cfg f r ch s = Some (s', r', fs, new) ->
  toks tPrefix fs + total tPrefix (start <$> new) <= tPrefix f.
Proof. intros H. exec_cases H; counted. Qed.

Lemma reader_exec f r ch s s' r' fs new : exec cfg f r ch s = Some (s', r', fs, new) -> tReader f = 0 ->
  opening s' = opening s /\
  (toks tReader fs + total tReader (start <$> new) = 0 \/ (tPrefix f = 1 /\ toks tPrefix fs + total tPrefix (start <$> new) = 0)).
Proof.
  intros H Hf. exec_cases H; try discriminate Hf;
    try match type of Hf with tReader (FWrite ?m) = _ => destruct m; try discriminate Hf | tReader (FWriting ?m) = _ => destruct m; try discriminate Hf end;
    first [split; [reflexivity|left; reflexivity] | split; [reflexivity|right; split; reflexivity] |
           split; [abstract_process; reflexivity|left; split_goal; reflexivity] | split; [reflexivity|left; split_goal; reflexivity]].
Qed.

Lemma before_exec f r ch s s' r' fs new : exec cfg f r ch s = Some (s', r', fs, new) -> tLoop f = 0 -> tAfterAck f = 0 ->
  toks tLoop fs + total tLoop (start <$> new) = 0 /\ childDone s' = childDone s /\ count is_loop (wire s') = count is_loop (wire s).
Proof.
  intros H Hf Ha. exec_cases H; try discriminate Hf; try discriminate Ha; try (by split_and!).
  all: try (abstract_process; split_goal; by split_and!).
  all: destruct m; try discriminate Hf; cbn; rewrite ?count_snoc; cbn; split_and!; (done || lia).
Qed.

Lemma ack_exec f r ch s s' r' fs new : exec cfg f r ch s = Some (s', r', fs, new) -> (tOpening f = 1 -> cmd s = false) ->
  (toks tAfterAck fs + total tAfterAck (start <$> new)) - tAfterAck f <= bz (cmd s') - bz (cmd s) /\
  (toks tAckW fs + total tAckW (start <$> new)) - tAckW f + count is_ack (wire s') - count is_ack (wire s) <= bz (cmd s') - bz (cmd s).
Proof.
  intros H Hf. exec_cases H; try (rewrite (Hf eq_refl)); try counted.
  all: try (destruct m; cbn; rewrite ?count_snoc; cbn; lia).
Qed.

Lemma pre_exec t f r ch s s' r' fs new : exec cfg f r ch s = Some (s', r', fs, new) -> tAfterAck f = 0 ->
  toks (tPre t) fs + total (tPre t) (start <$> new) + count (is_eos t) (wire s') <= tPre t f + count (is_eos t) (wire s).
Proof. intros H Hf. exec_cases H; try discriminate Hf; wire_counted. Qed.

Lemma wait_exec f r ch s s' r' fs new : exec cfg f r ch s = Some (s', r', fs, new) -> tAfterAck f = 0 -> (tWait f = 1 -> childDone s = false) ->
  toks tWait fs + total tWait (start <$> new) + bz (childDone s') <= tWait f + bz (childDone s).
Proof. intros H Hf Hw. exec_cases H; try discriminate Hf; try pose proof (Hw eq_refl); counted. Qed.

(** *** The maps of streams *)

Definition key (m : option (stream -> bool)) (t : stream) : bool := match m with Some g => g t | None => false end.

Lemma set_key_same g t b : set_key g t b t = b.
Proof. unfold set_key. by rewrite decide_True. Qed.
Lemma set_key_other g t u b : u <> t -> set_key g t b u = g u.
Proof. intros. unfold set_key. by rewrite decide_False. Qed.

(** The maps are made; [streamsActive] is the number of open streams; a stream that is not
    open any more has been ended. *)
Record maps_ok s : Prop := {
  m_open : exists o, streamsOpen s = Some o /\ streamsActive s = map_len o;
  m_ending : is_Some (streamsEnding s);
  m_known : forall t, key (streamsOpen s) t = true -> streams_of (ptyFile s) t = true;
  m_ended : forall t, streams_of (ptyFile s) t = true -> key (streamsOpen s) t = false -> 0 < count (is_eos t) (wire s);
}.

(** What only the copy loops and [publish] change. *)
Definition keeps_maps s s' : Prop :=
  streamsOpen s' = streamsOpen s /\ streamsEnding s' = streamsEnding s /\ streamsActive s' = streamsActive s /\ ptyFile s' = ptyFile s.

Lemma keeps_maps_exec f r ch s s' r' fs new : exec cfg f r ch s = Some (s', r', fs, new) ->
  (forall x, f <> FPublish x) -> (forall t x, f <> FOnRead t x) -> (forall t, f <> FAfterEOS t) -> keeps_maps s s'.
Proof.
  intros H Hp Ho He. unfold keeps_maps. exec_cases H; try (by destruct (Hp _ eq_refl)); try (by destruct (Ho _ _ eq_refl)); try (by destruct (He _ eq_refl)); kept.
Qed.

Lemma wire_grows f r ch s s' r' fs new : exec cfg f r ch s = Some (s', r', fs, new) ->
  wire s' = wire s \/ exists m, f = FWriting m /\ wire s' = wire s ++ [m] /\ r' = None /\ fs = [] /\ new = [].
Proof. intros H. exec_cases H; first [left; kept | right; eexists; by split_and!]. Qed.

Lemma onRead_exec t x r ch s s' r' fs new : exec cfg (FOnRead t x) r ch s = Some (s', r', fs, new) -> maps_ok s ->
  new = [] /\ wire s' = wire s /\ closed s' = closed s /\ childDone s' = childDone s /\ pipe s' = pipe s /\ payloadCrypto s' = payloadCrypto s /\
  produced s' = produced s /\ pipeEOF s' = pipeEOF s /\ streamsOpen s' = streamsOpen s /\ streamsActive s' = streamsActive s /\ ptyFile s' = ptyFile s /\
  ((streamsEnding s' = streamsEnding s /\ ((fs = [] \/ exists e, fs = [FError e]) \/
     (exists b rnd pl, x = SData b /\ dataMessage s t b rnd = Some (MData t pl) /\ fs = [FWrite (MData t pl); FAfterData t]))) \/
   (x = SEos /\ closed s = false /\ fs = [FWrite (MEos t); FAfterEOS t] /\ key (streamsOpen s) t = true /\ key (streamsEnding s) t = false /\
    exists e, streamsEnding s = Some e /\ streamsEnding s' = Some (set_key e t true))).
Proof.
  intros H [(o & Ho & _) [e He] _ _]. cbn in H. unfold onReadStream in H. rewrite Ho, He in *. destruct (closed s) eqn:Hc.
  { injection H as <- <- <- <-. split_and!; try done. left. split; [done|]. left. by left. }
  destruct x as [b| |].
  - destruct ch; try done. destruct (dataMessage s t b r0) as [m|] eqn:Hd; injection H as <- <- <- <-; split_and!; try done; left; (split; [done|]).
    + right. destruct (dataMessage_is _ _ _ _ _ Hd) as [p ->]. eauto 10.
    + left. right. eauto.
  - destruct (negb (o t) || e t) eqn:Hb; injection H as <- <- <- <-; split_and!; try done.
    + left. split; [done|]. left. by left.
    + apply orb_false_iff in Hb as [Hb1%negb_false_iff Hb2]. right. split_and!; try done. by exists e.
  - injection H as <- <- <- <-. split_and!; try done. left. split; [done|]. left. right. eauto.
Qed.

Lemma afterEOS_exec t r ch s s' r' fs new : exec cfg (FAfterEOS t) r ch s = Some (s', r', fs, new) -> maps_ok s ->
  new = [] /\ wire s' = wire s /\ closed s' = closed s /\ childDone s' = childDone s /\ ptyFile s' = ptyFile s /\
  ((exists e, r = Some e /\ s' = s /\ fs = [FError e]) \/
   (r = None /\ exists o e, streamsOpen s = Some o /\ streamsEnding s = Some e /\
     streamsOpen s' = Some (set_key o t false) /\ streamsEnding s' = Some (set_key e t false) /\
     streamsActive s' = map_len (set_key o t false) /\
     fs = if (map_len (set_key o t false) =? 0) && childDone s then [FDoClose; FAfterDoClose] else [])).
Proof.
  intros H [(o & Ho & _) [e He] _ _]. cbn in H. unfold afterEOS in H. destruct r as [er|].
  { injection H as <- <- <- <-. split_and!; try done. left. eauto. }
  rewrite Ho, He in H. cbv zeta in H. cbn [streamsActive childDone] in H.
  destruct ((map_len (set_key o t false) =? 0) && childDone s) eqn:Hb; injection H as <- <- <- <-; split_and!; try done; right; (split; [done|]);
    exists o, e; rewrite Hb; by split_and!.
Qed.
End Steps.
