(* ===== verification/WebttySessionSteps.v ===== *)
(** * WebttySessionSteps: the invariant of a session

    The counts of [WebttySessionInv], assertions about the goroutine at each frame that
    no other goroutine can falsify, and the order of the messages on the wire, kept by
    every step. *)

From S2P Require Import Prelude WebttySession WebttySessionInv.

Section WebttySessionSteps.
Context {EP : Type} (cfg : @config EP).
Implicit Types (f : @frame EP) (s : @session EP) (p : list (@thread EP)).

(** ** Stacks *)

(** [f] may be called by [g]: what was written is what the caller asked for. *)
Definition adj f (g : @frame EP) : bool :=
  match f with
  | FWrite m | FWriting m =>
      match m, g with
      | MHello, FAfterHello _ | MAck _, FAfterAck _ _ | MError _, FAfterSendError | MError _, FReturn _ | MHeartbeat, FAfterBeat
      | MClose _, FAfterClose => true
      | MData t _, FAfterData u => bool_decide (t = u)
      | MEos t, FAfterEOS u => bool_decide (t = u)
      | _, _ => false
      end
  | FSendError _ => match g with FAfterSendError | FReturn _ => true | _ => false end
  | FSpawnCopies => match g with FWaitOwned => true | _ => false end
  | _ => match g with
         | FAfterHello _ | FAfterAck _ _ | FAfterSendError | FAfterBeat | FAfterData _ | FAfterEOS _ | FAfterClose => false
         | FSpawnCopies | FCopy _ | FOnRead _ _ | FWrite _ | FWriting _ | FSendError _ | FWaitOwned | FGroupClose | FResKill _
         | FCleanup _ | FCleanupFiles _ | FCleanupConn | FFinish => false  (* never wait for a call *)
         | _ => true
         end
  end.

Definition writes f : bool := match f with FWrite _ | FWriting _ | FSendError _ => true | _ => false end.

Fixpoint stack_ok (st : list (@frame EP)) : Prop :=
  match st with
  | f :: k => match k with g :: _ => adj f g = true | [] => writes f = false end /\ stack_ok k
  | [] => True
  end.

Lemma stack_exec f r ch s s' r' fs new k : exec cfg f r ch s = Some (s', r', fs, new) -> stack_ok (f :: k) ->
  stack_ok (fs ++ k) /\ Forall stack_ok new.
Proof.
  intros H [Hk Hok]. exec_cases H; cbn [app stack_ok].
  all: first [by split | destruct k as [|g k]; cbn in *; split_and!; repeat constructor; done | idtac].
  all: unfold loops; repeat match goal with |- context [if ?b then _ else _] => destruct b end; destruct k as [|g k]; cbn in *;
    rewrite ?bool_decide_eq_true_2 by done; repeat first [done | split | constructor].
Qed.

Lemma adj_writes f g : adj f g = true -> writes f = false ->
  match g with FAfterHello _ | FAfterAck _ _ | FAfterSendError | FAfterBeat | FAfterData _ | FAfterEOS _ | FAfterClose => False | _ => True end.
Proof. destruct f; try done; by destruct g. Qed.

(** The caller of a write is below it. *)
Lemma stack_toks (T U : @frame EP -> Z) st :
  (forall f, T f = 0 \/ (T f = 1 /\ (1 <= U f \/ writes f = true))) -> (forall f, 0 <= U f) ->
  (forall f g, T f = 1 -> U f <= 0 -> adj f g = true -> T g = 0 /\ 1 <= U g) ->
  stack_ok st -> toks T st <= toks U st.
Proof.
  intros HT HU HTU. enough (HQ : stack_ok st -> toks T st <= toks U st /\ match st with g :: k => toks T k <= toks U k | [] => True end) by (intros; by apply HQ).
  induction st as [|f k IH]; [done|]. intros [Hf Hk]. destruct (IH Hk) as [Hle Hle']. split; [|done].
  cbn [toks]. specialize (HU f). destruct (HT f) as [->|[HT1 Hw]]; [lia|]. destruct (Z.leb_spec 1 (U f)); [lia|].
  destruct Hw as [Hw|Hw]; [lia|]. destruct k as [|g k]; [congruence|].
  destruct (HTU f g HT1) as [HTg HUg]; [lia|done|]. cbn [toks] in *. lia.
Qed.

Lemma total_le T U p : Forall (fun th => toks T th.2 <= toks U th.2) p -> total T p <= total U p.
Proof. induction 1; cbn [total]; lia. Qed.

Definition stacks_ok p : Prop := Forall (fun th => stack_ok th.2) p.

Lemma below (T U : @frame EP -> Z) p :
  (forall f, T f = 0 \/ (T f = 1 /\ (1 <= U f \/ writes f = true))) -> (forall f, 0 <= U f) ->
  (forall f g, T f = 1 -> U f <= 0 -> adj f g = true -> T g = 0 /\ 1 <= U g) -> stacks_ok p -> total T p <= total U p.
Proof. intros HT HU HTU Hp. apply total_le. eapply Forall_impl; [exact Hp|]. intros [r st] Hst. by apply stack_toks. Qed.

Ltac frame_cases f := destruct f; cbn; repeat match goal with m : @msg _ |- _ => destruct m; cbn end.
Ltac frame_fact := intros; match goal with f : @frame _ |- _ => destruct f end; cbn in *; repeat match goal with m : @msg _ |- _ => destruct m; cbn in * end;
  repeat case_decide; try lia; auto.
Ltac adj_fact := intros f g ? ? ?; destruct f; cbn in *; try lia; try match goal with m : @msg _ |- _ => destruct m end; cbn in *; try lia;
  destruct g; cbn in *; try done; repeat case_bool_decide; repeat case_decide; simplify_eq; try done; try lia.

(** The only frame of a copy loop that waits is the one that waits for its write. *)
Definition writes_data (t : stream) f : Z :=
  match f with FWrite (MData u _) | FWriting (MData u _) => if decide (u = t) then 1 else 0 | _ => 0 end.

Lemma calm_pre t f k : stack_ok (f :: k) -> writes f = false -> toks (tPre t) k = 0.
Proof.
  revert f. induction k as [|g k IH]; intros f [Hadj Hk] Hw; [done|]. cbn [toks].
  assert (Hg : tPre t g = 0 /\ writes g = false) by (destruct f; try discriminate Hw; destruct g; done).
  rewrite (IH g Hk) by tauto. lia.
Qed.

Lemma below_pre t f k : stack_ok (f :: k) -> toks (tPre t) k = writes_data t f.
Proof.
  intros Hst. destruct (writes f) eqn:Hw; [|rewrite (calm_pre t f k Hst Hw); by destruct f].
  destruct Hst as [Hadj Hk]. destruct k as [|g k]; [congruence|]. cbn [toks].
  assert (Hg : writes g = false) by (destruct f; try discriminate Hw; cbn in Hadj; repeat case_match; done).
  rewrite (calm_pre t g k Hk Hg). destruct f; try discriminate Hw; cbn in Hadj; repeat case_match; simplify_eq; cbn; try done.
  all: apply bool_decide_eq_true_1 in Hadj as ->; lia.
Qed.

Lemma hello_below p : stacks_ok p -> total tHello p <= total tPrefix p.
Proof. apply below; [frame_fact|frame_fact|adj_fact]. Qed.

Lemma ackW_below p : stacks_ok p -> total tAckW p <= total tAfterAck p.
Proof. apply below; [frame_fact|frame_fact|adj_fact]. Qed.

Lemma loop_nonneg : forall f, 0 <= tLoop f.
Proof. frame_fact. Qed.

Lemma pre_loop t p : total (tPre t) p <= total tLoop p.
Proof. apply total_le, Forall_true. intros [r st]. induction st as [|f st IH]; cbn in *; [done|]. enough (tPre t f <= tLoop f) by lia. frame_fact. Qed.

(** An open in preparation, and one that is started. *)
Definition tPrep f : Z := match f with FPrepare _ | FVerified _ | FPrepFail _ => 1 | _ => 0 end.
Definition tVerified f : Z := match f with FVerified _ => 1 | _ => 0 end.
Definition tPublish f : Z := match f with FPublish _ => 1 | _ => 0 end.

(** ** What only grows *)

Record rely s s' : Prop := {
  rl_closed : closed s = true -> closed s' = true;
  rl_wire : exists w, wire s' = wire s ++ w;
  rl_open : cmd s = true \/ closed s = true -> keeps_open s s';
  rl_childDone : childDone s = true -> childDone s' = true /\ childExitCode s' = childExitCode s;
  rl_child : child s <> NoChild -> child s' <> NoChild;
  rl_reaped : forall c, child s = Reaped c -> child s' = Reaped c;
  rl_pipe : forall t, pipe s t = [] -> pipeEOF s t = true -> pipe s' t = [] /\ pipeEOF s' t = true;
  rl_released : released s = true -> released s' = true;
  rl_killed : killed s = true -> killed s' = true;
  rl_pipes : pipesClosed s = true -> pipesClosed s' = true;
  rl_conn : connClosed s = true -> connClosed s' = true;
  rl_auth : authenticated s = true -> authenticated s' = true;
}.

Lemma keeps_id s : keeps_open s s.
Proof. done. Qed.

(** What signals and reaping do to the process. *)
Record process_grows s s' : Prop := {
  pg_child : child s <> NoChild -> child s' <> NoChild;
  pg_reaped : forall c, child s = Reaped c -> child s' = Reaped c;
  pg_released : released s = true -> released s' = true;
  pg_killed : killed s = true -> killed s' = true;
}.

Lemma grows_id s : process_grows s s.
Proof. by split. Qed.
Lemma process_grows_trans s s1 s2 : process_grows s s1 -> process_grows s1 s2 -> process_grows s s2.
Proof. intros [] []. split; eauto. Qed.
Lemma grows_signal k s : process_grows s (signal k s).
Proof. split; try done. cbn. by intros ->. Qed.
Lemma grows_signalOwned k g t s : process_grows s (signalOwned k g t s).
Proof. unfold signalOwned. repeat case_match; first [apply grows_id|apply grows_signal]. Qed.
Lemma grows_group_close s : process_grows s (group_close s).
Proof.
  unfold group_close. case_match; [apply grows_id|]. apply (process_grows_trans _ (signal true s)); [apply grows_signal|]. by split.
Qed.
Lemma grows_cleanup c s : process_grows s (cleanup_child c s).
Proof.
  unfold cleanup_child. apply (process_grows_trans _ (if cl_cmd c && negb (cl_childDone c) then signalOwned true (cl_group c) (cl_tty c) s else s)).
  - destruct (_ && _); [apply grows_signalOwned|apply grows_id].
  - destruct (cl_group c); [apply grows_group_close|apply grows_id].
Qed.
Lemma grows_res_kill x s : process_grows s (res_kill cfg x s).
Proof. unfold res_kill. case_match; [apply grows_group_close|apply grows_signalOwned]. Qed.
Lemma grows_reap s : process_grows s (reap s).
Proof. unfold reap. destruct (child s) eqn:Hc; try apply grows_id. split; cbn; try done; intros; congruence. Qed.

Lemma rely_process s s' : process_only s s' -> process_grows s s' -> rely s s'.
Proof.
  intros (c & kl & rl & sg & ->) [? ? ? ?]. split; cbn; try done; try (by exists []; rewrite app_nil_r); auto.
Qed.

Lemma rely_id s : rely s s.
Proof. split; try done. exists []. by rewrite app_nil_r. Qed.

Ltac process_same := unfold requestChildShutdown; first [apply process_id|apply process_signalOwned|apply process_group_close|apply process_cleanup|apply process_res_kill|apply process_reap].
Ltac process_more := unfold requestChildShutdown; first [apply grows_id|apply grows_signalOwned|apply grows_group_close|apply grows_cleanup|apply grows_res_kill|apply grows_reap].

Ltac rely_easy :=
  split; cbn; try done; try (by exists []; rewrite app_nil_r); try (by eexists); try (intros; congruence); try (intros [?|?]; congruence); auto.

Lemma rely_exec f r ch s s' r' fs new : exec cfg f r ch s = Some (s', r', fs, new) ->
  (tPrep f = 1 -> child s = NoChild) -> (tOpening f = 1 -> cmd s = false) -> (tWait f = 1 -> childDone s = false) -> rely s s'.
Proof.
  intros H Hp Ho Hw. exec_cases H.
  all: try apply rely_id; try (apply rely_process; [process_same|process_more]; fail).
  all: try (destruct (released s); [apply rely_id|apply rely_process; [apply process_signal|apply grows_signal]]; fail).
  all: try (specialize (Ho eq_refl)); try (specialize (Hw eq_refl)); try (specialize (Hp eq_refl)).
  all: try (repeat case_match; rely_easy; fail).
  all: rely_easy.
  - intros u Hu He. destruct (decide (u = t)) as [->|]; [rewrite Hu; by destruct (length b)|done].
  - by intros ->.
Qed.

Lemma rely_move m s s' new : run_move m s = Some (s', new) -> rely s s'.
Proof.
  intros H. destruct m; cbn in H; repeat case_match; try discriminate H; injection H as <- <-; try apply rely_id; rely_easy.
  - intros u Hu He. apply andb_true_iff in H0 as [_ H0%negb_true_iff]. destruct (decide (u = t)) as [->|]; [congruence|done].
  - intros u Hu He. split; [done|]. unfold set_key. by destruct (decide (u = t)).
Qed.

(** ** Assertions *)

Definition said_hello s : Prop := c_identity cfg = true -> 0 < count is_hello (wire s).
Definition acked s : Prop := 0 < count is_ack (wire s).

(** What holds whenever a goroutine has a frame in progress. *)
Definition frame_ok s f : Prop :=
  (tReader f = 1 -> said_hello s) /\ (tLoop f = 1 -> acked s) /\
  match f with
  | FStart _ => said_hello s
  | FCleanup c => closed s = true /\ cl_cmd c = cmd s /\ cl_group c = processGroup s /\ cl_tty c = ptyFile s /\ (cl_childDone c = true -> childDone s = true)
  | FCleanupFiles c => closed s = true /\ cl_cmd c = cmd s
  | FCleanupConn | FFinish => closed s = true
  | FTermRequest | FTermWait1 | FTermKill => cmd s = true /\ processGroup s = true
  | FKill group tty => cmd s = true /\ group = processGroup s /\ tty = ptyFile s
  | FShutRequest | FShutWait | FShutKill => cmd s = true
  | FAfterAck x _ => cmd s = true /\ r_tty x = ptyFile s
  | FOnExit (inl c) => child s = Reaped c
  | FOnRead t SEos => closed s = true \/ (pipe s t = [] /\ pipeEOF s t = true)
  | FWrite (MEos t) | FWriting (MEos t) => pipe s t = [] /\ pipeEOF s t = true
  | FWrite (MClose c) | FWriting (MClose c) => childDone s = true /\ childExitCode s = c
  | FWrite (MAck b) | FWriting (MAck b) => b = c_groups cfg
  | _ => True
  end.

Lemma count_rely W s s' : rely s s' -> 0 < count W (wire s) -> 0 < count W (wire s').
Proof. intros [_ [w ->]] Hc. rewrite count_app. pose proof (count_nonneg W w). lia. Qed.

Lemma frame_stable s s' f : rely s s' -> frame_ok s f -> frame_ok s' f.
Proof.
  intros Hr (Hh & Ha & Hf). split_and!.
  - intros Hi He. apply (count_rely _ _ _ Hr). by apply Hh.
  - intros Hi. apply (count_rely _ _ _ Hr). by apply Ha.
  - destruct Hr as [Hcl Hw Hop Hcd _ Hre Hpi _ _ _ _]. unfold keeps_open in Hop.
    destruct f; try done; repeat match goal with Hx : context [match ?x with _ => _ end] |- _ => is_var x; destruct x end;
      try done; try (intuition (try congruence; eauto); fail).
    1: { intros He. destruct Hw as [w ->]. rewrite count_app. pose proof (count_nonneg is_hello w). specialize (Hf He). lia. }
    all: destruct Hf; by apply Hpi.
Qed.

Definition top_ok s (r : option serr) f : Prop :=
  match f with
  | FAfterHello _ => r = None -> 0 < count is_hello (wire s)
  | FAfterAck _ _ => if r then count is_ack (wire s) = 0 else acked s
  | FAfterEOS t => r = None -> 0 < count (is_eos t) (wire s)
  | _ => True
  end.

Definition thread_ok s (th : @thread EP) : Prop :=
  Forall (frame_ok s) th.2 /\ match th.2 with f :: _ => top_ok s th.1 f | [] => True end.

Ltac each_frame := repeat first [apply Forall_nil; exact I | apply Forall_cons; split | apply Forall_nil].

Lemma frames_exec f r ch s s' r' fs new : exec cfg f r ch s = Some (s', r', fs, new) -> frame_ok s f -> top_ok s r f ->
  (pipesClosed s = true -> closed s = true) -> Forall (frame_ok s') fs /\ Forall (Forall (frame_ok s')) new.
Proof.
  intros H (Hh & Ha & Hf) Ht Hpc. unfold said_hello, acked in *. exec_cases H; cbn in Hh, Ha, Hf, Ht;
    try (specialize (Hh eq_refl)); try (specialize (Ha eq_refl)).
  all: first [split; apply Forall_nil; exact I | idtac].
  all: try (unfold reap; match goal with Hc : child _ = _ |- _ => rewrite Hc end).
  all: abstract_process; unfold loops; repeat match goal with |- context [if ?b then _ else _] => destruct b eqn:? end; cbn.
  all: split; each_frame; unfold frame_ok, said_hello, acked; cbn; split_and!; try done; try congruence; try tauto.
  all: try (repeat case_match; tauto).
  all: try (destruct Hf as [?|[? ?]]; [congruence|done]).
  right. split; [by apply bool_decide_eq_true_1 in H|done].
Qed.

(** What a step leaves on top of its stack. *)
Definition calm f : Prop := match f with FAfterHello _ | FAfterAck _ _ | FAfterEOS _ => False | _ => True end.

Lemma head_exec f r ch s s' r' fs new : exec cfg f r ch s = Some (s', r', fs, new) -> match fs with g :: _ => calm g | [] => True end.
Proof. intros H. exec_cases H; try done; repeat match goal with |- context [if ?b then _ else _] => destruct b end; done. Qed.

Lemma new_calm f r ch s s' r' fs new : exec cfg f r ch s = Some (s', r', fs, new) ->
  Forall (fun st => match st with g :: _ => calm g | [] => True end) new.
Proof.
  intros H. exec_cases H; unfold loops; repeat match goal with |- context [if ?b then _ else _] => destruct b end; cbn; repeat constructor.
Qed.

Lemma top_exec f r ch s s' r' fs new k : exec cfg f r ch s = Some (s', r', fs, new) -> stack_ok (f :: k) ->
  (tAckW f = 1 -> count is_ack (wire s) = 0) -> match fs ++ k with g :: _ => top_ok s' r' g | [] => True end.
Proof.
  intros H [Hk _] Hack. pose proof (head_exec _ _ _ _ _ _ _ _ H) as Hhd. destruct fs as [|g fs]; cbn [app]; [|by destruct g].
  destruct k as [|g k]; [done|]. destruct (writes f) eqn:Hw.
  - destruct f; try discriminate Hw; cbn in H; unfold writeMessage, writing, next, returns, waits in H; repeat case_match; simplify_eq; cbn in Hk;
      repeat case_match; try done; cbn; try done; try (by apply Hack).
    all: try (apply bool_decide_eq_true_1 in Hk as <-); unfold acked; cbn; rewrite count_snoc; cbn; rewrite ?bool_decide_eq_true_2 by done; cbn.
    + pose proof (count_nonneg is_hello (wire s)). lia.
    + pose proof (count_nonneg is_ack (wire s)). lia.
    + pose proof (count_nonneg (is_eos t) (wire s)). lia.
  - pose proof (adj_writes _ _ Hk Hw) as Hg. by destruct g.
Qed.

(** The channel is closed when no loop runs; no loop starts once the session is closed. *)
Lemma done_exec f r ch s s' r' fs new : exec cfg f r ch s = Some (s', r', fs, new) ->
  (doneCh s' = doneCh s + 1 /\ lifecycleWG s = 0 /\ toks tDone fs + total tDone (start <$> new) - tDone f = 0) \/
  (doneCh s' = doneCh s /\ (closed s = true -> toks tDone fs + total tDone (start <$> new) <= tDone f)).
Proof.
  intros H. exec_cases H.
  all: try (right; split; [reflexivity|intros _; cbn; lia]).
  all: try (right; split; [reflexivity|congruence]).
  all: try (right; split; [abstract_process; reflexivity|intros _; cbn; lia]).
  all: try (right; split; [kept|intros; split_goal; cbn; first [lia|congruence]]).
  left. cbn. lia.
Qed.

Lemma prep_opening p : total tPrep p + total tPublish p = total tOpening p.
Proof.
  induction p as [|[r st] p IH]; cbn [total]; [done|]. enough (Hst : toks tPrep st + toks tPublish st = toks tOpening st) by (cbn [snd]; lia).
  induction st as [|f st IHst]; cbn [toks]; [done|]. enough (tPrep f + tPublish f = tOpening f) by lia. by destruct f.
Qed.

Lemma child_signalOwned k g t s : child (signalOwned k g t s) = child s.
Proof. unfold signalOwned. by repeat case_match. Qed.
Lemma child_group_close s : child (group_close s) = child s.
Proof. unfold group_close. by case_match. Qed.
Lemma child_cleanup c s : child (cleanup_child c s) = child s.
Proof. unfold cleanup_child. destruct (cl_group c), (cl_cmd c && _); by rewrite ?child_group_close, ?child_signalOwned. Qed.
Lemma child_res_kill x s : child (res_kill cfg x s) = child s.
Proof. unfold res_kill. case_match; [apply child_group_close|apply child_signalOwned]. Qed.

(** How the child comes to be. *)
Lemma child_exec f r ch s s' r' fs new : exec cfg f r ch s = Some (s', r', fs, new) ->
  let dPrep := toks tPrep fs + total tPrep (start <$> new) - tPrep f in
  let dPublish := toks tPublish fs + total tPublish (start <$> new) - tPublish f in
  ((child s' = NoChild <-> child s = NoChild) /\ dPrep <= 0 /\ dPublish = 0 /\ tPublish f = 0 /\ cmd s' = cmd s) \/
  (tPrep f = 1 /\ child s' = Alive /\ dPrep = -1 /\ dPublish = 1 /\ cmd s' = cmd s) \/
  (tPublish f = 1 /\ child s' = child s /\ dPrep = 0 /\ dPublish = -1 /\ (cmd s' = true \/ closed s' = true)) \/
  (child s' = child s /\ dPrep = 1 /\ dPublish = 0 /\ tPublish f = 0 /\ cmd s' = cmd s /\ cmd s = false /\ closed s = false /\ opening s = false).
Proof.
  intros H. exec_cases H; cbv zeta.
  all: try (left; split_and!; try done; cbn; lia).
  all: try (right; left; split_and!; try done; cbn; lia).
  all: try (right; right; left; split_and!; try done; try (by left); try (by right); cbn; lia).
  all: try (right; right; right; split_and!; try done; cbn; lia).
  all: left; split_and!; [|split_goal; cbn; lia|split_goal; cbn; lia|reflexivity|kept].
  all: unfold requestChildShutdown; rewrite ?child_signalOwned, ?child_group_close, ?child_cleanup, ?child_res_kill; try tauto.
  all: try (unfold reap; match goal with Hc : child _ = _ |- _ => rewrite Hc; cbn; rewrite ?Hc; split; discriminate end).
  all: split_goal; tauto.
Qed.

Lemma hello_exec f r ch s s' r' fs new : exec cfg f r ch s = Some (s', r', fs, new) ->
  toks tHello fs + total tHello (start <$> new) <= tHello f.
Proof. intros H. exec_cases H; try counted; written; cbn; lia. Qed.

(** Around the acknowledgement. *)
Lemma ack_new f r ch s s' r' fs new : exec cfg f r ch s = Some (s', r', fs, new) ->
  toks tAfterAck fs + total tAfterAck (start <$> new) <= tAfterAck f \/ tOpening f = 1.
Proof. intros H. exec_cases H; first [right; reflexivity | left; counted]. Qed.

Lemma ack_gone f r ch s s' r' fs new : exec cfg f r ch s = Some (s', r', fs, new) -> tAfterAck f = 1 ->
  toks tAfterAck fs + total tAfterAck (start <$> new) = 0.
Proof. intros H Hf. destruct f; try discriminate Hf. exec_cases H; counted. Qed.

Lemma ack_starts t f r ch s s' r' fs new : exec cfg f r ch s = Some (s', r', fs, new) -> tAfterAck f = 1 ->
  toks (tPre t) fs + total (tPre t) (start <$> new) <= 1 /\ wire s' = wire s /\ toks tWait fs + total tWait (start <$> new) <= 1 /\ childDone s' = childDone s.
Proof.
  intros H Hf. destruct f; try discriminate Hf. exec_cases H; split_and!; first [done | counted].
Qed.

Lemma wait_loop p : total tWait p <= total tLoop p.
Proof. apply total_le, Forall_true. intros [r st]. induction st as [|f st IH]; cbn in *; [done|]. enough (tWait f <= tLoop f) by lia. frame_fact. Qed.

(** Only three frames change the maps. *)
Lemma map_cases f r ch s s' r' fs new : exec cfg f r ch s = Some (s', r', fs, new) ->
  (exists x, f = FPublish x) \/ (exists t x, f = FOnRead t x) \/ (exists t, f = FAfterEOS t) \/
  (keeps_maps s s' /\ cmd s' = cmd s /\ (forall t x, f <> FOnRead t x) /\ forall t, f <> FAfterEOS t).
Proof.
  intros H. destruct f; eauto; right; right; right; (split; [eapply keeps_maps_exec; [exact H|..]; intros; discriminate|]);
    (split; [destruct (keeps_exec _ _ _ _ _ _ _ _ _ H) as [? _]; [discriminate|done]|split; discriminate]).
Qed.

Lemma eos_loop t p : total (tAfterEOS t) p <= total tLoop p.
Proof. apply total_le, Forall_true. intros [r st]. induction st as [|f st IH]; cbn in *; [done|]. enough (tAfterEOS t f <= tLoop f) by lia. frame_fact. Qed.

Lemma eos_exec t f r ch s s' r' fs new : exec cfg f r ch s = Some (s', r', fs, new) ->
  toks (tAfterEOS t) fs + total (tAfterEOS t) (start <$> new) <= tAfterEOS t f \/ exists u x, f = FOnRead u x.
Proof. intros H. exec_cases H; first [right; eauto; fail | left; counted | left; cbn; case_decide; lia]. Qed.

Lemma doClose_exec f r ch s s' r' fs new : exec cfg f r ch s = Some (s', r', fs, new) ->
  toks tDoClose fs + total tDoClose (start <$> new) + count is_close (wire s') <= tDoClose f + count is_close (wire s) \/
  (exists u, f = FAfterEOS u) \/ (tWait f = 1 /\ childDone s' = true).
Proof. intros H. exec_cases H; first [left; wire_counted | right; left; eauto; fail | right; right; split; reflexivity]. Qed.

(** The child's end is recorded once. *)
Lemma exit_exec f r ch s s' r' fs new : exec cfg f r ch s = Some (s', r', fs, new) ->
  (childDone s' = childDone s /\ childExitCode s' = childExitCode s /\ childExited s' = childExited s) \/
  (exists c, f = FOnExit (inl c) /\ childDone s' = true /\ childExitCode s' = c /\ child s' = child s /\ streamsActive s' = streamsActive s /\
     childExited s' = (if childDone s then childExited s else childExited s + 1) /\ wire s' = wire s /\ new = [] /\
     fs = if streamsActive s =? 0 then [FDoClose; FAfterDoClose] else []).
Proof.
  intros H. exec_cases H.
  all: try (left; split_and!; kept; fail).
  all: right; eexists; split_and!; try reflexivity.
  all: match goal with Hb : (_ =? _) = _ |- _ => cbn in Hb; by rewrite Hb end.
Qed.

Lemma pipes_exec f r ch s s' r' fs new : exec cfg f r ch s = Some (s', r', fs, new) ->
  pipesClosed s' = pipesClosed s \/ exists c, f = FCleanupFiles c.
Proof. intros H. exec_cases H; first [left; kept | right; eauto]. Qed.

Lemma auth_exec f r ch s s' r' fs new : exec cfg f r ch s = Some (s', r', fs, new) ->
  (toks tVerified fs + total tVerified (start <$> new) <= tVerified f \/ authenticated s' = true) /\
  (child s' <> NoChild -> child s <> NoChild \/ tVerified f = 1).
Proof.
  intros H. exec_cases H.
  all: try (split; [left; cbn; lia|tauto]).
  all: try (split; [right; reflexivity|tauto]).
  all: try (split; [left; reflexivity|intros _; right; reflexivity]).
  all: split; [left; split_goal; cbn; lia|].
  all: unfold requestChildShutdown; rewrite ?child_signalOwned, ?child_group_close, ?child_cleanup, ?child_res_kill; try tauto.
  all: try (unfold reap; match goal with Hc : child _ = _ |- _ => rewrite Hc; cbn; rewrite ?Hc; tauto end).
  all: try (split_goal; tauto).
  all: by left.
Qed.

Lemma open_exec f r ch s s' r' fs new : exec cfg f r ch s = Some (s', r', fs, new) ->
  (opening s' = opening s /\ cmd s' = cmd s) \/ opening s' = false \/ (opening s' = true /\ cmd s' = cmd s /\ cmd s = false).
Proof. intros H. exec_cases H; first [left; split; kept | right; left; reflexivity | right; right; done]. Qed.

Lemma map_or_publish f r ch s s' r' fs new : exec cfg f r ch s = Some (s', r', fs, new) ->
  (cmd s' = cmd s /\ opened s' = opened s /\ processGroup s' = processGroup s) \/ (cmd s' = true /\ opened s' = true /\ processGroup s' = c_groups cfg).
Proof. intros H. exec_cases H; first [left; split_and!; kept | right; done]. Qed.

End WebttySessionSteps.
