(* ===== verification/WebttySessionProps.v ===== *)
(** * WebttySessionProps: what holds of every session

    The invariant of [WebttySession] and its consequences. *)

From S2P Require Import Prelude WebttySession WebttySessionInv WebttySessionSteps.

Section WebttySessionProps.
Context {EP : Type} (cfg : @config EP).
Implicit Types (f : @frame EP) (s : @session EP) (p : list (@thread EP)).

(** ** The wire *)

(** [m] may follow [w]. *)
Definition allowed (tty : bool) (w : list (@msg EP)) (m : @msg EP) : Prop :=
  (m <> MHello -> c_identity cfg = true -> 0 < count is_hello w) /\
  match m with
  | MHello => w = []
  | MAck terminate => terminate = c_groups cfg /\ count is_ack w = 0 /\ count is_loop w = 0
  | MError _ => True
  | MHeartbeat => 0 < count is_ack w
  | MData t _ | MEos t => 0 < count is_ack w /\ count (is_eos t) w = 0
  | MClose _ => 0 < count is_ack w /\ count is_close w = 0 /\ forall t, streams_of tty t = true -> 0 < count (is_eos t) w
  end.

Definition wire_ok (tty : bool) (w : list (@msg EP)) : Prop := forall w1 m w2, w = w1 ++ m :: w2 -> allowed tty w1 m.

Lemma wire_ok_nil tty : wire_ok tty [].
Proof. intros w1 m w2. by destruct w1. Qed.

Lemma wire_ok_snoc tty w m : wire_ok tty w -> allowed tty w m -> wire_ok tty (w ++ [m]).
Proof.
  intros Hw Hm w1 x w2 Heq. destruct (decide (w2 = [])) as [->|Hne].
  - apply app_inj_tail in Heq as [-> ->]. done.
  - destruct (exists_last Hne) as (w2' & y & ->). rewrite app_comm_cons, app_assoc in Heq. apply app_inj_tail in Heq as [Heq _]. by apply (Hw _ _ w2').
Qed.

Lemma wire_ok_tty tty tty' w : count is_loop w = 0 -> wire_ok tty w -> wire_ok tty' w.
Proof.
  intros Hl Hw w1 m w2 ->. specialize (Hw w1 m w2 eq_refl) as [Hh Hm]. split; [done|].
  rewrite count_app in Hl. cbn in Hl. pose proof (count_nonneg is_loop w1). pose proof (count_nonneg is_loop w2). destruct m; try done; cbn in Hl; lia.
Qed.

(** ** The invariant *)

Record inv s p : Prop := {
  i_stacks : stacks_ok p;
  i_threads : Forall (thread_ok cfg s) p;
  i_wg : lifecycleWG s = total tDone p;
  i_copywg : copyWG s = total tCopyDone p;
  i_closing : doneCh s + total tClosing p = bz (closed s);
  i_done : 0 < doneCh s -> total tDone p = 0;
  i_opening : total tOpening p = bz (opening s);
  i_cmd : cmd s = true -> opening s = false;
  i_opened : opened s = cmd s;
  i_group : processGroup s = cmd s && c_groups cfg;
  i_prep : 0 < total tPrep p -> child s = NoChild;
  i_child : child s <> NoChild -> cmd s = true \/ closed s = true \/ 0 < total tPublish p;
  i_started : cmd s = true \/ 0 < total tPublish p -> child s <> NoChild;
  i_prefix : total tPrefix p <= 1;
  i_quiet : 0 < total tPrefix p -> total tReader p = 0 /\ cmd s = false /\ opening s = false;
  i_hello : 0 < total tHello p -> wire s = [];
  i_ack : total tAfterAck p <= bz (cmd s);
  i_acks : total tAckW p + count is_ack (wire s) <= bz (cmd s);
  i_before : cmd s = false \/ 0 < total tAfterAck p -> total tLoop p = 0 /\ childDone s = false /\ count is_loop (wire s) = 0;
  i_pre : forall t, total (tPre t) p + count (is_eos t) (wire s) <= 1;
  i_maps : cmd s = true -> maps_ok s;
  i_ending : forall t, total (tAfterEOS t) p <= bz (key (streamsOpen s) t && key (streamsEnding s) t);
  i_wait : total tWait p + bz (childDone s) <= 1;
  i_close : total tDoClose p + count is_close (wire s) <= bz ((streamsActive s =? 0) && childDone s);
  i_exited : childDone s = true -> child s = Reaped (childExitCode s);
  i_exits : childExited s = bz (childDone s);
  i_pipes : pipesClosed s = true -> closed s = true;
  i_wire : wire_ok (ptyFile s) (wire s);
  i_closed_code : forall c, MClose c ∈ wire s -> childDone s = true /\ c = childExitCode s;
  i_auth : child s <> NoChild \/ 0 < total tVerified p -> authenticated s = true;
}.

(** ** Steps keep it *)

Ltac nonneg := let g := fresh in intros g; destruct g; cbn; repeat case_match; lia.

Section Exec.
Context (s : @session EP) (p : list (@thread EP)) (i : nat) (r : option serr) (f : @frame EP) (k : list (@frame EP)) (ch : @choice EP).
Context (s' : @session EP) (r' : option serr) (fs : list (@frame EP)) (new : list (list (@frame EP))).
Context (Hinv : inv s p) (Hi : p !! i = Some (r, f :: k)) (He : exec cfg f r ch s = Some (s', r', fs, new)).

Definition pool' : list (@thread EP) := <[i := (r', fs ++ k)]> p ++ (start <$> new).

Lemma tok_here T : (forall g, 0 <= T g) -> T f <= total T p.
Proof. intros HT. pose proof (total_lookup T p i _ HT Hi) as Hl. cbn [toks snd] in Hl. pose proof (toks_nonneg T k HT). lia. Qed.

Lemma tok_next T : total T pool' = total T p + (toks T fs + total T (start <$> new) - T f).
Proof. by apply (total_step T p i r). Qed.

Lemma here_stack : stack_ok (f :: k).
Proof. pose proof (i_stacks _ _ Hinv) as Hs. unfold stacks_ok in Hs. rewrite Forall_lookup in Hs. by apply (Hs i (r, f :: k)). Qed.

Lemma here_thread : frame_ok cfg s f /\ Forall (frame_ok cfg s) k /\ top_ok s r f.
Proof.
  pose proof (i_threads _ _ Hinv) as Hs. rewrite Forall_lookup in Hs. destruct (Hs i _ Hi) as [Hf Ht].
  cbn in Hf. apply Forall_cons in Hf as [? ?]. done.
Qed.

Ltac here T := let H := fresh "Htok" in pose proof (tok_here T ltac:(nonneg)) as H.

Lemma here_opening : tOpening f = 1 -> cmd s = false /\ opening s = true.
Proof.
  intros Hf. here (@tOpening EP). pose proof (i_opening _ _ Hinv) as Ho. unfold bz in Ho. destruct (opening s) eqn:Hop; [|lia].
  split; [|done]. destruct (cmd s) eqn:Hc; [|done]. pose proof (i_cmd _ _ Hinv Hc). congruence.
Qed.

Lemma here_wait : tWait f = 1 -> childDone s = false.
Proof. intros Hf. here (@tWait EP). pose proof (i_wait _ _ Hinv) as Hw. unfold bz in Hw. destruct (childDone s); [lia|done]. Qed.

Lemma here_prep : tPrep f = 1 -> child s = NoChild.
Proof. intros Hf. here (@tPrep EP). apply (i_prep _ _ Hinv). lia. Qed.

Lemma here_loop : tLoop f = 1 -> cmd s = true /\ total tAfterAck p = 0 /\ maps_ok s.
Proof.
  intros Hf. here (@tLoop EP). pose proof (i_before _ _ Hinv) as Hb.
  assert (Hc : cmd s = true) by (destruct (cmd s); [done|]; destruct Hb as [? _]; [by left|lia]).
  split_and!; [done| |by apply (i_maps _ _ Hinv)]. pose proof (tokens_nonneg tAfterAck p ltac:(nonneg)).
  destruct (Z.eq_dec (total tAfterAck p) 0); [done|]. destruct Hb as [? _]; [right; lia|lia].
Qed.

Lemma rely_here : rely s s'.
Proof. eapply rely_exec; [exact He|apply here_prep|intros Ho; by apply here_opening|apply here_wait]. Qed.

Lemma stacks_here : stacks_ok pool'.
Proof.
  destruct (stack_exec _ _ _ _ _ _ _ _ _ _ He here_stack) as [Hf Hn]. apply Forall_app. split.
  - apply Forall_insert; [apply (i_stacks _ _ Hinv)|exact Hf].
  - apply Forall_fmap. eapply Forall_impl; [exact Hn|]. done.
Qed.

(** The other goroutines' assertions still hold. *)
Lemma others_ok j th : p !! j = Some th -> j <> i -> thread_ok cfg s th -> thread_ok cfg s' th.
Proof.
  intros Hj Hne [Hf Ht]. split; [eapply Forall_impl; [exact Hf|]; intros g; apply frame_stable, rely_here|].
  destruct th as [r0 st]. cbn [fst snd] in *. destruct st as [|g st]; [done|]. destruct g; try done; cbn in Ht |- *.
  - intros Hr. apply (count_rely _ _ _ rely_here). by apply Ht.
  - destruct r0 as [e|]; [|by apply (count_rely _ _ _ rely_here)].
    destruct (wire_grows _ _ _ _ _ _ _ _ _ He) as [->|(m & Hm & -> & _)]; [done|]. rewrite count_snoc. destruct m; cbn; try lia. exfalso.
    pose proof (i_ack _ _ Hinv) as Ha. pose proof (tokens_insert tAfterAck p i _ (None, []) Hi) as Hti. rewrite Hm in Hti. cbn [toks snd tAfterAck] in Hti.
    assert (Hk : 1 <= toks tAfterAck k).
    { pose proof here_stack as Hst. rewrite Hm in Hst. destruct Hst as [Hadj _]. destruct k as [|[] k']; try done. cbn [toks tAfterAck]. pose proof (toks_nonneg tAfterAck k' ltac:(nonneg)). lia. }
    assert (Hj' : (<[i := (None, [])]> p) !! j = Some (Some e, FAfterAck r1 shutdownReq :: st)) by (by rewrite list_lookup_insert_ne).
    pose proof (total_lookup tAfterAck _ j _ ltac:(nonneg) Hj') as Htl. cbn [toks snd tAfterAck] in Htl.
    pose proof (toks_nonneg tAfterAck st ltac:(nonneg)). unfold bz in Ha. destruct (cmd s); lia.
  - intros Hr. apply (count_rely _ _ _ rely_here). by apply Ht.
Qed.

Lemma threads_here : Forall (thread_ok cfg s') pool'.
Proof.
  destruct here_thread as (Hf & Hk & Ht).
  destruct (frames_exec _ _ _ _ _ _ _ _ _ He Hf Ht (i_pipes _ _ Hinv)) as [Hfs Hnew]. apply Forall_app. split.
  - apply Forall_lookup. intros j th Hj. destruct (decide (j = i)) as [->|Hne].
    + rewrite list_lookup_insert_eq in Hj by (by eapply lookup_lt_Some). injection Hj as <-. split; cbn.
      * apply Forall_app. split; [done|]. eapply Forall_impl; [exact Hk|]. intros g. apply frame_stable, rely_here.
      * eapply top_exec; [exact He|apply here_stack|]. intros Ha. here (@tAckW EP). pose proof (i_acks _ _ Hinv) as Hacks.
        pose proof (count_nonneg is_ack (wire s)). unfold bz in Hacks. destruct (cmd s); lia.
    + rewrite list_lookup_insert_ne in Hj by done. apply (others_ok j); [done..|].
      pose proof (i_threads _ _ Hinv) as Hths. rewrite Forall_lookup in Hths. by eapply Hths.
  - apply Forall_fmap. apply Forall_forall. intros st Hst. rewrite Forall_forall in Hnew. split; [by apply Hnew|]. cbn.
    pose proof (new_calm _ _ _ _ _ _ _ _ _ He) as Hc. rewrite Forall_forall in Hc. specialize (Hc st Hst). destruct st as [|g st]; [done|]. by destruct g.
Qed.

(** Facts about the frame that runs. *)
Ltac next T := rewrite !(tok_next T).
Ltac tnn T := let H := fresh "Hnn" in pose proof (tokens_nonneg T p ltac:(nonneg)) as H.

Lemma here_closed : 0 < doneCh s -> closed s = true.
Proof. intros Hd. pose proof (i_closing _ _ Hinv) as Hc. tnn (@tClosing EP). unfold bz in Hc. destruct (closed s); [done|lia]. Qed.

Lemma done_here : 0 < doneCh s' -> total tDone pool' = 0.
Proof.
  intros Hd. next (@tDone EP). destruct (done_exec _ _ _ _ _ _ _ _ _ He) as [(_ & Hw & Hs)|(Hs & Hle)].
  - pose proof (i_wg _ _ Hinv). lia.
  - assert (Hd0 : 0 < doneCh s) by lia. pose proof (i_done _ _ Hinv Hd0). specialize (Hle (here_closed Hd0)). here (@tDone EP).
    pose proof (tokens_nonneg tDone (start <$> new) ltac:(nonneg)). pose proof (toks_nonneg tDone fs ltac:(nonneg)). lia.
Qed.

Lemma child_here :
  (0 < total tPrep pool' -> child s' = NoChild) /\
  (child s' <> NoChild -> cmd s' = true \/ closed s' = true \/ 0 < total tPublish pool') /\
  (cmd s' = true \/ 0 < total tPublish pool' -> child s' <> NoChild).
Proof.
  rewrite !tok_next. pose proof (i_prep _ _ Hinv) as Hp. pose proof (i_child _ _ Hinv) as Hc. pose proof (i_started _ _ Hinv) as Hst.
  pose proof (i_opening _ _ Hinv) as Ho. tnn (@tPrep EP). tnn (@tPublish EP). here (@tPrep EP). here (@tPublish EP).
  pose proof (prep_opening p) as Hle. pose proof (rl_closed _ _ rely_here) as Hrc. unfold bz in Ho.
  destruct (child_exec _ _ _ _ _ _ _ _ _ He) as
    [(Hsame & HP & Hpub & Hf & Hcmd)|[(Hf & Hch & HP & Hpub & Hcmd)|[(Hf & Hsame & HP & Hpub & Hcmd)|(Hsame & HP & Hpub & Hf & Hcmd & Hc0 & Hcl0 & Hop)]]].
  - rewrite Hpub, Hcmd. split_and!.
    + intros H. apply Hsame, Hp. lia.
    + intros H. destruct Hc as [?|[?|?]]; [tauto|tauto|tauto|right; right; lia].
    + intros H Hn. apply Hst; [destruct H; [tauto|right; lia]|tauto].
  - rewrite Hch. split_and!; [destruct (opening s); lia|intros _; right; right; lia|done].
  - rewrite Hsame. split_and!.
    + intros H. apply Hp. lia.
    + intros _. tauto.
    + intros _. apply Hst. right. lia.
  - rewrite Hsame, Hcmd. rewrite Hop in Ho. split_and!.
    + intros _. destruct (decide (child s = NoChild)) as [|Hn]; [done|]. destruct (Hc Hn) as [?|[?|?]]; [congruence|congruence|lia].
    + intros H. destruct (Hc H) as [?|[?|?]]; [congruence|congruence|lia].
    + intros [?|?]; [congruence|lia].
Qed.

Lemma reader_here : total tPrefix pool' <= 1 /\ (0 < total tPrefix pool' -> total tReader pool' = 0 /\ cmd s' = false /\ opening s' = false).
Proof.
  rewrite !tok_next. pose proof (prefix_exec _ _ _ _ _ _ _ _ _ He) as Hp. pose proof (i_prefix _ _ Hinv) as Hp0. here (@tPrefix EP). here (@tReader EP).
  pose proof (toks_nonneg tPrefix fs ltac:(nonneg)). pose proof (tokens_nonneg tPrefix (start <$> new) ltac:(nonneg)). split; [lia|]. intros Hpos.
  destruct (i_quiet _ _ Hinv) as (Hr & Hc & Ho); [lia|]. assert (Hf : tReader f = 0) by (assert (0 <= tReader f) by (generalize f; nonneg); lia).
  destruct (reader_exec _ _ _ _ _ _ _ _ _ He Hf) as [Hop [Hn|[Hf1 Hz]]]; [|lia]. split_and!; [lia| |congruence].
  destruct (keeps_exec _ _ _ _ _ _ _ _ _ He) as [Hk _]; [|congruence]. intros x Hx. rewrite Hx in Hf. discriminate Hf.
Qed.

Lemma hello_here : 0 < total tHello pool' -> wire s' = [].
Proof.
  rewrite tok_next. pose proof (hello_exec _ _ _ _ _ _ _ _ _ He) as Hh. intros Hpos. here (@tHello EP). here (@tReader EP). here (@tPrefix EP). here (@tHello EP).
  assert (Hw : wire s = []) by (apply (i_hello _ _ Hinv); lia).
  pose proof (hello_below p (i_stacks _ _ Hinv)) as Hb. pose proof (i_prefix _ _ Hinv) as Hp0. destruct (i_quiet _ _ Hinv) as (Hr & _); [lia|].
  destruct (wire_grows _ _ _ _ _ _ _ _ _ He) as [->|(m & Hm & _ & _ & Hfs & Hnew)]; [done|]. exfalso.
  rewrite Hm in Htok0, Hpos, Htok. rewrite Hfs, Hnew in Hpos. destruct m; cbn in *; lia.
Qed.

Lemma ack_here : total tAfterAck pool' <= bz (cmd s') /\ total tAckW pool' + count is_ack (wire s') <= bz (cmd s').
Proof.
  rewrite !tok_next. destruct (ack_exec _ _ _ _ _ _ _ _ _ He) as [Ha Hw]; [intros Hf; by apply here_opening|].
  pose proof (i_ack _ _ Hinv). pose proof (i_acks _ _ Hinv). lia.
Qed.

Lemma cmd_mono : cmd s = true -> cmd s' = true.
Proof. intros Hc. destruct (rl_open _ _ rely_here (or_introl Hc)) as [-> _]. done. Qed.

Lemma before_here : cmd s' = false \/ 0 < total tAfterAck pool' -> total tLoop pool' = 0 /\ childDone s' = false /\ count is_loop (wire s') = 0.
Proof.
  rewrite !tok_next. intros H. pose proof (i_ack _ _ Hinv) as Ha. here (@tAfterAck EP). here (@tLoop EP).
  assert (Hnf : tAfterAck f = 0 \/ tAfterAck f = 1) by (destruct f; auto).
  destruct Hnf as [Hnf|Hnf].
  - destruct (i_before _ _ Hinv) as (Hl & Hc & Hw).
    { destruct H as [H|H]; [left; destruct (cmd s) eqn:Hc; [|done]; rewrite (cmd_mono Hc) in H; done|].
      destruct (ack_new _ _ _ _ _ _ _ _ _ He) as [Hle|Hop]; [right; lia|left; by apply here_opening]. }
    assert (Hf : tLoop f = 0) by (assert (0 <= tLoop f) by (generalize f; nonneg); lia).
    destruct (before_exec _ _ _ _ _ _ _ _ _ He Hf Hnf) as (Hn & -> & ->). split_and!; [lia|done|done].
  - exfalso. pose proof (ack_gone _ _ _ _ _ _ _ _ _ He Hnf). unfold bz in Ha. destruct (cmd s) eqn:Hc; [|lia].
    destruct H as [H|H]; [rewrite (cmd_mono Hc) in H; done|lia].
Qed.

(** A step of the goroutine that waits for the acknowledgement starts the loops. *)
Lemma pre_here t : total (tPre t) pool' + count (is_eos t) (wire s') <= 1.
Proof.
  rewrite tok_next. assert (Hnf : tAfterAck f = 0 \/ tAfterAck f = 1) by (destruct f; auto). destruct Hnf as [Hnf|Hnf].
  - pose proof (pre_exec _ t _ _ _ _ _ _ _ _ He Hnf). pose proof (i_pre _ _ Hinv t). lia.
  - here (@tAfterAck EP). destruct (i_before _ _ Hinv) as (Hl & _ & Hw); [right; lia|]. pose proof (pre_loop t p).
    pose proof (tokens_nonneg (tPre t) p ltac:(nonneg)). pose proof (ack_starts _ t _ _ _ _ _ _ _ _ He Hnf) as (Hs & -> & _).
    pose proof (count_le (is_eos t) is_loop (wire s) ltac:(by intros [])). pose proof (count_nonneg (is_eos t) (wire s)). destruct f; cbn in *; lia.
Qed.

Lemma wait_here' : total tWait pool' + bz (childDone s') <= 1.
Proof.
  rewrite tok_next. assert (Hnf : tAfterAck f = 0 \/ tAfterAck f = 1) by (destruct f; auto). destruct Hnf as [Hnf|Hnf].
  - pose proof (wait_exec _ _ _ _ _ _ _ _ _ He Hnf here_wait). pose proof (i_wait _ _ Hinv). lia.
  - here (@tAfterAck EP). destruct (i_before _ _ Hinv) as (Hl & Hc & Hw); [right; lia|].
    pose proof (ack_starts _ Stdout _ _ _ _ _ _ _ _ He Hnf) as (_ & _ & Hs & Hcd). pose proof (wait_loop p). tnn (@tWait EP). rewrite Hcd, Hc.
    destruct f; cbn in *; lia.
Qed.

Lemma eos_grows t : 0 < count (is_eos t) (wire s) -> 0 < count (is_eos t) (wire s').
Proof. apply (count_rely _ _ _ rely_here). Qed.

Lemma maps_here : cmd s' = true -> maps_ok s'.
Proof.
  intros Hc'. destruct (map_cases _ _ _ _ _ _ _ _ _ He) as [[x Hf]|[(t & x & Hf)|[[t Hf]|((Ho & Hen & Ha & Hp) & Hcm & Hn1 & Hn2)]]].
  - rewrite Hf in He. destruct (publish_exec _ _ _ _ _ _ _ _ _ He) as [(_ & (Hcm & _) & _)|Hpub].
    + exfalso. destruct here_opening as [Hc _]; [by rewrite Hf|congruence].
    + destruct Hpub as (_ & _ & _ & _ & Hp & _ & _ & Ha & Ho & Hen & _). split.
      * eauto.
      * rewrite Hen. eauto.
      * rewrite Ho, Hp. done.
      * rewrite Ho, Hp. cbn. congruence.
  - rewrite Hf in He. destruct here_loop as (_ & _ & Hm); [by rewrite Hf|]. destruct (onRead_exec _ _ _ _ _ _ _ _ _ _ He Hm)
      as (_ & Hw & _ & _ & _ & _ & _ & _ & Ho & Ha & Hp & Hcase). destruct Hm as [[o [Ho0 Ha0]] [e He0] Hk Hd]. split.
    + exists o. by rewrite Ho, Ha.
    + destruct Hcase as [(-> & _)|(_ & _ & _ & _ & _ & e' & _ & ->)]; eauto.
    + by rewrite Ho, Hp.
    + by rewrite Ho, Hp, Hw.
  - rewrite Hf in He. destruct here_loop as (_ & _ & Hm); [by rewrite Hf|]. destruct here_thread as (_ & _ & Htop). rewrite Hf in Htop. cbn in Htop.
    destruct (afterEOS_exec _ _ _ _ _ _ _ _ _ He Hm) as (_ & Hw & _ & _ & Hp & [(e & _ & -> & _)|(Hr & o & e & Ho0 & He0 & Ho & Hen & Ha & _)]); [done|].
    destruct Hm as [_ _ Hk Hd]. rewrite Ho0 in Hk, Hd. split.
    + eauto.
    + rewrite Hen. eauto.
    + rewrite Ho, Hp. cbn. intros u Hu. destruct (decide (u = t)) as [->|]; [by rewrite set_key_same in Hu|]. rewrite set_key_other in Hu by done. by apply Hk.
    + rewrite Ho, Hp, Hw. cbn. intros u Hu Hs. destruct (decide (u = t)) as [->|]; [by apply Htop|]. rewrite set_key_other in Hs by done. by apply Hd.
  - rewrite Hcm in Hc'. destruct (i_maps _ _ Hinv Hc') as [Hm1 Hm2 Hm3 Hm4]. split; [by rewrite Ho, Ha|by rewrite Hen|by rewrite Ho, Hp|].
    rewrite Ho, Hp. intros t Ht Hk. apply eos_grows. by apply Hm4.
Qed.

Lemma ending_here t : total (tAfterEOS t) pool' <= bz (key (streamsOpen s') t && key (streamsEnding s') t).
Proof.
  rewrite tok_next. pose proof (i_ending _ _ Hinv t) as Hend. pose proof (tokens_nonneg (tAfterEOS t) p ltac:(nonneg)) as Hnn.
  pose proof (tok_here (tAfterEOS t) ltac:(nonneg)) as Hhere.
  destruct (map_cases _ _ _ _ _ _ _ _ _ He) as [[x Hf]|[(u & x & Hf)|[[u Hf]|((Ho & Hen & Ha & Hp) & Hcm & Hn1 & Hn2)]]].
  - destruct here_opening as [Hc _]; [by rewrite Hf|]. destruct (i_before _ _ Hinv (or_introl Hc)) as [Hl _]. pose proof (eos_loop t p). pose proof He as He'.
    rewrite Hf in He'. rewrite Hf. cbn [tAfterEOS].
    destruct (publish_exec _ _ _ _ _ _ _ _ _ He') as [(_ & _ & _ & -> & ->)|(_ & _ & _ & _ & _ & _ & _ & _ & _ & _ & -> & ->)]; cbn; unfold bz; case_match; lia.
  - destruct here_loop as (_ & _ & Hm); [by rewrite Hf|]. pose proof He as He'. rewrite Hf in He'. rewrite Hf. cbn [tAfterEOS].
    destruct (onRead_exec _ _ _ _ _ _ _ _ _ _ He' Hm) as (-> & _ & _ & _ & _ & _ & _ & _ & -> & _ & _ & Hcase).
    destruct Hcase as [(-> & [[->|[e ->]]|(b & rnd & pl & _ & _ & ->)])|(_ & _ & -> & Hko & Hke & e & He0 & ->)]; cbn; try lia.
    rewrite He0 in Hend, Hke. cbn in Hend, Hke. destruct (decide (u = t)) as [->|].
    + rewrite set_key_same, Hko. rewrite Hke, andb_false_r in Hend. cbn in *. lia.
    + rewrite set_key_other by done. lia.
  - destruct here_loop as (_ & _ & Hm); [by rewrite Hf|]. pose proof He as He'. rewrite Hf in He'. rewrite Hf in Hhere |- *. cbn [tAfterEOS] in *.
    destruct (afterEOS_exec _ _ _ _ _ _ _ _ _ He' Hm) as (-> & _ & _ & _ & _ & [(e & _ & -> & ->)|(_ & o & e & Ho0 & He0 & -> & -> & _ & ->)]).
    { cbn. case_decide; lia. }
    rewrite Ho0, He0 in Hend. cbn [key] in *. destruct (decide (u = t)) as [->|].
    + rewrite set_key_same. unfold bz in *. destruct (o t && e t); destruct (_ && childDone s); cbn; lia.
    + rewrite !set_key_other by done. destruct (_ && childDone s); cbn; lia.
  - rewrite Ho, Hen. destruct (eos_exec _ t _ _ _ _ _ _ _ _ He) as [Hle|(u & x & Hf)]; [lia|by destruct (Hn1 u x)].
Qed.

Lemma map_len_zero g : map_len g = 0 <-> forall t, g t = false.
Proof.
  unfold map_len. split.
  - intros Hl t. destruct (g Stdout) eqn:?, (g Stderr) eqn:?; try lia. by destruct t.
  - intros Hg. by rewrite !Hg.
Qed.

Lemma close_here : total tDoClose pool' + count is_close (wire s') <= bz ((streamsActive s' =? 0) && childDone s').
Proof.
  rewrite tok_next. pose proof (i_close _ _ Hinv) as Hcl. tnn (@tDoClose EP). here (@tDoClose EP). pose proof (count_nonneg is_close (wire s)) as Hcn.
  pose proof (fun u => tok_here (tAfterEOS u) ltac:(nonneg)) as Hh. pose proof here_wait as Hwait.
  destruct (exit_exec _ _ _ _ _ _ _ _ _ He) as [(Hcd & _ & _)|(c & Hf & Hcd & _ & _ & Ha & _ & Hw & Hnew & Hfs)].
  2: { rewrite Hcd, Ha, Hw, Hnew, Hfs. rewrite Hwait, andb_false_r in Hcl by (by rewrite Hf). cbn [bz] in Hcl. rewrite Hf in *.
       cbn [tDoClose] in *. destruct (streamsActive s =? 0); cbn; lia. }
  rewrite Hcd. destruct (map_cases _ _ _ _ _ _ _ _ _ He) as [[x Hf]|[(u & x & Hf)|[[u Hf]|((Ho & Hen & Ha & Hp) & Hcm & Hn1 & Hn2)]]].
  - destruct here_opening as [Hc _]; [by rewrite Hf|]. destruct (i_before _ _ Hinv (or_introl Hc)) as (_ & Hd & _). rewrite Hd, andb_false_r in *. cbn [bz] in *.
    destruct (doClose_exec _ _ _ _ _ _ _ _ _ He) as [?|[[u Hx]|[Hx1 Hx2]]]; [lia|congruence|by rewrite Hf in Hx1].
  - destruct here_loop as (_ & _ & Hm); [by rewrite Hf|]. pose proof He as He'. rewrite Hf in He'.
    destruct (onRead_exec _ _ _ _ _ _ _ _ _ _ He' Hm) as (_ & _ & _ & _ & _ & _ & _ & _ & _ & -> & _).
    destruct (doClose_exec _ _ _ _ _ _ _ _ _ He) as [?|[[v Hx]|[Hx1 Hx2]]]; [lia|congruence|by rewrite Hf in Hx1].
  - destruct here_loop as (_ & _ & Hm); [by rewrite Hf|]. pose proof He as He'. rewrite Hf in He'. rewrite Hf in *. cbn [tDoClose] in *.
    destruct (afterEOS_exec _ _ _ _ _ _ _ _ _ He' Hm) as (-> & -> & _ & _ & _ & [(e & _ & -> & ->)|(_ & o & e & Ho0 & He0 & _ & _ & Ha & ->)]); [cbn; lia|].
    pose proof (i_ending _ _ Hinv u) as Hend. specialize (Hh u). cbn in Hh. rewrite decide_True in Hh by done.
    rewrite Ho0 in Hend. cbn in Hend. assert (Hou : o u = true) by (unfold bz in Hend; destruct (o u); [done|cbn in Hend; lia]).
    destruct Hm as [(o' & Ho' & Ha') _ _ _]. assert (o' = o) as -> by congruence.
    assert (Hz : (streamsActive s =? 0) = false) by (apply Z.eqb_neq; rewrite Ha'; intros Hz; pose proof (proj1 (map_len_zero o) Hz u); congruence).
    rewrite Hz in Hcl. cbn in Hcl. rewrite Ha. destruct (_ && childDone s); cbn; lia.
  - rewrite Ha. destruct (doClose_exec _ _ _ _ _ _ _ _ _ He) as [?|[[v Hx]|[Hx1 Hx2]]]; [lia|by destruct (Hn2 v)|]. specialize (Hwait Hx1). congruence.
Qed.

Lemma exited_here : (childDone s' = true -> child s' = Reaped (childExitCode s')) /\ childExited s' = bz (childDone s').
Proof.
  pose proof (i_exited _ _ Hinv) as Hx. pose proof (i_exits _ _ Hinv) as Hn. pose proof rely_here as Hr.
  destruct (exit_exec _ _ _ _ _ _ _ _ _ He) as [(Hcd & Hcode & Hex)|(c & Hf & Hcd & Hcode & Hch & _ & Hex & _)].
  - rewrite Hcd, Hcode, Hex. split; [|done]. intros Hd. apply (rl_reaped _ _ Hr). by apply Hx.
  - rewrite Hcd, Hcode, Hch, Hex, here_wait by (by rewrite Hf). split; [|rewrite Hn, here_wait by (by rewrite Hf); done].
    intros _. destruct here_thread as ((_ & _ & Hok) & _). rewrite Hf in Hok. exact Hok.
Qed.

Lemma pipes_here : pipesClosed s' = true -> closed s' = true.
Proof.
  intros Hp. apply (rl_closed _ _ rely_here). destruct (pipes_exec _ _ _ _ _ _ _ _ _ He) as [Heq|[c Hf]]; [apply (i_pipes _ _ Hinv); congruence|].
  destruct here_thread as ((_ & _ & Hok) & _). rewrite Hf in Hok. by destruct Hok.
Qed.

Lemma auth_here : child s' <> NoChild \/ 0 < total tVerified pool' -> authenticated s' = true.
Proof.
  rewrite tok_next. destruct (auth_exec _ _ _ _ _ _ _ _ _ He) as [Hv Hc]. here (@tVerified EP). intros H.
  destruct Hv as [Hv|]; [|done]. apply (rl_auth _ _ rely_here), (i_auth _ _ Hinv). destruct H as [H|H]; [|right; lia].
  destruct (Hc H) as [?|?]; [by left|right; lia].
Qed.

Lemma here_below_pre t pl : f = FWriting (MData t pl) -> 1 <= total (tPre t) p.
Proof.
  intros Hf. pose proof (total_lookup (tPre t) p i _ ltac:(nonneg) Hi) as Hl. cbn [toks snd] in Hl. pose proof here_stack as Hst. rewrite Hf in Hst.
  destruct Hst as [Hadj _]. rewrite Hf in Hl. destruct k as [|[] k']; try done. cbn in Hadj. apply bool_decide_eq_true_1 in Hadj as ->. cbn in Hl.
  rewrite decide_True in Hl by done. pose proof (toks_nonneg (tPre t0) k' ltac:(nonneg)). lia.
Qed.

(** What is written may be written now. *)
Lemma allowed_here m : f = FWriting m -> allowed (ptyFile s) (wire s) m.
Proof.
  intros Hf. destruct here_thread as ((Hsaid & Hacked & Hok) & _). rewrite Hf in Hsaid, Hacked, Hok. split.
  { intros Hm. apply Hsaid. by destruct m. }
  destruct m as [|b|e| |t pl|t|c]; cbn in *; try specialize (Hacked eq_refl).
  - apply (i_hello _ _ Hinv). here (@tHello EP). rewrite Hf in Htok. cbn in Htok. lia.
  - here (@tAckW EP). rewrite Hf in Htok. cbn in Htok. pose proof (i_acks _ _ Hinv) as Ha. pose proof (ackW_below p (i_stacks _ _ Hinv)) as Hb.
    destruct (i_before _ _ Hinv) as (_ & _ & Hl); [right; lia|]. pose proof (count_nonneg is_ack (wire s)). unfold bz in Ha. destruct (cmd s); split_and!; (done || lia).
  - done.
  - done.
  - split; [done|]. pose proof (here_below_pre _ _ Hf). pose proof (i_pre _ _ Hinv t). pose proof (count_nonneg (is_eos t) (wire s)). lia.
  - split; [done|]. pose proof (tok_here (tPre t) ltac:(nonneg)) as Ht. rewrite Hf in Ht. cbn in Ht. rewrite decide_True in Ht by done.
    pose proof (i_pre _ _ Hinv t). pose proof (count_nonneg (is_eos t) (wire s)). lia.
  - split; [done|]. here (@tDoClose EP). rewrite Hf in Htok. cbn in Htok. pose proof (i_close _ _ Hinv) as Hc. pose proof (count_nonneg is_close (wire s)).
    unfold bz in Hc. destruct (streamsActive s =? 0) eqn:Hz; [|cbn in Hc; lia]. split; [destruct (childDone s); cbn in Hc; lia|].
    intros t Ht. destruct here_loop as (_ & _ & Hm); [by rewrite Hf|]. destruct Hm as [(o & Ho & Ha) _ _ Hd]. apply Hd; [done|]. rewrite Ho. cbn.
    apply map_len_zero. rewrite <- Ha. by apply Z.eqb_eq.
Qed.

Lemma wire_here : wire_ok (ptyFile s') (wire s').
Proof.
  pose proof (i_wire _ _ Hinv) as Hw. destruct (wire_grows _ _ _ _ _ _ _ _ _ He) as [Heq|(m & Hf & Heq & _)].
  - rewrite Heq. destruct (cmd s) eqn:Hc.
    + destruct (rl_open _ _ rely_here (or_introl Hc)) as (_ & _ & _ & -> & _). done.
    + destruct (i_before _ _ Hinv (or_introl Hc)) as (_ & _ & Hl). by apply (wire_ok_tty (ptyFile s)).
  - rewrite Heq. destruct (keeps_exec _ _ _ _ _ _ _ _ _ He) as (_ & _ & _ & -> & _); [by rewrite Hf|]. apply wire_ok_snoc; [done|by apply allowed_here].
Qed.

Lemma code_here c : MClose c ∈ wire s' -> childDone s' = true /\ c = childExitCode s'.
Proof.
  intros Hin. pose proof rely_here as Hr. enough (childDone s = true /\ c = childExitCode s) as [Hd ->] by (by destruct (rl_childDone _ _ Hr Hd) as [? ->]).
  destruct (wire_grows _ _ _ _ _ _ _ _ _ He) as [Heq|(m & Hf & Heq & _)]; rewrite Heq in Hin; [by apply (i_closed_code _ _ Hinv)|].
  apply elem_of_app in Hin as [Hin|Hin%list_elem_of_singleton]; [by apply (i_closed_code _ _ Hinv)|]. subst m.
  destruct here_thread as ((_ & _ & Hok) & _). rewrite Hf in Hok. by destruct Hok.
Qed.

Theorem inv_exec : inv s' pool'.
Proof.
  destruct child_here as (Hc1 & Hc2 & Hc3). destruct reader_here as [Hr1 Hr2]. destruct ack_here as [Ha1 Ha2]. destruct exited_here as [He1 He2].
  split; try done.
  - apply stacks_here.
  - apply threads_here.
  - rewrite tok_next. destruct (wg_exec _ _ _ _ _ _ _ _ _ He) as [-> _]. pose proof (i_wg _ _ Hinv). lia.
  - rewrite tok_next. destruct (wg_exec _ _ _ _ _ _ _ _ _ He) as [_ ->]. pose proof (i_copywg _ _ Hinv). lia.
  - rewrite tok_next. pose proof (closing_exec _ _ _ _ _ _ _ _ _ He). pose proof (i_closing _ _ Hinv). lia.
  - apply done_here.
  - rewrite tok_next. pose proof (i_opening _ _ Hinv). here (@tOpening EP). pose proof (opening_exec _ _ _ _ _ _ _ _ _ He ltac:(lia)). lia.
  - intros Hc. destruct (open_exec _ _ _ _ _ _ _ _ _ He) as [(-> & Hcm)|[Hop|(-> & Hcm & Hcf)]]; [apply (i_cmd _ _ Hinv); congruence|done|congruence].
  - destruct (map_or_publish _ _ _ _ _ _ _ _ _ He) as [(-> & -> & _)|(-> & -> & _)]; [apply (i_opened _ _ Hinv)|done].
  - destruct (map_or_publish _ _ _ _ _ _ _ _ _ He) as [(-> & _ & ->)|(-> & _ & ->)]; [apply (i_group _ _ Hinv)|done].
  - apply hello_here.
  - apply before_here.
  - apply pre_here.
  - apply maps_here.
  - apply ending_here.
  - apply wait_here'.
  - apply close_here.
  - apply pipes_here.
  - apply wire_here.
  - apply code_here.
  - apply auth_here.
Qed.
End Exec.

(** *** Moves of the outside, and the start *)

Lemma move_facts m s s' new : run_move m s = Some (s', new) ->
  (exists ot ct c pi pr pe, s' = {| s with openTimer := ot; closeTimer := ct; child := c; pipe := pi; produced := pr; pipeEOF := pe |}) /\
  (child s' = NoChild <-> child s = NoChild) /\
  (new = [] \/ new = [[FOpenTimeout]] \/ new = [[FCloseTimeout]] \/ new = [[FShutdown]]).
Proof.
  intros H. destruct m; cbn in H; repeat case_match; try discriminate H; injection H as <- <-; (split; [|split; [cbn; split; congruence|tauto]]).
  all: try (eexists _, _, _, _, _, _; reflexivity).
  exists (openTimer s), (closeTimer s), (child s), (pipe s), (produced s), (pipeEOF s). by destruct s.
Qed.

Theorem inv_move m s p s' new : inv s p -> run_move m s = Some (s', new) -> inv s' (p ++ (start <$> new)).
Proof.
  intros Hinv Hm. pose proof (rely_move _ _ _ _ Hm) as Hr. destruct (move_facts _ _ _ _ Hm) as (Heq & Hch & Hnew).
  assert (HT : forall T : @frame EP -> Z, T FOpenTimeout = 0 -> T FCloseTimeout = 0 -> T FShutdown = 0 -> total T (p ++ (start <$> new)) = total T p).
  { intros T H1 H2 H3. rewrite tokens_app. destruct Hnew as [->|[->|[->| ->]]]; cbn; rewrite ?H1, ?H2, ?H3; lia. }
  assert (Hkeep : forall c, child s = Reaped c -> child s' = Reaped c) by apply (rl_reaped _ _ Hr).
  destruct Hinv. destruct Heq as (ot & ct & c & pi & pr & pe & ->). cbn in Hch, Hkeep. split; cbn [closed opening cmd processGroup ptyFile streamsActive
    streamsEnding streamsOpen childDone childExitCode opened payloadCrypto authenticated childExited doneCh lifecycleWG copyWG wire child pipesClosed];
    rewrite ?HT by done; try done.
  - apply Forall_app. split; [done|]. destruct Hnew as [->|[->|[->| ->]]]; repeat constructor.
  - apply Forall_app. split.
    + eapply Forall_impl; [exact i_threads0|]. intros [r st] [Hf Ht]. split; [eapply Forall_impl; [exact Hf|]; intros g; by apply frame_stable|].
      cbn in *. destruct st as [|g st]; [done|]. by destruct g.
    + destruct Hnew as [->|[->|[->| ->]]]; repeat constructor; cbn; intros; discriminate.
  - intros Hp. by apply Hch, i_prep0.
  - intros Hn. apply i_child0. tauto.
  - intros Hn. pose proof (i_started0 Hn). tauto.
  - intros t. rewrite HT by (cbn; done). apply i_pre0.
  - intros Hc. destruct (i_maps0 Hc) as [? ? ? ?]. split; done.
  - intros t. rewrite HT by (cbn; done). apply i_ending0.
  - intros Hd. by apply Hkeep, i_exited0.
  - intros [Hn|Hn]; apply i_auth0; [left; tauto|by right].
Qed.

Theorem inv_init σ : initial cfg σ -> inv σ.1 σ.2.
Proof.
  intros [|]; cbn [fst snd].
  all: split; try done; try (cbn; lia); try (cbn; intros; lia); try (by repeat constructor).
  all: try apply wire_ok_nil; cbn.
  all: try (intros c Hc; by apply not_elem_of_nil in Hc).
  all: intros [?|?]; [done|lia].
Qed.

Definition Inv (σ : @state EP) : Prop := inv σ.1 σ.2.

Theorem session_inv_step e σ σ' : Inv σ -> step cfg e σ = Some σ' -> Inv σ'.
Proof.
  intros Hinv. destruct σ as [s p], e as [i ch|m]; cbn.
  - unfold step_thread. cbn. destruct (p !! i) as [[r [|f k]]|] eqn:Hi; [done| |done].
    destruct (exec cfg f r ch s) as [[[[s' r'] fs] new]|] eqn:He; [|done]. intros [= <-]. by eapply inv_exec.
  - destruct (run_move m s) as [[s' new]|] eqn:Hm; [|done]. intros [= <-]. by eapply inv_move.
Qed.

Theorem session_inv_reachable σ : reachable cfg σ -> Inv σ.
Proof. induction 1 as [σ Hi|σ e σ' _ IH Hs]; [by apply inv_init|by eapply session_inv_step]. Qed.

(** ** No panic *)

(** The steps at which Go panics: closing [doneCh] or [childExited] twice, a WaitGroup
    below zero, an [Add] after its [Wait] returned, a write to a nil map. *)
Definition panics (e : @event EP) (σ : @state EP) : bool :=
  match e with
  | Move _ => false
  | Thread i ch =>
      match σ.2 !! i with
      | Some (r, f :: _) =>
          match f with
          | FFinish => (lifecycleWG σ.1 =? 0) && (0 <? doneCh σ.1)
          | FOnExit (inl _) => negb (closed σ.1) && negb (childDone σ.1) && (0 <? childExited σ.1)
          | FDone => lifecycleWG σ.1 <=? 0
          | FCopyDone => copyWG σ.1 <=? 0
          | FOnRead t SEos =>
              match streamsOpen σ.1, streamsEnding σ.1 with
              | Some o, None => negb (closed σ.1) && o t
              | _, _ => false
              end
          | _ =>
              match step cfg e σ with
              | Some σ' => (lifecycleWG σ.1 <? lifecycleWG σ'.1) && (0 <? doneCh σ.1)
              | None => false
              end
          end
      | _ => false
      end
  end.

Lemma no_late_add i ch s p r f k σ' : inv s p -> p !! i = Some (r, f :: k) -> step cfg (Thread i ch) (s, p) = Some σ' -> 0 < doneCh s ->
  lifecycleWG σ'.1 <= lifecycleWG s.
Proof.
  intros Hinv Hi Hs Hd. cbn in Hs. unfold step_thread in Hs. cbn in Hs. rewrite Hi in Hs. destruct (exec cfg f r ch s) as [[[[s' r'] fs] new]|] eqn:He; [|done].
  injection Hs as <-. cbn. destruct (wg_exec _ _ _ _ _ _ _ _ _ He) as [-> _].
  destruct (done_exec _ _ _ _ _ _ _ _ _ He) as [(_ & _ & Hz)|(_ & Hle)]; [lia|]. assert (closed s = true).
  { pose proof (i_closing _ _ Hinv) as Hc. pose proof (tokens_nonneg tClosing p ltac:(nonneg)). unfold bz in Hc. destruct (closed s); [done|lia]. }
  specialize (Hle ltac:(done)). lia.
Qed.

(** C5: no goroutine of a session panics, whatever the client, the child, the timers and the
    callers of [shutdown] do and however the goroutines interleave: its channels are
    closed once, its WaitGroups are never negative, no loop is added once the cleanup has
    stopped waiting for the loops, and no nil map is written. *)
Theorem session_never_panics σ e : reachable cfg σ -> panics e σ = false.
Proof.
  intros Hr. pose proof (session_inv_reachable σ Hr) as Hinv. destruct σ as [s p], e as [i ch|m]; [|done]. unfold Inv in Hinv. cbn [fst snd] in Hinv.
  unfold panics. cbn [fst snd]. destruct (p !! i) as [[r [|f k]]|] eqn:Hi; [done| |done].
  assert (Hadd : match step cfg (Thread i ch) (s, p) with Some σ' => (lifecycleWG s <? lifecycleWG σ'.1) && (0 <? doneCh s) | None => false end = false).
  { destruct (step cfg (Thread i ch) (s, p)) as [σ'|] eqn:Hs; [|done]. destruct (Z.ltb_spec 0 (doneCh s)); [|by rewrite andb_false_r].
    pose proof (no_late_add _ _ _ _ _ _ _ _ Hinv Hi Hs ltac:(done)). destruct (Z.ltb_spec (lifecycleWG s) (lifecycleWG σ'.1)); [lia|done]. }
  assert (Htok : forall T : @frame EP -> Z, (forall g, 0 <= T g) -> T f <= total T p) by (intros T HT; by eapply tok_here).
  destruct f; try exact Hadd.
  - pose proof (Htok tLoop ltac:(nonneg)) as Hl. cbn in Hl. destruct r0; [exact Hadd| |exact Hadd].
    destruct (here_loop _ _ _ _ _ _ Hinv Hi eq_refl) as (_ & _ & [(o & -> & _) [en ->] _ _]). done.
  - destruct r0 as [c|e0]; [|exact Hadd]. rewrite (i_exits _ _ Hinv). by destruct (childDone s), (closed s).
  - pose proof (Htok tClosing ltac:(nonneg)) as Hc. cbn in Hc. pose proof (i_closing _ _ Hinv) as Hcl. unfold bz in Hcl.
    destruct (Z.ltb_spec 0 (doneCh s)); [|by rewrite andb_false_r]. destruct (closed s); lia.
  - pose proof (Htok tDone ltac:(nonneg)) as Hc. cbn in Hc. rewrite (i_wg _ _ Hinv). apply Z.leb_gt. lia.
  - pose proof (Htok tCopyDone ltac:(nonneg)) as Hc. cbn in Hc. rewrite (i_copywg _ _ Hinv). apply Z.leb_gt. lia.
Qed.

(** ** The protocol *)

(** C7: what a session writes follows the protocol, in every interleaving.  The hello of a server
    with an identity comes first; at most one acknowledgement, after the client's proof
    was accepted and before any output or heartbeat; no output of a stream after its end,
    and one end per stream; one close, after the ends of all the streams the session
    opened, with the exit code of the child that was waited for. *)
Theorem session_wire_protocol σ : reachable cfg σ ->
  wire_ok (ptyFile σ.1) (wire σ.1) /\
  (forall t, MAck t ∈ wire σ.1 -> authenticated σ.1 = true /\ child σ.1 <> NoChild) /\
  (forall c, MClose c ∈ wire σ.1 -> child σ.1 = Reaped c).
Proof.
  intros Hr. pose proof (session_inv_reachable σ Hr) as Hinv. unfold Inv in Hinv. split_and!.
  - apply (i_wire _ _ Hinv).
  - intros t Ht. assert (Hc : child σ.1 <> NoChild).
    { apply (i_started _ _ Hinv). left. pose proof (i_acks _ _ Hinv) as Ha. pose proof (tokens_nonneg tAckW σ.2 ltac:(nonneg)).
      assert (0 < count is_ack (wire σ.1)) by (apply count_elem; by exists (MAck t)). unfold bz in Ha. destruct (cmd σ.1); [done|lia]. }
    split; [|done]. apply (i_auth _ _ Hinv). by left.
  - intros c Hc. destruct (i_closed_code _ _ Hinv c Hc) as [Hd ->]. by apply (i_exited _ _ Hinv).
Qed.
End WebttySessionProps.

(** ** Runs *)

Lemma reachable_runs {EP} (cfg : @config EP) es σ σ' : reachable cfg σ -> runs cfg es σ = Some σ' -> reachable cfg σ'.
Proof.
  revert σ. induction es as [|e es IH]; intros σ Hr; cbn; [by intros [= <-]|]. destruct (step cfg e σ) as [σ1|] eqn:Hs; [|done].
  apply IH. by eapply reach_step.
Qed.

(** A client opens a session without a terminal; the child writes, ends with 7. *)
Definition demo_config : @config (list byte) := MkSessionConfig true true true true None true false false None false false.
Definition demo_answers : @open_answers (list byte) := MkAnswers None None None None None None.
Definition demo_bytes : list byte := [Byte.x68; Byte.x69].

Definition demo_open : list (@event (list byte)) :=
  replicate 7 (Thread 0 Go) ++
  [Thread 1 Go; Thread 1 (Reads (RdMessage (IOpen (MkOpenMsg true false false))))] ++ replicate 4 (Thread 1 Go) ++
  [Thread 1 (Answers demo_answers); Thread 1 (Answers demo_answers); Thread 1 Go; Thread 1 Go].

Definition demo_work : list (@event (list byte)) :=
  [Thread 1 Go; Thread 1 Go; Thread 2 Go; Move (Output Stdout demo_bytes); Thread 4 (Bytes demo_bytes); Thread 4 (Random [])] ++
  replicate 3 (Thread 4 Go) ++
  [Move (CloseOutput Stdout); Move (CloseOutput Stderr); Move (Exit 7); Thread 4 Eof] ++ replicate 5 (Thread 4 Go) ++
  Thread 5 Eof :: replicate 5 (Thread 5 Go) ++ replicate 14 (Thread 2 Go).

Definition demo_end : list (@event (list byte)) :=
  [Thread 1 Go; Thread 1 Go; Thread 1 (Reads RdExpected)] ++ replicate 6 (Thread 1 Go) ++ [Thread 3 Go; Thread 3 Go; Thread 6 Go; Thread 0 Go].

Definition demo_start : @state (list byte) := (newSession demo_config, [start [FRun]]).
Definition demo_run (es : list event) : @state (list byte) := default demo_start (runs demo_config es demo_start).

Lemma demo_reachable es : is_Some (runs demo_config es demo_start) -> reachable demo_config (demo_run es).
Proof.
  intros [σ Hσ]. unfold demo_run. rewrite Hσ. cbn. eapply reachable_runs; [|exact Hσ]. apply reach_init, initial_run.
Qed.

Lemma session_never_panics_witness :
  doneCh (demo_run (demo_open ++ demo_work ++ demo_end)).1 = 1 /\ panics demo_config (Thread 2 Go) (demo_run (demo_open ++ demo_work)) = false.
Proof.
  split; [vm_compute; reflexivity|]. apply (session_never_panics demo_config). apply demo_reachable. vm_compute. eexists. reflexivity.
Defined.

Lemma session_wire_protocol_witness :
  wire (demo_run (demo_open ++ demo_work ++ demo_end)).1 =
    [MHello; MAck true; MData Stdout (PPlain demo_bytes); MEos Stdout; MEos Stderr; MClose 7] /\
  wire_ok demo_config false (wire (demo_run (demo_open ++ demo_work ++ demo_end)).1).
Proof.
  split; [vm_compute; reflexivity|]. refine (proj1 (session_wire_protocol demo_config (demo_run (demo_open ++ demo_work ++ demo_end)) _)).
  apply demo_reachable. vm_compute. eexists. reflexivity.
Defined.
