(* ===== verification/WebttySessionChild.v ===== *)
(** * WebttySessionChild: the process of a session

    The child of a session is waited for, is signalled only while it is its own, and is
    killed when the session closes. *)

From S2P Require Import Prelude WebttySession WebttySessionInv WebttySessionSteps WebttySessionProps.

Section WebttySessionChild.
Context {EP : Type} (cfg : @config EP).
Implicit Types (f : @frame EP) (s : @session EP) (p : list (@thread EP)).

Ltac nonneg := let g := fresh in intros g; destruct g; cbn; repeat case_match; lia.

(** A goroutine that will wait for the child, and what it does first. *)
Definition tWaits f : Z := match f with FWaitCopies | FWaitProc | FOnExit _ | FResWait => 1 | _ => 0 end.
Definition tGuard f : Z := match f with FSpawnCopies | FWaitOwned | FGroupClose | FResKill _ => 1 | _ => 0 end.
Definition tCleanup f : Z := match f with FCleanup _ => 1 | _ => 0 end.
Definition tRes f : Z := match f with FResKill _ | FResWait => 1 | _ => 0 end.

(** The read loop, which opens the session. *)
Definition tReads f : Z :=
  match f with
  | FReadInit _ | FAfterInit | FRead | FIncoming _ | FAfterHandle | FHandle _ | FDispatch _ | FOpen _ | FPrepare _ | FVerified _ => 1
  | _ => tOwner f
  end.

(** The goroutine at [f] is a loop that the cleanup waits for. *)
Fixpoint looped (st : list (@frame EP)) : Prop :=
  match st with f :: k => (tReads f = 1 -> 1 <= toks tDone k) /\ looped k | [] => True end.

(** The child was started and not waited for; it has ended, or was killed. *)
Definition unreaped s : Prop := match child s with Alive | Dead _ => True | _ => False end.
Definition ended s : Prop := match child s with Dead _ | Reaped _ => True | _ => False end.
Definition dying s : Prop := killed s = true \/ ended s.

(** No goroutine will wait for the child: its open was never acknowledged. *)
Definition abandoned s p : Prop := cmd s = true /\ total tAfterAck p = 0 /\ count is_ack (wire s) = 0.

Record inv_child s p : Prop := {
  j_looped : Forall (fun th => looped th.2) p;
  j_owner : unreaped s -> 1 <= total tOwner p \/ abandoned s p;
  j_released : c_groups cfg = true -> Forall (fun th => 0 < toks tWaits th.2 -> toks tGuard th.2 = 0 -> released s = true) p;
  j_reaped : c_groups cfg = true -> forall c, child s = Reaped c -> released s = true;
  j_signals : c_groups cfg = true -> Forall (fun x => forall c, x <> Reaped c) (signals s);
  j_killed : released s = true -> dying s;
  j_res : 0 < total tRes p -> child s <> NoChild;
  j_nokill : killed s = true -> child s <> NoChild;
  j_closed : closed s = true -> cmd s = true -> total tCleanup p = 0 -> dying s;
}.

(** ** Exec facts *)

Lemma guard_below f k : stack_ok (f :: k) -> f <> FSpawnCopies -> toks tGuard k = 0.
Proof.
  revert f. induction k as [|g k IH]; intros f [Hadj Hk] Hf; [done|]. cbn [toks].
  assert (Hg : tGuard g = 0 /\ g <> FSpawnCopies) by (destruct g; try done; destruct f; try done; cbn in Hadj; by repeat case_match).
  rewrite (IH g Hk) by tauto. lia.
Qed.

Lemma released_group_close s : released (group_close s) = true.
Proof. unfold group_close. by destruct (released s) eqn:Hr. Qed.

Lemma released_signalOwned k g t s : released (signalOwned k g t s) = released s.
Proof. unfold signalOwned. by repeat case_match. Qed.

(** A step that is left with no guard has released the group, or had none. *)
Lemma guard_exec f r ch s s' r' fs new : exec cfg f r ch s = Some (s', r', fs, new) ->
  (tGuard f = 1 -> f <> FSpawnCopies -> toks tGuard fs = 0 -> c_groups cfg = true -> (tLoop f = 1 -> processGroup s = true) -> released s' = true) /\
  (tGuard f = 0 -> toks tWaits fs = 0 \/ tWaits f = 1 \/ 1 <= toks tGuard fs) /\
  (tGuard f = 1 -> toks tWaits fs = 0) /\
  Forall (fun st => 0 < toks tWaits st -> 1 <= toks tGuard st) new.
Proof.
  intros H. exec_cases H.
  all: try (split_and!; [intros; discriminate|intros; left; reflexivity|intros; discriminate|repeat constructor; cbn; lia]).
  all: unfold loops; repeat match goal with |- context [if ?b then _ else _] => destruct b eqn:? end.
  all: split_and!; intros; cbn in *; try discriminate; try reflexivity; try done.
  all: try (right; right; lia); try (left; reflexivity); try (right; left; reflexivity).
  all: try (repeat constructor; cbn; lia).
  - unfold res_kill. match goal with Hg : c_groups cfg = true |- _ => rewrite Hg end. apply released_group_close.
  - match goal with Hp : 1 = 1 -> processGroup s = true |- _ => specialize (Hp eq_refl) end. congruence.
  - apply released_group_close.
Qed.

(** Signals reach the group while the child is not reaped. *)
Definition signal_safe s s' : Prop :=
  (forall c, child s = Reaped c -> released s = true) -> Forall (fun x => forall c, x <> Reaped c) (signals s) ->
  Forall (fun x => forall c, x <> Reaped c) (signals s').

Lemma signal_safe_same s s' : signals s' = signals s -> signal_safe s s'.
Proof. intros Heq Hr Hs. by rewrite Heq. Qed.

Lemma signal_safe_group k t s : signal_safe s (signalOwned k true t s).
Proof.
  intros Hr Hs. unfold signalOwned. destruct (released s) eqn:Hrel; [done|]. constructor; [|done]. intros c Hc. specialize (Hr c Hc). congruence.
Qed.

Lemma signal_safe_close s : signal_safe s (group_close s).
Proof.
  intros Hr Hs. unfold group_close. destruct (released s) eqn:Hrel; [done|]. constructor; [|done]. intros c Hc. specialize (Hr c Hc). congruence.
Qed.

Lemma signals_exec f r ch s s' r' fs new : exec cfg f r ch s = Some (s', r', fs, new) -> frame_ok cfg s f -> c_groups cfg = true ->
  processGroup s = cmd s && c_groups cfg -> signal_safe s s'.
Proof.
  intros H (_ & _ & Hf) Hg Hp. rewrite Hg, andb_true_r in Hp. exec_cases H; cbn in Hf; try (by apply signal_safe_same).
  all: try (apply signal_safe_same; unfold reap; by repeat case_match).
  - unfold res_kill. rewrite Hg. apply signal_safe_close.
  - apply signal_safe_close.
  - apply (signal_safe_group false false).
  - apply (signal_safe_group true false).
  - apply (signal_safe_group true false).
  - destruct Hf as (_ & Hc & Hgr & _). unfold cleanup_child. rewrite Hgr, Hc, Hp. destruct (cmd s); [|by apply signal_safe_same]. cbn [andb].
    destruct (cl_childDone c); cbn [negb]; [apply signal_safe_close|]. intros Hr Hs. apply signal_safe_close; [|by apply signal_safe_group].
    rewrite child_signalOwned, released_signalOwned. exact Hr.
  - unfold requestChildShutdown. rewrite Hp, Hf. apply signal_safe_group.
  - destruct Hf as (Hc & -> & _). rewrite Hp, Hc. apply signal_safe_group.
Qed.

(** The child is reaped only once its group is released. *)
Lemma reaps_exec f r ch s s' r' fs new c : exec cfg f r ch s = Some (s', r', fs, new) -> child s' = Reaped c ->
  child s = Reaped c \/ ((f = FWaitProc \/ f = FResWait) /\ released s' = released s).
Proof.
  intros H. exec_cases H; try (by left).
  all: unfold requestChildShutdown; rewrite ?child_signalOwned, ?child_group_close, ?child_cleanup, ?child_res_kill; try (by left).
  all: try (repeat case_match; by left).
  all: cbn; intros Hx; first [discriminate Hx | left; congruence | right; split; [tauto|unfold reap; by repeat case_match]].
Qed.

(** *** A child that is killed *)

Lemma dying_grows s s' : rely s s' -> (child s' = Alive -> child s = Alive \/ child s = NoChild) -> dying s -> dying s'.
Proof.
  intros Hr Hc [Hk|Hn]; [left; by apply (rl_killed _ _ Hr)|right]. unfold ended in *. pose proof (rl_child _ _ Hr) as Hch.
  destruct (child s) eqn:Hs, (child s') eqn:Hs'; try done; first [by apply Hch|by destruct Hc].
Qed.

Lemma alive_exec f r ch s s' r' fs new : exec cfg f r ch s = Some (s', r', fs, new) -> child s' = Alive -> child s = Alive \/ tPrep f = 1.
Proof.
  intros H. exec_cases H; try (by left); try (by right).
  all: unfold requestChildShutdown; rewrite ?child_signalOwned, ?child_group_close, ?child_cleanup, ?child_res_kill; try (by left).
  all: try (unfold reap); repeat case_match; cbn; intros Hx; first [discriminate Hx | left; congruence].
Qed.

Lemma dying_group_close s : (released s = true -> dying s) -> dying (group_close s).
Proof. intros Hr. unfold group_close. destruct (released s); [by apply Hr|]. left. cbn. by rewrite orb_true_r. Qed.

Lemma dying_signalOwned g t s : (g = true -> released s = true -> dying s) -> dying (signalOwned true g t s).
Proof.
  intros Hr. unfold signalOwned. destruct g; [destruct (released s) eqn:Hrel; [by apply Hr|]|destruct t; [|destruct (child s) eqn:Hc]].
  all: try (left; cbn; by rewrite orb_true_r). right. unfold ended. by rewrite Hc.
Qed.

Lemma dying_cleanup c s : (released s = true -> dying s) -> cl_cmd c = true -> (cl_childDone c = true -> ended s) -> dying (cleanup_child c s).
Proof.
  intros Hr Hc Hd. unfold cleanup_child. rewrite Hc. destruct (cl_childDone c) eqn:Hcd; cbn [negb andb].
  - destruct (cl_group c); [by apply dying_group_close|right; by apply Hd].
  - assert (dying (signalOwned true (cl_group c) (cl_tty c) s)) by (apply dying_signalOwned; auto). destruct (cl_group c); [by apply dying_group_close|done].
Qed.

(** The child is killed when its group is released. *)
Lemma released_exec f r ch s s' r' fs new : exec cfg f r ch s = Some (s', r', fs, new) -> (released s = true -> dying s) -> frame_ok cfg s f ->
  (cmd s = false -> processGroup s = false) -> (childDone s = true -> ended s) -> released s' = true -> released s = true \/ dying s'.
Proof.
  intros H Hd Hf Hpg Hcd. exec_cases H; try (by left).
  all: unfold requestChildShutdown; rewrite ?released_signalOwned; try (by left).
  all: try (unfold reap; repeat case_match; by left).
  all: try (intros _; right; by apply dying_group_close).
  all: try (destruct (released s) eqn:Hrel; [by left|cbn; rewrite Hrel; discriminate]).
  - unfold res_kill. destruct (c_groups cfg); [intros _; right; by apply dying_group_close|rewrite released_signalOwned; by left].
  - intros _. by right; right.
  - destruct Hf as (_ & _ & _ & Hc & Hg & _ & Hcl). destruct (cmd s) eqn:Hcmd; [intros _; right; apply dying_cleanup; auto|].
    unfold cleanup_child. rewrite Hc, Hg, (Hpg eq_refl). by left.
Qed.

(** A kill is sent to a process that was started. *)
Lemma kills_exec f r ch s s' r' fs new : exec cfg f r ch s = Some (s', r', fs, new) -> frame_ok cfg s f -> (cmd s = false -> processGroup s = false) ->
  killed s' = true -> killed s = true \/ cmd s = true \/ tRes f = 1 \/ tLoop f = 1.
Proof.
  intros H (_ & _ & Hf) Hpg. exec_cases H; cbn in Hf; try (by left); try (intros _; right; right; left; reflexivity);
    try (intros _; right; right; right; reflexivity); try (intros _; right; left; tauto).
  all: try (intros _; right; left; by destruct Hf).
  all: try (unfold reap; repeat case_match; by left).
  destruct Hf as (_ & Hc & Hg & _). unfold cleanup_child. rewrite Hc, Hg. destruct (cmd s) eqn:Hcmd; [by right; left|]. rewrite Hpg by done. by left.
Qed.

Lemma res_exec f r ch s s' r' fs new : exec cfg f r ch s = Some (s', r', fs, new) ->
  toks tRes fs + total tRes (start <$> new) <= tRes f \/ tPublish f = 1 \/ tAfterAck f = 1.
Proof. intros H. exec_cases H; first [right; left; reflexivity | right; right; reflexivity | left; cbn; lia | left; split_goal; cbn; lia]. Qed.

(** *** The goroutine that will wait for the child *)

Lemma owner_exec f r ch s s' r' fs new : exec cfg f r ch s = Some (s', r', fs, new) -> unreaped s' ->
  (0 <= toks tOwner fs + total tOwner (start <$> new) - tOwner f /\ (unreaped s \/ 1 <= toks tOwner fs)) \/
  (exists x b e, f = FAfterAck x b /\ r = Some e /\ s' = s /\ fs = [] /\ new = []).
Proof.
  intros H. exec_cases H.
  all: try (intros Hu; left; split; [cbn; lia|first [left; exact Hu | right; cbn; lia]]; fail).
  all: try (intros _; right; eexists _, _, _; by split_and!).
  all: unfold unreaped, requestChildShutdown; rewrite ?child_signalOwned, ?child_group_close, ?child_cleanup, ?child_res_kill.
  all: try (unfold reap; match goal with Hc : child _ = _ |- _ => rewrite Hc; cbn; rewrite ?Hc; done end).
  all: intros Hu; left; split; [split_goal; cbn; lia|left].
  all: first [exact Hu | destruct (released s); exact Hu | destruct (streamsOpen s), (streamsEnding s), (0 <? streamsActive s); exact Hu].
Qed.

Lemma looped_app a b : (toks tReads a = 0 \/ 1 <= toks tDone b) -> looped b -> looped (a ++ b).
Proof.
  intros H Hb. induction a as [|f a IH]; [done|]. cbn in *. pose proof (toks_nonneg tReads a ltac:(nonneg)). pose proof (toks_nonneg tDone a ltac:(nonneg)).
  assert (0 <= tReads f) by (generalize f; nonneg). split; [|apply IH; destruct H; [left; lia|by right]].
  intros Hf. rewrite toks_app. destruct H; lia.
Qed.

Lemma looped_exec f r ch s s' r' fs new : exec cfg f r ch s = Some (s', r', fs, new) ->
  (tReads f = 1 \/ toks tReads fs = 0) /\ Forall looped new.
Proof.
  intros H. exec_cases H.
  all: try (split; [first [left; reflexivity | right; reflexivity]|apply Forall_nil; exact I]).
  all: unfold loops; repeat match goal with |- context [if ?b then _ else _] => destruct b end; cbn.
  all: split; [first [left; reflexivity | right; reflexivity]|repeat constructor; cbn; lia].
Qed.

(** The cleanup. *)
Lemma cleanup_exec f r ch s s' r' fs new : exec cfg f r ch s = Some (s', r', fs, new) ->
  (closed s' = closed s /\ (closed s = true -> cmd s' = cmd s) /\ tCleanup f = 0) \/ 1 <= toks tCleanup fs \/ exists c, f = FCleanup c.
Proof.
  intros H. exec_cases H; first [right; right; eauto; fail | right; left; cbn; lia | left; split_and!; [kept|intros; first [kept|congruence]|reflexivity]].
Qed.

(** ** Steps keep it *)

Section Exec.
Context (s : @session EP) (p : list (@thread EP)) (i : nat) (r : option serr) (f : @frame EP) (k : list (@frame EP)) (ch : @choice EP).
Context (s' : @session EP) (r' : option serr) (fs : list (@frame EP)) (new : list (list (@frame EP))).
Context (Hinv : inv cfg s p) (Hch : inv_child s p) (Hi : p !! i = Some (r, f :: k)) (He : exec cfg f r ch s = Some (s', r', fs, new)).
Let q := pool' p i k r' fs new.

Lemma child_rely : rely s s'.
Proof. by eapply rely_here. Qed.

Lemma child_tok T : (forall g, 0 <= T g) -> T f <= total T p.
Proof. intros HT. by eapply tok_here. Qed.

Lemma child_next T : total T q = total T p + (toks T fs + total T (start <$> new) - T f).
Proof. by eapply tok_next. Qed.

Lemma child_frame : frame_ok cfg s f.
Proof. by destruct (here_thread _ _ _ _ _ _ _ Hinv Hi). Qed.

Lemma child_stack : stack_ok (f :: k).
Proof. by eapply here_stack. Qed.

(** What holds of this goroutine holds of the new pool. *)
Lemma pool_forall (P Q : list (@frame EP) -> Prop) : (forall st, P st -> Q st) -> (P (f :: k) -> Q (fs ++ k)) -> Forall Q new ->
  Forall (fun th => P th.2) p -> Forall (fun th => Q th.2) q.
Proof.
  intros HPQ Hst Hn Hp. apply Forall_app. split.
  - apply Forall_insert; [eapply Forall_impl; [exact Hp|]; intros th; apply HPQ|]. apply Hst. rewrite Forall_lookup in Hp. apply (Hp _ _ Hi).
  - apply Forall_fmap. eapply Forall_impl; [exact Hn|]. done.
Qed.

Lemma child_group : cmd s = false -> processGroup s = false.
Proof. intros Hc. by rewrite (i_group _ _ _ Hinv), Hc. Qed.

Lemma child_ended : childDone s = true -> ended s.
Proof. intros Hd. unfold ended. by rewrite (i_exited _ _ _ Hinv Hd). Qed.

Lemma dying_here : dying s -> dying s'.
Proof.
  apply dying_grows; [apply child_rely|]. intros Ha. destruct (alive_exec _ _ _ _ _ _ _ _ He Ha) as [?|Hp]; [by left|right].
  by eapply here_prep.
Qed.

Lemma looped_here : Forall (fun th => looped th.2) q.
Proof.
  destruct (looped_exec _ _ _ _ _ _ _ _ He) as [Hf Hn]. apply (pool_forall looped looped); [done| |exact Hn|apply (j_looped _ _ Hch)].
  intros [Hd Hk]. apply looped_app; [|done]. destruct Hf as [Hf|Hf]; [right; by apply Hd|by left].
Qed.

Lemma abandoned_here : abandoned s p -> abandoned s' q.
Proof.
  intros (Hc & Ha & Hw). assert (Hno : tOpening f = 1 -> cmd s = false) by (intros Ho; by eapply here_opening).
  split_and!; [by eapply cmd_mono|..].
  - rewrite child_next. pose proof (child_tok tAfterAck ltac:(nonneg)). pose proof (tokens_nonneg tAfterAck q ltac:(nonneg)) as Hq. rewrite child_next in Hq.
    destruct (ack_new _ _ _ _ _ _ _ _ _ He) as [Hle|Ho]; [lia|]. specialize (Hno Ho). congruence.
  - destruct (ack_exec _ _ _ _ _ _ _ _ _ He Hno) as [_ Hle]. destruct (rl_open _ _ child_rely (or_introl Hc)) as [-> _] in Hle.
    pose proof (tokens_nonneg tAckW q ltac:(nonneg)) as Hq. rewrite child_next in Hq. pose proof (ackW_below p (i_stacks _ _ _ Hinv)) as Hb.
    pose proof (tokens_nonneg tAckW p ltac:(nonneg)). pose proof (count_nonneg is_ack (wire s')). lia.
Qed.

Lemma owner_here : unreaped s' -> 1 <= total tOwner q \/ abandoned s' q.
Proof.
  intros Hu. destruct (owner_exec _ _ _ _ _ _ _ _ He Hu) as [[Hd Hor]|(x & b & e & Hf & Hr & Hs & Hfs & Hnew)].
  - rewrite child_next. pose proof (tokens_nonneg tOwner p ltac:(nonneg)). pose proof (tokens_nonneg tOwner (start <$> new) ltac:(nonneg)).
    pose proof (child_tok tOwner ltac:(nonneg)). destruct Hor as [Hu0|]; [|left; lia].
    destruct (j_owner _ _ Hch Hu0) as [|Ha]; [left; lia|right; by apply abandoned_here].
  - right. destruct (here_thread _ _ _ _ _ _ _ Hinv Hi) as ((_ & _ & Hok) & _ & Ht). rewrite Hf in Hok, Ht. rewrite Hr in Ht. cbn in Hok, Ht. rewrite Hs. split_and!; [tauto| |done].
    rewrite child_next, Hf, Hfs, Hnew. cbn. pose proof (i_ack _ _ _ Hinv) as Ha. pose proof (child_tok tAfterAck ltac:(nonneg)) as Htok. rewrite Hf in Htok.
    cbn in Htok. unfold bz in Ha. destruct (cmd s); lia.
Qed.

Lemma released_here : c_groups cfg = true -> Forall (fun th => 0 < toks tWaits th.2 -> toks tGuard th.2 = 0 -> released s' = true) q.
Proof.
  intros Hg. pose proof (rl_released _ _ child_rely) as Hrel. destruct (guard_exec _ _ _ _ _ _ _ _ He) as (H1 & H2 & H3 & H4).
  apply (pool_forall (fun st => 0 < toks tWaits st -> toks tGuard st = 0 -> released s = true)
    (fun st => 0 < toks tWaits st -> toks tGuard st = 0 -> released s' = true)); [auto| | |by apply (j_released _ _ Hch)].
  2: { eapply Forall_impl; [exact H4|]. cbn. intros st Hst Hw Hz. specialize (Hst Hw). lia. }
  intros Hst. rewrite !toks_app. intros Hw Hz. pose proof (toks_nonneg tGuard fs ltac:(nonneg)). pose proof (toks_nonneg tGuard k ltac:(nonneg)).
  pose proof (toks_nonneg tWaits k ltac:(nonneg)). cbn [toks] in Hst. assert (Hf : tGuard f = 0 \/ tGuard f = 1) by (destruct f; auto).
  assert (0 <= tWaits f) by (generalize f; nonneg). destruct Hf as [Hf|Hf].
  - apply Hrel, Hst; [|lia]. destruct (H2 Hf) as [?|[?|?]]; lia.
  - apply H1; [done| |lia|done|].
    + intros Hx. pose proof child_stack as Hstk. rewrite Hx in Hstk. destruct Hstk as [Hadj _]. specialize (H3 Hf).
      destruct k as [|g k'] eqn:Hk; [cbn in Hw; lia|]. destruct g; try done. cbn in Hz. pose proof (toks_nonneg tGuard k' ltac:(nonneg)). lia.
    + intros Hl. rewrite (i_group _ _ _ Hinv), Hg. destruct (here_loop _ _ _ _ _ _ _ Hinv Hi Hl) as [-> _]. done.
Qed.

Lemma reaped_here c : c_groups cfg = true -> child s' = Reaped c -> released s' = true.
Proof.
  intros Hg Hc. destruct (reaps_exec _ _ _ _ _ _ _ _ c He Hc) as [Hc0|[Hf Hr]]; [apply (rl_released _ _ child_rely); by eapply (j_reaped _ _ Hch)|].
  rewrite Hr. pose proof (j_released _ _ Hch Hg) as Hrel. rewrite Forall_lookup in Hrel. apply (Hrel _ _ Hi); cbn [snd toks].
  - pose proof (toks_nonneg tWaits k ltac:(nonneg)). destruct Hf as [->| ->]; cbn; lia.
  - rewrite (guard_below f k) by first [apply child_stack | destruct Hf as [->| ->]; discriminate]. destruct Hf as [->| ->]; done.
Qed.

Lemma res_here : 0 < total tRes q -> child s' <> NoChild.
Proof.
  rewrite child_next. intros Hpos. apply (rl_child _ _ child_rely). destruct (res_exec _ _ _ _ _ _ _ _ He) as [Hle|[Hf|Hf]].
  - apply (j_res _ _ Hch). lia.
  - apply (i_started _ _ _ Hinv). right. pose proof (child_tok tPublish ltac:(nonneg)). lia.
  - apply (i_started _ _ _ Hinv). left. pose proof (child_tok tAfterAck ltac:(nonneg)). pose proof (i_ack _ _ _ Hinv) as Ha. unfold bz in Ha. destruct (cmd s); [done|lia].
Qed.

Lemma nokill_here : killed s' = true -> child s' <> NoChild.
Proof.
  intros Hk. apply (rl_child _ _ child_rely). destruct (kills_exec _ _ _ _ _ _ _ _ He child_frame child_group Hk) as [?|[Hc|[Hf|Hf]]].
  - by apply (j_nokill _ _ Hch).
  - apply (i_started _ _ _ Hinv). by left.
  - apply (j_res _ _ Hch). pose proof (child_tok tRes ltac:(nonneg)). lia.
  - apply (i_started _ _ _ Hinv). left. by destruct (here_loop _ _ _ _ _ _ _ Hinv Hi Hf).
Qed.

Lemma closed_here : closed s' = true -> cmd s' = true -> total tCleanup q = 0 -> dying s'.
Proof.
  rewrite child_next. intros Hcl Hc Hz. pose proof (toks_nonneg tCleanup fs ltac:(nonneg)). pose proof (tokens_nonneg tCleanup (start <$> new) ltac:(nonneg)).
  pose proof (child_tok tCleanup ltac:(nonneg)). pose proof (tokens_nonneg tCleanup p ltac:(nonneg)).
  destruct (cleanup_exec _ _ _ _ _ _ _ _ He) as [(Hcl0 & Hc0 & Hf)|[|[c Hf]]]; [|lia|].
  - rewrite Hcl0 in Hcl. apply dying_here, (j_closed _ _ Hch); [done|rewrite <- (Hc0 Hcl); done|lia].
  - pose proof child_frame as (_ & _ & Hok). rewrite Hf in Hok. destruct Hok as (_ & Hcc & _ & _ & Hcd). pose proof He as He'. rewrite Hf in He'.
    injection He' as <- <- <- <-. destruct (process_cleanup c s) as (? & ? & ? & ? & Heq). rewrite Heq in Hc. cbn in Hc. apply dying_cleanup; [apply (j_killed _ _ Hch)|congruence|].
    intros Hd. by apply child_ended, Hcd.
Qed.

Lemma inv_child_exec : inv_child s' q.
Proof.
  split.
  - apply looped_here.
  - apply owner_here.
  - apply released_here.
  - intros Hg c. by apply reaped_here.
  - intros Hg. apply (signals_exec _ _ _ _ _ _ _ _ He child_frame Hg (i_group _ _ _ Hinv)); [by apply (j_reaped _ _ Hch)|by apply (j_signals _ _ Hch)].
  - intros Hr. destruct (released_exec _ _ _ _ _ _ _ _ He (j_killed _ _ Hch) child_frame child_group child_ended Hr) as [Hr0|]; [|done].
    by apply dying_here, (j_killed _ _ Hch).
  - apply res_here.
  - apply nokill_here.
  - apply closed_here.
Qed.
End Exec.

(** *** Moves of the outside, and the start *)

(** What the outside does to the process. *)
Lemma move_child m s s' new : run_move m s = Some (s', new) ->
  released s' = released s /\ killed s' = killed s /\ signals s' = signals s /\ closed s' = closed s /\ cmd s' = cmd s /\ wire s' = wire s /\
  (child s' = child s \/ (child s = Alive /\ exists c, child s' = Dead c)).
Proof. intros H. destruct m; cbn in H; repeat case_match; try discriminate H; injection H as <- <-; split_and!; eauto. Qed.

Lemma inv_child_move m s p s' new : inv_child s p -> run_move m s = Some (s', new) -> inv_child s' (p ++ (start <$> new)).
Proof.
  intros Hinv Hm. pose proof (rely_move _ _ _ _ Hm) as Hr. destruct (move_facts _ _ _ _ Hm) as (_ & Hno & Hnew).
  destruct (move_child _ _ _ _ Hm) as (Hrel & Hk & Hsig & Hcl & Hc & Hw & Hch).
  assert (HT : forall T : @frame EP -> Z, T FOpenTimeout = 0 -> T FCloseTimeout = 0 -> T FShutdown = 0 -> total T (p ++ (start <$> new)) = total T p).
  { intros T H1 H2 H3. rewrite tokens_app. destruct Hnew as [->|[->|[->| ->]]]; cbn; rewrite ?H1, ?H2, ?H3; lia. }
  assert (Hd : dying s -> dying s').
  { apply dying_grows; [done|]. intros Ha. left. destruct Hch as [<-|(? & c & ?)]; [done|congruence]. }
  assert (Hu : unreaped s' -> unreaped s) by (unfold unreaped; destruct Hch as [->|(-> & _)]; done).
  destruct Hinv. unfold abandoned in *. split; rewrite ?HT, ?Hrel, ?Hk, ?Hsig, ?Hcl, ?Hc, ?Hw by done; auto.
  - apply Forall_app. split; [done|]. destruct Hnew as [->|[->|[->| ->]]]; repeat constructor; cbn; lia.
  - intros Hu'. destruct (j_owner0 (Hu Hu')) as [?|Ha]; [by left|right]. unfold abandoned. by rewrite Hc, HT, Hw by done.
  - intros Hg. apply Forall_app. split; [auto|]. destruct Hnew as [->|[->|[->| ->]]]; repeat constructor; cbn; lia.
  - intros Hg c Hrc. destruct Hch as [Heq|(_ & d & Heq)]; [|congruence]. rewrite Heq in Hrc. by eapply j_reaped0.
  - intros Hp. pose proof (j_res0 Hp). tauto.
  - intros Hkl. pose proof (j_nokill0 Hkl). tauto.
Qed.

Lemma inv_child_init σ : initial cfg σ -> inv_child σ.1 σ.2.
Proof. intros [|]; cbn [fst snd]; split; try done; try (by repeat constructor); cbn; repeat constructor; cbn; try done; lia. Qed.

Lemma child_reachable σ : reachable cfg σ -> inv cfg σ.1 σ.2 /\ inv_child σ.1 σ.2.
Proof.
  induction 1 as [σ Hi|σ e σ' Hr [Hinv Hch] Hs]; [split; [by apply inv_init|by apply inv_child_init]|].
  split; [apply (session_inv_reachable cfg); by eapply reach_step|]. destruct σ as [s p], e as [i ch|m]; cbn in Hs.
  - unfold step_thread in Hs. cbn in Hs. destruct (p !! i) as [[r [|f k]]|] eqn:Hi; [done| |done].
    destruct (exec cfg f r ch s) as [[[[s' r'] fs] new]|] eqn:He; [|done]. injection Hs as <-. by eapply inv_child_exec.
  - destruct (run_move m s) as [[s' new]|] eqn:Hm; [|done]. injection Hs as <-. by eapply inv_child_move.
Qed.

(** ** What becomes of the child *)

Lemma looped_done st : looped st -> toks tDone st = 0 -> toks tReads st = 0.
Proof.
  induction st as [|f k IH]; [done|]. cbn. intros [Hf Hk] Hz. pose proof (toks_nonneg tDone k ltac:(nonneg)). assert (0 <= tDone f) by (generalize f; nonneg).
  rewrite IH by (done || lia). assert (Hr : tReads f = 0 \/ tReads f = 1) by (destruct f; auto). destruct Hr as [->|Hr]; [done|]. specialize (Hf Hr). lia.
Qed.

Lemma no_owner p : Forall (fun th => looped th.2) p -> total tDone p = 0 -> total tOwner p = 0.
Proof.
  induction 1 as [|th p Hth _ IH]; cbn; [done|]. intros Hz. pose proof (toks_nonneg tDone th.2 ltac:(nonneg)). pose proof (tokens_nonneg tDone p ltac:(nonneg)).
  rewrite IH by lia. pose proof (looped_done _ Hth ltac:(lia)) as Hr. pose proof (toks_nonneg tOwner th.2 ltac:(nonneg)).
  enough (toks tOwner th.2 <= toks tReads th.2) by lia. clear. induction th.2 as [|f k IH]; cbn; [done|]. enough (tOwner f <= tReads f) by lia. by destruct f.
Qed.

(** When a session has ended, its [doneCh] closed, the process it started is not left
    running: it has ended or was killed, and when the open was acknowledged it was waited
    for, so no zombie is left. *)
Theorem session_child_settled σ : reachable cfg σ -> 0 < doneCh σ.1 -> child σ.1 <> NoChild ->
  dying σ.1 /\ (forall b, MAck b ∈ wire σ.1 -> exists c, child σ.1 = Reaped c).
Proof.
  intros Hr Hd Hn. destruct (child_reachable σ Hr) as [Hinv Hch]. pose proof (i_done _ _ _ Hinv Hd) as Hz.
  pose proof (no_owner _ (j_looped _ _ Hch) Hz) as Ho.
  assert (Hcl : total tCleanup σ.2 = 0 /\ closed σ.1 = true).
  { pose proof (i_closing _ _ _ Hinv) as Hcl. pose proof (tokens_nonneg tClosing σ.2 ltac:(nonneg)). unfold bz in Hcl. destruct (closed σ.1); [|lia]. split; [|done].
    pose proof (tokens_nonneg tCleanup σ.2 ltac:(nonneg)). enough (total tCleanup σ.2 <= total tClosing σ.2) by lia. apply total_le, Forall_true. intros [? st].
    cbn. induction st as [|f st IH]; cbn; [done|]. enough (tCleanup f <= tClosing f) by lia. by destruct f. }
  assert (Hu : unreaped σ.1 -> abandoned σ.1 σ.2) by (intros Hu; destruct (j_owner _ _ Hch Hu); [lia|done]).
  split.
  - unfold unreaped in Hu. destruct (child σ.1) eqn:Hc; [done| |by right; unfold ended; rewrite Hc..].
    destruct (Hu I) as [Hcmd _]. apply (j_closed _ _ Hch); tauto.
  - intros b Hb. assert (0 < count is_ack (wire σ.1)) by (apply count_elem; by exists (MAck b)).
    unfold unreaped, abandoned in Hu. destruct (child σ.1) eqn:Hc; [done|..|by eexists]; destruct (Hu I) as (_ & _ & ?); lia.
Qed.

(** Where the server owns process groups, it never signals the group of a child it has
    waited for, whose number the system may have given to another process. *)
Theorem session_signals_own_child σ : reachable cfg σ -> c_groups cfg = true -> Forall (fun x => forall c, x <> Reaped c) (signals σ.1).
Proof. intros Hr Hg. destruct (child_reachable σ Hr) as [_ Hch]. by apply (j_signals _ _ Hch). Qed.
End WebttySessionChild.

Lemma session_child_settled_witness :
  child (demo_run (demo_open ++ demo_work ++ demo_end)).1 = Reaped 7 /\ dying (demo_run (demo_open ++ demo_work ++ demo_end)).1.
Proof.
  split; [vm_compute; reflexivity|]. refine (proj1 (session_child_settled demo_config (demo_run (demo_open ++ demo_work ++ demo_end)) _ _ _)).
  - apply demo_reachable. vm_compute. eexists. reflexivity.
  - vm_compute. reflexivity.
  - vm_compute. discriminate.
Defined.

Lemma session_signals_own_child_witness :
  signals (demo_run (demo_open ++ demo_work ++ demo_end)).1 = [Dead 7] /\
  Forall (fun x => forall c, x <> Reaped c) (signals (demo_run (demo_open ++ demo_work ++ demo_end)).1).
Proof.
  split; [vm_compute; reflexivity|]. apply (session_signals_own_child demo_config); [|reflexivity].
  apply demo_reachable. vm_compute. eexists. reflexivity.
Defined.

(** The acknowledgement cannot be written. *)
Definition demo_unacknowledged : list (@event (list byte)) :=
  demo_open ++ Thread 1 Fails :: replicate 5 (Thread 1 Go) ++ Move Killed :: replicate 3 (Thread 1 Go) ++ [Thread 2 Go; Thread 0 Go].

(** A child whose acknowledgement could not be written is killed but never waited for:
    the session ends, no goroutine of it is left, and the child stays a zombie. *)
Theorem session_leaves_zombie : exists σ, reachable demo_config σ /\ doneCh σ.1 = 1 /\ child σ.1 = Dead (-1) /\ Forall (fun th => th.2 = []) σ.2.
Proof.
  exists (demo_run demo_unacknowledged). split; [apply demo_reachable; vm_compute; eexists; reflexivity|]. vm_compute. by repeat constructor.
Qed.
