(* ===== verification/WebttySessionEnd.v ===== *)
(** * WebttySessionEnd: a closed session can always finish

    From every reachable state of a closed session there is a run in which the goroutines
    of the session end, its child is waited for, and [doneCh] is closed, and which needs
    nothing of the outside but what the cleanup forces: reads and writes fail only once
    the connection or the pipes are closed, and the child dies only once it is killed. *)

From S2P Require Import Prelude WebttySession WebttySessionInv WebttySessionSteps WebttySessionProps WebttySessionChild.

Section WebttySessionEnd.
Context {EP : Type} (cfg : @config EP).
Implicit Types (f : @frame EP) (s : @session EP) (p : list (@thread EP)).

Ltac nonneg := let g := fresh in intros g; destruct g; cbn; repeat case_match; lia.

(** ** More of the invariant *)

Definition tWriting f : Z := match f with FWriting _ => 1 | _ => 0 end.
Definition tKill f : Z := match f with FResKill _ => 1 | _ => 0 end.
Definition tResWait f : Z := match f with FResWait => 1 | _ => 0 end.

(** What a copy loop of a pipe calls; what the loops the cleanup waits for never call. *)
Definition copies f : bool :=
  match f with
  | FCopy _ | FOnRead _ _ | FAfterData _ | FAfterEOS _ | FWrite _ | FWriting _ | FError _ | FClose | FCleanup _ | FCleanupFiles _ | FCleanupConn
  | FDoClose | FAfterClose | FAfterDoClose | FHandshake | FControl | FReturn _ | FCopyDone => true
  | _ => false
  end.

Definition looping f : bool :=
  match f with
  | FRun | FInitial | FHello _ | FAfterHello _ | FStart _ | FWaitDone | FFinish | FOpenTimeout | FCloseTimeout | FShutdown | FShutWait | FShutKill
  | FKill _ _ | FWaitCleanup | FWaitCleanup2 | FCopyDone => false
  | _ => true
  end.

(** The cleanup before it has closed the connection; before it has closed the files. *)
Definition tConn f : Z := match f with FCleanup _ | FCleanupFiles _ | FCleanupConn => 1 | _ => 0 end.
Definition tFiles f : Z := match f with FCleanup _ | FCleanupFiles _ => 1 | _ => 0 end.

(** A write to the child has one. *)
Definition stdin_ok s f : Prop := match f with FStdinWrite tty hasPipe _ => tty || hasPipe = true -> cmd s = true | _ => True end.

Record inv_end s p : Prop := {
  e_mutex : total tWriting p = bz (writeMu s);
  e_copies : Forall (fun th => 0 < toks tCopyDone th.2 -> forallb copies th.2 = true) p;
  e_loops : Forall (fun th => 0 < toks tDone th.2 -> forallb looping th.2 = true) p;
  e_resWait : Forall (fun th => 0 < toks tResWait th.2 -> toks tKill th.2 = 0 -> dying s) p;
  e_conn : closed s = true -> total tConn p = 0 -> connClosed s = true;
  e_files : closed s = true -> cmd s = true -> total tFiles p = 0 -> pipesClosed s = true;
  e_stdin : Forall (fun th => Forall (stdin_ok s) th.2) p;
  e_input : ptyFile s || stdinPipe s = true -> cmd s = true;
}.

Lemma conn_exec f r ch s s' r' fs new : exec cfg f r ch s = Some (s', r', fs, new) ->
  closed s' = true -> (closed s = true /\ tConn f <= toks tConn fs + total tConn (start <$> new)) \/ 1 <= toks tConn fs + total tConn (start <$> new) - tConn f \/ connClosed s' = true.
Proof.
  intros H.
  exec_cases H; first [intros Hx; left; split; [cbn in Hx; congruence|cbn; lia] | intros _; right; left; cbn; lia | intros _; right; right; reflexivity |
    abstract_process; split_goal; intros Hx; left; (split; [cbn in Hx; congruence|cbn; lia])].
Qed.

Lemma files_exec f r ch s s' r' fs new : exec cfg f r ch s = Some (s', r', fs, new) ->
  closed s' = true -> (closed s = true /\ cmd s' = cmd s /\ tFiles f <= toks tFiles fs + total tFiles (start <$> new)) \/
     1 <= toks tFiles fs + total tFiles (start <$> new) - tFiles f \/
     exists c, f = FCleanupFiles c /\ cmd s' = cmd s /\ pipesClosed s' = pipesClosed s || cl_cmd c.
Proof.
  intros H.
  exec_cases H; first [intros Hx; left; split_and!; [cbn in Hx; congruence|cbn; congruence|cbn; lia] | intros _; right; left; cbn; lia | intros _; right; right; eexists; by split_and! |
    abstract_process; split_goal; intros Hx; left; (split_and!; [cbn in Hx; congruence|cbn; congruence|cbn; lia]) | intros Hx; exfalso; cbn in Hx; congruence].
Qed.

Lemma input_exec f r ch s s' r' fs new : exec cfg f r ch s = Some (s', r', fs, new) -> (ptyFile s || stdinPipe s = true -> cmd s = true) -> stdin_ok s f ->
  (ptyFile s' || stdinPipe s' = true -> cmd s' = true) /\ Forall (stdin_ok s') fs /\ Forall (Forall (stdin_ok s')) new.
Proof.
  intros H Hin Hf. exec_cases H.
  all: try (abstract_process; split_goal; (split_and!; [first [exact Hin | done | cbn; intros Hx; apply Hin; rewrite ?orb_false_r in Hx; by rewrite Hx]|repeat constructor; try exact I|repeat constructor; exact I]); fail).
  all: use_bools; split_and!; [first [exact Hin | done | cbn; intros Hx; apply Hin; rewrite ?orb_false_r in Hx; by rewrite Hx]|repeat constructor; exact Hin|repeat constructor].
Qed.

Lemma mutex_exec f r ch s s' r' fs new : exec cfg f r ch s = Some (s', r', fs, new) -> (tWriting f = 1 -> writeMu s = true) ->
  toks tWriting fs + total tWriting (start <$> new) - tWriting f = bz (writeMu s') - bz (writeMu s).
Proof. intros H Hf. exec_cases H; try (rewrite (Hf eq_refl)); counted. Qed.

Lemma copies_exec f r ch s s' r' fs new : exec cfg f r ch s = Some (s', r', fs, new) ->
  (copies f = true -> forallb copies fs = true) /\ toks tCopyDone fs = 0 /\ Forall (fun st => 0 < toks tCopyDone st -> forallb copies st = true) new.
Proof.
  intros H. exec_cases H.
  all: try (split_and!; [done|done|apply Forall_nil; exact I]).
  all: unfold loops; repeat match goal with |- context [if ?b then _ else _] => destruct b end; cbn; split_and!; try done;
    repeat first [apply Forall_nil; exact I | apply Forall_cons; split]; cbn; first [done | lia].
Qed.

Lemma looping_exec f r ch s s' r' fs new : exec cfg f r ch s = Some (s', r', fs, new) ->
  (looping f = true -> forallb looping fs = true) /\ toks tDone fs = 0 /\ Forall (fun st => 0 < toks tDone st -> forallb looping st = true) new.
Proof.
  intros H. exec_cases H.
  all: try (split_and!; [done|done|apply Forall_nil; exact I]).
  all: unfold loops; repeat match goal with |- context [if ?b then _ else _] => destruct b end; cbn; split_and!; try done;
    repeat first [apply Forall_nil; exact I | apply Forall_cons; split]; cbn; first [done | lia].
Qed.

Lemma resWait_exec f r ch s s' r' fs new : exec cfg f r ch s = Some (s', r', fs, new) -> (released s = true -> dying s) ->
  (tKill f = 1 -> dying s') /\ (toks tResWait fs <= tResWait f \/ 1 <= toks tKill fs) /\ Forall (fun st => toks tResWait st = 0) new.
Proof.
  intros H Hr. exec_cases H.
  all: try (split_and!; [discriminate|left; cbn; lia|apply Forall_nil; exact I]).
  all: try (split_and!; [discriminate|right; cbn; lia|apply Forall_nil; exact I]).
  all: unfold loops; repeat match goal with |- context [if ?b then _ else _] => destruct b eqn:? end; cbn.
  all: try (split_and!; [discriminate|left; cbn; lia|repeat first [apply Forall_nil; exact I | apply Forall_cons; split]; done]).
  split_and!; [intros _|left; lia|apply Forall_nil; exact I]. unfold res_kill. destruct (c_groups cfg); [by apply dying_group_close|by apply dying_signalOwned].
Qed.

Section Exec.
Context (s : @session EP) (p : list (@thread EP)) (i : nat) (r : option serr) (f : @frame EP) (k : list (@frame EP)) (ch : @choice EP).
Context (s' : @session EP) (r' : option serr) (fs : list (@frame EP)) (new : list (list (@frame EP))).
Context (Hinv : inv cfg s p) (Hch : inv_child cfg s p) (Hend : inv_end s p) (Hi : p !! i = Some (r, f :: k)) (He : exec cfg f r ch s = Some (s', r', fs, new)).

(** Frames that a step keeps within their kind. *)
Lemma kind_exec (C : @frame EP -> bool) (T : @frame EP -> Z) (st0 : list (@frame EP)) : (forall g, 0 <= T g) ->
  (C f = true -> forallb C fs = true) -> toks T fs = 0 -> (0 < toks T (f :: k) -> forallb C (f :: k) = true) ->
  0 < toks T (fs ++ k) -> forallb C (fs ++ k) = true.
Proof.
  intros HT HC Hfs Hold Hpos. rewrite toks_app in Hpos. assert (0 <= T f) by apply HT. cbn [toks] in Hold.
  specialize (Hold ltac:(lia)). cbn in Hold. apply andb_true_iff in Hold as [H1 H2]. rewrite forallb_app, H2, (HC H1). done.
Qed.

Lemma inv_end_exec : inv_end s' (pool' p i k r' fs new).
Proof.
  destruct (copies_exec _ _ _ _ _ _ _ _ He) as (C1 & C2 & C3). destruct (looping_exec _ _ _ _ _ _ _ _ He) as (L1 & L2 & L3).
  destruct (resWait_exec _ _ _ _ _ _ _ _ He (j_killed _ _ _ Hch)) as (R1 & R2 & R3). pose proof (rely_here _ _ _ _ _ _ _ _ _ _ _ _ Hinv Hi He) as Hrely.
  assert (Hstdin : stdin_ok s f).
  { pose proof (e_stdin _ _ Hend) as Hs. rewrite Forall_lookup in Hs. specialize (Hs i _ Hi). by apply Forall_cons in Hs as [? _]. }
  destruct (input_exec _ _ _ _ _ _ _ _ He (e_input _ _ Hend) Hstdin) as (I1 & I2 & I3). split.
  - rewrite (tok_next p i r f k r' fs new Hi tWriting). pose proof (e_mutex _ _ Hend) as Hm. pose proof (tok_here p i r f k Hi tWriting ltac:(nonneg)) as Htok.
    pose proof (mutex_exec _ _ _ _ _ _ _ _ He) as Hx. enough (tWriting f = 1 -> writeMu s = true) as Hw by (specialize (Hx Hw); lia).
    intros Hw. unfold bz in Hm. destruct (writeMu s); [done|lia].
  - eapply (pool_forall p i r f k r' fs new Hi (fun st => 0 < toks tCopyDone st -> forallb copies st = true) (fun st => 0 < toks tCopyDone st -> forallb copies st = true));
      [done| |exact C3|apply (e_copies _ _ Hend)]. intros Hold. by apply (kind_exec copies tCopyDone []); [nonneg|..].
  - eapply (pool_forall p i r f k r' fs new Hi (fun st => 0 < toks tDone st -> forallb looping st = true) (fun st => 0 < toks tDone st -> forallb looping st = true));
      [done| |exact L3|apply (e_loops _ _ Hend)]. intros Hold. by apply (kind_exec looping tDone []); [nonneg|..].
  - pose proof (dying_here cfg s p i r f k ch s' r' fs new Hinv Hi He) as Hd.
    eapply (pool_forall p i r f k r' fs new Hi (fun st => 0 < toks tResWait st -> toks tKill st = 0 -> dying s) (fun st => 0 < toks tResWait st -> toks tKill st = 0 -> dying s'));
      [auto| | |apply (e_resWait _ _ Hend)].
    + intros Hold. rewrite !toks_app. intros Hpos Hz. pose proof (toks_nonneg tKill fs ltac:(nonneg)). pose proof (toks_nonneg tKill k ltac:(nonneg)).
      assert (Hf : tKill f = 0 \/ tKill f = 1) by (destruct f; auto). destruct Hf as [Hf|Hf]; [|by apply R1]. cbn [toks] in Hold. destruct R2; [|lia]. apply Hd, Hold; lia.
    + eapply Forall_impl; [exact R3|]. cbn. intros st Hst. lia.
  - intros Hc. rewrite (tok_next p i r f k r' fs new Hi tConn). pose proof (tokens_nonneg tConn p ltac:(nonneg)) as Hn. intros Hz.
    pose proof (tok_here p i r f k Hi tConn ltac:(nonneg)). destruct (conn_exec _ _ _ _ _ _ _ _ He Hc) as [[Hc0 Hle]|[Hle|]]; [|lia|done].
    apply (rl_conn _ _ Hrely), (e_conn _ _ Hend Hc0). lia.
  - intros Hc Hcmd. rewrite (tok_next p i r f k r' fs new Hi tFiles). pose proof (tokens_nonneg tFiles p ltac:(nonneg)) as Hn. intros Hz.
    pose proof (tok_here p i r f k Hi tFiles ltac:(nonneg)). destruct (files_exec _ _ _ _ _ _ _ _ He Hc) as [(Hc0 & Hk & Hle)|[Hle|(c & -> & Hk & ->)]]; [|lia|].
    + apply (rl_pipes _ _ Hrely), (e_files _ _ Hend Hc0); [congruence|lia].
    + destruct (here_thread _ _ _ _ _ _ _ Hinv Hi) as [(_ & _ & _ & Hcl) _]. rewrite Hcl, <-Hk, Hcmd. apply orb_true_r.
  - assert (Hst : forall st, Forall (stdin_ok s) st -> Forall (stdin_ok s') st).
    { intros st Hs. eapply Forall_impl; [exact Hs|]. intros g. destruct g; try done. cbn. intros Hg Hx. specialize (Hg Hx).
      destruct (rl_open _ _ Hrely (or_introl Hg)) as [-> _]. done. }
    eapply (pool_forall p i r f k r' fs new Hi (Forall (stdin_ok s)) (Forall (stdin_ok s'))); [exact Hst| |exact I3|apply (e_stdin _ _ Hend)].
    intros [_ Hk]%Forall_cons. apply Forall_app. split; [done|by apply Hst].
  - exact I1.
Qed.
End Exec.

Lemma inv_end_move m s p s' new : inv_end s p -> run_move m s = Some (s', new) -> inv_end s' (p ++ (start <$> new)).
Proof.
  intros [E1 E2 E3 E4 E5 E6 E7 E8] Hm. destruct (move_facts _ _ _ _ Hm) as ((ot & ct & c & pi & pr & pe & Hs) & _ & Hnew).
  destruct (move_child _ _ _ _ Hm) as (_ & Hk & _ & _ & _ & _ & Hch).
  assert (Hd : dying s -> dying s').
  { apply dying_grows; [by apply rely_move with m new|]. intros Ha. left. destruct Hch as [<-|(? & d & ?)]; [done|congruence]. }
  split.
  - rewrite tokens_app, E1, Hs. destruct Hnew as [->|[->|[->| ->]]]; cbn; lia.
  - apply Forall_app. split; [done|]. destruct Hnew as [->|[->|[->| ->]]]; first [by apply Forall_nil | apply Forall_singleton; cbn; lia].
  - apply Forall_app. split; [done|]. destruct Hnew as [->|[->|[->| ->]]]; first [by apply Forall_nil | apply Forall_singleton; cbn; lia].
  - apply Forall_app. split; [eapply Forall_impl; [exact E4|]; auto|]. destruct Hnew as [->|[->|[->| ->]]]; first [by apply Forall_nil | apply Forall_singleton; cbn; lia].
  - rewrite tokens_app, Hs. intros Hc Hz. apply E5; [done|]. destruct Hnew as [->|[->|[->| ->]]]; cbn in Hz; lia.
  - rewrite tokens_app, Hs. intros Hc Hcmd Hz. apply E6; [done|done|]. destruct Hnew as [->|[->|[->| ->]]]; cbn in Hz; lia.
  - apply Forall_app. split; [by rewrite Hs|]. destruct Hnew as [->|[->|[->| ->]]]; repeat constructor.
  - by rewrite Hs.
Qed.

Lemma end_step e σ σ' : inv cfg σ.1 σ.2 -> inv_child cfg σ.1 σ.2 -> inv_end σ.1 σ.2 -> step cfg e σ = Some σ' -> inv_end σ'.1 σ'.2.
Proof.
  intros Hinv Hch Hend Hs. destruct σ as [s p], e as [i ch|m]; cbn in *.
  - unfold step_thread in Hs. cbn in Hs. destruct (p !! i) as [[r [|f k]]|] eqn:Hi; [done| |done].
    destruct (exec cfg f r ch s) as [[[[s' r'] fs] new]|] eqn:He; [|done]. injection Hs as <-. by eapply inv_end_exec.
  - destruct (run_move m s) as [[s' new]|] eqn:Hm; [|done]. injection Hs as <-. by eapply inv_end_move.
Qed.

Lemma end_reachable σ : reachable cfg σ -> inv_end σ.1 σ.2.
Proof.
  induction 1 as [σ Hi|σ e σ' Hr IH Hs].
  - destruct Hi; (split; [done|apply Forall_singleton; cbn; lia..|done|done|repeat constructor|done]).
  - destruct (child_reachable cfg σ Hr). by eapply end_step.
Qed.

(** ** The measure *)

(** The most steps a frame takes once the session is closed. *)
Definition weight f : Z :=
  match f with
  | FRun => 5 | FInitial => 4 | FHello _ | FAfterHello _ => 3 | FStart _ => 2
  | FReadInit _ => 4 | FAfterHandle => 3 | FRead | FAfterInit => 2 | FDispatch _ => 4
  | FPrepare _ => 7 | FVerified _ => 6 | FAfterSendError => 3 | FPublish _ | FAfterAck _ _ => 4
  | FSpawnCopies => 7 | FCopy _ => 2 | FAfterData _ => 3 | FAfterEOS _ => 4 | FAfterClose => 3 | FAfterDoClose => 2
  | FWaitOwned | FWaitProc => 2 | FTermRequest | FTermKill => 2 | FAfterBeat => 2
  | FCleanup _ => 4 | FCleanupFiles _ => 3 | FCleanupConn => 2
  | FShutdown | FShutKill => 2 | FSendError _ => 2
  | _ => 1
  end.

Definition alive s : Z := match child s with Alive => 1 | _ => 0 end.
Definition measure s p : Z := total weight p + alive s.

Lemma weight_pos f : 1 <= weight f.
Proof. destruct f; cbn; lia. Qed.

(** What may have to wait. *)
Definition waiting f : bool :=
  match f with
  | FWaitDone | FFinish | FResWait | FWaitOwned | FWaitCopies | FWaitProc | FShutWait | FWaitCleanup | FWaitCleanup2 | FWrite _ => true
  | _ => false
  end.

(** The steps the outside cannot refuse a closed session.  A read of the connection or a
    write to it fails once it is closed, a read or write of the files of the child once they
    are closed; the checks of an open answer [ans], whatever it is; any other step of a
    goroutine does not depend on the outside. *)
Context (ans : @open_answers EP).

Definition forced_choice f (ch : @choice EP) s : Prop :=
  match f, ch with
  | FInitial, Reads RdError | FRead, Reads RdError | FWriting _, Fails => connClosed s = true
  | FCopy _, FileClosed => pipesClosed s = true
  | FStdinWrite _ _ _, Fails => pipesClosed s = true
  | FStdinWrite tty hasPipe _, Go => tty || hasPipe = false
  | FPrepare _, Answers a | FVerified _, Answers a => a = ans
  | FRead, _ | FWriting _, _ | FCopy _, _ => False
  | _, Go => True
  | _, _ => False
  end.

(** Of what the outside does by itself, only the death of a child that was killed. *)
Definition forced (e : @event EP) (σ : @state EP) : Prop :=
  match e with
  | Thread i ch => match σ.2 !! i with Some (_, f :: _) => forced_choice f ch σ.1 | _ => False end
  | Move Killed => True
  | Move _ => False
  end.

(** What a frame needs of the cleanup to go on. *)
Definition released_for f s : Prop :=
  match f with
  | FInitial | FRead | FWriting _ => connClosed s = true
  | FCopy _ => pipesClosed s = true
  | FStdinWrite tty hasPipe _ => tty || hasPipe = true -> pipesClosed s = true
  | _ => True
  end.

Definition answer f : @choice EP :=
  match f with
  | FInitial => if c_webtransport cfg && c_identity cfg then Reads RdError else Go
  | FRead => Reads RdError
  | FCopy _ => FileClosed
  | FStdinWrite tty hasPipe _ => if tty || hasPipe then Fails else Go
  | FWriting _ => Fails
  | FPrepare _ | FVerified _ => Answers ans
  | _ => Go
  end.

Definition progresses f r s : Prop :=
  exists ch s' r' fs new, forced_choice f ch s /\ exec cfg f r ch s = Some (s', r', fs, new) /\
    toks weight fs + total weight (start <$> new) + alive s' < weight f + alive s.

Lemma answer_forced f s : released_for f s -> forced_choice f (answer f) s.
Proof.
  destruct f; cbn; try done.
  - by destruct (c_webtransport cfg && c_identity cfg).
  - destruct (_ || _) eqn:E; auto.
Qed.

Lemma alive_le s s' : (child s' = Alive -> child s = Alive) -> alive s' <= alive s.
Proof. unfold alive. intros H. destruct (child s'); try (destruct (child s); lia). by rewrite H. Qed.

Lemma down_le (a b : Z) s s' : (child s' = Alive -> child s = Alive) -> a < b -> a + alive s' < b + alive s.
Proof. intros H%alive_le Hab. lia. Qed.

Lemma free_exec f r s : closed s = true -> waiting f = false -> released_for f s -> progresses f r s.
Proof.
  intros Hc Hw Hrel. unfold progresses. exists (answer f). pose proof (answer_forced f s Hrel) as Hforced.
  enough (exists s' r' fs new, exec cfg f r (answer f) s = Some (s', r', fs, new) /\ toks weight fs + total weight (start <$> new) + alive s' < weight f + alive s)
    as (s' & r' & fs & new & H1 & H2) by (exists s', r', fs, new; done).
  clear Hforced.
  destruct f; try discriminate Hw; cbn in Hrel; try match type of Hrel with _ -> _ => clear Hrel end; cbv [exec answer run readLoop heartbeatLoop doSendHeartbeat spawnCopies termKill cleanup_files cleanup_conn finish after readMessage readInitial sendHello
    startRead onIncomingMessage handleMessage dispatch handleData handleTerminate doResize handleOpen prepare_verify prepare_start open_failed publish afterAck
    writeStdinPayload copyStream onReadStream afterEOS doClose startCloseHandshake onChildExit termRequest termWait error close detachCleanupLocked onOpenTimeout
    onCloseTimeout shutdown shutKill writing next returns waits]; cbn [closed]; rewrite ?Hc, ?orb_true_r, ?Hrel.
  all: repeat match goal with
    | |- ex (fun s' => ex (fun r' => ex (fun fs => ex (fun new => (match ?x with _ => _ end) = _ /\ _)))) => destruct x eqn:?
    end.
  all: try (eexists _, _, _, _; split; [reflexivity|]; apply down_le; [|try (split_goal; cbn; lia)]; try tauto;
    unfold requestChildShutdown; rewrite ?child_signalOwned, ?child_group_close, ?child_cleanup, ?child_res_kill; try tauto; split_goal; tauto).
  all: try (exfalso; destruct (c_webtransport cfg && c_identity cfg); discriminate).
  eexists _, _, _, _. split; [reflexivity|]. unfold alive. cbn. destruct (child s); lia.
Qed.

(** Frames that wait, once what they wait for is there. *)
Lemma proc_exec f r s : f = FResWait \/ f = FWaitOwned \/ f = FWaitProc -> ended s -> progresses f r s.
Proof.
  intros Hf Hd. unfold progresses, ended in *. exists Go. destruct Hf as [->|[->| ->]]; cbv [exec waitOwnedProcessExit waitProcess next returns waits reap];
    destruct (child s) eqn:Hc; try done; try (destruct (processGroup s)); cbn [negb]; eexists _, _, _, _; (split; [exact I|]); (split; [reflexivity|]);
    (apply down_le; [cbn; rewrite ?Hc; done|cbn; lia]).
Qed.

Lemma write_exec m r s : closed s = true -> writeMu s = false -> progresses (FWrite m) r s.
Proof.
  intros Hc Hw. exists Go. cbv [exec writeMessage returns]. rewrite Hw, Hc. eexists _, _, _, _. split; [exact I|]. split; [reflexivity|]. apply down_le; [tauto|cbn; lia].
Qed.

(** ** Progress *)

Definition steps_down (σ : @state EP) : Prop := exists e σ', forced e σ /\ step cfg e σ = Some σ' /\ measure σ'.1 σ'.2 < measure σ.1 σ.2.

Lemma thread_down s p i r f k : p !! i = Some (r, f :: k) -> progresses f r s -> steps_down (s, p).
Proof.
  intros Hi (ch & s' & r' & fs & new & Hf & He & Hw). eexists (Thread i ch), _. split; [cbn; by rewrite Hi|].
  split; [cbn; unfold step_thread; cbn; rewrite Hi, He; reflexivity|].
  unfold measure. cbn [fst snd]. rewrite (total_step weight p i r f k r' fs new Hi). lia.
Qed.

Lemma kill_down s p : child s = Alive -> killed s = true -> steps_down (s, p).
Proof.
  intros Hc Hk. eexists (Move Killed), _. cbn. rewrite Hc, Hk. split; [done|]. split; [reflexivity|]. unfold measure, alive. cbn. rewrite Hc, tokens_app. cbn. lia.
Qed.

(** A token of a frame that waits for no call is on top of its stack. *)
Lemma token_top (T : @frame EP -> Z) p : (forall g, T g = 0 \/ T g = 1) -> (forall f g, T g = 1 -> adj f g = false) -> stacks_ok p -> 0 < total T p ->
  exists i r f k, p !! i = Some (r, f :: k) /\ T f = 1.
Proof.
  intros HT Hadj. assert (Hnn : forall g, 0 <= T g) by (intros g; destruct (HT g); lia).
  assert (Hst : forall st, stack_ok st -> 0 < toks T st -> exists f k, st = f :: k /\ T f = 1).
  { intros [|f k]; cbn; [lia|]. intros [Hg Hk] Hpos. exists f, k. split; [done|]. destruct (HT f) as [H0|]; [|done]. exfalso. rewrite H0 in Hpos.
    revert f Hg H0 Hpos. induction k as [|g k IH]; intros f Hg H0 Hpos; [cbn in Hpos; lia|]. destruct Hk as [Hg' Hk]. destruct (HT g) as [Hg0|Hg1]; [|rewrite (Hadj f g Hg1) in Hg; done].
    eapply (IH Hk g Hg' Hg0). cbn in Hpos. lia. }
  induction p as [|[r st] p IH]; cbn; [lia|]. intros [Hs Hp]%Forall_cons Hpos. destruct (Z.leb_spec (toks T st) 0).
  - destruct IH as (i & r0 & f & k & Hi & Hf); [done|lia|]. by exists (Datatypes.S i), r0, f, k.
  - destruct (Hst st Hs) as (f & k & -> & Hf); [done|]. by exists 0%nat, r, f, k.
Qed.

(** A token is somewhere in a stack. *)
Lemma token_thread (T : @frame EP -> Z) p : (forall g, 0 <= T g) -> 0 < total T p -> exists i th, p !! i = Some th /\ 0 < toks T th.2.
Proof.
  intros HT. induction p as [|th p IH]; cbn; [lia|]. intros Hpos. destruct (Z.leb_spec (toks T th.2) 0).
  - destruct IH as (i & x & Hi & Hx); [lia|]. by exists (Datatypes.S i), x.
  - by exists 0%nat, th.
Qed.

Definition tWrites f : Z := match f with FWrite _ => 1 | _ => 0 end.

Section Progress.
Context (s : @session EP) (p : list (@thread EP)) (Hinv : inv cfg s p) (Hch : inv_child cfg s p) (Hend : inv_end s p) (Hc : closed s = true).

Lemma free_down i r f k : p !! i = Some (r, f :: k) -> waiting f = false -> released_for f s -> steps_down (s, p).
Proof. intros Hi Hw Hr. eapply thread_down; [exact Hi|by apply free_exec]. Qed.

(** *** Once the cleanup has closed the files and the connection *)

Section Cleaned.
Context (Hconn : total tConn p = 0).

Lemma frame_released i r f k : p !! i = Some (r, f :: k) -> released_for f s.
Proof.
  intros Hi. assert (Hcc : connClosed s = true) by (by apply (e_conn _ _ Hend)).
  assert (Hfiles : cmd s = true -> pipesClosed s = true).
  { intros Hcmd. apply (e_files _ _ Hend); [done|done|]. pose proof (tokens_nonneg tFiles p ltac:(nonneg)).
    enough (total tFiles p <= total tConn p) by lia. apply total_le, Forall_true. intros [? st]. cbn.
    induction st as [|g st IH]; cbn; [done|]. enough (tFiles g <= tConn g) by lia. by destruct g. }
  destruct f; cbn; try done.
  - intros Hx. apply Hfiles. pose proof (e_stdin _ _ Hend) as Hs. rewrite Forall_lookup in Hs. specialize (Hs i _ Hi). apply Forall_cons in Hs as [Hs _]. by apply Hs.
  - apply Hfiles. by eapply here_loop.
Qed.

(** The writer is served. *)
Lemma write_down i r m k : p !! i = Some (r, FWrite m :: k) -> steps_down (s, p).
Proof.
  intros Hi. destruct (writeMu s) eqn:Hw; [|eapply thread_down; [exact Hi|by apply write_exec]].
  pose proof (e_mutex _ _ Hend) as Hm. rewrite Hw in Hm. cbn in Hm.
  destruct (token_top tWriting p) as (j & r' & f & k' & Hj & Hf); [intros []; auto|intros f [] Hg; try discriminate Hg; destruct f; try done; by destruct m1|apply (i_stacks _ _ _ Hinv)|lia|].
  eapply free_down; [exact Hj|by destruct f|by eapply frame_released].
Qed.

(** The child dies when somebody waits for it. *)
Lemma wait_down i r f k : p !! i = Some (r, f :: k) -> f = FResWait \/ f = FWaitOwned \/ f = FWaitProc -> steps_down (s, p).
Proof.
  intros Hi Hf. assert (Hz : total tCleanup p = 0).
  { pose proof (tokens_nonneg tCleanup p ltac:(nonneg)). enough (total tCleanup p <= total tConn p) by lia. apply total_le, Forall_true. intros [? st]. cbn.
    induction st as [|g st IH]; cbn; [done|]. enough (tCleanup g <= tConn g) by lia. by destruct g. }
  assert (Hn : child s <> NoChild).
  { destruct Hf as [->|Hf]; [apply (j_res _ _ _ Hch); pose proof (tok_here p i r _ k Hi tRes ltac:(nonneg)) as Ht; cbn in Ht; lia|].
    apply (i_started _ _ _ Hinv). left. eapply here_loop; [exact Hinv|exact Hi|]. by destruct Hf as [->| ->]. }
  assert (Hd : dying s).
  { destruct (cmd s) eqn:Hcmd; [by apply (j_closed _ _ _ Hch)|]. destruct Hf as [->|Hf].
    - pose proof (e_resWait _ _ Hend) as Hr. rewrite Forall_lookup in Hr. apply (Hr i _ Hi); cbn [toks snd].
      + pose proof (toks_nonneg tResWait k ltac:(nonneg)). cbn. lia.
      + pose proof (here_stack _ _ _ _ _ _ _ Hinv Hi) as Hst. assert (Hk : forall st g, stack_ok (g :: st) -> toks tKill st = 0); [|rewrite (Hk k FResWait Hst); done].
        induction st as [|g st IH]; [done|]. intros h [Hg Hst']. cbn. rewrite (IH g Hst'). destruct g; try done. exfalso. destruct h; try done; by destruct m.
    - destruct (here_loop _ _ _ _ _ _ _ Hinv Hi) as [? _]; [by destruct Hf as [->| ->]|congruence]. }
  destruct (child s) eqn:Hcs; [done| |eapply thread_down; [exact Hi|]; apply proc_exec; [done|unfold ended; by rewrite Hcs]..].
  apply kill_down; [done|]. destruct Hd as [|Hd]; [done|]. unfold ended in Hd. by rewrite Hcs in Hd.
Qed.

Lemma copies_down i r k : p !! i = Some (r, FWaitCopies :: k) -> steps_down (s, p).
Proof.
  intros Hi. destruct (Z.eqb_spec (copyWG s) 0) as [Hz|Hz].
  - eapply thread_down; [exact Hi|]. exists Go. cbv [exec returns]. rewrite Hz. eexists _, _, _, _. split; [exact I|]. split; [reflexivity|]. apply down_le; [tauto|cbn; lia].
  - rewrite (i_copywg _ _ _ Hinv) in Hz. pose proof (tokens_nonneg tCopyDone p ltac:(nonneg)).
    destruct (token_thread tCopyDone p ltac:(nonneg) ltac:(lia)) as (j & [r' st] & Hj & Hpos). pose proof (e_copies _ _ Hend) as Hall. rewrite Forall_lookup in Hall.
    specialize (Hall j _ Hj Hpos). cbn [snd] in *. destruct st as [|g st]; [cbn in Hpos; lia|]. cbn in Hall. apply andb_true_iff in Hall as [Hg _].
    destruct (waiting g) eqn:Hw; [|eapply free_down; [exact Hj|done|by eapply frame_released]]. destruct g; try discriminate Hw; try discriminate Hg. by eapply write_down.
Qed.

Lemma loop_down : 0 < total tDone p -> steps_down (s, p).
Proof.
  intros Hd. destruct (token_thread tDone p ltac:(nonneg) Hd) as (j & [r' st] & Hj & Hpos). pose proof (e_loops _ _ Hend) as Hall. rewrite Forall_lookup in Hall.
  specialize (Hall j _ Hj Hpos). cbn [snd] in *. destruct st as [|g st]; [cbn in Hpos; lia|]. cbn in Hall. apply andb_true_iff in Hall as [Hg _].
  destruct (waiting g) eqn:Hw; [|eapply free_down; [exact Hj|done|by eapply frame_released]].
  destruct g; try discriminate Hw; try discriminate Hg; first [by eapply write_down | by eapply copies_down | eapply wait_down; [exact Hj|tauto]].
Qed.
End Cleaned.

Lemma closing_progress : doneCh s = 0 -> steps_down (s, p).
Proof.
  intros Hd. pose proof (i_closing _ _ _ Hinv) as Hcl. rewrite Hc, Hd in Hcl. cbn in Hcl.
  destruct (token_top tClosing p) as (i & r & f & k & Hi & Hf);
    [intros []; auto|intros f [] Hg; try discriminate Hg; destruct f; try done; by destruct m|apply (i_stacks _ _ _ Hinv)|lia|].
  destruct (waiting f) eqn:Hw; [|eapply free_down; [exact Hi|done|by destruct f]]. assert (f = FFinish) as -> by (by destruct f).
  assert (Hz : total tConn p = 0).
  { pose proof (tok_here p i r FFinish k Hi (fun f => match f with FFinish => 1 | _ => 0 end) ltac:(nonneg)) as Ht. cbn in Ht.
    pose proof (tokens_nonneg tConn p ltac:(nonneg)). enough (total tConn p + total (fun f => match f with FFinish => 1 | _ => 0 end) p <= total tClosing p) by lia.
    clear. induction p as [|[r st] q IH]; cbn; [lia|]. enough (toks tConn st + toks (fun f => match f with FFinish => 1 | _ => 0 end) st <= toks tClosing st) by (cbn [snd]; lia).
    induction st as [|g st IHst]; cbn; [lia|]. enough (tConn g + match g with FFinish => 1 | _ => 0 end <= tClosing g) by lia. destruct g; cbn; lia. }
  pose proof (tokens_nonneg tDone p ltac:(nonneg)). destruct (Z.eqb_spec (total tDone p) 0) as [Hwg|]; [|apply loop_down; [done|lia]].
  eapply thread_down; [exact Hi|]. exists Go. cbv [exec finish returns]. rewrite (i_wg _ _ _ Hinv), Hwg. eexists _, _, _, _. split; [exact I|]. split; [reflexivity|].
  apply down_le; [tauto|cbn; lia].
Qed.
End Progress.

Lemma closed_steps e σ σ' : reachable cfg σ -> closed σ.1 = true -> step cfg e σ = Some σ' -> closed σ'.1 = true.
Proof.
  intros Hr Hc Hs. pose proof (session_inv_reachable cfg σ Hr) as Hinv. unfold Inv in Hinv. destruct σ as [s p], e as [i ch|m]; cbn in *.
  - unfold step_thread in Hs. cbn in Hs. destruct (p !! i) as [[r [|f k]]|] eqn:Hi; [done| |done].
    destruct (exec cfg f r ch s) as [[[[s' r'] fs] new]|] eqn:He; [|done]. injection Hs as <-. cbn. eapply rl_closed; [by eapply rely_here|done].
  - destruct (run_move m s) as [[s' new]|] eqn:Hm; [|done]. injection Hs as <-. cbn. eapply rl_closed; [by eapply rely_move|done].
Qed.

Lemma measure_nonneg s p : 0 <= measure s p.
Proof. unfold measure, alive. pose proof (tokens_nonneg weight p ltac:(nonneg)). destruct (child s); lia. Qed.

(** Runs of forced steps. *)
Inductive forced_run : @state EP -> @state EP -> Prop :=
| forced_nil σ : forced_run σ σ
| forced_cons σ e σ1 σ' : forced e σ -> step cfg e σ = Some σ1 -> forced_run σ1 σ' -> forced_run σ σ'.

(** Some run of forced steps closes [doneCh]. *)
Definition can_finish (σ : state) : Prop := exists σ', forced_run σ σ' /\ doneCh σ'.1 = 1.

End WebttySessionEnd.

(** The client goes away while the child runs. *)
Definition demo_leaves : list (@event (list byte)) :=
  demo_open ++ replicate 4 (Thread 1 Go) ++ [Thread 2 Go; Move (Output Stdout demo_bytes); Thread 1 (Reads RdExpected); Thread 1 Go; Thread 1 Go].

