(* ===== verification/WebttySessionOutput.v ===== *)
(** * WebttySessionOutput: what a session writes is what its child produced

    The data messages of a stream carry, in order, the bytes the child wrote to it; all
    of them once the end of the stream is on the wire. *)

From S2P Require Import Prelude WebttySession WebttySessionInv WebttySessionSteps WebttySessionProps.

Section WebttySessionOutput.
Context {EP : Type} (cfg : @config EP).
Implicit Types (f : @frame EP) (s : @session EP) (p : list (@thread EP)).

Ltac nonneg := let g := fresh in intros g; destruct g; cbn; repeat case_match; lia.

(** The payloads of a stream on the wire. *)
Fixpoint payloads (t : stream) (w : list (@msg EP)) : list (@payload EP) :=
  match w with
  | [] => []
  | MData u pl :: w => if decide (u = t) then pl :: payloads t w else payloads t w
  | _ :: w => payloads t w
  end.

Lemma payloads_app t a b : payloads t (a ++ b) = payloads t a ++ payloads t b.
Proof. induction a as [|m a IH]; [done|]. destruct m; cbn; try done. case_decide; cbn; by rewrite IH. Qed.

(** [pl] is the chunk [b], as the session sends it. *)
Definition carries s (t : stream) (b : list byte) (pl : payload) : Prop := exists rnd, dataMessage s t b rnd = Some (MData t pl).

Lemma carries_keep s s' t : payloadCrypto s' = payloadCrypto s -> forall b pl, carries s t b pl -> carries s' t b pl.
Proof. intros Hc b pl [rnd Hd]. exists rnd. unfold dataMessage in *. by rewrite Hc. Qed.

(** The chunk a copy loop holds, and one that was lost with its write. *)
Definition inflight s (t : stream) (st : list (@frame EP)) (fl : list byte) : Prop :=
  match st with
  | FOnRead _ (SData b) :: _ => fl = b
  | FWrite (MData _ pl) :: _ | FWriting (MData _ pl) :: _ => carries s t fl pl
  | _ => fl = []
  end.

Definition lost (th : @thread EP) : Prop := match th with (Some _, FAfterData _ :: _) => True | _ => False end.

Definition feeding s (t : stream) (bs : list (list byte)) (th : @thread EP) : Prop :=
  lost th \/ exists fl, inflight s t th.2 fl /\ concat bs ++ fl ++ pipe s t = produced s t.

Record output s p (t : stream) (bs : list (list byte)) : Prop := {
  o_sent : Forall2 (carries s t) bs (payloads t (wire s));
  o_prefix : concat bs `prefix_of` produced s t;
  o_feeding : Forall (fun th => toks (tPre t) th.2 = 1 -> feeding s t bs th) p;
  o_before : cmd s = false \/ 0 < total tAfterAck p -> bs = [] /\ pipe s t = produced s t;
  o_ended : 0 < count (is_eos t) (wire s) -> concat bs = produced s t /\ pipeEOF s t = true;
}.

(** ** Steps *)

Lemma produced_exec f r ch s s' r' fs new : exec cfg f r ch s = Some (s', r', fs, new) -> produced s' = produced s /\ pipeEOF s' = pipeEOF s.
Proof. intros H. exec_cases H; split; kept. Qed.

Lemma quiet_exec t f r ch s s' r' fs new : exec cfg f r ch s = Some (s', r', fs, new) -> tPre t f = 0 -> writes_data t f = 0 ->
  pipe s' t = pipe s t /\ payloads t (wire s') = payloads t (wire s) /\ count (is_eos t) (wire s') = count (is_eos t) (wire s).
Proof.
  intros H Hp Hw. exec_cases H; try (by split_and!); try (abstract_process; split_goal; by split_and!).
  all: cbn in *.
  - repeat case_decide; done.
  - destruct m; cbn in *; rewrite ?payloads_app, ?count_snoc; cbn; rewrite ?app_nil_r; try (split_and!; (done || lia)); try done.
    all: destruct (decide (t0 = t)); [discriminate|]; rewrite ?app_nil_r, ?bool_decide_eq_false_2 by done; split_and!; cbn; (done || lia).
Qed.

Lemma start_copies t f r ch s s' r' fs new : exec cfg f r ch s = Some (s', r', fs, new) -> tAfterAck f = 1 ->
  toks (tPre t) fs = 0 /\ payloadCrypto s' = payloadCrypto s /\
  Forall (fun st => toks (tPre t) st = 1 -> match st with FCopy _ :: _ | FSpawnCopies :: _ => True | _ => False end) new.
Proof.
  intros H Hf. destruct f; try discriminate Hf. exec_cases H; unfold loops; repeat match goal with |- context [if ?b then _ else _] => destruct b eqn:? end; cbn;
    split_and!; try done; repeat constructor; cbn; try done; lia.
Qed.

Lemma prefix_drop (a b c : list byte) : a ++ b = c -> a `prefix_of` c.
Proof. intros <-. by exists b. Qed.

Definition fed s s' t (r' : option serr) st (new : list (list (@frame EP))) bs' : Prop :=
  Forall2 (carries s' t) bs' (payloads t (wire s')) /\ concat bs' `prefix_of` produced s' t /\
  (toks (tPre t) st = 1 -> feeding s' t bs' (r', st)) /\ Forall (fun st => toks (tPre t) st = 1 -> feeding s' t bs' (None, st)) new /\
  (0 < count (is_eos t) (wire s') -> 0 < count (is_eos t) (wire s) \/ (concat bs' = produced s' t /\ pipeEOF s' t = true)).

Lemma fed_keep s s' t r' st new bs :
  payloadCrypto s' = payloadCrypto s -> payloads t (wire s') = payloads t (wire s) -> produced s' t = produced s t ->
  count (is_eos t) (wire s') = count (is_eos t) (wire s) -> Forall2 (carries s t) bs (payloads t (wire s)) -> concat bs `prefix_of` produced s t ->
  (toks (tPre t) st = 1 -> feeding s' t bs (r', st)) -> Forall (fun st => toks (tPre t) st = 1 -> feeding s' t bs (None, st)) new ->
  fed s s' t r' st new bs.
Proof.
  intros Hc Hp Hpr Hw Hbs Hpre H1 H2. split_and!; [| |done|done|].
  - rewrite Hp. eapply Forall2_impl; [exact Hbs|]. intros b pl. by apply carries_keep.
  - by rewrite Hpr.
  - rewrite Hw. by left.
Qed.

(** A write of a data message that ends is below its copy loop. *)
Lemma data_below t pl f k : f = FWrite (MData t pl) \/ f = FWriting (MData t pl) -> stack_ok (f :: k) -> exists k', k = FAfterData t :: k'.
Proof.
  intros Hf [Hadj _]. destruct k as [|g k]; [by destruct Hf as [->| ->]|]. destruct Hf as [->| ->], g; try done; cbn in Hadj; apply bool_decide_eq_true_1 in Hadj as <-; eauto.
Qed.

Ltac gone Hk := intros Hone; exfalso; cbn [app toks tPre] in Hone; rewrite ?Hk in Hone; repeat case_decide; try done; lia.

Section Busy.
Context (t : stream) (r : option serr) (ch : @choice EP) (s s' : @session EP) (r' : option serr) (fs : list (@frame EP)) (new : list (list (@frame EP))).
Context (k : list (@frame EP)) (bs : list (list byte)) (fl : list byte).
Context (Heq : concat bs ++ fl ++ pipe s t = produced s t) (Hbs : Forall2 (carries s t) bs (payloads t (wire s))).

Lemma busy_prefix : concat bs `prefix_of` produced s t.
Proof. by eapply prefix_drop. Qed.

Ltac keep := exists bs; apply fed_keep; [done|done|done|done|exact Hbs|exact busy_prefix| |].

Lemma spawn_fed : exec cfg FSpawnCopies r ch s = Some (s', r', fs, new) -> toks (tPre t) k = 0 -> fl = [] -> exists bs', fed s s' t r' (fs ++ k) new bs'.
Proof.
  intros H Hk Hfl. injection H as <- <- <- <-. keep; [gone Hk|].
  apply Forall_cons; split; [|apply Forall_cons; split; [|by apply Forall_nil]]; intros _; right; exists []; (split; [done|]); cbn [pipe produced]; rewrite <- Heq, Hfl; done.
Qed.

Lemma copy_fed : exec cfg (FCopy t) r ch s = Some (s', r', fs, new) -> fl = [] -> exists bs', fed s s' t r' (fs ++ k) new bs'.
Proof.
  intros H Hfl. exec_cases H; keep; try (by apply Forall_nil); intros _; right.
  all: try (exists []; split; [done|]; cbn [pipe produced]; rewrite <- Heq, Hfl; done).
  exists b. split; [done|]. cbn. rewrite decide_True by done. rewrite <- Heq, Hfl. cbn [app]. f_equal.
  match goal with Hb : bool_decide _ = true |- _ => apply bool_decide_eq_true_1 in Hb; rewrite <- Hb at 1 end. apply take_drop.
Qed.

Lemma onRead_fed x : exec cfg (FOnRead t x) r ch s = Some (s', r', fs, new) -> toks (tPre t) k = 0 -> inflight s t (FOnRead t x :: k) fl ->
  exists bs', fed s s' t r' (fs ++ k) new bs'.
Proof.
  intros H Hk Hfl. cbn in H. unfold onReadStream, next, returns, waits in H. destruct (closed s); [injection H as <- <- <- <-; keep; [gone Hk|by apply Forall_nil]|].
  destruct x as [b| |]; cbn in Hfl.
  - destruct ch as [| | | | | | | |rnd| |]; try discriminate H. destruct (dataMessage s t b rnd) as [m|] eqn:Hd; injection H as <- <- <- <-; keep; try (by apply Forall_nil); [|gone Hk].
    intros _. right. exists b. destruct (dataMessage_is _ _ _ _ _ Hd) as [pl ->]. split; [by exists rnd|]. by rewrite <- Heq, Hfl.
  - repeat case_match; injection H as <- <- <- <-; keep; try (by apply Forall_nil); try (gone Hk); intros _; right; exists []; (split; [done|]); cbn [pipe produced]; rewrite <- Heq, Hfl; done.
  - injection H as <- <- <- <-. keep; [gone Hk|by apply Forall_nil].
Qed.

Lemma afterData_fed : exec cfg (FAfterData t) r ch s = Some (s', r', fs, new) -> r = None -> fl = [] -> exists bs', fed s s' t r' (fs ++ k) new bs'.
Proof.
  intros H Hr Hfl. rewrite Hr in H. injection H as <- <- <- <-. keep; [|by apply Forall_nil]. intros _. right. exists []. split; [done|]. by rewrite <- Heq, Hfl.
Qed.

Lemma writeEos_fed f : f = FWrite (MEos t) \/ f = FWriting (MEos t) -> exec cfg f r ch s = Some (s', r', fs, new) -> toks (tPre t) k = 0 -> fl = [] ->
  pipe s t = [] -> pipeEOF s t = true -> exists bs', fed s s' t r' (fs ++ k) new bs'.
Proof.
  intros Hf H Hk Hfl Hpipe Heof. destruct Hf as [->| ->]; exec_cases H.
  1-3: keep; try (by apply Forall_nil); first [gone Hk | intros _; right; exists []; (split; [done|]); cbn [pipe produced]; rewrite <- Heq, Hfl; done].
  - exists bs. split_and!; [| |gone Hk|by apply Forall_nil|].
    + cbn. rewrite payloads_app, app_nil_r. exact Hbs.
    + exact busy_prefix.
    + intros _. right. split; [|done]. cbn. rewrite <- Heq, Hfl, Hpipe, !app_nil_r. done.
  - keep; [gone Hk|by apply Forall_nil].
Qed.

Lemma writeData_fed f pl : f = FWrite (MData t pl) \/ f = FWriting (MData t pl) -> exec cfg f r ch s = Some (s', r', fs, new) -> stack_ok (f :: k) ->
  carries s t fl pl -> exists bs', fed s s' t r' (fs ++ k) new bs'.
Proof.
  intros Hf H Hst Hfl. destruct (data_below t pl f k Hf Hst) as [k' Hk]. rewrite Hk. destruct Hf as [->| ->]; exec_cases H.
  all: try (keep; try (by apply Forall_nil); intros _; first [by left | right; exists fl; split; [exact Hfl|exact Heq]]; fail).
  exists (bs ++ [fl]). split_and!.
  - cbn. rewrite payloads_app. cbn. rewrite decide_True by done. apply Forall2_app; [exact Hbs|]. by constructor.
  - cbn. apply prefix_drop with (b := pipe s t). rewrite concat_app. cbn. rewrite app_nil_r, <- app_assoc. exact Heq.
  - intros _. right. exists []. split; [done|]. cbn. rewrite concat_app. cbn. rewrite app_nil_r, <- app_assoc. exact Heq.
  - by apply Forall_nil.
  - cbn. rewrite count_snoc. cbn. intros ?. left. lia.
Qed.
End Busy.

Lemma busy_exec t f r ch s s' r' fs new k bs fl :
  exec cfg f r ch s = Some (s', r', fs, new) -> stack_ok (f :: k) -> toks (tPre t) (f :: k) = 1 -> frame_ok cfg s f -> ~ lost (r, f :: k) ->
  inflight s t (f :: k) fl -> concat bs ++ fl ++ pipe s t = produced s t -> Forall2 (carries s t) bs (payloads t (wire s)) ->
  exists bs', fed s s' t r' (fs ++ k) new bs'.
Proof.
  intros H Hst Ht (_ & _ & Hok) Hl Hfl Heq Hbs. pose proof (below_pre t f k Hst) as Hk. cbn [toks] in Ht. rewrite Hk in Ht.
  destruct f; try discriminate Ht; cbn in Ht, Hok, Hl, Hfl, Hk.
  - by eapply spawn_fed.
  - destruct (decide (t0 = t)) as [->|]; [|discriminate Ht]. by eapply copy_fed.
  - destruct (decide (t0 = t)) as [->|]; [|discriminate Ht]. by eapply onRead_fed.
  - destruct (decide (t0 = t)) as [->|]; [|discriminate Ht]. eapply afterData_fed; eauto. by destruct r.
  - destruct m; try discriminate Ht; (destruct (decide (t0 = t)) as [->|]; [|discriminate Ht]); [eapply writeData_fed; [exact Heq|exact Hbs|by left|exact H|exact Hst|exact Hfl]|].
    destruct Hok. by eapply (writeEos_fed t r ch s s' r' fs new k bs fl Heq Hbs (FWrite (MEos t))); [left|..].
  - destruct m; try discriminate Ht; (destruct (decide (t0 = t)) as [->|]; [|discriminate Ht]); [eapply writeData_fed; [exact Heq|exact Hbs|by right|exact H|exact Hst|exact Hfl]|].
    destruct Hok. by eapply (writeEos_fed t r ch s s' r' fs new k bs fl Heq Hbs (FWriting (MEos t))); [right|..].
Qed.

Lemma lost_exec t f r ch s s' r' fs new k bs :
  exec cfg f r ch s = Some (s', r', fs, new) -> stack_ok (f :: k) -> lost (r, f :: k) ->
  Forall2 (carries s t) bs (payloads t (wire s)) -> concat bs `prefix_of` produced s t -> exists bs', fed s s' t r' (fs ++ k) new bs'.
Proof.
  intros H Hst Hl Hbs Hpre. pose proof (below_pre t f k Hst) as Hk. destruct r as [e|]; [|done]. destruct f; try done. injection H as <- <- <- <-. cbn in Hk.
  exists bs. apply fed_keep; [done|done|done|done|done|done|gone Hk|by apply Forall_nil].
Qed.

(** ** Steps keep it *)

Section Exec.
Context (s : @session EP) (p : list (@thread EP)) (i : nat) (r : option serr) (f : @frame EP) (k : list (@frame EP)) (ch : @choice EP).
Context (s' : @session EP) (r' : option serr) (fs : list (@frame EP)) (new : list (list (@frame EP))).
Context (Hinv : inv cfg s p) (Hi : p !! i = Some (r, f :: k)) (He : exec cfg f r ch s = Some (s', r', fs, new)).
Context (t : stream) (bs : list (list byte)) (Hout : output s p t bs).
Let q := pool' p i k r' fs new.

Lemma out_next T : total T q = total T p + (toks T fs + total T (start <$> new) - T f).
Proof. by eapply tok_next. Qed.

Lemma out_below : toks (tPre t) k = writes_data t f.
Proof. apply below_pre. by eapply here_stack. Qed.

Lemma out_here : toks (tPre t) (f :: k) <= total (tPre t) p.
Proof. by apply (total_lookup (tPre t) p i (r, f :: k) ltac:(nonneg)). Qed.

(** Another goroutine that copies the stream excludes this one. *)
Lemma out_other j th : p !! j = Some th -> j <> i -> toks (tPre t) th.2 = 1 -> toks (tPre t) (f :: k) = 0.
Proof.
  intros Hj Hne H1. pose proof (i_pre _ _ _ Hinv t) as Hp. pose proof (count_nonneg (is_eos t) (wire s)).
  pose proof (tokens_insert (tPre t) p i _ (None, []) Hi) as Hti. assert (Hj' : (<[i := (None, [])]> p) !! j = Some th) by (by rewrite list_lookup_insert_ne).
  pose proof (total_lookup (tPre t) _ j th ltac:(nonneg) Hj') as Hl. cbn [snd] in Hti. pose proof (toks_nonneg (tPre t) (f :: k) ltac:(nonneg)).
  cbn [toks] in *. lia.
Qed.

Lemma out_before : cmd s' = false \/ 0 < total tAfterAck q -> cmd s = false \/ 0 < total tAfterAck p.
Proof.
  intros [Hc|Ha]; [left; destruct (cmd s) eqn:Hcs; [|done]; rewrite (cmd_mono _ _ _ _ _ _ _ _ _ _ _ _ Hinv Hi He Hcs) in Hc; done|].
  rewrite out_next in Ha. destruct (ack_new _ _ _ _ _ _ _ _ _ He) as [?|Ho]; [right; lia|left; by eapply here_opening].
Qed.

(** The stream's own goroutine moves. *)
Lemma busy_here : toks (tPre t) (f :: k) = 1 -> exists bs', output s' q t bs'.
Proof.
  intros H1. pose proof (i_pre _ _ _ Hinv t) as Hp. pose proof out_here as Hh. pose proof (count_nonneg (is_eos t) (wire s)).
  assert (Hc : cmd s = true /\ total tAfterAck p = 0).
  { pose proof (pre_loop t p). pose proof (tokens_nonneg tAfterAck p ltac:(nonneg)). pose proof (i_before _ _ _ Hinv) as Hb.
    destruct (cmd s); [|destruct Hb as [? _]; [by left|lia]]. split; [done|]. destruct (Z.eq_dec (total tAfterAck p) 0); [done|]. destruct Hb as [? _]; [right; lia|lia]. }
  assert (Hnb : ~ (cmd s' = false \/ 0 < total tAfterAck q)) by (intros Hb; destruct Hc as [Hc1 Hc2]; destruct (out_before Hb); [congruence|lia]).
  destruct (here_thread _ _ _ _ _ _ _ Hinv Hi) as (Hok & _ & _). pose proof (here_stack _ _ _ _ _ _ _ Hinv Hi) as Hst.
  assert (Hfed : exists bs', fed s s' t r' (fs ++ k) new bs').
  { assert (Hl : lost (r, f :: k) \/ ~ lost (r, f :: k)) by (unfold lost; repeat case_match; tauto).
    destruct Hl as [Hl|Hl]; [by eapply lost_exec; [exact He|exact Hst|exact Hl|apply (o_sent _ _ _ _ Hout)|apply (o_prefix _ _ _ _ Hout)]|].
    pose proof (o_feeding _ _ _ _ Hout) as Hfe. rewrite Forall_lookup in Hfe. destruct (Hfe i _ Hi H1) as [|(fl & Hfl & Heq)]; [done|].
    by eapply busy_exec; [exact He|exact Hst|exact H1|exact Hok|exact Hl|exact Hfl|exact Heq|apply (o_sent _ _ _ _ Hout)]. }
  destruct Hfed as (bs' & F1 & F2 & F3 & F4 & F5). exists bs'. split; [done|done| |intros Hb; by destruct (Hnb Hb)|].
  - apply Forall_app. split; [|by apply Forall_fmap]. apply Forall_lookup. intros j th Hj Hone. destruct (decide (j = i)) as [->|Hne].
    + rewrite list_lookup_insert_eq in Hj by (by eapply lookup_lt_Some). injection Hj as <-. by apply F3.
    + rewrite list_lookup_insert_ne in Hj by done. pose proof (out_other j th Hj Hne Hone). lia.
  - intros Hpos. destruct (F5 Hpos) as [?|?]; [lia|done].
Qed.

(** Another goroutine moves. *)
Lemma quiet_here : toks (tPre t) (f :: k) = 0 -> output s' q t bs.
Proof.
  intros H0. cbn [toks] in H0. pose proof out_below as Hk. assert (Hf0 : 0 <= tPre t f) by (generalize f; nonneg). pose proof (toks_nonneg (tPre t) k ltac:(nonneg)).
  destruct (quiet_exec t _ _ _ _ _ _ _ _ He) as (Hpi & Hpl & Heos); [lia|lia|]. destruct (produced_exec _ _ _ _ _ _ _ _ He) as [Hpr Heof].
  assert (Hbefore : cmd s' = false \/ 0 < total tAfterAck q -> bs = [] /\ pipe s' t = produced s' t).
  { intros Hb. rewrite Hpi, Hpr. apply (o_before _ _ _ _ Hout). by apply out_before. }
  assert (Hcar : bs = [] \/ payloadCrypto s' = payloadCrypto s).
  { destruct (tOpening f =? 1) eqn:Ho; [left; apply (o_before _ _ _ _ Hout); left; eapply here_opening; [done..|lia]|right].
    destruct (keeps_exec _ _ _ _ _ _ _ _ _ He) as (_ & _ & _ & _ & ->); [|done]. intros x Hx. rewrite Hx in Ho. done. }
  assert (Hfeed : forall j th, p !! j = Some th -> toks (tPre t) th.2 = 1 -> feeding s' t bs th).
  { intros j th Hj H1. pose proof (o_feeding _ _ _ _ Hout) as Hfe. rewrite Forall_lookup in Hfe. pose proof (total_lookup (tPre t) p j th ltac:(nonneg) Hj).
    pose proof (pre_loop t p). destruct (tOpening f =? 1) eqn:Ho; [destruct (i_before _ _ _ Hinv) as [? _]; [left; eapply here_opening; [done..|lia]|lia]|].
    assert (Hcr : payloadCrypto s' = payloadCrypto s).
    { destruct (keeps_exec _ _ _ _ _ _ _ _ _ He) as (_ & _ & _ & _ & ->); [|done]. intros x Hx. rewrite Hx in Ho. done. }
    destruct (Hfe j th Hj H1) as [Hl|(fl & Hfl & Heq)]; [by left|]. right. exists fl. rewrite Hpi, Hpr. split; [|done].
    destruct th as [? [|g st]]; [done|]. destruct g; try done; destruct m; try done; by eapply carries_keep. }
  split; [| |apply Forall_app; split| |].
  - rewrite Hpl. destruct Hcar as [Hnil|Hcr]; [|eapply Forall2_impl; [apply (o_sent _ _ _ _ Hout)|]; intros b pl; by apply carries_keep].
    pose proof (o_sent _ _ _ _ Hout) as Hs. rewrite Hnil in Hs |- *. apply Forall2_nil_inv_l in Hs. rewrite Hs. constructor.
  - rewrite Hpr. apply (o_prefix _ _ _ _ Hout).
  - apply Forall_lookup. intros j th Hj Hone. destruct (decide (j = i)) as [->|Hne]; [|rewrite list_lookup_insert_ne in Hj by done; by eapply Hfeed].
    rewrite list_lookup_insert_eq in Hj by (by eapply lookup_lt_Some). injection Hj as <-. exfalso. cbn [snd] in Hone. rewrite toks_app in Hone.
    assert (Hfs : toks (tPre t) fs = 0); [|lia]. pose proof (toks_nonneg (tPre t) fs ltac:(nonneg)). assert (Ha : tAfterAck f = 0 \/ tAfterAck f = 1) by (destruct f; auto).
    destruct Ha as [Ha|Ha]; [|by destruct (start_copies t _ _ _ _ _ _ _ _ He Ha)]. pose proof (pre_exec _ t _ _ _ _ _ _ _ _ He Ha).
    pose proof (tokens_nonneg (tPre t) (start <$> new) ltac:(nonneg)). lia.
  - apply Forall_fmap. apply Forall_forall. intros st Hst Hone. cbn in Hone. assert (Ha : tAfterAck f = 0 \/ tAfterAck f = 1) by (destruct f; auto).
    destruct Ha as [Ha|Ha].
    + exfalso. pose proof (pre_exec _ t _ _ _ _ _ _ _ _ He Ha). pose proof (toks_nonneg (tPre t) fs ltac:(nonneg)).
      apply list_elem_of_lookup in Hst as [j Hj]. assert (Hj' : (start <$> new) !! j = Some (start st)) by (by rewrite list_lookup_fmap, Hj).
      pose proof (total_lookup (tPre t) _ j _ ltac:(nonneg) Hj') as Hl. cbn in Hl. lia.
    + destruct (start_copies t _ _ _ _ _ _ _ _ He Ha) as (_ & _ & Hn). rewrite Forall_forall in Hn. specialize (Hn st Hst Hone).
      destruct (o_before _ _ _ _ Hout) as [Hnil Hpp]; [right; pose proof (tok_here p i r f k Hi tAfterAck ltac:(nonneg)); lia|].
      right. exists []. rewrite Hpi, Hpr, Hnil. split; [|done]. destruct st as [|g st]; [done|]. by destruct g.
  - exact Hbefore.
  - rewrite Heos, Hpr, Heof. apply (o_ended _ _ _ _ Hout).
Qed.

Lemma output_exec : exists bs', output s' q t bs'.
Proof.
  pose proof (i_pre _ _ _ Hinv t). pose proof out_here as Hh. pose proof (count_nonneg (is_eos t) (wire s)). pose proof (toks_nonneg (tPre t) (f :: k) ltac:(nonneg)).
  destruct (Z.eq_dec (toks (tPre t) (f :: k)) 1); [by apply busy_here|]. exists bs. apply quiet_here. lia.
Qed.
End Exec.

(** *** Moves of the outside, and the start *)

Lemma move_output m s s' new t : run_move m s = Some (s', new) ->
  (exists b, pipe s' t = pipe s t ++ b /\ produced s' t = produced s t ++ b /\ (pipeEOF s t = true -> b = [])) /\
  (pipeEOF s t = true -> pipeEOF s' t = true).
Proof.
  intros H. destruct m; cbn in H; repeat case_match; try discriminate H; injection H as <- <-; cbn.
  all: try (split; [exists []; by rewrite !app_nil_r|done]).
  - split; [|done]. apply andb_true_iff in H0 as [_ H0%negb_true_iff]. destruct (decide (t = t0)) as [->|]; [exists b|exists []; by rewrite !app_nil_r].
    split_and!; [done..|congruence].
  - split; [exists []; by rewrite !app_nil_r|]. unfold set_key. by destruct (decide (t = t0)).
Qed.

Lemma output_move m s p s' new t bs : output s p t bs -> run_move m s = Some (s', new) -> output s' (p ++ (start <$> new)) t bs.
Proof.
  intros Hout Hm. destruct (move_facts _ _ _ _ Hm) as ((ot & ct & c & pi & pr & pe & Hs) & _ & Hnew).
  destruct (move_output _ _ _ _ t Hm) as ((b & Hpi & Hpr & Hb) & Heof).
  assert (Hcr : payloadCrypto s' = payloadCrypto s) by (by rewrite Hs). assert (Hw : wire s' = wire s) by (by rewrite Hs). assert (Hc : cmd s' = cmd s) by (by rewrite Hs).
  destruct Hout as [O1 O2 O3 O4 O5]. split.
  - rewrite Hw. eapply Forall2_impl; [exact O1|]. intros x pl. by apply carries_keep.
  - rewrite Hpr. by apply prefix_app_r.
  - apply Forall_app. split; [|destruct Hnew as [->|[->|[->| ->]]]; first [by apply Forall_nil | apply Forall_singleton; cbn; lia]]. eapply Forall_impl; [exact O3|]. intros th Hth H1.
    destruct (Hth H1) as [|(fl & Hfl & Heq)]; [by left|]. right. exists fl. split; [|rewrite Hpi, Hpr, <- Heq, !app_assoc; done].
    destruct th as [? [|g st]]; [done|]. destruct g; try done; destruct m0; try done; by eapply carries_keep.
  - rewrite Hc, tokens_app. intros Hbf. destruct O4 as [-> Heq]; [|rewrite Hpi, Hpr, Heq; done].
    destruct Hnew as [->|[->|[->| ->]]]; cbn in Hbf; (destruct Hbf; [by left|right; lia]).
  - rewrite Hw. intros Hpos. destruct (O5 Hpos) as [Heq He]. rewrite Hpr, (Hb He), app_nil_r. auto.
Qed.

Lemma output_reachable t σ : reachable cfg σ -> exists bs, output σ.1 σ.2 t bs.
Proof.
  induction 1 as [σ Hi|σ e σ' Hr [bs IH] Hs].
  - exists []. destruct Hi; (split; [constructor|by apply prefix_nil|apply Forall_singleton; cbn; lia|done|cbn; lia]).
  - pose proof (session_inv_reachable cfg σ Hr) as Hinv. unfold Inv in Hinv. destruct σ as [s p], e as [i ch|m]; cbn in Hs, IH, Hinv.
    + unfold step_thread in Hs. cbn in Hs. destruct (p !! i) as [[r [|f k]]|] eqn:Hi; [done| |done].
      destruct (exec cfg f r ch s) as [[[[s' r'] fs] new]|] eqn:He; [|done]. injection Hs as <-. by eapply output_exec.
    + destruct (run_move m s) as [[s' new]|] eqn:Hm; [|done]. injection Hs as <-. exists bs. by eapply output_move.
Qed.

(** ** What the client receives *)

(** C8: what a session sends of a stream carries exactly what the child wrote to it: the
    chunks of the data messages on the wire, in order, are a beginning of the child's
    output, and all of it once the end of the stream is on the wire; when the close is on
    the wire, all of every stream the session opened was sent.  Nothing is lost, repeated
    or reordered, however the goroutines interleave. *)
Theorem session_output_faithful σ t : reachable cfg σ ->
  exists bs, Forall2 (carries σ.1 t) bs (payloads t (wire σ.1)) /\ concat bs `prefix_of` produced σ.1 t /\
    (MEos t ∈ wire σ.1 -> concat bs = produced σ.1 t) /\
    (forall c, MClose c ∈ wire σ.1 -> streams_of (ptyFile σ.1) t = true -> concat bs = produced σ.1 t).
Proof.
  intros Hr. destruct (output_reachable t σ Hr) as [bs [O1 O2 _ _ O5]]. exists bs. split_and!; [done|done|..].
  - intros He. apply O5. apply count_elem. exists (MEos t). cbn. by rewrite bool_decide_eq_true_2.
  - intros c Hc Ht. apply O5. destruct (list_elem_of_split _ _ Hc) as (w1 & w2 & Hw). pose proof (i_wire _ _ _ (session_inv_reachable cfg σ Hr) w1 _ w2 Hw) as (_ & _ & _ & Hall).
    rewrite Hw, count_app. pose proof (count_nonneg (is_eos t) (MClose c :: w2)). specialize (Hall t Ht). lia.
Qed.
End WebttySessionOutput.

Lemma demo_wire : wire (demo_run (demo_open ++ demo_work)).1 = [MHello; MAck true; MData Stdout (PPlain demo_bytes); MEos Stdout; MEos Stderr; MClose 7].
Proof. vm_compute. reflexivity. Qed.

Lemma session_output_faithful_witness :
  payloads Stdout (wire (demo_run (demo_open ++ demo_work)).1) = [PPlain demo_bytes] /\
  exists bs, Forall2 (carries (demo_run (demo_open ++ demo_work)).1 Stdout) bs [PPlain demo_bytes] /\
    concat bs = produced (demo_run (demo_open ++ demo_work)).1 Stdout.
Proof.
  rewrite demo_wire. split; [reflexivity|]. destruct (session_output_faithful demo_config (demo_run (demo_open ++ demo_work)) Stdout) as (bs & H1 & _ & H2 & _).
  - apply demo_reachable. vm_compute. eexists. reflexivity.
  - rewrite demo_wire in H1, H2. exists bs. split; [exact H1|]. apply H2. do 3 apply list_elem_of_further. apply list_elem_of_here.
Defined.
