(* ===== verification/WebttySecure.v ===== *)
(** * WebttySecure: an encrypted session, end to end

    The session of [WebttySession] with the hooks of the ciphers of [WebttyCrypto]: what
    the client decrypts is what the child wrote. *)

From S2P Require Import Prelude GoStrings Transcript WebttyCrypto WebttySession WebttySessionInv WebttySessionSteps WebttySessionProps WebttySessionOutput.

Section WebttySecure.
Context `{Crypto} (fips : bool).

Definition stream_name (t : stream) : string := match t with Stdout => "stdout" | Stderr => "stderr" end.

(** [encryptFunc] with fresh random bytes, and [decryptFunc], as hooks. *)
Definition encryptFunc (c : e2ePayloadCipher) (stream : string) (rnd payload : list byte) : option EncryptedPayload :=
  match encrypt {| c with c_random := rnd |} stream rnd payload with Ok (e, _) => Some e | Err _ => None end.

Definition decryptFunc (c : e2ePayloadCipher) (stream : string) (e : EncryptedPayload) : option (list byte) :=
  match decrypt c stream (Some e) with Ok b => Some b | Err _ => None end.

(** [e2ePayloadCipher.payloadCrypto], the hooks a server uses *)
Definition payload_hooks (c : e2ePayloadCipher) : @PayloadCrypto EncryptedPayload :=
  MkHooks (Some (encryptFunc c "stdout")) (Some (encryptFunc c "stderr")) (Some (decryptFunc c "stdin")).

(** [pl] is an encrypted payload that the client decrypts to [b]. *)
Definition opens (c : e2ePayloadCipher) (t : stream) (b : list byte) (pl : @payload EncryptedPayload) : Prop :=
  exists e, pl = PEnc e /\ decrypt c (stream_name t) (Some e) = Ok b.

Lemma carries_opens `{!CryptoLaws} c s (σ : @session EncryptedPayload) t b pl :
  cipher_ok s -> paired c s -> payloadCrypto σ = Some (payload_hooks s) -> carries σ t b pl -> opens c t b pl.
Proof.
  intros Hs Hp Hc [rnd Hd]. unfold dataMessage in Hd. rewrite Hc in Hd.
  assert (He : exists e, pl = PEnc e /\ encryptFunc s (stream_name t) rnd b = Some e).
  { destruct t; cbn in Hd |- *; destruct (encryptFunc s _ rnd b) as [e|]; try done; injection Hd as <-; eauto. }
  destruct He as (e & -> & He). exists e. split; [done|]. unfold encryptFunc in He.
  destruct (encrypt {| s with c_random := rnd |} (stream_name t) rnd b) as [[e' c']|] eqn:Hen; [|done]. injection He as ->.
  eapply (encrypt_decrypt {| s with c_random := rnd |}); [exact Hs|by apply paired_sym|exact Hen].
Qed.

(** C9: end to end.  A client makes a session key and a grant for a server among its
    recipients; the server resolves the grant to hooks and runs a session with them.  Then
    everything the session ever sends of the child's output is encrypted, the client
    decrypts it, and what it reads of a stream is, in order, a beginning of what the child
    wrote, and all of it once the end of the stream was sent. *)
Theorem webtty_end_to_end_output `{!CryptoLaws} encode json random rnds pcfg c identity keyID priv pre r post random' s
  (cfg : @config EncryptedPayload) σ t :
  newE2EClientPayloadCipher fips encode json random rnds pcfg = Ok c ->
  pc_Recipients pcfg = pre ++ r :: post ->
  e2eIdentityPrivateKey fips identity (c_keyEnvelopeSuite c) = Ok (keyID, priv) ->
  rc_PublicKey r = PublicKey (c_keyEnvelopeSuite c) priv -> recipient_key r = keyID -> keyID ∉ recipient_key <$> pre ->
  newE2EServerPayloadCipher fips random' (Some (sessionKeyGrant c)) identity = Ok s ->
  reachable cfg σ -> payloadCrypto σ.1 = Some (payload_hooks s) ->
  exists bs, Forall2 (opens c t) bs (payloads t (wire σ.1)) /\ concat bs `prefix_of` produced σ.1 t /\
    (MEos t ∈ wire σ.1 -> concat bs = produced σ.1 t).
Proof.
  intros Hc Hrec Hid Hpub Hkey Hpre Hs Hr Hhooks.
  destruct (server_cipher _ _ _ _ _ _ _ _ _ _ _ _ _ random' Hc Hrec Hid Hpub Hkey Hpre) as (s' & Hs' & _ & Hok & Hpair & _).
  assert (s' = s) as -> by congruence. destruct (output_reachable cfg t σ Hr) as [bs [O1 O2 _ _ O5]]. exists bs. split_and!; [|done|].
  - eapply Forall2_impl; [exact O1|]. intros b pl. by apply (carries_opens c s).
  - intros He. apply O5. apply count_elem. exists (MEos t). cbn. by rewrite bool_decide_eq_true_2.
Qed.
End WebttySecure.

(** ** A witness *)

Definition secure_config : @config EncryptedPayload := MkSessionConfig false true true true None true true false None true true.

Definition secure_client : e2ePayloadCipher := Eval vm_compute in
  match demo_client_cipher with Ok c => c | Err _ => MkCipher 0 [] [] [] 0 [] [] end.
Definition secure_server : e2ePayloadCipher := Eval vm_compute in
  match @newE2EServerPayloadCipher toy_crypto false (replicate 20 x01) (Some (sessionKeyGrant secure_client)) demo_identity with
  | Ok s => s
  | Err _ => MkCipher 0 [] [] [] 0 [] []
  end.

Definition secure_answers : @open_answers EncryptedPayload := MkAnswers None None (Some (@payload_hooks toy_crypto secure_server)) None None None.

Definition secure_events : list (@event EncryptedPayload) :=
  replicate 7 (Thread 0 Go) ++
  [Thread 1 Go; Thread 1 (Reads (RdMessage (IOpen (MkOpenMsg true true false))))] ++ replicate 4 (Thread 1 Go) ++
  [Thread 1 (Answers secure_answers); Thread 1 (Answers secure_answers)] ++ replicate 4 (Thread 1 Go) ++
  [Thread 2 Go; Move (Output Stdout demo_bytes); Thread 3 (Bytes demo_bytes); Thread 3 (Random (replicate 12 x05))] ++
  replicate 3 (Thread 3 Go).

Definition secure_start : @state EncryptedPayload := (newSession secure_config, [start [FRun]]).
Definition secure_state : @state EncryptedPayload := default secure_start (runs secure_config secure_events secure_start).

Lemma secure_reachable : reachable secure_config secure_state.
Proof.
  unfold secure_state. destruct (runs secure_config secure_events secure_start) as [σ|] eqn:Hσ; [|apply reach_init, initial_run].
  apply (reachable_runs secure_config secure_events secure_start); [apply reach_init, initial_run|exact Hσ].
Qed.

Lemma secure_hooks : payloadCrypto secure_state.1 = Some (@payload_hooks toy_crypto secure_server).
Proof. reflexivity. Qed.

Lemma webtty_end_to_end_output_witness :
  length (payloads Stdout (wire secure_state.1)) = 1%nat /\
  exists bs, Forall2 (@opens toy_crypto secure_client Stdout) bs (payloads Stdout (wire secure_state.1)) /\ concat bs `prefix_of` produced secure_state.1 Stdout.
Proof.
  split; [vm_compute; reflexivity|].
  destruct (@webtty_end_to_end_output toy_crypto false toy_laws (fun _ => "id") (fun _ _ _ _ => []) (replicate 100 x09) [] WebttyCrypto.demo_config secure_client demo_identity
    (@E2EKeyID toy_crypto (demo_key x07)) (demo_key x07) [demo_recipient x05] (demo_recipient x07) [] (replicate 20 x01) secure_server secure_config secure_state Stdout)
    as (bs & H1 & H2 & _).
  - vm_compute. reflexivity.
  - reflexivity.
  - vm_compute. reflexivity.
  - vm_compute. reflexivity.
  - vm_compute. reflexivity.
  - apply (bool_decide_unpack _). vm_compute. exact I.
  - vm_compute. reflexivity.
  - exact secure_reachable.
  - exact secure_hooks.
  - by exists bs.
Defined.
