(* ===== verification/WebttyServer.v ===== *)
(** * WebttyServer: the handler of WebTTY sessions ([webtty/server.go], [auth.go], [session_id.go])

    Which requests are admitted (the bearer token), the identifiers of sessions, and the
    handler's table of sessions with its draining and shutdown, in every interleaving of
    the goroutines that serve sessions and the callers of [Shutdown]. *)

From S2P Require Import Prelude GoStrings.

(** ** The bearer token *)

(** The width of the white space a string begins with, or 0. *)
Definition leading_space (s : list byte) : nat :=
  match s with
  | b0 :: r =>
      if space1 b0 then 1%nat
      else match r with
           | b1 :: r2 =>
               if space2 b0 b1 then 2%nat
               else match r2 with b2 :: _ => if space3 b0 b1 b2 then 3%nat else 0%nat | [] => 0%nat end
           | [] => 0%nat
           end
  | [] => 0%nat
  end.

(** [strings.Fields]: [skip] bytes of a space are left, [cur] is the field being read. *)
Fixpoint fields (skip : nat) (cur s : list byte) : list (list byte) :=
  match s with
  | [] => match cur with [] => [] | _ => [cur] end
  | b :: r =>
      match skip with
      | Datatypes.S k => fields k cur r
      | 0%nat =>
          match leading_space s with
          | Datatypes.S k => match cur with [] => fields k [] r | _ => cur :: fields k [] r end
          | 0%nat => fields 0 (cur ++ [b]) r
          end
      end
  end.

Definition Fields (s : string) : list string := b2s <$> fields 0 [] (s2b s).

Definition bearerToken (header : string) : string :=
  match Fields header with
  | [scheme; token] => if bool_decide (ToLower scheme = "bearer") then token else ""
  | _ => ""
  end.

Definition authorizeBearerRequest (header : string) (authToken : option string) (allowUnauthenticated : bool) : bool :=
  if allowUnauthenticated then true
  else match authToken with
  | None => false
  | Some t => if bool_decide (TrimSpace t = "") then false else bool_decide (bearerToken header = TrimSpace t)
  end.

Example bearer_ok : authorizeBearerRequest "  bEARER  s3cret " (Some " s3cret") false = true.
Proof. reflexivity. Qed.
Example bearer_extra : authorizeBearerRequest "Bearer s3cret x" (Some "s3cret") false = false.
Proof. reflexivity. Qed.

(** ** Session identifiers *)

Record sessionIDGenerator := MkGenerator { machineID : list byte; processID : Z; counter : Z }.

(** [newSessionIDGenerator]: [pid] and the random bytes *)
Definition newSessionIDGenerator (pid : Z) (machine seed : list byte) : sessionIDGenerator :=
  MkGenerator machine (pid mod 2 ^ 16)
    (match seed with b0 :: b1 :: b2 :: _ => Z.lor (Z.lor (Z.shiftl (b2z b0) 16) (Z.shiftl (b2z b1) 8)) (b2z b2) | _ => 0 end).

(** [Generate] at the time [now], in seconds *)
Definition Generate (now : Z) (g : sessionIDGenerator) : string * sessionIDGenerator :=
  let ts := u32 now in
  let c := u32 (counter g + 1) in
  let low := Z.land c 16777215 in
  let raw := [z2b (Z.shiftr ts 24 mod 256); z2b (Z.shiftr ts 16 mod 256); z2b (Z.shiftr ts 8 mod 256); z2b (ts mod 256)] ++
             machineID g ++ [z2b (Z.shiftr (processID g) 8 mod 256); z2b (processID g mod 256)] ++
             [z2b (Z.shiftr low 16 mod 256); z2b (Z.shiftr low 8 mod 256); z2b (low mod 256)] in
  (b2s (hex_encode raw), {| g with counter := c |}).

Fixpoint generate_all (times : list Z) (g : sessionIDGenerator) : list string :=
  match times with
  | [] => []
  | now :: times => let '(id, g) := Generate now g in id :: generate_all times g
  end.

Example one_id : (Generate 1700000000 (MkGenerator [x01; x02; x03] 4660 65535)).1 = "6553f1000102031234010000".
Proof. reflexivity. Qed.

(** *** Their distance *)

Lemma hex_digit_inj a b : 0 <= a < 16 -> 0 <= b < 16 -> hex_digit a = hex_digit b -> a = b.
Proof.
  intros Ha Hb H. apply (f_equal b2z) in H. unfold hex_digit in H.
  destruct (a <? 10) eqn:Ea, (b <? 10) eqn:Eb; rewrite !b2z_z2b, !Z.mod_small in H by lia; lia.
Qed.

Lemma hex_encode_inj a b : hex_encode a = hex_encode b -> a = b.
Proof.
  revert b. induction a as [|x a IH]; intros [|y b]; try done. unfold hex_encode. rewrite !fmap_cons. cbn [concat app]. intros [= H1 H2 H3].
  fold (hex_encode a) (hex_encode b) in H3. rewrite (IH _ H3). f_equal. apply b2z_inj. pose proof (b2z_range x). pose proof (b2z_range y).
  apply hex_digit_inj in H1; [|Z.div_mod_to_equations; lia..]. apply hex_digit_inj in H2; [|Z.div_mod_to_equations; lia..]. rewrite (Z.div_mod (b2z x) 16), (Z.div_mod (b2z y) 16) by lia. lia.
Qed.

(** The low bytes of an identifier give the counter modulo [2^24]. *)
Lemma low_bytes a b : [z2b (Z.shiftr a 16 mod 256); z2b (Z.shiftr a 8 mod 256); z2b (a mod 256)] =
  [z2b (Z.shiftr b 16 mod 256); z2b (Z.shiftr b 8 mod 256); z2b (b mod 256)] -> 0 <= a < 2 ^ 24 -> 0 <= b < 2 ^ 24 -> a = b.
Proof.
  intros H Ha Hb. injection H as H1 H2 H3. apply (f_equal b2z) in H1, H2, H3. rewrite !b2z_z2b, !Z.mod_mod in H1, H2, H3 by lia.
  rewrite !Z.shiftr_div_pow2 in H1, H2 by lia. change (2 ^ 16) with 65536 in *. change (2 ^ 8) with 256 in *. change (2 ^ 24) with 16777216 in *.
  Z.div_mod_to_equations. lia.
Qed.

Lemma id_counter now now' g g' : machineID g' = machineID g -> processID g' = processID g -> (Generate now g).1 = (Generate now' g').1 ->
  (counter g + 1) mod 2 ^ 24 = (counter g' + 1) mod 2 ^ 24.
Proof.
  intros Hm Hp H. unfold Generate in H. cbn [fst] in H. apply (f_equal s2b) in H. rewrite !s2b_b2s in H. apply hex_encode_inj in H.
  rewrite Hm, Hp in H. apply app_inj_1 in H as [_ H]; [|done]. apply app_inv_head in H. apply app_inv_head in H. 
  assert (Hl : forall c, Z.land (u32 c) 16777215 = c mod 2 ^ 24).
  { intros c. change 16777215 with (Z.ones 24). rewrite Z.land_ones by lia. unfold u32. rewrite Z.mod_mod_divide; [done|]. by exists (2 ^ 8). }
  rewrite !Hl in H. apply low_bytes in H; [done|apply Z.mod_pos_bound; lia..].
Qed.

Lemma generate_lookup times g i id : generate_all times g !! i = Some id ->
  exists now, id = (Generate now {| g with counter := (if decide (i = 0%nat) then counter g else u32 (counter g + Z.of_nat i)) |}).1.
Proof.
  revert g i. induction times as [|now times IH]; intros g i; [done|]. cbn [generate_all]. destruct i as [|i].
  - intros [= <-]. exists now. by destruct g.
  - intros Hi. apply (IH (Generate now g).2) in Hi as [now' ->]. exists now'.
    assert (Hc : (if decide (i = 0%nat) then u32 (counter g + 1) else u32 (u32 (counter g + 1) + Z.of_nat i)) = u32 (counter g + Z.of_nat (Datatypes.S i))).
    { destruct (decide (i = 0%nat)) as [->|]; [done|]. unfold u32. rewrite Zplus_mod_idemp_l. by replace (counter g + 1 + Z.of_nat i) with (counter g + Z.of_nat (Datatypes.S i)) by lia. }
    change (counter (Generate now g).2) with (u32 (counter g + 1)). rewrite Hc. rewrite (decide_False (P := Datatypes.S i = 0%nat)) by done. done.
Qed.

(** Session identifiers do not repeat.  Whatever the clock shows, [2^24] identifiers made
    in a row by one generator are pairwise distinct, also when its counter wraps. *)
Theorem session_ids_distinct times g : Z.of_nat (length times) <= 2 ^ 24 -> NoDup (generate_all times g).
Proof.
  intros Hlen. assert (Hl : length (generate_all times g) = length times) by (clear; revert g; induction times; intros g; cbn; congruence).
  apply NoDup_alt. intros i j id Hi Hj. pose proof (lookup_lt_Some _ _ _ Hi). pose proof (lookup_lt_Some _ _ _ Hj).
  destruct (generate_lookup _ _ _ _ Hi) as [n1 E1]. destruct (generate_lookup _ _ _ _ Hj) as [n2 E2]. rewrite E1 in E2. apply id_counter in E2; [|done..]. cbn [counter] in E2.
  assert (Hc : forall k, ((if decide (k = 0%nat) then counter g else u32 (counter g + Z.of_nat k)) + 1) mod 2 ^ 24 = (counter g + 1 + Z.of_nat k) mod 2 ^ 24).
  { intros k. destruct (decide (k = 0%nat)) as [->|]; [f_equal; lia|]. unfold u32. rewrite <- Zplus_mod_idemp_l, Z.mod_mod_divide by (by exists (2 ^ 8)).
    rewrite Zplus_mod_idemp_l. f_equal. lia. }
  rewrite !Hc in E2. set (c := counter g + 1) in *. change (2 ^ 24) with 16777216 in *. clearbody c. Z.div_mod_to_equations. lia.
Qed.

Lemma session_ids_distinct_witness :
  NoDup (generate_all [1700000000; 1700000000; 1700000001] (newSessionIDGenerator 4660 [x01; x02; x03] [xff; xff; xff; x00])).
Proof. apply session_ids_distinct. vm_compute. discriminate. Defined.

(** ** The handler *)

(** A goroutine that serves a connection: [ServeHTTP] and its like. *)
Inductive server := AtCheck | AtRegister | AtRun | AtUnregister | Refused | Ended.

(** A caller of [Shutdown]; it waits for [pending] calls of [session.shutdown]. *)
Inductive caller := AtDrain | AtSnapshot | AtWait (pending : nat) | Returned (ok : bool).

(** Sessions are numbered by the goroutine that serves them. *)
Record Handler := MkHandler {
  h_sessions : gset nat; h_sessionWG : Z; h_draining : bool; h_drainedCh : Z; h_drained : bool;
  h_servers : list server; h_callers : list caller;
}.

Definition NewWebTTYHandler : Handler := MkHandler ∅ 0 false 0 false [] [].

(** [drained.Do(close(drainedCh))] *)
Definition close_drained (h : Handler) : Handler :=
  if h_drained h then h else {| h with h_drained := true; h_drainedCh := h_drainedCh h + 1 |}.

Definition registerSession (i : nat) (h : Handler) : Handler * bool :=
  if h_draining h then (h, false)
  else ({| h with h_sessions := {[ i ]} ∪ h_sessions h; h_sessionWG := h_sessionWG h + 1 |}, true).

Definition unregisterSession (i : nat) (h : Handler) : Handler :=
  if decide (i ∈ h_sessions h) then
    let h := {| h with h_sessions := h_sessions h ∖ {[ i ]}; h_sessionWG := h_sessionWG h - 1 |} in
    if h_draining h && bool_decide (h_sessions h = ∅) then close_drained h else h
  else h.

Definition snapshotSessions (h : Handler) : list nat := elements (h_sessions h).

Definition BeginDrain (h : Handler) : Handler :=
  let h := {| h with h_draining := true |} in
  if bool_decide (h_sessions h = ∅) then close_drained h else h.

Inductive hevent :=
| Connection                 (* a connection to serve *)
| Serves (i : nat)           (* its goroutine goes on *)
| RunReturns (i : nat)       (* session.run returned *)
| ShutdownCalled
| Calls (j : nat)            (* a caller of Shutdown goes on *)
| SessionShut (j : nat)      (* a session.shutdown it started returned *)
| Deadline (j : nat).

Definition set_server (i : nat) (x : server) (h : Handler) : Handler := {| h with h_servers := <[i := x]> (h_servers h) |}.
Definition set_caller (j : nat) (x : caller) (h : Handler) : Handler := {| h with h_callers := <[j := x]> (h_callers h) |}.

(** [ServeHTTP], [ServeConn], [ServeWebTransportSession] *)
Definition serve (i : nat) (h : Handler) : option Handler :=
  match h_servers h !! i with
  | Some AtCheck => Some (set_server i (if h_draining h then Refused else AtRegister) h)
  | Some AtRegister => let '(h, ok) := registerSession i h in Some (set_server i (if ok then AtRun else Refused) h)
  | Some AtUnregister => Some (set_server i Ended (unregisterSession i h))
  | _ => None
  end.

Definition Shutdown (j : nat) (h : Handler) : option Handler :=
  match h_callers h !! j with
  | Some AtDrain => Some (set_caller j AtSnapshot (BeginDrain h))
  | Some AtSnapshot =>
      match snapshotSessions h with
      | [] => Some (set_caller j (Returned true) h)
      | l => Some (set_caller j (AtWait (length l)) h)
      end
  | Some (AtWait 0) => if h_sessionWG h =? 0 then Some (set_caller j (Returned true) h) else None
  | _ => None
  end.

Definition hstep (e : hevent) (h : Handler) : option Handler :=
  match e with
  | Connection => Some {| h with h_servers := h_servers h ++ [AtCheck] |}
  | Serves i => serve i h
  | RunReturns i => match h_servers h !! i with Some AtRun => Some (set_server i AtUnregister h) | _ => None end
  | ShutdownCalled => Some {| h with h_callers := h_callers h ++ [AtDrain] |}
  | Calls j => Shutdown j h
  | SessionShut j => match h_callers h !! j with Some (AtWait (Datatypes.S n)) => Some (set_caller j (AtWait n) h) | _ => None end
  | Deadline j => match h_callers h !! j with Some (AtWait _) => Some (set_caller j (Returned false) h) | _ => None end
  end.

Inductive handled : Handler -> Prop :=
| handled_new : handled NewWebTTYHandler
| handled_step h e h' : handled h -> hstep e h = Some h' -> handled h'.

(** *** The invariant *)

Definition serving (x : server) : bool := match x with AtRun | AtUnregister => true | _ => false end.

Definition empty (h : Handler) : bool := bool_decide (h_sessions h = ∅).

Record hinv (h : Handler) : Prop := {
  v_wg : h_sessionWG h = Z.of_nat (size (h_sessions h));
  v_once : h_drainedCh h = if h_drained h then 1 else 0;
  v_drained : h_drained h = h_draining h && empty h;
  v_servers : forall i x, h_servers h !! i = Some x -> (i ∈ h_sessions h <-> serving x = true);
  v_sessions : forall i, i ∈ h_sessions h -> is_Some (h_servers h !! i);
  v_callers : forall j x, h_callers h !! j = Some x -> x <> AtDrain -> h_draining h = true;
  v_returned : forall j, h_callers h !! j = Some (Returned true) -> h_sessions h = ∅;
}.

(** Only the goroutine's own entry changes. *)
Lemma lookup_set {A} (l : list A) i j x y : <[i := x]> l !! j = Some y -> (j = i /\ y = x) \/ (j <> i /\ l !! j = Some y).
Proof.
  destruct (decide (j = i)) as [->|Hne]; [|rewrite list_lookup_insert_ne by done; auto]. intros H. pose proof (lookup_lt_Some _ _ _ H) as Hl.
  rewrite length_insert in Hl. rewrite list_lookup_insert_eq in H by done. injection H as <-. auto.
Qed.

Lemma lookup_push {A} (l : list A) j x y : (l ++ [x]) !! j = Some y -> l !! j = Some y \/ (j = length l /\ y = x).
Proof. intros H. apply lookup_snoc_Some in H as [[_ H]|[-> <-]]; auto. Qed.

Lemma hinv_new : hinv NewWebTTYHandler.
Proof. split; try done. Qed.

Lemma hinv_server i x y h : hinv h -> h_servers h !! i = Some x -> serving y = serving x -> hinv (set_server i y h).
Proof.
  intros [V1 V2 V3 V4 V5 V6 V7] Hi Hxy. split; cbn; try done.
  - intros j z [[-> ->]|[_ Hz]]%lookup_set; [rewrite Hxy|]; by apply V4.
  - intros j Hj. rewrite list_lookup_insert. case_decide; [done|by apply V5].
Qed.

Lemma hinv_caller j y h : hinv h -> (y <> AtDrain -> h_draining h = true) -> (y = Returned true -> h_sessions h = ∅) -> hinv (set_caller j y h).
Proof.
  intros [V1 V2 V3 V4 V5 V6 V7] H1 H2. split; cbn; try done.
  - intros k z [[-> ->]|[_ Hz]]%lookup_set; [done|by eapply V6].
  - intros k [[-> Hz]|[_ Hz]]%lookup_set; [by apply H2|by eapply V7].
Qed.

Lemma hinv_drain h : hinv h -> hinv (BeginDrain h).
Proof.
  intros [V1 V2 V3 V4 V5 V6 V7]. unfold BeginDrain, close_drained, empty in *. cbn. destruct (bool_decide (h_sessions h = ∅)) eqn:He; [destruct (h_drained h) eqn:Hd|].
  all: split; cbn; try done; try lia; unfold empty; cbn; rewrite He; try done.
  by rewrite V3, andb_false_r.
Qed.

Lemma hinv_register i h : hinv h -> h_servers h !! i = Some AtRegister -> h_draining h = false -> hinv (set_server i AtRun (registerSession i h).1).
Proof.
  intros [V1 V2 V3 V4 V5 V6 V7] Hi Hd. unfold registerSession. rewrite Hd in *. cbn in V3. assert (Hn : i ∉ h_sessions h) by (rewrite (V4 _ _ Hi); done).
  split; cbn; rewrite ?Hd; try done.
  - rewrite size_union, size_singleton by set_solver. lia.
  - intros j z [[-> ->]|[Hne Hz]]%lookup_set; [set_solver|]. rewrite <- (V4 _ _ Hz). set_solver.
  - intros j Hj. rewrite list_lookup_insert. case_decide; [done|]. apply elem_of_union in Hj as [Hj%elem_of_singleton|Hj]; [subst j; by rewrite Hi|by apply V5].
  - intros j Hj. by assert (false = true) by (by eapply V6).
Qed.

Lemma hinv_unregister i h : hinv h -> h_servers h !! i = Some AtUnregister -> hinv (set_server i Ended (unregisterSession i h)).
Proof.
  intros [V1 V2 V3 V4 V5 V6 V7] Hi. unfold unregisterSession. assert (Hin : i ∈ h_sessions h) by (by rewrite (V4 _ _ Hi)). rewrite decide_True by done.
  assert (Hne : empty h = false) by (unfold empty; apply bool_decide_eq_false_2; intros Heq; rewrite Heq in Hin; by apply not_elem_of_empty in Hin). rewrite Hne, andb_false_r in V3.
  assert (Hsz : Z.of_nat (size (h_sessions h ∖ {[ i ]})) = h_sessionWG h - 1).
  { rewrite size_difference, size_singleton by (by apply singleton_subseteq_l).
    assert (size (h_sessions h) <> 0)%nat by (intros Hz; apply size_empty_inv in Hz; by apply (Hz i), not_elem_of_empty in Hin). lia. }
  unfold close_drained. cbn. rewrite V3 in *. destruct (h_draining h) eqn:Hd; cbn [andb]; [case_bool_decide as He|]; split; cbn; rewrite ?V3, ?Hd; try done; try lia.
  all: try (unfold empty; cbn; by rewrite ?bool_decide_eq_true_2, ?bool_decide_eq_false_2 by done).
  all: try (intros j z [[-> ->]|[Hji Hz]]%lookup_set; rewrite elem_of_difference, elem_of_singleton; [split; [tauto|done]|rewrite <- (V4 _ _ Hz); tauto]; fail).
  all: try (intros j [Hj _]%elem_of_difference; rewrite list_lookup_insert; case_decide; [done|by apply V5]; fail).
  all: try (intros j Hj; rewrite (V7 _ Hj) in Hin; by apply not_elem_of_empty in Hin).
Qed.

Lemma hinv_step e h h' : hinv h -> hstep e h = Some h' -> hinv h'.
Proof.
  intros Hv Hs. destruct e as [|i|i| |j|j|j]; cbn in Hs.
  - injection Hs as <-. destruct Hv as [V1 V2 V3 V4 V5 V6 V7]. split; cbn; try done.
    + intros i x [Hi|[-> ->]]%lookup_push; [by apply V4|]. split; [|done]. intros Hin. destruct (V5 _ Hin) as [x Hx]. apply lookup_lt_Some in Hx. lia.
    + intros i Hin. destruct (V5 _ Hin) as [x Hx]. rewrite lookup_app_l by (by eapply lookup_lt_Some). eauto.
  - unfold serve in Hs. destruct (h_servers h !! i) as [[]|] eqn:Hi; try discriminate Hs.
    + injection Hs as <-. eapply hinv_server; [done|done|]. by destruct (h_draining h).
    + unfold registerSession in Hs. destruct (h_draining h) eqn:Hd; injection Hs as <-; [by eapply hinv_server|].
      pose proof (hinv_register i h Hv Hi Hd) as Hr. unfold registerSession in Hr. by rewrite Hd in Hr.
    + injection Hs as <-. by apply hinv_unregister.
  - destruct (h_servers h !! i) as [[]|] eqn:Hi; try discriminate Hs. injection Hs as <-. by eapply hinv_server.
  - injection Hs as <-. destruct Hv as [V1 V2 V3 V4 V5 V6 V7]. split; cbn; try done.
    + intros j x [Hj|[-> ->]]%lookup_push; [by eapply V6|done].
    + intros j [Hj|[_ ?]]%lookup_push; [by eapply V7|done].
  - unfold Shutdown, snapshotSessions in Hs. destruct (h_callers h !! j) as [x|] eqn:Hj; [|discriminate Hs].
    assert (Hd : x <> AtDrain -> h_draining h = true) by (by apply (v_callers _ Hv j)).
    destruct x as [| |[|n]|]; try discriminate Hs.
    + injection Hs as <-. apply hinv_caller; [by apply hinv_drain| |done]. intros _. unfold BeginDrain, close_drained. by repeat case_match.
    + destruct (elements (h_sessions h)) eqn:He; injection Hs as <-; (apply hinv_caller; [done|auto|try done]). intros _. by apply elements_empty_inv, leibniz_equiv in He.
    + destruct (h_sessionWG h =? 0) eqn:Hw; [|done]. injection Hs as <-. apply hinv_caller; [done|auto|]. intros _. apply leibniz_equiv, size_empty_inv.
      rewrite (v_wg _ Hv) in Hw. lia.
  - destruct (h_callers h !! j) as [[| |[|n]|]|] eqn:Hj; try discriminate Hs. injection Hs as <-. apply hinv_caller; [done| |done]. intros _. by eapply (v_callers _ Hv j).
  - destruct (h_callers h !! j) as [[]|] eqn:Hj; try discriminate Hs. injection Hs as <-. apply hinv_caller; [done| |done]. intros _. by eapply (v_callers _ Hv j).
Qed.

Lemma hinv_handled h : handled h -> hinv h.
Proof. induction 1 as [|h e h' _ IH Hs]; [apply hinv_new|by eapply hinv_step]. Qed.

(** Once draining, no session is added. *)
Lemma draining_step e h h' : h_draining h = true -> hstep e h = Some h' -> h_draining h' = true /\ h_sessions h' ⊆ h_sessions h /\ h_sessionWG h' <= h_sessionWG h.
Proof.
  intros Hd Hs. destruct e as [|i|i| |j|j|j]; cbn in Hs; unfold serve, Shutdown in Hs; repeat case_match; simplify_eq; cbn; try done.
  all: try (unfold registerSession in *; rewrite Hd in *; simplify_eq; cbn; done).
  - unfold unregisterSession, close_drained. cbn. rewrite Hd. repeat case_match; cbn; split_and!; try done; try set_solver; lia.
  - unfold BeginDrain, close_drained. repeat case_match; done.
Qed.

(** C29: draining and shutdown of the handler, in every interleaving: [sessionWG] is the number
    of registered sessions, which are those whose goroutine has not unregistered them;
    [drainedCh] is closed exactly once, when the handler drains and no session is left;
    from then on none is registered, so that the WaitGroup that [Shutdown] waits for is
    never added to; when [Shutdown] returned without an error no session runs. *)
Theorem handler_drains h : handled h ->
  h_sessionWG h = Z.of_nat (size (h_sessions h)) /\
  (forall i x, h_servers h !! i = Some x -> (i ∈ h_sessions h <-> serving x = true)) /\
  h_drainedCh h = (if h_draining h && empty h then 1 else 0) /\
  (h_draining h = true -> forall e h', hstep e h = Some h' -> h_draining h' = true /\ h_sessions h' ⊆ h_sessions h /\ h_sessionWG h' <= h_sessionWG h) /\
  (forall j, h_callers h !! j = Some (Returned true) -> h_draining h = true /\ forall i x, h_servers h !! i = Some x -> serving x = false).
Proof.
  intros Hh. pose proof (hinv_handled h Hh) as [V1 V2 V3 V4 V5 V6 V7]. split_and!; [done|done| |intros Hd e h'; by apply draining_step|].
  - by rewrite V2, V3.
  - intros j Hj. split; [by eapply V6|]. intros i x Hi. pose proof (V4 _ _ Hi) as H4. rewrite (V7 _ Hj) in H4. destruct (serving x); [set_solver|done].
Qed.

Fixpoint hruns (es : list hevent) (h : Handler) : option Handler :=
  match es with [] => Some h | e :: es => match hstep e h with Some h => hruns es h | None => None end end.

Lemma handled_runs es h h' : handled h -> hruns es h = Some h' -> handled h'.
Proof.
  revert h. induction es as [|e es IH]; intros h Hh; cbn; [by intros [= <-]|]. destruct (hstep e h) eqn:Hs; [|done]. apply IH. by eapply handled_step.
Qed.

(** One session runs while [Shutdown] is called, and a connection comes too late. *)
Definition demo_shutdown : list hevent :=
  [Connection; Serves 0; Serves 0; Connection; Serves 1; ShutdownCalled; Calls 0; Serves 1; Calls 0; RunReturns 0; SessionShut 0; Serves 0; Calls 0].

Lemma handler_drains_witness :
  exists h, hruns demo_shutdown NewWebTTYHandler = Some h /\ h_callers h = [Returned true] /\ h_servers h = [Ended; Refused] /\ h_drainedCh h = 1 /\
    forall i x, h_servers h !! i = Some x -> serving x = false.
Proof.
  destruct (hruns demo_shutdown NewWebTTYHandler) as [h|] eqn:Hh; [|by vm_compute in Hh]. exists h.
  assert (Hc : h_callers h = [Returned true] /\ h_servers h = [Ended; Refused] /\ h_drainedCh h = 1) by (vm_compute in Hh; injection Hh as <-; vm_compute; auto).
  destruct Hc as (H1 & H2 & H3). split_and!; try done.
  refine (proj2 (proj2 (proj2 (proj2 (proj2 (handler_drains h _)))) 0%nat _)).
  - eapply handled_runs; [apply handled_new|exact Hh].
  - by rewrite H1.
Defined.
