(* ===== verification/ControlChannel.v ===== *)
(** * ControlChannel: the control channel and its tunnels ([client.go], [tunnel.go])

    [ctrl] is [controlChannelImpl] together with the objects it shares: the
    tunnels, the listeners, the pending [CreateTunnel] calls and the datagram
    channels live in heaps indexed by addresses (natural numbers), as they are
    reached through pointers.  The goroutines of the channel (read loop,
    heartbeat loop, proxy workers, response loop), the calls of the application
    in progress ([CreateTunnel], [Close], [Accept]) and the cleanup have their
    program point in the state.

    Each definition in the monad [M] is a section run under [c.mu], or a channel
    operation, or the body of a loop between two such points; [step] runs one of
    them.  Outcomes are explicit: [Panic] is a Go panic (write to a nil map, send
    on or close of a closed channel, nil dereference, misuse of the WaitGroup),
    [Stuck] a send that would block for ever, [Disabled] a goroutine that is not
    at this point or that waits. *)

From S2P Require Import Prelude GoStrings Framing Cors TunnelProps Deadline Datagram.

(** What the channel uses and does not define: the header-name test of
    [httpguts], the protobuf timestamp conversion, the build's FIPS profile and
    the transport the client selects for redirected proxy connections. *)
Class Env := {
  env_ValidHeaderFieldName : string -> bool;
  env_AsTime : Z -> Z;
  env_fipsBuild : bool;
  env_selectsQUIC : bool;
}.

(** ** Errors *)

Inductive cc_error :=
| EFIPSUnavailable (feature : string)
| EChannelClosed                          (* control channel is closed *)
| EChannelClosing                         (* control channel is closing *)
| ECreate (e : create_error)
| ECause (cause : nat)                    (* the cause of the caller's context *)
| EWrite                                  (* the transport's write error *)
| ESendOpenTunnelReq (e : cc_error)
| EClosedUnexpectedly
| EEngine (code : Z) (message : string)
| EEmptyEngineError
| EUnexpectedOpenPayload
| ENoTunnelID
| EClosedWhileOpening
| ENoLifecycle
| EDuplicateTunnelID (id : string)
| ERead
| EDeadlineRefresh
| EHandle (e : cc_error)
| EEmptyOpenTunnelRsp
| EEmptyProxyConnReq
| ENoStreamID
| EUnknownTunnel
| ENoTunnelContext
| ERedirectIncomplete
| ERequestQueueFull
| EResponseQueueFull
| EHeartbeatNotNegotiated
| EHeartbeatInvalid
| EDialProxy
| EDatagramProxy
| ETunnelClosing
| EListenerClosed
| EDeliveryQueueFull
| ESendProxyConnRsp (e : cc_error)
| ESendHeartbeat (e : cc_error)
| ESendClose (e : cc_error)
| ECloseTimeout
| ESendCloseTunnel (e : cc_error)
| ETunnelDrainTimeout (id : string)
| ETunnelCloseTimeout (id : string)
| ENotifyClose (e : cc_error)
| EControlClosed (e : cc_error)           (* control channel closed: %w *)
| EControlClosedCleanly                   (* control channel closed *)
| ENetClosed.                             (* net.ErrClosed *)

Inductive panic :=
| NilMapWrite
| NilDereference
| SendOnClosedChannel
| CloseOfClosedChannel
| CloseOfNilChannel
| WaitGroupMisuse.

(** ** Tunnels *)

Record bytestreamTunnel := MkTunnel {
  t_props : TunnelProperties Z;
  t_tunnelID : string;
  t_closedCh : option bool;          (* nil, or whether it is closed *)
  t_proxyDrained : option nat;       (* nil, or the signal *)
  t_proxyPending : Z;
  t_closing : bool;
  t_closed : bool;
  t_err : option cc_error;
  t_conns : chan nat;
  t_ctx : option bool;               (* nil, or whether its own cancel ran *)
  t_cancel : bool;                   (* cancel != nil *)
}.

(** The value handed to the application: the tunnel, or the datagram tunnel over
    it with a QUIC listener or with a listener of framed connections. *)
Inductive tunnelHandle :=
| Bytestream (t : nat)
| DatagramQUIC (t l : nat)
| DatagramFramed (t : nat).

Record openTunnelResult := MkResult {
  r_tunnel : option tunnelHandle;
  r_err : option cc_error;
}.

Record tunnelCleanup := MkTunnelCleanup { tc_cancel : option nat; tc_conns : list nat }.

Inductive queued := QConn (c : nat) | QChannel (a : nat).

Record listener := MkListener {
  l_conns : chan queued;
  l_tunnel : nat;                    (* its context is a child of this tunnel's *)
  l_cancelled : bool;
  l_once : bool;
  l_laddr : net_addr;
}.

(** ** Messages from the engine *)

Record pbError := MkPbError { pe_Code : Z; pe_Message : option (Wrapped string) }.

Inductive openTunnelPayload :=
| PayloadError (e : option pbError)
| PayloadTunnelProperties (p : @PbTunnelProperties Z)
| PayloadOther.

Record OpenTunnelRsp := MkOpenTunnelRsp { or_RequestId : string; or_Payload : openTunnelPayload }.
Record CloseTunnelRsp := MkCloseTunnelRsp { ct_TunnelId : string }.
Record ProxyConnReq := MkProxyConnReq {
  pr_StreamId : string;
  pr_TunnelId : string;
  pr_ProxyEndpoint : option (Wrapped string);
  pr_Secret : option (Wrapped string);
  pr_SourceIp : list byte;
}.
Record Heartbeat := MkHeartbeat { hb_Sequence : Z; hb_Acknowledgement : Z }.

(** A oneof holding a message may hold a nil pointer; one read off the wire never does. *)
Inductive message :=
| MOpenTunnelRsp (rsp : option OpenTunnelRsp)
| MCloseTunnelRsp (rsp : option CloseTunnelRsp)
| MProxyConnReq (req : option ProxyConnReq)
| MDatagramChannelClose (streamID : option string)
| MCloseControlChannelRsp
| MHeartbeat (h : option Heartbeat)
| MOther.

(** ** Tasks, goroutines and calls in progress *)

Inductive dialer := SelectedTransport | DrainingTransport (id : nat).

Record proxyConnectionRequest := MkTask {
  pq_req : ProxyConnReq;
  pq_tunnel : nat;
  pq_endpoint : option string;
  pq_secret : option string;
  pq_transport : option dialer;
  pq_datagramListener : option nat;
  pq_datagramDirect : bool;
}.

Record proxyConnectionResponse := MkResponse {
  ps_streamID : string;
  ps_err : option cc_error;
  ps_tunnel : option nat;
  ps_datagramChannel : option nat;
}.

(** A proxy worker: waiting for a task, processing it, delivering the connection
    (before the test, in the select, after the send), publishing a datagram
    channel (in the control channel's table, then in the transport's registry),
    queueing the response, or gone. *)
Inductive worker :=
| WIdle
| WProcess (task : proxyConnectionRequest)
| WDeliver (task : proxyConnectionRequest) (conn : nat)
| WSelect (task : proxyConnectionRequest) (conn : nat)
| WDelivered (task : proxyConnectionRequest) (conn : nat)
| WPublished (task : proxyConnectionRequest) (ch : nat) (l : option nat)
| WRegistered (task : proxyConnectionRequest) (ch : nat) (l : option nat)
| WRespond (task : proxyConnectionRequest) (ch : option nat) (err : option cc_error)
| WExited.

Inductive responder :=
| PsNotStarted
| PsIdle
| PsWriting (rsp : proxyConnectionResponse)
| PsExiting
| PsExited.

(** What [handleMessage] leaves to run after the lock is released. *)
Record messageCleanup := MkMessageCleanup {
  mc_tunnel : tunnelCleanup;
  mc_listener : option nat;
  mc_channels : list nat;
}.

Inductive reader :=
| RReading
| RCleanup (f : messageCleanup) (closeChannel : bool) (err : option cc_error)
| RBreak (err : option cc_error)
| RExiting
| RExited.

Inductive beater := HNotStarted | HRunning | HWriting | HWaiting | HExiting | HExited.

(** A [CreateTunnel] call; [pendingOpenTunnelReq] is its [respCh]. *)
Inductive callPhase :=
| CSending
| CWaiting
| CLate
| CReporting (e : cc_error) (r : openTunnelResult)     (* about to call onError *)
| CReturned (r : openTunnelResult).

Record call := MkCall {
  ca_requestID : string;
  ca_respCh : chan openTunnelResult;
  ca_phase : callPhase;
}.

(** A [Close] call of the control channel. *)
Inductive closer :=
| KJoin                              (* waits for closedCh only *)
| KSend
| KWait
| KReturned (err : option cc_error).

(** A [Close] call of a tunnel: waiting for the signal of the drained proxies,
    sending (if it is the first), waiting for the answer. *)
Inductive tunnelCloser :=
| TDrain (sig : nat) (send : bool)
| TSend (send : bool)
| TWait
| TReturned (err : option cc_error).

(** An [Accept] call of a tunnel. *)
Inductive accepter :=
| AWait
| AGot (conn : nat)
| AReturned (r : result cc_error nat).

(** Which goroutine runs the cleanup: the read loop, the heartbeat loop, the
    response loop, or a caller. *)
Inductive owner := ByReader | ByBeater | ByResponder | ByCaller.

#[export] Instance owner_eq_dec : EqDecision owner.
Proof. solve_decision. Defined.

Record controlChannelCleanup := MkCleanup {
  cl_err : option cc_error;
  cl_preserveStreams : bool;
  cl_pendingTunnels : list nat;
  cl_tunnels : list nat;
  cl_tunnelCleanup : option tunnelCleanup;     (* of the tunnel just closed *)
  cl_lifecycleCancel : bool;
  cl_datagramTunnels : list nat;
  cl_datagramChannels : list nat;
  cl_proxyTransports : list nat;
  cl_conn : bool;
  cl_owner : owner;
  cl_finishing : bool;                         (* go c.finish() *)
  cl_finished : bool;
}.

(** What happened to a redirected proxy transport when the channel ended. *)
Inductive transportEnd := Detached | TransportClosed.

Record ctrl := MkCtrl {
  cc_heartbeatInterval : Z;
  cc_heartbeatTimeout : Z;
  cc_heartbeatSequence : Z;
  cc_heartbeatAcknowledgement : Z;
  cc_doneCh : chan (option cc_error);
  cc_closedCh : option bool;
  cc_pendingTunnels : option (gmap string nat);
  cc_tunnels : option (gmap string nat);
  cc_proxyTransports : option (gmap string nat);
  cc_proxyRequests : option (chan proxyConnectionRequest);
  cc_proxyResponses : option (chan proxyConnectionResponse);
  cc_proxyWorkerLimit : Z;
  cc_proxyQueueLimit : Z;
  cc_proxyResponseLimit : Z;
  cc_closing : bool;
  cc_closed : bool;
  cc_err : option cc_error;
  cc_datagramProvider : bool;
  cc_datagramTunnels : option (gmap string nat);
  cc_dg : world;                               (* datagramChannels is its [wd_ctrl] *)
  cc_lifecycleCtx : option bool;               (* nil, or whether it is cancelled *)
  cc_lifecycleCancel : bool;
  cc_lifecycleWG : Z;
  (* shared objects *)
  cc_tunnelHeap : gmap nat bytestreamTunnel;
  cc_listenerHeap : gmap nat listener;
  cc_signals : gset nat;                       (* closed [proxyDrained] signals *)
  cc_next : nat;
  cc_closedConns : gset nat;
  cc_transportEnds : gmap nat transportEnd;
  cc_connClosed : bool;
  cc_uuids : gset string;                      (* request identifiers drawn so far *)
  (* goroutines and calls *)
  cc_reader : reader;
  cc_beater : beater;
  cc_workers : list worker;
  cc_responder : responder;
  cc_cleanup : option controlChannelCleanup;
  cc_calls : gmap nat call;
  cc_closers : gmap nat closer;
  cc_tunnelClosers : gmap nat (nat * tunnelCloser);
  cc_accepters : gmap nat (nat * accepter);
  cc_handed : list queued;                     (* packet connections handed to the application *)
  cc_now : Z;
}.

(** ** The monad of critical sections *)

Inductive outcome (A : Type) :=
| Ret (a : A)
| Disabled
| Stuck
| Panic (p : panic).
Arguments Ret {A} _.
Arguments Disabled {A}.
Arguments Stuck {A}.
Arguments Panic {A} _.

Definition M (A : Type) := ctrl -> outcome (A * ctrl).

Definition ret {A} (a : A) : M A := fun s => Ret (a, s).
Definition bind {A B} (m : M A) (k : A -> M B) : M B :=
  fun s => match m s with
           | Ret (a, s') => k a s'
           | Disabled => Disabled
           | Stuck => Stuck
           | Panic p => Panic p
           end.
Definition get : M ctrl := fun s => Ret (s, s).
Definition put (s : ctrl) : M unit := fun _ => Ret (tt, s).
Definition disabled {A} : M A := fun _ => Disabled.
Definition stuck {A} : M A := fun _ => Stuck.
Definition panics {A} (p : panic) : M A := fun _ => Panic p.

Declare Scope ctrl_scope.
Delimit Scope ctrl_scope with ctrl.
Notation "'let!' x ':=' m 'in' k" := (bind m (fun x => k))
  (at level 10, x pattern, m at level 100, k at level 200) : ctrl_scope.
Notation "'do!' m 'in' k" := (bind m (fun _ : unit => k))
  (at level 10, m at level 100, k at level 200) : ctrl_scope.
#[global] Open Scope ctrl_scope.

(** Go maps: a nil map reads as empty, deletes nothing and panics on a write. *)
Definition map_get {K} `{Countable K} {V} (m : option (gmap K V)) (k : K) : option V :=
  match m with Some m => m !! k | None => None end.
Definition map_delete {K} `{Countable K} {V} (m : option (gmap K V)) (k : K) : option (gmap K V) :=
  match m with Some m => Some (delete k m) | None => None end.
Definition map_values {K} `{Countable K} {V} (m : option (gmap K V)) : list V :=
  match m with Some m => snd <$> map_to_list m | None => [] end.
Definition map_set {K} `{Countable K} {V} (m : option (gmap K V)) (k : K) (v : V) : M (option (gmap K V)) :=
  match m with Some m => ret (Some (<[k := v]> m)) | None => panics NilMapWrite end.

(** [close(ch)] on a signal. *)
Definition close_signal (c : option bool) : M (option bool) :=
  match c with
  | Some false => ret (Some true)
  | Some true => panics CloseOfClosedChannel
  | None => panics CloseOfNilChannel
  end.

(** Dereference of a shared object. *)
Definition load_tunnel (t : nat) : M bytestreamTunnel :=
  fun s => match cc_tunnelHeap s !! t with Some x => Ret (x, s) | None => Panic NilDereference end.
Definition store_tunnel (t : nat) (x : bytestreamTunnel) : M unit :=
  fun s => Ret (tt, {| s with cc_tunnelHeap := <[t := x]> (cc_tunnelHeap s) |}).
Definition load_call (p : nat) : M call :=
  fun s => match cc_calls s !! p with Some x => Ret (x, s) | None => Panic NilDereference end.
Definition store_call (p : nat) (x : call) : M unit :=
  fun s => Ret (tt, {| s with cc_calls := <[p := x]> (cc_calls s) |}).
Definition load_listener (l : nat) : M listener :=
  fun s => match cc_listenerHeap s !! l with Some x => Ret (x, s) | None => Panic NilDereference end.
Definition store_listener (l : nat) (x : listener) : M unit :=
  fun s => Ret (tt, {| s with cc_listenerHeap := <[l := x]> (cc_listenerHeap s) |}).

(** A fresh address. *)
Definition fresh : M nat := fun s => Ret (cc_next s, {| s with cc_next := S (cc_next s) |}).

(** [conn.Close()] on connections; a second close is harmless. *)
Definition close_conns (cs : list nat) : M unit :=
  fun s => Ret (tt, {| s with cc_closedConns := list_to_set cs ∪ cc_closedConns s |}).

(** [initiateClose] on datagram channels (with its callbacks, see [Datagram.close_channel]). *)
Definition initiate_closes (chs : list nat) : M unit :=
  fun s => Ret (tt, {| s with cc_dg := fold_left (fun w a => close_channel w (cc_now s) a) chs (cc_dg s) |}).

(** Whether a context is done: the tunnel's derives from the lifecycle's. *)
Definition lifecycle_done (s : ctrl) : bool := bool_decide (cc_lifecycleCtx s = Some true).
Definition tunnel_ctx_done (s : ctrl) (t : bytestreamTunnel) : bool :=
  bool_decide (t_ctx t = Some true) || lifecycle_done s.

(** ** Tunnel operations run under the channel's lock ([tunnel.go]) *)

Definition tunnel_ensureClosedSignalLocked (t : bytestreamTunnel) : bytestreamTunnel :=
  match t_closedCh t with
  | None => {| t with t_closedCh := Some false |}
  | Some _ => t
  end.

Definition addProxyResponseLocked (t : nat) : M unit :=
  let! x := load_tunnel t in
  if t_proxyPending x =? 0 then
    let! sig := fresh in
    store_tunnel t {| x with t_proxyDrained := Some sig; t_proxyPending := t_proxyPending x + 1 |}
  else store_tunnel t {| x with t_proxyPending := t_proxyPending x + 1 |}.

(** [close(t.proxyDrained)]. *)
Definition close_drained (sig : option nat) : M unit :=
  match sig with
  | None => panics CloseOfNilChannel
  | Some g => fun s => if bool_decide (g ∈ cc_signals s) then Panic CloseOfClosedChannel
                       else Ret (tt, {| s with cc_signals := {[g]} ∪ cc_signals s |})
  end.

Definition completeProxyResponseLocked (t : nat) : M unit :=
  let! x := load_tunnel t in
  if t_proxyPending x =? 0 then ret tt
  else
    let pending := t_proxyPending x - 1 in
    if pending =? 0 then
      do! close_drained (t_proxyDrained x) in
      store_tunnel t {| x with t_proxyPending := pending; t_proxyDrained := None |}
    else store_tunnel t {| x with t_proxyPending := pending |}.

Definition no_cleanup : tunnelCleanup := MkTunnelCleanup None [].

(** The queue is emptied by non-blocking receives. *)
Definition tunnel_onErrorLocked (t : nat) (err : option cc_error) : M tunnelCleanup :=
  let! x := load_tunnel t in
  if t_closed x then ret no_cleanup
  else
    let y := tunnel_ensureClosedSignalLocked {| x with t_closed := true; t_err := err |} in
    let! sig := close_signal (t_closedCh y) in
    do! store_tunnel t {| y with t_closedCh := sig; t_cancel := false;
                                 t_conns := Chan [] (chan_cap (t_conns y)) (chan_closed (t_conns y)) |} in
    ret (MkTunnelCleanup (if t_cancel y then Some t else None) (chan_buf (t_conns y))).

Definition onCloseLocked (t : nat) : M tunnelCleanup :=
  let! x := load_tunnel t in
  if t_closed x then ret no_cleanup else tunnel_onErrorLocked t None.

Definition acceptErrorLocked (x : bytestreamTunnel) : cc_error :=
  match t_err x with Some e => e | None => ENetClosed end.

(** [tunnelCleanup.run]: cancel the tunnel's context, close the drained connections. *)
Definition tunnelCleanup_run (c : tunnelCleanup) : M unit :=
  do! match tc_cancel c with
      | None => ret tt
      | Some t => let! x := load_tunnel t in store_tunnel t {| x with t_ctx := Some true |}
      end in
  close_conns (tc_conns c).

(** ** Listeners of datagram tunnels *)

(** The listener's context derives from its tunnel's. *)
Definition listener_done (s : ctrl) (l : listener) : bool :=
  l_cancelled l
  || match cc_tunnelHeap s !! l_tunnel l with Some t => tunnel_ctx_done s t | None => false end.

Definition queued_conns (q : list queued) : list nat :=
  omap (fun x => match x with QConn c => Some c | QChannel _ => None end) q.
Definition queued_channels (q : list queued) : list nat :=
  omap (fun x => match x with QConn _ => None | QChannel a => Some a end) q.

Definition listener_Close (l : nat) : M unit :=
  let! x := load_listener l in
  if l_once x then ret tt
  else
    do! store_listener l {| x with l_once := true; l_cancelled := true;
                                   l_conns := Chan [] (chan_cap (l_conns x)) (chan_closed (l_conns x)) |} in
    do! initiate_closes (queued_channels (chan_buf (l_conns x))) in
    close_conns (queued_conns (chan_buf (l_conns x))).

(** ** Handlers of the read loop *)

Section Handlers.
Context `{Env}.

Definition newEngineError (value : option pbError) : cc_error :=
  match value with
  | None => EEmptyEngineError
  | Some e => EEngine (pe_Code e) (match pe_Message e with Some m => Value _ m | None => "" end)
  end.

Definition tunnelAllowsQUICDatagrams (p : TunnelProperties Z) : bool :=
  negb (opt_is (DatagramGuaranteedDelivery p) true).

Definition is_datagram (p : TunnelProperties Z) : bool := opt_is (Type_ p) TunnelTypeDatagram.

Definition failed (e : cc_error) : openTunnelResult := MkResult None (Some e).

Definition openTunnelFromPropertiesLocked (props : TunnelProperties Z) : M openTunnelResult :=
  match ID props with
  | None => ret (failed ENoTunnelID)
  | Some tunnelID =>
      if bool_decide (TrimSpace tunnelID = "") then ret (failed ENoTunnelID)
      else
        let! c := get in
        if cc_closed c || cc_closing c then ret (failed EClosedWhileOpening)
        else match cc_lifecycleCtx c with
        | None => ret (failed ENoLifecycle)
        | Some _ =>
            match map_get (cc_tunnels c) tunnelID with
            | Some _ => ret (failed (EDuplicateTunnelID tunnelID))
            | None =>
                let! t := fresh in
                do! store_tunnel t (MkTunnel props tunnelID (Some false) None 0 false false None
                                             (make_chan 10) (Some false) true) in
                if is_datagram props && cc_datagramProvider c && tunnelAllowsQUICDatagrams props then
                  let! l := fresh in
                  do! store_listener l (MkListener (make_chan 10) t false false
                                                   (Addr_net (MkAddr tunnelID []))) in
                  let! c := get in
                  let! ts := map_set (cc_tunnels c) tunnelID t in
                  let! ls := map_set (cc_datagramTunnels c) tunnelID l in
                  do! put {| c with cc_tunnels := ts; cc_datagramTunnels := ls |} in
                  ret (MkResult (Some (DatagramQUIC t l)) None)
                else
                  let! c := get in
                  let! ts := map_set (cc_tunnels c) tunnelID t in
                  do! put {| c with cc_tunnels := ts |} in
                  if is_datagram props then ret (MkResult (Some (DatagramFramed t)) None)
                  else ret (MkResult (Some (Bytestream t)) None)
            end
        end
  end.

Definition openTunnelResultLocked (payload : openTunnelPayload) : M openTunnelResult :=
  match payload with
  | PayloadError e => ret (failed (newEngineError e))
  | PayloadTunnelProperties p => openTunnelFromPropertiesLocked (toTunnelProperties env_AsTime p)
  | PayloadOther => ret (failed EUnexpectedOpenPayload)
  end.

(** [pending.respCh <- r]: it is sent with the lock held. *)
Definition send_response (p : nat) (r : openTunnelResult) : M unit :=
  let! x := load_call p in
  if chan_closed (ca_respCh x) then panics SendOnClosedChannel
  else match chan_try_send (ca_respCh x) r with
       | None => stuck
       | Some ch => store_call p {| x with ca_respCh := ch |}
       end.

Definition handleOpenTunnelRsp (rsp : option OpenTunnelRsp) : M (option cc_error) :=
  match rsp with
  | None => ret (Some EEmptyOpenTunnelRsp)
  | Some r =>
      let! c := get in
      match map_get (cc_pendingTunnels c) (or_RequestId r) with
      | None => ret None
      | Some p =>
          do! put {| c with cc_pendingTunnels := map_delete (cc_pendingTunnels c) (or_RequestId r) |} in
          let! res := openTunnelResultLocked (or_Payload r) in
          do! send_response p res in
          ret None
      end
  end.

(** The channels of a tunnel leave the table. *)
Definition channel_of_tunnel (w : world) (tunnelID : string) (a : nat) : bool :=
  match wd_heap w !! a with
  | Some ch => match dc_laddr ch with
               | Some la => bool_decide (addr_string la = tunnelID)
               | None => false
               end
  | None => false
  end.

Definition detachDatagramChannelsForTunnelLocked (w : world) (tunnelID : string) : world * list nat :=
  match wd_ctrl w with
  | None => (w, [])
  | Some m =>
      ({| w with wd_ctrl := Some (filter (fun kv => channel_of_tunnel w tunnelID kv.2 = false) m) |},
       snd <$> map_to_list (filter (fun kv => channel_of_tunnel w tunnelID kv.2 = true) m))
  end.

Definition handleCloseTunnelRsp (rsp : option CloseTunnelRsp) : M (option messageCleanup) :=
  match rsp with
  | None => panics NilDereference
  | Some r =>
      let id := ct_TunnelId r in
      let! c := get in
      match map_get (cc_tunnels c) id with
      | None => ret None
      | Some t =>
          do! put {| c with cc_tunnels := map_delete (cc_tunnels c) id |} in
          let! tc := onCloseLocked t in
          let! c := get in
          let l := map_get (cc_datagramTunnels c) id in
          let '(w, channels) := detachDatagramChannelsForTunnelLocked (cc_dg c) id in
          do! put {| c with cc_datagramTunnels := (if is_set l then map_delete (cc_datagramTunnels c) id
                                                   else cc_datagramTunnels c);
                            cc_dg := w |} in
          ret (Some (MkMessageCleanup tc l channels))
      end
  end.

Definition handleDatagramChannelClose (streamID : option string) : M (option messageCleanup) :=
  match streamID with
  | None => ret None
  | Some sid =>
      match datagramChannelIDFromStreamID sid with
      | Err _ => ret None
      | Ok id =>
          let! c := get in
          match map_get (wd_ctrl (cc_dg c)) id with
          | None => ret None
          | Some ch =>
              do! put {| c with cc_dg := {| (cc_dg c) with wd_ctrl := map_delete (wd_ctrl (cc_dg c)) id |} |} in
              ret (Some (MkMessageCleanup no_cleanup None [ch]))
          end
      end
  end.

Definition handleHeartbeat (h : option Heartbeat) : M (option cc_error) :=
  let! c := get in
  if cc_heartbeatTimeout c <=? 0 then ret (Some EHeartbeatNotNegotiated)
  else match h with
       | None => ret (Some EHeartbeatInvalid)
       | Some b =>
           if negb (hb_Sequence b =? 0) || (hb_Acknowledgement b =? 0)
              || (hb_Acknowledgement b <=? cc_heartbeatAcknowledgement c)
              || (hb_Acknowledgement b >? cc_heartbeatSequence c)
           then ret (Some EHeartbeatInvalid)
           else
             do! put {| c with cc_heartbeatAcknowledgement := hb_Acknowledgement b |} in
             ret None
       end.

(** ** Proxy connection requests *)

Definition positive_or (n d : Z) : Z := if n <=? 0 then d else n.

Definition proxyConnectionWorkerLimit : Z := 64.
Definition proxyConnectionQueueLimit : Z := 256.
Definition proxyConnectionResponseQueueLimit : Z := 256.

(** [lifecycleWG.Add(n)]: never from zero, a Wait may be returning then. *)
Definition wg_add (n : Z) : M unit :=
  fun s => if cc_lifecycleWG s <=? 0 then Panic WaitGroupMisuse
           else Ret (tt, {| s with cc_lifecycleWG := cc_lifecycleWG s + n |}).

Definition startProxyRuntimeLocked : M (option cc_error) :=
  let! c := get in
  match cc_proxyRequests c with
  | Some _ => ret None
  | None =>
      match cc_lifecycleCtx c with
      | None => ret (Some ENoLifecycle)
      | Some _ =>
          let workers := positive_or (cc_proxyWorkerLimit c) proxyConnectionWorkerLimit in
          let queue := positive_or (cc_proxyQueueLimit c) proxyConnectionQueueLimit in
          let responses := positive_or (cc_proxyResponseLimit c) proxyConnectionResponseQueueLimit in
          do! put {| c with cc_proxyRequests := Some (make_chan (Z.to_nat queue));
                            cc_proxyResponses := Some (make_chan (Z.to_nat responses)) |} in
          do! wg_add (workers + 1) in
          let! c := get in
          do! put {| c with cc_workers := cc_workers c ++ replicate (Z.to_nat workers) WIdle;
                            cc_responder := PsIdle |} in
          ret None
      end
  end.

(** A non-blocking send of the refusal. *)
Definition rejectProxyConnReqLocked (streamID : string) (tunnel : option nat) (e : cc_error) :
    M (option cc_error) :=
  let! c := get in
  match cc_proxyResponses c with
  | None => ret (Some EResponseQueueFull)
  | Some q =>
      match chan_try_send q (MkResponse streamID (Some e) tunnel None) with
      | None => ret (Some EResponseQueueFull)
      | Some q =>
          do! put {| c with cc_proxyResponses := Some q |} in
          do! match tunnel with Some t => addProxyResponseLocked t | None => ret tt end in
          ret None
      end
  end.

Definition proxyTransportLocked (endpoint : option string) : M (option dialer) :=
  match endpoint with
  | None => ret None
  | Some e =>
      let key := TrimSpace e in
      let! c := get in
      match map_get (cc_proxyTransports c) key with
      | Some d => ret (Some (DrainingTransport d))
      | None =>
          if negb env_selectsQUIC then ret (Some SelectedTransport)
          else
            let m := default ∅ (cc_proxyTransports c) in
            let! d := fresh in
            let! c := get in
            do! put {| c with cc_proxyTransports := Some (<[key := d]> m) |} in
            ret (Some (DrainingTransport d))
      end
  end.

(** A redirection needs an endpoint and a credential. *)
Definition redirect_incomplete (endpoint secret : option string) : bool :=
  match endpoint with
  | None => false
  | Some e => bool_decide (TrimSpace e = "")
              || match secret with None => true | Some x => bool_decide (TrimSpace x = "") end
  end.

Definition handleProxyConnReq (req : option ProxyConnReq) : M (option cc_error) :=
  match req with
  | None => ret (Some EEmptyProxyConnReq)
  | Some r =>
      if bool_decide (TrimSpace (pr_StreamId r) = "") then ret (Some ENoStreamID)
      else
        let! started := startProxyRuntimeLocked in
        match started with
        | Some e => ret (Some e)
        | None =>
            let! c := get in
            match map_get (cc_tunnels c) (pr_TunnelId r) with
            | None => rejectProxyConnReqLocked (pr_StreamId r) None EUnknownTunnel
            | Some t =>
                let! x := load_tunnel t in
                match t_ctx x with
                | None => rejectProxyConnReqLocked (pr_StreamId r) (Some t) ENoTunnelContext
                | Some _ =>
                    let endpoint := ptrFromPbValue (pr_ProxyEndpoint r) in
                    let secret := ptrFromPbValue (pr_Secret r) in
                    if redirect_incomplete endpoint secret
                    then rejectProxyConnReqLocked (pr_StreamId r) (Some t) ERedirectIncomplete
                    else
                      let! transport := proxyTransportLocked endpoint in
                      let! c := get in
                      let direct := negb (is_set endpoint) && cc_datagramProvider c
                                    && is_datagram (t_props x) && tunnelAllowsQUICDatagrams (t_props x) in
                      let task := MkTask r t endpoint secret transport
                                    (map_get (cc_datagramTunnels c) (pr_TunnelId r)) direct in
                      match cc_proxyRequests c with
                      | None => rejectProxyConnReqLocked (pr_StreamId r) (Some t) ERequestQueueFull
                      | Some q =>
                          match chan_try_send q task with
                          | None => rejectProxyConnReqLocked (pr_StreamId r) (Some t) ERequestQueueFull
                          | Some q =>
                              do! put {| c with cc_proxyRequests := Some q |} in
                              do! addProxyResponseLocked t in
                              ret None
                          end
                      end
                end
            end
        end
  end.

(** The answer: whether the loop ends, what to run unlocked, the error. *)
Definition handleMessage (msg : message) : M (bool * option messageCleanup * option cc_error) :=
  let! c := get in
  if cc_closed c then ret (true, None, None)
  else match msg with
       | MOpenTunnelRsp rsp => let! e := handleOpenTunnelRsp rsp in ret (false, None, e)
       | MCloseTunnelRsp rsp => let! f := handleCloseTunnelRsp rsp in ret (false, f, None)
       | MProxyConnReq req => let! e := handleProxyConnReq req in ret (false, None, e)
       | MDatagramChannelClose m => let! f := handleDatagramChannelClose m in ret (false, f, None)
       | MCloseControlChannelRsp => ret (true, None, None)
       | MHeartbeat h => let! e := handleHeartbeat h in ret (false, None, e)
       | MOther => ret (false, None, None)
       end.
End Handlers.

(** ** Ending: [onError], the cleanup and its completion *)

Definition ensureClosedSignalLocked (c : ctrl) : ctrl :=
  match cc_closedCh c with
  | None => {| c with cc_closedCh := Some false |}
  | Some _ => c
  end.

(** Go ranges over the maps in an unspecified order. *)
Definition detachCleanupLocked (err : option cc_error) (o : owner) (c : ctrl) :
    ctrl * option controlChannelCleanup :=
  if cc_closed c then (c, None)
  else
    let c := ensureClosedSignalLocked {| c with cc_closed := true; cc_err := err |} in
    ({| c with cc_pendingTunnels := None; cc_tunnels := None; cc_datagramTunnels := None;
               cc_dg := {| (cc_dg c) with wd_ctrl := None |};
               cc_proxyTransports := None; cc_lifecycleCancel := false |},
     Some (MkCleanup err (is_set err && negb (cc_closing c))
             (map_values (cc_pendingTunnels c)) (map_values (cc_tunnels c)) None
             (cc_lifecycleCancel c)
             (map_values (cc_datagramTunnels c)) (map_values (wd_ctrl (cc_dg c)))
             (map_values (cc_proxyTransports c)) true o false false)).

(** [onError(err)] up to the start of the cleanup, which goroutine [o] then runs. *)
Definition onError (err : option cc_error) (o : owner) : M unit :=
  let! c := get in
  match detachCleanupLocked err o c with
  | (_, None) => ret tt
  | (c, Some cleanup) => put {| c with cc_cleanup := Some cleanup |}
  end.

Definition set_cleanup (cl : controlChannelCleanup) : M unit :=
  fun s => Ret (tt, {| s with cc_cleanup := Some cl |}).

(** [close(p.respCh)]. *)
Definition close_response (p : nat) : M unit :=
  let! x := load_call p in
  if chan_closed (ca_respCh x) then panics CloseOfClosedChannel
  else store_call p {| x with ca_respCh := Chan (chan_buf (ca_respCh x)) (chan_cap (ca_respCh x)) true |}.

(** Streams the application already accepted survive the loss of the control channel. *)
Definition channel_survives (cl : controlChannelCleanup) (s : ctrl) (a : nat) : bool :=
  cl_preserveStreams cl
  && match wd_heap (cc_dg s) !! a with
     | Some ch => dc_registryBacked ch && accepted ch
     | None => false
     end.

(** The next piece of [cleanup.run]: the loops of the body, in order. *)
Definition cleanup_run (cl : controlChannelCleanup) : M unit :=
  match cl_pendingTunnels cl with
  | p :: r => do! close_response p in set_cleanup {| cl with cl_pendingTunnels := r |}
  | [] =>
  match cl_tunnelCleanup cl with
  | Some tc => do! tunnelCleanup_run tc in set_cleanup {| cl with cl_tunnelCleanup := None |}
  | None =>
  match cl_tunnels cl with
  | t :: r =>
      let! tc := tunnel_onErrorLocked t (option_map EControlClosed (cl_err cl)) in
      set_cleanup {| cl with cl_tunnels := r; cl_tunnelCleanup := Some tc |}
  | [] =>
  if cl_lifecycleCancel cl then
    let! c := get in
    do! put {| c with cc_lifecycleCtx := option_map (fun _ => true) (cc_lifecycleCtx c) |} in
    set_cleanup {| cl with cl_lifecycleCancel := false |}
  else
  match cl_datagramTunnels cl with
  | l :: r => do! listener_Close l in set_cleanup {| cl with cl_datagramTunnels := r |}
  | [] =>
  match cl_datagramChannels cl with
  | a :: r =>
      let! c := get in
      do! (if channel_survives cl c a then ret tt else initiate_closes [a]) in
      set_cleanup {| cl with cl_datagramChannels := r |}
  | [] =>
  match cl_proxyTransports cl with
  | d :: r =>
      let! c := get in
      do! put {| c with cc_transportEnds :=
                   <[d := if cl_preserveStreams cl then Detached else TransportClosed]> (cc_transportEnds c) |} in
      set_cleanup {| cl with cl_proxyTransports := r |}
  | [] =>
  if cl_conn cl then
    let! c := get in
    do! put {| c with cc_connClosed := true |} in
    set_cleanup {| cl with cl_conn := false |}
  else if cl_finishing cl then disabled
  else set_cleanup {| cl with cl_finishing := true |}
  end end end end end end.

(** [finish]: after the loops of the channel are gone. *)
Definition cleanup_finish (cl : controlChannelCleanup) : M unit :=
  if negb (cl_finishing cl) || cl_finished cl then disabled
  else
    let! c := get in
    if negb (cc_lifecycleWG c =? 0) then disabled
    else if chan_closed (cc_doneCh c) then panics SendOnClosedChannel
    else match chan_try_send (cc_doneCh c) (cl_err cl) with
         | None => stuck
         | Some d =>
             let! sig := close_signal (cc_closedCh c) in
             do! put {| c with cc_doneCh := Chan (chan_buf d) (chan_cap d) true; cc_closedCh := sig |} in
             set_cleanup {| cl with cl_finished := true |}
         end.

(** [lifecycleWG.Done()]. *)
Definition wg_done : M unit :=
  fun s => if cc_lifecycleWG s <=? 0 then Panic WaitGroupMisuse
           else Ret (tt, {| s with cc_lifecycleWG := cc_lifecycleWG s - 1 |}).

(** A goroutine that called [onError] is still inside [cleanup.run]. *)
Definition running_cleanup (s : ctrl) (o : owner) : bool :=
  match cc_cleanup s with
  | Some cl => bool_decide (cl_owner cl = o) && negb (cl_finishing cl)
  | None => false
  end.

(** ** The read loop *)

(** What a read gives: an error, or a message with the failure (or not) to
    refresh the liveness deadline, which is only armed when negotiated. *)
Inductive readEvent :=
| ReadFailed
| ReadMessage (msg : message) (deadlineFailed : bool).

Definition is_close_rsp (m : message) : bool :=
  match m with MCloseControlChannelRsp => true | _ => false end.

Definition set_reader (r : reader) : M unit := fun s => Ret (tt, {| s with cc_reader := r |}).

Definition read_tail (closeChannel : bool) (err : option cc_error) : M unit :=
  if closeChannel then set_reader (RBreak None)
  else match err with Some e => set_reader (RBreak (Some e)) | None => set_reader RReading end.

Section Loops.
Context `{Env}.

Definition readLoop_iteration (ev : readEvent) : M unit :=
  let! c := get in
  match cc_reader c with
  | RReading =>
      match ev with
      | ReadFailed => set_reader (RBreak (Some ERead))
      | ReadMessage msg deadlineFailed =>
          if cc_closed c then set_reader (RBreak None)
          else if (0 <? cc_heartbeatTimeout c) && deadlineFailed && negb (is_close_rsp msg)
          then set_reader (RBreak (Some EDeadlineRefresh))
          else
            let! r := handleMessage msg in
            let '(closeChannel, cleanup, cause) := r in
            let err := option_map EHandle cause in
            match cleanup with
            | Some f => set_reader (RCleanup f closeChannel err)
            | None => read_tail closeChannel err
            end
      end
  | _ => disabled
  end.

(** The closure returned by the handler, run without the lock. *)
Definition messageCleanup_run (f : messageCleanup) : M unit :=
  do! tunnelCleanup_run (mc_tunnel f) in
  do! match mc_listener f with Some l => listener_Close l | None => ret tt end in
  initiate_closes (mc_channels f).

Definition readLoop_cleanup : M unit :=
  let! c := get in
  match cc_reader c with
  | RCleanup f closeChannel err => do! messageCleanup_run f in read_tail closeChannel err
  | _ => disabled
  end.

Definition readLoop_end : M unit :=
  let! c := get in
  match cc_reader c with
  | RBreak err => do! onError err ByReader in set_reader RExiting
  | RExiting => if running_cleanup c ByReader then disabled
                else do! wg_done in set_reader RExited
  | _ => disabled
  end.

(** ** The heartbeat loop *)

Definition minute : Z := 60000000000.
Definition minLegacyHeartbeatWriteTimeout : Z := minute.
Definition maxHeartbeatTimeout : Z := 15 * minute.

(** The locked part of [sendHeartbeat]: the message and its write timeout. *)
Definition sendHeartbeat (c : ctrl) : ctrl * (Heartbeat * Z) :=
  let c1 := if 0 <? cc_heartbeatTimeout c then
              let n := u64 (cc_heartbeatSequence c + 1) in
              {| c with cc_heartbeatSequence := if n =? 0 then 1 else n |}
            else c in
  let seq := if 0 <? cc_heartbeatTimeout c then cc_heartbeatSequence c1 else 0 in
  let timeout :=
    if cc_heartbeatTimeout c <=? 0 then
      let t := i64 (cc_heartbeatInterval c * 3) in
      let t := if t <? minLegacyHeartbeatWriteTimeout then minLegacyHeartbeatWriteTimeout else t in
      if t >? maxHeartbeatTimeout then maxHeartbeatTimeout else t
    else cc_heartbeatTimeout c in
  (c1, (MkHeartbeat seq 0, timeout)).

Definition set_beater (b : beater) : M unit := fun s => Ret (tt, {| s with cc_beater := b |}).

(** [wrote]: what the write of the heartbeat answers; [tick]: the branch of the
    select that waits for the next one. *)
Definition heartbeatLoop (wrote : result cc_error unit) (tick : bool) : M unit :=
  let! c := get in
  match cc_beater c with
  | HRunning => do! put (fst (sendHeartbeat c)) in set_beater HWriting
  | HWriting => match wrote with
                | Ok _ => set_beater HWaiting
                | Err e => do! onError (Some (ESendHeartbeat e)) ByBeater in set_beater HExiting
                end
  | HWaiting => if tick then set_beater HRunning
                else if lifecycle_done c then set_beater HExiting else disabled
  | HExiting => if running_cleanup c ByBeater then disabled
                else do! wg_done in set_beater HExited
  | _ => disabled
  end.

(** ** Proxy workers *)

Definition set_worker (i : nat) (w : worker) : M unit :=
  fun s => Ret (tt, {| s with cc_workers := <[i := w]> (cc_workers s) |}).

(** The select of [proxyConnectionWorkerLoop]: a task, dropped if the channel
    ended meanwhile. *)
Definition worker_take (i : nat) : M unit :=
  let! c := get in
  match cc_workers c !! i, cc_proxyRequests c with
  | Some WIdle, Some (Chan (task :: r) cap cl) =>
      do! put {| c with cc_proxyRequests := Some (Chan r cap cl) |} in
      if lifecycle_done c then do! wg_done in set_worker i WExited
      else set_worker i (WProcess task)
  | _, _ => disabled
  end.

Definition worker_exit (i : nat) : M unit :=
  let! c := get in
  match cc_workers c !! i with
  | Some WIdle => if lifecycle_done c then do! wg_done in set_worker i WExited else disabled
  | _ => disabled
  end.

(** [handleDatagramProxyConnReq] up to the release of the lock. *)
Definition publish_datagram_channel (i : nat) (task : proxyConnectionRequest) : M unit :=
  let refuse := set_worker i (WRespond task None (Some EDatagramProxy)) in
  let! t := load_tunnel (pq_tunnel task) in
  match t_ctx t with
  | None => refuse
  | Some _ =>
      match datagramChannelIDFromStreamID (pr_StreamId (pq_req task)) with
      | Err _ => refuse
      | Ok id =>
          let! c := get in
          let a := wd_next (cc_dg c) in
          let ch := {| (new_dchannel id (Some (Addr_net (MkAddr (t_tunnelID t) [])))
                         (Some (Addr_net (MkAddr (pr_StreamId (pq_req task)) (pr_SourceIp (pq_req task))))) true)
                       with dc_proxyRspDone := Some false |} in
          let w := {| (cc_dg c) with wd_heap := <[a := ch]> (wd_heap (cc_dg c)); wd_next := S a |} in
          do! put {| c with cc_dg := w |} in
          if cc_closed c then do! initiate_closes [a] in refuse
          else match map_get (wd_ctrl w) id with
               | Some _ => do! initiate_closes [a] in refuse
               | None =>
                   let! m := map_set (wd_ctrl w) id a in
                   let! c := get in
                   do! put {| c with cc_dg := {| (cc_dg c) with wd_ctrl := m |} |} in
                   set_worker i (WPublished task a (map_get (cc_datagramTunnels c) (t_tunnelID t)))
               end
      end
  end.

(** The registration with the transport, then the hand-over to the listener. *)
Definition register_datagram_channel (i : nat) (task : proxyConnectionRequest) (a : nat) (l : option nat) : M unit :=
  let! c := get in
  match wd_heap (cc_dg c) !! a with
  | None => panics NilDereference
  | Some ch =>
      let '(w, registered) := registerDatagramChannel (cc_dg c) (dc_channelID ch) a in
      if registered then do! put {| c with cc_dg := w |} in set_worker i (WRegistered task a l)
      else
        do! put {| c with cc_dg := ctrl_unregister w (dc_channelID ch) a |} in
        do! initiate_closes [a] in
        set_worker i (WRespond task None (Some EDatagramProxy))
  end.

Definition hand_over_datagram_channel (i : nat) (task : proxyConnectionRequest) (a : nat) (l : option nat) : M unit :=
  let refuse := do! initiate_closes [a] in set_worker i (WRespond task None (Some EDatagramProxy)) in
  match l with
  | None => refuse
  | Some l =>
      let! x := load_listener l in
      match chan_try_send (l_conns x) (QChannel a) with
      | None => refuse
      | Some q => do! store_listener l {| x with l_conns := q |} in
                  set_worker i (WRespond task (Some a) None)
      end
  end.

(** [processProxyConnectionRequest]: [dialled] is the answer of [dialProxyConnection]. *)
Definition worker_process (i : nat) (dialled : bool) : M unit :=
  let! c := get in
  match cc_workers c !! i with
  | Some (WProcess task) =>
      if pq_datagramDirect task then publish_datagram_channel i task
      else if dialled then let! conn := fresh in set_worker i (WDeliver task conn)
      else set_worker i (WRespond task None (Some EDialProxy))
  | Some (WPublished task a l) => register_datagram_channel i task a l
  | Some (WRegistered task a l) => hand_over_datagram_channel i task a l
  | _ => disabled
  end.

(** The failure of a delivery closes the connection. *)
Definition refuse_delivery (i : nat) (task : proxyConnectionRequest) (conn : nat) (e : cc_error) : M unit :=
  do! close_conns [conn] in set_worker i (WRespond task None (Some e)).

(** The branch the select of [deliverProxyConnection] or of
    [deliverDatagramProxyConnection] takes. *)
Inductive delivery := DSend | DContextDone | DTunnelClosed | DListenerDone | DTimer.

Definition deliver_select (i : nat) (task : proxyConnectionRequest) (conn : nat) (d : delivery) : M unit :=
  let! c := get in
  let! t := load_tunnel (pq_tunnel task) in
  match d with
  | DSend =>
      match pq_datagramListener task with
      | None =>
          match chan_try_send (t_conns t) conn with
          | None => disabled
          | Some q => do! store_tunnel (pq_tunnel task) {| t with t_conns := q |} in
                      set_worker i (WDelivered task conn)
          end
      | Some l =>
          let! x := load_listener l in
          match chan_try_send (l_conns x) (QConn conn) with
          | None => disabled
          | Some q => do! store_listener l {| x with l_conns := q |} in
                      set_worker i (WDelivered task conn)
          end
      end
  | DContextDone => if tunnel_ctx_done c t then refuse_delivery i task conn ETunnelClosing else disabled
  | DTunnelClosed => if bool_decide (t_closedCh t = Some true) then refuse_delivery i task conn ETunnelClosing
                     else disabled
  | DListenerDone =>
      match pq_datagramListener task with
      | None => disabled
      | Some l => let! x := load_listener l in
                  if listener_done c x then refuse_delivery i task conn EListenerClosed else disabled
      end
  | DTimer => refuse_delivery i task conn EDeliveryQueueFull
  end.

Definition worker_deliver (i : nat) (d : delivery) : M unit :=
  let! c := get in
  match cc_workers c !! i with
  | Some (WDeliver task conn) =>
      let! t := load_tunnel (pq_tunnel task) in
      if t_closing t || t_closed t then refuse_delivery i task conn ETunnelClosing
      else do! store_tunnel (pq_tunnel task) (tunnel_ensureClosedSignalLocked t) in
           set_worker i (WSelect task conn)
  | Some (WSelect task conn) => deliver_select i task conn d
  | Some (WDelivered task conn) =>
      let! t := load_tunnel (pq_tunnel task) in
      let! gone := match pq_datagramListener task with
                   | None => ret (t_closed t)
                   | Some l => let! x := load_listener l in ret (t_closed t || listener_done c x)
                   end in
      if gone : bool then refuse_delivery i task conn ETunnelClosing
      else set_worker i (WRespond task None None)
  | _ => disabled
  end.

(** [queueProxyConnRsp]: blocks while the queue is full, until the channel ends. *)
Definition worker_respond (i : nat) (give_way : bool) : M unit :=
  let! c := get in
  match cc_workers c !! i with
  | Some (WRespond task ch err) =>
      if give_way then
        if lifecycle_done c then do! wg_done in set_worker i WExited else disabled
      else match cc_proxyResponses c with
           | None => disabled
           | Some q =>
               match chan_try_send q (MkResponse (pr_StreamId (pq_req task)) err (Some (pq_tunnel task)) ch) with
               | None => disabled
               | Some q => do! put {| c with cc_proxyResponses := Some q |} in set_worker i WIdle
               end
           end
  | _ => disabled
  end.

(** ** The response loop *)

Definition set_responder (r : responder) : M unit := fun s => Ret (tt, {| s with cc_responder := r |}).

Definition mark_response_written (ch : option nat) : M unit :=
  match ch with
  | None => ret tt
  | Some a => fun s =>
      match wd_heap (cc_dg s) !! a with
      | None => Panic NilDereference
      | Some x => Ret (tt, {| s with cc_dg := {| (cc_dg s) with
                        wd_heap := <[a := markProxyResponseWritten x]> (wd_heap (cc_dg s)) |} |})
      end
  end.

(** [stop]: the select takes the branch of the ended channel. *)
Definition proxyConnectionResponseLoop (wrote : result cc_error unit) (stop : bool) : M unit :=
  let! c := get in
  match cc_responder c with
  | PsIdle =>
      if stop then if lifecycle_done c then set_responder PsExiting else disabled
      else match cc_proxyResponses c with
      | Some (Chan (rsp :: r) cap cl) =>
          do! put {| c with cc_proxyResponses := Some (Chan r cap cl) |} in
          if lifecycle_done c then set_responder PsExiting else set_responder (PsWriting rsp)
      | _ => disabled
      end
  | PsWriting rsp =>
      match wrote with
      | Err e => do! onError (Some (ESendProxyConnRsp e)) ByResponder in set_responder PsExiting
      | Ok _ =>
          do! mark_response_written (ps_datagramChannel rsp) in
          do! match ps_tunnel rsp with Some t => completeProxyResponseLocked t | None => ret tt end in
          set_responder PsIdle
      end
  | PsExiting => if running_cleanup c ByResponder then disabled
                 else do! wg_done in set_responder PsExited
  | _ => disabled
  end.
End Loops.

(** ** Calls of the application *)

(** What [writePbMessageContext] answers: sent; refused before anything was
    written (the context ended first); or a [controlChannelWriteError]. *)
Inductive writeResult := Written | NotStarted (cause : nat) | WriteError (e : cc_error).

Section Calls.
Context `{Env}.

(** [validateFIPSTunnelProperties] ([fips140_policy.go]). *)
Definition validateFIPSTunnelProperties (p : TunnelProperties Z) : option cc_error :=
  if negb env_fipsBuild then None
  else
    let quic := opt_is (Protocol p) ProtocolQUIC in
    let http3 := opt_is (Protocol p) ProtocolHTTP && opt_is (HTTPVersion p) HTTP3 in
    let webtransport := opt_is (Protocol p) ProtocolWebTTY && opt_is (Type_ p) TunnelTypeDatagram in
    if opt_is (Type_ p) TunnelTypeDatagram && negb quic && negb http3 && negb webtransport
    then Some (EFIPSUnavailable "datagram tunnels")
    else if opt_is (Protocol p) ProtocolDTLS then Some (EFIPSUnavailable "DTLS tunnels")
    else if opt_is (Protocol p) ProtocolWebTTY && negb webtransport
    then Some (EFIPSUnavailable "WebTTY transports other than WebTransport")
    else if opt_is (HTTPVersion p) HTTP3 && negb http3
    then Some (EFIPSUnavailable "published HTTP/3 tunnels")
    else None.

(** [CreateTunnel] up to the send of the request; [requestID] is the fresh UUID. *)
Definition create_begin (props : TunnelProperties Z) (requestID : string) : M unit :=
  let returns (e : cc_error) := let! p := fresh in
    store_call p (MkCall requestID (make_chan 1) (CReturned (failed e))) in
  match validateFIPSTunnelProperties props with
  | Some e => returns e
  | None =>
      let! c := get in
      if cc_closed c then returns EChannelClosed
      else if cc_closing c then returns EChannelClosing
      else match normalizeCreateTunnelProperties env_ValidHeaderFieldName props with
           | Err e => returns (ECreate e)
           | Ok _ =>
               let! p := fresh in
               do! store_call p (MkCall requestID (make_chan 1) CSending) in
               let! c := get in
               let! m := map_set (cc_pendingTunnels c) requestID p in
               put {| c with cc_pendingTunnels := m; cc_uuids := {[requestID]} ∪ cc_uuids c |}
           end
  end.

(** [if c.pendingTunnels[requestID] == pending { delete ... }]. *)
Definition withdraw (requestID : string) (p : nat) : M bool :=
  let! c := get in
  if bool_decide (map_get (cc_pendingTunnels c) requestID = Some p)
  then do! put {| c with cc_pendingTunnels := map_delete (cc_pendingTunnels c) requestID |} in ret true
  else ret false.

Definition set_phase (p : nat) (ph : callPhase) : M unit :=
  let! x := load_call p in store_call p {| x with ca_phase := ph |}.

(** The write of the request; [cause] is the cause of the caller's context
    when the write has failed. *)
Definition create_send (p : nat) (w : writeResult) (cause : option nat) : M unit :=
  let! x := load_call p in
  match ca_phase x with
  | CSending =>
      let fail (e : cc_error) (report : bool) :=
        let! _ := withdraw (ca_requestID x) p in
        let failedErr := ESendOpenTunnelReq e in
        let r := failed (match cause with Some n => ECause n | None => failedErr end) in
        set_phase p (if report then CReporting failedErr r else CReturned r) in
      match w with
      | Written => set_phase p CWaiting
      | NotStarted n => fail (ECause n) false
      | WriteError e => fail e true
      end
  | CReporting e r => do! onError (Some e) ByCaller in set_phase p (CReturned r)
  | _ => disabled
  end.

(** [awaitOpenTunnelResult]: a receive ([late] after the context ended), ... *)
Definition tunnelFromOpenResult (r : option openTunnelResult) : openTunnelResult :=
  match r with None => failed EClosedUnexpectedly | Some r => r end.

Definition await_receive (p : nat) : M unit :=
  let! x := load_call p in
  match ca_phase x with
  | CWaiting | CLate =>
      match chan_buf (ca_respCh x) with
      | r :: rest =>
          store_call p {| x with ca_respCh := Chan rest (chan_cap (ca_respCh x)) (chan_closed (ca_respCh x));
                                 ca_phase := CReturned (tunnelFromOpenResult (Some r)) |}
      | [] => if chan_closed (ca_respCh x) then set_phase p (CReturned (tunnelFromOpenResult None))
              else disabled
      end
  | _ => disabled
  end.

(** ... or the end of the caller's context. *)
Definition await_context (p : nat) (cause : nat) : M unit :=
  let! x := load_call p in
  match ca_phase x with
  | CWaiting =>
      let! withdrawn := withdraw (ca_requestID x) p in
      set_phase p (if withdrawn : bool then CReturned (failed (ECause cause)) else CLate)
  | _ => disabled
  end.

(** [controlChannelImpl.Close]. *)
Definition set_closer (k : nat) (p : closer) : M unit :=
  fun s => Ret (tt, {| s with cc_closers := <[k := p]> (cc_closers s) |}).

Definition close_begin : M unit :=
  let! k := fresh in
  let! c := get in
  let c := ensureClosedSignalLocked c in
  if cc_closed c then do! put c in set_closer k KJoin
  else do! put {| c with cc_closing := true |} in
       set_closer k (if cc_closing c then KWait else KSend).

Inductive closeEvent := CloseWritten | CloseWriteFailed (e : cc_error) | CloseSignalled | CloseExpired.

Definition close_next (k : nat) (ev : closeEvent) : M unit :=
  let! c := get in
  let signalled := bool_decide (cc_closedCh c = Some true) in
  match cc_closers c !! k, ev with
  | Some KSend, CloseWritten => set_closer k KWait
  | Some KSend, CloseWriteFailed e => do! onError (Some (ESendClose e)) ByCaller in set_closer k KJoin
  | Some KWait, CloseSignalled => if signalled then set_closer k (KReturned (cc_err c)) else disabled
  | Some KWait, CloseExpired =>
      if signalled then set_closer k (KReturned (cc_err c))
      else do! onError (Some ECloseTimeout) ByCaller in set_closer k KJoin
  | Some KJoin, CloseSignalled => if signalled then set_closer k (KReturned (cc_err c)) else disabled
  | _, _ => disabled
  end.

(** [bytestreamTunnelImpl.Close]. *)
Definition set_tunnelCloser (k t : nat) (p : tunnelCloser) : M unit :=
  fun s => Ret (tt, {| s with cc_tunnelClosers := <[k := (t, p)]> (cc_tunnelClosers s) |}).

Definition tunnel_close_begin (t : nat) : M unit :=
  let! k := fresh in
  let! x := load_tunnel t in
  if t_closed x then set_tunnelCloser k t (TReturned (t_err x))
  else
    let x := tunnel_ensureClosedSignalLocked x in
    let send := negb (t_closing x) in
    do! store_tunnel t {| x with t_closing := true |} in
    set_tunnelCloser k t (match t_proxyDrained x with
                          | Some sig => TDrain sig send
                          | None => if send then TSend true else TWait
                          end).

Definition closeResultAfterControlClosed (c : ctrl) (x : bytestreamTunnel) : option cc_error :=
  if bool_decide (t_closedCh x = Some true) then t_err x
  else match cc_err c with
       | Some e => Some (EControlClosed e)
       | None => Some EControlClosedCleanly
       end.

Inductive tunnelCloseEvent :=
| TcDrained | TcControlClosed | TcTunnelClosed | TcExpired | TcWritten | TcWriteFailed (e : cc_error).

Definition tunnel_close_next (k : nat) (ev : tunnelCloseEvent) : M unit :=
  let! c := get in
  match cc_tunnelClosers c !! k with
  | None => disabled
  | Some (t, ph) =>
      let! x := load_tunnel t in
      let control_closed := bool_decide (cc_closedCh c = Some true) in
      let tunnel_closed := bool_decide (t_closedCh x = Some true) in
      match ph, ev with
      | TDrain sig send, TcDrained =>
          if bool_decide (sig ∈ cc_signals c) then set_tunnelCloser k t (if send then TSend true else TWait)
          else disabled
      | TDrain _ _, TcControlClosed | TWait, TcControlClosed =>
          if control_closed then set_tunnelCloser k t (TReturned (closeResultAfterControlClosed c x)) else disabled
      | TDrain _ _, TcExpired =>
          let e := ETunnelDrainTimeout (t_tunnelID x) in
          do! onError (Some e) ByCaller in set_tunnelCloser k t (TReturned (Some e))
      | TSend _, TcWritten => set_tunnelCloser k t TWait
      | TSend _, TcWriteFailed e =>
          let e := ESendCloseTunnel e in
          do! onError (Some e) ByCaller in set_tunnelCloser k t (TReturned (Some e))
      | TWait, TcTunnelClosed =>
          if tunnel_closed then set_tunnelCloser k t (TReturned (t_err x)) else disabled
      | TWait, TcExpired =>
          if tunnel_closed then set_tunnelCloser k t (TReturned (t_err x))
          else if control_closed then set_tunnelCloser k t (TReturned (closeResultAfterControlClosed c x))
          else
            let e := ETunnelCloseTimeout (t_tunnelID x) in
            do! onError (Some e) ByCaller in set_tunnelCloser k t (TReturned (Some e))
      | _, _ => disabled
      end
  end.

(** [bytestreamTunnelImpl.Accept]. *)
Definition set_accepter (k t : nat) (a : accepter) : M unit :=
  fun s => Ret (tt, {| s with cc_accepters := <[k := (t, a)]> (cc_accepters s) |}).

Definition accept_begin (t : nat) : M unit :=
  let! k := fresh in
  let! x := load_tunnel t in
  if t_closed x then set_accepter k t (AReturned (Err (acceptErrorLocked x)))
  else do! store_tunnel t (tunnel_ensureClosedSignalLocked x) in set_accepter k t AWait.

(** [take]: the select receives a connection rather than the closed signal. *)
Definition accept_next (k : nat) (take : bool) : M unit :=
  let! c := get in
  match cc_accepters c !! k with
  | Some (t, AWait) =>
      let! x := load_tunnel t in
      if take then
        match chan_buf (t_conns x) with
        | conn :: r =>
            do! store_tunnel t {| x with t_conns := Chan r (chan_cap (t_conns x)) (chan_closed (t_conns x)) |} in
            set_accepter k t (AGot conn)
        | [] => disabled
        end
      else if bool_decide (t_closedCh x = Some true)
      then set_accepter k t (AReturned (Err (acceptErrorLocked x))) else disabled
  | Some (t, AGot conn) =>
      let! x := load_tunnel t in
      if t_closed x then do! close_conns [conn] in set_accepter k t (AReturned (Err (acceptErrorLocked x)))
      else set_accepter k t (AReturned (Ok conn))
  | _ => disabled
  end.

(** [quicDatagramListener.Accept]: one round of its loop that receives. *)
Definition listener_accept (l : nat) : M unit :=
  let! x := load_listener l in
  match chan_buf (l_conns x) with
  | [] => disabled
  | q :: r =>
      do! store_listener l {| x with l_conns := Chan r (chan_cap (l_conns x)) (chan_closed (l_conns x)) |} in
      let! c := get in
      let hand := put {| c with cc_handed := q :: cc_handed c |} in
      match q with
      | QConn conn => if listener_done c x then close_conns [conn] else hand
      | QChannel a =>
          match wd_heap (cc_dg c) !! a with
          | None => panics NilDereference
          | Some ch =>
              if listener_done c x then initiate_closes [a]
              else
                let '(ch, first) := accept ch in
                do! put {| c with cc_dg := {| (cc_dg c) with wd_heap := <[a := ch]> (wd_heap (cc_dg c)) |} |} in
                if negb first then initiate_closes [a]
                else if dc_done ch then ret tt
                else let! c := get in put {| c with cc_handed := q :: cc_handed c |}
          end
      end
  end.

(** The notification of a local close of a datagram channel
    ([notifyDatagramChannelClose]); [ev] is an error the write or the wait ends with. *)
Definition notifyDatagramChannelClose (ev : result cc_error unit) : M unit :=
  let! c := get in
  if cc_closed c then ret tt
  else match ev with
       | Ok _ => ret tt
       | Err e => onError (Some (ENotifyClose e)) ByCaller
       end.
End Calls.

(** ** One step of the system *)

(** What the QUIC transport and the application do to datagram channels. *)
Inductive transportEvent :=
| TrConnect (conn : nat)
| TrRoute (data : list byte)
| TrInvalidate (conn : nat)
| TrReadLoopEnd (conn : nat)
| TrClose
| TrCloseChannel (a : nat).

Definition transport_step (ev : transportEvent) : M unit := fun s =>
  let w := cc_dg s in
  let next w' := Ret (tt, {| s with cc_dg := w' |}) in
  match ev with
  | TrConnect conn => match qt_conn (wd_t w) with
                      | None => next {| w with wd_t := {| (wd_t w) with qt_conn := Some conn |} |}
                      | Some _ => Disabled
                      end
  | TrRoute data => next (route w data)
  | TrInvalidate conn => next (fst (invalidateConnection w conn (cc_now s)))
  | TrReadLoopEnd conn => next (closeDatagramChannelsForConn w conn (cc_now s))
  | TrClose => next (transport_Close w (cc_now s))
  | TrCloseChannel a => next (close_channel w (cc_now s) a)
  end.

Inductive action :=
| ACreate (props : TunnelProperties Z) (requestID : string)
| ACreateSend (p : nat) (w : writeResult) (cause : option nat)
| AReceive (p : nat)
| AContext (p : nat) (cause : nat)
| ARead (ev : readEvent)
| AReadCleanup
| AReadEnd
| ABeat (wrote : result cc_error unit) (tick : bool)
| AWorkerTake (i : nat)
| AWorkerExit (i : nat)
| AWorkerProcess (i : nat) (dialled : bool)
| AWorkerDeliver (i : nat) (d : delivery)
| AWorkerRespond (i : nat) (give_way : bool)
| ARespond (wrote : result cc_error unit) (stop : bool)
| AClose
| ACloseNext (k : nat) (ev : closeEvent)
| ATunnelClose (t : nat)
| ATunnelCloseNext (k : nat) (ev : tunnelCloseEvent)
| AAccept (t : nat)
| AAcceptNext (k : nat) (take : bool)
| AListenerAccept (l : nat)
| ACleanup
| AFinish
| ANotify (ev : result cc_error unit)
| ATransport (ev : transportEvent)
| ATime (now : Z).

Definition with_cleanup (k : controlChannelCleanup -> M unit) : M unit :=
  fun s => match cc_cleanup s with Some cl => k cl s | None => Disabled end.

Section Step.
Context `{Env}.

Definition step (a : action) : M unit :=
  match a with
  | ACreate props requestID => create_begin props requestID
  | ACreateSend p w cause => create_send p w cause
  | AReceive p => await_receive p
  | AContext p cause => await_context p cause
  | ARead ev => readLoop_iteration ev
  | AReadCleanup => readLoop_cleanup
  | AReadEnd => readLoop_end
  | ABeat wrote tick => heartbeatLoop wrote tick
  | AWorkerTake i => worker_take i
  | AWorkerExit i => worker_exit i
  | AWorkerProcess i dialled => worker_process i dialled
  | AWorkerDeliver i d => worker_deliver i d
  | AWorkerRespond i give_way => worker_respond i give_way
  | ARespond wrote stop => proxyConnectionResponseLoop wrote stop
  | AClose => close_begin
  | ACloseNext k ev => close_next k ev
  | ATunnelClose t => tunnel_close_begin t
  | ATunnelCloseNext k ev => tunnel_close_next k ev
  | AAccept t => accept_begin t
  | AAcceptNext k take => accept_next k take
  | AListenerAccept l => listener_accept l
  | ACleanup => with_cleanup cleanup_run
  | AFinish => with_cleanup cleanup_finish
  | ANotify ev => notifyDatagramChannelClose ev
  | ATransport ev => transport_step ev
  | ATime now => fun s => Ret (tt, {| s with cc_now := now |})
  end.

(** What holds of the steps of a running program: a message read off the wire
    has a payload, a UUID is drawn once, and calls are made on objects the
    program holds. *)
Definition admissible (s : ctrl) (a : action) : Prop :=
  match a with
  | ACreate _ requestID => requestID ∉ cc_uuids s
  | ARead (ReadMessage (MCloseTunnelRsp None) _) => False
  | ACreateSend p _ _ | AReceive p | AContext p _ => is_Some (cc_calls s !! p)
  | ATunnelClose t | AAccept t => is_Some (cc_tunnelHeap s !! t)
  | AListenerAccept l => is_Some (cc_listenerHeap s !! l)
  | _ => True
  end.

Definition moves (s s' : ctrl) : Prop := exists a, admissible s a /\ step a s = Ret (tt, s').

(** The channel [Connect] returns after the handshake: [beats] when the
    heartbeat loop is started, [provider] when the transport has datagrams. *)
Definition Connected (interval timeout : Z) (beats provider : bool) (workers queue responses : Z) : ctrl :=
  MkCtrl interval timeout 0 0 (make_chan 1) (Some false) (Some ∅) (Some ∅) (Some ∅) None None
    workers queue responses false false None provider
    (if provider then Some ∅ else None)
    {| new_world with wd_ctrl := if provider then Some ∅ else None |}
    (Some false) true (if beats then 2 else 1)
    ∅ ∅ ∅ 0 ∅ ∅ false ∅
    RReading (if beats then HRunning else HNotStarted) [] PsNotStarted None ∅ ∅ ∅ ∅ [] 0.

Definition reachable (s : ctrl) : Prop :=
  exists interval timeout beats provider workers queue responses,
    rtc moves (Connected interval timeout beats provider workers queue responses) s.
End Step.

Fixpoint run `{Env} (acts : list action) (s : ctrl) : outcome ctrl :=
  match acts with
  | [] => Ret s
  | a :: r => match step a s with
              | Ret (_, s') => run r s'
              | Disabled => Disabled
              | Stuck => Stuck
              | Panic p => Panic p
              end
  end.
