(* ===== verification/ControlInv.v ===== *)
(** * ControlInv: the invariant of the control channel

    [inv] holds of a channel that [Connect] returned and is kept by every
    admissible step, none of which panics or blocks for ever ([inv_step]).  It is
    a conjunction of parts, each a predicate of the fields it is about, so that a
    step that does not touch them keeps the part as it is. *)

From S2P Require Import Prelude GoStrings Framing Cors TunnelProps Deadline Datagram ControlChannel.

(** ** Weakest preconditions of critical sections *)

Definition wp {A} (m : M A) (Q : A -> ctrl -> Prop) (s : ctrl) : Prop :=
  match m s with
  | Ret (a, s') => Q a s'
  | Disabled => True
  | Stuck | Panic _ => False
  end.

Lemma wp_bind {A B} (m : M A) (k : A -> M B) Q s :
  wp m (fun a s' => wp (k a) Q s') s -> wp (bind m k) Q s.
Proof. unfold wp, bind. destruct (m s) as [[a s']| | |]; done. Qed.

Lemma wp_mono {A} (m : M A) (P Q : A -> ctrl -> Prop) s :
  wp m P s -> (forall a s', P a s' -> Q a s') -> wp m Q s.
Proof. unfold wp. destruct (m s) as [[a s']| | |]; eauto. Qed.

Lemma wp_seq {A B} (m : M A) (k : A -> M B) (P : A -> ctrl -> Prop) Q s :
  wp m P s -> (forall a s', P a s' -> wp (k a) Q s') -> wp (bind m k) Q s.
Proof. intros H1 H2. apply wp_bind. eauto using wp_mono. Qed.

Lemma wp_if {A} (b : bool) (m1 m2 : M A) Q s :
  (b = true -> wp m1 Q s) -> (b = false -> wp m2 Q s) -> wp (if b then m1 else m2) Q s.
Proof. destruct b; auto. Qed.
Lemma wp_list {A X} (l : list X) (m1 : X -> list X -> M A) (m2 : M A) Q s :
  (forall x r, l = x :: r -> wp (m1 x r) Q s) -> (l = [] -> wp m2 Q s) ->
  wp (match l with x :: r => m1 x r | [] => m2 end) Q s.
Proof. destruct l; auto. Qed.
Lemma wp_option {A X} (o : option X) (m1 : X -> M A) (m2 : M A) Q s :
  (forall x, o = Some x -> wp (m1 x) Q s) -> (o = None -> wp m2 Q s) ->
  wp (match o with Some x => m1 x | None => m2 end) Q s.
Proof. destruct o; auto. Qed.
Lemma wp_get {B} (k : ctrl -> M B) Q s : wp (k s) Q s -> wp (bind get k) Q s.
Proof. done. Qed.
Lemma wp_put {B} (k : unit -> M B) Q s s' : wp (k tt) Q s' -> wp (bind (put s') k) Q s.
Proof. done. Qed.
Lemma wp_fresh {B} (k : nat -> M B) Q s :
  wp (k (cc_next s)) Q {| s with cc_next := S (cc_next s) |} -> wp (bind fresh k) Q s.
Proof. done. Qed.
Lemma wp_load_tunnel {B} t (k : bytestreamTunnel -> M B) Q s :
  is_Some (cc_tunnelHeap s !! t) ->
  (forall x, cc_tunnelHeap s !! t = Some x -> wp (k x) Q s) -> wp (bind (load_tunnel t) k) Q s.
Proof. intros [x Hx] Hk. unfold wp, bind, load_tunnel. rewrite Hx. by apply Hk. Qed.
Lemma wp_load_call {B} p (k : call -> M B) Q s :
  is_Some (cc_calls s !! p) ->
  (forall x, cc_calls s !! p = Some x -> wp (k x) Q s) -> wp (bind (load_call p) k) Q s.
Proof. intros [x Hx] Hk. unfold wp, bind, load_call. rewrite Hx. by apply Hk. Qed.
Lemma wp_load_listener {B} l (k : listener -> M B) Q s :
  is_Some (cc_listenerHeap s !! l) ->
  (forall x, cc_listenerHeap s !! l = Some x -> wp (k x) Q s) -> wp (bind (load_listener l) k) Q s.
Proof. intros [x Hx] Hk. unfold wp, bind, load_listener. rewrite Hx. by apply Hk. Qed.

Lemma wp_store_tunnel {B} t x (k : unit -> M B) Q s :
  wp (k tt) Q {| s with cc_tunnelHeap := <[t := x]> (cc_tunnelHeap s) |} -> wp (bind (store_tunnel t x) k) Q s.
Proof. done. Qed.
Lemma wp_store_listener {B} l x (k : unit -> M B) Q s :
  wp (k tt) Q {| s with cc_listenerHeap := <[l := x]> (cc_listenerHeap s) |} -> wp (bind (store_listener l x) k) Q s.
Proof. done. Qed.
Lemma wp_store_call {B} p x (k : unit -> M B) Q s :
  wp (k tt) Q {| s with cc_calls := <[p := x]> (cc_calls s) |} -> wp (bind (store_call p x) k) Q s.
Proof. done. Qed.

(** Reduce the projections of an updated state. *)
Ltac st := cbn [
    cc_heartbeatInterval cc_heartbeatTimeout cc_heartbeatSequence cc_heartbeatAcknowledgement
    cc_doneCh cc_closedCh cc_pendingTunnels cc_tunnels cc_proxyTransports cc_proxyRequests
    cc_proxyResponses cc_proxyWorkerLimit cc_proxyQueueLimit cc_proxyResponseLimit cc_closing
    cc_closed cc_err cc_datagramProvider cc_datagramTunnels cc_dg cc_lifecycleCtx cc_lifecycleCancel
    cc_lifecycleWG cc_tunnelHeap cc_listenerHeap cc_signals cc_next cc_closedConns cc_transportEnds
    cc_connClosed cc_uuids cc_reader cc_beater cc_workers cc_responder cc_cleanup cc_calls
    cc_closers cc_tunnelClosers cc_accepters cc_handed cc_now].

(** ** Tables and their being nil *)

Record inv_nil (closed provider : bool) (pend tunnels dts : option (gmap string nat))
    (channels : option (gmap channel_id nat)) : Prop := {
  in_closed : closed = true -> pend = None /\ tunnels = None /\ dts = None /\ channels = None;
  in_open : closed = false -> is_Some pend /\ is_Some tunnels /\
            (provider = true -> is_Some dts /\ is_Some channels);
}.

(** ** The end of the channel *)

Definition cleanup_done (cl : controlChannelCleanup) : Prop :=
  cl_pendingTunnels cl = [] /\ cl_tunnels cl = [] /\ cl_tunnelCleanup cl = None /\
  cl_lifecycleCancel cl = false /\ cl_datagramTunnels cl = [] /\ cl_datagramChannels cl = [] /\
  cl_proxyTransports cl = [] /\ cl_conn cl = false.

Record cleanup_ok (cl : controlChannelCleanup) (err : option cc_error) (lctx closedCh : option bool)
    (doneCh : chan (option cc_error)) : Prop := {
  co_err : cl_err cl = err;
  co_ctx : lctx = Some (negb (cl_lifecycleCancel cl));
  co_order : cl_lifecycleCancel cl = false ->
             cl_pendingTunnels cl = [] /\ cl_tunnels cl = [] /\ cl_tunnelCleanup cl = None;
  co_finishing : cl_finishing cl = true -> cleanup_done cl;
  co_finished : cl_finished cl = true -> cl_finishing cl = true;
  co_signal : closedCh = Some (cl_finished cl);
  co_done : doneCh = if cl_finished cl then Chan [err] 1 true else Chan [] 1 false;
}.

Record inv_end (closed : bool) (err : option cc_error) (cleanup : option controlChannelCleanup)
    (lctx : option bool) (lcancel : bool) (closedCh : option bool) (doneCh : chan (option cc_error)) : Prop := {
  ie_open : closed = false ->
            err = None /\ cleanup = None /\ lctx = Some false /\ lcancel = true /\
            closedCh = Some false /\ doneCh = Chan [] 1 false;
  ie_closed : closed = true -> exists cl, cleanup = Some cl /\ cleanup_ok cl err lctx closedCh doneCh;
}.

(** ** The loops and their WaitGroup *)

Definition reader_runs (r : reader) : Z := match r with RExited => 0 | _ => 1 end.
Definition beater_runs (b : beater) : Z := match b with HNotStarted | HExited => 0 | _ => 1 end.
Definition responder_runs (r : responder) : Z := match r with PsNotStarted | PsExited => 0 | _ => 1 end.
Definition worker_runs (w : worker) : Z := match w with WExited => 0 | _ => 1 end.

Definition total {A} (f : A -> Z) (l : list A) : Z := foldr (fun x n => f x + n) 0 l.

Definition is_finished (cleanup : option controlChannelCleanup) : bool :=
  match cleanup with Some cl => cl_finished cl | None => false end.

Record inv_wg (wg : Z) (rd : reader) (bt : beater) (ws : list worker) (rs : responder)
    (reqs : option (chan proxyConnectionRequest)) (rsps : option (chan proxyConnectionResponse))
    (finished : bool) : Prop := {
  iw_count : wg = reader_runs rd + beater_runs bt + responder_runs rs + total worker_runs ws;
  iw_started : match reqs with
               | Some _ => rsps <> None /\ rs <> PsNotStarted
               | None => rsps = None /\ rs = PsNotStarted /\ ws = []
               end;
  iw_finished : finished = true -> wg = 0;
}.

(** ** Pending calls *)

Definition waits (ph : callPhase) : Prop :=
  match ph with CSending | CWaiting | CLate => True | _ => False end.

Record inv_calls (pend : option (gmap string nat)) (calls : gmap nat call) (clp : list nat)
    (uuids : gset string) (next : nat) : Prop := {
  ic_map : forall rid p, map_get pend rid = Some p ->
           rid ∈ uuids /\ exists x, calls !! p = Some x /\ ca_requestID x = rid /\
           ca_respCh x = Chan [] 1 false /\ (ca_phase x = CSending \/ ca_phase x = CWaiting);
  ic_cl : forall p, p ∈ clp -> exists x, calls !! p = Some x /\ ca_respCh x = Chan [] 1 false;
  ic_nodup : NoDup clp;
  ic_live : forall p x, calls !! p = Some x -> waits (ca_phase x) ->
            map_get pend (ca_requestID x) = Some p \/ p ∈ clp \/
            chan_buf (ca_respCh x) <> [] \/ chan_closed (ca_respCh x) = true;
  ic_next : forall p, is_Some (calls !! p) -> (p < next)%nat;
}.

(** ** Tunnels and listeners *)

Record tunnel_ok (tunnels : option (gmap string nat)) (clt : list nat) (t : nat) (x : bytestreamTunnel) : Prop := {
  to_signal : t_closedCh x = Some (t_closed x);
  to_cancel : t_cancel x = negb (t_closed x);
  to_ctx : is_Some (t_ctx x);
  to_id : ID (t_props x) = Some (t_tunnelID x) /\ TrimSpace (t_tunnelID x) <> "";
  to_conns : chan_cap (t_conns x) = 10%nat /\ chan_bounded (t_conns x);
  to_open : t_closed x = false -> map_get tunnels (t_tunnelID x) = Some t \/ t ∈ clt;
}.

Record inv_tunnels (tunnels dts : option (gmap string nat)) (heap : gmap nat bytestreamTunnel)
    (lheap : gmap nat listener) (clt : list nat) (next : nat) : Prop := {
  it_map : forall id t, map_get tunnels id = Some t ->
           exists x, heap !! t = Some x /\ t_tunnelID x = id /\ t_closed x = false;
  it_cl : forall t, t ∈ clt -> is_Some (heap !! t);
  it_obj : forall t x, heap !! t = Some x -> tunnel_ok tunnels clt t x;
  it_dts : forall id l, map_get dts id = Some l -> is_Some (lheap !! l) /\ is_Some (map_get tunnels id);
  it_next : forall t, is_Some (heap !! t) -> (t < next)%nat;
  it_lnext : forall l, is_Some (lheap !! l) -> (l < next)%nat;
}.

(** ** References held by tasks, goroutines and calls *)

Definition worker_task (w : worker) : option proxyConnectionRequest :=
  match w with
  | WProcess k | WDeliver k _ | WSelect k _ | WDelivered k _
  | WPublished k _ _ | WRegistered k _ _ | WRespond k _ _ => Some k
  | WIdle | WExited => None
  end.

(** The datagram channel and the listener a worker holds besides its task. *)
Definition worker_channel (w : worker) : option nat :=
  match w with
  | WPublished _ a _ | WRegistered _ a _ => Some a
  | WRespond _ ch _ => ch
  | _ => None
  end.
Definition worker_listener (w : worker) : option nat :=
  match w with WPublished _ _ l | WRegistered _ _ l => l | _ => None end.

Definition holds (P : nat -> Prop) (o : option nat) : Prop := forall a, o = Some a -> P a.

Section Refs.
(** Whether there is a datagram provider, and which tunnels, listeners and
    datagram channels exist. *)
Context (D : Prop) (T L C : nat -> Prop).

Definition task_ok (k : proxyConnectionRequest) : Prop :=
  T (pq_tunnel k) /\ holds L (pq_datagramListener k) /\ (pq_datagramDirect k = true -> D).

Definition worker_ok (w : worker) : Prop :=
  (forall k, worker_task w = Some k -> task_ok k) /\
  holds C (worker_channel w) /\ holds L (worker_listener w).

Definition rsp_ok (r : proxyConnectionResponse) : Prop :=
  holds T (ps_tunnel r) /\ holds C (ps_datagramChannel r).

Definition chan_all {A} (P : A -> Prop) (q : option (chan A)) : Prop :=
  forall c, q = Some c -> Forall P (chan_buf c).

Record inv_refs (reqs : option (chan proxyConnectionRequest)) (ws : list worker)
    (rsps : option (chan proxyConnectionResponse)) (rs : responder) (rd : reader)
    (cleanup : option controlChannelCleanup)
    (tcs : gmap nat (nat * tunnelCloser)) (acs : gmap nat (nat * accepter)) : Prop := {
  ir_reqs : chan_all task_ok reqs;
  ir_workers : Forall worker_ok ws;
  ir_rsps : chan_all rsp_ok rsps;
  ir_responder : forall r, rs = PsWriting r -> rsp_ok r;
  ir_reader : forall f b e, rd = RCleanup f b e -> holds T (tc_cancel (mc_tunnel f)) /\ holds L (mc_listener f);
  ir_cleanup : forall cl, cleanup = Some cl ->
               (forall tc, cl_tunnelCleanup cl = Some tc -> holds T (tc_cancel tc)) /\
               Forall L (cl_datagramTunnels cl);
  ir_closers : forall k t p, tcs !! k = Some (t, p) -> T t;
  ir_accepters : forall k t p, acs !! k = Some (t, p) -> T t;
}.
End Refs.

(** The channels queued at listeners exist. *)
Definition inv_queues (lheap : gmap nat listener) (C : nat -> Prop) : Prop :=
  forall l x a, lheap !! l = Some x -> QChannel a ∈ chan_buf (l_conns x) -> C a.

(** ** Proxy accounting *)

(** How many entries of a list stand for the tunnel [t]. *)
Definition one (t : nat) (o : option nat) : Z := if bool_decide (o = Some t) then 1 else 0.

Definition task_of (w : worker) : option nat := pq_tunnel <$> worker_task w.
Definition writing_of (r : responder) : option nat :=
  match r with PsWriting rsp => ps_tunnel rsp | _ => None end.

Definition buffer {A} (q : option (chan A)) : list A :=
  match q with Some c => chan_buf c | None => [] end.

(** The requests of [t] that were admitted and not answered yet: queued, with a
    worker, as a queued response, or being written. *)
Definition outstanding (reqs : option (chan proxyConnectionRequest)) (ws : list worker)
    (rsps : option (chan proxyConnectionResponse)) (rs : responder) (t : nat) : Z :=
  total (fun k => one t (Some (pq_tunnel k))) (buffer reqs) + total (fun w => one t (task_of w)) ws
  + total (fun r => one t (ps_tunnel r)) (buffer rsps) + one t (writing_of rs).

Record pending_ok (signals : gset nat) (next : nat) (n : Z) (closed : bool) (x : bytestreamTunnel) : Prop := {
  po_count : n <= t_proxyPending x;
  po_exact : closed = false -> t_proxyPending x = n;
  po_idle : t_proxyPending x = 0 -> t_proxyDrained x = None;
  po_busy : t_proxyPending x <> 0 -> exists g, t_proxyDrained x = Some g /\ (g ∉ signals) /\ (g < next)%nat;
}.

Record inv_proxy (out : nat -> Z) (heap : gmap nat bytestreamTunnel) (signals : gset nat)
    (tcs : gmap nat (nat * tunnelCloser)) (next : nat) (closed : bool) : Prop := {
  ip_obj : forall t x, heap !! t = Some x -> pending_ok signals next (out t) closed x;
  ip_none : forall t, heap !! t = None -> out t = 0;
  ip_inj : forall t1 t2 x1 x2 g, heap !! t1 = Some x1 -> heap !! t2 = Some x2 ->
           t_proxyDrained x1 = Some g -> t_proxyDrained x2 = Some g -> t1 = t2;
  ip_wait : forall k t g b, tcs !! k = Some (t, TDrain g b) ->
            g ∈ signals \/ exists x, heap !! t = Some x /\ t_proxyDrained x = Some g;
  ip_signals : forall g, g ∈ signals -> (g < next)%nat;
}.

(** ** The invariant *)

Definition clp (s : ctrl) : list nat := match cc_cleanup s with Some cl => cl_pendingTunnels cl | None => [] end.
Definition clt (s : ctrl) : list nat := match cc_cleanup s with Some cl => cl_tunnels cl | None => [] end.

Definition has {A} (m : gmap nat A) (a : nat) : Prop := is_Some (m !! a).

Definition outst (s : ctrl) : nat -> Z :=
  outstanding (cc_proxyRequests s) (cc_workers s) (cc_proxyResponses s) (cc_responder s).

Record inv (s : ctrl) : Prop := MkInv {
  i_nil : inv_nil (cc_closed s) (cc_datagramProvider s) (cc_pendingTunnels s) (cc_tunnels s)
            (cc_datagramTunnels s) (wd_ctrl (cc_dg s));
  i_end : inv_end (cc_closed s) (cc_err s) (cc_cleanup s) (cc_lifecycleCtx s) (cc_lifecycleCancel s)
            (cc_closedCh s) (cc_doneCh s);
  i_wg : inv_wg (cc_lifecycleWG s) (cc_reader s) (cc_beater s) (cc_workers s) (cc_responder s)
           (cc_proxyRequests s) (cc_proxyResponses s) (is_finished (cc_cleanup s));
  i_calls : inv_calls (cc_pendingTunnels s) (cc_calls s) (clp s) (cc_uuids s) (cc_next s);
  i_tunnels : inv_tunnels (cc_tunnels s) (cc_datagramTunnels s) (cc_tunnelHeap s) (cc_listenerHeap s)
                (clt s) (cc_next s);
  i_refs : inv_refs (cc_datagramProvider s = true) (has (cc_tunnelHeap s)) (has (cc_listenerHeap s)) (has (wd_heap (cc_dg s)))
             (cc_proxyRequests s) (cc_workers s) (cc_proxyResponses s) (cc_responder s) (cc_reader s)
             (cc_cleanup s) (cc_tunnelClosers s) (cc_accepters s);
  i_queues : inv_queues (cc_listenerHeap s) (has (wd_heap (cc_dg s)));
  i_proxy : inv_proxy (outst s) (cc_tunnelHeap s) (cc_signals s) (cc_tunnelClosers s) (cc_next s) (cc_closed s);
}.

(** ** Keeping the parts *)

Lemma total_nil {A} (f : A -> Z) : total f [] = 0.
Proof. done. Qed.

Lemma total_cons {A} (f : A -> Z) x l : total f (x :: l) = f x + total f l.
Proof. done. Qed.

Lemma total_app {A} (f : A -> Z) l k : total f (l ++ k) = total f l + total f k.
Proof. induction l; simpl; [done|]. unfold total in *. simpl. lia. Qed.

Lemma total_insert {A} (f : A -> Z) l i x y :
  l !! i = Some x -> total f (<[i := y]> l) = total f l - f x + f y.
Proof.
  revert i. induction l as [|z l IH]; intros [|i] Hi; simplify_eq/=; [unfold total; simpl; lia|].
  unfold total in *. simpl. rewrite (IH i) by done. lia.
Qed.

Lemma total_nonneg {A} (f : A -> Z) l : (forall x, 0 <= f x) -> 0 <= total f l.
Proof. intros Hf. induction l as [|x l IH]; [done|]. unfold total in *. simpl. specialize (Hf x). lia. Qed.

Lemma one_nonneg t o : 0 <= one t o.
Proof. unfold one. case_bool_decide; lia. Qed.

Lemma total_replicate {A} (f : A -> Z) n x : total f (replicate n x) = Z.of_nat n * f x.
Proof. induction n; [done|]. unfold total in *. simpl. lia. Qed.

Arguments total {A} f l : simpl never.
Arguments one t o : simpl never.

Lemma has_insert {A} (m : gmap nat A) t y a : has m a -> has (<[t := y]> m) a.
Proof. unfold has. destruct (decide (t = a)) as [->|]; [by rewrite lookup_insert_eq|by rewrite lookup_insert_ne]. Qed.

Lemma inv_refs_mono (D : Prop) (T L C T' L' C' : nat -> Prop) reqs ws rsps rs rd cl tcs acs :
  (forall a, T a -> T' a) -> (forall a, L a -> L' a) -> (forall a, C a -> C' a) ->
  inv_refs D T L C reqs ws rsps rs rd cl tcs acs -> inv_refs D T' L' C' reqs ws rsps rs rd cl tcs acs.
Proof.
  intros HT HL HC [H1 H2 H3 H4 H5 H6 H7 H8].
  assert (forall k, task_ok D T L k -> task_ok D T' L' k) by (intros k (? & ? & ?); split_and!; unfold holds in *; eauto).
  assert (forall k, rsp_ok T C k -> rsp_ok T' C' k) by (intros k []; split; unfold holds in *; eauto).
  constructor; eauto.
  - intros c Hc. eapply Forall_impl; [by apply H1|]. eauto.
  - eapply Forall_impl; [done|]. intros w (? & ? & ?). split_and!; unfold holds in *; eauto.
  - intros c Hc. eapply Forall_impl; [by apply H3|]. eauto.
  - intros f b e ->. destruct (H5 f b e eq_refl). split; unfold holds in *; eauto.
  - intros k ->. destruct (H6 k eq_refl) as [Ha Hb]. split.
    + intros tc Htc a Ha'. apply HT. by apply (Ha tc).
    + eapply Forall_impl; [done|]. done.
Qed.

Lemma inv_calls_next pend calls cl uuids n n' :
  (n <= n')%nat -> inv_calls pend calls cl uuids n -> inv_calls pend calls cl uuids n'.
Proof. intros Hn []. constructor; eauto. intros p Hp. specialize (ic_next0 p Hp). lia. Qed.

Lemma inv_tunnels_next ts ds h lh cl n n' :
  (n <= n')%nat -> inv_tunnels ts ds h lh cl n -> inv_tunnels ts ds h lh cl n'.
Proof.
  intros Hn []. constructor; eauto.
  - intros t Ht. specialize (it_next0 t Ht). lia.
  - intros t Ht. specialize (it_lnext0 t Ht). lia.
Qed.

Lemma inv_proxy_next out h sg tcs n n' c :
  (n <= n')%nat -> inv_proxy out h sg tcs n c -> inv_proxy out h sg tcs n' c.
Proof.
  intros Hn []. constructor; eauto.
  - intros t x Hx. destruct (ip_obj0 t x Hx). constructor; eauto.
    intros Hp. destruct (po_busy0 Hp) as (g & ? & ? & ?). exists g. split_and!; [done..|lia].
  - intros g Hg. specialize (ip_signals0 g Hg). lia.
Qed.

(** The same counts give the same accounting. *)
Lemma inv_proxy_out out out' h sg tcs n c :
  (forall t, out' t = out t) -> inv_proxy out h sg tcs n c -> inv_proxy out' h sg tcs n c.
Proof.
  intros Ho []. constructor; eauto; intros; rewrite Ho; eauto.
Qed.

(** A closed channel may lose requests. *)
Lemma inv_proxy_lose out out' h sg tcs n c :
  (forall t, 0 <= out' t <= out t) -> inv_proxy out h sg tcs n c -> inv_proxy out' h sg tcs n true.
Proof.
  intros Ho []. constructor; eauto.
  - intros t x Hx. destruct (ip_obj0 t x Hx). constructor; eauto; [|done]. specialize (Ho t). lia.
  - intros t Ht. specialize (ip_none0 t Ht). specialize (Ho t). lia.
Qed.

Lemma inv_proxy_closed out h sg tcs n c : inv_proxy out h sg tcs n c -> inv_proxy out h sg tcs n true.
Proof.
  intros []. constructor; eauto.
  intros t x Hx. destruct (ip_obj0 t x Hx). by constructor; eauto.
Qed.

(** Updates of a tunnel that keep its identity. *)
Record same_tunnel (x y : bytestreamTunnel) : Prop := {
  st_id : t_tunnelID y = t_tunnelID x;
  st_closed : t_closed y = t_closed x;
}.

Lemma inv_tunnels_update ts ds h lh cl n t x y :
  h !! t = Some x -> same_tunnel x y -> tunnel_ok ts cl t y ->
  inv_tunnels ts ds h lh cl n -> inv_tunnels ts ds (<[t := y]> h) lh cl n.
Proof.
  intros Hx [Hid Hc] Hok []. constructor; eauto.
  - intros id u Hu. destruct (it_map0 id u Hu) as (z & Hz & Hi & Ho).
    destruct (decide (u = t)) as [->|]; [|by rewrite lookup_insert_ne by done; eauto].
    rewrite lookup_insert_eq. simplify_eq. exists y. split_and!; [done|congruence|congruence].
  - intros u Hu. apply (has_insert h). by apply it_cl0.
  - intros u z. destruct (decide (u = t)) as [->|]; [rewrite lookup_insert_eq|rewrite lookup_insert_ne by done; eauto].
    by intros [= <-].
  - intros u. destruct (decide (u = t)) as [->|]; [|rewrite lookup_insert_ne by done; eauto]. eauto.
Qed.

Lemma inv_proxy_update out h sg tcs n c t x y :
  h !! t = Some x -> t_proxyPending y = t_proxyPending x -> t_proxyDrained y = t_proxyDrained x ->
  inv_proxy out h sg tcs n c -> inv_proxy out (<[t := y]> h) sg tcs n c.
Proof.
  intros Hx Hp Hd [].
  assert (Hlook : forall u z, <[t := y]> h !! u = Some z ->
            exists z0, h !! u = Some z0 /\ t_proxyPending z = t_proxyPending z0 /\ t_proxyDrained z = t_proxyDrained z0).
  { intros u z. destruct (decide (u = t)) as [->|]; [rewrite lookup_insert_eq|rewrite lookup_insert_ne by done; eauto].
    intros [= <-]. eauto. }
  constructor.
  - intros u z Hz. destruct (Hlook u z Hz) as (z0 & Hz0 & E1 & E2). destruct (ip_obj0 u z0 Hz0).
    constructor; rewrite ?E1, ?E2; eauto.
  - intros u Hu. apply ip_none0. destruct (decide (u = t)) as [->|]; [by rewrite lookup_insert_eq in Hu|].
    by rewrite lookup_insert_ne in Hu.
  - intros t1 t2 x1 x2 g H1 H2 G1 G2.
    destruct (Hlook _ _ H1) as (? & ? & ? & ?), (Hlook _ _ H2) as (? & ? & ? & ?).
    eapply (ip_inj0 t1 t2 _ _ g); eauto; congruence.
  - intros k u g b Hk. destruct (ip_wait0 k u g b Hk) as [?|(z & Hz & Hg)]; [by left|right].
    destruct (decide (u = t)) as [->|]; [|rewrite lookup_insert_ne by done; eauto].
    rewrite lookup_insert_eq. exists y. split; [done|]. rewrite Hd, <- Hg. congruence.
  - done.
Qed.

(** A new tunnel has no proxies. *)
Lemma inv_proxy_new out h sg tcs n c t y :
  h !! t = None -> t_proxyPending y = 0 -> t_proxyDrained y = None ->
  inv_proxy out h sg tcs n c -> inv_proxy out (<[t := y]> h) sg tcs n c.
Proof.
  intros Ht Hp Hd []. constructor; eauto.
  - intros u z. destruct (decide (u = t)) as [->|]; [rewrite lookup_insert_eq|rewrite lookup_insert_ne by done; eauto].
    intros [= <-]. pose proof (ip_none0 t Ht). constructor; [lia|lia|done|lia].
  - intros u. destruct (decide (u = t)) as [->|]; [by rewrite lookup_insert_eq|].
    rewrite lookup_insert_ne by done. eauto.
  - intros t1 t2 x1 x2 g. destruct (decide (t1 = t)) as [->|], (decide (t2 = t)) as [->|];
      rewrite ?lookup_insert_eq, ?lookup_insert_ne by done; try done; intros H1 H2 G1 G2; simplify_eq/=; eauto; congruence.
  - intros k u g b Hk. destruct (ip_wait0 k u g b Hk) as [?|(z & Hz & Hg)]; [by left|right].
    destruct (decide (u = t)) as [->|]; [congruence|]. rewrite lookup_insert_ne by done. eauto.
Qed.

(** ** Datagram channels: what the transport's operations keep *)

Record dg_keeps (w w' : world) : Prop := {
  dk_heap : forall a, has (wd_heap w) a -> has (wd_heap w') a;
  dk_ctrl : is_Some (wd_ctrl w) <-> is_Some (wd_ctrl w');
}.

Lemma dg_keeps_refl w : dg_keeps w w.
Proof. by constructor. Qed.
Lemma dg_keeps_trans w1 w2 w3 : dg_keeps w1 w2 -> dg_keeps w2 w3 -> dg_keeps w1 w3.
Proof. intros [H1 H2] [H3 H4]. constructor; [eauto|]. by rewrite H2. Qed.

Lemma dg_keeps_unregister w id a : dg_keeps w (ctrl_unregister w id a).
Proof.
  unfold ctrl_unregister. destruct (wd_ctrl w) as [m|] eqn:E; [|apply dg_keeps_refl].
  case_bool_decide; [|apply dg_keeps_refl]. constructor; simpl; [done|]. rewrite E. split; eauto.
Qed.

Lemma dg_keeps_close w now a : dg_keeps w (close_channel w now a).
Proof.
  unfold close_channel. destruct (wd_heap w !! a) as [ch|]; [|apply dg_keeps_refl].
  destruct (dc_once ch); [apply dg_keeps_refl|].
  eapply dg_keeps_trans; [|apply dg_keeps_unregister].
  unfold unregisterDatagramChannel. case_bool_decide; constructor; simpl; eauto using has_insert; done.
Qed.

Lemma dg_keeps_closes now chs w : dg_keeps w (fold_left (fun w a => close_channel w now a) chs w).
Proof.
  revert w. induction chs as [|a chs IH]; intros w; simpl; [apply dg_keeps_refl|].
  eapply dg_keeps_trans; [apply dg_keeps_close|apply IH].
Qed.

Lemma dg_keeps_register w id a : dg_keeps w (fst (registerDatagramChannel w id a)).
Proof.
  unfold registerDatagramChannel. destruct (qt_conn _); [|apply dg_keeps_refl].
  destruct (qt_channels _ !! id); [apply dg_keeps_refl|]. by constructor.
Qed.

Lemma dg_keeps_transport s ev : wp (transport_step ev) (fun _ s' =>
  exists w, s' = {| s with cc_dg := w |} /\ dg_keeps (cc_dg s) w) s.
Proof.
  destruct ev; unfold wp; cbn.
  - destruct (qt_conn _); [done|]. eexists. split; [done|]. by constructor.
  - eexists. split; [done|]. unfold route. destruct (_ <? _)%nat; [apply dg_keeps_refl|].
    destruct (qt_channels _ !! _); [|apply dg_keeps_refl].
    destruct (wd_heap _ !! _); [|apply dg_keeps_refl]. constructor; simpl; eauto using has_insert; done.
  - eexists. split; [done|]. unfold invalidateConnection. destruct (negb _); [apply dg_keeps_refl|]. simpl.
    eapply dg_keeps_trans; [|apply dg_keeps_closes]. by constructor.
  - eexists. split; [done|]. unfold closeDatagramChannelsForConn. destruct (qt_conn _) as [c|].
    + destruct (negb _); [apply dg_keeps_refl|]. simpl. case_bool_decide; simpl;
        (eapply dg_keeps_trans; [|apply dg_keeps_closes]; by constructor).
    + case_bool_decide; simpl; (eapply dg_keeps_trans; [|apply dg_keeps_closes]; by constructor).
  - eexists. split; [done|]. unfold transport_Close. simpl.
    eapply dg_keeps_trans; [|apply dg_keeps_closes]. by constructor.
  - eexists. split; [done|]. apply dg_keeps_close.
Qed.

Lemma is_Some_iff_None {A B} (o : option A) (p : option B) : (is_Some o <-> is_Some p) -> o = None -> p = None.
Proof. intros [_ H] ->. destruct p; [|done]. by destruct (H ltac:(eauto)). Qed.

Lemma inv_nil_dg c pr p t d ch ch' :
  (is_Some ch <-> is_Some ch') -> inv_nil c pr p t d ch -> inv_nil c pr p t d ch'.
Proof.
  intros Hc [H1 H2]. constructor; intros H.
  - destruct (H1 H) as (? & ? & ? & ?). split_and!; eauto using is_Some_iff_None.
  - destruct (H2 H) as (? & ? & Hp). split_and!; [done..|]. rewrite <- Hc. done.
Qed.

Lemma inv_dg s w : dg_keeps (cc_dg s) w -> inv s -> inv {| s with cc_dg := w |}.
Proof.
  intros [Hh Hc] []. constructor; try assumption; cbn.
  - by eapply inv_nil_dg.
  - eapply inv_refs_mono; [..|done]; eauto.
  - intros l x a Hl Ha. apply Hh. by eapply i_queues0.
Qed.

(** ** Keeping the invariant: updates of the state *)

(** Fields the invariant does not read. *)
Ltac inv_frame := intros []; constructor; assumption.

Lemma inv_fresh s : inv s -> inv {| s with cc_next := S (cc_next s) |}.
Proof.
  intros []. constructor; try assumption; cbn.
  - eapply inv_calls_next; [|done]. lia.
  - eapply inv_tunnels_next; [|done]. lia.
  - eapply inv_proxy_next; [|done]. lia.
Qed.

Lemma inv_store_tunnel s t x y :
  inv s -> cc_tunnelHeap s !! t = Some x -> same_tunnel x y -> tunnel_ok (cc_tunnels s) (clt s) t y ->
  t_proxyPending y = t_proxyPending x -> t_proxyDrained y = t_proxyDrained x ->
  inv {| s with cc_tunnelHeap := <[t := y]> (cc_tunnelHeap s) |}.
Proof.
  intros [] Hx Hs Hok Hp Hd. constructor; try assumption; cbn.
  - by eapply inv_tunnels_update.
  - eapply inv_refs_mono; [..|done]; eauto using has_insert.
  - by eapply inv_proxy_update.
Qed.

(** Fields of a tunnel no part but its own reads. *)
Lemma inv_touch_tunnel s t x y :
  inv s -> cc_tunnelHeap s !! t = Some x ->
  t_tunnelID y = t_tunnelID x -> t_closed y = t_closed x -> t_closedCh y = t_closedCh x ->
  t_cancel y = t_cancel x -> is_Some (t_ctx y) -> t_props y = t_props x ->
  chan_cap (t_conns y) = 10%nat -> chan_bounded (t_conns y) ->
  t_proxyPending y = t_proxyPending x -> t_proxyDrained y = t_proxyDrained x ->
  inv {| s with cc_tunnelHeap := <[t := y]> (cc_tunnelHeap s) |}.
Proof.
  intros Hi Hx E1 E2 E3 E4 E5 E6 E7 E8 E9 E10.
  pose proof (it_obj _ _ _ _ _ _ (i_tunnels s Hi) t x Hx) as [].
  eapply inv_store_tunnel; eauto; [by constructor|]. constructor; rewrite ?E1, ?E2, ?E3, ?E4, ?E6; eauto.
Qed.

Lemma inv_store_listener s l x y :
  inv s -> cc_listenerHeap s !! l = Some x ->
  (forall a, QChannel a ∈ chan_buf (l_conns y) -> has (wd_heap (cc_dg s)) a) ->
  inv {| s with cc_listenerHeap := <[l := y]> (cc_listenerHeap s) |}.
Proof.
  intros [] Hx Hq. constructor; try assumption; cbn.
  - destruct i_tunnels0. constructor; eauto.
    + intros id k Hk. destruct (it_dts0 id k Hk). split; [by apply has_insert|done].
    + intros k. destruct (decide (k = l)) as [->|]; [|rewrite lookup_insert_ne by done; eauto]. eauto.
  - eapply inv_refs_mono; [..|done]; eauto using has_insert.
  - intros k z a. destruct (decide (k = l)) as [->|]; [rewrite lookup_insert_eq|rewrite lookup_insert_ne by done; eauto].
    intros [= <-]. apply Hq.
Qed.

Lemma inv_set_reader s r :
  inv s -> reader_runs r = reader_runs (cc_reader s) ->
  (forall f b e, r = RCleanup f b e ->
     holds (has (cc_tunnelHeap s)) (tc_cancel (mc_tunnel f)) /\ holds (has (cc_listenerHeap s)) (mc_listener f)) ->
  inv {| s with cc_reader := r |}.
Proof.
  intros [] Hr Hf. constructor; try assumption; cbn.
  - destruct i_wg0. constructor; try done. by rewrite Hr.
  - destruct i_refs0. by constructor.
Qed.

Lemma inv_set_beater s b : inv s -> beater_runs b = beater_runs (cc_beater s) -> inv {| s with cc_beater := b |}.
Proof.
  intros [] Hr. constructor; try assumption; cbn.
  destruct i_wg0. constructor; try done. by rewrite Hr.
Qed.

Definition responder_started (r : responder) : bool := match r with PsNotStarted => false | _ => true end.

Lemma outst_insert reqs ws rsps rs i w w' t :
  ws !! i = Some w ->
  outstanding reqs (<[i := w']> ws) rsps rs t = outstanding reqs ws rsps rs t - one t (task_of w) + one t (task_of w').
Proof. intros Hi. unfold outstanding. rewrite (total_insert _ _ _ w) by done. lia. Qed.

Lemma one_None t : one t None = 0.
Proof. done. Qed.

Lemma outstanding_nonneg reqs ws rsps rs t : 0 <= outstanding reqs ws rsps rs t.
Proof.
  unfold outstanding.
  pose proof (total_nonneg (fun k => one t (Some (pq_tunnel k))) (buffer reqs) (fun k => one_nonneg t _)).
  pose proof (total_nonneg (fun w => one t (task_of w)) ws (fun k => one_nonneg t _)).
  pose proof (total_nonneg (fun r => one t (ps_tunnel r)) (buffer rsps) (fun k => one_nonneg t _)).
  pose proof (one_nonneg t (writing_of rs)). lia.
Qed.

(** A worker that goes on with the same task. *)
Lemma inv_set_worker s i w w' :
  inv s -> cc_workers s !! i = Some w -> worker_runs w' = worker_runs w -> task_of w' = task_of w ->
  worker_ok (cc_datagramProvider s = true) (has (cc_tunnelHeap s)) (has (cc_listenerHeap s)) (has (wd_heap (cc_dg s))) w' ->
  inv {| s with cc_workers := <[i := w']> (cc_workers s) |}.
Proof.
  intros [] Hi Hr Ht Hok. constructor; try assumption; cbn.
  - destruct i_wg0. constructor; try done.
    + rewrite (total_insert _ _ _ w) by done. lia.
    + destruct (cc_proxyRequests s); [done|]. destruct iw_started0 as (? & ? & E). by rewrite E in Hi.
  - destruct i_refs0. constructor; try done. by apply Forall_insert.
  - eapply inv_proxy_out; [|done]. intros t. unfold outst. cbn. rewrite (outst_insert _ _ _ _ _ w) by done.
    rewrite Ht. lia.
Qed.

Lemma worker_ok_at s i w :
  inv s -> cc_workers s !! i = Some w ->
  worker_ok (cc_datagramProvider s = true) (has (cc_tunnelHeap s)) (has (cc_listenerHeap s)) (has (wd_heap (cc_dg s))) w.
Proof. intros [] Hi. destruct i_refs0. by eapply Forall_lookup_1 in Hi. Qed.

(** A worker with a task, going on with it and holding nothing else. *)
Lemma inv_worker_task s i w w' k :
  inv s -> cc_workers s !! i = Some w -> worker_task w = Some k -> worker_task w' = Some k ->
  holds (has (wd_heap (cc_dg s))) (worker_channel w') -> holds (has (cc_listenerHeap s)) (worker_listener w') ->
  inv {| s with cc_workers := <[i := w']> (cc_workers s) |}.
Proof.
  intros Hi Hw Hk Hk' Hc Hl. pose proof (worker_ok_at s i w Hi Hw) as (Hok & _ & _).
  eapply inv_set_worker; eauto.
  - destruct w, w'; done.
  - unfold task_of. by rewrite Hk, Hk'.
  - split_and!; [|done..]. rewrite Hk'. intros ? [= <-]. by apply Hok.
Qed.

Lemma running_wg s : inv s ->
  (cc_reader s <> RExited -> 0 < cc_lifecycleWG s) /\
  (beater_runs (cc_beater s) = 1 -> 0 < cc_lifecycleWG s) /\
  (responder_runs (cc_responder s) = 1 -> 0 < cc_lifecycleWG s) /\
  (forall i w, cc_workers s !! i = Some w -> worker_runs w = 1 -> 0 < cc_lifecycleWG s).
Proof.
  intros []. destruct i_wg0.
  assert (forall w, 0 <= worker_runs w) as Hw by (intros []; simpl; lia).
  pose proof (total_nonneg worker_runs (cc_workers s) Hw).
  assert (0 <= reader_runs (cc_reader s)) by (destruct (cc_reader s); simpl; lia).
  assert (0 <= beater_runs (cc_beater s)) by (destruct (cc_beater s); simpl; lia).
  assert (0 <= responder_runs (cc_responder s)) by (destruct (cc_responder s); simpl; lia).
  split_and!; try lia.
  - destruct (cc_reader s); simpl in *; try done; lia.
  - intros i w Hi Hr. pose proof (total_insert worker_runs _ _ _ WExited Hi) as E. simpl in E.
    pose proof (total_nonneg worker_runs (<[i := WExited]> (cc_workers s)) Hw). lia.
Qed.

Lemma wp_wg_done {B} (k : unit -> M B) Q s :
  0 < cc_lifecycleWG s -> wp (k tt) Q {| s with cc_lifecycleWG := cc_lifecycleWG s - 1 |} ->
  wp (bind wg_done k) Q s.
Proof. intros H Hk. unfold wp, bind, wg_done. destruct (Z.leb_spec (cc_lifecycleWG s) 0); [lia|]. exact Hk. Qed.

Lemma closed_of_done s : inv s -> lifecycle_done s = true -> cc_closed s = true.
Proof.
  intros [] Hd. apply bool_decide_eq_true in Hd. destruct (cc_closed s) eqn:E; [done|].
  destruct i_end0 as [H _]. destruct (H eq_refl) as (_ & _ & E' & _). congruence.
Qed.

(** A worker that leaves, with or without a task. *)
Lemma inv_worker_exit s i w :
  inv s -> cc_workers s !! i = Some w -> worker_runs w = 1 -> lifecycle_done s = true ->
  inv {| s with cc_lifecycleWG := cc_lifecycleWG s - 1; cc_workers := <[i := WExited]> (cc_workers s) |}.
Proof.
  intros Hi Hw Hr Hd. pose proof (closed_of_done s Hi Hd) as Hcl.
  pose proof (proj2 (proj2 (proj2 (running_wg s Hi))) i w Hw Hr) as Hwg. destruct Hi.
  constructor; try assumption; cbn.
  - destruct i_wg0. constructor.
    + rewrite (total_insert _ _ _ w) by done. rewrite Hr. simpl. lia.
    + destruct (cc_proxyRequests s); [done|]. destruct iw_started0 as (? & ? & E). by rewrite E in Hw.
    + intros Hf. specialize (iw_finished0 Hf). lia.
  - destruct i_refs0. constructor; try done. by apply Forall_insert.
  - rewrite Hcl. eapply inv_proxy_lose; [|done]. intros t. unfold outst. cbn.
    split; [apply outstanding_nonneg|]. rewrite (outst_insert _ _ _ _ _ w) by done.
    cbn. rewrite one_None. pose proof (one_nonneg t (task_of w)). lia.
Qed.

(** ** [onError] *)

Lemma elem_of_map_values {K} `{Countable K} {V} (m : option (gmap K V)) v :
  v ∈ map_values m <-> exists k, map_get m k = Some v.
Proof.
  destruct m as [m|]; simpl; [|split; [by intros ?%elem_of_nil|by intros [? ?]]].
  rewrite list_elem_of_fmap. split.
  - intros ([k x] & -> & Hx%elem_of_map_to_list). eauto.
  - intros [k Hk]. exists (k, v). split; [done|]. by apply elem_of_map_to_list.
Qed.

Lemma NoDup_map_values {K} `{Countable K} {V} (m : option (gmap K V)) :
  (forall k1 k2 v, map_get m k1 = Some v -> map_get m k2 = Some v -> k1 = k2) -> NoDup (map_values m).
Proof.
  intros Hinj. destruct m as [m|]; simpl in *; [|constructor].
  apply NoDup_fmap_2_strong; [|apply NoDup_map_to_list].
  intros [k1 v1] [k2 v2] H1%elem_of_map_to_list H2%elem_of_map_to_list ?. simplify_eq/=.
  f_equal. eauto.
Qed.

(** What [onError] leaves alone. *)
Record aside (s s' : ctrl) : Prop := {
  as_closed : cc_closed s' = true;
  as_reader : cc_reader s' = cc_reader s;
  as_beater : cc_beater s' = cc_beater s;
  as_workers : cc_workers s' = cc_workers s;
  as_responder : cc_responder s' = cc_responder s;
  as_calls : cc_calls s' = cc_calls s;
  as_closers : cc_closers s' = cc_closers s;
  as_tunnels : cc_tunnelHeap s' = cc_tunnelHeap s;
}.

Lemma inv_open_calls s :
  inv s -> cc_closed s = false -> clp s = [] /\ clt s = [] /\ is_finished (cc_cleanup s) = false.
Proof.
  intros [] Hc. destruct i_end0 as [H _]. destruct (H Hc) as (_ & E & _).
  unfold clp, clt. by rewrite E.
Qed.

Lemma inv_detach s err o :
  inv s -> cc_closed s = false ->
  exists s', onError err o s = Ret (tt, s') /\ inv s' /\ aside s s'.
Proof.
  intros Hi Hc. destruct (inv_open_calls s Hi Hc) as (Ep & Et & Ef).
  destruct (ie_open _ _ _ _ _ _ _ (i_end _ Hi) Hc) as (E1 & E2 & E3 & E4 & E5 & E6). destruct Hi. clear i_end0.
  unfold onError, bind, get, detachCleanupLocked, ensureClosedSignalLocked. rewrite Hc. cbn. rewrite E5. cbn.
  eexists. split; [reflexivity|]. split; [|by constructor].
  rewrite Ep in i_calls0. rewrite Et in i_tunnels0.
  constructor; cbn.
  - by constructor.
  - constructor; [done|]. intros _. eexists. split; [done|]. rewrite E4.
    by constructor; cbn.
  - rewrite Ef in i_wg0. destruct i_wg0. by constructor.
  - destruct i_calls0. constructor; try done.
    + intros p [rid Hp]%elem_of_map_values. destruct (ic_map0 _ _ Hp) as (_ & x & ? & _ & ? & _). eauto.
    + apply NoDup_map_values. intros r1 r2 p H1 H2.
      destruct (ic_map0 _ _ H1) as (_ & x1 & ? & <- & _), (ic_map0 _ _ H2) as (_ & x2 & ? & <- & _). congruence.
    + intros p x Hx Hw. destruct (ic_live0 p x Hx Hw) as [Hm|[Hm|?]]; [|by apply elem_of_nil in Hm|eauto].
      right. left. apply elem_of_map_values. eauto.
  - destruct i_tunnels0. constructor; try done.
    + intros t [id Ht]%elem_of_map_values. destruct (it_map0 _ _ Ht) as (x & ? & _). eauto.
    + intros t x Hx. destruct (it_obj0 t x Hx). constructor; try done. intros Ho.
      right. cbn. apply elem_of_map_values. destruct (to_open0 Ho) as [?|Hm]; [eauto|by apply elem_of_nil in Hm].
  - destruct i_refs0. constructor; try done. intros cl [= <-]. cbn. split; [done|].
    apply Forall_forall. intros l [id Hl]%elem_of_map_values. destruct i_tunnels0. by destruct (it_dts0 id l Hl).
  - done.
  - rewrite Hc in i_proxy0. by eapply inv_proxy_closed.
Qed.

Lemma onError_keeps {B} err o (k : unit -> M B) Q s :
  inv s -> (forall s', inv s' -> aside s s' -> wp (k tt) Q s') -> wp (bind (onError err o) k) Q s.
Proof.
  intros Hi Hk. apply wp_bind. destruct (cc_closed s) eqn:Hc.
  - unfold wp at 1, onError, bind, get, detachCleanupLocked. rewrite Hc. cbn. apply Hk; [done|]. by constructor.
  - destruct (inv_detach s err o Hi Hc) as (s' & E & Hs' & Ha). unfold wp at 1. rewrite E. by apply Hk.
Qed.

Lemma wp_onError err o s : inv s -> wp (onError err o) (fun _ => inv) s.
Proof.
  intros Hi. destruct (cc_closed s) eqn:Hc.
  - unfold wp, onError, bind, get, detachCleanupLocked. by rewrite Hc.
  - destruct (inv_detach s err o Hi Hc) as (s' & E & Hs' & Ha). unfold wp. by rewrite E.
Qed.

(** ** Loops that do not touch the tunnels *)

Lemma inv_reader_exit s :
  inv s -> cc_reader s = RExiting ->
  inv {| s with cc_lifecycleWG := cc_lifecycleWG s - 1; cc_reader := RExited |}.
Proof.
  intros Hi Hr. pose proof (proj1 (running_wg s Hi) ltac:(by rewrite Hr)). destruct Hi.
  constructor; try assumption; cbn.
  - destruct i_wg0. rewrite Hr in *. constructor; simpl in *; [lia|done|].
    intros Hf. specialize (iw_finished0 Hf). lia.
  - destruct i_refs0. by constructor.
Qed.

Lemma readLoop_end_ok s : inv s -> wp readLoop_end (fun _ => inv) s.
Proof.
  intros Hi. apply wp_get. destruct (cc_reader s) eqn:Hr; try done.
  - apply onError_keeps; [done|]. intros s' Hi' Ha. apply inv_set_reader; [done| |done].
    by rewrite (as_reader _ _ Ha), Hr.
  - destruct (running_cleanup _ _); [done|].
    apply wp_wg_done; [by apply (proj1 (running_wg s Hi)); rewrite Hr|].
    apply (inv_reader_exit s Hi Hr).
Qed.

Lemma sendHeartbeat_inv s : inv s -> inv (fst (sendHeartbeat s)).
Proof. intros []. unfold sendHeartbeat. destruct (0 <? _); by constructor. Qed.

Lemma heartbeatLoop_ok wrote tick s : inv s -> wp (heartbeatLoop wrote tick) (fun _ => inv) s.
Proof.
  intros Hi. apply wp_get. destruct (cc_beater s) eqn:Hb; try done.
  - apply wp_put, inv_set_beater; [by apply sendHeartbeat_inv|].
    unfold sendHeartbeat. destruct (0 <? _); cbn; by rewrite Hb.
  - destruct wrote as [_|e].
    + apply inv_set_beater; [done|]. by rewrite Hb.
    + apply onError_keeps; [done|]. intros s' Hi' Ha. apply inv_set_beater; [done|].
      by rewrite (as_beater _ _ Ha), Hb.
  - destruct tick; [|destruct (lifecycle_done s); [|done]]; (apply inv_set_beater; [done|]; by rewrite Hb).
  - destruct (running_cleanup _ _); [done|].
    pose proof (proj1 (proj2 (running_wg s Hi)) ltac:(by rewrite Hb)) as Hw.
    apply wp_wg_done; [done|]. unfold wp, set_beater. destruct Hi. constructor; try assumption; cbn.
    destruct i_wg0. rewrite Hb in *. constructor; simpl in *; [lia|done|].
    intros Hf. specialize (iw_finished0 Hf). lia.
Qed.

Lemma worker_exit_ok i s : inv s -> wp (worker_exit i) (fun _ => inv) s.
Proof.
  intros Hi. apply wp_get. destruct (cc_workers s !! i) as [w|] eqn:Hw; [|done].
  destruct w; try done. destruct (lifecycle_done s) eqn:Hd; [|done].
  apply wp_wg_done; [by eapply running_wg|]. by apply (inv_worker_exit s i WIdle).
Qed.

(** ** Proxy accounting *)

Lemma drained_fresh out h sg tcs n c t x g :
  inv_proxy out h sg tcs n c -> h !! t = Some x -> t_proxyDrained x = Some g ->
  t_proxyPending x <> 0 /\ (g ∉ sg) /\ (g < n)%nat.
Proof.
  intros [] Hx Hg. destruct (ip_obj0 t x Hx).
  assert (t_proxyPending x <> 0) by (intros E; specialize (po_idle0 E); congruence).
  destruct (po_busy0 H) as (g' & ? & ? & ?). simplify_eq. done.
Qed.

Lemma inv_proxy_add_busy out out' h sg tcs n c t x :
  inv_proxy out h sg tcs n c -> h !! t = Some x -> t_proxyPending x <> 0 -> 0 <= out t ->
  (forall u, out' u = out u + one u (Some t)) ->
  inv_proxy out' (<[t := {| x with t_proxyPending := t_proxyPending x + 1 |}]> h) sg tcs n c.
Proof.
  intros Hp Hx Hn H0 Ho. pose proof (ip_obj _ _ _ _ _ _ Hp t x Hx) as [].
  assert (out' t = out t + 1) as Et by (rewrite Ho; unfold one; by rewrite bool_decide_eq_true_2).
  assert (forall u, u <> t -> out' u = out u) as Eu.
  { intros u Hu. rewrite Ho. unfold one. rewrite bool_decide_eq_false_2 by congruence. lia. }
  assert (Hlook : forall u z, <[t := {| x with t_proxyPending := t_proxyPending x + 1 |}]> h !! u = Some z ->
            exists z0, h !! u = Some z0 /\ t_proxyDrained z = t_proxyDrained z0).
  { intros u z. destruct (decide (u = t)) as [->|]; [rewrite lookup_insert_eq|rewrite lookup_insert_ne by done; eauto].
    intros [= <-]. eauto. }
  destruct Hp. constructor; eauto.
  - intros u z. destruct (decide (u = t)) as [->|].
    + rewrite lookup_insert_eq. intros [= <-]. constructor; cbn; rewrite ?Et; [lia| |lia|by intros _; apply po_busy0].
      intros Hc. specialize (po_exact0 Hc). lia.
    + rewrite lookup_insert_ne by done. rewrite Eu by done. eauto.
  - intros u. destruct (decide (u = t)) as [->|]; [by rewrite lookup_insert_eq|].
    rewrite lookup_insert_ne by done. rewrite Eu by done. eauto.
  - intros t1 t2 x1 x2 g H1 H2 G1 G2.
    destruct (Hlook _ _ H1) as (? & ? & ?), (Hlook _ _ H2) as (? & ? & ?).
    eapply (ip_inj0 t1 t2 _ _ g); eauto; congruence.
  - intros k u g b Hk. destruct (ip_wait0 k u g b Hk) as [?|(z & Hz & Hg)]; [by left|right].
    destruct (decide (u = t)) as [->|]; [|rewrite lookup_insert_ne by done; eauto].
    rewrite lookup_insert_eq. eexists. split; [done|]. cbn. congruence.
Qed.

Lemma inv_proxy_add_idle out out' h sg tcs n c t x :
  inv_proxy out h sg tcs n c -> h !! t = Some x -> t_proxyPending x = 0 -> 0 <= out t ->
  (forall u, out' u = out u + one u (Some t)) ->
  inv_proxy out' (<[t := {| x with t_proxyDrained := Some n; t_proxyPending := t_proxyPending x + 1 |}]> h)
    sg tcs (S n) c.
Proof.
  intros Hp Hx Hn H0 Ho. pose proof (ip_obj _ _ _ _ _ _ Hp t x Hx) as [].
  assert (out' t = out t + 1) as Et by (rewrite Ho; unfold one; by rewrite bool_decide_eq_true_2).
  assert (forall u, u <> t -> out' u = out u) as Eu.
  { intros u Hu. rewrite Ho. unfold one. rewrite bool_decide_eq_false_2 by congruence. lia. }
  assert (Hlt : forall u z g, h !! u = Some z -> t_proxyDrained z = Some g -> (g < n)%nat).
  { intros u z g Hz Hg. by eapply drained_fresh in Hg as (_ & _ & ?). }
  pose proof (po_idle0 Hn) as Hd. pose proof (ip_signals _ _ _ _ _ _ Hp) as Hsg.
  eapply (inv_proxy_next _ _ _ _ n (S n)) in Hp; [|lia]. destruct Hp. constructor; eauto.
  - intros u z. destruct (decide (u = t)) as [->|].
    + rewrite lookup_insert_eq. intros [= <-]. constructor; cbn; rewrite ?Et; [lia| |lia|].
      * intros Hc. specialize (po_exact0 Hc). lia.
      * intros _. exists n. split_and!; [done| |lia]. intros Hi. specialize (Hsg n Hi). lia.
    + rewrite lookup_insert_ne by done. rewrite Eu by done. eauto.
  - intros u. destruct (decide (u = t)) as [->|]; [by rewrite lookup_insert_eq|].
    rewrite lookup_insert_ne by done. rewrite Eu by done. eauto.
  - intros t1 t2 x1 x2 g. destruct (decide (t1 = t)) as [->|], (decide (t2 = t)) as [->|];
      rewrite ?lookup_insert_eq, ?lookup_insert_ne by done; try done; intros H1 H2 G1 G2; simplify_eq/=.
    + specialize (Hlt _ _ _ H2 G2). lia.
    + specialize (Hlt _ _ _ H1 G1). lia.
    + eauto.
  - intros k u g b Hk. destruct (ip_wait0 k u g b Hk) as [?|(z & Hz & Hg)]; [by left|right].
    destruct (decide (u = t)) as [->|]; [congruence|rewrite lookup_insert_ne by done; eauto].
Qed.

Lemma inv_proxy_complete out out' h sg tcs n c t x :
  inv_proxy out h sg tcs n c -> h !! t = Some x -> t_proxyPending x - 1 <> 0 -> 1 <= out t ->
  (forall u, out' u = out u - one u (Some t)) ->
  inv_proxy out' (<[t := {| x with t_proxyPending := t_proxyPending x - 1 |}]> h) sg tcs n c.
Proof.
  intros Hp Hx Hn H0 Ho. pose proof (ip_obj _ _ _ _ _ _ Hp t x Hx) as [].
  assert (out' t = out t - 1) as Et by (rewrite Ho; unfold one; by rewrite bool_decide_eq_true_2).
  assert (forall u, u <> t -> out' u = out u) as Eu.
  { intros u Hu. rewrite Ho. unfold one. rewrite bool_decide_eq_false_2 by congruence. lia. }
  assert (Hlook : forall u z, <[t := {| x with t_proxyPending := t_proxyPending x - 1 |}]> h !! u = Some z ->
            exists z0, h !! u = Some z0 /\ t_proxyDrained z = t_proxyDrained z0).
  { intros u z. destruct (decide (u = t)) as [->|]; [rewrite lookup_insert_eq|rewrite lookup_insert_ne by done; eauto].
    intros [= <-]. eauto. }
  destruct Hp. constructor; eauto.
  - intros u z. destruct (decide (u = t)) as [->|].
    + rewrite lookup_insert_eq. intros [= <-]. constructor; cbn; rewrite ?Et; [lia| |lia|].
      * intros Hc. specialize (po_exact0 Hc). lia.
      * intros _. apply po_busy0. lia.
    + rewrite lookup_insert_ne by done. rewrite Eu by done. eauto.
  - intros u. destruct (decide (u = t)) as [->|]; [by rewrite lookup_insert_eq|].
    rewrite lookup_insert_ne by done. rewrite Eu by done. eauto.
  - intros t1 t2 x1 x2 g H1 H2 G1 G2.
    destruct (Hlook _ _ H1) as (? & ? & ?), (Hlook _ _ H2) as (? & ? & ?).
    eapply (ip_inj0 t1 t2 _ _ g); eauto; congruence.
  - intros k u g b Hk. destruct (ip_wait0 k u g b Hk) as [?|(z & Hz & Hg)]; [by left|right].
    destruct (decide (u = t)) as [->|]; [|rewrite lookup_insert_ne by done; eauto].
    rewrite lookup_insert_eq. eexists. split; [done|]. cbn. congruence.
Qed.

Lemma inv_proxy_drain out out' h sg tcs n c t x g :
  inv_proxy out h sg tcs n c -> h !! t = Some x -> t_proxyPending x = 1 -> 1 <= out t ->
  (forall u, 0 <= out' u) -> t_proxyDrained x = Some g ->
  (forall u, out' u = out u - one u (Some t)) ->
  inv_proxy out' (<[t := {| x with t_proxyPending := t_proxyPending x - 1; t_proxyDrained := None |}]> h)
    ({[g]} ∪ sg) tcs n c.
Proof.
  intros Hp Hx Hn H0 Hpos Hg Ho. pose proof (ip_obj _ _ _ _ _ _ Hp t x Hx) as [].
  assert (out' t = out t - 1) as Et by (rewrite Ho; unfold one; by rewrite bool_decide_eq_true_2).
  assert (forall u, u <> t -> out' u = out u) as Eu.
  { intros u Hu. rewrite Ho. unfold one. rewrite bool_decide_eq_false_2 by congruence. lia. }
  destruct (drained_fresh _ _ _ _ _ _ _ _ _ Hp Hx Hg) as (_ & Hgs & Hgn).
  destruct Hp. constructor; eauto.
  - intros u z. destruct (decide (u = t)) as [->|].
    + rewrite lookup_insert_eq. intros [= <-]. constructor; cbn; rewrite ?Et; try lia; done.
    + rewrite lookup_insert_ne by done. rewrite Eu by done. intros Hz.
      destruct (ip_obj0 u z Hz) as [P1 P2 P3 P4]. constructor; eauto. intros Hb.
      destruct (P4 Hb) as (g' & E' & ? & ?). exists g'. split_and!; [done| |done].
      intros [->%elem_of_singleton|?]%elem_of_union; [|done]. by destruct (ip_inj0 u t z x g).
  - intros u. destruct (decide (u = t)) as [->|]; [by rewrite lookup_insert_eq|].
    rewrite lookup_insert_ne by done. rewrite Eu by done. eauto.
  - intros t1 t2 x1 x2 g'. destruct (decide (t1 = t)) as [->|], (decide (t2 = t)) as [->|];
      rewrite ?lookup_insert_eq, ?lookup_insert_ne by done; try done; intros H1 H2 G1 G2; simplify_eq/=; eauto.
  - intros k u g' b Hk. destruct (ip_wait0 k u g' b Hk) as [?|(z & Hz & Hg')]; [left; set_solver|].
    destruct (decide (u = t)) as [->|]; [left|right; rewrite lookup_insert_ne by done; eauto].
    simplify_eq. set_solver.
  - intros g' [->%elem_of_singleton|?]%elem_of_union; eauto.
Qed.

(** Admission: an entry for [t] was queued (in [reqs] or [rsps]) and is now counted. *)
Lemma addProxyResponseLocked_ok s t reqs rsps :
  inv s -> has (cc_tunnelHeap s) t -> is_Some reqs -> is_Some rsps -> is_Some (cc_proxyRequests s) ->
  chan_all (task_ok (cc_datagramProvider s = true) (has (cc_tunnelHeap s)) (has (cc_listenerHeap s))) reqs ->
  chan_all (rsp_ok (has (cc_tunnelHeap s)) (has (wd_heap (cc_dg s)))) rsps ->
  (forall u, outstanding reqs (cc_workers s) rsps (cc_responder s) u = outst s u + one u (Some t)) ->
  wp (addProxyResponseLocked t) (fun _ s' => inv s' /\ cc_reader s' = cc_reader s)
     {| s with cc_proxyRequests := reqs; cc_proxyResponses := rsps |}.
Proof.
  intros Hi Ht [q Eq] [r Er] [q0 Eq0] Hq Hr Ho. subst.
  apply wp_load_tunnel; [done|]. cbn. intros x Hx.
  pose proof (it_obj _ _ _ _ _ _ (i_tunnels s Hi) t x Hx) as [].
  pose proof (outstanding_nonneg (cc_proxyRequests s) (cc_workers s) (cc_proxyResponses s) (cc_responder s) t) as H0.
  destruct Hi. destruct i_refs0.
  assert (inv_wg (cc_lifecycleWG s) (cc_reader s) (cc_beater s) (cc_workers s) (cc_responder s)
            (Some q) (Some r) (is_finished (cc_cleanup s))).
  { destruct i_wg0. constructor; try done. rewrite Eq0 in iw_started0. split; [done|]. by destruct iw_started0. }
  assert (inv_refs (cc_datagramProvider s = true) (has (cc_tunnelHeap s)) (has (cc_listenerHeap s)) (has (wd_heap (cc_dg s)))
            (Some q) (cc_workers s) (Some r) (cc_responder s) (cc_reader s)
            (cc_cleanup s) (cc_tunnelClosers s) (cc_accepters s)) as Hrefs by by constructor.
  destruct (Z.eqb_spec (t_proxyPending x) 0) as [Hz|Hz].
  - apply wp_fresh. unfold wp, store_tunnel. split; [|done]. constructor; try assumption; cbn.
    + eapply inv_calls_next; [|done]. lia.
    + eapply inv_tunnels_update; [done|by constructor|by constructor|].
      eapply inv_tunnels_next; [|done]. lia.
    + eapply inv_refs_mono; [..|done]; eauto using has_insert.
    + eapply inv_proxy_add_idle; eauto.
  - unfold wp, store_tunnel. split; [|done]. constructor; try assumption; cbn.
    + eapply inv_tunnels_update; [done|by constructor|by constructor|done].
    + eapply inv_refs_mono; [..|done]; eauto using has_insert.
    + eapply inv_proxy_add_busy; eauto.
Qed.

Lemma wp_close_drained {B} g (k : unit -> M B) Q s :
  g ∉ cc_signals s -> wp (k tt) Q {| s with cc_signals := {[g]} ∪ cc_signals s |} ->
  wp (bind (close_drained (Some g)) k) Q s.
Proof. intros Hg Hk. unfold wp, bind, close_drained. by rewrite bool_decide_eq_false_2. Qed.

(** Completion: the response being written, for [t], is done. *)
Lemma completeProxyResponseLocked_ok s t :
  inv s -> has (cc_tunnelHeap s) t -> writing_of (cc_responder s) = Some t ->
  wp (completeProxyResponseLocked t) (fun _ s' => inv {| s' with cc_responder := PsIdle |}) s.
Proof.
  intros Hi Ht Hw. apply wp_load_tunnel; [done|]. intros x Hx.
  pose proof (it_obj _ _ _ _ _ _ (i_tunnels s Hi) t x Hx) as [].
  assert (Hr : exists rsp, cc_responder s = PsWriting rsp) by (destruct (cc_responder s); try done; eauto).
  destruct Hr as [rsp Hr]. destruct Hi.
  assert (inv_wg (cc_lifecycleWG s) (cc_reader s) (cc_beater s) (cc_workers s) PsIdle
            (cc_proxyRequests s) (cc_proxyResponses s) (is_finished (cc_cleanup s))).
  { destruct i_wg0. rewrite Hr in *. constructor; try done. by destruct (cc_proxyRequests s); destruct_and!. }
  set (out' := outstanding (cc_proxyRequests s) (cc_workers s) (cc_proxyResponses s) PsIdle).
  assert (Ho : forall u, out' u = outst s u - one u (Some t)).
  { intros u. unfold out', outst, outstanding. rewrite Hw. cbn. rewrite one_None. lia. }
  assert (Hp : forall u, 0 <= out' u) by (intros u; apply outstanding_nonneg).
  assert (H1 : 1 <= outst s t).
  { specialize (Ho t). specialize (Hp t). unfold one in Ho. rewrite bool_decide_eq_true_2 in Ho by done. lia. }
  assert (inv_refs (cc_datagramProvider s = true) (has (cc_tunnelHeap s)) (has (cc_listenerHeap s)) (has (wd_heap (cc_dg s)))
            (cc_proxyRequests s) (cc_workers s) (cc_proxyResponses s) PsIdle (cc_reader s)
            (cc_cleanup s) (cc_tunnelClosers s) (cc_accepters s)) as Hrefs by (destruct i_refs0; by constructor).
  pose proof (ip_obj _ _ _ _ _ _ i_proxy0 t x Hx) as [].
  destruct (Z.eqb_spec (t_proxyPending x) 0) as [Hz|Hz]; [lia|]. cbv zeta.
  destruct (Z.eqb_spec (t_proxyPending x - 1) 0) as [Hz1|Hz1].
  - destruct (po_busy0 Hz) as (g & Hg & Hgs & Hgn). rewrite Hg. apply wp_close_drained; [done|].
    unfold wp, store_tunnel. constructor; try assumption; cbn.
    + eapply inv_tunnels_update; [done|by constructor|by constructor|done].
    + eapply inv_refs_mono; [..|done]; eauto using has_insert.
    + eapply inv_proxy_drain; eauto. lia.
  - unfold wp, store_tunnel. constructor; try assumption; cbn.
    + eapply inv_tunnels_update; [done|by constructor|by constructor|done].
    + eapply inv_refs_mono; [..|done]; eauto using has_insert.
    + eapply inv_proxy_complete; eauto.
Qed.

(** ** The response loop *)

Lemma inv_set_responder s r :
  inv s -> responder_runs r = responder_runs (cc_responder s) ->
  responder_started r = responder_started (cc_responder s) ->
  writing_of r = writing_of (cc_responder s) \/ (cc_closed s = true /\ writing_of r = None) ->
  (forall rsp, r = PsWriting rsp -> rsp_ok (has (cc_tunnelHeap s)) (has (wd_heap (cc_dg s))) rsp) ->
  inv {| s with cc_responder := r |}.
Proof.
  intros [] Hr Hst Hw Hok. constructor; try assumption; cbn.
  - destruct i_wg0. constructor; [lia| |done]. by destruct (cc_proxyRequests s), r, (cc_responder s); destruct_and!; try split.
  - destruct i_refs0. by constructor.
  - destruct Hw as [Hw|[Hc Hw]].
    + eapply inv_proxy_out; [|done]. intros t. unfold outst, outstanding. cbn. by rewrite Hw.
    + rewrite Hc in *. eapply inv_proxy_lose; [|done]. intros t. split; [apply outstanding_nonneg|].
      unfold outst, outstanding. cbn. rewrite Hw, one_None.
      pose proof (one_nonneg t (writing_of (cc_responder s))). lia.
Qed.

Lemma mark_response_written_ok {B} ch (k : unit -> M B) Q s :
  inv s -> holds (has (wd_heap (cc_dg s))) ch ->
  (forall w, inv {| s with cc_dg := w |} -> wp (k tt) Q {| s with cc_dg := w |}) ->
  wp (bind (mark_response_written ch) k) Q s.
Proof.
  intros Hi Hch Hk. apply wp_bind. destruct ch as [a|]; cbn.
  - destruct (Hch a eq_refl) as [x Hx]. unfold wp at 1. rewrite Hx. apply Hk. apply inv_dg; [|done].
    constructor; cbn; [eauto using has_insert|done].
  - unfold wp at 1. cbn. specialize (Hk (cc_dg s)). destruct s. by apply Hk.
Qed.

Lemma proxyConnectionResponseLoop_ok wrote stop s :
  inv s -> wp (proxyConnectionResponseLoop wrote stop) (fun _ => inv) s.
Proof.
  intros Hi. apply wp_get. destruct (cc_responder s) as [| |rsp| |] eqn:Hr; try done.
  - destruct stop.
    { destruct (lifecycle_done s) eqn:Hd; [|done]. apply inv_set_responder; rewrite ?Hr; try done. by left. }
    destruct (cc_proxyResponses s) as [[[|rsp r] cap cl]|] eqn:Hq; try done. apply wp_put.
    assert (Hi' := Hi). destruct Hi'. destruct i_refs0. pose proof (ir_rsps0 _ Hq) as Hf. cbn in Hf.
    apply Forall_cons in Hf as [Hrsp Hrest].
    assert (chan_all (rsp_ok (has (cc_tunnelHeap s)) (has (wd_heap (cc_dg s)))) (Some (Chan r cap cl))).
    { intros c [= <-]. done. }
    assert (Hwg : forall rs, responder_runs rs = 1 -> responder_started rs = true ->
      inv_wg (cc_lifecycleWG s) (cc_reader s) (cc_beater s) (cc_workers s) rs
            (cc_proxyRequests s) (Some (Chan r cap cl)) (is_finished (cc_cleanup s))).
    { intros rs H1 H2. destruct i_wg0. rewrite Hr in *. constructor; [rewrite H1; done| |done].
      destruct (cc_proxyRequests s); [split; [done|by destruct rs]|]. rewrite Hq in *. by destruct_and!. }
    destruct (lifecycle_done s) eqn:Hd; unfold wp, set_responder; constructor; try assumption; cbn.
    + by apply Hwg.
    + by constructor.
    + rewrite (closed_of_done s Hi Hd) in *. eapply inv_proxy_lose; [|done].
      intros t. split; [apply outstanding_nonneg|]. unfold outst, outstanding. rewrite Hq, Hr. cbn.
      pose proof (one_nonneg t (ps_tunnel rsp)). rewrite total_cons. lia.
    + by apply Hwg.
    + constructor; try done. by intros ? [= <-].
    + eapply inv_proxy_out; [|done]. intros t. unfold outst, outstanding. cbn. rewrite Hq, Hr. cbn.
      rewrite one_None, total_cons. lia.
  - destruct wrote as [_|e].
    + assert (rsp_ok (has (cc_tunnelHeap s)) (has (wd_heap (cc_dg s))) rsp) as [Ht Hch].
      { destruct Hi. destruct i_refs0. by apply ir_responder0. }
      apply mark_response_written_ok; [done..|]. intros w Hw.
      destruct (ps_tunnel rsp) as [t|] eqn:Et.
      * eapply wp_seq; [apply completeProxyResponseLocked_ok; [done| |]|]; cbn.
        -- by apply Ht.
        -- by rewrite Hr.
        -- intros _ s' Hs'. exact Hs'.
      * apply wp_bind. unfold wp at 1. cbn. apply (inv_set_responder {| s with cc_dg := w |}); [done|..]; cbn; rewrite ?Hr; try done.
        left. cbn. by rewrite Et.
    + apply onError_keeps; [done|]. intros s' Hi' Ha.
      apply inv_set_responder; rewrite ?(as_responder _ _ Ha), ?Hr; try done. right. by rewrite (as_closed _ _ Ha).
  - destruct (running_cleanup _ _); [done|].
    pose proof (proj1 (proj2 (proj2 (running_wg s Hi))) ltac:(by rewrite Hr)) as Hw.
    apply wp_wg_done; [done|]. unfold wp, set_responder. destruct Hi. constructor; try assumption; cbn.
    + destruct i_wg0. rewrite Hr in *. constructor; simpl in *; [lia|by destruct (cc_proxyRequests s); destruct_and!|].
      intros Hf. specialize (iw_finished0 Hf). lia.
    + destruct i_refs0. by constructor.
    + eapply inv_proxy_out; [|done]. intros t. unfold outst, outstanding. by rewrite Hr.
Qed.
