(* ===== verification/ControlSteps.v ===== *)
(** * ControlSteps: every step of the control channel keeps its invariant

    One lemma per operation of [ControlChannel], then [inv_step]. *)

From S2P Require Import Prelude GoStrings Framing Cors TunnelProps Deadline Datagram ControlChannel ControlInv.

(** ** Shared operations *)

Lemma inv_conns s cs : inv s -> inv {| s with cc_closedConns := cs |}.
Proof. inv_frame. Qed.

Lemma wp_close_conns {B} cs (k : unit -> M B) Q s :
  inv s -> (forall c, inv {| s with cc_closedConns := c |} -> wp (k tt) Q {| s with cc_closedConns := c |}) ->
  wp (bind (close_conns cs) k) Q s.
Proof. intros Hi Hk. unfold wp, bind, close_conns. by apply Hk, inv_conns. Qed.

Lemma wp_initiate_closes {B} chs (k : unit -> M B) Q s :
  inv s ->
  (forall w, inv {| s with cc_dg := w |} -> dg_keeps (cc_dg s) w -> wp (k tt) Q {| s with cc_dg := w |}) ->
  wp (bind (initiate_closes chs) k) Q s.
Proof.
  intros Hi Hk. unfold wp, bind, initiate_closes. apply Hk; [apply inv_dg; [|done]|]; apply dg_keeps_closes.
Qed.

Lemma initiate_closes_ok chs s : inv s -> wp (initiate_closes chs) (fun _ => inv) s.
Proof. intros Hi. unfold wp, initiate_closes. apply inv_dg; [apply dg_keeps_closes|done]. Qed.

Lemma wp_map_set {K} `{Countable K} {V B} (m : option (gmap K V)) key v (k : option (gmap K V) -> M B) Q s :
  is_Some m -> (forall m0, m = Some m0 -> wp (k (Some (<[key := v]> m0))) Q s) -> wp (bind (map_set m key v) k) Q s.
Proof. intros [m0 ->] Hk. by apply Hk. Qed.

(** [tunnelCleanup.run] changes a context and closes connections. *)
Lemma tunnelCleanup_run_ok {B} tc (k : unit -> M B) Q s :
  inv s -> holds (has (cc_tunnelHeap s)) (tc_cancel tc) ->
  (forall h cs, let s' := {| s with cc_tunnelHeap := h; cc_closedConns := cs |} in
     inv s' -> (forall a, has (cc_tunnelHeap s) a -> has h a) -> wp (k tt) Q s') ->
  wp (bind (tunnelCleanup_run tc) k) Q s.
Proof.
  intros Hi Ht Hk. apply wp_bind. unfold tunnelCleanup_run. apply wp_bind.
  destruct (tc_cancel tc) as [t|].
  - apply wp_load_tunnel; [by apply Ht|]. intros x Hx. unfold wp at 1, store_tunnel.
    pose proof (it_obj _ _ _ _ _ _ (i_tunnels s Hi) t x Hx) as []. destruct to_conns.
    apply Hk; [|eauto using has_insert].
    apply (inv_conns {| s with cc_tunnelHeap := _ |}). by eapply inv_touch_tunnel; eauto.
  - unfold wp at 1. cbn. apply (Hk (cc_tunnelHeap s)); [|done]. destruct s. by apply inv_conns.
Qed.

(** A tunnel closed with the error [e]. *)
Definition closed_tunnel (x : bytestreamTunnel) (e : option cc_error) : bytestreamTunnel :=
  {| x with t_closed := true; t_err := e; t_closedCh := Some true; t_cancel := false;
            t_conns := Chan [] (chan_cap (t_conns x)) (chan_closed (t_conns x)) |}.

Lemma wp_tunnel_onErrorLocked t x e (Q : tunnelCleanup -> ctrl -> Prop) s :
  cc_tunnelHeap s !! t = Some x -> t_closed x = false -> t_closedCh x = Some false ->
  Q (MkTunnelCleanup (if t_cancel x then Some t else None) (chan_buf (t_conns x)))
    {| s with cc_tunnelHeap := <[t := closed_tunnel x e]> (cc_tunnelHeap s) |} ->
  wp (tunnel_onErrorLocked t e) Q s.
Proof.
  intros Hx Ho Hs Hk. apply wp_load_tunnel; [by exists x|]. intros ? E. rewrite Hx in E.
  injection E as <-. rewrite Ho. cbv zeta. unfold tunnel_ensureClosedSignalLocked. cbn [t_closedCh].
  rewrite Hs. exact Hk.
Qed.

(** [listener.Close] closes what is queued. *)
Lemma listener_Close_ok {B} l (k : unit -> M B) Q s :
  inv s -> has (cc_listenerHeap s) l ->
  (forall lh w cs, let s' := {| s with cc_listenerHeap := lh; cc_dg := w; cc_closedConns := cs |} in
     inv s' -> (forall a, has (cc_listenerHeap s) a -> has lh a) -> wp (k tt) Q s') ->
  wp (bind (listener_Close l) k) Q s.
Proof.
  intros Hi Hl Hk. apply wp_bind. apply wp_load_listener; [done|]. intros x Hx. destruct (l_once x).
  - unfold wp at 1. cbn. specialize (Hk (cc_listenerHeap s) (cc_dg s) (cc_closedConns s)). destruct s. by apply Hk.
  - assert (Hs : inv {| s with cc_listenerHeap := <[l := {| x with l_once := true; l_cancelled := true;
                 l_conns := Chan [] (chan_cap (l_conns x)) (chan_closed (l_conns x)) |}]> (cc_listenerHeap s) |}).
    { eapply inv_store_listener; eauto. cbn. by intros a ?%elem_of_nil. }
    apply wp_bind. unfold wp at 1, store_listener. apply wp_initiate_closes; [done|]. intros w Hw _.
    unfold wp at 1, close_conns. apply Hk; [by apply (inv_conns {| s with cc_listenerHeap := _; cc_dg := w |})|].
    eauto using has_insert.
Qed.

(** ** Workers *)

Lemma worker_respond_with s i w task ch e :
  inv s -> cc_workers s !! i = Some w -> worker_task w = Some task -> holds (has (wd_heap (cc_dg s))) ch ->
  wp (set_worker i (WRespond task ch e)) (fun _ => inv) s.
Proof. intros Hi Hw Hk Hc. unfold wp, set_worker. by eapply inv_worker_task. Qed.

Lemma refuse_delivery_ok s i w task conn e :
  inv s -> cc_workers s !! i = Some w -> worker_task w = Some task ->
  wp (refuse_delivery i task conn e) (fun _ => inv) s.
Proof.
  intros Hi Hw Hk. apply wp_close_conns; [done|]. intros cs Hs. by eapply worker_respond_with.
Qed.

Lemma chan_try_send_bounded {A} (c c' : chan A) x :
  chan_try_send c x = Some c' -> chan_cap c' = chan_cap c /\ chan_bounded c'.
Proof.
  intros H. apply chan_try_send_Some in H as (E & Ec & _ & Hl). split; [done|].
  unfold chan_bounded. rewrite E, Ec, length_app. simpl. lia.
Qed.

Lemma task_refs s i w task :
  inv s -> cc_workers s !! i = Some w -> worker_task w = Some task ->
  has (cc_tunnelHeap s) (pq_tunnel task) /\ holds (has (cc_listenerHeap s)) (pq_datagramListener task) /\
  (pq_datagramDirect task = true -> cc_datagramProvider s = true).
Proof. intros Hi Hw Hk. destruct (worker_ok_at s i w Hi Hw) as (Hok & _ & _). by apply Hok. Qed.

Lemma deliver_select_ok s i task conn d :
  inv s -> cc_workers s !! i = Some (WSelect task conn) ->
  wp (deliver_select i task conn d) (fun _ => inv) s.
Proof.
  intros Hi Hw. destruct (task_refs s i _ task Hi Hw eq_refl) as (Ht & Hl & _).
  apply wp_get, wp_load_tunnel; [done|]. intros x Hx.
  assert (Hrefuse : forall e, wp (refuse_delivery i task conn e) (fun _ => inv) s).
  { intros e. by eapply refuse_delivery_ok. }
  destruct d; [|by destruct (tunnel_ctx_done s x)|by destruct (bool_decide _)| |done].
  - destruct (pq_datagramListener task) as [l|] eqn:El.
    + apply wp_load_listener; [by apply Hl|]. intros y Hy.
      destruct (chan_try_send _ _) as [q|] eqn:Eq; [|done]. apply chan_try_send_Some in Eq as (E & _).
      apply wp_bind. unfold wp at 1, store_listener.
      assert (inv {| s with cc_listenerHeap := <[l := {| y with l_conns := q |}]> (cc_listenerHeap s) |}).
      { eapply inv_store_listener; [done..|]. intros a Ha. cbn in Ha. rewrite E in Ha.
        apply elem_of_app in Ha as [Ha|Ha%list_elem_of_singleton]; [|done]. by eapply (i_queues s Hi). }
      unfold wp, set_worker. by eapply inv_worker_task.
    + destruct (chan_try_send _ _) as [q|] eqn:Eq; [|done]. apply chan_try_send_bounded in Eq as (E & Hb).
      pose proof (it_obj _ _ _ _ _ _ (i_tunnels s Hi) _ x Hx) as []. destruct to_conns.
      apply wp_bind. unfold wp at 1, store_tunnel.
      assert (inv {| s with cc_tunnelHeap := <[pq_tunnel task := {| x with t_conns := q |}]> (cc_tunnelHeap s) |}).
      { eapply inv_touch_tunnel; eauto; cbn. congruence. }
      unfold wp, set_worker. by eapply inv_worker_task.
  - destruct (pq_datagramListener task) as [l|] eqn:El; [|done].
    apply wp_load_listener; [by apply Hl|]. intros y Hy. by destruct (listener_done s y).
Qed.

Lemma worker_deliver_ok s i d : inv s -> wp (worker_deliver i d) (fun _ => inv) s.
Proof.
  intros Hi. apply wp_get. destruct (cc_workers s !! i) as [w|] eqn:Hw; [|done].
  destruct w; try done.
  - destruct (task_refs s i _ task Hi Hw eq_refl) as (Ht & Hl & _).
    apply wp_load_tunnel; [done|]. intros x Hx. destruct (_ || _); [by eapply refuse_delivery_ok|].
    pose proof (it_obj _ _ _ _ _ _ (i_tunnels s Hi) _ x Hx) as []. destruct to_conns.
    apply wp_bind. unfold wp at 1, store_tunnel, tunnel_ensureClosedSignalLocked. rewrite to_signal.
    assert (inv {| s with cc_tunnelHeap := <[pq_tunnel task := x]> (cc_tunnelHeap s) |})
      by by eapply inv_touch_tunnel; eauto.
    unfold wp, set_worker. by eapply inv_worker_task.
  - by apply deliver_select_ok.
  - destruct (task_refs s i _ task Hi Hw eq_refl) as (Ht & Hl & _).
    apply wp_load_tunnel; [done|]. intros x Hx.
    eapply (wp_seq _ _ (fun _ s' => s' = s)).
    + destruct (pq_datagramListener task) as [l|]; [|done]. apply wp_load_listener; [by apply Hl|]. done.
    + intros [] s' ->; [by eapply refuse_delivery_ok|]. by eapply worker_respond_with.
Qed.

Lemma worker_take_ok s i : inv s -> wp (worker_take i) (fun _ => inv) s.
Proof.
  intros Hi. apply wp_get. destruct (cc_workers s !! i) as [w|] eqn:Hw; [|done]. destruct w; try done.
  destruct (cc_proxyRequests s) as [[[|task r] cap cl]|] eqn:Hq; try done. apply wp_put.
  assert (Hi' := Hi). destruct Hi' as [? ? Hwg ? ? Hrefs ? Hpr]. destruct Hrefs.
  pose proof (ir_reqs _ Hq) as Hf. cbn in Hf. apply Forall_cons in Hf as [Hok Hrest].
  assert (chan_all (task_ok (cc_datagramProvider s = true) (has (cc_tunnelHeap s)) (has (cc_listenerHeap s))) (Some (Chan r cap cl))).
  { intros c [= <-]. done. }
  assert (Hout : forall u, outstanding (Some (Chan r cap cl)) (cc_workers s) (cc_proxyResponses s) (cc_responder s) u
                 = outst s u - one u (Some (pq_tunnel task))).
  { intros u. unfold outst, outstanding. rewrite Hq. cbn. rewrite total_cons. lia. }
  assert (Hex : worker_runs WIdle = 1) by done.
  pose proof (total_insert worker_runs _ _ _ WExited Hw) as Ex.
  pose proof (total_insert worker_runs _ _ _ (WProcess task) Hw) as Ep. simpl in Ex, Ep.
  pose proof (proj2 (proj2 (proj2 (running_wg s Hi))) i _ Hw eq_refl) as Hpos.
  destruct (lifecycle_done s) eqn:Hd.
  - apply wp_wg_done; [done|]. unfold wp, set_worker. constructor; try assumption; cbn.
    + destruct Hwg. rewrite Hq in *. constructor; [cbn; lia|done|]. intros Hf. specialize (iw_finished Hf). lia.
    + constructor; try done. by apply Forall_insert.
    + rewrite (closed_of_done s Hi Hd) in *. eapply inv_proxy_lose; [|done]. intros u. split; [apply outstanding_nonneg|].
      unfold outst. cbn. rewrite (outst_insert _ _ _ _ _ _ _ _ Hw). rewrite Hout. cbn. rewrite one_None.
      pose proof (one_nonneg u (Some (pq_tunnel task))). unfold outst. lia.
  - unfold wp, set_worker. constructor; try assumption; cbn.
    + destruct Hwg. rewrite Hq in *. constructor; [cbn; lia|done|done].
    + constructor; try done. apply Forall_insert; [done|]. split_and!; try done. by intros ? [= <-].
    + eapply inv_proxy_out; [|done]. intros u. unfold outst. cbn.
      rewrite (outst_insert _ _ _ _ _ _ _ _ Hw). rewrite Hout. cbn. rewrite one_None. unfold outst. lia.
Qed.

Lemma worker_respond_ok s i g : inv s -> wp (worker_respond i g) (fun _ => inv) s.
Proof.
  intros Hi. apply wp_get. destruct (cc_workers s !! i) as [w|] eqn:Hw; [|done]. destruct w; try done.
  destruct g.
  { destruct (lifecycle_done s) eqn:Hd; [|done].
    apply wp_wg_done; [by eapply running_wg|]. by eapply (inv_worker_exit s i). }
  destruct (cc_proxyResponses s) as [q|] eqn:Hq; [|done].
  destruct (chan_try_send _ _) as [q'|] eqn:Eq; [|done]. apply wp_put. unfold wp, set_worker.
  apply chan_try_send_Some in Eq as (E & _).
  pose proof (worker_ok_at s i _ Hi Hw) as (Hok & Hc & _). destruct (Hok _ eq_refl) as (Ht & _).
  destruct Hi as [? ? Hwg ? ? Hrefs ? Hpr]. destruct Hrefs. constructor; try assumption; cbn.
  - destruct Hwg. constructor; [|destruct (cc_proxyRequests s)|done].
    + rewrite (total_insert _ _ _ _ _ Hw). cbn. lia.
    + by destruct_and!.
    + by destruct iw_started as (? & ? & E'); rewrite E' in Hw.
  - constructor; try done.
    + by apply Forall_insert.
    + intros c [= <-]. rewrite E. apply Forall_app. split; [by apply ir_rsps|]. apply Forall_singleton.
      split; cbn; [by intros ? [= <-]|done].
  - eapply inv_proxy_out; [|done]. intros u. unfold outst. cbn. rewrite (outst_insert _ _ _ _ _ _ _ _ Hw). cbn.
    unfold outstanding. rewrite Hq. cbn. rewrite E, total_app, total_cons. cbn. rewrite one_None.
    rewrite ?total_nil. lia.
Qed.

Lemma publish_datagram_channel_ok s i task :
  inv s -> cc_workers s !! i = Some (WProcess task) -> pq_datagramDirect task = true ->
  wp (publish_datagram_channel i task) (fun _ => inv) s.
Proof.
  intros Hi Hw Hdir. destruct (task_refs s i _ task Hi Hw eq_refl) as (Ht & Hl & Hp).
  apply wp_load_tunnel; [done|]. intros x Hx. destruct (t_ctx x); [|by eapply worker_respond_with].
  destruct (datagramChannelIDFromStreamID _) as [id|]; [|by eapply worker_respond_with].
  apply wp_get. cbv zeta.
  match goal with |- context [put {| s with cc_dg := ?x |}] => set (w := x) end.
  assert (Hw' : inv {| s with cc_dg := w |}).
  { apply inv_dg; [|done]. constructor; cbn; [eauto using has_insert|done]. }
  apply wp_put.
  assert (Hrefuse : wp (do! initiate_closes [wd_next (cc_dg s)] in
                        set_worker i (WRespond task None (Some EDatagramProxy))) (fun _ => inv) {| s with cc_dg := w |}).
  { apply wp_initiate_closes; [done|]. intros w' Hi' _. by eapply worker_respond_with. }
  apply wp_if; [done|]. intros Hc. destruct (map_get (wd_ctrl w) id); [done|].
  destruct (in_open _ _ _ _ _ _ (i_nil s Hi) Hc) as (_ & _ & Hs). destruct (Hs (Hp Hdir)) as [_ Hm].
  apply wp_map_set; [done|]. intros m Em. apply wp_get, wp_put. unfold wp, set_worker.
  set (w' := {| w with wd_ctrl := Some (<[id := wd_next (cc_dg s)]> m) |}).
  assert (dg_keeps (cc_dg s) w').
  { constructor; cbn; [eauto using has_insert|]. by split. }
  assert (inv {| s with cc_dg := w' |}) by by apply inv_dg.
  apply (inv_worker_task {| s with cc_dg := w' |} i (WProcess task) _ task); try done; cbn.
  - intros ? [= <-]. unfold has. cbn. rewrite lookup_insert_eq. eauto.
  - intros l Hl'. by destruct (it_dts _ _ _ _ _ _ (i_tunnels s Hi) _ _ Hl').
Qed.

Lemma register_datagram_channel_ok s i task a l :
  inv s -> cc_workers s !! i = Some (WPublished task a l) ->
  wp (register_datagram_channel i task a l) (fun _ => inv) s.
Proof.
  intros Hi Hw. pose proof (worker_ok_at s i _ Hi Hw) as (_ & Hc & Hl).
  apply wp_get. destruct (Hc a eq_refl) as [ch Hch]. rewrite Hch.
  pose proof (dg_keeps_register (cc_dg s) (dc_channelID ch) a) as Hk.
  destruct (registerDatagramChannel _ _ _) as [w []]; cbn in Hk.
  - apply wp_put. assert (inv {| s with cc_dg := w |}) by by apply inv_dg.
    unfold wp, set_worker. eapply inv_worker_task; eauto; cbn; try done.
    intros ? [= <-]. apply (dk_heap _ _ Hk). by exists ch.
  - assert (inv {| s with cc_dg := ctrl_unregister w (dc_channelID ch) a |}).
    { apply inv_dg; [|done]. eapply dg_keeps_trans; [done|apply dg_keeps_unregister]. }
    apply wp_put, wp_initiate_closes; [done|]. intros w' Hi' _. by eapply worker_respond_with.
Qed.

Lemma hand_over_datagram_channel_ok s i task a l :
  inv s -> cc_workers s !! i = Some (WRegistered task a l) ->
  wp (hand_over_datagram_channel i task a l) (fun _ => inv) s.
Proof.
  intros Hi Hw. pose proof (worker_ok_at s i _ Hi Hw) as (_ & Hc & Hl).
  assert (Hrefuse : wp (do! initiate_closes [a] in set_worker i (WRespond task None (Some EDatagramProxy)))
                       (fun _ => inv) s).
  { apply wp_initiate_closes; [done|]. intros w' Hi' _. by eapply worker_respond_with. }
  destruct l as [l|]; [|done]. apply wp_load_listener; [by apply Hl|]. intros x Hx.
  destruct (chan_try_send _ _) as [q|] eqn:Eq; [|done]. apply chan_try_send_Some in Eq as (E & _).
  apply wp_bind. unfold wp at 1, store_listener.
  assert (inv {| s with cc_listenerHeap := <[l := {| x with l_conns := q |}]> (cc_listenerHeap s) |}).
  { eapply inv_store_listener; [done..|]. intros b Hb. cbn in Hb. rewrite E in Hb.
    apply elem_of_app in Hb as [Hb|Hb%list_elem_of_singleton]; [by eapply (i_queues s Hi)|].
    simplify_eq. by apply Hc. }
  by eapply worker_respond_with.
Qed.

Lemma worker_process_ok s i dialled : inv s -> wp (worker_process i dialled) (fun _ => inv) s.
Proof.
  intros Hi. apply wp_get. destruct (cc_workers s !! i) as [w|] eqn:Hw; [|done]. destruct w; try done.
  - destruct (pq_datagramDirect task) eqn:Hd; [by apply publish_datagram_channel_ok|].
    destruct dialled; [|by eapply worker_respond_with].
    apply wp_fresh. unfold wp, set_worker.
    assert (inv {| s with cc_next := S (cc_next s) |}) by by apply inv_fresh. by eapply inv_worker_task.
  - by apply register_datagram_channel_ok.
  - by apply hand_over_datagram_channel_ok.
Qed.

(** ** Opening a tunnel *)

(** The invariant without the part on calls, which is broken for a moment
    between the removal of a request from the table and its answer. *)
Definition core (s : ctrl) : Prop :=
  exists calls pend uuids,
    inv {| s with cc_calls := calls; cc_pendingTunnels := pend; cc_uuids := uuids |}
    /\ (is_Some pend <-> is_Some (cc_pendingTunnels s)).

(** [s'] has the calls of [s]. *)
Record same_calls (s s' : ctrl) : Prop := {
  sc_calls : cc_calls s' = cc_calls s;
  sc_pend : cc_pendingTunnels s' = cc_pendingTunnels s;
  sc_uuids : cc_uuids s' = cc_uuids s;
  sc_clp : clp s' = clp s;
  sc_next : (cc_next s <= cc_next s')%nat;
  sc_reader : cc_reader s' = cc_reader s;
}.

Lemma same_calls_refl s : same_calls s s.
Proof. by constructor. Qed.

Lemma inv_of_core s : core s ->
  inv_calls (cc_pendingTunnels s) (cc_calls s) (clp s) (cc_uuids s) (cc_next s) -> inv s.
Proof.
  intros (calls & pend & uuids & [Hn ? ? ? ? ? ? ?] & Hp) Hc. constructor; try assumption.
  destruct Hn as [H1 H2]. constructor; intros H; cbn in *.
  - destruct (H1 H) as (-> & ? & ? & ?). split_and!; try done. by apply (is_Some_iff_None None) in Hp.
  - destruct (H2 H) as (? & ? & ?). split_and!; try done. by apply Hp.
Qed.

Lemma core_of_inv s calls pend uuids :
  inv {| s with cc_calls := calls; cc_pendingTunnels := pend; cc_uuids := uuids |} ->
  (is_Some pend <-> is_Some (cc_pendingTunnels s)) -> core s.
Proof. intros. by exists calls, pend, uuids. Qed.

(** A new open tunnel, and its listener if it has one. *)
Lemma inv_new_tunnel s props id dts lh n :
  inv s -> cc_closed s = false -> ID props = Some id -> TrimSpace id <> "" ->
  map_get (cc_tunnels s) id = None ->
  (dts = cc_datagramTunnels s /\ lh = cc_listenerHeap s /\ n = S (cc_next s) \/
   exists m, cc_datagramTunnels s = Some m /\ dts = Some (<[id := S (cc_next s)]> m) /\
     lh = <[S (cc_next s) := MkListener (make_chan 10) (cc_next s) false false (Addr_net (MkAddr id []))]>
            (cc_listenerHeap s) /\ n = S (S (cc_next s))) ->
  inv {| s with cc_next := n;
                cc_tunnels := option_map (fun m => <[id := cc_next s]> m) (cc_tunnels s);
                cc_datagramTunnels := dts; cc_listenerHeap := lh;
                cc_tunnelHeap := <[cc_next s := MkTunnel props id (Some false) None 0 false false None
                                     (make_chan 10) (Some false) true]> (cc_tunnelHeap s) |}.
Proof.
  intros Hi Hc Hid Hne Hnone Hd.
  destruct (inv_open_calls s Hi Hc) as (_ & Ect & _).
  assert (Hn : (S (cc_next s) <= n)%nat) by (destruct Hd as [(_ & _ & ->)|(? & _ & _ & _ & ->)]; lia).
  destruct Hi. destruct i_nil as [_ Hno]. destruct (Hno Hc) as (Hsp & [m Hm] & Hprov). rewrite Hm in *. cbn in Hnone.
  assert (Hfresh : cc_tunnelHeap s !! cc_next s = None).
  { destruct (cc_tunnelHeap s !! cc_next s) eqn:E; [|done].
    pose proof (it_next _ _ _ _ _ _ i_tunnels (cc_next s) ltac:(eauto)). lia. }
  assert (Hlh : forall a, has (cc_listenerHeap s) a -> has lh a).
  { intros a Ha. destruct Hd as [(_ & -> & _)|(m' & _ & _ & -> & En)]; [done|]. by apply has_insert. }
  constructor; cbn -[Nat.lt]; try assumption.
  - constructor; [congruence|]. intros _. split_and!; [done|done|]. intros Hp. destruct (Hprov Hp) as [[d Hd'] ?].
    destruct Hd as [(-> & _)|(m' & _ & -> & _)]; split; eauto.
  - eapply inv_calls_next; [|done]. lia.
  - change (clt _) with (clt s). rewrite Ect in *. destruct i_tunnels. constructor; cbn.
    + intros id' t'. destruct (decide (id' = id)) as [->|Hid'].
      * rewrite lookup_insert_eq. intros [= <-]. rewrite lookup_insert_eq. eexists. split_and!; done.
      * rewrite lookup_insert_ne by done. intros Ht'. destruct (it_map id' t' Ht') as (x & Hx & ? & ?).
        exists x. rewrite lookup_insert_ne by congruence. done.
    + by intros t ?%elem_of_nil.
    + intros t x. destruct (decide (t = cc_next s)) as [->|Ht].
      * rewrite lookup_insert_eq. intros [= <-]. constructor; cbn; try done; [split; [done|]; unfold chan_bounded; cbn; lia|].
        intros _. left. by rewrite lookup_insert_eq.
      * rewrite lookup_insert_ne by done. intros Hx. destruct (it_obj t x Hx). constructor; try done.
        intros Ho. destruct (to_open Ho) as [Hin|?]; [|by right]. left. cbn in *.
        destruct (decide (t_tunnelID x = id)) as [E|E]; [congruence|]. by rewrite lookup_insert_ne.
    + intros id' l Hl. destruct Hd as [(-> & -> & _)|(m' & E & -> & -> & _)].
      * destruct (it_dts id' l Hl) as [? [u Hu]]. cbn in Hu. split; [done|].
        destruct (decide (id' = id)) as [->|]; [by rewrite lookup_insert_eq|]. by rewrite lookup_insert_ne; eauto.
      * cbn in Hl. destruct (decide (id' = id)) as [->|].
        { rewrite lookup_insert_eq in Hl. simplify_eq. rewrite !lookup_insert_eq. eauto. }
        { rewrite lookup_insert_ne in Hl by done. assert (Hl' : map_get (cc_datagramTunnels s) id' = Some l) by by rewrite E.
          destruct (it_dts id' l Hl'). split; [by apply has_insert|]. by rewrite lookup_insert_ne. }
    + intros t. destruct (decide (t = cc_next s)) as [->|]; [lia|]. rewrite lookup_insert_ne by done.
      intros Ht. specialize (it_next t Ht). lia.
    + intros l. destruct Hd as [(_ & -> & _)|(m' & _ & _ & -> & En)].
      * intros Hl. specialize (it_lnext l Hl). lia.
      * destruct (decide (l = S (cc_next s))) as [->|]; [lia|]. rewrite lookup_insert_ne by done.
        intros Hl. specialize (it_lnext l Hl). lia.
  - eapply inv_refs_mono; [..|done]; eauto using has_insert.
  - destruct Hd as [(_ & -> & _)|(m' & _ & _ & -> & En)]; [done|]. intros l x a.
    destruct (decide (l = S (cc_next s))) as [->|]; [rewrite lookup_insert_eq|rewrite lookup_insert_ne by done; by eauto].
    intros [= <-] Ha. by apply elem_of_nil in Ha.
  - eapply inv_proxy_next; [|by eapply (inv_proxy_new _ _ _ _ _ _ (cc_next s))]. lia.
Qed.

Lemma openTunnelFromPropertiesLocked_ok s props :
  core s -> wp (openTunnelFromPropertiesLocked props) (fun _ s' => core s' /\ same_calls s s') s.
Proof.
  intros Hs. pose proof (conj Hs (same_calls_refl s)) as Hsame.
  unfold openTunnelFromPropertiesLocked. destruct (ID props) as [id|] eqn:Hid; [|done].
  case_bool_decide as Hne; [done|]. apply wp_get, wp_if; [done|]. intros [Hc _]%orb_false_iff.
  destruct (cc_lifecycleCtx s); [|done]. destruct (map_get (cc_tunnels s) id) eqn:Hnone; [done|].
  destruct Hs as (calls & pend & uuids & Hi & Hp). set (s1 := {| s with cc_calls := _; cc_pendingTunnels := _; cc_uuids := _ |}) in Hi.
  destruct (in_open _ _ _ _ _ _ (i_nil s1 Hi) Hc) as (_ & [m Hm] & Hprov). cbn in Hm.
  apply wp_fresh. st. apply wp_store_tunnel. st. apply wp_if.
  - intros [[_ Hpr]%andb_true_iff _]%andb_true_iff. destruct (Hprov Hpr) as [[d Hd] _]. cbn in Hd.
    apply wp_fresh. st. apply wp_store_listener. st. apply wp_get. st.
    apply wp_map_set; [by exists m|]. intros m0 Em. apply wp_map_set; [by exists d|]. intros d0 Ed. apply wp_put. st.
    unfold wp, ret. split; [|constructor; cbn; try done; lia].
    apply (core_of_inv _ calls pend uuids); [|done].
    pose proof (inv_new_tunnel s1 props id _ _ _ Hi Hc Hid Hne Hnone
                  (or_intror (ex_intro _ d (conj Hd (conj eq_refl (conj eq_refl eq_refl)))))) as Hnew.
    cbn in Hnew, Em, Ed. rewrite Hm in Hnew, Em. rewrite Hd in Ed. injection Em as <-. injection Ed as <-. exact Hnew.
  - intros _. apply wp_get. st. apply wp_map_set; [by exists m|]. intros m0 Em. apply wp_put. st.
    pose proof (inv_new_tunnel s1 props id _ _ _ Hi Hc Hid Hne Hnone
                  (or_introl (conj eq_refl (conj eq_refl eq_refl)))) as Hnew.
    cbn in Hnew, Em. rewrite Hm in Hnew, Em. injection Em as <-.
    apply wp_if; intros _; (split; [|constructor; cbn; try done; lia]);
      (apply (core_of_inv _ calls pend uuids); [exact Hnew|done]).
Qed.

(** ** Calls *)

Lemma map_get_delete {V} (m : option (gmap string V)) k k' v :
  map_get (map_delete m k) k' = Some v <-> k' <> k /\ map_get m k' = Some v.
Proof.
  destruct m as [m|]; simpl; [|by split; [|intros []]].
  rewrite lookup_delete_Some. by split; intros []; split; congruence.
Qed.

Lemma map_delete_found {V} (m : option (gmap string V)) k :
  (if is_set (map_get m k) then map_delete m k else m) = map_delete m k.
Proof. destruct m as [m|]; [|done]. simpl. destruct (m !! k) eqn:E; simpl; [done|]. by rewrite delete_id. Qed.

(** The request of call [p] leaves the table, and the call is answered or gives up. *)
Lemma inv_calls_settle pend calls rid p x y uuids n :
  inv_calls pend calls [] uuids n -> map_get pend rid = Some p -> calls !! p = Some x ->
  ca_requestID y = ca_requestID x ->
  (waits (ca_phase y) -> chan_buf (ca_respCh y) <> []) ->
  inv_calls (map_delete pend rid) (<[p := y]> calls) [] uuids n.
Proof.
  intros [H1 H2 H3 H4 H5] Hm Hx Hid Hy.
  assert (Hrid : ca_requestID x = rid) by (destruct (H1 _ _ Hm) as (_ & z & ? & ? & _); congruence).
  constructor; try done.
  - intros r q [Hr Hq]%map_get_delete. destruct (H1 _ _ Hq) as (? & z & Hz & E & ?).
    split; [done|]. exists z. rewrite lookup_insert_ne by congruence. done.
  - by intros q ?%elem_of_nil.
  - intros q z. destruct (decide (q = p)) as [->|Hq].
    + rewrite lookup_insert_eq. intros [= <-] Hw. eauto.
    + rewrite lookup_insert_ne by done. intros Hz Hw. destruct (H4 q z Hz Hw) as [Hg|?]; [|by right].
      left. apply map_get_delete. split; [congruence|done].
  - intros q. destruct (decide (q = p)) as [->|]; [|rewrite lookup_insert_ne by done; eauto]. eauto.
Qed.

(** A call changes while its request stays where it is. *)
Lemma inv_calls_update pend calls cl p x y uuids n :
  inv_calls pend calls cl uuids n -> calls !! p = Some x -> ca_requestID y = ca_requestID x ->
  (p ∈ cl -> ca_respCh y = ca_respCh x) ->
  (map_get pend (ca_requestID x) = Some p ->
     ca_respCh y = Chan [] 1 false /\ (ca_phase y = CSending \/ ca_phase y = CWaiting)) ->
  (waits (ca_phase y) -> waits (ca_phase x) /\ ca_respCh y = ca_respCh x) ->
  inv_calls pend (<[p := y]> calls) cl uuids n.
Proof.
  intros [H1 H2 H3 H4 H5] Hx Hid Hcl Hmap Hw. constructor; try done.
  - intros r q Hq. destruct (H1 _ _ Hq) as (? & z & Hz & E & ? & ?). split; [done|].
    destruct (decide (q = p)) as [->|]; [|rewrite lookup_insert_ne by done; eauto].
    rewrite lookup_insert_eq. assert (z = x) as -> by congruence. exists y.
    subst r. destruct (Hmap Hq). split_and!; [done|congruence|done|done].
  - intros q Hq. destruct (H2 q Hq) as (z & Hz & ?).
    destruct (decide (q = p)) as [->|]; [|rewrite lookup_insert_ne by done; eauto].
    rewrite lookup_insert_eq. assert (z = x) as -> by congruence. exists y. split; [done|]. rewrite Hcl; done.
  - intros q z. destruct (decide (q = p)) as [->|]; [rewrite lookup_insert_eq|rewrite lookup_insert_ne by done; eauto].
    intros [= <-] Hwy. destruct (Hw Hwy) as [Hwx E]. rewrite Hid, E. by apply H4.
  - intros q. destruct (decide (q = p)) as [->|]; [|rewrite lookup_insert_ne by done; eauto]. eauto.
Qed.

Lemma inv_set_calls s calls pend uuids :
  inv s -> (is_Some pend <-> is_Some (cc_pendingTunnels s)) ->
  inv_calls pend calls (clp s) uuids (cc_next s) ->
  inv {| s with cc_calls := calls; cc_pendingTunnels := pend; cc_uuids := uuids |}.
Proof.
  intros Hi Hp Hc. apply inv_of_core; [|done]. exists (cc_calls s), (cc_pendingTunnels s), (cc_uuids s).
  split; [by destruct s|]. by symmetry.
Qed.

Lemma pend_open s rid p : inv s -> map_get (cc_pendingTunnels s) rid = Some p -> cc_closed s = false.
Proof.
  intros [] Hm. destruct (cc_closed s) eqn:E; [|done]. destruct i_nil as [H _].
  destruct (H eq_refl) as (Hn & _). by rewrite Hn in Hm.
Qed.

Lemma is_Some_map_delete {V} (m : option (gmap string V)) k : is_Some (map_delete m k) <-> is_Some m.
Proof. destruct m; simpl; split; eauto. Qed.

Definition handled (s : ctrl) {A} (_ : A) (s' : ctrl) : Prop := inv s' /\ cc_reader s' = cc_reader s.

Section Handlers.
Context `{Env}.

Lemma openTunnelResultLocked_ok s payload :
  core s -> wp (openTunnelResultLocked payload) (fun _ s' => core s' /\ same_calls s s') s.
Proof.
  intros Hs. destruct payload; [|by apply openTunnelFromPropertiesLocked_ok|]; (split; [done|by constructor]).
Qed.

Lemma handleOpenTunnelRsp_ok s rsp : inv s -> wp (handleOpenTunnelRsp rsp) (handled s) s.
Proof.
  intros Hi. destruct rsp as [r|]; [|done]. apply wp_get.
  destruct (map_get (cc_pendingTunnels s) (or_RequestId r)) as [p|] eqn:Hm; [|done].
  pose proof (pend_open s _ _ Hi Hm) as Hc. destruct (inv_open_calls s Hi Hc) as (Ecl & _).
  apply wp_put. st. set (s0 := {| s with cc_pendingTunnels := _ |}).
  assert (core s0) as Hs0.
  { exists (cc_calls s), (cc_pendingTunnels s), (cc_uuids s). cbn. rewrite is_Some_map_delete.
    split; [by destruct s|done]. }
  eapply wp_seq; [by apply openTunnelResultLocked_ok|]. intros res s' [Hcore [E1 E2 E3 E4 E5 E6]]. cbn in *.
  pose proof (i_calls s Hi) as Hcalls. destruct (ic_map _ _ _ _ _ Hcalls _ _ Hm) as (_ & x & Hx & Hrid & Hch & _).
  apply wp_bind. apply wp_load_call; [rewrite E1; by exists x|]. rewrite E1, Hx. intros ? [= <-].
  rewrite Hch. cbn. split; [|exact E6]. apply inv_of_core; cbn.
  - destruct Hcore as (a & b & c & ? & ?). by exists a, b, c.
  - change (clp {| s' with cc_calls := _ |}) with (clp s'). rewrite E1, E2, E3, E4. change (clp s0) with (clp s).
    rewrite Ecl in *. eapply inv_calls_next; [exact E5|]. by eapply inv_calls_settle.
Qed.

Lemma handleHeartbeat_ok s h : inv s -> wp (handleHeartbeat h) (handled s) s.
Proof.
  intros Hi. apply wp_get. destruct (_ <=? 0); [done|]. destruct h as [b|]; [|done].
  destruct (_ || _); [done|]. split; [|done]. destruct Hi. by constructor.
Qed.

Lemma handleDatagramChannelClose_ok s m : inv s -> wp (handleDatagramChannelClose m) (fun f s' =>
  inv s' /\ cc_reader s' = cc_reader s /\
  forall g, f = Some g -> mc_tunnel g = no_cleanup /\ mc_listener g = None) s.
Proof.
  intros Hi. destruct m as [sid|]; [|done]. cbn.
  destruct (datagramChannelIDFromStreamID sid) as [id|]; [|done].
  apply wp_get. destruct (map_get _ id) as [ch|] eqn:E; [|done].
  split; [|by split; [|intros ? [= <-]]]. apply inv_dg; [|done].
  constructor; cbn; [done|]. by destruct (wd_ctrl (cc_dg s)); split; eauto.
Qed.

(** The tunnel leaves the table and closes. *)
Lemma inv_close_tunnel s id t x e :
  inv s -> map_get (cc_tunnels s) id = Some t -> cc_tunnelHeap s !! t = Some x ->
  inv {| s with cc_tunnels := map_delete (cc_tunnels s) id;
                cc_datagramTunnels := map_delete (cc_datagramTunnels s) id;
                cc_tunnelHeap := <[t := closed_tunnel x e]> (cc_tunnelHeap s) |}.
Proof.
  intros Hi Hm Hx.
  assert (Hc : cc_closed s = false).
  { destruct Hi. destruct (cc_closed s) eqn:E; [|done]. destruct i_nil as [H' _].
    destruct (H' eq_refl) as (_ & Hn & _). by rewrite Hn in Hm. }
  destruct (inv_open_calls s Hi Hc) as (_ & Ect & _). destruct Hi. constructor; try assumption; cbn.
  - destruct i_nil as [_ H2]. constructor; [congruence|]. intros _. destruct (H2 Hc) as (? & ? & Hp).
    split_and!; [done|by apply is_Some_map_delete|]. intros Hpr. destruct (Hp Hpr). split; [|done].
    by apply is_Some_map_delete.
  - change (clt _) with (clt s). rewrite Ect in *. destruct i_tunnels. 
    destruct (it_map id t Hm) as (x' & Hx' & Hid & _). assert (x' = x) as -> by congruence.
    constructor.
    + intros id' t' [Hne Ht']%map_get_delete. destruct (it_map id' t' Ht') as (z & Hz & ? & ?).
      exists z. rewrite lookup_insert_ne by congruence. done.
    + by intros u ?%elem_of_nil.
    + intros u z. destruct (decide (u = t)) as [->|].
      * rewrite lookup_insert_eq. intros [= <-]. destruct (it_obj t x Hx). constructor; cbn; try done.
        split; [by destruct to_conns|]. unfold chan_bounded. cbn. lia.
      * rewrite lookup_insert_ne by done. intros Hz. destruct (it_obj u z Hz). constructor; try done.
        intros Ho. destruct (to_open Ho) as [Hg|?]; [|by right]. left. apply map_get_delete. split; [|done].
        intros Eid. rewrite Eid in Hg. congruence.
    + intros id' l [Hne Hl]%map_get_delete. destruct (it_dts id' l Hl) as [? [u Hu]]. split; [done|].
      exists u. by apply map_get_delete.
    + intros u. destruct (decide (u = t)) as [->|]; [eauto|]. rewrite lookup_insert_ne by done. eauto.
    + done.
  - eapply inv_refs_mono; [..|done]; eauto using has_insert.
  - by eapply inv_proxy_update.
Qed.

Lemma handleCloseTunnelRsp_ok s r : inv s -> wp (handleCloseTunnelRsp (Some r)) (fun f s' =>
  inv s' /\ cc_reader s' = cc_reader s /\
  forall g, f = Some g -> holds (has (cc_tunnelHeap s')) (tc_cancel (mc_tunnel g)) /\
                          holds (has (cc_listenerHeap s')) (mc_listener g)) s.
Proof.
  intros Hi. cbn [handleCloseTunnelRsp]. apply wp_get.
  destruct (map_get (cc_tunnels s) (ct_TunnelId r)) as [t|] eqn:Hm; [|done].
  apply wp_put. st. pose proof (i_tunnels s Hi) as Htun.
  destruct (it_map _ _ _ _ _ _ Htun _ _ Hm) as (x & Hx & Hid & Ho).
  pose proof (it_obj _ _ _ _ _ _ Htun t x Hx) as [].
  apply wp_bind. apply wp_load_tunnel; [st; by exists x|]. st. rewrite Hx. intros ? [= <-]. rewrite Ho.
  assert (Hsig : t_closedCh x = Some false) by by rewrite to_signal, Ho.
  apply (wp_tunnel_onErrorLocked t x None); [done..|]. st. apply wp_get. st.
  pose proof (inv_close_tunnel s (ct_TunnelId r) t x None Hi Hm Hx) as Hnew.
  destruct (detachDatagramChannelsForTunnelLocked (cc_dg s) (ct_TunnelId r)) as [w chs] eqn:Ew.
  apply wp_put. st. unfold wp, ret.
  rewrite map_delete_found. split; [|split; [done|]].
  - eapply inv_dg in Hnew; [exact Hnew|]. cbn. unfold detachDatagramChannelsForTunnelLocked in Ew.
    destruct (wd_ctrl (cc_dg s)) eqn:Ec; simplify_eq; [|apply dg_keeps_refl].
    constructor; cbn; [done|]. rewrite Ec. split; eauto.
  - intros g [= <-]. cbn. split.
    + destruct (t_cancel x); [|done]. intros ? [= <-]. unfold has. rewrite lookup_insert_eq. eauto.
    + intros l Hl. by destruct (it_dts _ _ _ _ _ _ Htun _ _ Hl).
Qed.

Lemma startProxyRuntimeLocked_ok s :
  inv s -> cc_reader s = RReading -> cc_closed s = false ->
  wp startProxyRuntimeLocked (fun r s' => inv s' /\ cc_reader s' = RReading /\
    (r = None -> is_Some (cc_proxyRequests s'))) s.
Proof.
  intros Hi Hr Hc. apply wp_get. destruct (cc_proxyRequests s) as [q|] eqn:Hq.
  { split_and!; [done..|]. rewrite Hq. eauto. }
  destruct (cc_lifecycleCtx s) eqn:El; [|done]. apply wp_put. st. apply wp_bind.
  pose proof (proj1 (running_wg s Hi) ltac:(by rewrite Hr)) as Hpos.
  unfold wp at 1, wg_add. st. destruct (Z.leb_spec (cc_lifecycleWG s) 0); [lia|].
  apply wp_get. st. apply wp_put. st. split_and!; [|done|cbn; eauto].
  set (nw := positive_or (cc_proxyWorkerLimit s) proxyConnectionWorkerLimit). assert (0 < nw).
  { unfold nw, positive_or, proxyConnectionWorkerLimit. destruct (Z.leb_spec (cc_proxyWorkerLimit s) 0); lia. }
  destruct (inv_open_calls s Hi Hc) as (_ & _ & Ef). destruct Hi. destruct i_wg as [W1 W2 W3]. rewrite Hq in W2.
  destruct W2 as (Ers & Erd & Ews). rewrite <- El. constructor; try assumption; cbn.
  - constructor; [|done|by rewrite Ef]. rewrite Ews, Erd in *. cbn [app].
    rewrite total_replicate. rewrite total_nil in W1. cbn in *. lia.
  - destruct i_refs. constructor; try done.
    + intros c [= <-]. by constructor.
    + rewrite Ews. apply Forall_replicate. by split_and!.
    + intros c [= <-]. by constructor.
  - eapply inv_proxy_out; [|exact i_proxy]. intros u. unfold outst, outstanding. st.
    rewrite Hq, Ers, Ews, Erd. cbn. rewrite total_replicate. cbn. rewrite one_None. rewrite ?total_nil. lia.
Qed.

Lemma rejectProxyConnReqLocked_ok s sid tunnel e :
  inv s -> is_Some (cc_proxyRequests s) -> holds (has (cc_tunnelHeap s)) tunnel ->
  wp (rejectProxyConnReqLocked sid tunnel e) (handled s) s.
Proof.
  intros Hi [r Hr] Ht. apply wp_get. destruct (cc_proxyResponses s) as [q|] eqn:Hq; [|done].
  destruct (chan_try_send _ _) as [q'|] eqn:Eq; [|done]. apply chan_try_send_Some in Eq as (E & _).
  assert (Hrsp : chan_all (rsp_ok (has (cc_tunnelHeap s)) (has (wd_heap (cc_dg s)))) (Some q')).
  { intros c [= <-]. rewrite E. apply Forall_app. split.
    - by apply (ir_rsps _ _ _ _ _ _ _ _ _ _ _ _ (i_refs s Hi)).
    - apply Forall_singleton. split; [done|]. by intros ? [=]. }
  assert (Hout : forall u, outstanding (Some r) (cc_workers s) (Some q') (cc_responder s) u = outst s u + one u tunnel).
  { intros u. unfold outst, outstanding. rewrite Hr, Hq. cbn. rewrite E, total_app, total_cons. cbn.
    rewrite ?total_nil. lia. }
  apply wp_put. st. destruct tunnel as [t|].
  - assert (Heq : wp (addProxyResponseLocked t) (fun _ s' => inv s' /\ cc_reader s' = cc_reader s)
               {| s with cc_proxyRequests := Some r; cc_proxyResponses := Some q' |}).
    { apply addProxyResponseLocked_ok; [done|by apply Ht|by eexists|by eexists|by exists r| |done|done].
      rewrite <- Hr. apply (i_refs s Hi). }
    rewrite <- Hr in Heq. eapply wp_seq; [exact Heq|]. intros [] s' Hs'. exact Hs'.
  - split; [|done]. destruct Hi. constructor; try assumption; cbn.
    + destruct i_wg as [W1 W2 W3]. rewrite Hr in *. constructor; [done| |done]. split; [done|]. by destruct W2.
    + destruct i_refs. by constructor.
    + eapply inv_proxy_out; [|exact i_proxy]. intros u. unfold outst at 1. st. rewrite Hr, Hout, one_None. lia.
Qed.

Lemma proxyTransportLocked_ok {B} e (k : option dialer -> M B) Q s :
  inv s -> (forall d n pt, let s' := {| s with cc_next := n; cc_proxyTransports := pt |} in inv s' -> wp (k d) Q s') ->
  wp (bind (proxyTransportLocked e) k) Q s.
Proof.
  intros Hi Hk. assert (Hsame : forall d, wp (k d) Q s).
  { intros d. specialize (Hk d (cc_next s) (cc_proxyTransports s)). destruct s. by apply Hk. }
  apply wp_bind. destruct e as [e|]; [|by apply Hsame]. apply wp_get.
  destruct (map_get _ _); [by apply Hsame|]. apply wp_if; [intros _; by apply Hsame|]. intros _.
  apply wp_fresh. st. apply wp_get. st. apply Hk. pose proof (inv_fresh s Hi) as []. by constructor.
Qed.

Lemma handleProxyConnReq_ok s req :
  inv s -> cc_reader s = RReading -> cc_closed s = false -> wp (handleProxyConnReq req) (handled s) s.
Proof.
  intros Hi Hr Hc. destruct req as [r|]; [|done]. cbn [handleProxyConnReq].
  case_bool_decide; [done|]. eapply wp_seq; [by apply startProxyRuntimeLocked_ok|].
  intros e s1 (Hi1 & Hr1 & Hq1). unfold handled. rewrite Hr, <- Hr1.
  destruct e; [done|]. specialize (Hq1 eq_refl). apply wp_get.
  destruct (map_get (cc_tunnels s1) _) as [t|] eqn:Hm; [|by apply rejectProxyConnReqLocked_ok].
  destruct (it_map _ _ _ _ _ _ (i_tunnels s1 Hi1) _ _ Hm) as (x & Hx & _).
  assert (Ht : has (cc_tunnelHeap s1) t) by by exists x.
  assert (Hrej : forall e, wp (rejectProxyConnReqLocked (pr_StreamId r) (Some t) e) (handled s1) s1).
  { intros e. apply rejectProxyConnReqLocked_ok; [done..|]. by intros ? [= <-]. }
  apply wp_load_tunnel; [done|]. rewrite Hx. intros ? [= <-].
  destruct (t_ctx x); [|done]. destruct (redirect_incomplete _ _); [done|].
  apply proxyTransportLocked_ok; [done|]. intros d n pt s2 Hi2. apply wp_get.
  assert (Hrej2 : forall e, wp (rejectProxyConnReqLocked (pr_StreamId r) (Some t) e) (handled s1) s2).
  { intros e. apply (rejectProxyConnReqLocked_ok s2); [done..|]. by intros ? [= <-]. }
  destruct (cc_proxyRequests s2) as [q|] eqn:Hq; [|done].
  destruct (chan_try_send _ _) as [q'|] eqn:Eq; [|done]. apply chan_try_send_Some in Eq as (E & _).
  apply wp_put.
  assert (is_Some (cc_proxyResponses s2)) as [rs Hrs].
  { pose proof (iw_started _ _ _ _ _ _ _ _ (i_wg s2 Hi2)) as W. rewrite Hq in W.
    destruct (cc_proxyResponses s2); [eauto|]. by destruct W. }
  assert (Ha : wp (addProxyResponseLocked t) (fun _ s' => inv s' /\ cc_reader s' = cc_reader s2)
     {| s2 with cc_proxyRequests := Some q'; cc_proxyResponses := Some rs |}).
  { apply addProxyResponseLocked_ok; [done|done|by eexists|by eexists|by exists q|..].
    - intros c [= <-]. rewrite E. apply Forall_app. split.
      + by apply (ir_reqs _ _ _ _ _ _ _ _ _ _ _ _ (i_refs s2 Hi2)).
      + apply Forall_singleton. split_and!; cbn; [done| |].
        * intros l Hl. by destruct (it_dts _ _ _ _ _ _ (i_tunnels s2 Hi2) _ _ Hl).
        * by intros [[[_ ?]%andb_true_iff _]%andb_true_iff _]%andb_true_iff.
    - rewrite <- Hrs. apply (i_refs s2 Hi2).
    - intros u. unfold outst, outstanding. rewrite Hq, Hrs. cbn [buffer]. rewrite E, total_app, total_cons. cbn.
      rewrite ?total_nil. lia. }
  rewrite <- Hrs in Ha. eapply wp_seq; [exact Ha|]. intros [] s' Hs'. exact Hs'.
Qed.
End Handlers.

(** ** The read loop *)

Section ReadLoop.
Context `{Env}.

Lemma read_tail_ok s b e : inv s -> reader_runs (cc_reader s) = 1 -> wp (read_tail b e) (fun _ => inv) s.
Proof.
  intros Hi Hr. unfold read_tail. destruct b; [|destruct e]; by apply inv_set_reader; rewrite ?Hr.
Qed.

Definition message_refs (s : ctrl) (f : messageCleanup) : Prop :=
  holds (has (cc_tunnelHeap s)) (tc_cancel (mc_tunnel f)) /\ holds (has (cc_listenerHeap s)) (mc_listener f).

Lemma handleMessage_ok s msg :
  inv s -> cc_reader s = RReading -> msg <> MCloseTunnelRsp None ->
  wp (handleMessage msg) (fun r s' => inv s' /\ cc_reader s' = RReading /\
    forall f, r.1.2 = Some f -> message_refs s' f) s.
Proof.
  intros Hi Hr Hm.
  assert (Hdone : forall r : bool * option messageCleanup * option cc_error, r.1.2 = None ->
    inv s /\ cc_reader s = RReading /\ forall f, r.1.2 = Some f -> message_refs s f).
  { intros r E. rewrite E. done. }
  apply wp_get, wp_if; [by intros _; apply Hdone|]. intros Hc.
  assert (Hh : forall m : M (option cc_error), wp m (handled s) s ->
    wp (let! e := m in ret (false, None, e)) (fun r s' => inv s' /\ cc_reader s' = RReading /\
      forall f, r.1.2 = Some f -> message_refs s' f) s).
  { intros m Hw. eapply wp_seq; [exact Hw|]. intros e s' [Hs' Hr']. split_and!; [done|congruence|done]. }
  destruct msg as [rsp|[r|]|req|m| |h|].
  - by apply Hh, handleOpenTunnelRsp_ok.
  - eapply wp_seq; [by apply handleCloseTunnelRsp_ok|]. intros f s' (Hs' & Hr' & Hf).
    split_and!; [done|congruence|done].
  - done.
  - by apply Hh, handleProxyConnReq_ok.
  - eapply wp_seq; [by apply handleDatagramChannelClose_ok|]. intros f s' (Hs' & Hr' & Hf).
    split_and!; [done|congruence|]. intros g Hg. destruct (Hf g Hg) as [E1 E2].
    unfold message_refs. by rewrite E1, E2.
  - by apply Hdone.
  - by apply Hh, handleHeartbeat_ok.
  - by apply Hdone.
Qed.

Lemma readLoop_iteration_ok s ev :
  inv s -> (forall b, ev <> ReadMessage (MCloseTunnelRsp None) b) ->
  wp (readLoop_iteration ev) (fun _ => inv) s.
Proof.
  intros Hi Hev. apply wp_get. destruct (cc_reader s) eqn:Hr; try done.
  assert (Hset : forall e, wp (set_reader (RBreak e)) (fun _ => inv) s).
  { intros e. apply inv_set_reader; [done| |done]. by rewrite Hr. }
  destruct ev as [|msg b]; [done|]. apply wp_if; [done|]. intros Hc. apply wp_if; [done|]. intros _.
  eapply wp_seq; [apply handleMessage_ok; [done..|]; intros ->; by destruct (Hev b)|].
  intros [[close f] e] s' (Hs' & Hr' & Hf). cbn in Hf. destruct f as [f|].
  - apply inv_set_reader; [done|by rewrite Hr'|]. intros ? ? ? [= <- <- <-]. by apply Hf.
  - apply read_tail_ok; [done|]. by rewrite Hr'.
Qed.

Lemma readLoop_cleanup_ok s : inv s -> wp readLoop_cleanup (fun _ => inv) s.
Proof.
  intros Hi. apply wp_get. destruct (cc_reader s) as [|f b e| | |] eqn:Hr; try done.
  destruct (ir_reader _ _ _ _ _ _ _ _ _ _ _ _ (i_refs s Hi) f b e Hr) as [Ht Hl].
  apply wp_bind. apply tunnelCleanup_run_ok; [done..|]. intros h cs s1 Hi1 _.
  assert (Hrest : forall s2, inv s2 -> reader_runs (cc_reader s2) = 1 ->
    wp (initiate_closes (mc_channels f)) (fun _ => wp (read_tail b e) (fun _ => inv)) s2).
  { intros s2 Hi2 Hr2. unfold wp at 1, initiate_closes.
    apply read_tail_ok; [|done]. apply inv_dg; [apply dg_keeps_closes|done]. }
  destruct (mc_listener f) as [l|].
  - apply listener_Close_ok; [done|by apply Hl|]. intros lh w cs' s2 Hi2 _.
    apply Hrest; [done|]. cbn. by rewrite Hr.
  - apply wp_bind. unfold wp at 1, ret. apply Hrest; [done|]. cbn. by rewrite Hr.
Qed.
End ReadLoop.

(** ** Calls of the application *)

Section Calls.
Context `{Env}.

Lemma inv_store_call s p y :
  inv s -> inv_calls (cc_pendingTunnels s) (<[p := y]> (cc_calls s)) (clp s) (cc_uuids s) (cc_next s) ->
  inv {| s with cc_calls := <[p := y]> (cc_calls s) |}.
Proof.
  intros Hi Hc. pose proof (inv_set_calls s _ (cc_pendingTunnels s) (cc_uuids s) Hi ltac:(done) Hc) as Hs.
  by destruct s.
Qed.

Lemma inv_calls_new pend calls cl uuids n y :
  inv_calls pend calls cl uuids n -> ~ waits (ca_phase y) -> inv_calls pend (<[n := y]> calls) cl uuids (S n).
Proof.
  intros [H1 H2 H3 H4 H5] Hy.
  assert (Hn : forall p x, calls !! p = Some x -> p <> n).
  { intros p x Hp ->. specialize (H5 n ltac:(eauto)). lia. }
  constructor; try done.
  - intros r q Hq. destruct (H1 _ _ Hq) as (? & z & Hz & ?). split; [done|]. exists z.
    rewrite lookup_insert_ne; [done|]. apply not_eq_sym. eauto.
  - intros q Hq. destruct (H2 q Hq) as (z & Hz & ?). exists z.
    rewrite lookup_insert_ne; [done|]. apply not_eq_sym. eauto.
  - intros q z. destruct (decide (q = n)) as [->|]; [rewrite lookup_insert_eq|rewrite lookup_insert_ne by done; eauto].
    by intros [= <-].
  - intros q. destruct (decide (q = n)) as [->|]; [lia|]. rewrite lookup_insert_ne by done.
    intros Hq. specialize (H5 q Hq). lia.
Qed.

(** The registration of a request whose identifier is new. *)
Lemma inv_calls_register m calls uuids n rid :
  inv_calls (Some m) calls [] uuids n -> rid ∉ uuids ->
  inv_calls (Some (<[rid := n]> m)) (<[n := MkCall rid (make_chan 1) CSending]> calls) [] ({[rid]} ∪ uuids) (S n).
Proof.
  intros [H1 H2 H3 H4 H5] Hrid.
  assert (Hn : calls !! n = None).
  { destruct (calls !! n) eqn:E; [|done]. specialize (H5 n ltac:(eauto)). lia. }
  assert (Hm : m !! rid = None).
  { destruct (m !! rid) as [q|] eqn:E; [|done]. by destruct (H1 rid q E) as [? _]. }
  constructor; try done.
  - intros r q. cbn. destruct (decide (r = rid)) as [->|].
    + rewrite lookup_insert_eq. intros [= <-]. split; [by apply elem_of_union_l, elem_of_singleton|]. rewrite lookup_insert_eq.
      eexists. split_and!; [done..|]. by left.
    + rewrite lookup_insert_ne by done. intros Hq. destruct (H1 r q Hq) as (? & z & Hz & ?).
      split; [by apply elem_of_union_r|]. exists z. rewrite lookup_insert_ne by congruence. done.
  - by intros q ?%elem_of_nil.
  - intros q z. destruct (decide (q = n)) as [->|].
    + rewrite lookup_insert_eq. intros [= <-] _. left. cbn. by rewrite lookup_insert_eq.
    + rewrite lookup_insert_ne by done. intros Hz Hw. destruct (H4 q z Hz Hw) as [Hg|?]; [|by right].
      left. cbn in *. rewrite lookup_insert_ne by congruence. done.
  - intros q. destruct (decide (q = n)) as [->|]; [lia|]. rewrite lookup_insert_ne by done.
    intros Hq. specialize (H5 q Hq). lia.
Qed.

Lemma create_begin_ok s props rid :
  inv s -> rid ∉ cc_uuids s -> wp (create_begin props rid) (fun _ => inv) s.
Proof.
  intros Hi Hrid.
  assert (Hret : forall e, wp (let! p := fresh in
    store_call p (MkCall rid (make_chan 1) (CReturned (failed e)))) (fun _ => inv) s).
  { intros e. apply wp_fresh. st. unfold wp, store_call. st. pose proof (inv_fresh s Hi) as [].
    constructor; try assumption. cbn. apply inv_calls_new; [by destruct Hi|by intros []]. }
  unfold create_begin. destruct (validateFIPSTunnelProperties props); [done|].
  apply wp_get, wp_if; [done|]. intros Hc. apply wp_if; [done|]. intros _.
  destruct (normalizeCreateTunnelProperties _ _); [|done].
  apply wp_fresh. st. apply wp_store_call. st. apply wp_get. st.
  destruct (inv_open_calls s Hi Hc) as (Ecl & _).
  destruct (in_open _ _ _ _ _ _ (i_nil s Hi) Hc) as (Hp & _).
  apply wp_map_set; [done|]. intros m Em. unfold wp, put. st.
  pose proof (inv_set_calls _ (<[cc_next s := MkCall rid (make_chan 1) CSending]> (cc_calls s))
    (Some (<[rid := cc_next s]> m)) ({[rid]} ∪ cc_uuids s) (inv_fresh s Hi)) as Hs. st. cbn in Hs. apply Hs.
  - by split.
  - change (clp _) with (clp s). rewrite Ecl. apply inv_calls_register; [|done].
    rewrite <- Em, <- Ecl. by destruct Hi.
Qed.

(** A phase change of a call that is not waiting in the table. *)
Lemma set_phase_ok s p x ph :
  inv s -> cc_calls s !! p = Some x ->
  (map_get (cc_pendingTunnels s) (ca_requestID x) = Some p -> ph = CSending \/ ph = CWaiting) ->
  (waits ph -> waits (ca_phase x)) ->
  wp (set_phase p ph) (fun _ => inv) s.
Proof.
  intros Hi Hx Hm Hw. apply wp_load_call; [by exists x|]. rewrite Hx. intros ? [= <-].
  apply inv_store_call; [done|]. eapply inv_calls_update; eauto using i_calls.
  intros Hg. split; [|by apply Hm]. cbn. destruct (ic_map _ _ _ _ _ (i_calls s Hi) _ _ Hg) as (_ & z & Hz & _ & E & _).
  congruence.
Qed.

(** [withdraw] then a phase that does not wait. *)
Lemma withdraw_ok s p x (ph : bool -> callPhase) :
  inv s -> cc_calls s !! p = Some x -> ~ waits (ph true) ->
  (waits (ph false) -> waits (ca_phase x)) ->
  wp (let! b := withdraw (ca_requestID x) p in set_phase p (ph b)) (fun _ => inv) s.
Proof.
  intros Hi Hx Ht Hf. apply wp_bind. unfold withdraw. apply wp_get. apply wp_if; intros Hm.
  - apply bool_decide_eq_true in Hm. pose proof (pend_open s _ _ Hi Hm) as Hc.
    destruct (inv_open_calls s Hi Hc) as (Ecl & _). apply wp_put. st. unfold wp at 1, ret.
    apply wp_load_call; [by exists x|]. st. rewrite Hx. intros ? [= <-]. unfold wp, store_call. st.
    pose proof (inv_set_calls s (<[p := {| x with ca_phase := ph true |}]> (cc_calls s))
      (map_delete (cc_pendingTunnels s) (ca_requestID x)) (cc_uuids s) Hi) as Hs. apply Hs.
    + by rewrite is_Some_map_delete.
    + rewrite Ecl. eapply (inv_calls_settle _ _ _ _ x); [rewrite <- Ecl; by destruct Hi|done|done|done|by intros ?%Ht].
  - apply bool_decide_eq_false in Hm. unfold wp at 1, ret. by eapply set_phase_ok.
Qed.

Lemma create_send_ok s p w cause :
  inv s -> is_Some (cc_calls s !! p) -> wp (create_send p w cause) (fun _ => inv) s.
Proof.
  intros Hi [x Hx]. apply wp_load_call; [by exists x|]. rewrite Hx. intros ? [= <-].
  destruct (ca_phase x) as [| | |e r|] eqn:Hph; try done.
  - destruct w as [|n|e].
    + apply (set_phase_ok _ _ x); [done|done|by right|by rewrite Hph].
    + apply (withdraw_ok s p x (fun _ => CReturned _)); [done|done|by intros []|by intros []].
    + apply (withdraw_ok s p x (fun _ => CReporting _ _)); [done|done|by intros []|by intros []].
  - apply onError_keeps; [done|]. intros s' Hi' Ha. pose proof (as_calls _ _ Ha) as Ec.
    apply (set_phase_ok _ _ x); [done|by rewrite Ec| |by intros []].
    intros Hg. destruct (ic_map _ _ _ _ _ (i_calls s' Hi') _ _ Hg) as (_ & z & Hz & _ & _ & Hp).
    rewrite Ec, Hx in Hz. injection Hz as <-. rewrite Hph in Hp. by destruct Hp.
Qed.

Lemma await_receive_ok s p : inv s -> is_Some (cc_calls s !! p) -> wp (await_receive p) (fun _ => inv) s.
Proof.
  intros Hi [x Hx]. apply wp_load_call; [by exists x|]. rewrite Hx. intros ? [= <-].
  assert (Hgo : waits (ca_phase x) -> wp
    (match chan_buf (ca_respCh x) with
     | r :: rest => store_call p {| x with ca_respCh := Chan rest (chan_cap (ca_respCh x)) (chan_closed (ca_respCh x));
                                    ca_phase := CReturned (tunnelFromOpenResult (Some r)) |}
     | [] => if chan_closed (ca_respCh x) then set_phase p (CReturned (tunnelFromOpenResult None)) else disabled
     end) (fun _ => inv) s).
  { intros Hw. pose proof (i_calls s Hi) as Hc.
    assert (Hmap : map_get (cc_pendingTunnels s) (ca_requestID x) = Some p -> ca_respCh x = Chan [] 1 false).
    { intros Hg. destruct (ic_map _ _ _ _ _ Hc _ _ Hg) as (_ & z & Hz & _ & E & _). congruence. }
    assert (Hclp : p ∈ clp s -> ca_respCh x = Chan [] 1 false).
    { intros Hg. destruct (ic_cl _ _ _ _ _ Hc _ Hg) as (z & Hz & E). congruence. }
    destruct (chan_buf (ca_respCh x)) as [|r rest] eqn:Eb.
    - apply wp_if; [|done]. intros Ecl. apply (set_phase_ok _ _ x); [done|done| |by intros []].
      intros Hg. rewrite (Hmap Hg) in Ecl. done.
    - apply inv_store_call; [done|]. apply (inv_calls_update _ _ _ _ x); cbn; [done|done|done| | |by intros []].
      + intros Hg. by rewrite (Hclp Hg) in Eb.
      + intros Hg. by rewrite (Hmap Hg) in Eb. }
  destruct (ca_phase x); try done; by apply Hgo.
Qed.

Lemma await_context_ok s p c : inv s -> is_Some (cc_calls s !! p) -> wp (await_context p c) (fun _ => inv) s.
Proof.
  intros Hi [x Hx]. apply wp_load_call; [by exists x|]. rewrite Hx. intros ? [= <-].
  destruct (ca_phase x) eqn:Hph; try done.
  apply (withdraw_ok s p x (fun b => if b then CReturned (failed (ECause c)) else CLate)); [done|done|by intros []|].
  by rewrite Hph.
Qed.
End Calls.

(** ** Closing and accepting *)

Lemma inv_set_tunnelCloser s k t p :
  inv s -> has (cc_tunnelHeap s) t ->
  (forall g b, p = TDrain g b -> exists x, cc_tunnelHeap s !! t = Some x /\ t_proxyDrained x = Some g) ->
  inv {| s with cc_tunnelClosers := <[k := (t, p)]> (cc_tunnelClosers s) |}.
Proof.
  intros [] Ht Hp. constructor; try assumption; cbn.
  - destruct i_refs. constructor; try done. intros k' t' p'. destruct (decide (k' = k)) as [->|].
    + rewrite lookup_insert_eq. by intros [= <- <-].
    + rewrite lookup_insert_ne by done. eauto.
  - destruct i_proxy. constructor; try done. intros k' t' g b. destruct (decide (k' = k)) as [->|].
    + rewrite lookup_insert_eq. intros [= <- ->]. right. eauto.
    + rewrite lookup_insert_ne by done. eauto.
Qed.

Lemma inv_set_accepter s k t p :
  inv s -> has (cc_tunnelHeap s) t -> inv {| s with cc_accepters := <[k := (t, p)]> (cc_accepters s) |}.
Proof.
  intros [] Ht. constructor; try assumption; cbn. destruct i_refs. constructor; try done.
  intros k' t' p'. destruct (decide (k' = k)) as [->|].
  - rewrite lookup_insert_eq. by intros [= <- <-].
  - rewrite lookup_insert_ne by done. eauto.
Qed.

Lemma closedCh_some s : inv s -> ensureClosedSignalLocked s = s.
Proof.
  intros [_ He _ _ _ _ _ _]. unfold ensureClosedSignalLocked. destruct (cc_closed s) eqn:Hc; destruct He as [H1 H2].
  - destruct (H2 eq_refl) as (cl & _ & Hok). by rewrite (co_signal _ _ _ _ _ Hok).
  - destruct (H1 eq_refl) as (_ & _ & _ & _ & E & _). by rewrite E.
Qed.

Lemma close_begin_ok s : inv s -> wp close_begin (fun _ => inv) s.
Proof.
  intros Hi. apply wp_fresh. st. apply wp_get. cbv zeta. rewrite closedCh_some by by apply inv_fresh. st.
  pose proof (inv_fresh s Hi) as []. apply wp_if; intros _; apply wp_put; by constructor.
Qed.

Lemma inv_set_closer s k p : inv s -> inv {| s with cc_closers := <[k := p]> (cc_closers s) |}.
Proof. inv_frame. Qed.

Lemma close_next_ok s k ev : inv s -> wp (close_next k ev) (fun _ => inv) s.
Proof.
  intros Hi. apply wp_get. cbv zeta.
  assert (Hset : forall p, wp (set_closer k p) (fun _ => inv) s) by (intros p; by apply inv_set_closer).
  assert (Herr : forall e p, wp (do! onError e ByCaller in set_closer k p) (fun _ => inv) s).
  { intros e p. apply onError_keeps; [done|]. intros s' Hs' _. by apply inv_set_closer. }
  destruct (cc_closers s !! k) as [[]|], ev; try done; by destruct (bool_decide _).
Qed.

Lemma tunnel_signal s t x :
  inv s -> cc_tunnelHeap s !! t = Some x -> tunnel_ensureClosedSignalLocked x = x.
Proof.
  intros [] Hx. destruct (it_obj _ _ _ _ _ _ i_tunnels t x Hx).
  unfold tunnel_ensureClosedSignalLocked. by rewrite to_signal.
Qed.

Lemma tunnel_close_begin_ok s t :
  inv s -> has (cc_tunnelHeap s) t -> wp (tunnel_close_begin t) (fun _ => inv) s.
Proof.
  intros Hi [x Hx]. apply wp_fresh. pose proof (inv_fresh s Hi) as Hf.
  apply wp_load_tunnel; [by exists x|]. st. rewrite Hx. intros ? [= <-]. apply wp_if; intros Hc.
  - apply (inv_set_tunnelCloser {| s with cc_next := S (cc_next s) |}); [done|by exists x|done].
  - cbv zeta. rewrite (tunnel_signal s t x) by done. apply wp_store_tunnel. st.
    pose proof (it_obj _ _ _ _ _ _ (i_tunnels s Hi) t x Hx) as []. destruct to_conns.
    assert (Hs : inv {| s with cc_next := S (cc_next s);
              cc_tunnelHeap := <[t := {| x with t_closing := true |}]> (cc_tunnelHeap s) |}).
    { apply (inv_touch_tunnel {| s with cc_next := S (cc_next s) |} t x); eauto. }
    apply (inv_set_tunnelCloser _ (cc_next s) t _ Hs); st.
    + unfold has. rewrite lookup_insert_eq. eauto.
    + intros g b Hp. destruct (t_proxyDrained x) as [sig|] eqn:Ed.
      * simplify_eq. rewrite lookup_insert_eq. eauto.
      * by destruct (t_closing x).
Qed.

Lemma tunnel_close_next_ok s k ev : inv s -> wp (tunnel_close_next k ev) (fun _ => inv) s.
Proof.
  intros Hi. apply wp_get. destruct (cc_tunnelClosers s !! k) as [[t p]|] eqn:Hk; [|done].
  pose proof (ir_closers _ _ _ _ _ _ _ _ _ _ _ _ (i_refs s Hi) _ _ _ Hk) as Ht.
  apply wp_load_tunnel; [done|]. intros x Hx. cbv zeta.
  assert (Hset : forall q, (forall g b, q <> TDrain g b) -> wp (set_tunnelCloser k t q) (fun _ => inv) s).
  { intros q Hq. apply inv_set_tunnelCloser; [done..|]. intros g b E. by destruct (Hq g b). }
  assert (Herr : forall e q, (forall g b, q <> TDrain g b) ->
             wp (do! onError e ByCaller in set_tunnelCloser k t q) (fun _ => inv) s).
  { intros e q Hq. apply onError_keeps; [done|]. intros s' Hs' Ha. apply inv_set_tunnelCloser; [done|..].
    - by rewrite (as_tunnels _ _ Ha).
    - intros g b E. by destruct (Hq g b). }
  destruct p, ev; try done; try (apply Hset; done); try (apply Herr; done);
    repeat (apply wp_if; intros _); try done; try (apply Hset; done); try (apply Herr; done).
  by apply Hset; destruct send.
Qed.

Lemma accept_begin_ok s t : inv s -> has (cc_tunnelHeap s) t -> wp (accept_begin t) (fun _ => inv) s.
Proof.
  intros Hi [x Hx]. apply wp_fresh. pose proof (inv_fresh s Hi) as Hf.
  apply wp_load_tunnel; [by exists x|]. st. rewrite Hx. intros ? [= <-]. apply wp_if; intros Hc.
  - apply (inv_set_accepter {| s with cc_next := S (cc_next s) |}); [done|by exists x].
  - rewrite (tunnel_signal s t x) by done. apply wp_store_tunnel. st. rewrite insert_id by done.
    apply (inv_set_accepter {| s with cc_next := S (cc_next s) |}); [done|by exists x].
Qed.

Lemma accept_next_ok s k take : inv s -> wp (accept_next k take) (fun _ => inv) s.
Proof.
  intros Hi. apply wp_get. destruct (cc_accepters s !! k) as [[t p]|] eqn:Hk; [|done].
  pose proof (ir_accepters _ _ _ _ _ _ _ _ _ _ _ _ (i_refs s Hi) _ _ _ Hk) as Ht.
  destruct p as [|conn|]; [..|done]; (apply wp_load_tunnel; [done|]; intros x Hx).
  - apply wp_if; intros _.
    + destruct (chan_buf (t_conns x)) as [|conn r] eqn:Eb; [done|].
      pose proof (it_obj _ _ _ _ _ _ (i_tunnels s Hi) t x Hx) as []. destruct to_conns as [Hcap Hb].
      apply wp_store_tunnel. st.
      assert (Hs : inv {| s with cc_tunnelHeap :=
        <[t := {| x with t_conns := Chan r (chan_cap (t_conns x)) (chan_closed (t_conns x)) |}]> (cc_tunnelHeap s) |}).
      { eapply inv_touch_tunnel; eauto. unfold chan_bounded in *. rewrite Eb in Hb. cbn in *. lia. }
      apply (inv_set_accepter _ k t _ Hs). by apply has_insert.
    + apply wp_if; [|done]. intros _. by apply inv_set_accepter.
  - apply wp_if; intros _; [|by apply inv_set_accepter].
    apply wp_close_conns; [done|]. intros c Hc. by apply (inv_set_accepter {| s with cc_closedConns := c |}).
Qed.

Lemma inv_hand s q : inv s -> inv {| s with cc_handed := q |}.
Proof. inv_frame. Qed.

Lemma listener_accept_ok s l : inv s -> has (cc_listenerHeap s) l -> wp (listener_accept l) (fun _ => inv) s.
Proof.
  intros Hi Hl. apply wp_load_listener; [done|]. intros x Hx.
  destruct (chan_buf (l_conns x)) as [|q r] eqn:Eb; [done|]. apply wp_store_listener, wp_get. st.
  match goal with |- wp _ _ ?s1 => assert (Hi1 : inv s1) end.
  { eapply inv_store_listener; eauto. cbn. intros a Ha. eapply (i_queues s Hi); [done|]. rewrite Eb. by right. }
  destruct q as [c|a].
  - apply wp_if; intros _; [exact (inv_conns _ _ Hi1)|exact (inv_hand _ _ Hi1)].
  - assert (has (wd_heap (cc_dg s)) a) as [ch Hch].
    { eapply (i_queues s Hi); [done|]. rewrite Eb. by left. }
    rewrite Hch. apply wp_if; intros _; [by apply initiate_closes_ok|].
    destruct (accept ch) as [ch' first]. apply wp_put. st.
    match goal with |- wp _ _ ?s2 => assert (Hi2 : inv s2) end.
    { apply (inv_dg _ {| (cc_dg s) with wd_heap := <[a := ch']> (wd_heap (cc_dg s)) |}) in Hi1; [exact Hi1|].
      constructor; cbn; [eauto using has_insert|done]. }
    repeat (apply wp_if; intros _); [by apply initiate_closes_ok|done|]. apply wp_get. exact (inv_hand _ _ Hi2).
Qed.

Lemma notify_ok s ev : inv s -> wp (notifyDatagramChannelClose ev) (fun _ => inv) s.
Proof.
  intros Hi. apply wp_get, wp_if; intros _; [done|]. destruct ev; [done|by apply wp_onError].
Qed.

(** ** The cleanup *)

Lemma cleanup_closed s cl :
  inv s -> cc_cleanup s = Some cl ->
  cc_closed s = true /\ cleanup_ok cl (cc_err s) (cc_lifecycleCtx s) (cc_closedCh s) (cc_doneCh s).
Proof.
  intros [] Hcl. destruct i_end as [H1 H2]. destruct (cc_closed s) eqn:Hc.
  - destruct (H2 eq_refl) as (cl' & E & Hok). split; [done|]. by simplify_eq.
  - destruct (H1 eq_refl) as (_ & E & _). congruence.
Qed.

(** The cleanup goes on: what it leaves ([cl']) and what it changed. *)
Lemma inv_advance s cl cl' calls h lctx :
  inv s -> cc_cleanup s = Some cl -> cl_finished cl' = cl_finished cl ->
  cleanup_ok cl' (cc_err s) lctx (cc_closedCh s) (cc_doneCh s) ->
  inv_calls (cc_pendingTunnels s) calls (cl_pendingTunnels cl') (cc_uuids s) (cc_next s) ->
  inv_tunnels (cc_tunnels s) (cc_datagramTunnels s) h (cc_listenerHeap s) (cl_tunnels cl') (cc_next s) ->
  inv_proxy (outst s) h (cc_signals s) (cc_tunnelClosers s) (cc_next s) (cc_closed s) ->
  (forall a, has (cc_tunnelHeap s) a -> has h a) ->
  (forall tc, cl_tunnelCleanup cl' = Some tc -> holds (has h) (tc_cancel tc)) ->
  Forall (has (cc_listenerHeap s)) (cl_datagramTunnels cl') ->
  inv {| s with cc_cleanup := Some cl'; cc_calls := calls; cc_tunnelHeap := h; cc_lifecycleCtx := lctx |}.
Proof.
  intros Hi Hcl Hfin Hok Hcalls Htun Hpr Hmono Htc Hdt.
  destruct (cleanup_closed s cl Hi Hcl) as [Hc _]. destruct Hi. constructor; try assumption; cbn.
  - constructor; [congruence|]. intros _. eauto.
  - rewrite Hcl in i_wg. cbn in *. by rewrite Hfin.
  - eapply (inv_refs_mono _ (has (cc_tunnelHeap s)) _ _ (has h)) in i_refs; [|done..].
    destruct i_refs. constructor; try done. by intros ? [= <-].
Qed.

(** ... when only the list of what remains changes. *)
Lemma inv_cleanup s cl cl' :
  inv s -> cc_cleanup s = Some cl -> cl_finished cl' = cl_finished cl ->
  cleanup_ok cl' (cc_err s) (cc_lifecycleCtx s) (cc_closedCh s) (cc_doneCh s) ->
  cl_pendingTunnels cl' = cl_pendingTunnels cl -> cl_tunnels cl' = cl_tunnels cl ->
  (forall tc, cl_tunnelCleanup cl' = Some tc -> cl_tunnelCleanup cl = Some tc) ->
  (forall l, l ∈ cl_datagramTunnels cl' -> l ∈ cl_datagramTunnels cl) ->
  inv {| s with cc_cleanup := Some cl' |}.
Proof.
  intros Hi Hcl Hfin Hok Hp Ht Htc Hdt.
  assert (Hs : inv {| s with cc_cleanup := Some cl'; cc_calls := cc_calls s; cc_tunnelHeap := cc_tunnelHeap s;
                             cc_lifecycleCtx := cc_lifecycleCtx s |}).
  { assert (Hi' := Hi). destruct Hi'. unfold clp, clt in *. rewrite Hcl in i_calls, i_tunnels.
    destruct (ir_cleanup _ _ _ _ _ _ _ _ _ _ _ _ i_refs cl Hcl) as [H1 H2].
    eapply inv_advance; eauto.
    - by rewrite Hp.
    - by rewrite Ht.
    - apply Forall_forall. intros l Hl. eapply Forall_forall in H2; eauto. }
  by destruct s.
Qed.

Lemma inv_calls_pop calls p x r uuids n :
  inv_calls None calls (p :: r) uuids n -> calls !! p = Some x ->
  inv_calls None (<[p := {| x with ca_respCh := Chan (chan_buf (ca_respCh x)) (chan_cap (ca_respCh x)) true |}]> calls)
    r uuids n.
Proof.
  intros [H1 H2 H3 H4 H5] Hx. apply NoDup_cons in H3 as [Hp Hr]. constructor; try done.
  - intros q Hq. destruct (H2 q ltac:(by right)) as (z & Hz & E). exists z.
    rewrite lookup_insert_ne by congruence. done.
  - intros q z. destruct (decide (q = p)) as [->|].
    + rewrite lookup_insert_eq. intros [= <-] _. by right; right; right.
    + rewrite lookup_insert_ne by done. intros Hz Hw. destruct (H4 q z Hz Hw) as [?|[Hq|?]]; [done| |by right; right].
      right. left. by apply elem_of_cons in Hq as [?|?].
  - intros q. destruct (decide (q = p)) as [->|]; [eauto|]. rewrite lookup_insert_ne by done. eauto.
Qed.

(** A tunnel of the list closes. *)
Lemma inv_tunnels_pop ds h lh t x r n e :
  inv_tunnels None ds h lh (t :: r) n -> h !! t = Some x -> inv_tunnels None ds (<[t := closed_tunnel x e]> h) lh r n.
Proof.
  intros [] Hx. constructor; try done.
  - intros u Hu. apply (has_insert h). apply it_cl. by right.
  - intros u z. destruct (decide (u = t)) as [->|].
    + rewrite lookup_insert_eq. intros [= <-]. destruct (it_obj t x Hx). constructor; try done.
      split; [by destruct to_conns|]. unfold chan_bounded. cbn. lia.
    + rewrite lookup_insert_ne by done. intros Hz. destruct (it_obj u z Hz). constructor; try done.
      intros Ho. destruct (to_open Ho) as [?|Hu]; [done|]. right. by apply elem_of_cons in Hu as [?|?].
  - intros u. destruct (decide (u = t)) as [->|]; [eauto|]. rewrite lookup_insert_ne by done. eauto.
Qed.

(** Tunnels already closed leave the list. *)
Lemma inv_tunnels_skip ds h lh t x r n :
  inv_tunnels None ds h lh (t :: r) n -> h !! t = Some x -> t_closed x = true -> inv_tunnels None ds h lh r n.
Proof.
  intros [] Hx Hc. constructor; try done.
  - intros u Hu. apply it_cl. by right.
  - intros u z Hz. destruct (it_obj u z Hz). constructor; try done.
    intros Ho. destruct (to_open Ho) as [?|Hu]; [done|]. right. apply elem_of_cons in Hu as [->|?]; [congruence|done].
Qed.

(** The part of the cleanup that ends calls and tunnels. *)
Lemma cleanup_pending_ok s cl p r :
  inv s -> cc_cleanup s = Some cl -> cl_pendingTunnels cl = p :: r ->
  wp (do! close_response p in set_cleanup {| cl with cl_pendingTunnels := r |}) (fun _ => inv) s.
Proof.
  intros Hi Hcl Hp. destruct (cleanup_closed s cl Hi Hcl) as [Hc Hok].
  pose proof (i_calls s Hi) as Hcalls. unfold clp in Hcalls. rewrite Hcl, Hp in Hcalls.
  destruct (in_closed _ _ _ _ _ _ (i_nil s Hi) Hc) as (En & _).
  destruct (ic_cl _ _ _ _ _ Hcalls p ltac:(by left)) as (x & Hx & Ech).
  apply wp_bind. apply wp_load_call; [by exists x|]. rewrite Hx. intros ? [= <-]. rewrite Ech. cbn [chan_closed].
  unfold wp at 1, store_call. unfold wp, set_cleanup. st.
  assert (Hs : inv {| s with cc_cleanup := Some {| cl with cl_pendingTunnels := r |};
     cc_calls := <[p := {| x with ca_respCh := Chan [] 1 true |}]> (cc_calls s);
     cc_tunnelHeap := cc_tunnelHeap s; cc_lifecycleCtx := cc_lifecycleCtx s |}).
  { assert (Hi' := Hi). destruct Hi'. unfold clt in i_tunnels. rewrite Hcl in i_tunnels.
    destruct (ir_cleanup _ _ _ _ _ _ _ _ _ _ _ _ i_refs cl Hcl) as [H1 H2].
    eapply inv_advance; eauto; cbn.
    - destruct Hok. constructor; try done; cbn.
      + intros E. destruct (co_order E) as (E' & _). by rewrite Hp in E'.
      + intros E. destruct (co_finishing E) as (E' & _). by rewrite Hp in E'.
    - rewrite En in *. apply (inv_calls_pop _ _ x) in Hcalls; [|done]. by rewrite Ech in Hcalls. }
  by destruct s.
Qed.

Lemma cleanup_tunnel_ok s cl t r :
  inv s -> cc_cleanup s = Some cl -> cl_pendingTunnels cl = [] -> cl_tunnelCleanup cl = None -> cl_tunnels cl = t :: r ->
  wp (let! tc := tunnel_onErrorLocked t (option_map EControlClosed (cl_err cl)) in
      set_cleanup {| cl with cl_tunnels := r; cl_tunnelCleanup := Some tc |}) (fun _ => inv) s.
Proof.
  intros Hi Hcl Hp Hn Ht. destruct (cleanup_closed s cl Hi Hcl) as [Hc Hok].
  destruct (in_closed _ _ _ _ _ _ (i_nil s Hi) Hc) as (_ & En & _).
  assert (Hi' := Hi). destruct Hi'. unfold clt, clp in *. rewrite Hcl in i_calls, i_tunnels. rewrite Ht, En in i_tunnels.
  destruct (ir_cleanup _ _ _ _ _ _ _ _ _ _ _ _ i_refs cl Hcl) as [H1 H2].
  destruct (it_cl _ _ _ _ _ _ i_tunnels t ltac:(by left)) as [x Hx].
  assert (Hok' : forall tc, cleanup_ok {| cl with cl_tunnels := r; cl_tunnelCleanup := Some tc |} (cc_err s)
                   (cc_lifecycleCtx s) (cc_closedCh s) (cc_doneCh s)).
  { intros tc. destruct Hok. constructor; try done; cbn.
    - intros E. destruct (co_order E) as (_ & E' & _). by rewrite Ht in E'.
    - intros E. destruct (co_finishing E) as (_ & E' & _). by rewrite Ht in E'. }
  destruct (t_closed x) eqn:Ec.
  - apply wp_bind. apply wp_load_tunnel; [by exists x|]. rewrite Hx. intros ? [= <-]. rewrite Ec.
    unfold wp at 1, ret. unfold wp, set_cleanup.
    assert (Hs : inv {| s with cc_cleanup := Some {| cl with cl_tunnels := r; cl_tunnelCleanup := Some no_cleanup |};
       cc_calls := cc_calls s; cc_tunnelHeap := cc_tunnelHeap s; cc_lifecycleCtx := cc_lifecycleCtx s |}).
    { eapply inv_advance; eauto; cbn; [rewrite En; by eapply inv_tunnels_skip|]. by intros ? [= <-]. }
    by destruct s.
  - apply wp_bind. pose proof (it_obj _ _ _ _ _ _ i_tunnels t x Hx) as [].
    apply (wp_tunnel_onErrorLocked t x); [done|done|by rewrite to_signal, Ec|]. unfold wp, set_cleanup. st.
    set (e := option_map EControlClosed (cl_err cl)).
    match goal with |- context [Some {| cl with cl_tunnels := r; cl_tunnelCleanup := Some ?tc |}] =>
      assert (Hs : inv {| s with cc_cleanup := Some {| cl with cl_tunnels := r; cl_tunnelCleanup := Some tc |};
        cc_calls := cc_calls s; cc_tunnelHeap := <[t := closed_tunnel x e]> (cc_tunnelHeap s);
        cc_lifecycleCtx := cc_lifecycleCtx s |}) end.
    { eapply inv_advance; eauto using has_insert; cbn.
      - rewrite En. by apply inv_tunnels_pop.
      - by eapply inv_proxy_update.
      - intros ? [= <-]. cbn. destruct (t_cancel x); [|done]. intros ? [= <-]. unfold has.
        rewrite lookup_insert_eq. eauto. }
    by destruct s.
Qed.

(** A change of the list that [cleanup_ok] does not constrain further. *)
Lemma cleanup_ok_shrink cl cl' err lctx sig d :
  cleanup_ok cl err lctx sig d -> cl_finishing cl = false -> cl_finishing cl' = false ->
  cl_err cl' = cl_err cl -> cl_lifecycleCancel cl' = cl_lifecycleCancel cl -> cl_finished cl' = cl_finished cl ->
  cl_pendingTunnels cl' = cl_pendingTunnels cl -> cl_tunnels cl' = cl_tunnels cl ->
  (cl_tunnelCleanup cl = None -> cl_tunnelCleanup cl' = None) ->
  cleanup_ok cl' err lctx sig d.
Proof.
  intros [] E1 E2 E3 E4 E5 E6 E7 E8.
  constructor; rewrite ?E2, ?E3, ?E4, ?E5, ?E6, ?E7; try done.
  - intros E. destruct (co_order E) as (? & ? & ?). auto.
  - intros E. specialize (co_finished E). congruence.
Qed.

Lemma inv_shrink s cl cl' :
  inv s -> cc_cleanup s = Some cl -> cl_finishing cl = false -> cl_finishing cl' = false ->
  cl_err cl' = cl_err cl -> cl_lifecycleCancel cl' = cl_lifecycleCancel cl -> cl_finished cl' = cl_finished cl ->
  cl_pendingTunnels cl' = cl_pendingTunnels cl -> cl_tunnels cl' = cl_tunnels cl ->
  (cl_tunnelCleanup cl' = None \/ cl_tunnelCleanup cl' = cl_tunnelCleanup cl) ->
  (forall l, l ∈ cl_datagramTunnels cl' -> l ∈ cl_datagramTunnels cl) ->
  inv {| s with cc_cleanup := Some cl' |}.
Proof.
  intros Hi Hcl E1 E2 E3 E4 E5 E6 E7 E8 E9. destruct (cleanup_closed s cl Hi Hcl) as [Hc Hok].
  eapply inv_cleanup; eauto.
  - eapply cleanup_ok_shrink; eauto. by destruct E8 as [->| ->].
  - intros tc Htc. destruct E8 as [E|E]; congruence.
Qed.

Lemma inv_transports s m : inv s -> inv {| s with cc_transportEnds := m |}.
Proof. inv_frame. Qed.
Lemma inv_conn s : inv s -> inv {| s with cc_connClosed := true |}.
Proof. inv_frame. Qed.

Lemma not_finishing s cl :
  inv s -> cc_cleanup s = Some cl -> ~ cleanup_done cl -> cl_finishing cl = false.
Proof.
  intros Hi Hcl Hd. destruct (cleanup_closed s cl Hi Hcl) as [_ []].
  destruct (cl_finishing cl) eqn:E; [|done]. by destruct (Hd (co_finishing eq_refl)).
Qed.

(** The lifecycle context is cancelled once the calls and tunnels are ended. *)
Lemma cleanup_cancel_ok s cl :
  inv s -> cc_cleanup s = Some cl -> cl_pendingTunnels cl = [] -> cl_tunnelCleanup cl = None -> cl_tunnels cl = [] ->
  cl_lifecycleCancel cl = true ->
  inv {| s with cc_lifecycleCtx := option_map (fun _ => true) (cc_lifecycleCtx s);
                cc_cleanup := Some {| cl with cl_lifecycleCancel := false |} |}.
Proof.
  intros Hi Hcl Hp Htc Ht Hcan. destruct (cleanup_closed s cl Hi Hcl) as [Hc Hok].
  assert (Hnf : cl_finishing cl = false).
  { eapply not_finishing; eauto. intros (_ & _ & _ & E & _). congruence. }
  assert (Hs : inv {| s with cc_cleanup := Some {| cl with cl_lifecycleCancel := false |};
    cc_calls := cc_calls s; cc_tunnelHeap := cc_tunnelHeap s;
    cc_lifecycleCtx := option_map (fun _ => true) (cc_lifecycleCtx s) |}).
  { assert (Hi' := Hi). destruct Hi'. unfold clp, clt in *. rewrite Hcl in i_calls, i_tunnels.
    destruct (ir_cleanup _ _ _ _ _ _ _ _ _ _ _ _ i_refs cl Hcl) as [H1 H2].
    eapply inv_advance; eauto; cbn.
    destruct Hok. constructor; try done; cbn; [|by rewrite Hnf]. by rewrite co_ctx. }
  by destruct s.
Qed.

Lemma cleanup_run_ok s : inv s -> wp (with_cleanup cleanup_run) (fun _ => inv) s.
Proof.
  intros Hi. unfold wp, with_cleanup. destruct (cc_cleanup s) as [cl|] eqn:Hcl; [|done].
  change (wp (cleanup_run cl) (fun _ => inv) s). unfold cleanup_run.
  apply wp_list; [intros p r Hp; by apply cleanup_pending_ok|intros Hp].
  destruct (ir_cleanup _ _ _ _ _ _ _ _ _ _ _ _ (i_refs s Hi) cl Hcl) as [H1 H2].
  apply wp_option; [intros tc Htc|intros Htc].
  { assert (Hnf : cl_finishing cl = false).
    { eapply not_finishing; eauto. intros (_ & _ & E & _). congruence. }
    apply tunnelCleanup_run_ok; [done|by apply H1|]. intros h cs s' Hi' _.
    eapply (inv_shrink s' cl); eauto. }
  apply wp_list; [intros t r Ht; by apply cleanup_tunnel_ok|intros Ht].
  apply wp_if; intros Hcan.
  { apply wp_get, wp_put. exact (cleanup_cancel_ok s cl Hi Hcl Hp Htc Ht Hcan). }
  apply wp_list; [intros l r Hdt|intros Hdt].
  { assert (Hnf : cl_finishing cl = false).
    { eapply not_finishing; eauto. intros (_ & _ & _ & _ & E & _). congruence. }
    rewrite Hdt in H2. apply listener_Close_ok; [done|by apply Forall_cons in H2 as [? _]|]. intros lh w cs s' Hi' _.
    eapply (inv_shrink s' cl); eauto. cbn. rewrite Hdt. by right. }
  apply wp_list; [intros a r Hdc|intros Hdc].
  { assert (Hnf : cl_finishing cl = false).
    { eapply not_finishing; eauto. intros (_ & _ & _ & _ & _ & E & _). congruence. }
    apply wp_get. apply wp_bind, wp_if; intros _.
    - unfold wp at 1, ret. eapply (inv_shrink s cl); eauto.
    - unfold wp at 1, initiate_closes.
      assert (Hs : inv {| s with cc_dg := fold_left (fun w a => close_channel w (cc_now s) a) [a] (cc_dg s) |})
        by (apply inv_dg; [apply dg_keeps_closes|done]).
      eapply (inv_shrink _ cl _ Hs); eauto. }
  apply wp_list; [intros d r Hpt|intros Hpt].
  { assert (Hnf : cl_finishing cl = false).
    { eapply not_finishing; eauto. intros (_ & _ & _ & _ & _ & _ & E & _). congruence. }
    apply wp_get, wp_put.
    eapply (inv_shrink _ cl _ (inv_transports s _ Hi)); eauto. }
  apply wp_if; intros Hconn.
  { assert (Hnf : cl_finishing cl = false).
    { eapply not_finishing; eauto. intros (_ & _ & _ & _ & _ & _ & _ & E). congruence. }
    apply wp_get, wp_put. eapply (inv_shrink _ cl _ (inv_conn s Hi)); eauto. }
  apply wp_if; [done|]. intros Hnf. destruct (cleanup_closed s cl Hi Hcl) as [Hc Hok].
  eapply (inv_cleanup s cl); eauto. destruct Hok. constructor; try done; cbn.
Qed.

Lemma cleanup_finish_ok s : inv s -> wp (with_cleanup cleanup_finish) (fun _ => inv) s.
Proof.
  intros Hi. unfold wp, with_cleanup. destruct (cc_cleanup s) as [cl|] eqn:Hcl; [|done].
  change (wp (cleanup_finish cl) (fun _ => inv) s). unfold cleanup_finish.
  apply wp_if; [done|]. intros [Hf Hnf]%orb_false_iff. apply negb_false_iff in Hf.
  destruct (cleanup_closed s cl Hi Hcl) as [Hc Hok]. destruct Hok. rewrite Hnf in co_done, co_signal.
  apply wp_get, wp_if; [done|]. intros Hwg%negb_false_iff%Z.eqb_eq.
  rewrite co_done, co_signal. cbn. destruct Hi. constructor; try assumption; cbn.
  - constructor; [congruence|]. intros _. eexists. split; [done|]. constructor; try done; cbn; try done.
    by rewrite co_err.
  - destruct i_wg. by constructor.
  - unfold clp in *. by rewrite Hcl in i_calls.
  - unfold clt in *. by rewrite Hcl in i_tunnels.
  - destruct i_refs. constructor; try done. intros ? [= <-]. by apply (ir_cleanup cl).
Qed.

(** ** Every step *)

Theorem inv_step `{Env} s a : inv s -> admissible s a -> wp (step a) (fun _ => inv) s.
Proof.
  intros Hi Ha. destruct a; cbn [step].
  - by apply create_begin_ok.
  - by apply create_send_ok.
  - by apply await_receive_ok.
  - by apply await_context_ok.
  - apply readLoop_iteration_ok; [done|]. by intros b ->.
  - by apply readLoop_cleanup_ok.
  - by apply readLoop_end_ok.
  - by apply heartbeatLoop_ok.
  - by apply worker_take_ok.
  - by apply worker_exit_ok.
  - by apply worker_process_ok.
  - by apply worker_deliver_ok.
  - by apply worker_respond_ok.
  - by apply proxyConnectionResponseLoop_ok.
  - by apply close_begin_ok.
  - by apply close_next_ok.
  - by apply tunnel_close_begin_ok.
  - by apply tunnel_close_next_ok.
  - by apply accept_begin_ok.
  - by apply accept_next_ok.
  - by apply listener_accept_ok.
  - by apply cleanup_run_ok.
  - by apply cleanup_finish_ok.
  - by apply notify_ok.
  - eapply wp_mono; [apply dg_keeps_transport|]. intros [] s' (w & -> & Hw). by apply inv_dg.
  - destruct Hi. by constructor.
Qed.

Lemma inv_Connected i t b p w q r : inv (Connected i t b p w q r).
Proof.
  constructor; cbn.
  - constructor; [done|]. intros _. split_and!; [eauto..|]. intros ->. split; eauto.
  - constructor; [|done]. by intros _.
  - constructor; [by destruct b|done|done].
  - constructor; [done|by intros ? ?%elem_of_nil|constructor|done|]. by intros p' [? ?].
  - constructor; [done|by intros ? ?%elem_of_nil|done| | |].
    + intros id l. by destruct p.
    + by intros t' [? ?].
    + by intros t' [? ?].
  - by constructor.
  - by intros l x a.
  - constructor; [done|done|done|done|]. by intros g ?%elem_of_empty.
Qed.

Lemma inv_reachable `{Env} s : reachable s -> inv s.
Proof.
  intros (i & t & b & p & w & q & r & Hr).
  eapply (rtc_invariant moves inv); [|done|apply inv_Connected].
  intros s1 s2 (a & Ha & E) Hi. pose proof (inv_step s1 a Hi Ha) as Hw. unfold wp in Hw. by rewrite E in Hw.
Qed.
