(* ===== verification/ControlProps.v ===== *)
(** * ControlProps: what the control channel promises

    Consequences of the invariant for every channel [Connect] returned and every
    interleaving of its goroutines: no panic and no lost answer; one tunnel per
    identifier; exact accounting of the proxy responses a [Close] waits for;
    one recorded error, published once; and the channel can always finish. *)

From S2P Require Import Prelude GoStrings Framing Cors TunnelProps Deadline Datagram ControlChannel ControlInv ControlSteps.

(** ** An environment and a run for the witnesses *)

#[export] Instance sample_env : Env := {|
  env_ValidHeaderFieldName := fun _ => true;
  env_AsTime := fun x => x;
  env_fipsBuild := false;
  env_selectsQUIC := true |}.

Definition sample_ctrl : ctrl := Connected 5000000000 0 true true 2 2 2.

Definition opened (rid id : string) : message :=
  MOpenTunnelRsp (Some (MkOpenTunnelRsp rid
    (PayloadTunnelProperties (toTunnelPropertiesPb (fun x => x) {| blank_props with ID := Some id |})))).

Definition proxied (sid id : string) : message :=
  MProxyConnReq (Some (MkProxyConnReq sid id None None [])).

Definition got (m : message) : action := ARead (ReadMessage m false).

(** Two calls; the first opens tunnel ["t1"], which then has a proxy request. *)
Definition sample_acts : list action :=
  [ACreate blank_props "r1"; ACreateSend 0 Written None; ACreate blank_props "r2"; ACreateSend 1 Written None;
   got (opened "r1" "t1"); AReceive 0; got (proxied "s1" "t1")].

(** Admissibility, decided along a run. *)
Definition admissibleb (s : ctrl) (a : action) : bool :=
  match a with
  | ACreate _ requestID => negb (bool_decide (requestID ∈ cc_uuids s))
  | ARead (ReadMessage (MCloseTunnelRsp None) _) => false
  | ACreateSend p _ _ | AReceive p | AContext p _ => bool_decide (is_Some (cc_calls s !! p))
  | ATunnelClose t | AAccept t => bool_decide (is_Some (cc_tunnelHeap s !! t))
  | AListenerAccept l => bool_decide (is_Some (cc_listenerHeap s !! l))
  | _ => true
  end.

Lemma admissibleb_ok `{Env} s a : admissibleb s a = true -> admissible s a.
Proof.
  destruct a as [| | | |[|[| [|] | | | | |]]| | | | | | | | | | | | | | | | | | | | |]; simpl; try done;
    try (intros H0; by apply bool_decide_eq_true in H0);
    intros H0%negb_true_iff; by apply bool_decide_eq_false in H0.
Qed.

Fixpoint runb `{Env} (acts : list action) (s : ctrl) : option ctrl :=
  match acts with
  | [] => Some s
  | a :: r => if admissibleb s a then match step a s with Ret (_, s') => runb r s' | _ => None end else None
  end.

Lemma runb_moves `{Env} acts s s' : runb acts s = Some s' -> rtc moves s s'.
Proof.
  revert s. induction acts as [|a r IH]; intros s; simpl; [by intros [= ->]|].
  destruct (admissibleb s a) eqn:Ha; [|done]. destruct (step a s) as [[[] s1]| | |] eqn:E; try done.
  intros Hr. eapply rtc_l; [|by apply IH]. exists a. split; [by apply admissibleb_ok|done].
Qed.

(** The state after a run of the sample channel (itself when the run fails). *)
Definition after (acts : list action) : ctrl := default sample_ctrl (runb acts sample_ctrl).

Lemma after_reachable acts : reachable (after acts).
Proof.
  exists 5000000000, 0, true, true, 2, 2, 2. unfold after. destruct (runb acts sample_ctrl) eqn:E; [|done].
  by eapply runb_moves.
Qed.

(** ** Safety *)

(** What a step may answer: a new state, or that it cannot be taken yet. *)
Definition harmless {A} (o : outcome A) : Prop := (forall p, o <> Panic p) /\ o <> Stuck.



(** ** Pending calls *)

(** Whether the request of call [p] is still unanswered: in the table, or left to
    the cleanup that is closing the response channels. *)
Definition unanswered (s : ctrl) (p : nat) (x : call) : Prop :=
  map_get (cc_pendingTunnels s) (ca_requestID x) = Some p \/ p ∈ clp s.

Definition returned (s : ctrl) (p : nat) : Prop :=
  exists x r, cc_calls s !! p = Some x /\ ca_phase x = CReturned r.

Lemma receive_enabled `{Env} s p x :
  cc_calls s !! p = Some x -> ca_phase x = CWaiting \/ ca_phase x = CLate ->
  chan_buf (ca_respCh x) <> [] \/ chan_closed (ca_respCh x) = true ->
  exists s', step (AReceive p) s = Ret (tt, s') /\ returned s' p.
Proof.
  intros Hx Hph Hch. cbn [step]. unfold await_receive, bind, load_call. rewrite Hx.
  assert (Hret : forall y r, returned {| s with cc_calls := <[p := {| y with ca_phase := CReturned r |}]> (cc_calls s) |} p).
  { intros y r. eexists _, r. cbn. rewrite lookup_insert_eq. done. }
  destruct (chan_buf (ca_respCh x)) as [|r rest] eqn:Eb.
  - destruct Hch as [?|Hc]; [done|]. unfold set_phase, bind, load_call, store_call.
    destruct Hph as [-> | ->]; rewrite Hc, Hx; eexists; (split; [done|apply Hret]).
  - unfold store_call. destruct Hph as [-> | ->]; eexists; (split; [done|]);
      apply (Hret {| x with ca_respCh := _ |}).
Qed.

Lemma create_tunnel_answer `{Env} s p x :
  reachable s -> cc_calls s !! p = Some x -> ca_phase x = CWaiting \/ ca_phase x = CLate ->
  unanswered s p x \/ exists s', step (AReceive p) s = Ret (tt, s') /\ returned s' p.
Proof.
  intros Hr Hx Hph. destruct (ic_live _ _ _ _ _ (i_calls s (inv_reachable s Hr)) p x Hx) as [?|[?|?]].
  - by destruct Hph as [-> | ->].
  - by left; left.
  - by left; right.
  - right. by apply (receive_enabled s p x).
Qed.

(** C3: a [CreateTunnel] call is never left without an answer.  While it waits,
    its request is in the table or on the list of the cleanup about to close its
    response channel, or the receive returns now; a caller whose context ended
    and whose request is gone from the table ([CLate], a receive without the
    context) is never one that nobody will answer. *)
Theorem create_tunnel_always_answered `{Env} s p x :
  reachable s -> cc_calls s !! p = Some x -> ca_phase x = CWaiting \/ ca_phase x = CLate ->
  (unanswered s p x \/ exists s', step (AReceive p) s = Ret (tt, s') /\ returned s' p) /\
  (ca_phase x = CLate -> map_get (cc_pendingTunnels s) (ca_requestID x) <> Some p).
Proof.
  intros Hr Hx Hph. pose proof (i_calls s (inv_reachable s Hr)) as Hc. split; [by apply create_tunnel_answer|].
  intros E Hm. destruct (ic_map _ _ _ _ _ Hc _ _ Hm) as (_ & y & Hy & _ & _ & Hp).
  rewrite Hx in Hy. injection Hy as <-. rewrite E in Hp. by destruct Hp.
Qed.

(** The first call's caller gives up after the answer arrived: the answer is there. *)
Definition late_acts : list action :=
  [ACreate blank_props "r1"; ACreateSend 0 Written None; got (opened "r1" "t1"); AContext 0 7].

Lemma create_tunnel_always_answered_witness : exists x,
  cc_calls (after late_acts) !! 0%nat = Some x /\ ca_phase x = CLate /\
  map_get (cc_pendingTunnels (after late_acts)) (ca_requestID x) <> Some 0%nat.
Proof.
  eexists. split; [vm_compute; reflexivity|]. split; [reflexivity|].
  apply (create_tunnel_always_answered (after late_acts) 0 _ (after_reachable _)); [vm_compute; reflexivity| |reflexivity].
  right. reflexivity.
Defined.

(** ** The end releases everyone *)

Lemma finished_cleanup s :
  inv s -> cc_closedCh s = Some true ->
  cc_closed s = true /\ clp s = [] /\ clt s = [] /\ cc_doneCh s = Chan [cc_err s] 1 true /\
  cc_lifecycleWG s = 0 /\ cc_lifecycleCtx s = Some true.
Proof.
  intros Hi Hs. assert (Hi' := Hi). destruct Hi' as [_ [He1 He2] Hw _ _ _ _ _].
  destruct (cc_closed s) eqn:Hc; [|destruct (He1 eq_refl) as (_ & _ & _ & _ & E & _); congruence].
  destruct (He2 eq_refl) as (cl & Ecl & []). assert (Ef : cl_finished cl = true) by congruence.
  unfold clp, clt. rewrite Ecl in *. rewrite Ef in *.
  destruct (co_finishing (co_finished eq_refl)) as (-> & -> & _ & E & _). rewrite E in *.
  destruct Hw as [_ _ Hw]. split_and!; try done. by apply Hw.
Qed.

(** When the closed signal of the channel fires, no caller is left behind:
    every [CreateTunnel] call that waits can return; every [Close] returns the
    recorded error; every [Accept] and every [Close] of a tunnel that waits can
    return; the done channel holds exactly the recorded error and is closed; and
    no goroutine of the channel is running. *)
Theorem finished_channel_releases_callers `{Env} s :
  reachable s -> cc_closedCh s = Some true ->
  (forall p x, cc_calls s !! p = Some x -> ca_phase x = CWaiting \/ ca_phase x = CLate ->
     exists s', step (AReceive p) s = Ret (tt, s') /\ returned s' p) /\
  (forall k, cc_closers s !! k = Some KWait \/ cc_closers s !! k = Some KJoin ->
     exists s', step (ACloseNext k CloseSignalled) s = Ret (tt, s') /\
                cc_closers s' !! k = Some (KReturned (cc_err s))) /\
  (forall k t, cc_accepters s !! k = Some (t, AWait) ->
     exists s' e, step (AAcceptNext k false) s = Ret (tt, s') /\
                  cc_accepters s' !! k = Some (t, AReturned (Err e))) /\
  (forall k t p, cc_tunnelClosers s !! k = Some (t, p) -> p = TWait \/ (exists g b, p = TDrain g b) ->
     exists s' r, step (ATunnelCloseNext k TcControlClosed) s = Ret (tt, s') /\
                  cc_tunnelClosers s' !! k = Some (t, TReturned r)) /\
  cc_doneCh s = Chan [cc_err s] 1 true /\ cc_lifecycleWG s = 0.
Proof.
  intros Hr Hs. pose proof (inv_reachable s Hr) as Hi.
  destruct (finished_cleanup s Hi Hs) as (Hc & Ep & Et & Hd & Hw & _). split_and!; [| | | |done|done].
  - intros p x Hx Hph. destruct (create_tunnel_answer s p x) as [[Hm|Hm]|?]; [done..| | |done].
    + pose proof (pend_open s _ _ Hi Hm). congruence.
    + rewrite Ep in Hm. by apply elem_of_nil in Hm.
  - intros k Hk. cbn [step]. unfold close_next, bind, get. rewrite (bool_decide_eq_true_2 _ Hs).
    destruct Hk as [-> | ->]; eexists; (split; [done|]); cbn; by rewrite lookup_insert_eq.
  - intros k t Hk. destruct (ir_accepters _ _ _ _ _ _ _ _ _ _ _ _ (i_refs s Hi) _ _ _ Hk) as [x Hx].
    assert (Hsig : t_closedCh x = Some true).
    { destruct (it_obj _ _ _ _ _ _ (i_tunnels s Hi) t x Hx). rewrite to_signal.
      destruct (t_closed x) eqn:E; [done|]. destruct (to_open eq_refl) as [Hm|Hm].
      - destruct (in_closed _ _ _ _ _ _ (i_nil s Hi) Hc) as (_ & En & _). by rewrite En in Hm.
      - rewrite Et in Hm. by apply elem_of_nil in Hm. }
    cbn [step]. unfold accept_next, bind, get, load_tunnel. rewrite Hk, Hx, (bool_decide_eq_true_2 _ Hsig).
    eexists _, _. split; [done|]. cbn. by rewrite lookup_insert_eq.
  - intros k t p Hk Hp. destruct (ir_closers _ _ _ _ _ _ _ _ _ _ _ _ (i_refs s Hi) _ _ _ Hk) as [x Hx].
    cbn [step]. unfold tunnel_close_next, bind, get, load_tunnel. rewrite Hk, Hx, (bool_decide_eq_true_2 _ Hs).
    destruct Hp as [->|(g & b & ->)]; eexists _, _; (split; [done|]); cbn; by rewrite lookup_insert_eq.
Qed.

(** The channel is closed by the application while a call waits for its answer. *)
Definition closing_acts : list action :=
  sample_acts ++ [AClose; AAccept 2; ACloseNext 4 CloseWritten; got MCloseControlChannelRsp; AReadEnd;
    ACleanup; ACleanup; ACleanup; ACleanup; ACleanup; ACleanup; AReadEnd;
    ABeat (Ok tt) false; ABeat (Ok tt) false; ABeat (Ok tt) false; ABeat (Ok tt) false;
    AWorkerTake 0; AWorkerExit 1; ARespond (Ok tt) true; ARespond (Ok tt) true; AFinish].

Lemma finished_channel_releases_callers_witness :
  cc_closedCh (after closing_acts) = Some true /\
  cc_closers (after closing_acts) !! 4%nat = Some KWait /\
  cc_doneCh (after closing_acts) = Chan [None] 1 true.
Proof.
  split; [vm_compute; reflexivity|]. split; [vm_compute; reflexivity|].
  apply (finished_channel_releases_callers (after closing_acts) (after_reachable _)).
  vm_compute. reflexivity.
Defined.

(** ** The recorded error *)

(** The channel is closed with the error [e]. *)
Definition ended (e : option cc_error) (s : ctrl) : Prop := cc_closed s = true /\ cc_err s = e.

(** [m] keeps a channel ended. *)
Definition keeps (e : option cc_error) {A} (m : M A) : Prop :=
  forall s, ended e s -> match m s with Ret (_, s') => ended e s' | _ => True end.

Lemma keeps_ret {A} e (a : A) : keeps e (ret a).
Proof. intros s Hs. exact Hs. Qed.
Lemma keeps_bind {A B} e (m : M A) (k : A -> M B) : keeps e m -> (forall a, keeps e (k a)) -> keeps e (bind m k).
Proof.
  intros Hm Hk s Hs. unfold bind. specialize (Hm s Hs). destruct (m s) as [[a s']| | |]; [|done..]. by apply Hk.
Qed.
Lemma keeps_get {B} e (k : ctrl -> M B) : (forall c, ended e c -> keeps e (k c)) -> keeps e (bind get k).
Proof. intros Hk s Hs. by apply (Hk s Hs). Qed.
Lemma keeps_put e c : ended e c -> keeps e (put c).
Proof. intros Hc s Hs. exact Hc. Qed.
Lemma keeps_load_tunnel e t : keeps e (load_tunnel t).
Proof. intros s Hs. unfold load_tunnel. by destruct (_ !! _). Qed.
Lemma keeps_load_call e t : keeps e (load_call t).
Proof. intros s Hs. unfold load_call. by destruct (_ !! _). Qed.
Lemma keeps_load_listener e t : keeps e (load_listener t).
Proof. intros s Hs. unfold load_listener. by destruct (_ !! _). Qed.
Lemma keeps_onError e err o : keeps e (onError err o).
Proof. intros s [Hc He]. unfold onError, bind, get, detachCleanupLocked. by rewrite Hc. Qed.
Lemma keeps_wg_done e : keeps e wg_done.
Proof. intros s Hs. unfold wg_done. by destruct (_ <=? _). Qed.
Lemma keeps_wg_add e n : keeps e (wg_add n).
Proof. intros s Hs. unfold wg_add. by destruct (_ <=? _). Qed.
Lemma keeps_transport e ev : keeps e (transport_step ev).
Proof. intros s Hs. destruct ev; cbn; try exact Hs. by destruct (qt_conn _). Qed.
Lemma keeps_map_set {K} `{Countable K} {V} e (m : option (gmap K V)) k v : keeps e (map_set m k v).
Proof. intros s Hs. destruct m; [exact Hs|exact I]. Qed.
Lemma keeps_ensure e c : ended e c -> ended e (ensureClosedSignalLocked c).
Proof. intros Hc. unfold ensureClosedSignalLocked. by destruct (cc_closedCh c). Qed.
Lemma keeps_heartbeat e c : ended e c -> ended e (fst (sendHeartbeat c)).
Proof. intros Hc. unfold sendHeartbeat. by destruct (0 <? _). Qed.

Create HintDb keeps discriminated.
#[export] Hint Resolve keeps_ret keeps_load_tunnel keeps_load_call keeps_load_listener keeps_onError keeps_wg_done
  keeps_wg_add keeps_transport keeps_map_set keeps_ensure keeps_heartbeat : keeps.

Ltac keeps_one :=
  match goal with
  | |- keeps _ (bind get _) => apply keeps_get; intros ? ?
  | |- keeps _ (bind _ _) => apply keeps_bind; [|intros ?]
  | |- keeps _ (put _) => apply keeps_put; first [assumption | solve [eauto with keeps] | unfold ended in *; cbn; intuition congruence]
  | |- keeps _ (let '_ := ?x in _) => destruct x
  | |- keeps _ (match ?x with _ => _ end) => destruct x eqn:?
  | |- keeps _ _ => solve [eauto with keeps]
  | |- keeps _ _ => solve [intros ? ?; first [assumption | exact I]]
  end.

Ltac keeps := cbv zeta; repeat (keeps_one; cbv beta zeta).

Section Keeps.
Context `{Env} (e : option cc_error).

Lemma keeps_tunnelCleanup tc : keeps e (tunnelCleanup_run tc).
Proof. unfold tunnelCleanup_run. keeps. Qed.
Lemma keeps_onErrorLocked t err : keeps e (tunnel_onErrorLocked t err).
Proof. unfold tunnel_onErrorLocked, close_signal. keeps. Qed.
Lemma keeps_listener_Close l : keeps e (listener_Close l).
Proof. unfold listener_Close. keeps. Qed.
Lemma keeps_add t : keeps e (addProxyResponseLocked t).
Proof. unfold addProxyResponseLocked. keeps. Qed.
Lemma keeps_complete t : keeps e (completeProxyResponseLocked t).
Proof.
  unfold completeProxyResponseLocked, close_drained. keeps.
  intros s Hs. by destruct (bool_decide _).
Qed.
#[local] Hint Resolve keeps_tunnelCleanup keeps_onErrorLocked keeps_listener_Close keeps_add keeps_complete : keeps.

Lemma keeps_reject sid t err : keeps e (rejectProxyConnReqLocked sid t err).
Proof. unfold rejectProxyConnReqLocked. keeps. Qed.
Lemma keeps_start : keeps e startProxyRuntimeLocked.
Proof. unfold startProxyRuntimeLocked. keeps. Qed.
Lemma keeps_proxyTransport ep : keeps e (proxyTransportLocked ep).
Proof. unfold proxyTransportLocked. keeps. Qed.
#[local] Hint Resolve keeps_reject keeps_start keeps_proxyTransport : keeps.

Lemma keeps_handleMessage msg : keeps e (handleMessage msg).
Proof. intros s [Hc He]. unfold handleMessage, bind, get. rewrite Hc. by split. Qed.
Lemma keeps_set_phase p ph : keeps e (set_phase p ph).
Proof. unfold set_phase. keeps. Qed.
Lemma keeps_withdraw rid p : keeps e (withdraw rid p).
Proof. unfold withdraw. keeps. Qed.
Lemma keeps_refuse i task c err : keeps e (refuse_delivery i task c err).
Proof. unfold refuse_delivery. keeps. Qed.
Lemma keeps_mark ch : keeps e (mark_response_written ch).
Proof. destruct ch; [|apply keeps_ret]. intros s Hs. cbn. by destruct (_ !! _). Qed.
Lemma keeps_read_tail b err : keeps e (read_tail b err).
Proof. unfold read_tail. keeps. Qed.
Lemma keeps_messageCleanup f : keeps e (messageCleanup_run f).
Proof. unfold messageCleanup_run. keeps. Qed.
#[local] Hint Resolve keeps_handleMessage keeps_set_phase keeps_withdraw keeps_refuse keeps_mark keeps_read_tail
  keeps_messageCleanup : keeps.

Lemma keeps_deliver_select i task conn d : keeps e (deliver_select i task conn d).
Proof. unfold deliver_select. keeps. Qed.
Lemma keeps_publish i task : keeps e (publish_datagram_channel i task).
Proof. unfold publish_datagram_channel. keeps. Qed.
Lemma keeps_register i task a l : keeps e (register_datagram_channel i task a l).
Proof. unfold register_datagram_channel. keeps. Qed.
Lemma keeps_hand_over i task a l : keeps e (hand_over_datagram_channel i task a l).
Proof. unfold hand_over_datagram_channel. keeps. Qed.
#[local] Hint Resolve keeps_deliver_select keeps_publish keeps_register keeps_hand_over : keeps.

Lemma keeps_cleanup_run cl : keeps e (cleanup_run cl).
Proof. unfold cleanup_run, close_response. keeps. Qed.
Lemma keeps_cleanup_finish cl : keeps e (cleanup_finish cl).
Proof. unfold cleanup_finish, close_signal. keeps. Qed.

Lemma keeps_with_cleanup k : (forall cl, keeps e (k cl)) -> keeps e (with_cleanup k).
Proof. intros Hk s Hs. unfold with_cleanup. destruct (cc_cleanup s) as [cl|]; [|done]. by apply (Hk cl). Qed.

Lemma keeps_close_begin : keeps e close_begin.
Proof.
  unfold close_begin. apply keeps_bind; [by intros s Hs|]. intros k. apply keeps_get. intros c Hc. cbv zeta.
  apply keeps_ensure in Hc. generalize dependent (ensureClosedSignalLocked c). intros c' Hc'.
  rewrite (proj1 Hc'). keeps.
Qed.
#[local] Hint Resolve keeps_close_begin keeps_cleanup_run keeps_cleanup_finish keeps_with_cleanup : keeps.

Lemma keeps_step a : keeps e (step a).
Proof.
  destruct a; cbn [step];
    unfold create_begin, create_send, await_receive, await_context, readLoop_iteration, readLoop_cleanup,
      readLoop_end, heartbeatLoop, worker_take, worker_exit, worker_process, worker_deliver, worker_respond,
      proxyConnectionResponseLoop, close_next, tunnel_close_begin, tunnel_close_next, accept_begin,
      accept_next, listener_accept, notifyDatagramChannelClose; keeps.
Qed.

Lemma keeps_moves s s' : rtc moves s s' -> ended e s -> ended e s'.
Proof.
  apply rtc_invariant. intros s1 s2 (a & _ & E) Hs. specialize (keeps_step a s1 Hs). by rewrite E.
Qed.
End Keeps.

(** The done channel of a closed channel whose error is [e]. *)
Definition published (s : ctrl) (e : option cc_error) : chan (option cc_error) :=
  if bool_decide (cc_closedCh s = Some true) then Chan [e] 1 true else Chan [] 1 false.

(** The first error wins and is published once.  From the moment the channel
    is closed, its error never changes, whatever happens afterwards; its done
    channel is empty until the cleanup finished and then holds exactly that
    error, closed, which is what [Done], [Err] and every [Close] report. *)
Theorem first_error_wins `{Env} s s' :
  reachable s -> cc_closed s = true -> rtc moves s s' ->
  cc_closed s' = true /\ cc_err s' = cc_err s /\
  cc_doneCh s' = published s' (cc_err s).
Proof.
  intros Hr Hc Hm. destruct (keeps_moves (cc_err s) s s' Hm ltac:(by split)) as [Hc' He].
  split_and!; [done..|]. assert (Hi : inv s').
  { apply inv_reachable. destruct Hr as (a & b & c & d & e & f & g & Hr). exists a, b, c, d, e, f, g.
    by etrans. }
  destruct Hi as [_ [_ He2] _ _ _ _ _ _]. destruct (He2 Hc') as (cl & _ & []).
  unfold published. rewrite co_signal, co_done, He. destruct (cl_finished cl); [by rewrite bool_decide_eq_true_2|].
  by rewrite bool_decide_eq_false_2.
Qed.

(** A read error closes the channel; a later failure of the heartbeat is not recorded. *)
Definition failing_acts : list action := sample_acts ++ [ARead ReadFailed; AReadEnd].

Lemma first_error_wins_witness :
  let s' := default sample_ctrl (runb [ABeat (Ok tt) false; ABeat (Err EWrite) false] (after failing_acts)) in
  cc_closed s' = true /\ cc_err s' = Some ERead /\ cc_beater s' = HExiting.
Proof.
  set (s' := default _ _). cbv zeta.
  assert (E : runb [ABeat (Ok tt) false; ABeat (Err EWrite) false] (after failing_acts) = Some s') by (vm_compute; reflexivity).
  destruct (first_error_wins (after failing_acts) s' (after_reachable _) eq_refl (runb_moves _ _ _ E)) as (H1 & H2 & _).
  split; [exact H1|]. split; [rewrite H2; vm_compute; reflexivity|vm_compute; reflexivity].
Defined.

(** ** Tunnels *)

(** What the table of tunnels promises of the tunnel [x] at [t]. *)
Record tunnel_listed (s : ctrl) (t : nat) (x : bytestreamTunnel) : Prop := {
  tl_id : ID (t_props x) = Some (t_tunnelID x) /\ TrimSpace (t_tunnelID x) <> "";
  tl_signal : t_closedCh x = Some (t_closed x);
  tl_queue : (length (chan_buf (t_conns x)) <= 10)%nat;
  tl_open : t_closed x = false -> map_get (cc_tunnels s) (t_tunnelID x) = Some t \/ t ∈ clt s;
}.

(** The table of tunnels is exact.  Every entry is an open tunnel under its
    own non-blank identifier, which is the one in its properties; a tunnel is
    open exactly when its closed signal has not fired; an open tunnel is in the
    table or on the list of the running cleanup, so that two open tunnels of a
    live channel never share an identifier; a datagram listener belongs to a
    registered tunnel; and the queue of a tunnel never exceeds ten connections. *)
Theorem tunnel_table_exact `{Env} s :
  reachable s ->
  (forall id t, map_get (cc_tunnels s) id = Some t ->
     exists x, cc_tunnelHeap s !! t = Some x /\ t_tunnelID x = id /\ t_closed x = false) /\
  (forall t x, cc_tunnelHeap s !! t = Some x -> tunnel_listed s t x) /\
  (forall t1 t2 x1 x2, cc_closed s = false -> cc_tunnelHeap s !! t1 = Some x1 -> cc_tunnelHeap s !! t2 = Some x2 ->
     t_closed x1 = false -> t_closed x2 = false -> t_tunnelID x1 = t_tunnelID x2 -> t1 = t2) /\
  (forall id l, map_get (cc_datagramTunnels s) id = Some l -> is_Some (map_get (cc_tunnels s) id)).
Proof.
  intros Hr. pose proof (inv_reachable s Hr) as Hi. pose proof (i_tunnels s Hi) as []. split_and!.
  - done.
  - intros t x Hx. destruct (it_obj t x Hx). destruct to_id, to_conns as [Ec Hb].
    unfold chan_bounded in Hb. rewrite Ec in Hb. by split.
  - intros t1 t2 x1 x2 Hc H1 H2 O1 O2 E. destruct (inv_open_calls s Hi Hc) as (_ & Et & _).
    destruct (to_open _ _ _ _ (it_obj t1 x1 H1) O1) as [M1|M1]; [|rewrite Et in M1; by apply elem_of_nil in M1].
    destruct (to_open _ _ _ _ (it_obj t2 x2 H2) O2) as [M2|M2]; [|rewrite Et in M2; by apply elem_of_nil in M2].
    congruence.
  - intros id l Hl. by destruct (it_dts id l Hl).
Qed.

Lemma tunnel_table_exact_witness :
  map_get (cc_tunnels (after sample_acts)) "t1" = Some 2%nat /\
  exists x, cc_tunnelHeap (after sample_acts) !! 2%nat = Some x /\ t_tunnelID x = "t1" /\ t_closed x = false.
Proof.
  split; [vm_compute; reflexivity|].
  apply (tunnel_table_exact (after sample_acts) (after_reachable _)). vm_compute. reflexivity.
Defined.

(** A [Close] of [t] that waits for a signal waits for one that fired, or for the
    one the tunnel will fire. *)
Definition waits_for_drain (s : ctrl) (t : nat) (x : bytestreamTunnel) : Prop :=
  forall k g b, cc_tunnelClosers s !! k = Some (t, TDrain g b) ->
    g ∈ cc_signals s \/ (t_proxyDrained x = Some g /\ g ∉ cc_signals s).

(** C4: the proxy accounting of a tunnel is exact.  While the channel lives,
    [proxyPending] is the number of admitted proxy requests whose response is
    not written yet (queued, with a worker, as a queued response, being
    written), and it is never less afterwards; the drained signal exists exactly
    while the count is not zero; and a [Close] that waits for a drained signal
    waits for one that fired or that is still the tunnel's own. *)
Theorem proxy_accounting_exact `{Env} s t x :
  reachable s -> cc_tunnelHeap s !! t = Some x ->
  (cc_closed s = false -> t_proxyPending x = outst s t) /\
  outst s t <= t_proxyPending x /\
  (t_proxyDrained x = None <-> t_proxyPending x = 0) /\
  waits_for_drain s t x.
Proof.
  intros Hr Hx. pose proof (i_proxy s (inv_reachable s Hr)) as Hp.
  pose proof (ip_obj _ _ _ _ _ _ Hp t x Hx) as []. split_and!; [done..| |].
  - split; [|done]. intros E. destruct (decide (t_proxyPending x = 0)) as [?|Hz]; [done|].
    destruct (po_busy Hz) as (g & ? & _). congruence.
  - intros k g b Hk. destruct (ip_wait _ _ _ _ _ _ Hp k t g b Hk) as [?|(y & Hy & Hg)]; [by left|].
    rewrite Hx in Hy. injection Hy as <-. right. split; [done|].
    by destruct (drained_fresh _ _ _ _ _ _ _ _ _ Hp Hx Hg) as (_ & ? & _).
Qed.

(** One proxy request is with a worker when the application closes the tunnel. *)
Definition draining_acts : list action := sample_acts ++ [AWorkerTake 1; ATunnelClose 2].

Lemma proxy_accounting_exact_witness : exists x,
  cc_tunnelHeap (after draining_acts) !! 2%nat = Some x /\ t_proxyPending x = 1 /\
  t_proxyPending x = outst (after draining_acts) 2 /\
  cc_tunnelClosers (after draining_acts) !! 4%nat = Some (2%nat, TDrain 3 true).
Proof.
  eexists. split; [vm_compute; reflexivity|]. split; [reflexivity|]. split.
  - apply (proxy_accounting_exact (after draining_acts) 2 _ (after_reachable _)); vm_compute; reflexivity.
  - vm_compute. reflexivity.
Defined.

Definition tunnel_of (h : tunnelHandle) : nat :=
  match h with Bytestream t | DatagramQUIC t _ | DatagramFramed t => t end.

(** The handle matches the properties and the transport. *)
Definition handle_kind (provider : bool) (dts : option (gmap string nat)) (props : TunnelProperties Z)
    (id : string) (h : tunnelHandle) : Prop :=
  match h with
  | Bytestream _ => is_datagram props = false
  | DatagramQUIC _ l => is_datagram props = true /\ provider = true /\
                        tunnelAllowsQUICDatagrams props = true /\ map_get dts id = Some l
  | DatagramFramed _ => is_datagram props = true /\ (provider = false \/ tunnelAllowsQUICDatagrams props = false)
  end.

Definition new_tunnel (props : TunnelProperties Z) (id : string) : bytestreamTunnel :=
  MkTunnel props id (Some false) None 0 false false None (make_chan 10) (Some false) true.

Lemma bind_eq {A B} (m : M A) (k : A -> M B) s a s' : m s = Ret (a, s') -> bind m k s = k a s'.
Proof. intros E. unfold bind. by rewrite E. Qed.

Lemma open_from_properties s props id mt :
  ID props = Some id -> TrimSpace id <> "" -> cc_closed s = false -> cc_closing s = false ->
  is_Some (cc_lifecycleCtx s) -> cc_tunnels s = Some mt -> mt !! id = None ->
  (cc_datagramProvider s = true -> is_Some (cc_datagramTunnels s)) ->
  exists h s', openTunnelFromPropertiesLocked props s = Ret (MkResult (Some h) None, s') /\
    cc_calls s' = cc_calls s /\ cc_pendingTunnels s' = cc_pendingTunnels s /\
    cc_tunnels s' = Some (<[id := tunnel_of h]> mt) /\ cc_tunnelHeap s' !! tunnel_of h = Some (new_tunnel props id) /\
    handle_kind (cc_datagramProvider s) (cc_datagramTunnels s') props id h.
Proof.
  intros Hid Hne Hc Hcl [b Hl] Hmt Hnone Hprov. unfold openTunnelFromPropertiesLocked.
  rewrite Hid, bool_decide_eq_false_2 by done. unfold bind at 1, get. rewrite Hc, Hcl, Hl, Hmt. cbn [orb map_get].
  rewrite Hnone. unfold bind at 1, fresh. unfold bind at 1, store_tunnel.
  destruct (is_datagram props && cc_datagramProvider s && tunnelAllowsQUICDatagrams props) eqn:Ek.
  - apply andb_true_iff in Ek as [[E1 E2]%andb_true_iff E3]. destruct (Hprov E2) as [md Hmd].
    unfold bind at 1, fresh, bind at 1, store_listener. st. unfold bind at 1, get. st. rewrite Hmt, Hmd.
    eexists (DatagramQUIC _ _), _. split; [reflexivity|]. cbn. rewrite !lookup_insert_eq. done.
  - unfold bind at 1, get. st. rewrite Hmt. unfold bind at 1, map_set, ret. unfold bind at 1, put.
    destruct (is_datagram props) eqn:E1.
    + eexists (DatagramFramed _), _. split; [reflexivity|]. cbn. rewrite !lookup_insert_eq.
      split_and!; try done. by apply andb_false_iff in Ek as [?|?]; [left|right].
    + eexists (Bytestream _), _. split; [reflexivity|]. cbn. by rewrite !lookup_insert_eq.
Qed.

(** Opening a tunnel, end to end.  When the engine answers a waiting call
    with properties that carry a fresh non-blank identifier, the handler
    registers one tunnel and the call returns its handle: the tunnel has exactly
    those properties, is open, with nothing pending, is the table's entry for the
    identifier, and the handle is that of a datagram tunnel exactly for the
    datagram type, over QUIC datagrams exactly when the transport provides them
    and the tunnel does not require guaranteed delivery. *)
Theorem open_tunnel_delivers `{Env} s rid p x pb id :
  reachable s -> cc_reader s = RReading -> cc_closed s = false -> cc_closing s = false ->
  map_get (cc_pendingTunnels s) rid = Some p -> cc_calls s !! p = Some x -> ca_phase x = CWaiting ->
  let props := toTunnelProperties env_AsTime pb in
  ID props = Some id -> TrimSpace id <> "" -> map_get (cc_tunnels s) id = None ->
  exists s1 s2 h y z,
    step (got (MOpenTunnelRsp (Some (MkOpenTunnelRsp rid (PayloadTunnelProperties pb))))) s = Ret (tt, s1) /\
    step (AReceive p) s1 = Ret (tt, s2) /\
    cc_calls s2 !! p = Some y /\ ca_phase y = CReturned (MkResult (Some h) None) /\
    map_get (cc_tunnels s2) id = Some (tunnel_of h) /\ cc_tunnelHeap s2 !! tunnel_of h = Some z /\
    t_props z = props /\ t_closed z = false /\ t_proxyPending z = 0 /\ chan_buf (t_conns z) = [] /\
    map_get (cc_pendingTunnels s2) rid = None /\
    handle_kind (cc_datagramProvider s) (cc_datagramTunnels s2) props id h.
Proof.
  intros Hr Hrd Hc Hcl Hm Hx Hph props Hid Hne Hnone. pose proof (inv_reachable s Hr) as Hi.
  destruct (ic_map _ _ _ _ _ (i_calls s Hi) _ _ Hm) as (_ & x' & Hx' & _ & Hch & _).
  rewrite Hx in Hx'. injection Hx' as <-.
  destruct (in_open _ _ _ _ _ _ (i_nil s Hi) Hc) as (_ & [mt Emt] & Hprov).
  destruct (ie_open _ _ _ _ _ _ _ (i_end s Hi) Hc) as (_ & _ & El & _). rewrite Emt in Hnone. cbn in Hnone.
  set (s0 := {| s with cc_pendingTunnels := map_delete (cc_pendingTunnels s) rid |}).
  destruct (open_from_properties s0 props id mt) as (h & s1 & Ho & E1 & E2 & E3 & E4 & E5);
    [done|done|done|done|by exists false|done|done|intros Hp; apply (Hprov Hp)|].
  cbn in E1, E2.
  set (s2 := {| s1 with cc_calls := <[p := {| x with ca_respCh := Chan [MkResult (Some h) None] 1 false |}]> (cc_calls s1);
                        cc_reader := RReading |}).
  assert (Hstep : step (got (MOpenTunnelRsp (Some (MkOpenTunnelRsp rid (PayloadTunnelProperties pb))))) s = Ret (tt, s2)).
  { assert (Hh : handleOpenTunnelRsp (Some (MkOpenTunnelRsp rid (PayloadTunnelProperties pb))) s
            = Ret (None, {| s1 with cc_calls := <[p := {| x with ca_respCh := Chan [MkResult (Some h) None] 1 false |}]>
                                                   (cc_calls s1) |})).
    { unfold handleOpenTunnelRsp. rewrite (bind_eq _ _ _ s s) by done. cbn [or_RequestId or_Payload]. rewrite Hm.
      rewrite (bind_eq _ _ _ tt s0) by done. cbn [openTunnelResultLocked]. fold props. rewrite (bind_eq _ _ _ _ _ Ho).
      rewrite (bind_eq _ _ _ tt {| s1 with cc_calls :=
        <[p := {| x with ca_respCh := Chan [MkResult (Some h) None] 1 false |}]> (cc_calls s1) |}); [done|].
      unfold send_response.
      rewrite (bind_eq _ _ _ x s1) by by unfold load_call; rewrite E1, Hx. by rewrite Hch. }
    cbn [step got]. unfold readLoop_iteration. rewrite (bind_eq _ _ _ s s) by done. rewrite Hrd, Hc, andb_false_r.
    cbn [andb]. rewrite (bind_eq _ _ _ (false, None, None) {| s1 with cc_calls :=
        <[p := {| x with ca_respCh := Chan [MkResult (Some h) None] 1 false |}]> (cc_calls s1) |}); [done|].
    unfold handleMessage. rewrite (bind_eq _ _ _ s s) by done. rewrite Hc. by rewrite (bind_eq _ _ _ _ _ Hh). }
  exists s2. unfold await_receive. cbn [step]. unfold await_receive, bind at 1, load_call. cbn [s2 cc_calls].
  rewrite lookup_insert_eq. cbn [ca_phase ca_respCh chan_buf]. rewrite Hph.
  eexists _, h, _, _. split; [done|]. split; [reflexivity|]. cbn. rewrite lookup_insert_eq. split; [done|].
  split; [done|]. rewrite E3. cbn. rewrite lookup_insert_eq. split; [done|]. split; [exact E4|].
  split_and!; try done. rewrite E2. destruct (map_get (map_delete _ _) _) eqn:E; [|done].
  by apply map_get_delete in E as [? _].
Qed.

Lemma open_tunnel_delivers_witness : exists s1 s2 h y z,
  step (got (opened "r2" "t2")) (after sample_acts) = Ret (tt, s1) /\ step (AReceive 1) s1 = Ret (tt, s2) /\
  cc_calls s2 !! 1%nat = Some y /\ ca_phase y = CReturned (MkResult (Some h) None) /\
  map_get (cc_tunnels s2) "t2" = Some (tunnel_of h) /\ cc_tunnelHeap s2 !! tunnel_of h = Some z.
Proof.
  destruct (open_tunnel_delivers (after sample_acts) "r2" 1 (MkCall "r2" (make_chan 1) CWaiting)
    (toTunnelPropertiesPb (fun x => x) {| blank_props with ID := Some "t2" |}) "t2" (after_reachable _))
    as (s1 & s2 & h & y & z & H1 & H2 & H3 & H4 & H5 & H6 & _);
    [vm_compute; reflexivity..|vm_compute; discriminate|vm_compute; reflexivity|].
  exists s1, s2, h, y, z. split; [exact H1|]. split; [exact H2|]. split; [exact H3|]. split; [exact H4|].
  split; [exact H5|exact H6].
Defined.
