(* ===== verification/ControlEnd.v ===== *)
(** * ControlEnd: a control channel that is closed can always finish

    The end of the channel waits for its goroutines; none of them can be blocked
    for good.  From every reachable state of a closed channel there is a run of
    the cleanup and of the goroutines that reaches the closed signal. *)

From S2P Require Import Prelude GoStrings Framing Cors TunnelProps Deadline Datagram ControlChannel ControlInv ControlSteps ControlProps.

(** ** Operations that never wait *)

Definition live {A} (m : M A) : Prop := forall s, m s <> Disabled.

Lemma live_bind {A B} (m : M A) (k : A -> M B) : live m -> (forall a, live (k a)) -> live (bind m k).
Proof.
  intros Hm Hk s. unfold bind. specialize (Hm s). destruct (m s) as [[a s']| | |]; [|done..]. apply Hk.
Qed.
Lemma live_load_tunnel t : live (load_tunnel t).
Proof. intros s. unfold load_tunnel. by destruct (_ !! _). Qed.
Lemma live_load_call t : live (load_call t).
Proof. intros s. unfold load_call. by destruct (_ !! _). Qed.
Lemma live_load_listener t : live (load_listener t).
Proof. intros s. unfold load_listener. by destruct (_ !! _). Qed.
Lemma live_map_set {K} `{Countable K} {V} (m : option (gmap K V)) k v : live (map_set m k v).
Proof. intros s. by destruct m. Qed.
Lemma live_wg_done : live wg_done.
Proof. intros s. unfold wg_done. by destruct (_ <=? _). Qed.
Lemma live_onError err o : live (onError err o).
Proof. intros s. unfold onError, bind, get, detachCleanupLocked. by destruct (cc_closed s). Qed.
Lemma live_mark ch : live (mark_response_written ch).
Proof. intros s. destruct ch; [|done]. cbn. by destruct (_ !! _). Qed.
Lemma live_close_drained g : live (close_drained g).
Proof. intros s. destruct g; [|done]. cbn. by destruct (bool_decide _). Qed.

Create HintDb live discriminated.
#[export] Hint Resolve live_load_tunnel live_load_call live_load_listener live_map_set live_wg_done live_onError
  live_mark live_close_drained : live.

Ltac live_one :=
  match goal with
  | |- live (bind _ _) => apply live_bind; [|intros ?]
  | |- live (match ?x with _ => _ end) => destruct x
  | |- live _ => solve [eauto with live]
  | |- live _ => solve [intros ?; discriminate]
  end.
Ltac live := cbv zeta; repeat (live_one; cbv beta zeta).

Lemma live_tunnelCleanup tc : live (tunnelCleanup_run tc).
Proof. unfold tunnelCleanup_run. live. Qed.
Lemma live_onErrorLocked t e : live (tunnel_onErrorLocked t e).
Proof. unfold tunnel_onErrorLocked, close_signal. live. Qed.
Lemma live_listener_Close l : live (listener_Close l).
Proof. unfold listener_Close. live. Qed.
Lemma live_close_response p : live (close_response p).
Proof. unfold close_response. live. Qed.
Lemma live_complete t : live (completeProxyResponseLocked t).
Proof. unfold completeProxyResponseLocked. live. Qed.
Lemma live_read_tail b e : live (read_tail b e).
Proof. unfold read_tail. live. Qed.
#[export] Hint Resolve live_tunnelCleanup live_onErrorLocked live_listener_Close live_close_response
  live_complete live_read_tail : live.

Lemma live_wp {A} (m : M A) Q s : live m -> wp m Q s -> exists a s', m s = Ret (a, s') /\ Q a s'.
Proof. intros Hl Hw. specialize (Hl s). unfold wp in Hw. destruct (m s) as [[a s']| | |]; eauto; done. Qed.

(** ** The cleanup runs to its end *)

Definition b2n (b : bool) : nat := if b then 1 else 0.

Definition weight (cl : controlChannelCleanup) : nat :=
  length (cl_pendingTunnels cl) + b2n (is_set (cl_tunnelCleanup cl)) + 2 * length (cl_tunnels cl)
  + b2n (cl_lifecycleCancel cl) + length (cl_datagramTunnels cl) + length (cl_datagramChannels cl)
  + length (cl_proxyTransports cl) + b2n (cl_conn cl) + b2n (negb (cl_finishing cl)).

(** The cleanup of [s'] has less to do than [cl]. *)
Definition advanced (cl : controlChannelCleanup) (s' : ctrl) : Prop :=
  exists cl', cc_cleanup s' = Some cl' /\ (weight cl' < weight cl)%nat.

Lemma advance_by {A} (m : M A) (f : A -> controlChannelCleanup) n s s' :
  (forall a, (weight (f a) < n)%nat) -> bind m (fun a => set_cleanup (f a)) s = Ret (tt, s') ->
  exists cl', cc_cleanup s' = Some cl' /\ (weight cl' < n)%nat.
Proof.
  intros Hf. unfold bind. destruct (m s) as [[a s1]| | |]; try done. intros [= <-]. by exists (f a).
Qed.

Lemma cleanup_advances s cl s' :
  cl_finishing cl = false -> cleanup_run cl s = Ret (tt, s') -> advanced cl s'.
Proof.
  unfold advanced, cleanup_run. intros Hf.
  assert (W : weight cl = (length (cl_pendingTunnels cl) + b2n (is_set (cl_tunnelCleanup cl)) + 2 * length (cl_tunnels cl)
    + b2n (cl_lifecycleCancel cl) + length (cl_datagramTunnels cl) + length (cl_datagramChannels cl)
    + length (cl_proxyTransports cl) + b2n (cl_conn cl) + 1)%nat) by (unfold weight; by rewrite Hf).
  rewrite Hf. generalize dependent (weight cl). intros n W.
  destruct (cl_pendingTunnels cl); [|apply advance_by; intros ?; unfold weight; cbn in *; lia].
  destruct (cl_tunnelCleanup cl); [apply advance_by; intros ?; unfold weight; cbn in *; lia|].
  destruct (cl_tunnels cl); [|apply advance_by; intros ?; unfold weight; cbn in *; lia].
  destruct (cl_lifecycleCancel cl); [apply advance_by; intros ?; unfold weight; cbn in *; lia|].
  destruct (cl_datagramTunnels cl); [|apply advance_by; intros ?; unfold weight; cbn in *; lia].
  destruct (cl_datagramChannels cl); [|apply advance_by; intros ?; unfold weight; cbn in *; lia].
  destruct (cl_proxyTransports cl); [|apply advance_by; intros ?; unfold weight; cbn in *; lia].
  destruct (cl_conn cl); [apply advance_by; intros ?; unfold weight; cbn in *; lia|].
  intros [= <-]. eexists. split; [done|]. unfold weight. cbn in *. lia.
Qed.

Lemma cleanup_enabled cl : cl_finishing cl = false -> live (cleanup_run cl).
Proof. intros Hf. unfold cleanup_run. rewrite Hf. live. Qed.

Lemma cleanup_progress `{Env} s cl :
  inv s -> cc_cleanup s = Some cl -> cl_finishing cl = false ->
  exists s', step ACleanup s = Ret (tt, s') /\ inv s' /\ advanced cl s'.
Proof.
  intros Hi Hcl Hf. pose proof (cleanup_run_ok s Hi) as Hw. cbn [step]. unfold wp, with_cleanup in *. rewrite Hcl in *.
  pose proof (cleanup_enabled cl Hf s). destruct (cleanup_run cl s) as [[[] s']| | |] eqn:E; try done.
  exists s'. split_and!; [done..|]. by eapply cleanup_advances.
Qed.

(** The cleanup reaches the point where it only waits for the goroutines. *)
Lemma cleanup_reaches_finish `{Env} s cl :
  inv s -> cc_cleanup s = Some cl ->
  exists s' cl', rtc moves s s' /\ inv s' /\ cc_cleanup s' = Some cl' /\ cl_finishing cl' = true.
Proof.
  remember (weight cl) as n eqn:En. revert s cl En. induction n as [n IH] using lt_wf_ind. intros s cl -> Hi Hcl.
  destruct (cl_finishing cl) eqn:Hf; [by exists s, cl|].
  destruct (cleanup_progress s cl Hi Hcl Hf) as (s1 & E & Hi1 & cl1 & Hcl1 & Hlt).
  destruct (IH _ Hlt s1 cl1 eq_refl Hi1 Hcl1) as (s' & cl' & Hr & ? & ? & ?).
  exists s', cl'. split_and!; try done. eapply rtc_l; [|done]. by exists ACleanup.
Qed.

(** ** The goroutines leave *)

Definition reader_rank (r : reader) : Z :=
  match r with RCleanup _ _ _ => 4 | RReading => 3 | RBreak _ => 2 | RExiting => 1 | RExited => 0 end.
Definition beater_rank (b : beater) : Z :=
  match b with HRunning => 4 | HWriting => 3 | HWaiting => 2 | HExiting => 1 | HNotStarted | HExited => 0 end.
Definition responder_rank (r : responder) : Z :=
  match r with PsWriting _ => 3 | PsIdle => 2 | PsExiting => 1 | PsNotStarted | PsExited => 0 end.
Definition worker_rank (w : worker) : Z :=
  match w with
  | WProcess _ => 4 | WDeliver _ _ | WPublished _ _ _ => 3
  | WSelect _ _ | WDelivered _ _ | WRegistered _ _ _ => 2
  | WRespond _ _ _ | WIdle => 1 | WExited => 0
  end.

Definition fuel (s : ctrl) : Z :=
  reader_rank (cc_reader s) + beater_rank (cc_beater s) + responder_rank (cc_responder s)
  + total worker_rank (cc_workers s).

(** A step towards the exit of the goroutines. *)
Definition leaves (s s' : ctrl) : Prop := fuel s' < fuel s /\ cc_cleanup s' = cc_cleanup s.

(** [s'] has the goroutines and the cleanup of [s]. *)
Record quiet (s s' : ctrl) : Prop := {
  q_reader : cc_reader s' = cc_reader s;
  q_beater : cc_beater s' = cc_beater s;
  q_responder : cc_responder s' = cc_responder s;
  q_workers : cc_workers s' = cc_workers s;
  q_cleanup : cc_cleanup s' = cc_cleanup s;
}.

Lemma leaves_reader s s1 r :
  quiet s s1 -> reader_rank r < reader_rank (cc_reader s) -> leaves s {| s1 with cc_reader := r |}.
Proof. intros [E1 E2 E3 E4 E5] Hr. split; [|done]. unfold fuel. st. rewrite E2, E3, E4. lia. Qed.
Lemma leaves_beater s s1 b :
  quiet s s1 -> beater_rank b < beater_rank (cc_beater s) -> leaves s {| s1 with cc_beater := b |}.
Proof. intros [E1 E2 E3 E4 E5] Hr. split; [|done]. unfold fuel. st. rewrite E1, E3, E4. lia. Qed.
Lemma leaves_responder s s1 r :
  quiet s s1 -> responder_rank r < responder_rank (cc_responder s) -> leaves s {| s1 with cc_responder := r |}.
Proof. intros [E1 E2 E3 E4 E5] Hr. split; [|done]. unfold fuel. st. rewrite E1, E2, E4. lia. Qed.
Lemma leaves_worker s s1 i w w' :
  quiet s s1 -> cc_workers s !! i = Some w -> worker_rank w' < worker_rank w ->
  leaves s {| s1 with cc_workers := <[i := w']> (cc_workers s1) |}.
Proof.
  intros [E1 E2 E3 E4 E5] Hw Hr. split; [|done]. unfold fuel. st. rewrite E1, E2, E3, E4.
  rewrite (total_insert _ _ _ _ _ Hw). lia.
Qed.

(** A step that is enabled, keeps the invariant and leads towards the exit. *)
Definition can_leave `{Env} (s : ctrl) : Prop :=
  exists a s', admissible s a /\ step a s = Ret (tt, s') /\ leaves s s'.

Lemma can_leave_by `{Env} s a :
  admissible s a -> wp (step a) (fun _ => leaves s) s -> step a s <> Disabled -> can_leave s.
Proof.
  intros Ha Hw Hd. unfold wp in Hw. destruct (step a s) as [[[] s']| | |] eqn:E; try done. by exists a, s'.
Qed.

Section Leaving.
Context `{Env} (s : ctrl) (Hi : inv s) (cl : controlChannelCleanup).
Context (Hcl : cc_cleanup s = Some cl) (Hfin : cl_finishing cl = true).

Lemma leaving_done : lifecycle_done s = true.
Proof.
  destruct (cleanup_closed s cl Hi Hcl) as [_ []]. destruct (co_finishing Hfin) as (_ & _ & _ & E & _).
  unfold lifecycle_done. apply bool_decide_eq_true. by rewrite co_ctx, E.
Qed.

Lemma leaving_idle o : running_cleanup s o = false.
Proof. unfold running_cleanup. rewrite Hcl, Hfin. apply andb_false_r. Qed.

Lemma leaving_closed : cc_closed s = true.
Proof. by destruct (cleanup_closed s cl Hi Hcl). Qed.

Lemma onError_noop {B} err o (k : unit -> M B) Q : wp (k tt) Q s -> wp (bind (onError err o) k) Q s.
Proof.
  intros Hk. apply wp_bind. unfold wp at 1, onError, bind, get, detachCleanupLocked. by rewrite leaving_closed.
Qed.

Lemma reader_leaves : reader_rank (cc_reader s) <> 0 -> can_leave s.
Proof.
  intros Hr. destruct (cc_reader s) as [|f b e|err| |] eqn:E; [..|done].
  - apply (can_leave_by s (ARead ReadFailed)); [done|..]; cbn [step]; unfold readLoop_iteration.
    + apply wp_get. rewrite E. apply leaves_reader; [done|]. by rewrite E.
    + unfold bind, get. by rewrite E.
  - apply (can_leave_by s AReadCleanup); [done|..]; cbn [step]; unfold readLoop_cleanup.
    + apply wp_get. rewrite E.
      destruct (ir_reader _ _ _ _ _ _ _ _ _ _ _ _ (i_refs s Hi) f b e E) as [Ht Hl].
      assert (Hrest : forall s2, quiet s s2 ->
        wp (initiate_closes (mc_channels f)) (fun _ => wp (read_tail b e) (fun _ => leaves s)) s2).
      { intros s2 []. unfold wp at 1, initiate_closes, read_tail.
        destruct b; [|destruct e]; (apply leaves_reader; [by constructor|]; by rewrite E). }
      apply wp_bind. apply tunnelCleanup_run_ok; [done..|]. intros h cs s1 Hi1 _.
      destruct (mc_listener f) as [l|].
      * apply listener_Close_ok; [done|by apply Hl|]. intros lh w cs' s2 Hi2 _. by apply Hrest.
      * apply wp_bind. unfold wp at 1, ret. by apply Hrest.
    + unfold bind at 1, get. rewrite E. apply live_bind; [unfold messageCleanup_run; live|]. intros _. apply live_read_tail.
  - apply (can_leave_by s AReadEnd); [done|..]; cbn [step]; unfold readLoop_end.
    + apply wp_get. rewrite E. apply onError_noop. apply leaves_reader; [done|]. by rewrite E.
    + unfold bind at 1, get. rewrite E.
      assert (Hl : live (do! onError err ByReader in set_reader RExiting)) by live. apply Hl.
  - apply (can_leave_by s AReadEnd); [done|..]; cbn [step]; unfold readLoop_end.
    + apply wp_get. rewrite E, leaving_idle.
      apply wp_wg_done; [apply (proj1 (running_wg s Hi)); by rewrite E|]. apply leaves_reader; [done|]. by rewrite E.
    + unfold bind at 1, get. rewrite E, leaving_idle.
      assert (Hl : live (do! wg_done in set_reader RExited)) by live. apply Hl.
Qed.

Lemma beater_leaves : beater_rank (cc_beater s) <> 0 -> can_leave s.
Proof.
  intros Hr. apply (can_leave_by s (ABeat (Ok tt) false)); [done|..]; cbn [step]; unfold heartbeatLoop.
  - apply wp_get. destruct (cc_beater s) eqn:E; try done.
    + apply wp_put. apply leaves_beater; [|by rewrite E].
      unfold sendHeartbeat. by destruct (0 <? _).
    + apply leaves_beater; [done|]. by rewrite E.
    + rewrite leaving_done. apply leaves_beater; [done|]. by rewrite E.
    + rewrite leaving_idle. apply wp_wg_done; [by apply (proj1 (proj2 (running_wg s Hi))); rewrite E|].
      apply leaves_beater; [done|]. by rewrite E.
  - unfold bind at 1, get. destruct (cc_beater s) eqn:E; try done.
    + by rewrite leaving_done.
    + rewrite leaving_idle. assert (Hl : live (do! wg_done in set_beater HExited)) by live. apply Hl.
Qed.

Lemma responder_leaves : responder_rank (cc_responder s) <> 0 -> can_leave s.
Proof.
  intros Hr. apply (can_leave_by s (ARespond (Ok tt) true)); [done|..]; cbn [step]; unfold proxyConnectionResponseLoop.
  - apply wp_get. destruct (cc_responder s) as [| |rsp| |] eqn:E; try done.
    + rewrite leaving_done. apply leaves_responder; [done|]. by rewrite E.
    + assert (rsp_ok (has (cc_tunnelHeap s)) (has (wd_heap (cc_dg s))) rsp) as [Ht Hch].
      { destruct Hi. destruct i_refs. by apply ir_responder. }
      apply mark_response_written_ok; [done..|]. intros w Hw.
      destruct (ps_tunnel rsp) as [t|] eqn:Et; [|apply wp_bind; apply leaves_responder; [done|by rewrite E]].
      apply wp_bind. apply wp_load_tunnel; [by apply Ht|]. intros x Hx.
      apply wp_if; intros Hz; [apply leaves_responder; [done|by rewrite E]|]. cbv zeta.
      apply wp_if; intros Hz1; [|apply leaves_responder; [done|by rewrite E]].
      pose proof (ip_obj _ _ _ _ _ _ (i_proxy _ Hw) t x Hx) as []. apply Z.eqb_neq in Hz.
      destruct (po_busy Hz) as (g & Hg & Hgs & _). rewrite Hg. apply wp_close_drained; [done|].
      apply leaves_responder; [done|by rewrite E].
    + rewrite leaving_idle. apply wp_wg_done; [by apply (proj1 (proj2 (proj2 (running_wg s Hi)))); rewrite E|].
      apply leaves_responder; [done|]. by rewrite E.
  - unfold bind at 1, get. destruct (cc_responder s) as [| |rsp| |] eqn:E; try done.
    + by rewrite leaving_done.
    + assert (Hl : live (do! mark_response_written (ps_datagramChannel rsp) in
        do! match ps_tunnel rsp with Some t => completeProxyResponseLocked t | None => ret tt end in
        set_responder PsIdle)) by live. apply Hl.
    + rewrite leaving_idle. assert (Hl : live (do! wg_done in set_responder PsExited)) by live. apply Hl.
Qed.

(** ** Workers *)

Lemma set_worker_leaves s1 i w w' :
  quiet s s1 -> cc_workers s !! i = Some w -> worker_rank w' < worker_rank w ->
  wp (set_worker i w') (fun _ => leaves s) s1.
Proof. intros Hq Hw Hr. by eapply leaves_worker. Qed.

Lemma publish_leaves i task :
  cc_workers s !! i = Some (WProcess task) -> pq_datagramDirect task = true ->
  wp (publish_datagram_channel i task) (fun _ => leaves s) s.
Proof.
  intros Hw Hdir. destruct (task_refs s i _ task Hi Hw eq_refl) as (Ht & _).
  apply wp_load_tunnel; [done|]. intros x Hx.
  destruct (t_ctx x); [|by eapply set_worker_leaves].
  destruct (datagramChannelIDFromStreamID _) as [id|]; [|by eapply set_worker_leaves].
  apply wp_get. cbv zeta. apply wp_put. rewrite leaving_closed.
  apply wp_bind. unfold wp at 1, initiate_closes. by eapply set_worker_leaves.
Qed.

Lemma register_leaves i task a l :
  cc_workers s !! i = Some (WPublished task a l) ->
  wp (register_datagram_channel i task a l) (fun _ => leaves s) s.
Proof.
  intros Hw. pose proof (worker_ok_at s i _ Hi Hw) as (_ & Hc & _).
  apply wp_get. destruct (Hc a eq_refl) as [ch Hch]. rewrite Hch.
  destruct (registerDatagramChannel _ _ _) as [w []].
  - apply wp_put. by eapply set_worker_leaves.
  - apply wp_put, wp_bind. unfold wp at 1, initiate_closes. by eapply set_worker_leaves.
Qed.

Lemma hand_over_leaves i task a l :
  cc_workers s !! i = Some (WRegistered task a l) ->
  wp (hand_over_datagram_channel i task a l) (fun _ => leaves s) s.
Proof.
  intros Hw. pose proof (worker_ok_at s i _ Hi Hw) as (_ & _ & Hl).
  assert (Hrefuse : wp (do! initiate_closes [a] in set_worker i (WRespond task None (Some EDatagramProxy)))
                       (fun _ => leaves s) s).
  { apply wp_bind. unfold wp at 1, initiate_closes. by eapply set_worker_leaves. }
  destruct l as [l|]; [|done]. apply wp_load_listener; [by apply Hl|]. intros x Hx.
  destruct (chan_try_send _ _); [|done]. apply wp_store_listener. by eapply set_worker_leaves.
Qed.

Lemma refuse_leaves i w task conn e :
  cc_workers s !! i = Some w -> 1 < worker_rank w -> wp (refuse_delivery i task conn e) (fun _ => leaves s) s.
Proof. intros Hw Hr. apply wp_bind. unfold wp at 1, close_conns. by eapply set_worker_leaves. Qed.

Lemma deliver_leaves i w : cc_workers s !! i = Some w ->
  (exists task c, w = WDeliver task c \/ w = WSelect task c \/ w = WDelivered task c) ->
  wp (worker_deliver i DTimer) (fun _ => leaves s) s.
Proof.
  intros Hw (task & c & Hcase). apply wp_get. rewrite Hw.
  assert (Hk : worker_task w = Some task) by (by destruct Hcase as [->|[->| ->]]).
  destruct (task_refs s i w task Hi Hw Hk) as (Ht & Hl & _).
  destruct Hcase as [->|[->| ->]].
  - apply wp_load_tunnel; [done|]. intros x Hx. apply wp_if; intros _; [by eapply refuse_leaves|].
    apply wp_store_tunnel. by eapply set_worker_leaves.
  - apply wp_get, wp_load_tunnel; [done|]. intros x Hx. by eapply refuse_leaves.
  - apply wp_load_tunnel; [done|]. intros x Hx.
    eapply (wp_seq _ _ (fun _ s' => s' = s)).
    + destruct (pq_datagramListener task) as [l|]; [|done]. apply wp_load_listener; [by apply Hl|]. done.
    + intros [] s' ->; [by eapply refuse_leaves|]. by eapply set_worker_leaves.
Qed.

Lemma live_publish i task : live (publish_datagram_channel i task).
Proof. unfold publish_datagram_channel. live. Qed.
Lemma live_register i task a l : live (register_datagram_channel i task a l).
Proof. unfold register_datagram_channel. live. Qed.
Lemma live_hand_over i task a l : live (hand_over_datagram_channel i task a l).
Proof. unfold hand_over_datagram_channel. live. Qed.
Lemma live_refuse i task c e : live (refuse_delivery i task c e).
Proof. unfold refuse_delivery. live. Qed.

Lemma worker_leaves i w : cc_workers s !! i = Some w -> worker_rank w <> 0 -> can_leave s.
Proof.
  intros Hw Hr. pose proof (proj2 (proj2 (proj2 (running_wg s Hi))) i w Hw) as Hpos.
  assert (Hexit : forall (m : M unit), m = (do! wg_done in set_worker i WExited) -> worker_runs w = 1 ->
    wp m (fun _ => leaves s) s /\ m s <> Disabled).
  { intros m -> Hruns. split.
    - apply wp_wg_done; [by apply Hpos|]. eapply set_worker_leaves; [done..|]. by destruct w.
    - assert (Hl : live (do! wg_done in set_worker i WExited)) by live. apply Hl. }
  destruct w as [|task|task c|task c|task c|task a l|task a l|task ch e|]; [..|done].
  - destruct (Hexit _ eq_refl eq_refl). apply (can_leave_by s (AWorkerExit i)); [done|..]; cbn [step]; unfold worker_exit.
    + apply wp_get. by rewrite Hw, leaving_done.
    + unfold bind at 1, get. by rewrite Hw, leaving_done.
  - apply (can_leave_by s (AWorkerProcess i false)); [done|..]; cbn [step]; unfold worker_process.
    + apply wp_get. rewrite Hw. apply wp_if; intros Hd; [by apply publish_leaves|by eapply set_worker_leaves].
    + unfold bind at 1, get. rewrite Hw. destruct (pq_datagramDirect task); [apply live_publish|done].
  - apply (can_leave_by s (AWorkerDeliver i DTimer)); [done|..]; cbn [step].
    + eapply deliver_leaves; eauto 10.
    + unfold worker_deliver, bind at 1, get. rewrite Hw. apply live_bind; [apply live_load_tunnel|]. intros x.
      destruct (_ || _); [apply live_refuse|live].
  - apply (can_leave_by s (AWorkerDeliver i DTimer)); [done|..]; cbn [step].
    + eapply deliver_leaves; eauto 10.
    + unfold worker_deliver, bind at 1, get. rewrite Hw. unfold deliver_select.
      assert (Hl : live (let! _ := get in let! _ := load_tunnel (pq_tunnel task) in
        refuse_delivery i task c EDeliveryQueueFull)) by (pose proof live_refuse; live). apply Hl.
  - apply (can_leave_by s (AWorkerDeliver i DTimer)); [done|..]; cbn [step].
    + eapply deliver_leaves; eauto 10.
    + unfold worker_deliver, bind at 1, get. rewrite Hw. apply live_bind; [apply live_load_tunnel|]. intros x.
      apply live_bind; [live|]. intros []; [apply live_refuse|live].
  - apply (can_leave_by s (AWorkerProcess i false)); [done|..]; cbn [step]; unfold worker_process.
    + apply wp_get. rewrite Hw. by apply register_leaves.
    + unfold bind at 1, get. rewrite Hw. apply live_register.
  - apply (can_leave_by s (AWorkerProcess i false)); [done|..]; cbn [step]; unfold worker_process.
    + apply wp_get. rewrite Hw. by apply hand_over_leaves.
    + unfold bind at 1, get. rewrite Hw. apply live_hand_over.
  - destruct (Hexit _ eq_refl eq_refl). apply (can_leave_by s (AWorkerRespond i true)); [done|..]; cbn [step]; unfold worker_respond.
    + apply wp_get. by rewrite Hw, leaving_done.
    + unfold bind at 1, get. by rewrite Hw, leaving_done.
Qed.

Lemma ranks_nonneg : 0 <= reader_rank (cc_reader s) /\ 0 <= beater_rank (cc_beater s) /\
  0 <= responder_rank (cc_responder s) /\ 0 <= total worker_rank (cc_workers s).
Proof.
  split_and!; [by destruct (cc_reader s)|by destruct (cc_beater s)|by destruct (cc_responder s)|].
  apply total_nonneg. by intros [].
Qed.

Lemma total_zero {A} (f : A -> Z) l : (forall x, 0 <= f x) -> total f l <> 0 -> exists i x, l !! i = Some x /\ f x <> 0.
Proof.
  intros Hf. induction l as [|x l IH]; [done|]. rewrite total_cons. intros Hn.
  destruct (decide (f x = 0)) as [E|E]; [|by exists 0%nat, x].
  destruct IH as (i & y & ? & ?); [lia|]. by exists (S i), y.
Qed.

Lemma someone_leaves : fuel s <> 0 -> can_leave s.
Proof.
  intros Hf. destruct ranks_nonneg as (? & ? & ? & ?).
  destruct (decide (reader_rank (cc_reader s) = 0)); [|by apply reader_leaves].
  destruct (decide (beater_rank (cc_beater s) = 0)); [|by apply beater_leaves].
  destruct (decide (responder_rank (cc_responder s) = 0)); [|by apply responder_leaves].
  destruct (total_zero worker_rank (cc_workers s)) as (i & w & ? & ?); [by intros []|unfold fuel in Hf; lia|].
  by eapply worker_leaves.
Qed.

Lemma nobody_left : fuel s = 0 -> cc_lifecycleWG s = 0.
Proof.
  intros Hf. destruct ranks_nonneg as (? & ? & ? & ?). unfold fuel in Hf. destruct Hi. destruct i_wg. rewrite iw_count.
  assert (total worker_runs (cc_workers s) = 0).
  { assert (Hz : total worker_rank (cc_workers s) = 0) by lia. clear -Hz. induction (cc_workers s) as [|w l IH]; [done|].
    rewrite total_cons in *. assert (0 <= total worker_rank l) by (apply total_nonneg; by intros []).
    rewrite IH by (destruct w; simpl in *; lia). destruct w; simpl in *; lia. }
  destruct (cc_reader s), (cc_beater s), (cc_responder s); simpl in *; lia.
Qed.
End Leaving.

Lemma goroutines_leave `{Env} s cl :
  inv s -> cc_cleanup s = Some cl -> cl_finishing cl = true ->
  exists s', rtc moves s s' /\ inv s' /\ cc_cleanup s' = Some cl /\ cc_lifecycleWG s' = 0.
Proof.
  intros Hi Hcl Hf. destruct (ranks_nonneg s) as (? & ? & ? & ?).
  remember (Z.to_nat (fuel s)) as n eqn:En. revert s En Hi Hcl H0 H1 H2 H3.
  induction n as [n IH] using lt_wf_ind. intros s -> Hi Hcl R1 R2 R3 R4.
  destruct (decide (fuel s = 0)) as [Ez|Ez].
  { exists s. split_and!; try done. by apply nobody_left. }
  destruct (someone_leaves s Hi cl Hcl Hf Ez) as (a & s1 & Ha & E & Hlt & Ecl).
  pose proof (inv_step s a Hi Ha) as Hi1. unfold wp in Hi1. rewrite E in Hi1.
  destruct (ranks_nonneg s1) as (? & ? & ? & ?).
  assert (Hn : (Z.to_nat (fuel s1) < Z.to_nat (fuel s))%nat) by (unfold fuel in *; lia).
  destruct (IH _ Hn s1 eq_refl) as (s' & Hr & ? & ? & ?); try done; [by rewrite Ecl|].
  exists s'. split_and!; try done. eapply rtc_l; [|done]. by exists a.
Qed.

(** The end of a channel: the closed signal fired and the done channel holds [e]. *)
Definition finished_with (s : ctrl) (e : option cc_error) : Prop :=
  cc_closedCh s = Some true /\ cc_doneCh s = Chan [e] 1 true.


