(* ===== verification/Transports.v ===== *)
(** * Transports: draining proxy transports, pending dials, serialized writes ([client.go])

    [drainingProxyTransport] (a QUIC transport shared by redirected proxy
    connections, closed when its last stream ends), the registry of pending dials
    of [Client] ([beginDial], [Close]), the context-aware write lock
    ([contextMutex]) and [writePbMessageContext].  Goroutines are interleaved at
    the points where the Go code releases its mutexes. *)

From S2P Require Import Prelude ControlChannel.

(** ** Draining transports *)

Record drainingProxyTransport := MkDraining {
  dr_active : Z;
  dr_detached : bool;
  dr_closed : bool;
  dr_once : bool;                 (* closeOnce has run *)
  dr_closes : nat;                (* calls of the underlying Close *)
  dr_dialing : nat;               (* dials of the underlying transport in progress *)
  dr_conns : gmap nat bool;       (* the connections handed out: whether still open *)
  dr_closing : nat;               (* goroutines about to call closeUnderlying *)
  dr_next : nat;
}.

Definition new_draining : drainingProxyTransport := MkDraining 0 false false false 0 0 ∅ 0 0.

(** [Dial] up to the dial of the underlying transport; [None] is [net.ErrClosed]. *)
Definition draining_Dial_begin (t : drainingProxyTransport) : option drainingProxyTransport :=
  if dr_detached t || dr_closed t then None
  else Some {| t with dr_active := dr_active t + 1; dr_dialing := S (dr_dialing t) |}.

(** [release] up to the unlock. *)
Definition draining_release (t : drainingProxyTransport) : drainingProxyTransport :=
  let active := if 0 <? dr_active t then dr_active t - 1 else dr_active t in
  let closeNow := dr_detached t && (active =? 0) in
  {| t with dr_active := active; dr_closing := if closeNow then S (dr_closing t) else dr_closing t |}.

(** The rest of [Dial], for the answer [ok] of the underlying transport. *)
Definition draining_Dial_end (t : drainingProxyTransport) (ok : bool) : drainingProxyTransport * option nat :=
  let t := {| t with dr_dialing := pred (dr_dialing t) |} in
  if negb ok then (draining_release t, None)
  else if dr_detached t || dr_closed t then (draining_release t, None)
  else ({| t with dr_conns := <[dr_next t := true]> (dr_conns t); dr_next := S (dr_next t) |}, Some (dr_next t)).

(** [drainingProxyConn.Close]: once. *)
Definition draining_conn_Close (t : drainingProxyTransport) (c : nat) : drainingProxyTransport :=
  match dr_conns t !! c with
  | Some true => draining_release {| t with dr_conns := <[c := false]> (dr_conns t) |}
  | _ => t
  end.

Definition draining_Detach (t : drainingProxyTransport) : drainingProxyTransport :=
  {| t with dr_detached := true;
            dr_closing := if dr_active t =? 0 then S (dr_closing t) else dr_closing t |}.

Definition draining_Close (t : drainingProxyTransport) : drainingProxyTransport :=
  {| t with dr_closed := true; dr_detached := true; dr_closing := S (dr_closing t) |}.

Definition closeUnderlying (t : drainingProxyTransport) : drainingProxyTransport :=
  {| t with dr_closing := pred (dr_closing t); dr_once := true;
            dr_closes := if dr_once t then dr_closes t else S (dr_closes t) |}.

Inductive draining_step : drainingProxyTransport -> drainingProxyTransport -> Prop :=
| DrDial t t' : draining_Dial_begin t = Some t' -> draining_step t t'
| DrDialled t ok : (0 < dr_dialing t)%nat -> draining_step t (fst (draining_Dial_end t ok))
| DrConnClose t c : draining_step t (draining_conn_Close t c)
| DrDetach t : draining_step t (draining_Detach t)
| DrClose t : draining_step t (draining_Close t)
| DrCloseUnderlying t : (0 < dr_closing t)%nat -> draining_step t (closeUnderlying t).

Definition open_conns (m : gmap nat bool) : nat := size (filter (fun kv => kv.2 = true) m).

Record draining_inv (t : drainingProxyTransport) : Prop := {
  dv_active : dr_active t = Z.of_nat (dr_dialing t + open_conns (dr_conns t));
  dv_closes : dr_closes t = if dr_once t then 1%nat else 0%nat;
  dv_reason : dr_once t = true \/ (0 < dr_closing t)%nat -> dr_detached t = true /\ (dr_closed t = true \/ dr_active t = 0);
  dv_due : dr_detached t = true -> dr_active t = 0 -> dr_once t = true \/ (0 < dr_closing t)%nat;
  dv_closed : dr_closed t = true -> dr_detached t = true /\ (dr_once t = true \/ (0 < dr_closing t)%nat);
  dv_next : forall c, is_Some (dr_conns t !! c) -> (c < dr_next t)%nat;
}.

Lemma open_conns_insert m c : m !! c = None -> open_conns (<[c := true]> m) = S (open_conns m).
Proof.
  intros Hc. unfold open_conns. rewrite map_filter_insert_True by done. apply map_size_insert_None.
  by apply map_lookup_filter_None_2; left.
Qed.

Lemma open_conns_close m c : m !! c = Some true -> open_conns m = S (open_conns (<[c := false]> m)).
Proof.
  intros Hc. rewrite <- (insert_id m c true Hc) at 1. rewrite <- (insert_delete_eq m c true), <- (insert_delete_eq m c false).
  rewrite open_conns_insert by apply lookup_delete_eq. f_equal. unfold open_conns.
  rewrite map_filter_insert_False by done. by rewrite delete_delete_eq.
Qed.

(** A release keeps the invariant once the stream it is for is gone. *)
Lemma draining_release_inv t n m :
  draining_inv t ->
  (dr_dialing t + open_conns (dr_conns t) = S (n + open_conns m))%nat ->
  (forall c, is_Some (m !! c) -> (c < dr_next t)%nat) ->
  draining_inv (draining_release {| t with dr_dialing := n; dr_conns := m |}).
Proof.
  intros [] Hn Hm. unfold draining_release. cbn.
  assert (Ha : dr_active t = Z.of_nat (S (n + open_conns m))) by (rewrite dv_active0; lia).
  destruct (Z.ltb_spec 0 (dr_active t)); [|lia].
  assert (Hr : dr_once t = true \/ (0 < dr_closing t)%nat -> dr_closed t = true).
  { intros Hc. destruct (dv_reason0 Hc) as [_ [?|?]]; [done|lia]. }
  destruct (dr_detached t) eqn:Ed; cbn; [destruct (Z.eqb_spec (dr_active t - 1) 0) as [Ez|Ez]|]; constructor; cbn; try done.
  - lia.
  - intros _. split; [done|]. by right.
  - intros _ _. right. lia.
  - intros _. split; [done|]. right. lia.
  - lia.
  - intros Hc. split; [done|]. left. by apply Hr.
  - lia.
  - intros Hc. by destruct (dv_reason0 Hc).
Qed.

Lemma draining_step_inv t t' : draining_step t t' -> draining_inv t -> draining_inv t'.
Proof.
  intros Hs Hi. assert (Hi' := Hi). destruct Hi' as [Ha Hc Hr Hd Hcl Hx]. destruct Hs as [t t' E|t ok Hk|t c|t|t|t Hk].
  - unfold draining_Dial_begin in E. destruct (_ || _) eqn:Eb; [done|]. apply orb_false_iff in Eb as [E1 E2].
    injection E as <-. constructor; cbn; try done; try lia; try congruence.
    intros H. destruct (Hr H). congruence.
  - unfold draining_Dial_end. cbn. destruct ok; cbn; [|apply draining_release_inv; [done|lia|done]].
    destruct (_ || _) eqn:Eb; cbn; [apply draining_release_inv; [done|lia|done]|].
    apply orb_false_iff in Eb as [E1 E2].
    assert (Hf : dr_conns t !! dr_next t = None).
    { destruct (_ !! _) eqn:E; [|done]. specialize (Hx (dr_next t) ltac:(eauto)). lia. }
    constructor; cbn; try done; try congruence.
    + rewrite open_conns_insert by done. lia.
    + intros c. destruct (decide (c = dr_next t)) as [->|]; [lia|]. rewrite lookup_insert_ne by done.
      intros H. specialize (Hx c H). lia.
  - unfold draining_conn_Close. destruct (dr_conns t !! c) as [[]|] eqn:E; [|done..].
    replace {| t with dr_conns := <[c := false]> (dr_conns t) |}
      with {| t with dr_dialing := dr_dialing t; dr_conns := <[c := false]> (dr_conns t) |} by by destruct t.
    apply draining_release_inv; [done| |].
    + rewrite (open_conns_close _ _ E). lia.
    + intros c'. destruct (decide (c' = c)) as [->|]; [eauto|]. rewrite lookup_insert_ne by done. eauto.
  - unfold draining_Detach. destruct (Z.eqb_spec (dr_active t) 0) as [Ez|Ez]; constructor; cbn; try done.
    + intros _. split; [done|]. by right.
    + intros _ _. right. lia.
    + intros H. split; [done|]. right. lia.
    + intros H. split; [done|]. by destruct (Hr H).
    + intros H. split; [done|]. by apply Hcl.
  - unfold draining_Close. constructor; cbn; try done.
    + intros _. split; [done|by left].
    + intros _ _. right. lia.
    + intros _. split; [done|]. right. lia.
  - unfold closeUnderlying. constructor; cbn; try done.
    + rewrite Hc. by destruct (dr_once t).
    + intros _. by apply Hr; right.
    + by left.
    + intros H. split; [by apply Hcl|by left].
Qed.

(** C30: a draining transport is closed once, and only when nobody uses it.
    Whatever the order of dials, closes of its connections, [Detach] and [Close]:
    the underlying transport is closed at most once; without an explicit [Close]
    it is never closed while a dial is in progress or a connection it gave is
    open; after [Detach] or [Close] no dial is admitted; and once it is detached
    and the last connection and dial are gone, it has been closed, or a goroutine
    is about to close it. *)
Theorem draining_transport_closes_once t :
  rtc draining_step new_draining t ->
  (dr_closes t <= 1)%nat /\
  (dr_closed t = false -> (0 < dr_closes t)%nat -> dr_dialing t = 0%nat /\ open_conns (dr_conns t) = 0%nat) /\
  (dr_detached t = true -> draining_Dial_begin t = None) /\
  (dr_detached t = true -> dr_dialing t = 0%nat -> open_conns (dr_conns t) = 0%nat ->
     dr_closes t = 1%nat \/ (0 < dr_closing t)%nat).
Proof.
  intros Hr. assert (Hi : draining_inv t).
  { eapply (rtc_invariant draining_step draining_inv); [apply draining_step_inv|done|].
    constructor; cbn; try done; [by intros [?|?%Nat.lt_irrefl]|by intros c [? ?]]. }
  destruct Hi as [Ha Hc Hre Hd Hcl _]. split_and!.
  - rewrite Hc. destruct (dr_once t); lia.
  - intros H1 H2. rewrite Hc in H2. destruct (dr_once t); [|lia].
    destruct (Hre ltac:(by left)) as [_ [?|E]]; [congruence|]. lia.
  - intros H. unfold draining_Dial_begin. by rewrite H.
  - intros H1 H2 H3. destruct (Hd H1 ltac:(lia)) as [E|E]; [left|by right]. by rewrite Hc, E.
Qed.

Definition drained_sample : drainingProxyTransport :=
  closeUnderlying (draining_conn_Close (draining_Detach (fst (draining_Dial_end
    (default new_draining (draining_Dial_begin new_draining)) true))) 0).

Lemma draining_transport_closes_once_witness :
  dr_closes drained_sample = 1%nat /\ draining_Dial_begin drained_sample = None.
Proof.
  split; [reflexivity|].
  apply (draining_transport_closes_once drained_sample); [|reflexivity]. unfold drained_sample.
  eapply rtc_r; [|apply DrCloseUnderlying; vm_compute; lia]. eapply rtc_r; [|apply DrConnClose].
  eapply rtc_r; [|apply DrDetach]. eapply rtc_r; [|apply DrDialled; vm_compute; lia].
  apply rtc_once. by apply DrDial.
Defined.

(** ** Pending dials of a client *)

Inductive closePhase := NotClosing | Stored | Cancelling (ids : list Z) | Cancelled.

Record dialRegistry := MkRegistry {
  rg_closed : bool;
  rg_dialCancels : option (gset Z);      (* the keys; nil after Close *)
  rg_nextDialID : Z;
  rg_pending : gset Z;                   (* dials begun and not done *)
  rg_cancelled : gset Z;                 (* contexts cancelled *)
  rg_phase : closePhase;
}.

Definition new_registry : dialRegistry := MkRegistry false None 0 ∅ ∅ NotClosing.

(** [None] is [net.ErrClosed]. *)
Definition beginDial (r : dialRegistry) : option (dialRegistry * Z) :=
  if rg_closed r then None
  else
    let id := u64 (rg_nextDialID r + 1) in
    Some ({| r with rg_dialCancels := Some ({[id]} ∪ default ∅ (rg_dialCancels r)); rg_nextDialID := id;
                    rg_pending := {[id]} ∪ rg_pending r |}, id).

(** The function [beginDial] returns: delete, then cancel. *)
Definition endDial (r : dialRegistry) (id : Z) : dialRegistry :=
  {| r with rg_dialCancels := option_map (fun m => m ∖ {[id]}) (rg_dialCancels r);
            rg_pending := rg_pending r ∖ {[id]}; rg_cancelled := {[id]} ∪ rg_cancelled r |}.

(** [Close]: the flag, the swap under the lock, the cancellations. *)
Definition client_Close (r : dialRegistry) : dialRegistry :=
  match rg_phase r with
  | NotClosing => {| r with rg_closed := true; rg_phase := Stored |}
  | Stored => {| r with rg_dialCancels := None; rg_phase := Cancelling (elements (default ∅ (rg_dialCancels r))) |}
  | Cancelling [] => {| r with rg_phase := Cancelled |}
  | Cancelling (id :: l) => {| r with rg_cancelled := {[id]} ∪ rg_cancelled r; rg_phase := Cancelling l |}
  | Cancelled => r
  end.

Inductive registry_step : dialRegistry -> dialRegistry -> Prop :=
| RgBegin r r' id : beginDial r = Some (r', id) -> rg_nextDialID r < 2 ^ 64 - 1 -> registry_step r r'
| RgEnd r id : id ∈ rg_pending r -> registry_step r (endDial r id)
| RgClose r : registry_step r (client_Close r).

Definition to_cancel (p : closePhase) : list Z := match p with Cancelling l => l | _ => [] end.

Record registry_inv (r : dialRegistry) : Prop := {
  rv_flag : rg_closed r = true <-> rg_phase r <> NotClosing;
  rv_pending : forall id, id ∈ rg_pending r ->
    id ∈ default ∅ (rg_dialCancels r) \/ id ∈ to_cancel (rg_phase r) \/ id ∈ rg_cancelled r;
  rv_swapped : match rg_phase r with Cancelling _ | Cancelled => rg_dialCancels r = None | _ => True end;
  rv_next : 0 <= rg_nextDialID r;
}.

Lemma registry_step_inv r r' : registry_step r r' -> registry_inv r -> registry_inv r'.
Proof.
  intros Hs [Hf Hp Hsw Hn]. destruct Hs as [r r' id E Hlt|r id Hid|r].
  - unfold beginDial in E. destruct (rg_closed r) eqn:Ec; [done|]. injection E as <- <-.
    assert (Eph : rg_phase r = NotClosing).
    { destruct (rg_phase r); [done|..]; (exfalso; by apply diff_false_true, Hf). }
    constructor; cbn; rewrite ?Ec, ?Eph in *; try done.
    + intros x [Hx%elem_of_singleton|Hx]%elem_of_union; [left; by apply elem_of_union_l, elem_of_singleton|].
      destruct (Hp x Hx) as [?|[?|?]]; [left; by apply elem_of_union_r|by right; left|by right; right].
    + apply u64_range.
  - constructor; cbn; try done.
    + intros x [Hx Hne]%elem_of_difference. destruct (Hp x Hx) as [H|[?|?]]; [left|by right; left|right; right; by apply elem_of_union_r].
      destruct (rg_dialCancels r); cbn in *; [by apply elem_of_difference|done].
    + destruct (rg_phase r); try done; by rewrite Hsw.
  - assert (Hcl : rg_phase r <> NotClosing -> rg_closed r = true) by by apply Hf. clear Hf.
    unfold client_Close. destruct (rg_phase r) as [| |[|y l]|] eqn:Eph; cbn in Hp.
    + by constructor.
    + constructor; cbn; try done; [by rewrite Hcl|].
      intros x Hx. destruct (Hp x Hx) as [?|[?%elem_of_nil|?]]; [right; left; by apply elem_of_elements|done|auto].
    + constructor; cbn; try done. by rewrite Hcl.
    + constructor; cbn; try done; [by rewrite Hcl|].
      intros x Hx. destruct (Hp x Hx) as [?|[Hl|?]]; [by left| |right; right; by apply elem_of_union_r].
      apply elem_of_cons in Hl as [->|?]; [right; right; by apply elem_of_union_l, elem_of_singleton|by right; left].
    + constructor; rewrite ?Eph; cbn; try done.
Qed.

(** [Client.Close] reaches every pending dial.  When its cancellations are
    done, no dial can begin any more, and the context of every dial that had
    begun and is not over is cancelled, also of one that was admitted while
    [Close] was already running. *)
Theorem client_close_cancels_dials r :
  rtc registry_step new_registry r -> rg_phase r = Cancelled ->
  beginDial r = None /\ rg_pending r ⊆ rg_cancelled r.
Proof.
  intros Hr Hph. assert (Hi : registry_inv r).
  { eapply (rtc_invariant registry_step registry_inv); [apply registry_step_inv|done|]. by constructor. }
  destruct Hi as [Hf Hp Hsw _]. rewrite Hph in *. split.
  - unfold beginDial. by rewrite (proj2 Hf).
  - intros id Hid. destruct (Hp id Hid) as [H|[H|?]]; [|by apply elem_of_nil in H|done].
    rewrite Hsw in H. by apply elem_of_empty in H.
Qed.

Definition closed_registry : dialRegistry :=
  Nat.iter 4 client_Close (fst (default (new_registry, 0) (beginDial new_registry))).

Lemma client_close_cancels_dials_witness :
  rg_pending closed_registry = {[1]} /\ rg_pending closed_registry ⊆ rg_cancelled closed_registry.
Proof.
  split; [vm_compute; reflexivity|]. apply (client_close_cancels_dials closed_registry); [|vm_compute; reflexivity].
  unfold closed_registry. cbn [Nat.iter].
  do 4 (eapply rtc_r; [|apply RgClose]). apply rtc_once. eapply RgBegin; [reflexivity|vm_compute; reflexivity].
Defined.

(** ** The write lock *)

(** [contextMutex]: a channel holding one token; [cm_ch = None] before the first
    use, the goroutines that hold the lock are listed. *)
Record contextMutex := MkMutex { cm_ch : option (chan unit); cm_holders : list nat }.

Definition mutex_init (m : contextMutex) : chan unit :=
  match cm_ch m with Some c => c | None => Chan [tt] 1 false end.

(** [Lock] by goroutine [g]; [None] while it waits for the token. *)
Definition mutex_Lock (m : contextMutex) (g : nat) : option contextMutex :=
  match chan_buf (mutex_init m) with
  | [] => None
  | _ :: r => Some (MkMutex (Some (Chan r 1 false)) (g :: cm_holders m))
  end.

(** [Lock] that gives up because its context ended. *)
Definition mutex_Lock_ended (m : contextMutex) : contextMutex := MkMutex (Some (mutex_init m)) (cm_holders m).

(** [Unlock]; [None] when the send would block. *)
Definition mutex_Unlock (m : contextMutex) (g : nat) : option contextMutex :=
  match cm_ch m with
  | None => None
  | Some c => match chan_try_send c tt with
              | None => None
              | Some c => Some (MkMutex (Some c) (filter (fun h => h <> g) (cm_holders m)))
              end
  end.

Inductive mutex_step : contextMutex -> contextMutex -> Prop :=
| MuLock m g m' : mutex_Lock m g = Some m' -> mutex_step m m'
| MuEnded m : mutex_step m (mutex_Lock_ended m)
| MuUnlock m g m' : g ∈ cm_holders m -> mutex_Unlock m g = Some m' -> mutex_step m m'.

Definition mutex_inv (m : contextMutex) : Prop :=
  (cm_holders m = [] /\ mutex_init m = Chan [tt] 1 false) \/
  (exists g, cm_holders m = [g] /\ cm_ch m = Some (Chan [] 1 false)).

Lemma mutex_step_inv m m' : mutex_step m m' -> mutex_inv m -> mutex_inv m'.
Proof.
  intros Hs Hi. destruct Hs as [m g m' E|m|m g m' Hg E].
  - unfold mutex_Lock in E. destruct Hi as [[Eh Ei]|(h & Eh & Ec)].
    + rewrite Ei, Eh in E. injection E as <-. right. by exists g.
    + unfold mutex_init in E. by rewrite Ec in E.
  - destruct Hi as [[Eh Ei]|(h & Eh & Ec)]; [left|right].
    + unfold mutex_init, mutex_Lock_ended. by rewrite Eh.
    + exists h. unfold mutex_Lock_ended, mutex_init. by rewrite Ec.
  - destruct Hi as [[Eh Ei]|(h & Eh & Ec)]; [rewrite Eh in Hg; by apply elem_of_nil in Hg|].
    rewrite Eh in Hg. apply list_elem_of_singleton in Hg as ->.
    unfold mutex_Unlock in E. rewrite Ec, Eh in E. cbn in E. injection E as <-. left. cbn.
    rewrite decide_False by naive_solver. done.
Qed.

(** The write lock excludes and never loses its token.  At any time at most
    one goroutine holds it, whatever waiters give up; the unlock of the holder
    never blocks; and when nobody holds it the next [Lock] succeeds. *)
Theorem write_lock_excludes m :
  rtc mutex_step (MkMutex None []) m ->
  (length (cm_holders m) <= 1)%nat /\
  (forall g, g ∈ cm_holders m -> is_Some (mutex_Unlock m g)) /\
  (cm_holders m = [] -> forall g, is_Some (mutex_Lock m g)).
Proof.
  intros Hr. assert (Hi : mutex_inv m).
  { eapply (rtc_invariant mutex_step mutex_inv); [apply mutex_step_inv|done|]. by left. }
  destruct Hi as [[Eh Ei]|(h & Eh & Ec)]; rewrite Eh; split_and!; cbn; try lia; try done.
  - intros g Hg. by apply elem_of_nil in Hg.
  - intros _ g. unfold mutex_Lock. rewrite Ei. eauto.
  - intros g _. unfold mutex_Unlock. rewrite Ec. eauto.
Qed.

Lemma write_lock_excludes_witness :
  let m := MkMutex (Some (Chan [] 1 false)) [7%nat] in
  (length (cm_holders m) <= 1)%nat /\ is_Some (mutex_Unlock m 7).
Proof.
  assert (Hr : rtc mutex_step (MkMutex None []) (MkMutex (Some (Chan [] 1 false)) [7%nat])).
  { apply rtc_once. by apply (MuLock _ 7). }
  destruct (write_lock_excludes _ Hr) as (H1 & H2 & _). split; [exact H1|]. apply H2. by left.
Defined.

(** ** One write of a control message *)

(** What the surroundings of [writePbMessageContext] answer, in order: the wait
    for the lock, the cause of the context before and after the write, the
    deadline calls of the connection, the write itself (how much of the frame
    went out, and whether it succeeded), and the clock. *)
Record writeWorld := MkWriteWorld {
  ww_ctx : bool;                      (* ctx != nil *)
  ww_lock : option nat;               (* the cause, when the context ends while waiting *)
  ww_causeBefore : option nat;
  ww_writer : bool;                   (* c.w != nil *)
  ww_conn : bool;                     (* c.conn != nil *)
  ww_deadline : bool;                 (* ctx has a deadline *)
  ww_setDeadlineFails : bool;
  ww_sent : nat;                      (* bytes of the frame handed to the connection *)
  ww_writeFails : bool;
  ww_clearFails : bool;               (* other than on a closed connection *)
  ww_causeAfter : option nat;
  ww_expired : bool;                  (* now is not before the deadline *)
  ww_expiryCause : nat;
}.

Inductive writeError :=
| NoContext
| Cause (n : nat)
| NoWriter
| WriteFailure (e : option nat).      (* controlChannelWriteError; the cause, if it is the context's *)

(** The answer and the number of bytes sent. *)
Definition writePbMessageContext (w : writeWorld) : result writeError unit * nat :=
  if negb (ww_ctx w) then (Err NoContext, 0%nat)
  else match ww_lock w with
  | Some n => (Err (Cause n), 0%nat)
  | None =>
  match ww_causeBefore w with
  | Some n => (Err (Cause n), 0%nat)
  | None =>
  if negb (ww_writer w) then (Err NoWriter, 0%nat)
  else if ww_conn w && ww_deadline w && ww_setDeadlineFails w then (Err (WriteFailure None), 0%nat)
  else
    let err := ww_writeFails w || (ww_conn w && ww_clearFails w) in
    (match ww_causeAfter w with
     | Some n => Err (WriteFailure (Some n))
     | None =>
         if err && ww_deadline w && ww_expired w then Err (WriteFailure (Some (ww_expiryCause w)))
         else if err then Err (WriteFailure None)
         else Ok tt
     end, ww_sent w)
  end end.

(** An error that is not a [controlChannelWriteError] means that nothing was
    sent, so that the channel may go on; a write that succeeded was not
    interrupted by its context; and whenever bytes went out and the answer is an
    error, the error is one that ends the channel, so that no half-written frame
    is ever followed by another. *)
Theorem control_write_errors w :
  let '(r, sent) := writePbMessageContext w in
  (forall e, r = Err e -> (forall c, e <> WriteFailure c) -> sent = 0%nat) /\
  (r = Ok tt -> ww_writeFails w = false /\ ww_causeBefore w = None /\ ww_causeAfter w = None /\ sent = ww_sent w) /\
  (forall e, r = Err e -> (0 < sent)%nat -> exists c, e = WriteFailure c).
Proof.
  unfold writePbMessageContext. destruct (ww_ctx w), (ww_lock w), (ww_causeBefore w), (ww_writer w); cbn;
    try (split_and!; intros; simplify_eq; (done || lia)).
  destruct (ww_conn w && ww_deadline w && ww_setDeadlineFails w); cbn.
  { split_and!; intros; simplify_eq; [done|eauto]. }
  destruct (ww_causeAfter w); [split_and!; intros; simplify_eq; [naive_solver|eauto]|].
  destruct (_ && ww_expired w); [split_and!; intros; simplify_eq; [naive_solver|eauto]|].
  destruct (ww_writeFails w || _) eqn:E; split_and!; intros; simplify_eq; try naive_solver; try done.
  apply orb_false_iff in E as [? _]. done.
Qed.
