(* ===== verification/Liveness.v ===== *)
(** * Liveness: configuration, negotiated liveness and heartbeats ([client.go])

    [resolveControlChannelConfig] and [validateNegotiatedControlLiveness], the
    sequence and acknowledgement numbers of heartbeats ([sendHeartbeat] and
    [handleHeartbeat] of [ControlChannel]) and the retry policy of proxy dials.
    Durations are [int64] nanoseconds. *)

From S2P Require Import Prelude GoStrings TunnelProps ControlChannel ControlProps.

Definition nanosecond : Z := 1.
Definition millisecond : Z := 1000000.
Definition second : Z := 1000 * millisecond.

Definition defaultCloseTimeout : Z := 5 * second.
Definition defaultHeartbeatInterval : Z := 5 * second.
Definition minHeartbeatInterval : Z := second.
Definition maxHeartbeatInterval : Z := 5 * minute.

Record Config := MkConfig {
  EnableHeartbeat : option bool;
  HeartbeatInterval : option Z;
  CloseTimeout : option Z;
}.

Inductive config_error := IntervalOutOfRange | IntervalNotWholeMilliseconds.

Record resolved := MkResolved { rc_enabled : bool; rc_interval : Z; rc_closeTimeout : Z }.

Definition resolveControlChannelConfig (cfg : option Config) : result config_error resolved :=
  let enable := match cfg with Some c => default true (EnableHeartbeat c) | None => true end in
  let interval := match cfg with Some c => default defaultHeartbeatInterval (HeartbeatInterval c)
                  | None => defaultHeartbeatInterval end in
  let closeTimeout := match cfg with
                      | Some c => match CloseTimeout c with
                                  | Some t => if 0 <? t then t else defaultCloseTimeout
                                  | None => defaultCloseTimeout
                                  end
                      | None => defaultCloseTimeout
                      end in
  if enable && (0 <? interval) then
    if (interval <? minHeartbeatInterval) || (interval >? maxHeartbeatInterval) then Err IntervalOutOfRange
    else if negb (Z.rem interval millisecond =? 0) then Err IntervalNotWholeMilliseconds
    else Ok (MkResolved enable interval closeTimeout)
  else Ok (MkResolved enable interval closeTimeout).

(** [pb.ControlChannelLiveness]: two [uint32] fields. *)
Record ControlChannelLiveness := MkLiveness { HeartbeatIntervalMs : Z; HeartbeatTimeoutMs : Z }.

Definition wf_liveness (n : ControlChannelLiveness) : Prop :=
  0 <= HeartbeatIntervalMs n < 2 ^ 32 /\ 0 <= HeartbeatTimeoutMs n < 2 ^ 32.

Inductive liveness_error := UnrequestedLiveness | DifferentInterval | InvalidTimeout.

Definition validateNegotiatedControlLiveness (enabled : bool) (interval : Z) (negotiated : option ControlChannelLiveness) :
    result liveness_error Z :=
  match negotiated with
  | None => Ok 0
  | Some n =>
      if negb enabled || (interval <=? 0) then Err UnrequestedLiveness
      else if negb (HeartbeatIntervalMs n =? u32 (Z.quot interval millisecond)) then Err DifferentInterval
      else
        let timeout := i64 (HeartbeatTimeoutMs n * millisecond) in
        if (timeout <? interval) || (timeout >? maxHeartbeatTimeout) then Err InvalidTimeout
        else Ok timeout
  end.

(** The liveness request the handshake sends, [None] when there is none. *)
Definition requested (c : resolved) : option Z :=
  if rc_enabled c && (0 <? rc_interval c) then Some (u32 (Z.quot (rc_interval c) millisecond)) else None.

(** A heartbeat interval that the configuration enables is in range. *)
Lemma resolved_interval cfg c :
  resolveControlChannelConfig cfg = Ok c -> rc_enabled c = true -> 0 < rc_interval c ->
  minHeartbeatInterval <= rc_interval c <= maxHeartbeatInterval /\ Z.rem (rc_interval c) millisecond = 0.
Proof.
  intros Hr Hen Hpos. revert Hr. unfold resolveControlChannelConfig.
  set (en := match cfg with Some c => _ | None => true end).
  set (iv := match cfg with Some c => default defaultHeartbeatInterval _ | None => _ end). cbv zeta.
  destruct (en && (0 <? iv)) eqn:E2.
  - destruct ((iv <? minHeartbeatInterval) || (iv >? maxHeartbeatInterval)) eqn:E3; [done|].
    destruct (negb (Z.rem iv millisecond =? 0)) eqn:E4; [done|]. intros [= <-]. simpl.
    apply orb_false_iff in E3 as [?%Z.ltb_ge ?]. rewrite Z.gtb_ltb in *. apply negb_false_iff, Z.eqb_eq in E4.
    split; [|done]. split; [done|]. by apply Z.ltb_ge.
  - intros [= <-]. simpl in *. rewrite Hen in E2. simpl in E2. apply Z.ltb_ge in E2. lia.
Qed.

(** A liveness the client accepts is one it asked for, exactly.  With a
    configuration the client accepts, the close timeout is positive; when the
    engine negotiates liveness, the heartbeat interval is a whole number of
    milliseconds between one second and five minutes, the request carried it
    without truncation to 32 bits, the engine repeated it, and the timeout is
    between the interval and fifteen minutes, computed without overflow; when it
    does not, the timeout is zero, which disables the read deadline. *)
Theorem negotiated_liveness_sound cfg c n t :
  resolveControlChannelConfig cfg = Ok c ->
  (forall l, n = Some l -> wf_liveness l) ->
  validateNegotiatedControlLiveness (rc_enabled c) (rc_interval c) n = Ok t ->
  0 < rc_closeTimeout c /\
  match n with
  | None => t = 0
  | Some l =>
      requested c = Some (HeartbeatIntervalMs l) /\
      rc_interval c = HeartbeatIntervalMs l * millisecond /\
      second <= rc_interval c <= 5 * minute /\
      t = HeartbeatTimeoutMs l * millisecond /\ rc_interval c <= t <= 15 * minute
  end.
Proof.
  intros Hr Hwf Hv.
  assert (Hct : 0 < rc_closeTimeout c).
  { unfold resolveControlChannelConfig in Hr. destruct cfg as [[e i [ct|]]|]; simpl in Hr;
      repeat case_match; simplify_eq/=; try done; apply Z.ltb_lt; done. }
  split; [done|]. destruct n as [l|]; simpl in Hv; [|by simplify_eq].
  destruct (Hwf l eq_refl) as [Hi Ht]. destruct (negb _ || _) eqn:E1; [done|].
  apply orb_false_iff in E1 as [Hen%negb_false_iff Hpos%Z.leb_gt].
  pose proof (resolved_interval cfg c Hr Hen Hpos) as Hres.
  destruct Hres as [[Hmin Hmax] Hrem]. destruct (negb _) eqn:E5; [done|]. apply negb_false_iff, Z.eqb_eq in E5.
  unfold minHeartbeatInterval, maxHeartbeatInterval, second, minute, millisecond in *.
  pose proof (Z.quot_rem' (rc_interval c) 1000000) as Hq. rewrite Hrem in Hq.
  rewrite u32_small in E5 by lia.
  assert (Ei : i64 (HeartbeatTimeoutMs l * 1000000) = HeartbeatTimeoutMs l * 1000000).
  { apply i64_small. lia. }
  rewrite Ei in Hv. destruct (_ || _) eqn:E6; [done|].
  apply orb_false_iff in E6 as [?%Z.ltb_ge E7]. rewrite Z.gtb_ltb in E7. apply Z.ltb_ge in E7.
  unfold maxHeartbeatTimeout, minute in E7. simplify_eq. split_and!; try lia.
  unfold requested, millisecond. rewrite Hen. simpl. destruct (Z.ltb_spec 0 (rc_interval c)); [|lia].
  rewrite u32_small by lia. by rewrite E5.
Qed.

Lemma negotiated_liveness_sound_witness :
  validateNegotiatedControlLiveness true (5 * second) (Some (MkLiveness 5000 15000)) = Ok (15 * second) /\
  5 * second <= 15 * second <= 15 * minute.
Proof.
  split; [reflexivity|].
  exact (proj2 (proj2 (proj2 (proj2 (proj2
    (negotiated_liveness_sound None (MkResolved true (5 * second) (5 * second)) (Some (MkLiveness 5000 15000))
      (15 * second) eq_refl ltac:(intros l [= <-]; split; done) eq_refl)))))).
Defined.

(** ** Heartbeats *)

(** A heartbeat the client sends, or a message of the engine. *)
Inductive beat := BSend | BReceive (h : option Heartbeat).

(** The state, and the acknowledgements accepted so far, newest first. *)
Definition run_beat (st : ctrl * list Z) (b : beat) : ctrl * list Z :=
  let '(c, acks) := st in
  match b with
  | BSend => (fst (sendHeartbeat c), acks)
  | BReceive h => match handleHeartbeat h c with
                  | Ret (None, c') => (c', cc_heartbeatAcknowledgement c' :: acks)
                  | Ret (Some _, c') => (c', acks)
                  | _ => (c, acks)
                  end
  end.

Fixpoint sends (bs : list beat) : Z :=
  match bs with
  | [] => 0
  | BSend :: r => 1 + sends r
  | BReceive _ :: r => sends r
  end.

Lemma sends_nonneg bs : 0 <= sends bs.
Proof. induction bs as [|[] bs IH]; simpl; lia. Qed.

(** Acknowledgements, newest first, decrease. *)
Fixpoint descending (n : Z) (acks : list Z) : Prop :=
  match acks with
  | [] => True
  | a :: r => 0 < a <= n /\ descending (a - 1) r
  end.

Lemma descending_le n m acks : n <= m -> descending n acks -> descending m acks.
Proof. destruct acks; simpl; [done|]. intros ? []. split; [lia|done]. Qed.

(** Acceptance of an acknowledgement: only what was sent, and never twice. *)
Definition acceptable (c : ctrl) (h : option Heartbeat) : bool :=
  (0 <? cc_heartbeatTimeout c) &&
  match h with
  | Some b => (hb_Sequence b =? 0) && (cc_heartbeatAcknowledgement c <? hb_Acknowledgement b)
              && (hb_Acknowledgement b <=? cc_heartbeatSequence c)
  | None => false
  end.

Lemma handleHeartbeat_spec c h :
  0 <= cc_heartbeatAcknowledgement c -> (forall b, h = Some b -> 0 <= hb_Acknowledgement b) ->
  handleHeartbeat h c =
    if acceptable c h then Ret (None, {| c with cc_heartbeatAcknowledgement :=
      match h with Some b => hb_Acknowledgement b | None => 0 end |})
    else Ret (Some (if 0 <? cc_heartbeatTimeout c then EHeartbeatInvalid else EHeartbeatNotNegotiated), c).
Proof.
  intros Ha Hb. unfold handleHeartbeat, bind, get, acceptable.
  destruct (Z.leb_spec (cc_heartbeatTimeout c) 0), (Z.ltb_spec 0 (cc_heartbeatTimeout c)); try lia; simpl; [done|].
  destruct h as [b|]; [|done]. specialize (Hb b eq_refl).
  destruct (Z.eqb_spec (hb_Sequence b) 0), (Z.eqb_spec (hb_Acknowledgement b) 0),
    (Z.leb_spec (hb_Acknowledgement b) (cc_heartbeatAcknowledgement c)),
    (Z.ltb_spec (cc_heartbeatAcknowledgement c) (hb_Acknowledgement b)),
    (Z.leb_spec (hb_Acknowledgement b) (cc_heartbeatSequence c)); try lia; simpl; rewrite ?Z.gtb_ltb;
    try (destruct (Z.ltb_spec (cc_heartbeatSequence c) (hb_Acknowledgement b)); try lia); done.
Qed.

Record beats_inv (n : Z) (st : ctrl * list Z) : Prop := {
  bi_timeout : 0 < cc_heartbeatTimeout st.1;
  bi_seq : cc_heartbeatSequence st.1 = n;
  bi_ack : 0 <= cc_heartbeatAcknowledgement st.1 <= n;
  bi_acks : descending (cc_heartbeatAcknowledgement st.1) st.2;
}.

Definition wf_beat (b : beat) : Prop :=
  match b with BReceive (Some h) => 0 <= hb_Acknowledgement h < 2 ^ 64 | _ => True end.

Lemma run_beat_inv n st b :
  beats_inv n st -> wf_beat b -> 0 <= n < 2 ^ 64 - 1 ->
  beats_inv (n + sends [b]) (run_beat st b).
Proof.
  destruct st as [c acks]. intros [] Hb Hn. simpl in *. destruct b as [|h].
  - cbn [run_beat sendHeartbeat sends]. destruct (Z.ltb_spec 0 (cc_heartbeatTimeout c)); [|lia]. cbn.
    rewrite bi_seq0, u64_small by lia. destruct (Z.eqb_spec (n + 1) 0); [lia|].
    constructor; cbn; try done; lia.
  - cbn [run_beat sends]. rewrite handleHeartbeat_spec; [|lia|intros b ->; simpl in Hb; lia].
    destruct (acceptable c h) eqn:Ea.
    + unfold acceptable in Ea. destruct h as [b|]; [|by rewrite andb_false_r in Ea].
      apply andb_true_iff in Ea as [_ [[_ H1%Z.ltb_lt]%andb_true_iff H2%Z.leb_le]%andb_true_iff].
      constructor; cbn; [done|lia|lia|]. split; [lia|]. eapply descending_le; [|done]. lia.
    + constructor; cbn; try done; lia.
Qed.

(** Heartbeat numbers never run backwards.  Starting from a fresh channel with
    negotiated liveness, for any interleaving of heartbeats sent (fewer than
    [2^64 - 1]) and messages received, the sequence number counts the heartbeats
    sent, the acknowledgements accepted are strictly increasing, each of them
    acknowledges a heartbeat already sent, and an acknowledgement is accepted
    exactly when it does so and is new. *)
Theorem heartbeat_window c bs :
  0 < cc_heartbeatTimeout c -> cc_heartbeatSequence c = 0 -> cc_heartbeatAcknowledgement c = 0 ->
  Forall wf_beat bs -> sends bs < 2 ^ 64 - 1 ->
  let '(c', acks) := fold_left run_beat bs (c, []) in
  cc_heartbeatSequence c' = sends bs /\
  descending (sends bs) acks /\
  0 <= cc_heartbeatAcknowledgement c' <= sends bs /\
  (forall h, wf_beat (BReceive h) ->
     acceptable c' h = true <-> exists c'', handleHeartbeat h c' = Ret (None, c'')).
Proof.
  intros Ht Hs Ha Hwf Hn.
  assert (Hgen : forall n st, beats_inv n st -> 0 <= n -> n + sends bs < 2 ^ 64 - 1 ->
            beats_inv (n + sends bs) (fold_left run_beat bs st)).
  { clear -Hwf. induction bs as [|b bs IH]; intros n st Hi Hn Hlt; simpl fold_left.
    - simpl. by rewrite Z.add_0_r.
    - apply Forall_cons in Hwf as [Hb Hbs]. pose proof (sends_nonneg bs).
      assert (Hsplit : sends (b :: bs) = sends [b] + sends bs) by (destruct b; simpl; lia).
      assert (0 <= sends [b]) by apply sends_nonneg.
      rewrite Hsplit, Z.add_assoc. apply IH; [done|apply run_beat_inv; [done..|lia]|lia|lia]. }
  specialize (Hgen 0 (c, []) ltac:(constructor; simpl; [done|done|lia|done]) ltac:(lia) ltac:(lia)).
  destruct (fold_left run_beat bs (c, [])) as [c' acks]. destruct Hgen as [G1 G2 G3 G4]. simpl in *.
  split_and!; [done|eapply descending_le; [|done]; lia|lia|lia|]. intros h Hh.
  rewrite handleHeartbeat_spec by (try lia; intros b ->; simpl in Hh; lia).
  destruct (acceptable c' h); split; try done; [eauto|by intros [? ?]].
Qed.

Definition beating : ctrl := Connected (5 * second) (15 * second) true false 0 0 0.

Definition beating_run : list beat :=
  [BSend; BSend; BReceive (Some (MkHeartbeat 0 2)); BReceive (Some (MkHeartbeat 0 1)); BSend;
   BReceive (Some (MkHeartbeat 0 3))].

Lemma heartbeat_window_witness : exists c' acks,
  fold_left run_beat beating_run (beating, []) = (c', acks) /\ cc_heartbeatSequence c' = 3 /\ descending 3 acks.
Proof.
  assert (Hw : Forall wf_beat beating_run) by (repeat constructor; simpl; lia).
  pose proof (heartbeat_window beating beating_run ltac:(vm_compute; reflexivity) ltac:(reflexivity) ltac:(reflexivity)
    Hw ltac:(vm_compute; reflexivity)) as H.
  destruct (fold_left run_beat beating_run (beating, [])) as [c' acks]. exists c', acks.
  split; [reflexivity|]. split; [exact (proj1 H)|exact (proj1 (proj2 H))].
Defined.

(** ** Write timeouts *)

(** The timeout a heartbeat write is meant to have. *)
Definition heartbeat_bound (interval timeout : Z) : Z :=
  if 0 <? timeout then timeout else Z.min (15 * minute) (Z.max minute (3 * interval)).

(** The timeout [sendHeartbeat] gives the write when the interval is [iv]. *)
Definition write_timeout (c : ctrl) (iv : Z) : Z :=
  snd (snd (sendHeartbeat {| c with cc_heartbeatInterval := iv |})).

(** Every heartbeat write is bounded.  With the interval of an accepted
    configuration, the timeout of the write is the negotiated one or, without
    liveness, three intervals kept between one and fifteen minutes, computed
    without overflow, and it is positive; whatever the interval, a legacy
    heartbeat never waits less than one or more than fifteen minutes. *)
Theorem heartbeat_write_timeout cfg r c :
  resolveControlChannelConfig cfg = Ok r -> rc_enabled r = true -> 0 < rc_interval r ->
  write_timeout c (rc_interval r) = heartbeat_bound (rc_interval r) (cc_heartbeatTimeout c) /\
  forall iv, 0 < write_timeout c iv /\
    (cc_heartbeatTimeout c <= 0 -> minute <= write_timeout c iv <= 15 * minute).
Proof.
  intros Hr He Hp. destruct (resolved_interval cfg r Hr He Hp) as [Hi _].
  unfold minHeartbeatInterval, maxHeartbeatInterval, second, minute in Hi.
  unfold write_timeout, sendHeartbeat, heartbeat_bound, minLegacyHeartbeatWriteTimeout, maxHeartbeatTimeout, minute. cbn.
  rewrite i64_small by lia. split.
  - repeat (case_match; try lia); rewrite ?Z.gtb_ltb, ?Z.ltb_lt, ?Z.ltb_ge, ?Z.leb_le, ?Z.leb_gt in *; lia.
  - intros iv. generalize (i64 (iv * 3)). intros z.
    repeat (case_match; try lia); rewrite ?Z.gtb_ltb, ?Z.ltb_lt, ?Z.ltb_ge, ?Z.leb_le, ?Z.leb_gt in *; lia.
Qed.

Lemma heartbeat_write_timeout_witness :
  write_timeout sample_ctrl (5 * second) = minute.
Proof.
  etrans; [apply (heartbeat_write_timeout None (MkResolved true (5 * second) (5 * second)) sample_ctrl eq_refl eq_refl)|].
  - reflexivity.
  - vm_compute. reflexivity.
Defined.

(** ** Dialing a proxy connection *)

Inductive dial_outcome := Dialled | DialFailed (retryable : bool).

(** [dialProxyConnectionWithPolicy]: [dial i] is the answer of attempt [i],
    [ended i] whether the caller's context has ended by then. *)
Section Policy.
Context (dial : nat -> dial_outcome) (ended : nat -> bool).

Fixpoint dial_attempts (left attempt : nat) : nat * bool :=
  match left with
  | O => (attempt, false)
  | S rest =>
      match dial attempt with
      | Dialled => (attempt, true)
      | DialFailed retryable =>
          if ended attempt || Nat.eqb rest 0 || negb retryable then (attempt, false)
          else dial_attempts rest (S attempt)
      end
  end.

Definition dialProxyConnectionWithPolicy (attempts : Z) : nat * bool :=
  dial_attempts (Z.to_nat (if attempts <? 1 then 1 else attempts)) 1.

Lemma dial_attempts_spec left attempt n ok :
  (0 < left)%nat -> dial_attempts left attempt = (n, ok) ->
  (attempt <= n < attempt + left)%nat /\
  (ok = true <-> dial n = Dialled) /\
  (forall i, (attempt <= i < n)%nat -> dial i = DialFailed true /\ ended i = false) /\
  (ok = false -> ended n = true \/ n = (attempt + left - 1)%nat \/ dial n = DialFailed false).
Proof.
  revert attempt. induction left as [|rest IH]; intros attempt Hl; [lia|]. simpl.
  destruct (dial attempt) as [|r] eqn:Ed.
  { intros [= <- <-]. split_and!; try lia; done. }
  destruct (ended attempt || Nat.eqb rest 0 || negb r) eqn:Es.
  - intros [= <- <-]. split_and!; try lia; [by rewrite Ed|]. intros _.
    apply orb_true_iff in Es as [[?|?%Nat.eqb_eq]%orb_true_iff|?%negb_true_iff]; [by left|right; left; lia|].
    right; right. by subst.
  - apply orb_false_iff in Es as [[E1 E2%Nat.eqb_neq]%orb_false_iff ?%negb_false_iff]. subst r.
    intros H. destruct (IH (S attempt) ltac:(lia) H) as (H1 & H2 & H3 & H4). split_and!; try lia; [done|..].
    + intros i Hi. destruct (decide (i = attempt)) as [->|]; [done|]. apply H3. lia.
    + intros Hok. destruct (H4 Hok) as [?|[->|?]]; [by left|right; left; lia|by right; right].
Qed.
End Policy.

(** The retry policy of proxy dials stops.  At least one and at most the
    configured number of attempts are made; every attempt before the last failed
    with a retryable error while the context was alive; the result is that of the
    last attempt; and it gives up only because the context ended, the attempts are
    used up or the error is not retryable. *)
Theorem dial_policy_bounded dial ended attempts n ok :
  dialProxyConnectionWithPolicy dial ended attempts = (n, ok) ->
  1 <= Z.of_nat n <= Z.max 1 attempts /\
  (ok = true <-> dial n = Dialled) /\
  (forall i, (1 <= i < n)%nat -> dial i = DialFailed true /\ ended i = false) /\
  (ok = false -> ended n = true \/ Z.of_nat n = Z.max 1 attempts \/ dial n = DialFailed false).
Proof.
  unfold dialProxyConnectionWithPolicy. intros H. apply dial_attempts_spec in H as (H1 & H2 & H3 & H4).
  - destruct (Z.ltb_spec attempts 1); split_and!; try done; try lia;
      intros Hok; destruct (H4 Hok) as [?|[?|?]]; auto; right; left; lia.
  - destruct (Z.ltb_spec attempts 1); lia.
Qed.

Lemma dial_policy_bounded_witness :
  dialProxyConnectionWithPolicy (fun i => if Nat.eqb i 1 then DialFailed true else Dialled) (fun _ => false) 2 = (2%nat, true) /\
  1 <= Z.of_nat 2 <= Z.max 1 2.
Proof.
  split; [reflexivity|].
  exact (proj1 (dial_policy_bounded (fun i => if Nat.eqb i 1 then DialFailed true else Dialled) (fun _ => false) 2 2 true eq_refl)).
Defined.
